(* ===== verification/_CoqProject ===== *)
-Q . S2P
Prelude.v
Chain.v
Holes.v
Pages.v
Bitops.v
Phymem.v
Kheap.v
Pgtable.v
Vm.v
YaosCall.v
Slub.v
Softirq.v
Timer.v
Printk.v
Strings.v
Grep.v
Ulib.v
Sh.v
Kthread.v
Sched.v
Umalloc.v
Virtio.v
Boot.v
Mboot.v
Pci.v
Msix.v
Altern.v
Acpi.v
Modload.v
Dlist.v
Llist.v
Fs.v
FsBlocks.v
FsFile.v
FsRw.v
FsTrunc.v
FsDir.v
FsTree.v
FsUnlink.v
Opfs.v
Mkfs.v
MkfsOk.v
MkfsTree.v
MkfsMain.v
FsTyped.v
FsSample.v
