(* ===== verification/Prelude.v ===== *)
(** * Verification of yaos

    yaos is a small x86-64 kernel with a user land and host tools.  This development
    models the parts of it that compute: the boot loader and the division of the memory, the
    memory management of the kernel, its deferred work, threads and timers, its modules, PCI
    devices and the queues of virtio devices, its libraries, user programs and the user
    library, and the tools that make and change file system images.  Paths below are relative to src/.

    ** How the code is modelled

    A C function is a function in the monad [M S A] of this file: it takes the state [S]
    of its component and returns a value with the new state ([Ret]), or stops as the code
    does: [Panicked] (panic, exit), [AssertFailed] (ASSERT), [Faulted] (a NULL pointer or an
    access outside of an object), [Hung] (a lock that is never released).  Machine integers
    are [Z] with the wrap-around written out ([u8] ... [u64], [s32], [s64]).  Loops whose
    length is not that of a list have fuel, and [NoFuel] is a result like the others: the
    theorems state that the fuel the definitions pass is enough, that is, that the code
    returns.  Records are structs, linked structures are stores with pointers ([Chain],
    [Dlist]), maps are stdpp's [gmap].

    Code that is not in the sources is a parameter with its documented behaviour as a
    hypothesis: fs.h and param.h (the classes [FsGeom] and [MkfsConf]), the functions called
    by timers, tasklets and soft interrupts, the handlers of modules, sbrk (the class [Sbrk]),
    the drive the kernel is loaded from (the class [Ata]), the bridge to the PCI bus (the
    class [Bridge]), the ports of the clock, the tables of the firmware, the results of read.
    Each such theorem has a witness with concrete instances.

    ** The files

    Foundations.
    - Prelude: the monad, machine integers, the logics [keeps] (a predicate is preserved)
      and [ends] (the code returns or panics), hints and tactics.
    - Chain: NULL-terminated lists in a store.  Holes: the pool of free ranges that
      kernel/kheap.c and kernel/vm.c share.  Pages: the interfaces between allocators,
      as classes.

    Memory management.
    - Bitops: arch/x86_64/include/asm/bitops.h.
    - Phymem: arch/x86_64/phymem.c, the bitmap of physical pages; an instance of the
      interface of Pages.
    - Kheap: kernel/kheap.c, the heap of the kernel: a block returned was free, is in no
      other block in use and is aligned; sequences of calls keep blocks disjoint.
    - Pgtable: arch/x86_64/pgtable.c: map_page_p2v changes the translation of one page
      and of no other; the tables made by init_pml4.
    - Vm: kernel/vm.c, areas of virtual addresses.
    - YaosCall: kernel/yaoscall.c, kernel/yaos_page.c and the inline callers: the table
      through which modules use the kernel.
    - Slub: module/mm/slub.c on top of YaosCall: the objects a client holds are disjoint
      after any sequence of calls, whatever the client writes into them.

    Deferred work and time.
    - Softirq: kernel/tasklet.c: the queues of tasklets, the order in which they run, and
      that one that is scheduled or running is not lost or run twice.
    - Timer: kernel/timer.c, arch/x86_64/time.c: the list of timers sorted by deadline,
      the expired ones run; dates.
    - Kthread: kernel/kthread.c, the part of kernel/smp.c that makes a thread, and the
      switch of stacks of arch/x86_64/entry64.S: the threads of a processor refine a stack
      of threads.  Sched: kernel/sched.c, the callbacks of a waiting processor.

    Booting.
    - Boot: bootloader/bootmain.c on an interface for the drive: the image is loaded where
      its header says, its bss is zero and it is entered at its entry.
    - Mboot: arch/x86_64/multiboot.c on Kheap, Phymem and Pgtable: init_e820 gives the
      allocators exactly the usable memory that is not reserved.
    - Altern: arch/x86_64/alternative.c: a patched instruction does what its replacement
      does, jumps and calls included, and no other byte changes.
    - Acpi: arch/x86_64/acpi.c: the enabled processors of the table are found, in order.
    - Modload: kernel/module.c: modules that wait for others are all loaded when no chain of
      needs is longer than the ten rounds.

    Devices.
    - Pci: arch/x86_64/include/asm/pci.h, arch/x86_64/pci.c and libs/libpci: the ranges behind
      base address registers are sized and the registers restored, capabilities are found, a
      circular list included, the scan lists the functions that are present.
    - Msix: the MSI-X part of libs/libpci on Pci and Pgtable: enabling masks every entry of
      the table, no other word, and changes only three bits of the configuration space.
    - Virtio: libs/libvirtio: the rings, with the device as a second actor: for every
      interleaving of driver and device each request reaches the device once and comes
      back once.

    Libraries and programs.
    - Printk: kernel/printk.c: vsprintf is total and writes what the conversions denote.
    - Strings: libs/string and arch/x86_64/string64.c: the word-wise functions equal the
      byte-wise definitions at every alignment.
    - Dlist, Llist: include/yaos/list.h and llist.h: the ring operations refine list
      operations; the lock-less list, interleaved at its shared accesses, is linearizable.
    - Grep, Sh: user/grep.c and user/sh.c: the matcher is the language of its patterns,
      the parser inverts a printer and is total.
    - Umalloc: ulib/umalloc.c on an interface for sbrk: every client that uses only what
      it has gets disjoint blocks that keep their contents, and what is freed is joined.
    - Ulib: ulib/ulib.c, ulib/printf.c and user/wc.c: gets and strcpy stay in their
      buffers, atoi reads what printf writes, wc counts whatever the blocks of its input.

    File system images.
    - Fs: tools/libfs.c, the whole library.  FsBlocks: the bitmap and the inode table, and
      the logic [runs k m img Q]: [m] returns with [Q] when [k] blocks are free, and the only
      other outcome is the panic of a full disk.  FsFile, FsRw, FsTrunc: a file as a list
      of blocks and then as a list of bytes; iread, iwrite and itruncate act on that list and
      on no other file.  FsDir, FsTree, FsUnlink: directories as lists of entries, path
      names as walks, the making and removing of files.
    - Opfs: tools/opfs.c, every command and the command table; put, get, mkdir and rm are
      specified by [content] and [resolve].
    - Mkfs: tools/mkfs.c.  MkfsOk, MkfsTree, MkfsMain: the image it makes is one on which
      opfs works and in which get finds every file of the command line.
    - FsTyped: every command keeps the widths of all bytes and inode fields.
    - FsSample: a small geometry and image on which the hypotheses of these theorems hold.

    ** Bounds and fuel

    The fuel of a loop is computed from the data it runs over: the length of a string or
    list, the size of a file, the number of blocks or inodes of the super block, the words
    of the bitmap.  Where a loop has no such bound, as the retry of a compare-and-swap,
    the code is a step relation without fuel.  Sizes are bounded by what the types of the
    code can hold (an image has fewer than 2^31 blocks, a file fewer than 2^31 bytes).

    ** Not modelled

    - Concurrency between processors, except in Llist: the kernel's locks are modelled on
      one processor, memory ordering is not modelled.
    - Device and processor set-up: the APICs, HPET, serial and screen output, the registers
      of virtio devices and the network driver, the segments and interrupt tables, and the
      assembly entry code.  What these files do is to read and write registers whose
      behaviour is not in the sources.
    - What threads do with their stacks, and the threads of other processors.
    - The initcall loop of kernel/main.c, over tables made by the linker script.
    - User programs that only make system calls, and usertests.c, which only tests.
    - extern/, code of other projects.
*)

From stdpp Require Import base gmap list numbers option sorting.
From Stdlib Require Import Lia ZArith.

#[local] Open Scope Z_scope.

(** ** Outcomes of a run of C code

    A run either returns a value and the final state, or stops in one of the
    ways kernel code can stop. *)

Inductive outcome (S A : Type) : Type :=
| Ret (a : A) (s : S)      (* the function returns *)
| Panicked                 (* [panic ()]: prints and halts the processor *)
| AssertFailed             (* a failing [ASSERT]: prints and spins in [BUG ()] *)
| Faulted                  (* a NULL or out-of-object access *)
| Hung                     (* spins for ever on a lock this processor holds *)
| NoFuel.                  (* the loop bound given to the model was reached *)
Arguments Ret {S A} a s.
Arguments Panicked {S A}.
Arguments AssertFailed {S A}.
Arguments Faulted {S A}.
Arguments Hung {S A}.
Arguments NoFuel {S A}.

(** The state and outcome monad all stateful operations are written in. *)
Definition M (S A : Type) : Type := S → outcome S A.

#[export] Instance M_ret {S} : MRet (M S) := λ A a s, Ret a s.
#[export] Instance M_bind {S} : MBind (M S) := λ A B f m s,
  match m s with
  | Ret a s' => f a s'
  | Panicked => Panicked
  | AssertFailed => AssertFailed
  | Faulted => Faulted
  | Hung => Hung
  | NoFuel => NoFuel
  end.

Definition panic {S A} : M S A := λ _, Panicked.
Definition fault {S A} : M S A := λ _, Faulted.
Definition out_of_fuel {S A} : M S A := λ _, NoFuel.
Definition gets {S A} (f : S → A) : M S A := λ s, Ret (f s) s.
Definition modify {S} (f : S → S) : M S unit := λ s, Ret tt (f s).

(** [ASSERT(x)] of include/yaos/assert.h, compiled with DEBUG as the Makefile
    does. *)
Definition ASSERT {S} (b : bool) : M S unit :=
  λ s, if b then Ret tt s else AssertFailed.

(** Dereferencing a pointer that may be NULL. *)
Definition deref {S A} (p : option A) : M S A :=
  match p with Some a => mret a | None => fault end.

(** Running an operation of a sub-component on its part of the state. *)
Definition zoom {S T A} (get : S → T) (put : T → S → S) (m : M T A) : M S A :=
  λ s, match m (get s) with
       | Ret a t => Ret a (put t s)
       | Panicked => Panicked
       | AssertFailed => AssertFailed
       | Faulted => Faulted
       | Hung => Hung
       | NoFuel => NoFuel
       end.

(** A C [for] loop over the [n] indices [i], [i+1], ... *)
Fixpoint for_range {St} (n i : nat) (body : nat → M St unit) : M St unit :=
  match n with
  | O => mret tt
  | S n' => body i ≫= λ _, for_range n' (S i) body
  end.

(** The value a run returns. *)
Definition ret_val {S A} (r : outcome S A) : option A :=
  match r with Ret a _ => Some a | _ => None end.
Definition ret_state {S A} (r : outcome S A) : option S :=
  match r with Ret _ s => Some s | _ => None end.

Lemma ret_val_Some {S A} (r : outcome S A) a :
  ret_val r = Some a → ∃ s, r = Ret a s ∧ ret_state r = Some s.
Proof. destruct r; simpl; intros; simplify_eq; eauto. Qed.

Lemma bind_ret {S A B} (m : M S A) (f : A → M S B) s a s' :
  m s = Ret a s' → (m ≫= f) s = f a s'.
Proof. intros H. unfold mbind, M_bind. by rewrite H. Qed.

Lemma bind_inv {S A B} (m : M S A) (f : A → M S B) s b s'' :
  (m ≫= f) s = Ret b s'' → ∃ a s', m s = Ret a s' ∧ f a s' = Ret b s''.
Proof.
  unfold mbind, M_bind. destruct (m s) eqn:E; try discriminate. eauto.
Qed.

Lemma bind_assoc {S A B C} (m : M S A) (f : A → M S B) (g : B → M S C) s :
  ((m ≫= f) ≫= g) s = (m ≫= (λ a, f a ≫= g)) s.
Proof. unfold mbind, M_bind. by destruct (m s). Qed.

Lemma zoom_ret {S T A} (get : S → T) put (m : M T A) s a t :
  m (get s) = Ret a t → zoom get put m s = Ret a (put t s).
Proof. intros H. unfold zoom. by rewrite H. Qed.

(** ** Preserved predicates

    [keeps I m]: whenever [m] returns, it leaves [I] true.  The lemmas follow the
    shape of the programs, so that [keep] proves the common cases. *)

Definition keeps {S A} (I : S → Prop) (m : M S A) : Prop :=
  ∀ s a s', I s → m s = Ret a s' → I s'.

Lemma keeps_ret {S A} (I : S → Prop) (a : A) : keeps I (mret a).
Proof. intros s b s' HI [= _ <-]. done. Qed.

Lemma keeps_gets {S A} (I : S → Prop) (f : S → A) : keeps I (gets f).
Proof. intros s b s' HI [= _ <-]. done. Qed.

Lemma keeps_modify {S} (I : S → Prop) (f : S → S) : (∀ s, I s → I (f s)) → keeps I (modify f).
Proof. intros Hf s b s' HI [= _ <-]. auto. Qed.

Lemma keeps_assert {S} (I : S → Prop) b : keeps I (ASSERT b).
Proof. intros s [] s'. unfold ASSERT. destruct b; by intros ? [= <-]. Qed.

Lemma keeps_stop {S A} (I : S → Prop) (m : M S A) : (∀ s a s', m s ≠ Ret a s') → keeps I m.
Proof. intros Hm s a s' _ E. by apply Hm in E. Qed.

Lemma keeps_panic {S A} (I : S → Prop) : keeps I (panic (A:=A)).
Proof. by apply keeps_stop. Qed.
Lemma keeps_fault {S A} (I : S → Prop) : keeps I (fault (A:=A)).
Proof. by apply keeps_stop. Qed.
Lemma keeps_out_of_fuel {S A} (I : S → Prop) : keeps I (out_of_fuel (A:=A)).
Proof. by apply keeps_stop. Qed.

Lemma keeps_bind {S A B} (I : S → Prop) (m : M S A) (f : A → M S B) :
  keeps I m → (∀ a, keeps I (f a)) → keeps I (m ≫= f).
Proof. intros Hm Hf s b s'' HI (a & s' & E & E')%bind_inv. eapply Hf, E'. by eapply Hm. Qed.

Lemma keeps_zoom {S T A} (I : S → Prop) (J : T → Prop) get put (m : M T A) :
  keeps J m → (∀ s, I s → J (get s)) → (∀ s t, I s → J t → I (put t s)) →
  keeps I (zoom get put m).
Proof.
  intros Hm Hg Hp s a s' HI. unfold zoom. destruct (m (get s)) as [b t| | | | |] eqn:E; try done.
  intros [= <- <-]. apply Hp; [done|]. eapply Hm, E. auto.
Qed.

Lemma keeps_for {S} (I : S → Prop) n i (body : nat → M S unit) :
  (∀ j, keeps I (body j)) → keeps I (for_range n i body).
Proof.
  intros Hb. revert i. induction n as [|n IH]; intros i; simpl; [apply keeps_ret|].
  apply keeps_bind; auto.
Qed.

(** ** Programs that return or panic

    [ends m s Q]: from [s], [m] returns and [Q] holds of the result, or it stops the
    machine with a panic message; it does not fault, hang or fail an assertion. *)

Definition ends {S A} (m : M S A) (s : S) (Q : A → S → Prop) : Prop :=
  match m s with Ret a s' => Q a s' | Panicked => True | _ => False end.

Lemma ends_ret {S A} (m : M S A) s a s' (Q : A → S → Prop) : m s = Ret a s' → Q a s' → ends m s Q.
Proof. unfold ends. by intros ->. Qed.

Lemma ends_bind {S A B} (m : M S A) (f : A → M S B) s (Q : B → S → Prop) :
  ends m s (λ a s', ends (f a) s' Q) → ends (m ≫= f) s Q.
Proof. unfold ends, mbind, M_bind. by destruct (m s). Qed.

Lemma ends_mono {S A} (m : M S A) s (P Q : A → S → Prop) :
  ends m s P → (∀ a s', P a s' → Q a s') → ends m s Q.
Proof. unfold ends. destruct (m s); auto. Qed.

Lemma ends_step {S A B} (m : M S A) (f : A → M S B) s a s' (Q : B → S → Prop) :
  m s = Ret a s' → ends (f a) s' Q → ends (m ≫= f) s Q.
Proof. intros E HQ. apply ends_bind. by eapply ends_ret. Qed.

Lemma ends_zoom {S T A} (get : S → T) put (m : M T A) s (Q : A → S → Prop) :
  ends m (get s) (λ a t, Q a (put t s)) → ends (zoom get put m) s Q.
Proof. unfold ends, zoom. by destruct (m (get s)). Qed.

(** ** Machine integers

    A C integer of width [w] is a [Z]; the operations that can leave the
    range of its type apply the wrap-around. *)

Definition wrap (w : Z) (x : Z) : Z := x mod 2 ^ w.
Definition u8 : Z → Z := wrap 8.
Definition u16 : Z → Z := wrap 16.
Definition u32 : Z → Z := wrap 32.
Definition u64 : Z → Z := wrap 64.

(** The value of a [w]-bit pattern read as a signed integer. *)
Definition signed (w : Z) (x : Z) : Z :=
  let y := wrap w x in if y <? 2 ^ (w - 1) then y else y - 2 ^ w.
Definition s32 : Z → Z := signed 32.
Definition s64 : Z → Z := signed 64.

Definition in_u (w : Z) (x : Z) : Prop := 0 ≤ x < 2 ^ w.

Lemma wrap_id w x : in_u w x → wrap w x = x.
Proof. intros H. apply Z.mod_small, H. Qed.

Lemma wrap_range w x : 0 ≤ w → in_u w (wrap w x).
Proof. intros H. apply Z.mod_pos_bound. by apply Z.pow_pos_nonneg. Qed.

Lemma u64_id x : in_u 64 x → u64 x = x.
Proof. apply wrap_id. Qed.

Lemma u64_range x : in_u 64 (u64 x).
Proof. by apply wrap_range. Qed.

(** [2 ^ 64] and its neighbours as literals, so that [lia] can use them. *)
Lemma signed_id w x : 0 < w → - 2 ^ (w - 1) ≤ x < 2 ^ (w - 1) → signed w x = x.
Proof.
  intros Hw Hx. assert (2 ^ w = 2 * 2 ^ (w - 1)) as E by (rewrite <- Z.pow_succ_r by lia; f_equal; lia).
  unfold signed, wrap. rewrite E. set (h := 2 ^ (w - 1)) in *. clearbody h.
  destruct (decide (0 ≤ x)).
  - rewrite Z.mod_small by lia. destruct (Z.ltb_spec x h); lia.
  - replace (x mod (2 * h)) with (x + 2 * h) by (apply (Z.mod_unique _ _ (-1)); lia).
    destruct (Z.ltb_spec (x + 2 * h) h); lia.
Qed.

Lemma s32_id x : - 2 ^ 31 ≤ x < 2 ^ 31 → s32 x = x.
Proof. intros Hx. by apply signed_id. Qed.

Lemma s64_id x : - 2 ^ 63 ≤ x < 2 ^ 63 → s64 x = x.
Proof. intros Hx. by apply signed_id. Qed.

Lemma u32_small x : 0 ≤ x < 2 ^ 32 → u32 x = x.
Proof. intros Hx. by apply wrap_id. Qed.

Lemma s32_range x : - 2 ^ 31 ≤ s32 x < 2 ^ 31.
Proof.
  unfold s32, signed. pose proof (wrap_range 32 x ltac:(lia)) as Hr. unfold in_u in Hr.
  change (2 ^ (32 - 1)) with (2 ^ 31). destruct (Z.ltb_spec (wrap 32 x) (2 ^ 31)); lia.
Qed.

Lemma pow64 : 2 ^ 64 = 18446744073709551616.
Proof. reflexivity. Qed.
Lemma pow32 : 2 ^ 32 = 4294967296.
Proof. reflexivity. Qed.

(** ** Alignment *)

Definition aligned (a x : Z) : Prop := x mod a = 0.

#[export] Instance aligned_dec a x : Decision (aligned a x).
Proof. unfold aligned. apply _. Defined.

Lemma aligned_add a x y : aligned a x → aligned a y → aligned a (x + y).
Proof.
  unfold aligned. intros Hx Hy. destruct (decide (a = 0)) as [->|].
  - rewrite !Z.mod_0_r in *. lia.
  - by rewrite Zplus_mod, Hx, Hy.
Qed.

Lemma aligned_sub a x y : aligned a x → aligned a y → aligned a (x - y).
Proof.
  unfold aligned. intros Hx Hy. destruct (decide (a = 0)) as [->|].
  - rewrite !Z.mod_0_r in *. lia.
  - by rewrite Zminus_mod, Hx, Hy.
Qed.

Lemma aligned_mul a k : aligned a (k * a).
Proof. unfold aligned. destruct (decide (a = 0)) as [->|]; [rewrite Z.mod_0_r; lia|]. by apply Z.mod_mul. Qed.

(** Masking with [2^k - 1] and with its complement. *)
Lemma land_mask k x : 0 ≤ k → Z.land x (2 ^ k - 1) = x mod 2 ^ k.
Proof. intros. rewrite <- Z.land_ones, Z.ones_equiv by done. done. Qed.

Lemma land_not_mask k x : 0 ≤ k → Z.land x (- 2 ^ k) = x - x mod 2 ^ k.
Proof.
  intros Hk. rewrite <- land_mask by done.
  replace (- 2 ^ k) with (Z.lnot (2 ^ k - 1)) by (unfold Z.lnot; lia).
  rewrite <- Z.ldiff_land.
  pose proof (Z.sub_nocarry_ldiff x (Z.land x (2 ^ k - 1))) as E.
  assert (Z.ldiff (Z.land x (2 ^ k - 1)) x = 0) as E0.
  { apply Z.bits_inj'. intros i Hi.
    rewrite Z.ldiff_spec, Z.land_spec, Z.bits_0. by destruct (Z.testbit x i), (Z.testbit (2 ^ k - 1) i). }
  rewrite (E E0). apply Z.bits_inj'. intros i Hi.
  rewrite !Z.ldiff_spec, Z.land_spec.
  by destruct (Z.testbit x i), (Z.testbit (2 ^ k - 1) i).
Qed.

(** ** Lists *)

Lemma filter_none {A} (P : A → Prop) `{!∀ x, Decision (P x)} (l : list A) :
  (∀ x, x ∈ l → ¬ P x) → filter P l = [].
Proof.
  induction l as [|x l IH]; intros Hn; [done|]. rewrite filter_cons_False by (apply Hn; by apply elem_of_cons; left).
  apply IH. intros y Hy. apply Hn. by apply elem_of_cons; right.
Qed.

Lemma filter_same {A} (P Q : A → Prop) `{!∀ x, Decision (P x), !∀ x, Decision (Q x)} (l : list A) :
  (∀ x, x ∈ l → P x ↔ Q x) → filter P l = filter Q l.
Proof.
  induction l as [|x l IH]; intros Hn; [done|]. rewrite !filter_cons.
  assert (filter P l = filter Q l) as -> by (apply IH; intros y Hy; apply Hn; by apply elem_of_cons; right).
  specialize (Hn x ltac:(by apply elem_of_cons; left)). by destruct (decide (P x)), (decide (Q x)); try tauto.
Qed.

Lemma Forall2_impl_elem {A B} (P Q : A → B → Prop) l k :
  Forall2 P l k → (∀ x y, x ∈ l → P x y → Q x y) → Forall2 Q l k.
Proof.
  induction 1 as [|x y l k Hxy _ IH]; intros H; constructor.
  - apply H; [by apply elem_of_cons; left|done].
  - apply IH. intros x' y' Hx'. apply H. by apply elem_of_cons; right.
Qed.

(** The number of indices below [n] for which [f] holds. *)
Fixpoint count (f : Z → bool) (n : nat) : nat :=
  match n with
  | O => 0
  | S n => count f n + if f (Z.of_nat n) then 1 else 0
  end.

Lemma count_ext f g n :
  (∀ i, 0 ≤ i < Z.of_nat n → f i = g i) → count f n = count g n.
Proof.
  induction n as [|n IH]; intros H; simpl; [done|].
  rewrite IH, H by lia || (intros; apply H; lia). done.
Qed.

Lemma count_flip f g n i :
  0 ≤ i < Z.of_nat n → f i = true → g i = false →
  (∀ j, j ≠ i → f j = g j) → count f n = S (count g n).
Proof.
  intros Hi Hf Hg H. induction n as [|n IH]; simpl; [lia|].
  destruct (decide (i = Z.of_nat n)) as [->|].
  - rewrite Hf, Hg, (count_ext f g n) by (intros; apply H; lia). lia.
  - rewrite IH, (H (Z.of_nat n)) by lia. lia.
Qed.

Lemma count_le f n : (count f n ≤ n)%nat.
Proof. induction n as [|n IH]; simpl; [lia|]. destruct (f _); lia. Qed.

Lemma count_zero f n : count f n = 0%nat → ∀ i, 0 ≤ i < Z.of_nat n → f i = false.
Proof.
  induction n as [|n IH]; simpl; intros H i Hi; [lia|].
  destruct (decide (i = Z.of_nat n)) as [->|].
  - destruct (f (Z.of_nat n)); [lia|done].
  - apply IH; [destruct (f (Z.of_nat n)); lia|lia].
Qed.

Lemma count_false f n : (∀ i, 0 ≤ i < Z.of_nat n → f i = false) → count f n = 0%nat.
Proof.
  induction n as [|n IH]; simpl; intros H; [done|]. rewrite IH, H; [done|lia|].
  intros. apply H. lia.
Qed.

(** ** Proof automation *)

Declare Scope yaos_scope.
Delimit Scope yaos_scope with yaos.

(** C's bitwise operators. *)
Notation "x .& y" := (Z.land x y) (at level 40, left associativity) : yaos_scope.
Notation "x .| y" := (Z.lor x y) (at level 45, left associativity) : yaos_scope.
Notation "x .^ y" := (Z.lxor x y) (at level 43, left associativity) : yaos_scope.
Notation "x .<< n" := (Z.shiftl x n) (at level 39, left associativity) : yaos_scope.
Notation "x .>> n" := (Z.shiftr x n) (at level 39, left associativity) : yaos_scope.

Create HintDb yaos discriminated.

(** One step of the monad: execute a primitive at the head of the program. *)
Ltac mstep :=
  first
    [ erewrite bind_ret by reflexivity
    | erewrite bind_ret by eassumption
    | erewrite bind_ret by (eauto with yaos) ].
Ltac msteps := repeat (mstep; simpl).

(** Reads a hypothesis of the form [(m ≫= f) s = Ret b s'] backwards. *)
Ltac minv H :=
  let a := fresh "a" in let s := fresh "s" in
  let E := fresh "E" in
  apply bind_inv in H as (a & s & E & H).

(** Case analysis on the boolean comparisons of [Z] in the goal. *)
Ltac zcase :=
  match goal with
  | |- context [Z.eqb ?a ?b] => destruct (Z.eqb_spec a b)
  | |- context [Z.ltb ?a ?b] => destruct (Z.ltb_spec a b)
  | |- context [Z.leb ?a ?b] => destruct (Z.leb_spec a b)
  end.
Ltac zcase_in H :=
  match type of H with
  | context [Z.eqb ?a ?b] => destruct (Z.eqb_spec a b)
  | context [Z.ltb ?a ?b] => destruct (Z.ltb_spec a b)
  | context [Z.leb ?a ?b] => destruct (Z.leb_spec a b)
  end.

#[export] Hint Resolve keeps_ret keeps_gets keeps_assert keeps_panic keeps_fault
  keeps_out_of_fuel : yaos.

(** Proves [keeps I m] along the structure of [m]. *)
Ltac keep :=
  repeat match goal with
  | |- keeps _ (_ ≫= _) => apply keeps_bind; [|intros ?]
  | |- keeps _ (for_range _ _ _) => apply keeps_for; intros ?
  | |- keeps _ (if ?b then _ else _) => destruct b
  | |- keeps _ (match ?b with _ => _ end) => destruct b
  | |- keeps _ (let _ := _ in _) => cbv zeta
  end; auto with yaos.

#[export] Hint Resolve aligned_add aligned_sub aligned_mul : yaos.
