(* ===== verification/Chain.v ===== *)
(** * Singly linked lists in a store

    Most kernel components keep their objects on NULL-terminated singly linked
    lists threaded through a static array or through allocated memory
    (struct kheap_t, linear_t, timeout_callback, callback, tasklet_struct,
    freelink, llist_node).  This file has the predicate that relates such a
    list to the sequence of its nodes, and the lemmas on following, extending
    and cutting it, independent of the type of the store: a store is seen
    through the function [nx] that gives the next pointer of a node, [None]
    where there is no node. *)

From stdpp Require Import base gmap list option.
From S2P Require Import Prelude.

Section chain.
Context {K : Type}.
Implicit Types (nx : K → option (option K)) (p q : option K) (k : K) (ks : list K).

(** [lseg nx p ks q]: following next pointers from [p] visits the nodes [ks]
    and arrives at [q]. *)
Fixpoint lseg nx p ks q : Prop :=
  match ks with
  | [] => p = q
  | k :: ks' => p = Some k ∧ ∃ p', nx k = Some p' ∧ lseg nx p' ks' q
  end.

(** A NULL-terminated list. *)
Definition chain nx p ks : Prop := lseg nx p ks None.

Lemma lseg_app nx p ks1 ks2 q :
  lseg nx p (ks1 ++ ks2) q ↔ ∃ r, lseg nx p ks1 r ∧ lseg nx r ks2 q.
Proof. revert p. induction ks1 as [|k ks1 IH]; intros p; simpl; naive_solver. Qed.

(** A segment depends only on the next pointers of its own nodes. *)
Lemma lseg_ext nx nx' p ks q :
  (∀ k, k ∈ ks → nx' k = nx k) → lseg nx p ks q → lseg nx' p ks q.
Proof.
  revert p. induction ks as [|k ks IH]; intros p Hext; simpl; [done|].
  intros (-> & p' & Hk & Hs). split; [done|]. exists p'.
  rewrite Hext by set_solver. split; [done|]. apply IH; [|done]. set_solver.
Qed.

Lemma lseg_snoc nx p ks k q :
  lseg nx p (ks ++ [k]) q ↔ lseg nx p ks (Some k) ∧ nx k = Some q.
Proof. rewrite lseg_app. simpl. naive_solver. Qed.

Lemma chain_functional nx p ks ks' : chain nx p ks → chain nx p ks' → ks = ks'.
Proof.
  unfold chain. revert p ks'. induction ks as [|k ks IH]; intros p [|k' ks']; simpl;
    naive_solver.
Qed.

(** A NULL-terminated list has no repeated node, so walking it ends. *)
Lemma chain_nodup nx p ks : chain nx p ks → NoDup ks.
Proof.
  unfold chain. revert p. induction ks as [|k ks IH]; intros p; simpl; [constructor|].
  intros (-> & p' & Hk & Hs). constructor; [|by eapply IH].
  intros (l1 & l2 & ->)%list_elem_of_split.
  pose proof Hs as Hs'. apply lseg_app in Hs' as (r & _ & Hs2).
  simpl in Hs2. destruct Hs2 as (-> & p'' & Hk'' & Hs2). simplify_eq.
  pose proof (chain_functional nx _ _ _ Hs Hs2) as E.
  apply (f_equal length) in E. rewrite length_app in E. simpl in E. lia.
Qed.

Lemma chain_mid nx p ks1 k ks2 :
  chain nx p (ks1 ++ k :: ks2) ↔
  lseg nx p ks1 (Some k) ∧ ∃ q, nx k = Some q ∧ chain nx q ks2.
Proof. unfold chain. rewrite lseg_app. simpl. naive_solver. Qed.

Lemma chain_head nx p ks : chain nx p ks → p = head ks.
Proof. unfold chain. destruct ks; simpl; naive_solver. Qed.

Lemma chain_None nx ks : chain nx None ks → ks = [].
Proof. unfold chain. destruct ks; simpl; naive_solver. Qed.

Lemma chain_Some nx k ks :
  chain nx (Some k) ks → ∃ q ks', ks = k :: ks' ∧ nx k = Some q ∧ chain nx q ks'.
Proof. unfold chain. destruct ks; simpl; naive_solver. Qed.

Lemma chain_lookup nx p ks k : chain nx p ks → k ∈ ks → is_Some (nx k).
Proof.
  unfold chain. revert p. induction ks as [|k' ks IH]; intros p; simpl; [set_solver|].
  intros (-> & p' & Hk & Hs) [->|Hin]%elem_of_cons; eauto.
Qed.

(** Pushing a node in front, linking a node in after [k], unlinking the node
    after [k]: what the new next pointers must be. *)
Lemma chain_push nx nx' p ks i :
  chain nx p ks → i ∉ ks → nx' i = Some p →
  (∀ j, j ≠ i → nx' j = nx j) → chain nx' (Some i) (i :: ks).
Proof.
  intros Hc Hi Hn Hrest. split; [done|]. exists p. split; [done|].
  eapply lseg_ext, Hc. intros j Hj. apply Hrest. intros ->. done.
Qed.

Lemma chain_insert_after nx nx' p ks1 k i ks2 :
  chain nx p (ks1 ++ k :: ks2) → i ∉ ks1 ++ k :: ks2 →
  nx' k = Some (Some i) → nx' i = nx k →
  (∀ j, j ≠ k → j ≠ i → nx' j = nx j) → chain nx' p (ks1 ++ k :: i :: ks2).
Proof.
  intros Hc Hi Hk Hin Hrest.
  pose proof (chain_nodup _ _ _ Hc) as Hnd.
  apply list.NoDup_app in Hnd as (_ & Hd & Hnd2). apply list.NoDup_cons in Hnd2 as [Hk2 _].
  apply chain_mid in Hc as (Hs & q & Hq & Hc2). apply chain_mid. split.
  - eapply lseg_ext, Hs. intros j Hj. apply Hrest; set_solver.
  - exists (Some i). split; [done|]. split; [done|]. exists q. split; [congruence|].
    eapply lseg_ext, Hc2. intros j Hj. apply Hrest; set_solver.
Qed.

Lemma chain_remove_after nx nx' p ks1 k i ks2 :
  chain nx p (ks1 ++ k :: i :: ks2) → nx' k = nx i →
  (∀ j, j ≠ k → j ≠ i → nx' j = nx j) → chain nx' p (ks1 ++ k :: ks2).
Proof.
  intros Hc Hk Hrest.
  pose proof (chain_nodup _ _ _ Hc) as Hnd.
  apply list.NoDup_app in Hnd as (_ & Hd & Hnd2).
  apply list.NoDup_cons in Hnd2 as [Hk2 Hnd2]. apply list.NoDup_cons in Hnd2 as [Hi2 _].
  apply chain_mid in Hc as (Hs & q & Hq & Hc2).
  destruct Hc2 as (-> & q' & Hq' & Hc2). apply chain_mid. split.
  - eapply lseg_ext, Hs. intros j Hj. apply Hrest; set_solver.
  - exists q'. split; [congruence|].
    eapply lseg_ext, Hc2. intros j Hj. apply Hrest; set_solver.
Qed.

Lemma chain_ext nx nx' p ks :
  (∀ k, k ∈ ks → nx' k = nx k) → chain nx p ks → chain nx' p ks.
Proof. apply lseg_ext. Qed.

End chain.

(** An array threaded on one list by [a[i].next = &a[i+1]], the last entry
    NULL. *)
Lemma chain_seq (nx : nat → option (option nat)) i n :
  (∀ j, i ≤ j < i + n → nx j = Some (if decide (S j = i + n) then None else Some (S j))) →
  chain nx (if decide (n = 0) then None else Some i) (seq i n).
Proof.
  revert i. induction n as [|n IH]; intros i Hnx; [by rewrite decide_True|].
  rewrite decide_False by lia. split; [done|].
  eexists. split; [apply Hnx; lia|].
  specialize (IH (S i)). destruct (decide (S i = i + S n)) as [E|E].
  - assert (n = 0) as -> by lia. done.
  - rewrite decide_False in IH by lia. apply IH. intros j Hj. rewrite Hnx by lia.
    by replace (i + S n) with (S i + n) by lia.
Qed.

(** ** Lists of addresses *)

#[local] Open Scope Z_scope.

Definition ptr (w : Z) : option Z := if w =? 0 then None else Some w.
Definition next_of (lk : Z → Z) (a : Z) : option (option Z) := Some (ptr (lk a)).

(** The list of addresses from the pointer [p] on, linked by the words [lk] and ended by
    NULL. *)
Definition clist (lk : Z → Z) (p : Z) (l : list Z) : Prop := chain (next_of lk) (ptr p) l.

Lemma ptr_Some a : a ≠ 0 → ptr a = Some a.
Proof. intros Ha. unfold ptr. by rewrite (proj2 (Z.eqb_neq a 0) Ha). Qed.

Lemma clist_nonzero lk p l a : clist lk p l → a ∈ l → a ≠ 0.
Proof.
  unfold clist, chain. revert p. induction l as [|x l IH]; intros p Hc; [by intros ?%not_elem_of_nil|].
  destruct Hc as (Ep & q & Hq & Hc). unfold next_of in Hq. simplify_eq.
  intros [->|Ha]%elem_of_cons; [|by eapply IH].
  unfold ptr in Ep. destruct (Z.eqb_spec p 0); [done|]. by simplify_eq.
Qed.

Lemma clist_push lk p l a :
  clist lk p l → a ∉ l → a ≠ 0 → clist (λ x, if x =? a then p else lk x) a (a :: l).
Proof.
  intros Hc Ha H0. unfold clist. rewrite (ptr_Some a H0). eapply chain_push; [exact Hc|done| |].
  - unfold next_of. by rewrite Z.eqb_refl.
  - intros j Hj. unfold next_of. by rewrite (proj2 (Z.eqb_neq j a) Hj).
Qed.

Lemma clist_ext lk lk' p l : clist lk p l → (∀ a, a ∈ l → lk' a = lk a) → clist lk' p l.
Proof. intros Hc Ha. eapply chain_ext; [|exact Hc]. intros k Hk. unfold next_of. by rewrite Ha. Qed.

Lemma clist_cons lk p x l : clist lk p (x :: l) → p = x ∧ x ≠ 0 ∧ clist lk (lk x) l.
Proof.
  intros Hc. pose proof (clist_nonzero _ _ _ x Hc ltac:(by apply elem_of_cons; left)) as H0.
  destruct Hc as (Ep & q & Hq & Hc). unfold next_of in Hq. simplify_eq. split_and!; try done.
  unfold ptr in Ep. destruct (Z.eqb_spec p 0); [done|]. by simplify_eq.
Qed.

Lemma clist_zero lk l : clist lk 0 l → l = [].
Proof. unfold clist. apply chain_None. Qed.

Lemma clist_intro lk x l : x ≠ 0 → clist lk (lk x) l → clist lk x (x :: l).
Proof.
  intros Hx Hc. unfold clist. rewrite (ptr_Some x Hx). split; [done|]. by exists (ptr (lk x)).
Qed.

Lemma clist_nodup lk p l : clist lk p l → NoDup l.
Proof. apply chain_nodup. Qed.

Lemma clist_nil lk p : clist lk p [] → p = 0.
Proof. unfold clist, chain, ptr. simpl. destruct (Z.eqb_spec p 0); [done|]. discriminate. Qed.

Lemma clist_functional lk p l l' : clist lk p l → clist lk p l' → l = l'.
Proof. apply chain_functional. Qed.

(** An address linked behind the last one. *)
Lemma clist_snoc lk lk' p l a :
  clist lk p l → a ≠ 0 → lk' a = 0 →
  (∀ x, list.last l = Some x → lk' x = a) → (∀ x, x ∈ l → list.last l ≠ Some x → lk' x = lk x) →
  clist lk' (match l with [] => a | _ => p end) (l ++ [a]).
Proof.
  intros Hc H0 Ha. revert p Hc. induction l as [|x l IH]; intros p Hc Hl Hr.
  - simpl. apply clist_intro; [done|]. rewrite Ha. done.
  - pose proof (clist_nodup _ _ _ Hc) as ND. apply list.NoDup_cons in ND as [Hx ND].
    destruct (clist_cons _ _ _ _ Hc) as (-> & Hx0 & Hc'). cbn [app]. apply clist_intro; [done|].
    destruct l as [|y l].
    + rewrite Hl by done. apply clist_intro; [done|]. rewrite Ha. done.
    + rewrite Hr.
      * apply (IH (lk x)); [done|intros z Hz; by apply Hl|]. intros z Hz Hne. apply Hr; [by apply elem_of_cons; right|done].
      * by apply elem_of_cons; left.
      * intros E. apply Hx. apply list.last_Some in E as [l' E]. destruct l' as [|z l']; [done|].
        injection E as _ E. rewrite E. apply elem_of_app. right. by apply elem_of_cons; left.
Qed.

(** An address linked in behind [k]. *)
Lemma clist_insert_after lk lk' p l1 k l2 a :
  clist lk p (l1 ++ k :: l2) → a ∉ l1 ++ k :: l2 → a ≠ 0 → lk' k = a → lk' a = lk k →
  (∀ x, x ∈ l1 ++ l2 → lk' x = lk x) → clist lk' p (l1 ++ k :: a :: l2).
Proof.
  intros Hc Ha H0 Hk Hla Hr. pose proof (clist_nodup _ _ _ Hc) as ND.
  revert p Hc Ha Hr ND. induction l1 as [|x l1 IH]; intros p Hc Ha Hr ND; cbn [app] in *.
  - destruct (clist_cons _ _ _ _ Hc) as (-> & Hk0 & Hc'). apply clist_intro; [done|]. rewrite Hk.
    apply clist_intro; [done|]. rewrite Hla. eapply clist_ext; [exact Hc'|]. auto.
  - destruct (clist_cons _ _ _ _ Hc) as (-> & Hx0 & Hc'). apply list.NoDup_cons in ND as [Hx ND].
    apply clist_intro; [done|]. rewrite Hr by (by apply elem_of_cons; left). apply IH; [done| |intros y Hy|done].
    + intros Hin. apply Ha. by apply elem_of_cons; right.
    + apply Hr. by apply elem_of_cons; right.
Qed.

(** A list cut behind [q], and the first part linked to another list. *)
Lemma clist_cut lk p l q l2 : clist lk p (l ++ q :: l2) → clist lk (lk q) l2.
Proof.
  revert p. induction l as [|x l IH]; intros p Hc; cbn [app] in Hc; destruct (clist_cons _ _ _ _ Hc) as (_ & _ & Hc'); [done|].
  by eapply IH.
Qed.

Lemma clist_relink lk lk' p l q l2 l3 :
  clist lk p (l ++ q :: l2) → clist lk' (lk' q) l3 → (∀ x, x ∈ l → lk' x = lk x) → clist lk' p (l ++ q :: l3).
Proof.
  revert p. induction l as [|x l IH]; intros p Hc H3 Hr; cbn [app] in *; destruct (clist_cons _ _ _ _ Hc) as (-> & Hx & Hc').
  - by apply clist_intro.
  - apply clist_intro; [done|]. rewrite Hr by (by apply elem_of_cons; left). apply IH; [done|done|].
    intros y Hy. apply Hr. by apply elem_of_cons; right.
Qed.

#[export] Hint Resolve chain_nodup : yaos.
