(* ===== verification/Holes.v ===== *)
(** * Pools of free ranges

    kernel/kheap.c (twice: the 4 KiB heap and the small heap) and kernel/vm.c
    keep free address ranges in the same structure: a static array of
    descriptors (struct kheap_t, struct linear_t), a list of unused
    descriptors ([pfree]) and a list of free ranges ([phead]), both threaded
    through the array, and a spin lock.  This file models the structure and
    the pieces of code the two files share, and proves that they implement an
    abstract first-fit list of ranges. *)

From stdpp Require Import base gmap list numbers option sorting.
From Stdlib Require Import Lia ZArith.
From S2P Require Import Prelude Chain.

#[local] Open Scope Z_scope.
#[local] Open Scope yaos_scope.

(** ** The structure *)

(** struct kheap_t and struct linear_t. A pointer to a descriptor is its index
    in the static array, NULL is [None]. *)
Record kheap_t := mk_kheap_t {
  kh_addr : Z;
  kh_size : Z;
  kh_orgin_size : Z;
  kh_pnext : option nat
}.

Record pool := mk_pool {
  holes : list kheap_t;
  pfree : option nat;
  phead : option nat;
  locked : bool
}.

(** The static variables before initialisation. *)
Definition zero_pool (n : nat) : pool :=
  mk_pool (replicate n (mk_kheap_t 0 0 0 None)) None None false.

Definition set_pnext (q : option nat) (h : kheap_t) : kheap_t :=
  mk_kheap_t (kh_addr h) (kh_size h) (kh_orgin_size h) q.
Definition set_addr (a : Z) (h : kheap_t) : kheap_t :=
  mk_kheap_t a (kh_size h) (kh_orgin_size h) (kh_pnext h).
Definition set_size (z : Z) (h : kheap_t) : kheap_t :=
  mk_kheap_t (kh_addr h) z (kh_orgin_size h) (kh_pnext h).
Definition set_range (a z : Z) (h : kheap_t) : kheap_t :=
  mk_kheap_t a z z (kh_pnext h).

Definition set_holes (l : list kheap_t) (s : pool) : pool :=
  mk_pool l (pfree s) (phead s) (locked s).
Definition set_pfree (q : option nat) (s : pool) : pool :=
  mk_pool (holes s) q (phead s) (locked s).
Definition set_phead (q : option nat) (s : pool) : pool :=
  mk_pool (holes s) (pfree s) q (locked s).
Definition set_locked (b : bool) (s : pool) : pool :=
  mk_pool (holes s) (pfree s) (phead s) b.

(** [*p] and [p->field = ...]. *)
Definition hole_at (p : option nat) : M pool kheap_t := λ s,
  match p ≫= λ i, holes s !! i with
  | Some h => Ret h s
  | None => Faulted
  end.

Definition upd_hole (p : option nat) (f : kheap_t → kheap_t) : M pool unit := λ s,
  match p with
  | Some i =>
      match holes s !! i with
      | Some h => Ret tt (set_holes (<[i := f h]> (holes s)) s)
      | None => Faulted
      end
  | None => Faulted
  end.

(** asm/spinlock.h on one processor: taking a lock that is already taken
    never returns. *)
Definition spin_lock : M pool unit := λ s,
  if locked s then Hung else Ret tt (set_locked true s).
Definition spin_unlock : M pool unit := modify (set_locked false).

(** ** The shared code *)

(** init_kheap and init_vm: thread the whole array on the free list. *)
Definition init_pool (max : nat) : M pool unit :=
  for_range (max - 1) 0 (λ i, upd_hole (Some i) (set_pnext (Some (S i)))) ;;
  upd_hole (Some (max - 1)%nat) (set_pnext None) ;;
  modify (set_pfree (Some 0%nat)) ;;
  modify (set_phead None) ;;
  modify (set_locked false).

(** [while (ph->pnext && ph->pnext->addr < p->addr) ph = ph->pnext;] *)
Fixpoint walk_sorted (fuel : nat) (ph : option nat) (a : Z) : M pool (option nat) :=
  match fuel with
  | O => out_of_fuel
  | S fuel =>
      h ← hole_at ph;
      match kh_pnext h with
      | None => mret ph
      | Some n =>
          hn ← hole_at (Some n);
          if kh_addr hn <? a then walk_sorted fuel (Some n) a else mret ph
      end
  end.

(** Loops over a list of the pool make at most one step per descriptor. *)
Definition pool_fuel : M pool nat := gets (λ s, S (length (holes s))).

(** Linking the filled descriptor [p]: in front when the list is empty or starts
    at a larger address, else where [walk_sorted] stops. *)
Definition link_sorted (p : option nat) (addr : Z) : M pool unit :=
  hd ← gets phead;
  before ← (match hd with
            | None => mret true
            | Some _ => hh ← hole_at hd; mret (addr <? kh_addr hh)
            end);
  if before : bool then
    upd_hole p (set_pnext hd) ;;
    modify (set_phead p) ;;
    spin_unlock
  else
    fuel ← pool_fuel;
    ph ← walk_sorted fuel hd addr;
    hp ← hole_at ph;
    upd_hole p (set_pnext (kh_pnext hp)) ;;
    upd_hole ph (set_pnext p) ;;
    spin_unlock.

(** free_kheap_4k and free_linear: take a descriptor and link it in address
    order. [mask] is the alignment mask the ASSERT uses. *)
Definition free_hole (mask : Z) (addr size : Z) : M pool unit :=
  ASSERT ((addr .& mask =? 0) && (size .& mask =? 0)) ;;
  p ← gets pfree;
  match p with
  | None => panic
  | Some i =>
      spin_lock ;;
      h ← hole_at p;
      modify (set_pfree (kh_pnext h)) ;;
      upd_hole p (set_range addr size) ;;
      link_sorted p addr
  end.

(** [while (p && p->size < size) p = p->pnext;] *)
Fixpoint find_fit (fuel : nat) (p : option nat) (size : Z) : M pool (option nat) :=
  match fuel with
  | O => out_of_fuel
  | S fuel =>
      match p with
      | None => mret None
      | Some i =>
          h ← hole_at p;
          if kh_size h <? size then find_fit fuel (kh_pnext h) size else mret p
      end
  end.

(** [while (ptr->pnext && ptr->pnext != p) ptr = ptr->pnext;] *)
Fixpoint walk_to (fuel : nat) (ptr : option nat) (p : option nat) : M pool (option nat) :=
  match fuel with
  | O => out_of_fuel
  | S fuel =>
      h ← hole_at ptr;
      match kh_pnext h with
      | None => mret ptr
      | Some n => if decide (Some n = p) then mret ptr else walk_to fuel (Some n) p
      end
  end.

(** Unlinking the descriptor [p] from [phead]. *)
Definition unlink (p : option nat) : M pool unit :=
  ptr ← gets phead;
  hp ← hole_at p;
  if decide (ptr = p) then modify (set_phead (kh_pnext hp))
  else
    h ← hole_at ptr;
    if decide (kh_pnext h = p) then upd_hole ptr (set_pnext (kh_pnext hp))
    else
      fuel ← pool_fuel;
      ptr' ← walk_to fuel ptr p;
      h' ← hole_at ptr';
      match kh_pnext h' with
      | None => panic
      | Some _ => upd_hole ptr' (set_pnext (kh_pnext hp))
      end.

(** Unlinking [p] and putting it on the list of unused descriptors. *)
Definition retire (p : option nat) : M pool unit :=
  unlink p ;;
  fr ← gets pfree;
  upd_hole p (set_pnext fr) ;;
  modify (set_pfree p).

(** The tail of alloc_kheap_4k, alloc_kheap_small and alloc_linear: take
    [size] bytes from the front of [p]; a remainder for which [drop] holds is
    given up and the descriptor returned to the free list. *)
Definition carve (drop : Z → bool) (p : option nat) (size : Z) : M pool Z :=
  h ← hole_at p;
  upd_hole p (set_size (u64 (kh_size h - size))) ;;
  h ← hole_at p;
  (if drop (kh_size h) then retire p else mret tt) ;;
  h ← hole_at p;
  upd_hole p (set_addr (u64 (kh_addr h + size))) ;;
  mret (kh_addr h).

(** ** The abstract pool: a list of ranges (address, size) *)

Notation range := (Z * Z)%type.

(** The list the free operations build: in front of a head with a larger
    address, else before the first later range whose address is not smaller. *)
Fixpoint ins_before (a z : Z) (hs : list range) : list range :=
  match hs with
  | [] => [(a, z)]
  | (b, t) :: r => if b <? a then (b, t) :: ins_before a z r else (a, z) :: hs
  end.

Definition spec_free (a z : Z) (hs : list range) : list range :=
  match hs with
  | [] => [(a, z)]
  | (b, t) :: r => if a <? b then (a, z) :: hs else (b, t) :: ins_before a z r
  end.

(** First fit: the address handed out and the remaining ranges. *)
Fixpoint spec_alloc (drop : Z → bool) (z : Z) (hs : list range) : option (Z * list range) :=
  match hs with
  | [] => None
  | (b, t) :: r =>
      if t <? z then
        match spec_alloc drop z r with
        | Some (a, r') => Some (a, (b, t) :: r')
        | None => None
        end
      else Some (b, if drop (t - z) then r else (b + z, t - z) :: r)
  end.

(** Ranges that do not wrap around, in address order and disjoint. *)
Definition range_ok (r : range) : Prop := 0 ≤ r.1 ∧ 0 < r.2 ∧ r.1 + r.2 < 2 ^ 64.
Definition before (r1 r2 : range) : Prop := r1.1 + r1.2 ≤ r2.1.
Definition ranges_ok (hs : list range) : Prop :=
  Forall range_ok hs ∧ StronglySorted before hs.
Definition disjoint_range (r1 r2 : range) : Prop := before r1 r2 ∨ before r2 r1.

(** ** The relation between the structure and the abstract pool *)

Definition nxp (s : pool) (i : nat) : option (option nat) := kh_pnext <$> holes s !! i.

Definition hole_is (s : pool) (i : nat) (r : range) : Prop :=
  ∃ h, holes s !! i = Some h ∧ kh_addr h = r.1 ∧ kh_size h = r.2.

(** [us] are the descriptors on [phead], [fr] those on [pfree]. *)
Record pool_rep (b : bool) (s : pool) (us : list nat) (hs : list range) (fr : list nat) : Prop := {
  rep_head : chain (nxp s) (phead s) us;
  rep_free : chain (nxp s) (pfree s) fr;
  rep_disj : us ## fr;
  rep_holes : Forall2 (hole_is s) us hs;
  rep_lock : locked s = b
}.

(** The pool [s], lock state [b], holds the free ranges [hs] and has [n]
    unused descriptors. *)
Definition pool_is (b : bool) (s : pool) (hs : list range) (n : nat) : Prop :=
  ∃ us fr, pool_rep b s us hs fr ∧ length fr = n.

(** ** Lemmas *)

Lemma hole_at_run s i h : holes s !! i = Some h → hole_at (Some i) s = Ret h s.
Proof. intros H. unfold hole_at. simpl. by rewrite H. Qed.

Lemma upd_hole_run s i h f :
  holes s !! i = Some h →
  upd_hole (Some i) f s = Ret tt (set_holes (<[i := f h]> (holes s)) s).
Proof. intros H. unfold upd_hole. by rewrite H. Qed.

#[export] Hint Resolve hole_at_run upd_hole_run : yaos.

(** [s'] differs from [s] in the descriptor [i], which is now [h]. *)
Definition upd_at (s s' : pool) (i : nat) (h : kheap_t) : Prop :=
  (i < length (holes s))%nat ∧ holes s' = <[i := h]> (holes s).

Lemma upd_at_intro s s' i h0 h :
  holes s !! i = Some h0 → holes s' = <[i := h]> (holes s) → upd_at s s' i h.
Proof. intros H E. split; [by eapply lookup_lt_Some|done]. Qed.

Lemma upd_at_eq s s' i h : upd_at s s' i h → holes s' !! i = Some h.
Proof. intros [H ->]. by apply list_lookup_insert_eq. Qed.

Lemma upd_at_ne s s' i h j : upd_at s s' i h → i ≠ j → holes s' !! j = holes s !! j.
Proof. intros [H ->]. apply list_lookup_insert_ne. Qed.

Lemma nxp_Some s i q : nxp s i = Some q → ∃ h, holes s !! i = Some h ∧ kh_pnext h = q.
Proof. unfold nxp. intros (h & ? & ?)%fmap_Some. eauto. Qed.

(** A list of the pool is not longer than the array, so [pool_fuel] is enough. *)
Lemma pool_list_length s p us : chain (nxp s) p us → (length us ≤ length (holes s))%nat.
Proof.
  intros Hc. rewrite <- (length_seq (length (holes s)) 0).
  apply submseteq_length, NoDup_submseteq; [by eapply chain_nodup|].
  intros i Hi. destruct (chain_lookup _ _ _ _ Hc Hi) as [q Hq].
  apply nxp_Some in Hq as (h & Hh & _). apply lookup_lt_Some in Hh.
  apply elem_of_seq. lia.
Qed.

Lemma walk_sorted_spec s a fuel k us hs :
  chain (nxp s) (Some k) (k :: us) → Forall2 (hole_is s) us hs → (length us < fuel)%nat →
  ∃ us1 k' us2 hs1 hs2,
    k :: us = us1 ++ k' :: us2 ∧ hs = hs1 ++ hs2 ∧ length hs1 = length us1 ∧
    walk_sorted fuel (Some k) a s = Ret (Some k') s ∧
    ∀ z, ins_before a z hs = hs1 ++ (a, z) :: hs2.
Proof.
  revert fuel k hs. induction us as [|k2 us IH]; intros [|fuel] k hs Hc Hf Hfuel;
    simpl in Hfuel; try lia.
  - destruct Hc as (_ & q & Hq & Hc). simpl in Hc. subst q.
    apply nxp_Some in Hq as (h & Hh & Hn). inversion Hf; subst.
    exists [], k, [], [], []. repeat split.
    simpl. erewrite bind_ret by eauto with yaos. by rewrite Hn.
  - destruct Hc as (_ & q & Hq & Hc).
    pose proof (chain_head _ _ _ Hc) as E. simpl in E. subst q.
    apply nxp_Some in Hq as (h & Hh & Hn). inversion Hf as [|? [b t] ? hs' Hhole Hf']; subst.
    destruct Hhole as (h2 & Hh2 & Ha & Ht). simpl in Ha, Ht.
    simpl walk_sorted. erewrite bind_ret by eauto with yaos. rewrite Hn.
    erewrite bind_ret by eauto with yaos. rewrite Ha. simpl ins_before.
    destruct (Z.ltb_spec b a).
    + destruct (IH fuel k2 hs') as (us1 & k' & us2 & hs1 & hs2 & E1 & E2 & E3 & E4 & E5);
        [done..|lia|].
      exists (k :: us1), k', us2, ((b, t) :: hs1), hs2. rewrite E1, E2. simpl.
      repeat split; [congruence|done|]. intros z. rewrite <- E2, E5. done.
    + by exists [], k, (k2 :: us), [], ((b, t) :: hs').
Qed.

Lemma find_fit_spec s z fuel p us hs :
  chain (nxp s) p us → Forall2 (hole_is s) us hs → (length us < fuel)%nat →
  (find_fit fuel p z s = Ret None s ∧ Forall (λ r, r.2 < z) hs) ∨
  (∃ us1 k us2 hs1 r hs2,
    us = us1 ++ k :: us2 ∧ hs = hs1 ++ r :: hs2 ∧ length hs1 = length us1 ∧
    Forall (λ r, r.2 < z) hs1 ∧ z ≤ r.2 ∧ find_fit fuel p z s = Ret (Some k) s).
Proof.
  revert fuel p hs. induction us as [|k us IH]; intros [|fuel] p hs Hc Hf Hfuel;
    simpl in Hfuel; try lia.
  - left. apply Forall2_nil_inv_l in Hf as ->. by rewrite (chain_head _ _ _ Hc).
  - destruct Hc as (-> & q & Hq & Hc).
    apply nxp_Some in Hq as (h & Hh & Hn). inversion Hf as [|? [b t] ? hs' Hhole Hf']; subst.
    destruct Hhole as (h2 & Hh2 & Ha & Ht). simpl in Ha, Ht. simplify_eq.
    simpl find_fit. rewrite (bind_ret _ _ _ _ _ (hole_at_run _ _ _ Hh)).
    destruct (Z.ltb_spec (kh_size h) z).
    + destruct (IH fuel (kh_pnext h) hs') as [[E1 E2]|E]; [done..|lia| |].
      * left. split; [done|]. constructor; [done|done].
      * destruct E as (us1 & k' & us2 & hs1 & r & hs2 & -> & -> & E3 & E4 & E5 & E6).
        right. exists (k :: us1), k', us2, ((kh_addr h, kh_size h) :: hs1), r, hs2.
        repeat split; try done. simpl. lia. by constructor.
    + right. by exists [], k, us, [], (kh_addr h, kh_size h), hs'.
Qed.

Lemma spec_alloc_None drop z hs :
  Forall (λ r, r.2 < z) hs → spec_alloc drop z hs = None.
Proof.
  induction 1 as [|[b t] r Ht _ IH]; [done|]. simpl in *.
  destruct (Z.ltb_spec t z); [|lia]. by rewrite IH.
Qed.

Lemma spec_alloc_split drop z hs1 b t hs2 :
  Forall (λ r, r.2 < z) hs1 → z ≤ t →
  spec_alloc drop z (hs1 ++ (b, t) :: hs2) =
    Some (b, hs1 ++ (if drop (t - z) then hs2 else (b + z, t - z) :: hs2)).
Proof.
  intros H Ht. induction H as [|[b' t'] r Hr _ IH]; simpl in *.
  - by destruct (Z.ltb_spec t z); [lia|].
  - destruct (Z.ltb_spec t' z); [|lia]. by rewrite IH.
Qed.

(** Changing a descriptor that is not on a list leaves the list's ranges;
    changing only the next pointer leaves all ranges. *)
Lemma hole_is_upd_ne s s' i h j r :
  upd_at s s' i h → i ≠ j → hole_is s j r → hole_is s' j r.
Proof. intros Hu Hij (h' & Hh & ?). exists h'. by rewrite (upd_at_ne _ _ _ _ _ Hu Hij). Qed.

Lemma hole_is_upd s s' i h0 h j r :
  upd_at s s' i h → holes s !! i = Some h0 →
  kh_addr h = kh_addr h0 → kh_size h = kh_size h0 → hole_is s j r → hole_is s' j r.
Proof.
  intros Hu Hi Ea Ez Hr. destruct (decide (i = j)) as [->|]; [|by eapply hole_is_upd_ne].
  destruct Hr as (h' & Hh & Ha & Hz). exists h. rewrite (upd_at_eq _ _ _ _ Hu).
  assert (h' = h0) as -> by congruence. split; [done|]. by rewrite Ea, Ez.
Qed.

Lemma nxp_upd_eq s s' i h : upd_at s s' i h → nxp s' i = Some (kh_pnext h).
Proof. intros H. unfold nxp. by rewrite (upd_at_eq _ _ _ _ H). Qed.

Lemma nxp_upd_ne s s' i h j : upd_at s s' i h → j ≠ i → nxp s' j = nxp s j.
Proof. intros H Hj. unfold nxp. by rewrite (upd_at_ne _ _ _ _ _ H). Qed.

(** A descriptor [i] that is on neither list and holds the range [r]. *)
Definition loose (s : pool) (us fr : list nat) (i : nat) (r : range) : Prop :=
  i ∉ us ∧ i ∉ fr ∧ hole_is s i r.

(** Taking the first unused descriptor and filling it. *)
Lemma rep_take b s us hs i fr h a z :
  pool_rep b s us hs (i :: fr) → holes s !! i = Some h →
  let s' := mk_pool (<[i := set_range a z h]> (holes s)) (kh_pnext h) (phead s) b in
  pool_rep b s' us hs fr ∧ loose s' us fr i (a, z).
Proof.
  intros [Hh Hf Hd Hv Hl] Hi s'.
  pose proof (chain_nodup _ _ _ Hf) as [Hifr _]%list.NoDup_cons.
  assert (upd_at s s' i (set_range a z h)) as Hu by by eapply upd_at_intro.
  destruct Hf as (_ & q & Hq & Hf). apply nxp_Some in Hq as (h0 & Hh0 & <-).
  assert (h0 = h) as -> by congruence.
  split; [split|]; simpl.
  - eapply chain_ext, Hh. intros j Hj. apply (nxp_upd_ne _ _ _ _ _ Hu). set_solver.
  - eapply chain_ext, Hf. intros j Hj. apply (nxp_upd_ne _ _ _ _ _ Hu). set_solver.
  - set_solver.
  - eapply Forall2_impl_elem; [exact Hv|]. intros j r Hj Hjr.
    apply (hole_is_upd_ne _ _ _ _ _ _ Hu); [set_solver|done].
  - done.
  - split_and!; [set_solver|done|]. eexists. by split; [exact (upd_at_eq _ _ _ _ Hu)|].
Qed.

(** Linking a loose descriptor in front. *)
Lemma rep_push b b' s us hs i fr h r :
  pool_rep b s us hs fr → loose s us fr i r → holes s !! i = Some h →
  pool_rep b' (mk_pool (<[i := set_pnext (phead s) h]> (holes s)) (pfree s) (Some i) b')
    (i :: us) (r :: hs) fr.
Proof.
  intros [Hh Hf Hd Hv Hl] (Hius & Hifr & Hr) Hi. set (s' := mk_pool _ _ _ _).
  assert (upd_at s s' i (set_pnext (phead s) h)) as Hu by by eapply upd_at_intro.
  split; simpl.
  - eapply (chain_push (nxp s)); [done|done|exact (nxp_upd_eq _ _ _ _ Hu)|].
    intros j. apply (nxp_upd_ne _ _ _ _ _ Hu).
  - eapply chain_ext, Hf. intros j Hj. apply (nxp_upd_ne _ _ _ _ _ Hu). set_solver.
  - set_solver.
  - constructor; [by eapply (hole_is_upd s s' i h)|].
    eapply Forall2_impl_elem; [exact Hv|]. intros j r' _ Hjr. by eapply (hole_is_upd s s' i h).
  - done.
Qed.

(** Linking a loose descriptor in after [k]. *)
Lemma rep_insert_after b b' s us1 k us2 hs1 hs2 i fr h hk r :
  pool_rep b s (us1 ++ k :: us2) (hs1 ++ hs2) fr → length hs1 = S (length us1) →
  loose s (us1 ++ k :: us2) fr i r → holes s !! i = Some h → holes s !! k = Some hk →
  pool_rep b'
    (mk_pool (<[k := set_pnext (Some i) hk]> (<[i := set_pnext (kh_pnext hk) h]> (holes s)))
       (pfree s) (phead s) b')
    (us1 ++ k :: i :: us2) (hs1 ++ r :: hs2) fr.
Proof.
  intros [Hh Hf Hd Hv Hl] Hlen (Hius & Hifr & Hr) Hi Hk.
  assert (i ≠ k) as Hik by set_solver.
  set (s1 := set_holes (<[i := set_pnext (kh_pnext hk) h]> (holes s)) s).
  set (s2 := mk_pool _ _ _ _).
  assert (upd_at s s1 i (set_pnext (kh_pnext hk) h)) as Hu1 by by eapply upd_at_intro.
  assert (holes s1 !! k = Some hk) as Hk1 by by rewrite (upd_at_ne _ _ _ _ _ Hu1).
  assert (upd_at s1 s2 k (set_pnext (Some i) hk)) as Hu2 by by eapply upd_at_intro.
  assert (∀ j, j ≠ k → j ≠ i → nxp s2 j = nxp s j) as Hne.
  { intros j ??. rewrite (nxp_upd_ne _ _ _ _ _ Hu2), (nxp_upd_ne _ _ _ _ _ Hu1); done. }
  assert (∀ j r, hole_is s j r → hole_is s2 j r) as Hkeep.
  { intros j r' Hjr. eapply (hole_is_upd s1 s2 k hk); [done..|].
    by eapply (hole_is_upd s s1 i h). }
  split; simpl.
  - eapply (chain_insert_after (nxp s)); [done|done|exact (nxp_upd_eq _ _ _ _ Hu2)| |done].
    rewrite (nxp_upd_ne _ _ _ _ _ Hu2), (nxp_upd_eq _ _ _ _ Hu1) by done.
    unfold nxp. by rewrite Hk.
  - eapply chain_ext, Hf. intros j Hj. apply Hne; set_solver.
  - set_solver.
  - pose proof (Forall2_impl _ _ _ _ Hv Hkeep) as Hv2.
    rewrite (cons_middle k us1 us2), app_assoc in Hv2.
    rewrite (cons_middle k us1 (i :: us2)), app_assoc.
    apply Forall2_app_inv in Hv2 as [Hva Hvb]; [|rewrite length_app; simpl; lia].
    apply Forall2_app; [done|]. constructor; [by apply Hkeep|done].
  - done.
Qed.

Lemma loose_lookup s us fr i r : loose s us fr i r → ∃ h, holes s !! i = Some h.
Proof. intros (_ & _ & h & Hh & _). eauto. Qed.

Lemma link_sorted_spec b s us hs fr i a z :
  pool_rep b s us hs fr → loose s us fr i (a, z) →
  ∃ s' us', link_sorted (Some i) a s = Ret tt s' ∧ pool_rep false s' us' (spec_free a z hs) fr.
Proof.
  intros Hrep Hi. destruct (loose_lookup _ _ _ _ _ Hi) as [h Hh].
  pose proof (rep_head _ _ _ _ _ Hrep) as Hhd.
  pose proof (rep_holes _ _ _ _ _ Hrep) as Hv. unfold link_sorted.
  pose proof (rep_push b false _ _ _ _ _ _ _ Hrep Hi Hh) as Hpush.
  erewrite bind_ret by reflexivity.
  destruct us as [|k us].
  { rewrite (chain_head _ _ _ Hhd) in *. apply Forall2_nil_inv_l in Hv as ->.
    erewrite bind_ret by reflexivity. cbv iota.
    erewrite bind_ret by by apply upd_hole_run.
    eexists _, [i]. split; [reflexivity|]. exact Hpush. }
  pose proof (chain_head _ _ _ Hhd) as Ehd. simpl in Ehd. rewrite Ehd in *.
  inversion Hv as [|? [b0 t] ? hs' (hk & Hhk & Hka & Hkt) Hv']; subst. simpl in Hka, Hkt.
  erewrite bind_ret by (erewrite bind_ret by (by apply hole_at_run); reflexivity).
  simpl spec_free. rewrite Hka. destruct (Z.ltb_spec a b0).
  - erewrite bind_ret by by apply upd_hole_run.
    eexists _, (i :: k :: us). split; [reflexivity|]. exact Hpush.
  - erewrite bind_ret by reflexivity.
    destruct (walk_sorted_spec s a (S (length (holes s))) k us hs')
      as (us1 & k' & us2 & hs1 & hs2 & E1 & -> & E3 & E4 & E5); [done|done| |].
    { pose proof (pool_list_length _ _ _ Hhd). simpl in *. lia. }
    rewrite (bind_ret _ _ _ _ _ E4), E5. rewrite E1 in Hrep, Hi, Hhd.
    destruct (proj1 (chain_mid _ _ _ _ _) Hhd) as (_ & q & Hq & _).
    apply nxp_Some in Hq as (hk' & Hk' & <-).
    assert (i ≠ k') by (destruct Hi; set_solver).
    rewrite (bind_ret _ _ _ _ _ (hole_at_run _ _ _ Hk')).
    rewrite (bind_ret _ _ _ _ _ (upd_hole_run _ _ _ _ Hh)).
    rewrite (bind_ret _ _ _ _ _ (upd_hole_run (set_holes _ s) k' hk' _
      (eq_trans (list_lookup_insert_ne _ _ _ _ H0) Hk'))).
    eexists _, (us1 ++ k' :: i :: us2). split; [reflexivity|].
    change ((b0, t) :: hs1 ++ (a, z) :: hs2) with (((b0, t) :: hs1) ++ (a, z) :: hs2).
    apply (rep_insert_after b false s us1 k' us2 ((b0, t) :: hs1)); try done. simpl. lia.
Qed.

(** free_hole: it panics when the descriptors are used up, else it links the
    range in address order and uses one descriptor. *)
Lemma free_hole_spec mask s hs n a z :
  pool_is false s hs n → a .& mask = 0 → z .& mask = 0 →
  match n with
  | O => free_hole mask a z s = Panicked
  | S n' => ∃ s', free_hole mask a z s = Ret tt s' ∧ pool_is false s' (spec_free a z hs) n'
  end.
Proof.
  intros (us & fr & Hrep & <-) Ha Hz. unfold free_hole.
  erewrite bind_ret by (unfold ASSERT; rewrite Ha, Hz; reflexivity).
  erewrite bind_ret by reflexivity.
  pose proof (rep_free _ _ _ _ _ Hrep) as Hf.
  pose proof (chain_head _ _ _ Hf) as Ep. rewrite Ep.
  destruct fr as [|i fr]; simpl; [done|].
  destruct Hf as (_ & q & Hq & _). apply nxp_Some in Hq as (h & Hh & _).
  erewrite bind_ret by (unfold spin_lock; rewrite (rep_lock _ _ _ _ _ Hrep); reflexivity).
  assert (pool_rep true (set_locked true s) us hs (i :: fr)) as Hrep'
    by (by destruct Hrep; split).
  destruct (rep_take true _ _ _ _ _ h a z Hrep' Hh) as [Ht Hl].
  erewrite bind_ret by (apply hole_at_run; exact Hh).
  erewrite bind_ret by reflexivity.
  erewrite bind_ret by (apply upd_hole_run; exact Hh).
  destruct (link_sorted_spec _ _ _ _ _ _ _ _ Ht Hl) as (s' & us' & E & Hs').
  exists s'. split; [exact E|]. by exists us', fr.
Qed.

Lemma walk_to_spec s fuel k1 us0 k0 k :
  lseg (nxp s) (Some k1) (us0 ++ [k0]) (Some k) → k ∉ us0 ++ [k0] →
  (length us0 < fuel)%nat → walk_to fuel (Some k1) (Some k) s = Ret (Some k0) s.
Proof.
  revert fuel k1. induction us0 as [|j us0 IH]; intros [|fuel] k1 Hs Hk Hfuel;
    simpl in Hfuel; try lia.
  - destruct Hs as (E & q & Hq & Eq). simpl in Eq. simplify_eq.
    apply nxp_Some in Hq as (h & Hh & Hn). simpl.
    rewrite (bind_ret _ _ _ _ _ (hole_at_run _ _ _ Hh)), Hn. by rewrite decide_True.
  - destruct Hs as (E & q & Hq & Hs). simplify_eq.
    assert (∃ j', q = Some j' ∧ j' ∈ us0 ++ [k0]) as (j' & -> & Hj').
    { destruct us0; simpl in Hs; destruct Hs as (-> & _); eexists; (split; [done|set_solver]). }
    apply nxp_Some in Hq as (h & Hh & Hn). simpl.
    rewrite (bind_ret _ _ _ _ _ (hole_at_run _ _ _ Hh)), Hn.
    rewrite decide_False by set_solver. apply IH; [done|set_solver|lia].
Qed.

(** Unlinking [k] from [phead] never panics, and touches at most the next
    pointer of the node before it. *)
Lemma unlink_spec s us1 k us2 hk :
  chain (nxp s) (phead s) (us1 ++ k :: us2) → holes s !! k = Some hk →
  ∃ s', unlink (Some k) s = Ret tt s' ∧ chain (nxp s') (phead s') (us1 ++ us2) ∧
    pfree s' = pfree s ∧ locked s' = locked s ∧
    (∀ j r, hole_is s j r → hole_is s' j r) ∧
    (∀ j, j ∉ us1 → holes s' !! j = holes s !! j).
Proof.
  intros Hc Hk. pose proof (chain_nodup _ _ _ Hc) as Hnd.
  apply list.NoDup_app in Hnd as (_ & Hd & _). specialize (Hd k).
  pose proof (chain_head _ _ _ Hc) as Ehd. unfold unlink.
  erewrite bind_ret by reflexivity. rewrite (bind_ret _ _ _ _ _ (hole_at_run _ _ _ Hk)).
  induction us1 as [|k0 us0 _] using rev_ind.
  { simpl in Ehd. rewrite Ehd, decide_True by done.
    eexists. split; [reflexivity|]. simpl. split_and!; try done.
    destruct Hc as (_ & q & Hq & Hc). apply nxp_Some in Hq as (h & Hh & <-).
    by assert (h = hk) as -> by congruence. }
  assert (k ∉ us0 ++ [k0]) as Hkus by set_solver.
  pose proof (proj1 (chain_mid _ _ _ _ _) Hc) as (Hs & q & Hq & Hc2).
  apply nxp_Some in Hq as (h & Hh & <-). assert (h = hk) as -> by congruence.
  pose proof (proj1 (lseg_snoc _ _ _ _ _) Hs) as (Hs0 & Hk0).
  apply nxp_Some in Hk0 as (h0 & Hh0 & Hn0).
  set (s' := set_holes (<[k0 := set_pnext (kh_pnext hk) h0]> (holes s)) s).
  assert (upd_at s s' k0 (set_pnext (kh_pnext hk) h0)) as Hu by by eapply upd_at_intro.
  assert (chain (nxp s') (phead s') ((us0 ++ [k0]) ++ us2) ∧ pfree s' = pfree s ∧
    locked s' = locked s ∧ (∀ j r, hole_is s j r → hole_is s' j r) ∧
    (∀ j, j ∉ us0 ++ [k0] → holes s' !! j = holes s !! j)) as Hfinal.
  { split_and!; try done.
    - rewrite <- app_assoc in Hc |- *. eapply (chain_remove_after (nxp s)); [exact Hc| |].
      + rewrite (nxp_upd_eq _ _ _ _ Hu). unfold nxp. by rewrite Hk.
      + intros j ??. by apply (nxp_upd_ne _ _ _ _ _ Hu).
    - intros j r. by eapply (hole_is_upd s s' k0 h0).
    - intros j Hj. apply (upd_at_ne _ _ _ _ _ Hu). set_solver. }
  exists s'. split; [|done].
  destruct us0 as [|k1 us0]; simpl in Ehd; rewrite Ehd.
  - rewrite decide_False by set_solver.
    rewrite (bind_ret _ _ _ _ _ (hole_at_run _ _ _ Hh0)).
    rewrite decide_True by done. apply upd_hole_run, Hh0.
  - rewrite decide_False by set_solver.
    pose proof Hs as (E1 & q1 & Hq1 & Hs1). rewrite Ehd in E1. simplify_eq.
    apply nxp_Some in Hq1 as (h1 & Hh1 & <-).
    rewrite (bind_ret _ _ _ _ _ (hole_at_run _ _ _ Hh1)).
    rewrite decide_False.
    2:{ intros E. rewrite E in Hs1. destruct us0; simpl in Hs1; destruct Hs1; set_solver. }
    erewrite bind_ret by reflexivity.
    rewrite Ehd in Hs. erewrite bind_ret.
    2:{ eapply (walk_to_spec s _ k1 (k1 :: us0) k0); [exact Hs|done|].
        pose proof (pool_list_length _ _ _ Hc) as Hlen. rewrite !length_app in Hlen. simpl in *. lia. }
    rewrite (bind_ret _ _ _ _ _ (hole_at_run _ _ _ Hh0)), Hn0. apply upd_hole_run, Hh0.
Qed.

(** Changing the range of a descriptor but not its next pointer. *)
Lemma rep_set_range b s s' us fr hs hs' k h0 h :
  pool_rep b s us hs fr → upd_at s s' k h → holes s !! k = Some h0 →
  kh_pnext h = kh_pnext h0 → phead s' = phead s → pfree s' = pfree s → locked s' = locked s →
  Forall2 (hole_is s') us hs' → pool_rep b s' us hs' fr.
Proof.
  intros [Hh Hf Hd Hv Hl] Hu Hk En Ehd Efr El Hv'.
  assert (∀ j, nxp s' j = nxp s j) as Hn.
  { intros j. destruct (decide (j = k)) as [->|]; [|by apply (nxp_upd_ne _ _ _ _ _ Hu)].
    rewrite (nxp_upd_eq _ _ _ _ Hu), En. unfold nxp. by rewrite Hk. }
  split; [rewrite Ehd|rewrite Efr|done..|by rewrite El]; (eapply chain_ext; [|done]; auto).
Qed.

(** Putting a loose descriptor back on the list of unused ones. *)
Lemma rep_release b s us hs fr k h r :
  pool_rep b s us hs fr → loose s us fr k r → holes s !! k = Some h →
  pool_rep b (mk_pool (<[k := set_pnext (pfree s) h]> (holes s)) (Some k) (phead s) (locked s))
    us hs (k :: fr).
Proof.
  intros [Hh Hf Hd Hv Hl] (Hkus & Hkfr & _) Hk. set (s' := mk_pool _ _ _ _).
  assert (upd_at s s' k (set_pnext (pfree s) h)) as Hu by by eapply upd_at_intro.
  split; simpl.
  - eapply chain_ext, Hh. intros j Hj. apply (nxp_upd_ne _ _ _ _ _ Hu). set_solver.
  - eapply (chain_push (nxp s)); [done|done|exact (nxp_upd_eq _ _ _ _ Hu)|].
    intros j. apply (nxp_upd_ne _ _ _ _ _ Hu).
  - set_solver.
  - eapply Forall2_impl; [exact Hv|]. intros j r'. by eapply (hole_is_upd s s' k h).
  - done.
Qed.

(** Reshaping the range of one descriptor of the list. *)
Lemma rep_reshape b s us1 k us2 hs1 r hs2 fr h h' :
  pool_rep b s (us1 ++ k :: us2) (hs1 ++ r :: hs2) fr → length hs1 = length us1 →
  holes s !! k = Some h → kh_pnext h' = kh_pnext h →
  pool_rep b (set_holes (<[k := h']> (holes s)) s)
    (us1 ++ k :: us2) (hs1 ++ (kh_addr h', kh_size h') :: hs2) fr.
Proof.
  intros Hrep Hlen Hk Hn. set (s' := set_holes _ _).
  assert (upd_at s s' k h') as Hu by by eapply upd_at_intro.
  eapply (rep_set_range b s s'); [exact Hrep|exact Hu|exact Hk|done..|].
  pose proof (rep_head _ _ _ _ _ Hrep) as Hnd%chain_nodup.
  apply list.NoDup_app in Hnd as (_ & Hd & Hnd). apply list.NoDup_cons in Hnd as [Hk2 _].
  pose proof (rep_holes _ _ _ _ _ Hrep) as Hv.
  apply Forall2_app_inv in Hv as [Hv1 Hv2]; [|done]. inversion Hv2 as [|? ? ? ? Hka Hv3]; subst.
  apply Forall2_app; [|constructor].
  - eapply Forall2_impl_elem; [exact Hv1|]. intros j r' Hj.
    apply (hole_is_upd_ne _ _ _ _ _ _ Hu). set_solver.
  - exists h'. by rewrite (upd_at_eq _ _ _ _ Hu).
  - eapply Forall2_impl_elem; [exact Hv3|]. intros j r' Hj.
    apply (hole_is_upd_ne _ _ _ _ _ _ Hu). set_solver.
Qed.

(** Unlinking makes a descriptor loose and drops its range. *)
Lemma rep_unlink b s us1 k us2 hs1 r hs2 fr h :
  pool_rep b s (us1 ++ k :: us2) (hs1 ++ r :: hs2) fr → length hs1 = length us1 →
  holes s !! k = Some h →
  ∃ s', unlink (Some k) s = Ret tt s' ∧ pool_rep b s' (us1 ++ us2) (hs1 ++ hs2) fr ∧
    loose s' (us1 ++ us2) fr k r ∧ holes s' !! k = Some h.
Proof.
  intros [Hh Hf Hd Hv Hl] Hlen Hk.
  pose proof (chain_nodup _ _ _ Hh) as Hnd.
  apply list.NoDup_app in Hnd as (_ & Hd1 & Hnd2). apply list.NoDup_cons in Hnd2 as [Hk2 _].
  destruct (unlink_spec _ _ _ _ _ Hh Hk) as (s' & Hrun & Hc & Epf & El & Hkeep & Hsame).
  apply Forall2_app_inv in Hv as [Hv1 Hv2]; [|done]. inversion Hv2 as [|? ? ? ? Hka Hv3]; subst.
  exists s'. split_and!; [done| | |].
  - split; [done| |set_solver| |congruence].
    + rewrite Epf. eapply chain_ext, Hf. intros j Hj. unfold nxp. rewrite Hsame; set_solver.
    + apply Forall2_app; (eapply Forall2_impl; [done|apply Hkeep]).
  - split_and!; [set_solver..|by apply Hkeep].
  - rewrite Hsame; set_solver.
Qed.

Lemma retire_spec b s us1 k us2 hs1 r hs2 fr h :
  pool_rep b s (us1 ++ k :: us2) (hs1 ++ r :: hs2) fr → length hs1 = length us1 →
  holes s !! k = Some h →
  ∃ s' h', retire (Some k) s = Ret tt s' ∧
    pool_rep b s' (us1 ++ us2) (hs1 ++ hs2) (k :: fr) ∧
    holes s' !! k = Some h' ∧ kh_addr h' = kh_addr h.
Proof.
  intros Hrep Hlen Hk.
  destruct (rep_unlink _ _ _ _ _ _ _ _ _ _ Hrep Hlen Hk) as (s2 & Hrun & Hrep2 & Hloose & Hk2).
  pose proof (rep_release _ _ _ _ _ _ _ _ Hrep2 Hloose Hk2) as Hrep3.
  unfold retire. rewrite (bind_ret _ _ _ _ _ Hrun). erewrite bind_ret by reflexivity.
  rewrite (bind_ret _ _ _ _ _ (upd_hole_run _ _ _ _ Hk2)).
  eexists _, _. split; [reflexivity|]. split; [exact Hrep3|]. simpl.
  split; [apply list_lookup_insert_eq; by eapply lookup_lt_Some|done].
Qed.

(** Reshaping an unused descriptor changes nothing. *)
Lemma rep_reshape_free b s us hs k fr h h' :
  pool_rep b s us hs (k :: fr) → holes s !! k = Some h → kh_pnext h' = kh_pnext h →
  pool_rep b (set_holes (<[k := h']> (holes s)) s) us hs (k :: fr).
Proof.
  intros Hrep Hk Hn. set (s' := set_holes _ s).
  assert (upd_at s s' k h') as Hu by by eapply upd_at_intro.
  eapply (rep_set_range b s s'); [exact Hrep|exact Hu|exact Hk|done..|].
  destruct Hrep as [_ _ Hd Hv _].
  eapply Forall2_impl_elem; [exact Hv|]. intros j r Hj.
  apply (hole_is_upd_ne _ _ _ _ _ _ Hu). set_solver.
Qed.

(** [carve]: the address of the range is returned, the range loses its first
    [z] bytes, and a remainder that is dropped frees its descriptor. *)
Lemma carve_spec drop b s us1 k us2 hs1 a t hs2 fr z :
  pool_rep b s (us1 ++ k :: us2) (hs1 ++ (a, t) :: hs2) fr → length hs1 = length us1 →
  range_ok (a, t) → 0 ≤ z ≤ t →
  ∃ s' us' fr',
    carve drop (Some k) z s = Ret a s' ∧
    pool_rep b s' us' (hs1 ++ (if drop (t - z) then hs2 else (a + z, t - z) :: hs2)) fr' ∧
    length fr' = (length fr + if drop (t - z)%Z then 1 else 0)%nat.
Proof.
  intros Hrep Hlen (Ha & Ht & Hat) Hz. simpl in Ha, Ht, Hat.
  assert (∃ h, holes s !! k = Some h ∧ kh_addr h = a ∧ kh_size h = t) as (h & Hk & Ea & Et).
  { pose proof (rep_holes _ _ _ _ _ Hrep) as Hv.
    apply Forall2_app_inv in Hv as [_ Hv]; [|done]. by inversion Hv. }
  assert (u64 (t - z) = t - z) as Ew by (apply u64_id; unfold in_u; lia).
  assert (u64 (a + z) = a + z) as Ew2 by (apply u64_id; unfold in_u; lia).
  unfold carve. rewrite (bind_ret _ _ _ _ _ (hole_at_run _ _ _ Hk)), Et, Ew.
  rewrite (bind_ret _ _ _ _ _ (upd_hole_run _ _ _ _ Hk)).
  pose proof (rep_reshape b s us1 k us2 hs1 (a, t) hs2 fr h (set_size (t - z) h) Hrep Hlen Hk eq_refl)
    as Hrep1.
  set (s1 := set_holes _ s) in *. simpl in Hrep1. rewrite Ea in Hrep1.
  assert (holes s1 !! k = Some (set_size (t - z) h)) as Hk1.
  { apply list_lookup_insert_eq. by eapply lookup_lt_Some. }
  rewrite (bind_ret _ _ _ _ _ (hole_at_run _ _ _ Hk1)). simpl kh_size.
  destruct (drop (t - z)) eqn:Edrop.
  - destruct (retire_spec _ _ _ _ _ _ _ _ _ _ Hrep1 Hlen Hk1)
      as (s2 & h2 & Hrun2 & Hrep2 & Hk2 & Ea2). simpl in Ea2. rewrite Ea in Ea2.
    rewrite (bind_ret _ _ _ _ _ Hrun2), (bind_ret _ _ _ _ _ (hole_at_run _ _ _ Hk2)).
    rewrite (bind_ret _ _ _ _ _ (upd_hole_run _ _ _ _ Hk2)), Ea2.
    eexists _, _, (k :: fr). split; [reflexivity|]. split; [|simpl; lia].
    by eapply rep_reshape_free.
  - erewrite bind_ret by reflexivity.
    rewrite (bind_ret _ _ _ _ _ (hole_at_run _ _ _ Hk1)).
    rewrite (bind_ret _ _ _ _ _ (upd_hole_run _ _ _ _ Hk1)). simpl kh_addr. rewrite Ea, Ew2.
    eexists _, _, fr. split; [reflexivity|]. split; [|lia].
    exact (rep_reshape b s1 us1 k us2 hs1 _ hs2 fr _ (set_addr (a + z) (set_size (t - z) h))
      Hrep1 Hlen Hk1 eq_refl).
Qed.

(** The first-fit search followed by [carve] implements [spec_alloc]. *)
Lemma find_carve_spec drop b s hs n z :
  pool_is b s hs n → Forall range_ok hs → 0 ≤ z →
  match spec_alloc drop z hs with
  | None => find_fit (S (length (holes s))) (phead s) z s = Ret None s
  | Some (a, hs') =>
      ∃ k s', find_fit (S (length (holes s))) (phead s) z s = Ret (Some k) s ∧
        carve drop (Some k) z s = Ret a s' ∧
        pool_is b s' hs' (n + if decide (length hs' < length hs)%nat then 1 else 0)
  end.
Proof.
  intros (us & fr & Hrep & <-) Hok Hz.
  pose proof (rep_head _ _ _ _ _ Hrep) as Hhd.
  destruct (find_fit_spec s z (S (length (holes s))) (phead s) us hs) as [[E1 E2]|E];
    [done|by destruct Hrep|by apply pool_list_length in Hhd; lia| |].
  { by rewrite spec_alloc_None. }
  destruct E as (us1 & k & us2 & hs1 & [a t] & hs2 & -> & -> & El & Es & Et & Ef).
  simpl in Et. rewrite spec_alloc_split by done.
  apply Forall_app in Hok as [_ Hok]. inversion Hok as [|? ? Hr _]; subst.
  destruct (carve_spec drop b s us1 k us2 hs1 a t hs2 fr z)
    as (s' & us' & fr' & Hrun & Hrep' & Hfr); [done..|].
  exists k, s'. split_and!; [done..|]. exists us', fr'. split; [done|]. rewrite Hfr.
  f_equal. destruct (drop (t - z)); case_decide as Hd; rewrite !length_app in Hd;
    simpl in Hd; lia.
Qed.

(** Initialisation leaves an empty pool with every descriptor unused. *)
Lemma init_links_spec s n i :
  (i + n ≤ length (holes s))%nat →
  ∃ s', for_range n i (λ i, upd_hole (Some i) (set_pnext (Some (S i)))) s = Ret tt s' ∧
    length (holes s') = length (holes s) ∧
    (∀ j, (i ≤ j < i + n)%nat → nxp s' j = Some (Some (S j))) ∧
    (∀ j, ¬ (i ≤ j < i + n)%nat → nxp s' j = nxp s j).
Proof.
  revert s i. induction n as [|n IH]; intros s i Hlen.
  { exists s. split_and!; [done|done|lia|done]. }
  destruct (lookup_lt_is_Some_2 (holes s) i) as [h Hh]; [lia|].
  simpl. rewrite (bind_ret _ _ _ _ _ (upd_hole_run _ _ _ _ Hh)).
  set (s1 := set_holes _ s).
  assert (upd_at s s1 i (set_pnext (Some (S i)) h)) as Hu by by eapply upd_at_intro.
  assert (length (holes s1) = length (holes s)) as El by apply length_insert.
  destruct (IH s1 (S i)) as (s' & Hrun & Hl' & Hin & Hout); [lia|].
  exists s'. split_and!; [done|lia| |].
  - intros j Hj. destruct (decide (j = i)) as [->|]; [|apply Hin; lia].
    rewrite Hout by lia. by rewrite (nxp_upd_eq _ _ _ _ Hu).
  - intros j Hj. rewrite Hout by lia. apply (nxp_upd_ne _ _ _ _ _ Hu). lia.
Qed.

Lemma init_pool_spec max :
  (0 < max)%nat → ∃ s, init_pool max (zero_pool max) = Ret tt s ∧ pool_is false s [] max.
Proof.
  intros Hmax. unfold init_pool.
  destruct (init_links_spec (zero_pool max) (max - 1) 0) as (s1 & Hrun & Hl & Hin & _).
  { simpl. rewrite length_replicate. lia. }
  rewrite (bind_ret _ _ _ _ _ Hrun). simpl in Hl. rewrite length_replicate in Hl.
  destruct (lookup_lt_is_Some_2 (holes s1) (max - 1)) as [h Hh]; [lia|].
  rewrite (bind_ret _ _ _ _ _ (upd_hole_run _ _ _ _ Hh)).
  eexists. split; [reflexivity|]. exists [], (seq 0 max).
  split; [|apply length_seq]. set (s := set_locked false _).
  assert (upd_at s1 s (max - 1) (set_pnext None h)) as Hu by by eapply upd_at_intro.
  split; [done| |set_solver|constructor|done].
  pose proof (chain_seq (nxp s) 0 max) as Hc. rewrite decide_False in Hc by lia. apply Hc.
  intros j Hj. case_decide.
  - replace j with (max - 1)%nat by lia. by rewrite (nxp_upd_eq _ _ _ _ Hu).
  - rewrite (nxp_upd_ne _ _ _ _ _ Hu) by lia. apply Hin. lia.
Qed.

(** ** Properties of the abstract pool *)

(** The addresses a list of ranges covers. *)
Definition covers (hs : list range) (x : Z) : Prop := ∃ r, r ∈ hs ∧ r.1 ≤ x < r.1 + r.2.
Definition total (hs : list range) : Z := foldr (λ r n, r.2 + n) 0 hs.

Lemma covers_cons r hs x : covers (r :: hs) x ↔ (r.1 ≤ x < r.1 + r.2) ∨ covers hs x.
Proof. unfold covers. setoid_rewrite elem_of_cons. naive_solver. Qed.

Lemma ranges_ok_cons r hs :
  ranges_ok (r :: hs) ↔ range_ok r ∧ Forall (before r) hs ∧ ranges_ok hs.
Proof.
  unfold ranges_ok. rewrite Forall_cons. split.
  - intros [[??] Hs]. inversion Hs; subst. done.
  - intros (? & ? & ? & ?). split; [done|]. by constructor.
Qed.

Lemma before_trans r1 r2 r3 : range_ok r2 → before r1 r2 → before r2 r3 → before r1 r3.
Proof. unfold before, range_ok. lia. Qed.

Lemma Forall_before_weaken r1 r2 hs :
  range_ok r2 → before r1 r2 → Forall (before r2) hs → Forall (before r1) hs.
Proof. intros Hok Hb Hf. eapply Forall_impl; [done|]. intros r. by apply before_trans. Qed.

Lemma ins_before_perm a z hs : ins_before a z hs ≡ₚ (a, z) :: hs.
Proof.
  induction hs as [|[b t] r IH]; simpl; [done|].
  destruct (b <? a); [|done]. rewrite IH. apply Permutation_swap.
Qed.

Lemma spec_free_perm a z hs : spec_free a z hs ≡ₚ (a, z) :: hs.
Proof.
  destruct hs as [|[b t] r]; simpl; [done|].
  destruct (a <? b); [done|]. rewrite ins_before_perm. apply Permutation_swap.
Qed.

Lemma ins_before_ok a z hs :
  ranges_ok hs → range_ok (a, z) → Forall (disjoint_range (a, z)) hs →
  ranges_ok (ins_before a z hs).
Proof.
  intros Hok Hr. induction hs as [|[b t] r IH]; intros Hd; simpl.
  { apply ranges_ok_cons. split_and!; [done|constructor|done]. }
  apply ranges_ok_cons in Hok as (Hr1 & Hb & Hok).
  apply Forall_cons in Hd as [Hd1 Hd].
  destruct (Z.ltb_spec b a).
  - apply ranges_ok_cons. split_and!; [done| |by apply IH].
    rewrite ins_before_perm. constructor; [|done].
    destruct Hd1 as [Hd1|Hd1]; unfold before, range_ok in *; simpl in *; lia.
  - apply ranges_ok_cons. split_and!; [done| |by apply ranges_ok_cons].
    assert (before (a, z) (b, t)).
    { destruct Hd1 as [Hd1|Hd1]; unfold before, range_ok in *; simpl in *; lia. }
    constructor; [done|]. by eapply (Forall_before_weaken _ (b, t)).
Qed.

(** Freeing a range that does not overlap the pool keeps it sorted and
    disjoint and adds exactly that range. *)
Lemma spec_free_ok a z hs :
  ranges_ok hs → range_ok (a, z) → Forall (disjoint_range (a, z)) hs →
  ranges_ok (spec_free a z hs).
Proof.
  intros Hok Hr Hd. destruct hs as [|[b t] r]; simpl.
  { apply ranges_ok_cons. split_and!; [done|constructor|done]. }
  pose proof (ins_before_ok a z _ Hok Hr Hd) as Hins. simpl in Hins.
  apply Forall_cons in Hd as [Hd1 _].
  destruct (Z.ltb_spec a b), (Z.ltb_spec b a); try lia; try done.
  apply ranges_ok_cons in Hok as (Hr1 & _).
  destruct Hd1 as [Hd1|Hd1]; unfold before, range_ok in *; simpl in *; lia.
Qed.

(** What a first-fit allocation of [z] bytes does to the pool. *)
Lemma spec_alloc_Some drop z hs a hs' :
  spec_alloc drop z hs = Some (a, hs') →
  ∃ hs1 t hs2, hs = hs1 ++ (a, t) :: hs2 ∧ z ≤ t ∧ Forall (λ r, r.2 < z) hs1 ∧
    hs' = hs1 ++ (if drop (t - z) then hs2 else (a + z, t - z) :: hs2).
Proof.
  revert hs'. induction hs as [|[b t] r IH]; intros hs' H; simpl in H; [done|].
  destruct (Z.ltb_spec t z).
  - destruct (spec_alloc drop z r) as [[a' r']|]; simplify_eq.
    destruct (IH r' eq_refl) as (hs1 & t' & hs2 & -> & ? & ? & ->).
    exists ((b, t) :: hs1), t', hs2. split_and!; [done|done|by constructor|done].
  - simplify_eq. by exists [], t, r.
Qed.

Lemma ranges_ok_app hs1 r hs2 :
  ranges_ok (hs1 ++ r :: hs2) →
  Forall (λ r1, before r1 r) hs1 ∧ range_ok r ∧ Forall (before r) hs2.
Proof.
  induction hs1 as [|r1 hs1 IH]; simpl; intros (Hr1 & Hb & Hok)%ranges_ok_cons.
  - split_and!; [constructor|done|done].
  - destruct (IH Hok) as (H1 & H2 & H3).
    apply Forall_app in Hb as [_ Hb]. apply Forall_cons in Hb as [Hb _].
    split_and!; [by constructor|done|done].
Qed.

(** Replacing a range by a smaller one inside it. *)
Lemma ranges_ok_shrink hs1 r r' hs2 :
  ranges_ok (hs1 ++ r :: hs2) → range_ok r' → r.1 ≤ r'.1 → r'.1 + r'.2 ≤ r.1 + r.2 →
  ranges_ok (hs1 ++ r' :: hs2).
Proof.
  intros Hok Hr' Hlo Hhi. revert Hok.
  induction hs1 as [|r1 hs1 IH]; simpl; intros (Hr1 & Hb & Hok)%ranges_ok_cons;
    apply ranges_ok_cons.
  - split_and!; [done| |done]. eapply Forall_impl; [done|]. unfold before in *. intros; lia.
  - split_and!; [done| |by apply IH].
    apply Forall_app in Hb as [Hb1 Hb2]. apply Forall_cons in Hb2 as [Hb2 Hb3].
    apply Forall_app. split; [done|]. constructor; [|done]. unfold before in *. lia.
Qed.

Lemma ranges_ok_drop hs1 r hs2 : ranges_ok (hs1 ++ r :: hs2) → ranges_ok (hs1 ++ hs2).
Proof.
  induction hs1 as [|r1 hs1 IH]; simpl; intros (Hr1 & Hb & Hok)%ranges_ok_cons; [done|].
  apply ranges_ok_cons. split_and!; [done| |by apply IH].
  apply Forall_app in Hb as [Hb1 Hb2]. apply Forall_cons in Hb2 as [_ Hb3].
  by apply Forall_app.
Qed.

(** First fit hands out the start of a range of the pool; the block is
    disjoint from every range that stays, and the pool stays well formed. *)
Lemma spec_alloc_ok drop z hs a hs' :
  ranges_ok hs → 0 < z → (∀ t, 0 ≤ t → drop t = false → 0 < t) →
  spec_alloc drop z hs = Some (a, hs') →
  ranges_ok hs' ∧ Forall (disjoint_range (a, z)) hs' ∧
  (∀ x, a ≤ x < a + z → covers hs x) ∧ (∀ x, covers hs' x → covers hs x).
Proof.
  intros Hok Hz Hdrop (hs1 & t & hs2 & -> & Ht & _ & ->)%spec_alloc_Some.
  destruct (ranges_ok_app _ _ _ Hok) as (H1 & (Ha & Ht0 & Hat) & H2). simpl in Ha, Ht0, Hat.
  assert (Forall (disjoint_range (a, z)) hs1) as D1.
  { eapply Forall_impl; [exact H1|]. intros r. right. done. }
  assert (Forall (disjoint_range (a, z)) hs2) as D2.
  { eapply Forall_impl; [exact H2|]. intros r. left. unfold before in *. simpl in *. lia. }
  assert (∀ x, a ≤ x < a + z → covers (hs1 ++ (a, t) :: hs2) x) as C1.
  { intros x Hx. exists (a, t). split; [set_solver|]. simpl. lia. }
  destruct (drop (t - z)) eqn:Ed; split_and!; try done.
  - by eapply ranges_ok_drop.
  - by apply Forall_app.
  - intros x (r & Hr & Hx). exists r. split; [set_solver|done].
  - assert (0 < t - z) by (apply Hdrop; [lia|done]).
    eapply ranges_ok_shrink; [exact Hok|..]; unfold range_ok; simpl; lia.
  - apply Forall_app. split; [done|]. constructor; [|done]. left. unfold before. simpl. lia.
  - intros x (r & Hr & Hx). apply elem_of_app in Hr as [Hr|[->|Hr]%elem_of_cons].
    + exists r. split; [set_solver|done].
    + simpl in Hx. exists (a, t). split; [set_solver|]. simpl. lia.
    + exists r. split; [set_solver|done].
Qed.

(** When only an empty remainder is dropped no address is lost. *)
Lemma spec_alloc_covers drop z hs a hs' x :
  ranges_ok hs → (∀ t, drop t = (t =? 0)) →
  spec_alloc drop z hs = Some (a, hs') →
  covers hs x → a ≤ x < a + z ∨ covers hs' x.
Proof.
  intros Hok Hdrop (hs1 & t & hs2 & -> & Ht & _ & ->)%spec_alloc_Some (r & Hr & Hx).
  rewrite Hdrop. destruct (decide (a ≤ x < a + z)) as [|Hn]; [by left|right].
  apply elem_of_app in Hr as [Hr|[->|Hr]%elem_of_cons].
  - exists r. split; [set_solver|done].
  - simpl in Hx. destruct (Z.eqb_spec (t - z) 0); [lia|].
    exists (a + z, t - z). split; [set_solver|]. simpl. lia.
  - exists r. split; [|done]. destruct (t - z =? 0); set_solver.
Qed.

Lemma spec_alloc_fits drop z hs :
  spec_alloc drop z hs = None ↔ Forall (λ r, r.2 < z) hs.
Proof.
  split; [|apply spec_alloc_None]. induction hs as [|[b t] r IH]; simpl; [constructor|].
  destruct (Z.ltb_spec t z); [|done]. destruct (spec_alloc drop z r) as [[]|]; [done|].
  intros _. constructor; [done|]. by apply IH.
Qed.

(** ** Pairwise disjoint ranges, in any order *)

Fixpoint sep (hs : list range) : Prop :=
  match hs with
  | [] => True
  | r :: hs => Forall (disjoint_range r) hs ∧ sep hs
  end.

Lemma disjoint_range_sym r1 r2 : disjoint_range r1 r2 → disjoint_range r2 r1.
Proof. unfold disjoint_range. tauto. Qed.

#[export] Instance sep_perm : Proper ((≡ₚ) ==> iff) sep.
Proof.
  assert (∀ l l', l ≡ₚ l' → sep l → sep l') as H.
  { induction 1 as [|r l l' E IH|r1 r2 l|l1 l2 l3 _ IH1 _ IH2]; simpl; auto.
    - intros [H1 H2]. split; [by rewrite <- E|auto].
    - rewrite !Forall_cons. intros ((? & ?) & ? & ?). split_and!; auto using disjoint_range_sym. }
  intros l l' E. split; apply H; [done|]. by symmetry.
Qed.

(** Two ranges without a common byte. *)
Lemma disjoint_bytes r1 r2 :
  0 < r1.2 → 0 < r2.2 →
  (∀ x, r1.1 ≤ x < r1.1 + r1.2 → r2.1 ≤ x < r2.1 + r2.2 → False) → disjoint_range r1 r2.
Proof.
  intros H1 H2 H. unfold disjoint_range, before.
  destruct (decide (r1.1 + r1.2 ≤ r2.1)), (decide (r2.1 + r2.2 ≤ r1.1)); auto.
  destruct (H (Z.max r1.1 r2.1)); lia.
Qed.

Lemma disjoint_byte r1 r2 x :
  disjoint_range r1 r2 → r1.1 ≤ x < r1.1 + r1.2 → ¬ (r2.1 ≤ x < r2.1 + r2.2).
Proof. unfold disjoint_range, before. lia. Qed.

Lemma apart_not_covers r hs x :
  Forall (disjoint_range r) hs → r.1 ≤ x < r.1 + r.2 → ¬ covers hs x.
Proof.
  rewrite Forall_forall. intros H Hx (r' & Hr & Hx'). by apply (disjoint_byte _ _ x (H _ Hr)).
Qed.

(** First fit on disjoint ranges in any order. *)
Lemma spec_alloc_sep drop z hs a hs' :
  Forall range_ok hs → sep hs → 0 < z → (∀ t, 0 ≤ t → drop t = false → 0 < t) →
  spec_alloc drop z hs = Some (a, hs') →
  Forall range_ok hs' ∧ sep hs' ∧ range_ok (a, z) ∧
  (∀ x, covers hs' x → covers hs x) ∧
  (∀ x, a ≤ x < a + z → covers hs x ∧ ¬ covers hs' x).
Proof.
  intros Hok Hsep Hz Hdrop (hs1 & t & hs2 & -> & Ht & _ & ->)%spec_alloc_Some.
  rewrite <- Permutation_middle in Hsep. destruct Hsep as [Hap Hsep].
  apply Forall_app in Hok as [Hok1 [Hr Hok2]%Forall_cons].
  apply Forall_app in Hap as [Hap1 Hap2].
  assert (∀ u v, a ≤ u → 0 < v → u + v ≤ a + t → range_ok (u, v) ∧
            Forall (disjoint_range (u, v)) (hs1 ++ hs2)) as Hsub.
  { intros u v Hu Hv Huv. split; [unfold range_ok in *; simpl in *; lia|].
    apply Forall_app; split; [eapply Forall_impl; [exact Hap1|]|eapply Forall_impl; [exact Hap2|]];
      intros r Hd; unfold disjoint_range, before in *; simpl in *; lia. }
  destruct (Hsub a z ltac:(lia) Hz ltac:(lia)) as [Hblk Hba].
  set (l := hs1 ++ _).
  assert (Forall range_ok l ∧ sep l ∧ Forall (disjoint_range (a, z)) l) as (L1 & L2 & L3).
  { subst l. destruct (drop (t - z)) eqn:Ed.
    - split_and!; [by apply Forall_app|done|done].
    - specialize (Hdrop (t - z) ltac:(lia) Ed).
      destruct (Hsub (a + z) (t - z)) as [H1 H2]; [lia..|]. rewrite <- Permutation_middle.
      split_and!; [constructor; [done|]; by apply Forall_app|done|].
      constructor; [|done]. left. unfold before. simpl. lia. }
  split_and!; try done.
  - intros x (r & Hr' & Hx). destruct (decide (r = (a + z, t - z))) as [->|Hn].
    + exists (a, t). simpl in *. split; [set_solver|lia].
    + exists r. split; [|done]. subst l. destruct (drop _); set_solver.
  - intros x Hx. split; [exists (a, t); simpl; split; [set_solver|lia]|].
    by apply (apart_not_covers (a, z)).
Qed.

(** ** The size of the array never changes *)

Definition holes_len (n : nat) (s : pool) : Prop := length (holes s) = n.

Section holes_len.
Context (n : nat).

Lemma keeps_hole_at p : keeps (holes_len n) (hole_at p).
Proof. intros s h s' Hn. unfold hole_at. destruct (p ≫= _); [|done]. by intros [= _ <-]. Qed.

Lemma keeps_upd_hole p f : keeps (holes_len n) (upd_hole p f).
Proof.
  intros s h s' Hn. unfold upd_hole. destruct p as [i|]; [|done]. destruct (holes s !! i); [|done].
  intros [= _ <-]. unfold holes_len. simpl. by rewrite length_insert.
Qed.

Lemma keeps_set f : (∀ s, holes (f s) = holes s) → keeps (holes_len n) (modify f).
Proof. intros Hf. apply keeps_modify. intros s. unfold holes_len. by rewrite Hf. Qed.

Lemma keeps_spin_lock : keeps (holes_len n) spin_lock.
Proof. intros s a s' Hn. unfold spin_lock. destruct (locked s); [done|]. by intros [= _ <-]. Qed.

Lemma keeps_spin_unlock : keeps (holes_len n) spin_unlock.
Proof. by apply keeps_set. Qed.

#[local] Hint Resolve keeps_hole_at keeps_upd_hole keeps_spin_lock keeps_spin_unlock : yaos.
#[local] Hint Extern 1 (keeps (holes_len _) (modify _)) => by apply keeps_set : yaos.

Lemma keeps_walk_sorted fuel ph a : keeps (holes_len n) (walk_sorted fuel ph a).
Proof. revert ph. induction fuel; intros; simpl; keep. Qed.

Lemma keeps_find_fit fuel p z : keeps (holes_len n) (find_fit fuel p z).
Proof. revert p. induction fuel; intros; simpl; keep. Qed.

Lemma keeps_walk_to fuel ptr p : keeps (holes_len n) (walk_to fuel ptr p).
Proof. revert ptr. induction fuel; intros; simpl; keep. Qed.

#[local] Hint Resolve keeps_walk_sorted keeps_find_fit keeps_walk_to : yaos.

Lemma keeps_free_hole mask a z : keeps (holes_len n) (free_hole mask a z).
Proof. unfold free_hole, link_sorted, pool_fuel. keep. Qed.

Lemma keeps_init_pool max : keeps (holes_len n) (init_pool max).
Proof. unfold init_pool. keep. Qed.

Lemma keeps_carve drop p z : keeps (holes_len n) (carve drop p z).
Proof. unfold carve, retire, unlink, pool_fuel. keep. Qed.

End holes_len.

#[export] Hint Resolve keeps_hole_at keeps_upd_hole keeps_spin_lock keeps_spin_unlock
  keeps_find_fit keeps_free_hole keeps_carve : yaos.
#[export] Hint Extern 1 (keeps (holes_len _) (modify _)) => by apply keeps_set : yaos.

Lemma pool_is_len b s hs n : pool_is b s hs n → (n ≤ length (holes s))%nat.
Proof.
  intros (us & fr & Hr & <-). eapply pool_list_length. apply (rep_free _ _ _ _ _ Hr).
Qed.
