(* ===== verification/Pages.v ===== *)
(** * The interface of the physical page allocator

    The heap (kernel/kheap.c) and the page tables take whole pages of physical
    memory from alloc_phy_page.  This file states what they rely on as a type
    class; Phymem.v proves that the bitmap of arch/x86_64/phymem.c is an
    instance. *)

From stdpp Require Import base list numbers option.
From Stdlib Require Import Lia ZArith.
From S2P Require Import Prelude.

#[local] Open Scope Z_scope.

(** asm/pgtable.h *)
Definition PAGE_SIZE : Z := 0x200000.

(** The addresses alloc_phy_page may return: page aligned, not page 0, inside
    the 52 bits of an x86-64 physical address. *)
Definition page_addr (a : Z) : Prop :=
  0 < a ∧ a + PAGE_SIZE ≤ 2 ^ 52 ∧ aligned PAGE_SIZE a.

Class PageSource (P : Type) := {
  pg_alloc : M P Z;
  pg_inv : P → Prop;
  pg_free : P → Z → Prop;
  pg_free_page : ∀ s a, pg_inv s → pg_free s a → page_addr a;
  pg_alloc_ok : ∀ s, pg_inv s →
    ∃ a s', pg_alloc s = Ret a s' ∧ pg_inv s' ∧
      ((a = 0 ∧ ∀ x, pg_free s' x ↔ pg_free s x) ∨
       (pg_free s a ∧ ∀ x, pg_free s' x ↔ pg_free s x ∧ x ≠ a))
}.

Lemma page_addr_nonzero a : page_addr a → a ≠ 0.
Proof. intros [H _]. lia. Qed.

(** Two pages overlap only when they are the same page. *)
Lemma page_addr_apart a b :
  page_addr a → page_addr b → a ≠ b → a + PAGE_SIZE ≤ b ∨ b + PAGE_SIZE ≤ a.
Proof.
  intros (_ & _ & Ha) (_ & _ & Hb) Hn. unfold aligned in *.
  pose proof (Z.div_mod a PAGE_SIZE). pose proof (Z.div_mod b PAGE_SIZE).
  unfold PAGE_SIZE in *. lia.
Qed.

(** ** The memory the page tables and the virtual areas are built from

    [ms_block] is alloc_kheap_4k (4096), [ms_page] alloc_phy_page and
    [ms_free_page] free_phy_one_page; [ms_free s x] says that byte [x] can
    still be handed out.  A block or page is made of free bytes, which are then
    not free any more. *)

(** [a] is the result of a request for [z] bytes below [top] between [s] and [s']. *)
Definition handed_out {H} (inv : H → Prop) (free : H → Z → Prop) (z top : Z) (s : H) (a : Z) (s' : H) : Prop :=
  inv s' ∧ (∀ x, free s' x → free s x) ∧
  (a = 0 ∨
   0 < a ∧ a + z ≤ top ∧ aligned z a ∧
   ∀ x, a ≤ x < a + z → free s x ∧ ¬ free s' x).

Class MemSource (H : Type) := {
  ms_block : M H Z;
  ms_page : M H Z;
  ms_free_page : Z → M H unit;
  ms_inv : H → Prop;
  ms_free : H → Z → Prop;
  ms_block_ok : ∀ s, ms_inv s →
    match ms_block s with
    | Ret a s' => handed_out ms_inv ms_free 0x1000 (2 ^ 64) s a s'
    | Panicked => True
    | _ => False
    end;
  ms_page_ok : ∀ s, ms_inv s →
    ∃ a s', ms_page s = Ret a s' ∧ handed_out ms_inv ms_free PAGE_SIZE (2 ^ 52) s a s'
}.

(** ** Blocks of 4 KiB pages

    What the slab allocator relies on: yaos_heap_alloc_4k and yaos_heap_free_4k on
    sizes that are multiples of 4 KiB. *)

Definition handed_4k {H} (inv : H → Prop) (free : H → Z → Prop) (z : Z) (s : H) (a : Z) (s' : H) : Prop :=
  inv s' ∧ (∀ x, free s' x → free s x) ∧
  (a = 0 ∨
   0 < a ∧ a + z < 2 ^ 64 ∧ aligned 0x1000 a ∧
   ∀ x, a ≤ x < a + z → free s x ∧ ¬ free s' x).

Class BlockSource (H : Type) := {
  bk_alloc : Z → M H Z;
  bk_free : Z → Z → M H unit;
  bk_inv : H → Prop;
  bk_free_byte : H → Z → Prop;
  bk_alloc_ok : ∀ s z, bk_inv s → 0 < z ≤ 2 ^ 64 - 0x1000 → aligned 0x1000 z →
    match bk_alloc z s with
    | Ret a s' => handed_4k bk_inv bk_free_byte z s a s'
    | Panicked => True
    | _ => False
    end;
  bk_free_ok : ∀ s a z, bk_inv s → 0 < a → 0 < z → a + z < 2 ^ 64 → aligned 0x1000 a → aligned 0x1000 z →
    (∀ x, a ≤ x < a + z → ¬ bk_free_byte s x) →
    match bk_free a z s with
    | Ret _ s' => bk_inv s' ∧ ∀ x, bk_free_byte s' x ↔ bk_free_byte s x ∨ a ≤ x < a + z
    | Panicked => True
    | _ => False
    end
}.
