(* ===== verification/Bitops.v ===== *)
(** * Bit operations (arch/x86_64/include/asm/bitops.h)

    The operations are inline assembly; each is modelled by the effect of its
    instruction.  A bitmap is an array of 64-bit words: bit [nr] is bit
    [nr mod 64] of word [nr / 64]; [None] is an access outside the array. *)

From stdpp Require Import base gmap list numbers option.
From Stdlib Require Import Lia ZArith.
From S2P Require Import Prelude.

#[local] Open Scope Z_scope.
#[local] Open Scope yaos_scope.

(** bsfl: the number of the lowest set bit. *)
Fixpoint ctz_pos (p : positive) : Z :=
  match p with
  | xO p' => 1 + ctz_pos p'
  | _ => 0
  end.
Definition ctz (x : Z) : Z := match x with Zpos p => ctz_pos p | _ => 0 end.

(** [ffs (int x)]: the argument is cut to 32 bits. *)
Definition ffs (x : Z) : Z :=
  let y := u32 x in if y =? 0 then 0 else ctz y + 1.

(** [fls (int x)] and [fls64]: bsrl and bsrq give the number of the highest
    set bit. *)
Definition fls (x : Z) : Z :=
  let y := u32 x in if y =? 0 then 0 else Z.log2 y + 1.
Definition fls64 (x : Z) : Z :=
  let y := u64 x in if y =? 0 then 0 else Z.log2 y + 1.

Definition word_of (nr : Z) : nat := Z.to_nat (nr / 64).

(** bt, bts, btr, btc with a memory operand. *)
Definition test_bit (nr : Z) (ws : list Z) : option bool :=
  if nr <? 0 then None else
  match ws !! word_of nr with
  | Some w => Some (Z.testbit w (nr mod 64))
  | None => None
  end.

Definition update_bit (f : Z → Z → Z) (nr : Z) (ws : list Z) : option (bool * list Z) :=
  if nr <? 0 then None else
  match ws !! word_of nr with
  | Some w => Some (Z.testbit w (nr mod 64), <[word_of nr := f w (nr mod 64)]> ws)
  | None => None
  end.

Definition test_and_set_bit : Z → list Z → option (bool * list Z) := update_bit Z.setbit.
Definition test_and_clear_bit : Z → list Z → option (bool * list Z) := update_bit Z.clearbit.
Definition test_and_change_bit : Z → list Z → option (bool * list Z) :=
  update_bit (λ w i, Z.lxor w (2 ^ i)).

(** The forms for a constant [nr] work on the byte at [addr + (nr >> 3)], with the
    mask [1 << (nr & 7)]; in the little-endian word that byte is shifted by
    [8 * ((nr >> 3) & 7)]. *)
Definition CONST_MASK (nr : Z) : Z := 1 .<< (nr .& 7).
Definition byte_shift (nr : Z) : Z := 8 * ((nr .>> 3) .& 7).
Definition get_byte (w nr : Z) : Z := u8 (w .>> byte_shift nr).
Definition put_byte (w nr b : Z) : Z :=
  Z.ldiff w (0xff .<< byte_shift nr) .| (b .<< byte_shift nr).
Definition byte_op (f : Z → Z → Z) (nr : Z) (ws : list Z) : option (list Z) :=
  if nr <? 0 then None else
  match ws !! word_of nr with
  | Some w => Some (<[word_of nr := put_byte w nr (f (get_byte w nr) (CONST_MASK nr))]> ws)
  | None => None
  end.

(** set_bit, clear_bit and change_bit: [imm] is [__builtin_constant_p (nr)]. *)
Definition set_bit (imm : bool) (nr : Z) (ws : list Z) : option (list Z) :=
  if imm then byte_op Z.lor nr ws else snd <$> update_bit Z.setbit nr ws.
Definition clear_bit (imm : bool) (nr : Z) (ws : list Z) : option (list Z) :=
  if imm then byte_op (λ b m, b .& u8 (Z.lnot m)) nr ws else snd <$> update_bit Z.clearbit nr ws.
Definition change_bit (imm : bool) (nr : Z) (ws : list Z) : option (list Z) :=
  if imm then byte_op Z.lxor nr ws else snd <$> update_bit (λ w i, w .^ (2 ^ i)) nr ws.

(** test_bit: the constant form is C, the other the instruction bt. *)
Definition constant_test_bit (nr : Z) (ws : list Z) : option bool :=
  if nr <? 0 then None else
  match ws !! Z.to_nat (nr .>> 6) with
  | Some w => Some (negb ((1 .<< (nr .& 63)) .& w =? 0))
  | None => None
  end.

(** __ffs, ffz and __fls: bsf and bsr; undefined when there is no such bit. *)
Definition __ffs (w : Z) : option Z := if w =? 0 then None else Some (ctz w).
Definition ffz (w : Z) : option Z := __ffs (u64 (Z.lnot w)).
Definition __fls (w : Z) : option Z := if w =? 0 then None else Some (Z.log2 w).

(** Reading a bit of the bitmap, outside the array [false]. *)
Definition bit_at (ws : list Z) (i : Z) : bool := default false (test_bit i ws).

(** ** Lemmas *)

Lemma ctz_pos_nonneg p : 0 ≤ ctz_pos p.
Proof. induction p; simpl; lia. Qed.

Lemma ctz_spec x :
  0 < x → 0 ≤ ctz x ∧ Z.testbit x (ctz x) = true ∧ ∀ i, i < ctz x → Z.testbit x i = false.
Proof.
  destruct x as [|p|p]; try lia. intros _. simpl. split; [apply ctz_pos_nonneg|].
  induction p as [p IH|p IH|]; simpl ctz_pos.
  - split; [done|]. intros i Hi. by apply Z.testbit_neg_r.
  - pose proof (ctz_pos_nonneg p). destruct IH as [IH1 IH2].
    change (Zpos p~0) with (2 * Zpos p). split.
    + rewrite Z.add_1_l, Z.testbit_even_succ; done.
    + intros i Hi. destruct (decide (i < 0)); [by apply Z.testbit_neg_r|].
      destruct (decide (i = 0)) as [->|]; [apply Z.testbit_even_0|].
      replace i with (Z.succ (i - 1)) by lia.
      rewrite Z.testbit_even_succ by lia. apply IH2. lia.
  - split; [done|]. intros i Hi. by apply Z.testbit_neg_r.
Qed.

Lemma testbit_u32 x i : 0 ≤ i < 32 → Z.testbit (u32 x) i = Z.testbit x i.
Proof. intros. unfold u32, wrap. apply Z.mod_pow2_bits_low. lia. Qed.

Lemma testbit_bound w x i : 0 ≤ w → in_u w x → Z.testbit x i = true → 0 ≤ i < w.
Proof.
  intros Hw Hx Hi. destruct (decide (i < 0)); [by rewrite Z.testbit_neg_r in Hi|].
  destruct (decide (w ≤ i)); [|lia].
  rewrite <- (Z.mod_small x (2 ^ w)) in Hi by done.
  by rewrite Z.mod_pow2_bits_high in Hi by lia.
Qed.

(** [ffs] finds the lowest set bit of the low half of the word. *)
Lemma ffs_spec x :
  (ffs x = 0 ∧ u32 x = 0) ∨
  (1 ≤ ffs x ≤ 32 ∧ Z.testbit x (ffs x - 1) = true ∧
   ∀ i, i < ffs x - 1 → Z.testbit x i = false).
Proof.
  unfold ffs. assert (in_u 32 (u32 x)) as Hr by by apply wrap_range.
  destruct (Z.eqb_spec (u32 x) 0); [by left|right].
  destruct (ctz_spec (u32 x)) as (H1 & H2 & H3); [unfold in_u in Hr; lia|].
  assert (0 ≤ ctz (u32 x) < 32) by by eapply testbit_bound.
  rewrite Z.add_simpl_r. split; [lia|]. rewrite <- testbit_u32 by done. split; [done|].
  intros i Hi. destruct (decide (i < 0)); [by apply Z.testbit_neg_r|].
  rewrite <- testbit_u32 by lia. by apply H3.
Qed.

(** [fls] is the logarithm: [2^(fls x - 1) <= x < 2^(fls x)]. *)
Lemma fls_spec x : 0 < x < 2 ^ 32 → 2 ^ (fls x - 1) ≤ x < 2 ^ fls x.
Proof.
  intros Hx. unfold fls, u32. rewrite wrap_id by (unfold in_u; lia).
  destruct (Z.eqb_spec x 0); [lia|]. rewrite Z.add_simpl_r, Z.add_1_r.
  apply Z.log2_spec. lia.
Qed.

Lemma update_bit_Some f nr ws old ws' :
  update_bit f nr ws = Some (old, ws') →
  ∃ w, 0 ≤ nr ∧ ws !! word_of nr = Some w ∧ old = Z.testbit w (nr mod 64) ∧
    ws' = <[word_of nr := f w (nr mod 64)]> ws.
Proof.
  unfold update_bit. destruct (Z.ltb_spec nr 0); [done|].
  destruct (ws !! word_of nr) as [w|]; [|done]. intros. simplify_eq. eauto 10.
Qed.

Lemma word_bit_inj i j :
  0 ≤ i → 0 ≤ j → word_of i = word_of j → i mod 64 = j mod 64 → i = j.
Proof.
  unfold word_of. intros Hi Hj Hw Hm.
  apply Z2Nat.inj in Hw; [|apply Z.div_pos; lia..].
  pose proof (Z.div_mod i 64). pose proof (Z.div_mod j 64). lia.
Qed.

Lemma bit_at_lookup ws i w :
  0 ≤ i → ws !! word_of i = Some w → bit_at ws i = Z.testbit w (i mod 64).
Proof.
  intros Hi Hw. unfold bit_at, test_bit. destruct (Z.ltb_spec i 0); [lia|]. by rewrite Hw.
Qed.

(** The effect of an update on all bits of the map. *)
Lemma bit_at_update f ws nr w i :
  0 ≤ nr → ws !! word_of nr = Some w →
  (∀ j, j ≠ nr mod 64 → 0 ≤ j → Z.testbit (f w (nr mod 64)) j = Z.testbit w j) →
  bit_at (<[word_of nr := f w (nr mod 64)]> ws) i =
    if decide (i = nr) then Z.testbit (f w (nr mod 64)) (nr mod 64) else bit_at ws i.
Proof.
  intros Hnr Hw Hf. pose proof (Z.mod_pos_bound i 64).
  destruct (decide (i < 0)).
  { rewrite decide_False by lia. unfold bit_at, test_bit. by destruct (Z.ltb_spec i 0); [|lia]. }
  assert (0 ≤ i) as Hi by lia.
  destruct (decide (word_of i = word_of nr)) as [E|E].
  - assert (<[word_of nr := f w (nr mod 64)]> ws !! word_of i = Some (f w (nr mod 64))) as Hl.
    { rewrite E. apply list_lookup_insert_eq. by eapply lookup_lt_Some. }
    rewrite (bit_at_lookup _ _ _ Hi Hl). rewrite <- E in Hw.
    rewrite (bit_at_lookup _ _ _ Hi Hw).
    case_decide as Hd; [by subst|]. apply Hf; [|lia].
    intros Hm. by apply Hd, word_bit_inj.
  - rewrite decide_False by congruence. unfold bit_at, test_bit.
    destruct (Z.ltb_spec i 0); [lia|]. by rewrite list_lookup_insert_ne.
Qed.

Lemma test_and_set_bit_spec nr ws old ws' :
  test_and_set_bit nr ws = Some (old, ws') →
  old = bit_at ws nr ∧ length ws' = length ws ∧
  ∀ i, bit_at ws' i = if decide (i = nr) then true else bit_at ws i.
Proof.
  intros (w & Hnr & Hw & -> & ->)%update_bit_Some.
  split; [by rewrite (bit_at_lookup _ _ _ Hnr Hw)|]. split; [apply length_insert|].
  pose proof (Z.mod_pos_bound nr 64). intros i. rewrite bit_at_update; [|done..|].
  - case_decide; [|done]. by apply Z.setbit_eq; lia.
  - intros j Hj _. apply Z.setbit_neq; lia.
Qed.

Lemma test_and_clear_bit_spec nr ws old ws' :
  test_and_clear_bit nr ws = Some (old, ws') →
  old = bit_at ws nr ∧ length ws' = length ws ∧
  ∀ i, bit_at ws' i = if decide (i = nr) then false else bit_at ws i.
Proof.
  intros (w & Hnr & Hw & -> & ->)%update_bit_Some.
  split; [by rewrite (bit_at_lookup _ _ _ Hnr Hw)|]. split; [apply length_insert|].
  pose proof (Z.mod_pos_bound nr 64). intros i. rewrite bit_at_update; [|done..|].
  - case_decide; [|done]. apply Z.clearbit_eq.
  - intros j Hj _. apply Z.clearbit_neq. lia.
Qed.

Lemma update_bit_in_range f nr ws :
  0 ≤ nr < 64 * Z.of_nat (length ws) → ∃ old ws', update_bit f nr ws = Some (old, ws').
Proof.
  intros Hnr. unfold update_bit. destruct (Z.ltb_spec nr 0); [lia|].
  destruct (lookup_lt_is_Some_2 ws (word_of nr)) as [w Hw]; [|rewrite Hw; eauto].
  unfold word_of. assert (nr / 64 < Z.of_nat (length ws)) by (apply Z.div_lt_upper_bound; lia).
  assert (0 ≤ nr / 64) by (apply Z.div_pos; lia). lia.
Qed.

(** Setting or clearing a bit below 64 keeps a word in range. *)
Lemma in_u_bits w x : 0 ≤ w → 0 ≤ x → (∀ i, w ≤ i → Z.testbit x i = false) → in_u w x.
Proof.
  intros Hw Hx H. split; [done|]. destruct (decide (x = 0)) as [->|]; [by apply Z.pow_pos_nonneg|].
  apply Z.log2_lt_pow2; [lia|]. destruct (decide (Z.log2 x < w)); [done|].
  pose proof (Z.bit_log2 x). rewrite H in H0 by lia. specialize (H0 ltac:(lia)). done.
Qed.

Lemma setbit_in_u w x i : 0 ≤ i < w → in_u w x → in_u w (Z.setbit x i).
Proof.
  intros Hi Hx. apply in_u_bits; [lia| |].
  - unfold Z.setbit. apply Z.lor_nonneg. split; [apply Hx|]. apply Z.shiftl_nonneg. lia.
  - intros j Hj. rewrite Z.setbit_neq by lia.
    destruct (Z.testbit x j) eqn:E; [|done]. apply (testbit_bound w) in E; [lia|lia|done].
Qed.

Lemma clearbit_in_u w x i : 0 ≤ w → in_u w x → in_u w (Z.clearbit x i).
Proof.
  intros Hw Hx. apply in_u_bits; [lia| |].
  - unfold Z.clearbit. apply Z.ldiff_nonneg. left. apply Hx.
  - intros j Hj. destruct (Z.testbit (Z.clearbit x i) j) eqn:E; [|done].
    rewrite Z.clearbit_eqb in E. apply andb_true_iff in E as [E _].
    apply (testbit_bound w) in E; [lia|lia|done].
Qed.

Lemma update_bit_words f nr ws old ws' :
  (∀ w, in_u 64 w → in_u 64 (f w (nr mod 64))) →
  update_bit f nr ws = Some (old, ws') → Forall (in_u 64) ws → Forall (in_u 64) ws'.
Proof.
  intros Hf (w & _ & Hw & _ & ->)%update_bit_Some Hall.
  apply Forall_insert; [done|]. apply Hf. by eapply Forall_lookup_1.
Qed.

Lemma bit_at_range ws i : bit_at ws i = true → 0 ≤ i < 64 * Z.of_nat (length ws).
Proof.
  unfold bit_at, test_bit. destruct (Z.ltb_spec i 0); [done|].
  destruct (ws !! word_of i) eqn:E; [|done]. intros _. apply lookup_lt_Some in E.
  unfold word_of in E. pose proof (Z.div_mod i 64). pose proof (Z.mod_pos_bound i 64).
  assert (0 ≤ i / 64) by (apply Z.div_pos; lia). lia.
Qed.

(** Bit [b] of word [p] is bit [b + 64 * p] of the map. *)
Lemma bit_at_word ws p w b :
  ws !! p = Some w → 0 ≤ b < 64 → bit_at ws (b + Z.of_nat p * 64) = Z.testbit w b.
Proof.
  intros Hp Hb. assert (word_of (b + Z.of_nat p * 64) = p) as Ew.
  { unfold word_of. rewrite Z.div_add, Z.div_small by lia. lia. }
  rewrite (bit_at_lookup _ _ w); [|lia|by rewrite Ew].
  by rewrite Z.mod_add, Z.mod_small by lia.
Qed.

(** ** The two forms of the operations *)

Lemma mask_shift nr : 0 ≤ nr → byte_shift nr + nr .& 7 = nr mod 64 ∧ 0 ≤ nr .& 7 < 8 ∧
  0 ≤ byte_shift nr ≤ 56.
Proof.
  intros Hn. unfold byte_shift. change 7 with (2 ^ 3 - 1).
  rewrite !land_mask, Z.shiftr_div_pow2 by lia. change (2 ^ 3) with 8.
  pose proof (Z.mod_pos_bound nr 8). pose proof (Z.mod_pos_bound (nr / 8) 8).
  assert (nr mod 64 = nr mod 8 + 8 * ((nr / 8) mod 8)) as -> by (apply (Z.rem_mul_r nr 8 8); lia).
  lia.
Qed.

(** A byte of the word is its eight bits. *)
Lemma testbit_byte w nr j :
  0 ≤ nr → 0 ≤ j → Z.testbit (get_byte w nr) j = (j <? 8) && Z.testbit w (j + byte_shift nr).
Proof.
  intros Hn Hj. destruct (mask_shift nr Hn) as (_ & _ & Hs). unfold get_byte, u8, wrap.
  destruct (Z.ltb_spec j 8).
  - rewrite Z.mod_pow2_bits_low, Z.shiftr_spec by lia. done.
  - by rewrite Z.mod_pow2_bits_high by lia.
Qed.

Lemma testbit_CONST_MASK nr j :
  0 ≤ nr → 0 ≤ j → Z.testbit (CONST_MASK nr) j = (j =? nr .& 7).
Proof.
  intros Hn Hj. destruct (mask_shift nr Hn) as (_ & H7 & _). unfold CONST_MASK.
  rewrite Z.shiftl_1_l, Z.pow2_bits_eqb, Z.eqb_sym by lia. done.
Qed.

Lemma testbit_put_byte w nr b j :
  0 ≤ nr → 0 ≤ j → in_u 8 b →
  Z.testbit (put_byte w nr b) j =
    if (byte_shift nr <=? j) && (j <? byte_shift nr + 8) then Z.testbit b (j - byte_shift nr)
    else Z.testbit w j.
Proof.
  intros Hn Hj Hb. destruct (mask_shift nr Hn) as (_ & _ & Hs). unfold put_byte.
  rewrite Z.lor_spec, Z.ldiff_spec. change 0xff with (Z.ones 8).
  destruct (Z.leb_spec (byte_shift nr) j); simpl.
  - rewrite !Z.shiftl_spec by lia. rewrite Z.testbit_ones by lia.
    destruct (Z.ltb_spec j (byte_shift nr + 8)).
    + destruct (Z.leb_spec 0 (j - byte_shift nr)), (Z.ltb_spec (j - byte_shift nr) 8); try lia.
      by rewrite andb_false_r.
    + destruct (Z.ltb_spec (j - byte_shift nr) 8); [lia|]. rewrite andb_false_r, andb_true_r.
      assert (Z.testbit b (j - byte_shift nr) = false) as ->; [|by rewrite orb_false_r].
      destruct (Z.testbit b (j - byte_shift nr)) eqn:E; [|done].
      apply (testbit_bound 8) in E; [lia|lia|done].
  - rewrite !Z.shiftl_spec_low by lia. by rewrite andb_true_r, orb_false_r.
Qed.

(** A byte operation that acts bit by bit changes the bit [nr] only. *)
Lemma byte_op_bits (f : Z → Z → Z) (g : bool → bool → bool) w nr j :
  0 ≤ nr → 0 ≤ j → (∀ b, g b false = b) →
  in_u 8 (f (get_byte w nr) (CONST_MASK nr)) →
  (∀ i, 0 ≤ i < 8 → Z.testbit (f (get_byte w nr) (CONST_MASK nr)) i =
             g (Z.testbit (get_byte w nr) i) (Z.testbit (CONST_MASK nr) i)) →
  Z.testbit (put_byte w nr (f (get_byte w nr) (CONST_MASK nr))) j =
    g (Z.testbit w j) (j =? nr mod 64).
Proof.
  intros Hn Hj Hg Hr Hf. destruct (mask_shift nr Hn) as (E & H7 & Hs).
  rewrite testbit_put_byte by done.
  destruct (Z.leb_spec (byte_shift nr) j), (Z.ltb_spec j (byte_shift nr + 8)); simpl.
  2-4: destruct (Z.eqb_spec j (nr mod 64)); [lia|by rewrite Hg].
  rewrite Hf, testbit_byte, testbit_CONST_MASK by lia.
  destruct (Z.ltb_spec (j - byte_shift nr) 8); [|lia]. simpl.
  replace (j - byte_shift nr + byte_shift nr) with j by lia. f_equal.
  destruct (Z.eqb_spec (j - byte_shift nr) (nr .& 7)), (Z.eqb_spec j (nr mod 64)); done || lia.
Qed.

Lemma get_byte_u8 w nr : in_u 8 (get_byte w nr).
Proof. by apply wrap_range. Qed.

Lemma CONST_MASK_u8 nr : 0 ≤ nr → in_u 8 (CONST_MASK nr).
Proof.
  intros Hn. destruct (mask_shift nr Hn) as (_ & H7 & _). unfold CONST_MASK.
  rewrite Z.shiftl_1_l. split; [lia|]. apply Z.pow_lt_mono_r; lia.
Qed.

Lemma land_u8 x y : in_u 8 x → in_u 8 (x .& y).
Proof.
  intros Hx. apply in_u_bits; [lia|apply Z.land_nonneg; left; apply Hx|]. intros i Hi.
  rewrite Z.land_spec. destruct (Z.testbit x i) eqn:E; [|done].
  apply (testbit_bound 8) in E; [lia|lia|done].
Qed.

Lemma lor_lxor_u8 (f : Z → Z → Z) (g : bool → bool → bool) x y :
  (∀ i, 0 ≤ i → Z.testbit (f x y) i = g (Z.testbit x i) (Z.testbit y i)) → g false false = false →
  0 ≤ f x y → in_u 8 x → in_u 8 y → in_u 8 (f x y).
Proof.
  intros Hf Hg H0 Hx Hy. apply in_u_bits; [lia|done|]. intros i Hi. rewrite Hf by lia.
  destruct (Z.testbit x i) eqn:Ex; [apply (testbit_bound 8) in Ex; [lia|lia|done]|].
  destruct (Z.testbit y i) eqn:Ey; [apply (testbit_bound 8) in Ey; [lia|lia|done]|]. done.
Qed.

(** The word a byte operation leaves is the one the bit instruction leaves. *)
Lemma byte_op_update (f : Z → Z → Z) (g : bool → bool → bool) (h : Z → Z → Z) nr ws :
  (∀ b, g b false = b) →
  (∀ w, 0 ≤ nr → in_u 8 (f (get_byte w nr) (CONST_MASK nr))) →
  (∀ w i, 0 ≤ nr → 0 ≤ i < 8 → Z.testbit (f (get_byte w nr) (CONST_MASK nr)) i =
             g (Z.testbit (get_byte w nr) i) (Z.testbit (CONST_MASK nr) i)) →
  (∀ w j i, 0 ≤ i → 0 ≤ j → Z.testbit (h w i) j = g (Z.testbit w j) (j =? i)) →
  byte_op f nr ws = snd <$> update_bit h nr ws.
Proof.
  intros Hg Hr Hf Hh. unfold byte_op, update_bit. destruct (Z.ltb_spec nr 0); [done|].
  destruct (ws !! word_of nr) as [w|]; [|done]. simpl. f_equal. f_equal.
  apply Z.bits_inj'. intros j Hj. pose proof (Z.mod_pos_bound nr 64).
  rewrite (byte_op_bits f g), Hh by (auto || lia). done.
Qed.

(** The forms of set_bit, clear_bit, change_bit and test_bit for constant bit numbers
    (byte operations with a mask, and C for test_bit) have the effect of the bit instructions the
    other forms use, on every bitmap and for every bit number. *)
Theorem bitops_forms_agree nr ws :
  set_bit true nr ws = set_bit false nr ws ∧
  clear_bit true nr ws = clear_bit false nr ws ∧
  change_bit true nr ws = change_bit false nr ws ∧
  constant_test_bit nr ws = test_bit nr ws.
Proof.
  split_and!.
  - apply (byte_op_update Z.lor orb); [apply orb_false_r|..].
    + intros w Hn. apply (lor_lxor_u8 Z.lor orb); [intros; apply Z.lor_spec|done| |apply get_byte_u8|by apply CONST_MASK_u8].
      apply Z.lor_nonneg. split; [apply get_byte_u8|by apply CONST_MASK_u8].
    + intros. apply Z.lor_spec.
    + intros w j i Hi Hj. rewrite Z.setbit_eqb, orb_comm, Z.eqb_sym by done. done.
  - apply (byte_op_update _ (λ a b, a && negb b)); [intros []; done|..].
    + intros w Hn. apply land_u8, get_byte_u8.
    + intros w i Hn Hi. rewrite Z.land_spec. unfold u8, wrap.
      by rewrite Z.mod_pow2_bits_low, Z.lnot_spec by lia.
    + intros w j i Hi Hj. rewrite Z.clearbit_eqb, Z.eqb_sym. done.
  - apply (byte_op_update Z.lxor xorb); [apply xorb_false_r|..].
    + intros w Hn. apply (lor_lxor_u8 Z.lxor xorb); [intros; apply Z.lxor_spec|done| |apply get_byte_u8|by apply CONST_MASK_u8].
      apply Z.lxor_nonneg. pose proof (get_byte_u8 w nr) as [? _]. pose proof (CONST_MASK_u8 nr Hn) as [? _]. tauto.
    + intros. apply Z.lxor_spec.
    + intros w j i Hi Hj. by rewrite Z.lxor_spec, Z.pow2_bits_eqb, Z.eqb_sym.
  - unfold constant_test_bit, test_bit. destruct (Z.ltb_spec nr 0); [done|].
    rewrite Z.shiftr_div_pow2 by lia. change (Z.to_nat (nr / 2 ^ 6)) with (word_of nr). destruct (ws !! word_of nr) as [w|]; [|done].
    change 63 with (2 ^ 6 - 1). rewrite land_mask, Z.shiftl_1_l by lia. change (2 ^ 6) with 64.
    f_equal. pose proof (Z.mod_pos_bound nr 64). rewrite Z.land_comm.
    destruct (Z.testbit w (nr mod 64)) eqn:E; destruct (Z.eqb_spec (w .& 2 ^ (nr mod 64)) 0) as [E0|E0]; try done.
    + apply (f_equal (λ x, Z.testbit x (nr mod 64))) in E0.
      rewrite Z.land_spec, E, Z.pow2_bits_true, Z.bits_0 in E0 by lia. done.
    + destruct E0. apply Z.bits_inj'. intros j Hj. rewrite Z.land_spec, Z.pow2_bits_eqb, Z.bits_0 by lia.
      destruct (Z.eqb_spec (nr mod 64) j) as [<-|]; [by rewrite E|apply andb_false_r].
Qed.
