(* ===== verification/Phymem.v ===== *)
(** * Physical pages (arch/x86_64/phymem.c)

    The free 2 MiB pages of physical memory are a bitmap of 64-bit words with
    a scan position and a count.  The file models the functions of
    phymem.c and proves that the bitmap implements the interface of Pages.v. *)

From stdpp Require Import base gmap list numbers option.
From Stdlib Require Import Lia ZArith.
From S2P Require Import Prelude Bitops Pages.

#[local] Open Scope Z_scope.
#[local] Open Scope yaos_scope.

(** The static variables of phymem.c. [pnow] and [pmax] are pointers into
    [pgbits], given by their index; [max_phy_addr] is __max_phy_addr. *)
Record phymem := mk_phymem {
  max_phy_addr : Z;
  pgbits : list Z;
  pmax : nat;
  pnow : nat;
  nowbit : Z;
  maxbits : Z;
  pages : Z
}.

Definition set_pgbits (l : list Z) (s : phymem) : phymem :=
  mk_phymem (max_phy_addr s) l (pmax s) (pnow s) (nowbit s) (maxbits s) (pages s).
Definition set_pnow (n : nat) (s : phymem) : phymem :=
  mk_phymem (max_phy_addr s) (pgbits s) (pmax s) n (nowbit s) (maxbits s) (pages s).
Definition set_pages (n : Z) (s : phymem) : phymem :=
  mk_phymem (max_phy_addr s) (pgbits s) (pmax s) (pnow s) (nowbit s) (maxbits s) n.

(** [*p] for a pointer into the bitmap. *)
Definition read_word (p : nat) : M phymem Z := λ s,
  match pgbits s !! p with Some w => Ret w s | None => Faulted end.

(** The atomic bit operations on the bitmap. *)
Definition bitmap_op (op : list Z → option (bool * list Z)) : M phymem bool := λ s,
  match op (pgbits s) with
  | Some (old, l) => Ret old (set_pgbits l s)
  | None => Faulted
  end.

(** [while (++pnow < limit) if ( *pnow) return pnow;] *)
Fixpoint scan (fuel : nat) (limit : nat) : M phymem (option nat) :=
  match fuel with
  | O => out_of_fuel
  | S fuel =>
      n ← gets (λ s, S (pnow s));
      modify (set_pnow n) ;;
      if decide (n < limit)%nat then
        w ← read_word n;
        if w =? 0 then scan fuel limit else mret (Some n)
      else mret None
  end.

Definition get_none_zero : M phymem (option nat) :=
  pos ← gets pnow;
  w ← read_word pos;
  if negb (w =? 0) then mret (Some pos) else
  fuel ← gets (λ s, S (length (pgbits s)));
  limit ← gets pmax;
  r ← scan fuel limit;
  match r with
  | Some n => mret (Some n)
  | None =>
      modify (set_pnow 0) ;;
      w ← read_word 0;
      if negb (w =? 0) then mret (Some 0%nat) else scan fuel pos
  end.

(** Each round of the [while (pages)] loop takes one unit of [fuel]. *)
Fixpoint alloc_phy_page (fuel : nat) : M phymem Z :=
  match fuel with
  | O => out_of_fuel
  | S fuel =>
      n ← gets pages;
      if n =? 0 then mret 0 else
      p ← get_none_zero;
      match p with
      | None => mret 0
      | Some p =>
          w ← read_word p;
          let pos := ffs w in
          if pos <=? 0 then alloc_phy_page fuel else
          let pos := pos - 1 in
          old ← bitmap_op (test_and_clear_bit (pos + Z.of_nat p * 64));
          if old : bool then
            n ← gets pages;
            modify (set_pages (u64 (n - 1))) ;;
            mret (u64 (PAGE_SIZE * (pos + Z.of_nat p * 64)))
          else alloc_phy_page fuel
      end
  end.

Definition free_phy_one_page (addr : Z) : M phymem unit :=
  if addr =? 0 then mret tt else
  max ← gets max_phy_addr;
  ASSERT ((addr .& (PAGE_SIZE - 1) =? 0) && (addr <? max)) ;;
  old ← bitmap_op (test_and_set_bit (addr / PAGE_SIZE));
  if old : bool then mret tt
  else n ← gets pages; modify (set_pages (u64 (n + 1))).

(** The loop of free_phy_pages, one round per page of [size]. *)
Fixpoint free_pages_loop (fuel : nat) (pos size : Z) : M phymem unit :=
  if size <=? 0 then mret tt else
  match fuel with
  | O => out_of_fuel
  | S fuel =>
      old ← bitmap_op (test_and_set_bit pos);
      (if old : bool then mret tt
       else n ← gets pages; modify (set_pages (u64 (n + 1)))) ;;
      free_pages_loop fuel (u64 (pos + 1)) (u64 (size - PAGE_SIZE))
  end.

Definition free_phy_pages (addr size : Z) : M phymem unit :=
  if addr =? 0 then mret tt else
  max ← gets max_phy_addr;
  ASSERT ((addr .& (PAGE_SIZE - 1) =? 0) && (addr <? max)) ;;
  ASSERT (size .& (PAGE_SIZE - 1) =? 0) ;;
  free_pages_loop (Z.to_nat (size / PAGE_SIZE)) (addr / PAGE_SIZE) size.

(** init_phy_mem: [buf] is whether kalloc gave memory; the words of the bitmap
    are those that fit in its [bits / 8 + 8] bytes. *)
Definition init_phy_mem (buf : bool) : M phymem unit :=
  max ← gets max_phy_addr;
  let bits := max / PAGE_SIZE in
  let size := bits / 8 + 8 in
  if buf then
    modify (λ s, mk_phymem (max_phy_addr s) (replicate (Z.to_nat (size / 8)) 0)
                   (Z.to_nat (bits / 64)) 0 0 bits 0)
  else fault.

(** ** The invariant *)

(** Page [i] is free. *)
Definition free_page (s : phymem) (i : Z) : Prop := bit_at (pgbits s) i = true.

Definition nbits (s : phymem) : nat := (64 * length (pgbits s))%nat.

Record phymem_ok (s : phymem) : Prop := {
  ok_words : Forall (in_u 64) (pgbits s);
  ok_len : length (pgbits s) = S (pmax s);
  ok_max : Z.of_nat (pmax s) = max_phy_addr s / PAGE_SIZE / 64;
  ok_addr : 0 ≤ max_phy_addr s ≤ 2 ^ 52;
  ok_now : (pnow s < length (pgbits s))%nat;
  ok_pages : pages s = Z.of_nat (count (bit_at (pgbits s)) (nbits s));
  ok_zero : ¬ free_page s 0;
  ok_below : ∀ i, free_page s i → PAGE_SIZE * i < max_phy_addr s
}.

Lemma nbits_set s n ws :
  length ws = length (pgbits s) → nbits (set_pages n (set_pgbits ws s)) = nbits s.
Proof. intros H. unfold nbits. cbn [pgbits set_pages set_pgbits]. by rewrite H. Qed.

Lemma ok_nbits s : phymem_ok s → PAGE_SIZE * Z.of_nat (nbits s) ≤ 2 ^ 64.
Proof.
  intros Hok. unfold nbits. rewrite (ok_len _ Hok).
  destruct (ok_addr _ Hok) as [H0 H1]. pose proof (ok_max _ Hok) as Hm. unfold PAGE_SIZE in *.
  assert (max_phy_addr s / 0x200000 < 2 ^ 43) by (apply Z.div_lt_upper_bound; lia).
  assert (max_phy_addr s / 0x200000 / 64 < 2 ^ 37) by (apply Z.div_lt_upper_bound; lia).
  rewrite pow64. change (2 ^ 37) with 137438953472 in *. lia.
Qed.

(** The pages below the top of memory have a bit. *)
Lemma page_has_bit s i :
  phymem_ok s → 0 ≤ i → PAGE_SIZE * i < max_phy_addr s → i < Z.of_nat (nbits s).
Proof.
  intros Hok Hi Ha. unfold nbits. rewrite (ok_len _ Hok). pose proof (ok_max _ Hok) as Hm.
  assert (i ≤ max_phy_addr s / PAGE_SIZE).
  { apply Z.div_le_lower_bound; [by unfold PAGE_SIZE|lia]. }
  pose proof (Z.div_mod (max_phy_addr s / PAGE_SIZE) 64).
  pose proof (Z.mod_pos_bound (max_phy_addr s / PAGE_SIZE) 64). lia.
Qed.

Lemma ok_set_pnow s n :
  phymem_ok s → (n < length (pgbits s))%nat → phymem_ok (set_pnow n s).
Proof. intros [] Hn. split; done. Qed.

(** ** The scan *)

Lemma scan_spec fuel limit s :
  (limit ≤ length (pgbits s))%nat → (limit - pnow s < fuel)%nat →
  (∃ i w, scan fuel limit s = Ret (Some i) (set_pnow i s) ∧ (i < limit)%nat ∧
     pgbits s !! i = Some w ∧ w ≠ 0) ∨
  (scan fuel limit s = Ret None (set_pnow (Nat.max (S (pnow s)) limit) s) ∧
   ∀ j, (pnow s < j < limit)%nat → pgbits s !! j = Some 0).
Proof.
  revert s. induction fuel as [|fuel IH]; intros s Hl Hf; [lia|].
  simpl. erewrite bind_ret by reflexivity. erewrite bind_ret by reflexivity.
  case_decide as Hlt.
  - destruct (lookup_lt_is_Some_2 (pgbits s) (S (pnow s))) as [w Hw]; [lia|].
    erewrite bind_ret by (unfold read_word; simpl; rewrite Hw; reflexivity).
    destruct (Z.eqb_spec w 0) as [->|].
    + destruct (IH (set_pnow (S (pnow s)) s)) as [(i & w & Hr & Hi)|[Hr Hz]];
        [done|simpl; lia| |].
      * left. exists i, w. done.
      * right. split; [rewrite Hr; simpl; unfold set_pnow; simpl; f_equal; f_equal; lia|].
        intros j Hj. destruct (decide (j = S (pnow s))) as [->|]; [done|]. apply Hz. simpl. lia.
    + left. exists (S (pnow s)), w. done.
  - right. split; [|lia]. unfold mret, M_ret. f_equal. f_equal. lia.
Qed.

Lemma get_none_zero_spec s :
  phymem_ok s →
  (∃ i w, get_none_zero s = Ret (Some i) (set_pnow i s) ∧ pgbits s !! i = Some w ∧ w ≠ 0) ∨
  (∃ n, get_none_zero s = Ret None (set_pnow n s) ∧ n = Nat.max 1 (pnow s) ∧
     pgbits s !! pnow s = Some 0 ∧
     ∀ j, (j < pmax s)%nat → pgbits s !! j = Some 0).
Proof.
  intros Hok. pose proof (ok_len _ Hok) as Hlen. unfold get_none_zero.
  erewrite bind_ret by reflexivity.
  destruct (lookup_lt_is_Some_2 (pgbits s) (pnow s)) as [w Hw]; [apply Hok|].
  erewrite bind_ret by (unfold read_word; rewrite Hw; reflexivity).
  destruct (Z.eqb_spec w 0) as [->|]; simpl.
  2:{ left. exists (pnow s), w. split; [by destruct s|done]. }
  do 2 erewrite bind_ret by reflexivity.
  destruct (scan_spec (S (length (pgbits s))) (pmax s) s)
    as [(i & w & Hr & Hi & Hiw)|[Hr Hz]]; [lia..| |]; rewrite (bind_ret _ _ _ _ _ Hr).
  { left. exists i, w. done. }
  erewrite bind_ret by reflexivity.
  destruct (lookup_lt_is_Some_2 (pgbits s) 0) as [w0 Hw0]; [lia|].
  erewrite bind_ret by (unfold read_word; simpl; rewrite Hw0; reflexivity).
  destruct (Z.eqb_spec w0 0) as [->|]; simpl.
  2:{ left. exists 0%nat, w0. done. }
  pose proof (ok_now _ Hok).
  destruct (scan_spec (S (length (pgbits s))) (pnow s) (set_pnow 0 s))
    as [(i & w & Hr2 & Hi & Hiw)|[Hr2 Hz2]]; [simpl; lia..| |];
    simpl in Hr2; unfold set_pnow in *; simpl in *.
  { left. exists i, w. done. }
  right. eexists. split; [exact Hr2|]. split_and!; [done..|].
  intros j Hj. destruct (decide (j = 0%nat)) as [->|]; [done|].
  destruct (decide (j = pnow s)) as [->|]; [done|].
  destruct (decide (j < pnow s)%nat); [apply Hz2|apply Hz]; lia.
Qed.

(** ** Taking and returning one page *)

Lemma clear_page s i :
  phymem_ok s → free_page s i →
  ∃ ws', test_and_clear_bit i (pgbits s) = Some (true, ws') ∧
    (∀ j, bit_at ws' j = if decide (j = i) then false else bit_at (pgbits s) j) ∧
    u64 (pages s - 1) = pages s - 1 ∧
    phymem_ok (set_pages (pages s - 1) (set_pgbits ws' s)).
Proof.
  intros Hok Hi. pose proof (bit_at_range _ _ Hi) as Hr.
  destruct (update_bit_in_range Z.clearbit i (pgbits s) Hr) as (old & ws' & E).
  destruct (test_and_clear_bit_spec _ _ _ _ E) as (-> & Hl & Hb). rewrite Hi in E.
  exists ws'. split; [done|]. split; [done|].
  assert (count (bit_at (pgbits s)) (nbits s) = S (count (bit_at ws') (nbits s))) as Hc.
  { apply (count_flip _ _ _ i); [unfold nbits; lia|done|by rewrite Hb, decide_True|].
    intros j Hj. by rewrite Hb, decide_False. }
  pose proof (ok_pages _ Hok) as Hp. rewrite Hc in Hp.
  pose proof (ok_nbits _ Hok) as Hn.
  pose proof (count_le (bit_at (pgbits s)) (nbits s)) as Hcn.
  split; [apply u64_id; unfold in_u, PAGE_SIZE in *; lia|].
  destruct Hok. split; simpl; try done; try congruence.
  - eapply update_bit_words; [|exact E|done]. intros w. by apply clearbit_in_u.
  - rewrite nbits_set by done. lia.
  - unfold free_page in *. simpl. rewrite Hb. case_decide; [done|]. done.
  - unfold free_page in *. simpl. intros j. rewrite Hb. case_decide; [done|]. auto.
Qed.

Lemma set_page s i :
  phymem_ok s → 0 < i → PAGE_SIZE * i < max_phy_addr s →
  ∃ ws', test_and_set_bit i (pgbits s) = Some (bit_at (pgbits s) i, ws') ∧
    (∀ j, bit_at ws' j = if decide (j = i) then true else bit_at (pgbits s) j) ∧
    (bit_at (pgbits s) i = false → u64 (pages s + 1) = pages s + 1) ∧
    phymem_ok (set_pages (if bit_at (pgbits s) i then pages s else pages s + 1)
                 (set_pgbits ws' s)).
Proof.
  intros Hok Hi Hmax. assert (0 < i < Z.of_nat (nbits s)) as Hin.
  { split; [done|]. apply page_has_bit; done || lia. }
  unfold nbits in Hin. destruct (update_bit_in_range Z.setbit i (pgbits s)) as (old & ws' & E); [lia|].
  destruct (test_and_set_bit_spec _ _ _ _ E) as (-> & Hl & Hb).
  exists ws'. split; [done|]. split; [done|].
  assert (Z.of_nat (count (bit_at ws') (nbits s)) =
          if bit_at (pgbits s) i then pages s else pages s + 1) as Hc.
  { rewrite (ok_pages _ Hok). destruct (bit_at (pgbits s) i) eqn:Ei.
    - f_equal. apply count_ext. intros j _. rewrite Hb. case_decide; congruence.
    - rewrite (count_flip (bit_at ws') (bit_at (pgbits s)) (nbits s) i); [lia|unfold nbits; lia| |done|].
      + by rewrite Hb, decide_True.
      + intros j Hj. by rewrite Hb, decide_False. }
  pose proof (count_le (bit_at ws') (nbits s)) as Hcn.
  pose proof (ok_nbits _ Hok) as Hn.
  split.
  { intros Ei. rewrite Ei in Hc. apply u64_id. unfold in_u, PAGE_SIZE in *.
    pose proof (ok_pages _ Hok). lia. }
  destruct Hok. split; simpl; try done; try congruence.
  - eapply update_bit_words; [|exact E|done]. intros w. apply setbit_in_u.
    apply Z.mod_pos_bound. lia.
  - by rewrite nbits_set.
  - unfold free_page in *. simpl. rewrite Hb. rewrite decide_False by lia. done.
  - unfold free_page in *. simpl. intros j. rewrite Hb. case_decide; [by subst|]. auto.
Qed.

(** ** alloc_phy_page *)

(** Some word has free pages, all of them in its upper half. *)
Definition upper_only (s : phymem) : Prop :=
  ∃ p w, pgbits s !! p = Some w ∧ w ≠ 0 ∧ u32 w = 0.

Definition alloc_post (s : phymem) (r : outcome phymem Z) : Prop :=
  match r with
  | Ret a s' =>
      phymem_ok s' ∧ max_phy_addr s' = max_phy_addr s ∧
      ((a = 0 ∧ (∀ j, free_page s' j ↔ free_page s j) ∧ pages s' = pages s ∧
        ∀ j, j < 64 * Z.of_nat (pmax s) → ¬ free_page s j) ∨
       (∃ i, a = PAGE_SIZE * i ∧ 0 < i ∧ in_u 64 a ∧ free_page s i ∧
        (∀ j, free_page s' j ↔ free_page s j ∧ j ≠ i) ∧ pages s' = pages s - 1))
  | NoFuel => upper_only s
  | _ => False
  end.

Lemma word_zero_bits s p j :
  pgbits s !! p = Some 0 → Z.of_nat p * 64 ≤ j < Z.of_nat p * 64 + 64 → ¬ free_page s j.
Proof.
  intros Hp Hj. unfold free_page.
  replace j with (j - Z.of_nat p * 64 + Z.of_nat p * 64) by lia.
  rewrite (bit_at_word _ _ 0) by (done || lia). by rewrite Z.bits_0.
Qed.

Lemma zero_prefix s n :
  (∀ p, (p < n)%nat → pgbits s !! p = Some 0) →
  ∀ j, j < 64 * Z.of_nat n → ¬ free_page s j.
Proof.
  intros Hz j Hj Hf. pose proof (bit_at_range _ _ Hf).
  apply (word_zero_bits s (Z.to_nat (j / 64)) j); [|pose proof (Z.div_mod j 64);
    pose proof (Z.mod_pos_bound j 64); pose proof (Z.div_pos j 64); lia|done].
  apply Hz. assert (j / 64 < Z.of_nat n) by (apply Z.div_lt_upper_bound; lia).
  pose proof (Z.div_pos j 64). lia.
Qed.

Lemma no_pages s : phymem_ok s → pages s = 0 → ∀ j, ¬ free_page s j.
Proof.
  intros Hok H0 j Hf. pose proof (bit_at_range _ _ Hf). rewrite (ok_pages _ Hok) in H0.
  assert (bit_at (pgbits s) j = false); [|by unfold free_page in Hf; congruence].
  apply (count_zero _ (nbits s)); [lia|unfold nbits; lia].
Qed.

(** One round of the loop. *)
Lemma alloc_round fuel s :
  phymem_ok s → pages s ≠ 0 →
  (∃ a s', alloc_phy_page (S fuel) s = Ret a s' ∧ alloc_post s (Ret a s')) ∨
  (∃ p w, pgbits s !! p = Some w ∧ w ≠ 0 ∧ u32 w = 0 ∧
     alloc_phy_page (S fuel) s = alloc_phy_page fuel (set_pnow p s)).
Proof.
  intros Hok Hn. cbn [alloc_phy_page]. erewrite bind_ret by reflexivity.
  destruct (Z.eqb_spec (pages s) 0); [done|].
  destruct (get_none_zero_spec s Hok) as [(p & w & Hg & Hp & Hw)|(m & Hg & Hm & Hp & Hz)];
    rewrite (bind_ret _ _ _ _ _ Hg).
  - erewrite bind_ret by (unfold read_word; simpl; rewrite Hp; reflexivity). cbv zeta.
    destruct (ffs_spec w) as [[-> Hu]|(Hf & Hb & _)]; [right; by exists p, w|left].
    destruct (Z.leb_spec (ffs w) 0); [lia|].
    set (i := ffs w - 1 + Z.of_nat p * 64).
    assert (free_page (set_pnow p s) i) as Hi.
    { unfold free_page, i. simpl. by rewrite (bit_at_word _ _ w) by (done || lia). }
    assert (phymem_ok (set_pnow p s)) as Hok'.
    { apply ok_set_pnow; [done|]. by apply lookup_lt_Some in Hp. }
    destruct (clear_page _ _ Hok' Hi) as (ws' & E & Hbits & Hu & Hok2).
    erewrite bind_ret by (unfold bitmap_op; rewrite E; reflexivity).
    cbv iota. do 2 erewrite bind_ret by reflexivity. eexists _, _. split; [reflexivity|].
    cbn [alloc_post pages set_pgbits set_pnow]. unfold set_pages in Hok2 |- *. cbn in Hu, Hok2 |- *.
    rewrite Hu. split; [done|]. split; [done|]. right. exists i. pose proof (bit_at_range _ _ Hi) as Hr.
    assert (i ≠ 0) by (intros E0; apply (ok_zero _ Hok'); by rewrite <- E0).
    assert (in_u 64 (PAGE_SIZE * i)) as Hin.
    { pose proof (ok_nbits _ Hok). unfold in_u, nbits, PAGE_SIZE in *. simpl in Hr. lia. }
    split_and!; [by apply u64_id|lia|by rewrite u64_id|done| |done].
    intros j. unfold free_page. simpl. rewrite Hbits. simpl. case_decide; naive_solver.
  - left. eexists _, _. split; [reflexivity|].
    assert (1 < length (pgbits s))%nat as Hlen.
    { destruct (decide (1 < length (pgbits s))%nat) as [|Hl]; [done|]. destruct Hn.
      rewrite (ok_pages _ Hok), count_false; [done|]. intros j Hj.
      pose proof (ok_len _ Hok). pose proof (ok_now _ Hok).
      apply not_true_is_false. apply (zero_prefix s 1); [|unfold nbits in Hj; lia].
      intros q Hq. replace q with (pnow s) by lia. done. }
    split; [apply ok_set_pnow; [done|]; pose proof (ok_now _ Hok); lia|].
    split; [done|]. left. split_and!; [done..|]. by apply zero_prefix.
Qed.

Lemma alloc_post_pnow s n r : alloc_post (set_pnow n s) r → alloc_post s r.
Proof. by destruct r. Qed.

Lemma alloc_none fuel s :
  phymem_ok s → pages s = 0 → alloc_post s (alloc_phy_page (S fuel) s).
Proof.
  intros Hok H0. cbn [alloc_phy_page]. erewrite bind_ret by reflexivity. rewrite H0. simpl.
  split; [done|]. split; [done|]. left. split_and!; try done. intros. by apply no_pages.
Qed.

(** alloc_phy_page never faults: it returns 0 when no word it scans has a free
    page, or it takes one free page, leaves the others alone and counts it;
    a bound on its rounds is reached only when some word has its free pages
    all in the upper half. *)
Lemma alloc_phy_page_post fuel s :
  phymem_ok s → alloc_post s (alloc_phy_page (S fuel) s).
Proof.
  revert s. induction fuel as [|fuel IH]; intros s Hok;
    (destruct (decide (pages s = 0)) as [H0|Hn]; [by apply alloc_none|]).
  - destruct (alloc_round 0 s Hok Hn) as [(a & s' & -> & H)|(p & w & Hp & Hw & Hu & ->)]; [done|].
    by exists p, w.
  - destruct (alloc_round (S fuel) s Hok Hn)
      as [(a & s' & -> & H)|(p & w & Hp & Hw & Hu & ->)]; [done|].
    apply (alloc_post_pnow _ p). apply IH. apply ok_set_pnow; [done|].
    by apply lookup_lt_Some in Hp.
Qed.

(** C21. alloc_phy_page: when no word has its free pages only in its
    upper half, one round of its loop is enough and it returns.  It returns 0,
    with the pages as they were, only when no word below [pmax] has a free
    page; else it returns the address of a free page other than page 0, which
    it takes out of the free set and out of the count. *)
Theorem alloc_phy_page_correct fuel s :
  phymem_ok s → ¬ upper_only s →
  ∃ a s', alloc_phy_page (S fuel) s = Ret a s' ∧ phymem_ok s' ∧
    max_phy_addr s' = max_phy_addr s ∧
    ((a = 0 ∧ (∀ j, free_page s' j ↔ free_page s j) ∧ pages s' = pages s ∧
      ∀ j, j < 64 * Z.of_nat (pmax s) → ¬ free_page s j) ∨
     (∃ i, a = PAGE_SIZE * i ∧ 0 < i ∧ in_u 64 a ∧ free_page s i ∧
      (∀ j, free_page s' j ↔ free_page s j ∧ j ≠ i) ∧ pages s' = pages s - 1)).
Proof.
  intros Hok Hu. pose proof (alloc_phy_page_post fuel s Hok) as H.
  destruct (alloc_phy_page (S fuel) s) as [a s'| | | | |]; try done. by exists a, s'.
Qed.

Lemma get_none_zero_here s w :
  pgbits s !! pnow s = Some w → w ≠ 0 → get_none_zero s = Ret (Some (pnow s)) s.
Proof.
  intros Hp Hw. unfold get_none_zero. erewrite bind_ret by reflexivity.
  erewrite bind_ret by (unfold read_word; rewrite Hp; reflexivity).
  by destruct (Z.eqb_spec w 0).
Qed.

(** C37. When the scan stands on such a word the loop makes no progress, for any
    number of rounds. *)
Theorem alloc_phy_page_stuck s w :
  pages s ≠ 0 → pgbits s !! pnow s = Some w → w ≠ 0 → u32 w = 0 →
  ∀ fuel, alloc_phy_page fuel s = NoFuel.
Proof.
  intros Hn Hp Hw Hu fuel. induction fuel as [|fuel IH]; [done|].
  cbn [alloc_phy_page]. erewrite bind_ret by reflexivity.
  destruct (Z.eqb_spec (pages s) 0); [done|].
  rewrite (bind_ret _ _ _ _ _ (get_none_zero_here _ _ Hp Hw)).
  erewrite bind_ret by (unfold read_word; rewrite Hp; reflexivity). cbv zeta.
  assert (ffs w = 0) as -> by (unfold ffs; by rewrite Hu). done.
Qed.

(** ** Giving pages back *)

Lemma page_index a max :
  0 < a < max → aligned PAGE_SIZE a → 0 < a / PAGE_SIZE ∧ PAGE_SIZE * (a / PAGE_SIZE) = a.
Proof. unfold aligned, PAGE_SIZE. intros Ha Hal. pose proof (Z.div_mod a 0x200000). lia. Qed.

(** The state after page [i] is marked free. *)
Definition freed (s : phymem) (i : Z) (s' : phymem) : Prop :=
  phymem_ok s' ∧ max_phy_addr s' = max_phy_addr s ∧ nbits s' = nbits s ∧
  (∀ j, free_page s' j ↔ free_page s j ∨ j = i) ∧
  pages s' = if bit_at (pgbits s) i then pages s else pages s + 1.

(** The statement free_phy_one_page and free_phy_pages share:
    [if (!test_and_set_bit (pos, pgbits)) pages++;] *)
Lemma mark_free {A} (k : M phymem A) s i :
  phymem_ok s → 0 < i → PAGE_SIZE * i < max_phy_addr s →
  ∃ s', freed s i s' ∧
    (old ← bitmap_op (test_and_set_bit i);
     (if old : bool then mret tt
      else n ← gets pages; modify (set_pages (u64 (n + 1)))) ;; k) s = k s'.
Proof.
  intros Hok Hi Hm. destruct (set_page s i Hok Hi Hm) as (ws' & E & Hb & Hu & Hok').
  exists (set_pages (if bit_at (pgbits s) i then pages s else pages s + 1) (set_pgbits ws' s)).
  split.
  - split_and!; try done.
    + apply nbits_set. by apply test_and_set_bit_spec in E as (_ & ? & _).
    + intros j. unfold free_page. simpl. rewrite Hb. case_decide; naive_solver.
  - erewrite bind_ret by (unfold bitmap_op; rewrite E; reflexivity).
    destruct (bit_at (pgbits s) i) eqn:Ei; erewrite bind_ret by reflexivity; [by destruct s|].
    simpl. by rewrite Hu.
Qed.

Lemma assert_page a max (s : phymem) :
  ASSERT ((a .& (PAGE_SIZE - 1) =? 0) && (a <? max)) s =
  if decide (aligned PAGE_SIZE a ∧ a < max) then Ret tt s else AssertFailed.
Proof.
  unfold ASSERT, aligned. change PAGE_SIZE with (2 ^ 21). rewrite land_mask by lia.
  case_decide as H; zcase; zcase; simpl; try done; lia.
Qed.

Lemma free_one_run s a :
  phymem_ok s → 0 < a < max_phy_addr s → aligned PAGE_SIZE a →
  ∃ s', free_phy_one_page a s = Ret tt s' ∧ freed s (a / PAGE_SIZE) s'.
Proof.
  intros Hok Ha Hal. destruct (page_index a (max_phy_addr s)) as [Hi Hr]; [done..|].
  destruct (mark_free (mret tt) s (a / PAGE_SIZE)) as (s' & Hf & E); [done|done|lia|].
  exists s'. split; [|done]. unfold free_phy_one_page. destruct (Z.eqb_spec a 0); [lia|].
  erewrite bind_ret by reflexivity.
  erewrite bind_ret by (rewrite assert_page, decide_True by (split; [done|lia]); reflexivity).
  etransitivity; [|exact E]. unfold mbind, M_bind, bitmap_op.
  destruct (test_and_set_bit _ _) as [[[] ?]|]; done.
Qed.

(** free_phy_one_page: address 0 is ignored; an address that is not the start
    of a page, or not below the top of memory, is an assertion failure; else the page
    becomes free, the others keep their state, and the count grows by one
    unless the page was free already. *)
Theorem free_phy_one_page_correct s a :
  phymem_ok s → in_u 64 a →
  match free_phy_one_page a s with
  | Ret _ s' =>
      (a = 0 ∧ s' = s) ∨
      (0 < a < max_phy_addr s ∧ aligned PAGE_SIZE a ∧ freed s (a / PAGE_SIZE) s')
  | AssertFailed => a ≠ 0 ∧ ¬ (aligned PAGE_SIZE a ∧ a < max_phy_addr s)
  | _ => False
  end.
Proof.
  intros Hok Ha. unfold in_u in Ha. destruct (decide (a = 0)) as [->|Hn]; [by left|].
  destruct (decide (aligned PAGE_SIZE a ∧ a < max_phy_addr s)) as [[Hal Hm]|Hc].
  - destruct (free_one_run s a) as (s' & -> & Hf); [done|lia|done|]. right.
    split_and!; done || lia.
  - unfold free_phy_one_page. destruct (Z.eqb_spec a 0); [done|].
    erewrite bind_ret by reflexivity. unfold mbind, M_bind.
    by rewrite assert_page, decide_False.
Qed.

(** Pages [i], [i+1], ..., [i+n-1] are marked free. *)
Definition freed_run (s : phymem) (i : Z) (n : nat) (s' : phymem) : Prop :=
  phymem_ok s' ∧ max_phy_addr s' = max_phy_addr s ∧
  (∀ j, free_page s' j ↔ free_page s j ∨ i ≤ j < i + Z.of_nat n) ∧
  pages s ≤ pages s' ≤ pages s + Z.of_nat n.

Lemma free_pages_loop_spec n : ∀ s i,
  phymem_ok s → 0 < i → PAGE_SIZE * (i + Z.of_nat n) ≤ max_phy_addr s →
  ∃ s', free_pages_loop n i (PAGE_SIZE * Z.of_nat n) s = Ret tt s' ∧ freed_run s i n s'.
Proof.
  induction n as [|n IH]; intros s i Hok Hi Hm.
  - exists s. split; [done|]. split_and!; try done; [|lia..]. intros j. lia || (split; [by left|]).
    intros [?|?]; [done|lia].
  - pose proof (ok_addr _ Hok) as [_ Ha].
    cbn [free_pages_loop]. destruct (Z.leb_spec (PAGE_SIZE * Z.of_nat (S n)) 0);
      [unfold PAGE_SIZE in *; lia|].
    destruct (mark_free (free_pages_loop n (u64 (i + 1)) (u64 (PAGE_SIZE * Z.of_nat (S n) - PAGE_SIZE)))
                s i) as (s1 & (Hok1 & Hmax1 & Hnb1 & Hf1 & Hp1) & ->);
      [done|done|unfold PAGE_SIZE in *; lia|].
    assert (u64 (i + 1) = i + 1) as -> by (apply u64_id; unfold in_u, PAGE_SIZE in *; lia).
    assert (u64 (PAGE_SIZE * Z.of_nat (S n) - PAGE_SIZE) = PAGE_SIZE * Z.of_nat n) as ->.
    { rewrite u64_id; unfold in_u, PAGE_SIZE in *; lia. }
    destruct (IH s1 (i + 1)) as (s' & E & Hok' & Hmax' & Hf' & Hp');
      [done|lia|rewrite Hmax1; unfold PAGE_SIZE in *; lia|].
    exists s'. split; [done|]. split_and!; [done|congruence| |destruct (bit_at _ _); lia..].
    intros j. rewrite Hf', Hf1. split; [intros [[?|?]|?]; [by left|right; lia..]|].
    intros [?|?]; [by left; left|]. destruct (decide (j = i)); [by left; right|right; lia].
Qed.

(** free_phy_pages: a page-aligned run of pages below the top of memory is marked free
    in one call, the loop stopping after [size / PAGE_SIZE] rounds; no other
    page changes. *)
Theorem free_phy_pages_correct s a z :
  phymem_ok s → 0 < a → 0 ≤ z → aligned PAGE_SIZE a → aligned PAGE_SIZE z →
  a + z ≤ max_phy_addr s → a < max_phy_addr s →
  ∃ s', free_phy_pages a z s = Ret tt s' ∧
        freed_run s (a / PAGE_SIZE) (Z.to_nat (z / PAGE_SIZE)) s'.
Proof.
  intros Hok Ha Hz Hal Hzal Hm Hlt. unfold free_phy_pages.
  destruct (Z.eqb_spec a 0); [lia|]. erewrite bind_ret by reflexivity.
  erewrite bind_ret by (rewrite assert_page, decide_True by done; reflexivity).
  erewrite bind_ret.
  2:{ unfold ASSERT. change PAGE_SIZE with (2 ^ 21). rewrite land_mask by lia.
      unfold aligned in Hzal. change PAGE_SIZE with (2 ^ 21) in Hzal. by rewrite Hzal. }
  destruct (page_index a (max_phy_addr s)) as [Hi Hr]; [lia|done|].
  assert (PAGE_SIZE * (z / PAGE_SIZE) = z) as Hzr.
  { unfold aligned, PAGE_SIZE in *. pose proof (Z.div_mod z 0x200000). lia. }
  assert (0 ≤ z / PAGE_SIZE) by (apply Z.div_pos; [done|by unfold PAGE_SIZE]).
  destruct (free_pages_loop_spec (Z.to_nat (z / PAGE_SIZE)) s (a / PAGE_SIZE)) as (s' & E & Hf);
    [done|done|rewrite Z2Nat.id by done; lia|].
  rewrite Z2Nat.id, Hzr in E by done. by exists s'.
Qed.

(** init_phy_mem gives an empty bitmap that satisfies the invariant, for any
    amount of memory an x86-64 machine can have. *)
Theorem init_phy_mem_ok s :
  0 ≤ max_phy_addr s ≤ 2 ^ 52 →
  ∃ s', init_phy_mem true s = Ret tt s' ∧ phymem_ok s' ∧
        max_phy_addr s' = max_phy_addr s ∧ (∀ j, ¬ free_page s' j) ∧ pages s' = 0.
Proof.
  intros Hm. unfold init_phy_mem. erewrite bind_ret by reflexivity.
  eexists. split; [reflexivity|]. set (s' := mk_phymem _ _ _ _ _ _ _).
  assert (0 ≤ max_phy_addr s / PAGE_SIZE) as H0 by (apply Z.div_pos; [lia|done]).
  set (b := max_phy_addr s / PAGE_SIZE) in *.
  assert ((b / 8 + 8) / 8 = b / 64 + 1) as Eb.
  { change (b / 8 + 8) with (b / 8 + 1 * 8). rewrite Z.div_add by lia.
    rewrite Z.div_div by lia. done. }
  assert (0 ≤ b / 64) by (apply Z.div_pos; lia).
  assert (∀ j, ¬ free_page s' j) as Hno.
  { intros j Hj. pose proof (bit_at_range _ _ Hj). revert Hj.
    apply (zero_prefix s' (length (pgbits s'))); [|lia]. intros p Hp. simpl in Hp |- *.
    rewrite length_replicate in Hp. by apply lookup_replicate_2. }
  split_and!; try done. split; simpl.
  - apply Forall_replicate. done.
  - rewrite length_replicate. lia.
  - rewrite Z2Nat.id; done.
  - done.
  - rewrite length_replicate. lia.
  - symmetry. rewrite count_false; [done|]. intros i _. apply not_true_is_false, Hno.
  - apply Hno.
  - intros i Hi. by apply Hno in Hi.
Qed.

(** A page alloc_phy_page gave out can be given back: the free pages and the count
    are then what they were. *)
Theorem alloc_free_roundtrip fuel s a s1 :
  phymem_ok s → alloc_phy_page (S fuel) s = Ret a s1 → a ≠ 0 →
  ∃ s2, free_phy_one_page a s1 = Ret tt s2 ∧ phymem_ok s2 ∧
        (∀ j, free_page s2 j ↔ free_page s j) ∧ pages s2 = pages s.
Proof.
  intros Hok E Ha. pose proof (alloc_phy_page_post fuel s Hok) as H. rewrite E in H.
  destruct H as (Hok1 & Hm1 & [(-> & _)|(i & -> & Hi & Hin & Hf & Hf1 & Hp1)]); [done|].
  pose proof (ok_below _ Hok _ Hf) as Hb.
  assert (PAGE_SIZE * i / PAGE_SIZE = i) as Ei by (rewrite Z.mul_comm; by apply Z.div_mul).
  destruct (free_one_run s1 (PAGE_SIZE * i)) as (s' & E' & Hok' & _ & _ & Hf' & Hp');
    [done|rewrite Hm1; unfold in_u, PAGE_SIZE in *; lia|rewrite Z.mul_comm; apply aligned_mul|].
  rewrite Ei in *. assert (¬ free_page s1 i) as Hnf by (rewrite Hf1; naive_solver).
  exists s'. split; [done|]. split; [done|]. split.
  - intros j. rewrite Hf', Hf1. destruct (decide (j = i)) as [->|]; naive_solver.
  - rewrite Hp'. unfold free_page in Hnf. destruct (bit_at _ _); [done|lia].
Qed.

(** ** The bitmap is a source of pages *)

(** No word has a free page in its upper half, in terms of the pages. *)
Lemma low_words s :
  Forall (in_u 64) (pgbits s) →
  Forall (in_u 32) (pgbits s) ↔ (∀ p b, 32 ≤ b < 64 → ¬ free_page s (b + Z.of_nat p * 64)).
Proof.
  intros Hw. rewrite Forall_lookup in Hw. rewrite Forall_lookup. unfold free_page. split.
  - intros H p b Hb Hf. pose proof (bit_at_range _ _ Hf).
    destruct (lookup_lt_is_Some_2 (pgbits s) p) as [w Hp]; [lia|].
    rewrite (bit_at_word _ _ w) in Hf by (done || lia).
    apply (testbit_bound 32) in Hf; [lia|lia|by eapply H].
  - intros H p w Hp. destruct (Hw _ _ Hp) as [H0 H1]. apply in_u_bits; [lia|done|].
    intros b Hb. destruct (Z.testbit w b) eqn:E; [|done].
    pose proof (testbit_bound 64 w b ltac:(lia) (conj H0 H1) E).
    destruct (H p b); [lia|]. by rewrite (bit_at_word _ _ w) by (done || lia).
Qed.

Lemma low_not_upper s : Forall (in_u 32) (pgbits s) → ¬ upper_only s.
Proof.
  intros H (p & w & Hp & Hw & Hu). rewrite Forall_lookup in H.
  unfold u32 in Hu. rewrite wrap_id in Hu by (by eapply H). done.
Qed.

Definition phys_inv (s : phymem) : Prop := phymem_ok s ∧ Forall (in_u 32) (pgbits s).
Definition phys_free (s : phymem) (a : Z) : Prop :=
  aligned PAGE_SIZE a ∧ free_page s (a / PAGE_SIZE).

Lemma phys_free_page s a : phys_inv s → phys_free s a → page_addr a.
Proof.
  intros [Hok _] [Hal Hf]. pose proof (bit_at_range _ _ Hf). pose proof (ok_below _ Hok _ Hf).
  assert (PAGE_SIZE * (a / PAGE_SIZE) = a) as Ea.
  { unfold aligned, PAGE_SIZE in *. pose proof (Z.div_mod a 0x200000). lia. }
  pose proof (ok_addr _ Hok).
  split_and!; [|change (2 ^ 52) with (0x200000 * 2 ^ 31) in *; unfold PAGE_SIZE in *; lia|done].
  destruct (decide (a / PAGE_SIZE = 0)) as [E|]; [|unfold PAGE_SIZE in *; lia].
  destruct (ok_zero _ Hok). by rewrite <- E.
Qed.

Lemma phys_alloc_ok fuel s :
  phys_inv s → ∃ a s', alloc_phy_page (S fuel) s = Ret a s' ∧ phys_inv s' ∧
    ((a = 0 ∧ ∀ x, phys_free s' x ↔ phys_free s x) ∨
     (phys_free s a ∧ ∀ x, phys_free s' x ↔ phys_free s x ∧ x ≠ a)).
Proof.
  intros [Hok Hlow]. pose proof (alloc_phy_page_post fuel s Hok) as H.
  destruct (alloc_phy_page (S fuel) s) as [a s'| | | | |] eqn:E; try done;
    [|by apply low_not_upper in Hlow].
  exists a, s'. destruct H as (Hok' & _ & H). split; [done|]. split.
  { split; [done|]. apply low_words; [apply Hok'|]. intros p b Hb Hf.
    apply (proj1 (low_words s (ok_words _ Hok)) Hlow p b Hb).
    destruct H as [(_ & H & _)|(i & _ & _ & _ & _ & H & _)]; apply H in Hf; naive_solver. }
  destruct H as [(-> & H & _)|(i & -> & Hi & _ & Hf & H & _)].
  - left. split; [done|]. intros x. unfold phys_free. by rewrite H.
  - right. assert (PAGE_SIZE * i / PAGE_SIZE = i) as Ei by (rewrite Z.mul_comm; by apply Z.div_mul).
    assert (aligned PAGE_SIZE (PAGE_SIZE * i)) by (rewrite Z.mul_comm; apply aligned_mul).
    unfold phys_free. rewrite Ei. split; [done|]. intros x. rewrite H.
    assert (aligned PAGE_SIZE x → x / PAGE_SIZE = i ↔ x = PAGE_SIZE * i); [|naive_solver].
    intros Hx. unfold aligned, PAGE_SIZE in *. pose proof (Z.div_mod x 0x200000).
    split; [lia|intros ->; done].
Qed.

Definition phymem_source (fuel : nat) : PageSource phymem := {|
  pg_alloc := alloc_phy_page (S fuel);
  pg_inv := phys_inv;
  pg_free := phys_free;
  pg_free_page := phys_free_page;
  pg_alloc_ok := phys_alloc_ok fuel
|}.

(** ** Examples *)

(** A machine with 8 MiB whose pages 1 and 3 are free. *)
Definition sample_phys : phymem := mk_phymem 0x800000 [10] 0 0 0 4 2.

Lemma sample_phys_ok : phys_inv sample_phys.
Proof.
  assert (∀ i, bit_at [10] i = true → i = 1 ∨ i = 3) as Hbits.
  { intros i Hi. pose proof (bit_at_range _ _ Hi) as Hr. simpl in Hr.
    rewrite (bit_at_lookup _ _ 10) in Hi; [|lia|unfold word_of; rewrite Z.div_small by lia; done].
    rewrite Z.mod_small in Hi by lia.
    destruct (decide (i = 1)), (decide (i = 3)); auto.
    destruct (decide (i < 4)) as [|Hi4]; [assert (i = 0 ∨ i = 2) as [->| ->] by lia; done|].
    assert (Z.testbit 10 i = false) as E; [|congruence].
    apply Z.bits_above_log2; [lia|]. change (Z.log2 10) with 3. lia. }
  split; [split|].
  1,9: by repeat constructor.
  all: try reflexivity.
  - by split.
  - simpl. lia.
  - by intros ?.
  - intros i [-> | ->]%Hbits; reflexivity.
Qed.

Lemma alloc_phy_page_correct_witness :
  ∃ s', alloc_phy_page 1 sample_phys = Ret 0x200000 s' ∧ phymem_ok s' ∧
        free_page sample_phys 1 ∧ ¬ free_page s' 1 ∧ pages s' = 1.
Proof.
  destruct (alloc_phy_page_correct 0 sample_phys (proj1 sample_phys_ok)
              (low_not_upper _ (proj2 sample_phys_ok)))
    as (a & s' & E & Hok & _ & [(-> & _)|(i & -> & _ & _ & Hf & Hf' & Hp)]).
  - vm_compute in E. discriminate.
  - assert (PAGE_SIZE * i = 0x200000) as Ei.
    { apply (f_equal ret_val) in E. vm_compute in E |- *. congruence. }
    assert (i = 1) as -> by (unfold PAGE_SIZE in Ei; lia).
    exists s'. split_and!; [by rewrite E, Ei|done|done| |by rewrite Hp].
    rewrite Hf'. by intros [_ ?].
Defined.

(** 128 MiB of memory, all pages but the first given to the allocator, 31
    pages taken. *)
Definition after31 : phymem :=
  default sample_phys (ret_state (
    (init_phy_mem true ;;
     free_phy_pages PAGE_SIZE (63 * PAGE_SIZE) ;;
     for_range 31 0 (λ _, alloc_phy_page 1 ;; mret tt))
    (mk_phymem 0x8000000 [] 0 0 0 0 0))).

(** There are 32 free pages, and the next request does not return. *)
Lemma alloc_phy_page_stuck_witness :
  pages after31 = 32 ∧ ∀ fuel, alloc_phy_page fuel after31 = NoFuel.
Proof.
  split; [vm_compute; reflexivity|].
  apply (alloc_phy_page_stuck after31 0xffffffff00000000);
    vm_compute; reflexivity || discriminate.
Defined.

Lemma free_phy_one_page_correct_witness :
  ∃ s', free_phy_one_page 0x400000 sample_phys = Ret tt s' ∧ phymem_ok s' ∧ free_page s' 2.
Proof.
  pose proof (free_phy_one_page_correct sample_phys 0x400000 (proj1 sample_phys_ok)
                ltac:(done)) as HP.
  assert (ret_val (free_phy_one_page 0x400000 sample_phys) = Some tt) as E
    by (vm_compute; reflexivity).
  destruct (free_phy_one_page 0x400000 sample_phys) as [a s'| | | | |]; simplify_eq/=.
  destruct HP as [[? _]|(_ & _ & Hok & _ & _ & Hf & _)]; [done|].
  exists s'. split_and!; [done..|]. apply Hf. by right.
Defined.

Lemma free_phy_pages_correct_witness :
  ∃ s', free_phy_pages 0x200000 0x600000 sample_phys = Ret tt s' ∧
        freed_run sample_phys 1 3 s'.
Proof.
  apply (free_phy_pages_correct sample_phys 0x200000 0x600000 (proj1 sample_phys_ok));
    reflexivity || (vm_compute; discriminate).
Defined.

Lemma init_phy_mem_ok_witness :
  ∃ s', init_phy_mem true (mk_phymem 0x8000000 [] 0 0 0 0 0) = Ret tt s' ∧ phymem_ok s'.
Proof.
  destruct (init_phy_mem_ok (mk_phymem 0x8000000 [] 0 0 0 0 0)) as (s' & E & Hok & _);
    [simpl; lia|]. by exists s'.
Defined.

Lemma alloc_free_roundtrip_witness :
  ∃ s1 s2, alloc_phy_page 1 sample_phys = Ret 0x200000 s1 ∧
           free_phy_one_page 0x200000 s1 = Ret tt s2 ∧ pages s2 = 2.
Proof.
  destruct (ret_val_Some (alloc_phy_page 1 sample_phys) 0x200000) as (s1 & E & _);
    [vm_compute; reflexivity|].
  destruct (alloc_free_roundtrip 0 sample_phys 0x200000 s1 (proj1 sample_phys_ok) E)
    as (s2 & E2 & _ & _ & Hp); [done|]. by exists s1, s2.
Defined.
