(* ===== verification/Kheap.v ===== *)
(** * The kernel heap (kernel/kheap.c, kalloc of include/yaos/kheap.h)

    Two pools of free ranges (Holes.v): the 4 KiB heap, which takes physical
    pages when nothing fits, and the small heap, which takes 4 KiB blocks from
    the first.  The page allocator is used through the interface of Pages.v. *)

From stdpp Require Import base gmap list numbers option sorting.
From Stdlib Require Import Lia ZArith.
From S2P Require Import Prelude Chain Holes Pages Bitops Phymem.

#[local] Open Scope Z_scope.
#[local] Open Scope yaos_scope.

Definition MAX_HEAP_HOLE : nat := 10.
Definition MAX_SMALL_HOLE : nat := 100.
Definition MAX_SMALL_HEAP : Z := 2048.

(** The static variables of kheap.c, and the state of the page allocator. *)
Record kheap (P : Type) := mk_kheap { h4k : pool; hsmall : pool; phys : P }.
Arguments mk_kheap {P} h4k hsmall phys.
Arguments h4k {P} k.
Arguments hsmall {P} k.
Arguments phys {P} k.

(** The range [r] lies inside one of the ranges [hs]. *)
Definition covers_range (hs : list range) (r : range) : Prop :=
  ∃ r0, r0 ∈ hs ∧ r0.1 ≤ r.1 ∧ r.1 + r.2 ≤ r0.1 + r0.2.

Lemma spec_alloc_within drop z hs a hs' r :
  0 ≤ z → spec_alloc drop z hs = Some (a, hs') → r ∈ hs' → covers_range hs r.
Proof.
  intros Hz (hs1 & t & hs2 & -> & Ht & _ & ->)%spec_alloc_Some Hr.
  destruct (decide (r = (a + z, t - z))) as [->|Hn].
  - exists (a, t). simpl. split; [set_solver|lia].
  - exists r. split; [|lia]. destruct (drop (t - z)); set_solver.
Qed.

Section kheap.
Context {P : Type} `{PageSource P}.

Definition on_4k {A} (m : M pool A) : M (kheap P) A :=
  zoom h4k (λ t s, mk_kheap t (hsmall s) (phys s)) m.
Definition on_small {A} (m : M pool A) : M (kheap P) A :=
  zoom hsmall (λ t s, mk_kheap (h4k s) t (phys s)) m.
Definition alloc_page : M (kheap P) Z :=
  zoom phys (λ t s, mk_kheap (h4k s) (hsmall s) t) pg_alloc.

Definition init_kheap : M (kheap P) unit :=
  on_4k (init_pool MAX_HEAP_HOLE) ;;
  on_small (init_pool MAX_SMALL_HOLE).

Definition free_kheap_4k (addr size : Z) : M (kheap P) unit := on_4k (free_hole 0xfff addr size).

(** [p = phead; while (p && p->size < size) p = p->pnext;] *)
Definition search (size : Z) : M pool (option nat) :=
  fuel ← pool_fuel;
  p ← gets phead;
  find_fit fuel p size.

(** The [while (!p)] loop: the result is [None] when the function returns 0
    inside it. *)
Fixpoint refill_4k (fuel : nat) (p : option nat) (size : Z) : M (kheap P) (option nat) :=
  match p with
  | Some i => mret (Some i)
  | None =>
      match fuel with
      | O => out_of_fuel
      | S fuel =>
          on_4k spin_unlock ;;
          newaddr ← alloc_page;
          if newaddr =? 0 then mret None
          else
            free_kheap_4k newaddr PAGE_SIZE ;;
            on_4k spin_lock ;;
            p ← on_4k (search size);
            refill_4k fuel p size
      end
  end.

(** [if (size & 0xfff) size = (size & ~0xfff) + 0x1000;] *)
Definition align_4k (size : Z) : Z :=
  if size .& 0xfff =? 0 then size else u64 ((size .& -0x1000) + 0x1000).

(** The rest of alloc_kheap_4k, from [p->size -= size]. *)
Definition take_4k (r : option nat) (size : Z) : M (kheap P) Z :=
  match r with
  | None => mret 0
  | Some i =>
      pret ← on_4k (carve (λ t, t =? 0) (Some i) size);
      on_4k spin_unlock ;;
      mret pret
  end.

Definition alloc_kheap_4k (fuel : nat) (size : Z) : M (kheap P) Z :=
  let size := align_4k size in
  on_4k spin_lock ;;
  p ← on_4k (search size);
  r ← refill_4k fuel p size;
  take_4k r size.

(** The lock is taken before the test of [pfree_small], and the new descriptor
    goes in front, whatever its address. *)
Definition free_small (addr size : Z) : M pool unit :=
  ASSERT ((addr .& 0xfff =? 0) && (size .& 0xfff =? 0)) ;;
  spin_lock ;;
  p ← gets pfree;
  match p with
  | None => panic
  | Some i =>
      h ← hole_at p;
      modify (set_pfree (kh_pnext h)) ;;
      upd_hole p (set_range addr size) ;;
      hd ← gets phead;
      upd_hole p (set_pnext hd) ;;
      modify (set_phead p) ;;
      spin_unlock
  end.

Definition free_kheap_small (addr size : Z) : M (kheap P) unit := on_small (free_small addr size).

Fixpoint refill_small (fuel fuel4k : nat) (p : option nat) (size : Z) : M (kheap P) (option nat) :=
  match p with
  | Some i => mret (Some i)
  | None =>
      match fuel with
      | O => out_of_fuel
      | S fuel =>
          on_small spin_unlock ;;
          newaddr ← alloc_kheap_4k fuel4k 0x1000;
          if newaddr =? 0 then mret None
          else
            free_kheap_small newaddr 0x1000 ;;
            on_small spin_lock ;;
            p ← on_small (search size);
            refill_small fuel fuel4k p size
      end
  end.

Definition take_small (r : option nat) (size : Z) : M (kheap P) Z :=
  match r with
  | None => mret 0
  | Some i =>
      pret ← on_small (carve (λ t, t <=? 16) (Some i) size);
      on_small spin_unlock ;;
      mret pret
  end.

Definition alloc_kheap_small (fuel : nat) (size : Z) : M (kheap P) Z :=
  ASSERT (size <? 0x1000) ;;
  on_small spin_lock ;;
  p ← on_small (search size);
  r ← refill_small fuel fuel p size;
  take_small r size.

(** include/yaos/kheap.h *)
Definition kalloc (fuel : nat) (size : Z) : M (kheap P) Z :=
  if size <? MAX_SMALL_HEAP then alloc_kheap_small fuel size else alloc_kheap_4k fuel size.

(** ** The 4 KiB heap *)

(** The bytes that can still be handed out: those of the free ranges and those
    of the free pages. *)
Definition free_byte (s : kheap P) (hs : list range) (x : Z) : Prop :=
  covers hs x ∨ ∃ a, pg_free (phys s) a ∧ a ≤ x < a + PAGE_SIZE.

Definition hole_4k (r : range) : Prop := 0 < r.1 ∧ aligned 0x1000 r.1 ∧ aligned 0x1000 r.2.

Record inv4 (b : bool) (s : kheap P) (hs : list range) (n : nat) : Prop := {
  i4_pool : pool_is b (h4k s) hs n;
  i4_ok : ranges_ok hs;
  i4_al : Forall hole_4k hs;
  i4_phys : pg_inv (phys s);
  i4_apart : ∀ a, pg_free (phys s) a → Forall (disjoint_range (a, PAGE_SIZE)) hs
}.

Lemma pool_lock s hs n :
  pool_is false s hs n →
  spin_lock s = Ret tt (set_locked true s) ∧ pool_is true (set_locked true s) hs n.
Proof.
  intros (us & fr & Hr & Hn). unfold spin_lock. rewrite (rep_lock _ _ _ _ _ Hr).
  split; [done|]. exists us, fr. split; [|done]. by destruct Hr; split.
Qed.

Lemma pool_unlock s hs n : pool_is true s hs n → pool_is false (set_locked false s) hs n.
Proof. intros (us & fr & Hr & Hn). exists us, fr. split; [|done]. by destruct Hr; split. Qed.

Lemma search_carve drop b s hs n z :
  pool_is b s hs n → Forall range_ok hs → 0 ≤ z →
  match spec_alloc drop z hs with
  | None => search z s = Ret None s
  | Some (a, hs') =>
      ∃ k s' n', search z s = Ret (Some k) s ∧ carve drop (Some k) z s = Ret a s' ∧
        pool_is b s' hs' n' ∧ (n ≤ n')%nat
  end.
Proof.
  intros Hp Hok Hz. pose proof (find_carve_spec drop b s hs n z Hp Hok Hz) as F.
  assert (search z s = find_fit (S (length (holes s))) (phead s) z s) as -> by done.
  destruct (spec_alloc drop z hs) as [[a hs']|]; [|done].
  destruct F as (k & s' & E1 & E2 & E3). eexists k, s', _. split_and!; [done..|]. lia.
Qed.

Lemma covers_perm hs hs' x : hs ≡ₚ hs' → covers hs x ↔ covers hs' x.
Proof. intros E. unfold covers. by setoid_rewrite E. Qed.

Lemma page_4k a : page_addr a → range_ok (a, PAGE_SIZE) ∧ hole_4k (a, PAGE_SIZE).
Proof.
  intros (H1 & H2 & H3). unfold range_ok, hole_4k. simpl. split_and!; try done; try lia.
  unfold aligned in *. unfold PAGE_SIZE in H3. pose proof (Z.div_mod a 0x200000).
  replace a with ((a / 0x200000 * 512) * 0x1000) by lia. by apply Z.mod_mul.
Qed.

(** A free page [a] becomes a range of the heap. *)
Lemma inv4_page s hs n a t :
  inv4 true s hs (S n) → pg_free (phys s) a → pg_inv t →
  (∀ x, pg_free t x ↔ pg_free (phys s) x ∧ x ≠ a) →
  ∀ q, pool_is true q (spec_free a PAGE_SIZE hs) n →
  let s' := mk_kheap q (hsmall s) t in
  inv4 true s' (spec_free a PAGE_SIZE hs) n ∧
  ∀ x, free_byte s' (spec_free a PAGE_SIZE hs) x ↔ free_byte s hs x.
Proof.
  intros [Hp Hok Hal Hph Hap] Ha Ht Hf q Hq s'.
  pose proof (pg_free_page _ _ Hph Ha) as Hpa. destruct (page_4k _ Hpa) as [Hr H4].
  split; [split|]; simpl; try done.
  - apply spec_free_ok; auto.
  - rewrite spec_free_perm. by constructor.
  - intros b Hb. rewrite spec_free_perm. apply Hf in Hb as [Hb Hne]. constructor; [|by apply Hap].
    unfold disjoint_range, before. simpl. apply page_addr_apart; [|done..].
    exact (pg_free_page _ _ Hph Hb).
  - intros x. unfold free_byte. rewrite (covers_perm _ _ _ (spec_free_perm _ _ _)).
    unfold covers at 1. setoid_rewrite elem_of_cons. simpl. setoid_rewrite Hf.
    unfold covers. split.
    + intros [(r & [->|Hr'] & Hx)|(b & [Hb _] & Hx)]; [right; by exists a|left; by exists r|right; by exists b].
    + intros [(r & Hr' & Hx)|(b & Hb & Hx)]; [left; exists r; auto|].
      destruct (decide (b = a)) as [->|]; [left; exists (a, PAGE_SIZE); auto|right; exists b; auto].
Qed.

(** The block [(a, z)] has been handed out between [s] and [s']: it does not
    meet what is still free, and the free bytes are the remaining ones and
    its own. *)
Record given (s : kheap P) (hs : list range) (s' : kheap P) (hs' : list range) (a z : Z) : Prop := {
  gv_4k : hole_4k (a, z);
  gv_range : range_ok (a, z);
  gv_apart : Forall (disjoint_range (a, z)) hs';
  gv_pages : ∀ p, pg_free (phys s') p → disjoint_range (p, PAGE_SIZE) (a, z);
  gv_bytes : ∀ x, free_byte s hs x ↔ free_byte s' hs' x ∨ a ≤ x < a + z
}.

Lemma spec_alloc_4k z hs a hs' :
  Forall hole_4k hs → aligned 0x1000 z → 0 < z →
  spec_alloc (λ t, t =? 0) z hs = Some (a, hs') → Forall hole_4k hs' ∧ hole_4k (a, z).
Proof.
  intros Hal Hz Hz0 (hs1 & t & hs2 & -> & Ht & _ & ->)%spec_alloc_Some.
  apply Forall_app in Hal as [H1 [(Ha0 & Ha & Hta) H2]%Forall_cons]. simpl in *.
  split; [|done]. apply Forall_app. split; [done|]. destruct (Z.eqb_spec (t - z) 0); [done|].
  constructor; [|done]. split_and!; simpl; [lia|auto with yaos..].
Qed.

Lemma spec_alloc_sub drop z hs a hs' :
  spec_alloc drop z hs = Some (a, hs') → ∃ t, (a, t) ∈ hs ∧ z ≤ t.
Proof. intros (hs1 & t & hs2 & -> & Ht & _ & _)%spec_alloc_Some. exists t. set_solver. Qed.

Lemma take_given s hs n z a hs' :
  inv4 true s hs n → aligned 0x1000 z → 0 < z →
  spec_alloc (λ t, t =? 0) z hs = Some (a, hs') →
  ∀ q n', pool_is false q hs' n' →
  let s' := mk_kheap q (hsmall s) (phys s) in
  inv4 false s' hs' n' ∧ given s hs s' hs' a z.
Proof.
  intros [Hp Hok Hal Hph Hap] Hz Hz0 E q n' Hq s'.
  destruct (spec_alloc_4k _ _ _ _ Hal Hz Hz0 E) as [Hal' Hblk].
  destruct (spec_alloc_sub _ _ _ _ _ E) as (t & Hin & Ht).
  assert (∀ u, 0 ≤ u → (u =? 0) = false → 0 < u) as Hd by (intros; lia).
  destruct (spec_alloc_ok (λ t, t =? 0) _ _ _ _ Hok Hz0 Hd E) as (Hok' & Hdj & Hc1 & Hc2).
  assert (∀ p r, pg_free (phys s) p → covers_range hs r → disjoint_range (p, PAGE_SIZE) r) as Hsub.
  { intros p r Hpf (r0 & Hr0 & Hlo & Hhi). pose proof (Hap _ Hpf) as Hf. rewrite Forall_forall in Hf.
    specialize (Hf _ Hr0). unfold disjoint_range, before in *. simpl in *. lia. }
  split; split; simpl; try done.
  - intros p Hpf. rewrite Forall_forall. intros r Hr. apply Hsub; [done|].
    apply (spec_alloc_within (λ t, t =? 0) z _ a hs'); [lia|done..].
  - destruct Hok as [Hok _]. rewrite Forall_forall in Hok. specialize (Hok _ Hin).
    unfold range_ok in *. simpl in *. lia.
  - intros p Hpf. apply Hsub; [done|]. exists (a, t). simpl. split; [done|lia].
  - intros x. unfold free_byte. simpl. split.
    + intros [Hc|Hpg]; [|auto]. destruct (spec_alloc_covers (λ t, t =? 0) _ _ _ _ x Hok (λ _, eq_refl) E Hc); auto.
    + intros [[Hc|Hpg]|Hx]; auto.
Qed.

(** The outcome of an allocation of [z] bytes (a multiple of 4096) from the
    ranges [hs] with [n] unused descriptors: a block; or 0 when the page
    allocator gives no page; or the panic for lack of descriptors, only when
    no range fits and there is no descriptor left or even a page is too
    small. *)
Definition post_4k (s : kheap P) (hs : list range) (n : nat) (z : Z)
    (r : outcome (kheap P) Z) : Prop :=
  match r with
  | Ret a s' =>
      hsmall s' = hsmall s ∧ ∃ hs' n', inv4 false s' hs' n' ∧
      ((a = 0 ∧ Forall (λ r, r.2 < z) hs ∧ ∀ x, free_byte s' hs' x ↔ free_byte s hs x) ∨
       given s hs s' hs' a z)
  | Panicked => Forall (λ r, r.2 < z) hs ∧ (n = 0%nat ∨ PAGE_SIZE < z)
  | _ => False
  end.

Lemma on_4k_ret {A} (m : M pool A) s a q :
  m (h4k s) = Ret a q → on_4k m s = Ret a (mk_kheap q (hsmall s) (phys s)).
Proof. intros E. unfold on_4k. by rewrite (zoom_ret _ _ _ _ _ _ E). Qed.

Lemma on_small_ret {A} (m : M pool A) s a q :
  m (hsmall s) = Ret a q → on_small m s = Ret a (mk_kheap (h4k s) q (phys s)).
Proof. intros E. unfold on_small. by rewrite (zoom_ret _ _ _ _ _ _ E). Qed.

Lemma alloc_page_ret s a t :
  pg_alloc (phys s) = Ret a t → alloc_page s = Ret a (mk_kheap (h4k s) (hsmall s) t).
Proof. intros E. unfold alloc_page. by rewrite (zoom_ret _ _ _ _ _ _ E). Qed.

(** The part of alloc_kheap_4k after the lock is taken. *)
Definition locked_4k (fuel : nat) (z : Z) : M (kheap P) Z :=
  p ← on_4k (search z);
  r ← refill_4k fuel p z;
  take_4k r z.

Lemma given_ext s hs t ks s' hs' a z :
  (∀ x, free_byte t ks x ↔ free_byte s hs x) →
  given t ks s' hs' a z → given s hs s' hs' a z.
Proof. intros E [? ? ? ? G]. split; try done. intros x. by rewrite <- E. Qed.

Lemma locked_4k_fit fuel s hs n z a hs' :
  inv4 true s hs n → aligned 0x1000 z → 0 < z →
  spec_alloc (λ t, t =? 0) z hs = Some (a, hs') →
  post_4k s hs n z (locked_4k fuel z s).
Proof.
  intros Hi Hz Hz0 E. pose proof Hi as [Hp [Hok _] _ _ _].
  pose proof (search_carve (λ t, t =? 0) _ _ _ _ z Hp Hok ltac:(lia)) as Hs. rewrite E in Hs.
  destruct Hs as (k & q & n' & E1 & E2 & Hq & _). unfold locked_4k.
  rewrite (bind_ret _ _ _ _ _ (on_4k_ret _ s _ _ E1)). destruct fuel; simpl.
  all: erewrite bind_ret by reflexivity; unfold take_4k.
  all: erewrite bind_ret by (apply on_4k_ret; exact E2).
  all: erewrite bind_ret by (apply on_4k_ret; reflexivity).
  all: destruct (take_given s hs n z a hs' Hi Hz Hz0 E _ _ (pool_unlock _ _ _ Hq)) as [Hi' Hg].
  all: split; [done|]; exists hs', n'; auto.
Qed.

Lemma inv4_unlock s hs n :
  inv4 true s hs n → inv4 false (mk_kheap (set_locked false (h4k s)) (hsmall s) (phys s)) hs n.
Proof. intros []. split; try done. by apply pool_unlock. Qed.

Lemma mask_4k x : aligned 0x1000 x → x .& 0xfff = 0.
Proof. intros Hx. change 0xfff with (2 ^ 12 - 1). by rewrite land_mask. Qed.

(** Giving a range to the heap: the panic when no descriptor is unused. *)
Lemma free_kheap_4k_spec s hs n a z :
  pool_is false (h4k s) hs n → aligned 0x1000 a → aligned 0x1000 z →
  match n with
  | O => free_kheap_4k a z s = Panicked
  | S n' => ∃ q, free_kheap_4k a z s = Ret tt (mk_kheap q (hsmall s) (phys s)) ∧
                 pool_is false q (spec_free a z hs) n'
  end.
Proof.
  intros Hp Ha Hz. pose proof (free_hole_spec 0xfff _ _ _ a z Hp (mask_4k _ Ha) (mask_4k _ Hz)) as F.
  destruct n as [|n']; unfold free_kheap_4k; [unfold on_4k, zoom; by rewrite F|].
  destruct F as (q & F & Hq). exists q. split; [|done]. by apply on_4k_ret.
Qed.

(** One round of the loop when nothing fits. *)
Lemma refill_round fuel s hs n z :
  inv4 true s hs n → 0 ≤ z → spec_alloc (λ t, t =? 0) z hs = None →
  (∃ s', locked_4k (S fuel) z s = Ret 0 s' ∧ hsmall s' = hsmall s ∧ inv4 false s' hs n ∧
     ∀ x, free_byte s' hs x ↔ free_byte s hs x) ∨
  (n = 0%nat ∧ locked_4k (S fuel) z s = Panicked) ∨
  (∃ n' s' hs', n = S n' ∧ locked_4k (S fuel) z s = locked_4k fuel z s' ∧
     hsmall s' = hsmall s ∧ inv4 true s' hs' n' ∧ (∃ a, hs' ≡ₚ (a, PAGE_SIZE) :: hs) ∧
     ∀ x, free_byte s' hs' x ↔ free_byte s hs x).
Proof.
  intros Hi Hz E. pose proof Hi as [Hp [Hok _] _ Hph _].
  pose proof (search_carve (λ t, t =? 0) _ _ _ _ z Hp Hok Hz) as Hs. rewrite E in Hs.
  unfold locked_4k at 1 2 3. rewrite !(bind_ret _ _ _ _ _ (on_4k_ret _ s _ _ Hs)).
  cbn [refill_4k]. set (s0 := mk_kheap _ _ _).
  rewrite !bind_assoc.
  rewrite !(bind_ret _ _ s0 _ _ (on_4k_ret spin_unlock s0 _ _ eq_refl)).
  set (s1 := mk_kheap (set_locked false _) _ _). rewrite !bind_assoc.
  destruct (pg_alloc_ok (phys s) Hph) as (a & t & Ea & Ht & Hcase).
  rewrite !(bind_ret _ _ s1 _ _ (alloc_page_ret s1 _ _ Ea)).
  set (s2 := mk_kheap _ _ t).
  destruct Hcase as [[-> Hf]|[Ha Hf]].
  { left. exists s2. split; [done|]. split; [done|]. split.
    - destruct Hi as [_ H1 H2 _ H4]. split; try done; [by apply pool_unlock|].
      intros b Hb. apply H4. by apply Hf.
    - intros x. unfold free_byte. simpl. by setoid_rewrite Hf. }
  right. pose proof (pg_free_page _ _ Hph Ha) as Hpa. destruct (page_4k _ Hpa) as [_ (_ & H4 & _)].
  destruct (Z.eqb_spec a 0); [by apply page_addr_nonzero in Hpa|].
  rewrite !bind_assoc.
  pose proof (free_kheap_4k_spec s2 hs n a PAGE_SIZE (pool_unlock _ _ _ Hp) H4 eq_refl) as F.
  destruct n as [|n']; [left; split; [done|]; unfold mbind at 1, M_bind at 1; by rewrite F|right].
  destruct F as (q & F & Hq). rewrite !(bind_ret _ _ _ _ _ F).
  set (s3 := mk_kheap q _ _). destruct (pool_lock _ _ _ Hq) as [El Hql].
  rewrite !bind_assoc, !(bind_ret _ _ s3 _ _ (on_4k_ret _ s3 _ _ El)).
  destruct (inv4_page _ _ _ _ _ Hi Ha Ht Hf _ Hql) as [Hi' Hb].
  eexists n', _, (spec_free a PAGE_SIZE hs). split; [done|]. split; [by rewrite bind_assoc|].
  split; [done|]. split; [exact Hi'|]. split; [|done]. exists a. apply spec_free_perm.
Qed.

(** One descriptor more than are unused is enough rounds. *)
Lemma locked_4k_spec z n : ∀ s hs fuel,
  inv4 true s hs n → aligned 0x1000 z → 0 < z → (n < fuel)%nat →
  post_4k s hs n z (locked_4k fuel z s).
Proof.
  induction n as [|n IH]; intros s hs [|fuel] Hi Hz Hz0 Hf; [lia| |lia|];
    (destruct (spec_alloc (λ t, t =? 0) z hs) as [[a hs']|] eqn:E;
      [by eapply locked_4k_fit|]);
    pose proof (proj1 (spec_alloc_fits _ _ _) E) as Hno.
  - destruct (refill_round fuel s hs 0 z Hi ltac:(lia) E)
      as [(s' & -> & Hsm & Hi' & Hb)|[[_ ->]|(? & ? & ? & ? & _)]]; [|by split; [|left]|lia].
    split; [done|]. exists hs, 0%nat. auto.
  - destruct (refill_round fuel s hs (S n) z Hi ltac:(lia) E)
      as [(s' & -> & Hsm & Hi' & Hb)|[[? _]|(n' & s' & hs' & [= <-] & -> & Hsm & Hi' & [a Ha] & Hb)]].
    + split; [done|]. exists hs, (S n). auto.
    + lia.
    + specialize (IH s' hs' fuel Hi' Hz Hz0 ltac:(lia)).
      destruct (locked_4k fuel z s') as [a' s''| | | | |]; try done.
      * destruct IH as (Hsm' & hs'' & n' & Hi'' & Hc). split; [congruence|].
        exists hs'', n'. split; [done|]. destruct Hc as [(-> & _ & Hx)|Hg].
        -- left. split_and!; try done. intros x. by rewrite Hx, Hb.
        -- right. by apply (given_ext _ _ s' hs').
      * destruct IH as [IH _]. rewrite Ha in IH. apply Forall_cons in IH as [IH _]. split; [done|by right].
Qed.

Lemma align_4k_spec z :
  0 < z → z ≤ 2 ^ 64 - 0x1000 →
  z ≤ align_4k z < z + 0x1000 ∧ aligned 0x1000 (align_4k z).
Proof.
  intros H0 H1. unfold align_4k, aligned. change 0xfff with (2 ^ 12 - 1).
  change (-0x1000) with (- 2 ^ 12). rewrite land_mask, land_not_mask by lia.
  change (2 ^ 12) with 0x1000. pose proof (Z.mod_pos_bound z 0x1000).
  destruct (Z.eqb_spec (z mod 0x1000) 0) as [E|E]; [lia|].
  rewrite u64_id by (unfold in_u; lia). split; [lia|].
  pose proof (Z.div_mod z 0x1000). replace (z - _ + _) with ((z / 0x1000 + 1) * 0x1000) by lia.
  by apply Z.mod_mul.
Qed.

Lemma lock_4k s hs n :
  inv4 false s hs n →
  let s' := mk_kheap (set_locked true (h4k s)) (hsmall s) (phys s) in
  on_4k spin_lock s = Ret tt s' ∧ inv4 true s' hs n.
Proof.
  intros [Hp ? ? ? ?] s'. destruct (pool_lock _ _ _ Hp) as [E Hp'].
  split; [by apply on_4k_ret|]. by split.
Qed.

Lemma post_4k_eq s t hs n z r :
  phys t = phys s → hsmall t = hsmall s → post_4k t hs n z r → post_4k s hs n z r.
Proof.
  intros Ep Es. assert (∀ x, free_byte t hs x ↔ free_byte s hs x) as Eb.
  { intros x. unfold free_byte. by rewrite Ep. }
  destruct r as [a s'| | | | |]; try done. intros (E & hs' & n' & Hi & Hc). split; [congruence|].
  exists hs', n'. split; [done|]. destruct Hc as [(-> & Hno & Hb)|Hg].
  - left. split_and!; try done. intros x. by rewrite Hb, Eb.
  - right. by apply (given_ext _ _ t hs).
Qed.

Lemma alloc_kheap_4k_post fuel s hs n z :
  inv4 false s hs n → 0 < z ≤ 2 ^ 64 - 0x1000 → (n < fuel)%nat →
  post_4k s hs n (align_4k z) (alloc_kheap_4k fuel z s).
Proof.
  intros Hi Hz Hf. destruct (lock_4k _ _ _ Hi) as [E Hi'].
  destruct (align_4k_spec z) as [Hz1 Hz2]; [lia..|].
  unfold alloc_kheap_4k. rewrite (bind_ret _ _ _ _ _ E).
  eapply post_4k_eq; [| |apply (locked_4k_spec (align_4k z) n _ hs fuel Hi')]; done || lia.
Qed.

(** ** The small heap *)

(** A byte the heap can still hand out, from either pool. *)
Definition kfree_byte (s : kheap P) (hs hsm : list range) (x : Z) : Prop :=
  covers hsm x ∨ free_byte s hs x.

Record invs (b : bool) (s : kheap P) (hs : list range) (n : nat) (hsm : list range) (m : nat) :
    Prop := {
  is_4k : inv4 false s hs n;
  is_pool : pool_is b (hsmall s) hsm m;
  is_ok : Forall range_ok hsm;
  is_pos : Forall (λ r, 0 < r.1) hsm;
  is_sep : sep hsm;
  is_free : ∀ x, covers hsm x → ¬ free_byte s hs x
}.

Lemma given_bytes s hs s' hs' a z x :
  given s hs s' hs' a z → a ≤ x < a + z → free_byte s hs x ∧ ¬ free_byte s' hs' x.
Proof.
  intros [_ Hr Hap Hpg Hb] Hx. split; [by apply Hb; right|].
  intros [Hc|(p & Hp & Hx')]; [by apply (apart_not_covers (a, z) hs' x)|].
  by apply (disjoint_byte _ _ x (Hpg _ Hp)).
Qed.

(** free_kheap_small: the range goes in front. *)
Lemma free_small_spec s hs n a z :
  pool_is false s hs n → aligned 0x1000 a → aligned 0x1000 z →
  match n with
  | O => free_small a z s = Panicked
  | S n' => ∃ s', free_small a z s = Ret tt s' ∧ pool_is false s' ((a, z) :: hs) n'
  end.
Proof.
  intros Hp Ha Hz. destruct (pool_lock _ _ _ Hp) as [El (us & fr & Hrep & Hn)].
  unfold free_small.
  erewrite bind_ret by (unfold ASSERT; rewrite (mask_4k _ Ha), (mask_4k _ Hz); reflexivity).
  rewrite (bind_ret _ _ _ _ _ El). erewrite bind_ret by reflexivity.
  set (s1 := set_locked true s) in *.
  pose proof (rep_free _ _ _ _ _ Hrep) as Hf. pose proof (chain_head _ _ _ Hf) as Ep. rewrite Ep.
  destruct fr as [|i fr]; simpl in Hn |- *; subst n; [done|].
  destruct (chain_lookup _ _ _ i Hf) as [q Hq]; [set_solver|].
  apply nxp_Some in Hq as (h & Hh & _).
  destruct (rep_take _ _ _ _ _ _ h a z Hrep Hh) as [Hrep2 Hloose].
  rewrite (bind_ret _ _ _ _ _ (hole_at_run _ _ _ Hh)). erewrite bind_ret by reflexivity.
  erewrite bind_ret by (apply upd_hole_run; exact Hh). erewrite bind_ret by reflexivity.
  set (s2 := mk_pool (<[i := set_range a z h]> (holes s1)) _ _ _) in *.
  assert (holes s2 !! i = Some (set_range a z h)) as Hh2.
  { simpl. apply list_lookup_insert_eq. by eapply lookup_lt_Some. }
  pose proof (rep_push true false s2 us hs i fr _ (a, z) Hrep2 Hloose Hh2) as Hrep3.
  erewrite bind_ret by (apply (upd_hole_run s2); exact Hh2). erewrite bind_ret by reflexivity.
  eexists. split; [reflexivity|]. by exists (i :: us), fr.
Qed.

(** The outcome of an allocation of [z] bytes by either operation; [stop] is when
    the panic may happen. *)
Definition kpost (s : kheap P) (hs hsm : list range) (z : Z) (stop : Prop)
    (r : outcome (kheap P) Z) : Prop :=
  match r with
  | Ret a s' =>
      ∃ hs' n' hsm' m', invs false s' hs' n' hsm' m' ∧
      (∀ x, kfree_byte s' hs' hsm' x → kfree_byte s hs hsm x) ∧
      (a = 0 ∨
       0 < a ∧ a + z < 2 ^ 64 ∧
       ∀ x, a ≤ x < a + z → kfree_byte s hs hsm x ∧ ¬ kfree_byte s' hs' hsm' x)
  | Panicked => stop
  | _ => False
  end.

Definition locked_small (fuel : nat) (z : Z) : M (kheap P) Z :=
  p ← on_small (search z);
  r ← refill_small fuel fuel p z;
  take_small r z.

Lemma take_small_run s hs n hsm m z a hsm' :
  invs true s hs n hsm m → 0 < z → spec_alloc (λ t, t <=? 16) z hsm = Some (a, hsm') →
  ∃ k, on_small (search z) s = Ret (Some k) s ∧
       ∀ stop, kpost s hs hsm z stop (take_small (Some k) z s).
Proof.
  intros [H4 Hp Hok Hpos Hsep Hfr] Hz E.
  pose proof (search_carve (λ t, t <=? 16) _ _ _ _ z Hp Hok ltac:(lia)) as Hs. rewrite E in Hs.
  destruct Hs as (k & q & m' & E1 & E2 & Hq & _). exists k.
  split; [rewrite (on_small_ret _ s _ _ E1); by destruct s|]. intros stop.
  unfold take_small. rewrite (bind_ret _ _ _ _ _ (on_small_ret _ s _ _ E2)).
  erewrite bind_ret by (apply on_small_ret; reflexivity).
  assert (∀ t, 0 ≤ t → (t <=? 16) = false → 0 < t) as Hd by (intros; lia).
  destruct (spec_alloc_sep (λ t, t <=? 16) _ _ _ _ Hok Hsep Hz Hd E)
    as (Hok' & Hsep' & (_ & _ & Hr) & Hc & Hblk). simpl in Hr.
  destruct (spec_alloc_sub _ _ _ _ _ E) as (t & Hin & Ht).
  assert (∀ r, r ∈ hsm → 0 < r.1) as Hpos1 by by apply Forall_forall.
  exists hs, n, hsm', m'. split_and!.
  - split; simpl; try done; [by destruct H4|by apply pool_unlock| |].
    + apply Forall_forall. intros r Hr'.
      destruct (spec_alloc_within (λ t, t <=? 16) z _ _ _ r ltac:(lia) E Hr') as (r0 & Hr0 & Hle & _).
      specialize (Hpos1 _ Hr0). lia.
    + intros x Hx. apply Hfr. by apply Hc.
  - intros x [Hx|Hx]; [left; by apply Hc|by right].
  - right. split; [apply (Hpos1 _ Hin)|]. split; [done|]. intros x Hx.
    destruct (Hblk x Hx) as [Hx1 Hx2]. split; [by left|]. intros [Hx3|Hx3]; [done|].
    by apply (Hfr x).
Qed.

(** A 4 KiB block taken from the first pool becomes a range of the second. *)
Lemma small_refill s hs n hsm m s' hs' n' a q :
  invs true s hs n hsm (S m) → inv4 false s' hs' n' → given s hs s' hs' a 0x1000 →
  pool_is true q ((a, 0x1000) :: hsm) m →
  let s'' := mk_kheap (h4k s') q (phys s') in
  invs true s'' hs' n' ((a, 0x1000) :: hsm) m ∧
  ∀ x, kfree_byte s'' hs' ((a, 0x1000) :: hsm) x ↔ kfree_byte s hs hsm x.
Proof.
  intros [H4 Hp Hok Hpos Hsep Hfr] H4' Hg Hq s''.
  assert (∀ x, covers ((a, 0x1000) :: hsm) x ↔ covers hsm x ∨ a ≤ x < a + 0x1000) as Hcov.
  { intros x. unfold covers. setoid_rewrite elem_of_cons. split.
    - intros (r & [->|Hr] & Hx); [by right|left; eauto].
    - intros [(r & Hr & Hx)|Hx]; [eauto|]. exists (a, 0x1000). eauto. }
  pose proof (gv_bytes _ _ _ _ _ _ Hg) as Hby. split; [split|]; simpl; try done.
  - by destruct H4'.
  - constructor; [apply Hg|done].
  - constructor; [apply (gv_4k _ _ _ _ _ _ Hg)|done].
  - split; [|done]. apply Forall_forall. intros r Hr.
    rewrite Forall_forall in Hok. destruct (Hok _ Hr) as (_ & Hr2 & _).
    apply disjoint_bytes; [done|done|]. simpl. intros x Hx Hx'.
    destruct (given_bytes _ _ _ _ _ _ x Hg Hx) as [Hf _]. apply (Hfr x); [|done]. by exists r.
  - intros x [Hx|Hx]%Hcov Hf; [|by destruct (given_bytes _ _ _ _ _ _ x Hg Hx)].
    apply (Hfr x Hx). apply Hby. by left.
  - intros x. unfold kfree_byte. rewrite Hcov. change (free_byte s'' hs' x) with (free_byte s' hs' x).
    rewrite Hby. tauto.
Qed.

Lemma kpost_ext s hs hsm t ks ksm z stop r :
  (∀ x, kfree_byte t ks ksm x ↔ kfree_byte s hs hsm x) →
  kpost t ks ksm z stop r → kpost s hs hsm z stop r.
Proof.
  intros E. destruct r as [a s'| | | | |]; try done.
  intros (hs' & n' & hsm' & m' & Hi & Hd & Hc). exists hs', n', hsm', m'. split; [done|].
  split; [intros x Hx; by apply E, Hd|]. destruct Hc as [->|(H0 & Hz & Hb)]; [by left|right].
  split_and!; try done. intros x Hx. rewrite <- E. by apply Hb.
Qed.

Lemma kpost_zero s hs hsm s' hs' n' hsm' m' z stop :
  invs false s' hs' n' hsm' m' →
  (∀ x, kfree_byte s' hs' hsm' x → kfree_byte s hs hsm x) →
  kpost s hs hsm z stop (Ret 0 s').
Proof. intros Hi Hb. exists hs', n', hsm', m'. auto. Qed.

Lemma refill_small_Some fuel fuel4k k z s : refill_small fuel fuel4k (Some k) z s = Ret (Some k) s.
Proof. by destruct fuel. Qed.

Lemma unlock_small s hs n hsm m :
  invs true s hs n hsm m →
  invs false (mk_kheap (h4k s) (set_locked false (hsmall s)) (phys s)) hs n hsm m.
Proof. intros [[] ? ? ? ? ?]. split; done || by apply pool_unlock. Qed.

Lemma lock_small s hs n hsm m :
  invs false s hs n hsm m →
  let s' := mk_kheap (h4k s) (set_locked true (hsmall s)) (phys s) in
  on_small spin_lock s = Ret tt s' ∧ invs true s' hs n hsm m.
Proof.
  intros [[] Hp ? ? ? ?] s'. destruct (pool_lock _ _ _ Hp) as [E Hp'].
  split; [by apply on_small_ret|]. split; try done.
Qed.

(** After the block [a] arrived: it goes to the pool, and the search finds it. *)
Lemma small_second s hs n hsm m s' hs' n' a z f f4 :
  invs true s hs n hsm m → inv4 false s' hs' n' → given s hs s' hs' a 0x1000 →
  hsmall s' = set_locked false (hsmall s) → 0 < z < 0x1000 →
  kpost s hs hsm z (n = 0%nat ∨ m = 0%nat)
    ((r ← (free_kheap_small a 0x1000 ;;
           on_small spin_lock ;;
           p ← on_small (search z);
           refill_small f f4 p z);
      take_small r z) s').
Proof.
  intros Hi Hi4 Hg Hsm Hz. rewrite bind_assoc. pose proof (pool_unlock _ _ _ (is_pool _ _ _ _ _ _ Hi)) as Hp.
  rewrite <- Hsm in Hp.
  pose proof (gv_4k _ _ _ _ _ _ Hg) as (_ & Ha & Hal). simpl in Ha.
  pose proof (free_small_spec _ _ _ a 0x1000 Hp Ha eq_refl) as F.
  destruct m as [|m].
  { unfold mbind at 1, M_bind at 1, free_kheap_small, on_small, zoom. rewrite F. by right. }
  destruct F as (q & F & Hq). destruct (pool_lock _ _ _ Hq) as [El Hql].
  rewrite (bind_ret _ _ _ _ _ (on_small_ret _ s' _ _ F)), bind_assoc.
  erewrite bind_ret by (apply on_small_ret; exact El). rewrite bind_assoc.
  destruct (small_refill _ _ _ _ _ _ _ _ _ _ Hi Hi4 Hg Hql) as [Hi' Hb].
  assert (∃ hsm', spec_alloc (λ t, t <=? 16) z ((a, 0x1000) :: hsm) = Some (a, hsm')) as [hsm' E].
  { simpl. destruct (Z.ltb_spec 0x1000 z); [lia|]. eauto. }
  destruct (take_small_run _ _ _ _ _ z a hsm' Hi' ltac:(lia) E) as (k & Ek & Hk).
  rewrite (bind_ret _ _ _ _ _ Ek), (bind_ret _ _ _ _ _ (refill_small_Some _ _ _ _ _)).
  by apply (kpost_ext _ _ _ _ _ _ _ _ _ Hb).
Qed.

Lemma locked_small_spec fuel s hs n hsm m z :
  invs true s hs n hsm m → 0 < z < 0x1000 → (n < fuel)%nat →
  kpost s hs hsm z (n = 0%nat ∨ m = 0%nat) (locked_small fuel z s).
Proof.
  intros Hi Hz Hf. unfold locked_small.
  destruct (spec_alloc (λ t, t <=? 16) z hsm) as [[a hsm']|] eqn:E.
  { destruct (take_small_run _ _ _ _ _ z a hsm' Hi ltac:(lia) E) as (k & Ek & Hk).
    by rewrite (bind_ret _ _ _ _ _ Ek), (bind_ret _ _ _ _ _ (refill_small_Some _ _ _ _ _)). }
  pose proof (search_carve (λ t, t <=? 16) _ _ _ _ z (is_pool _ _ _ _ _ _ Hi)
                (is_ok _ _ _ _ _ _ Hi) ltac:(lia)) as Hs. rewrite E in Hs.
  rewrite (bind_ret _ _ _ _ _ (on_small_ret _ s _ _ Hs)).
  destruct fuel as [|f]; [lia|]. cbn [refill_small]. set (s0 := mk_kheap _ _ _).
  rewrite bind_assoc, (bind_ret _ _ s0 _ _ (on_small_ret spin_unlock s0 _ _ eq_refl)), bind_assoc.
  set (s1 := mk_kheap (h4k s0) _ _).
  pose proof (unlock_small _ _ _ _ _ Hi) as Hi1. change (invs false s1 hs n hsm m) in Hi1.
  pose proof (alloc_kheap_4k_post (S f) s1 hs n 0x1000 (is_4k _ _ _ _ _ _ Hi1)
                ltac:(lia) Hf) as H4. change (align_4k 0x1000) with 0x1000 in H4.
  unfold mbind at 1, M_bind at 1. destruct (alloc_kheap_4k (S f) 0x1000 s1) as [a s'| | | | |]; try done.
  2:{ destruct H4 as [_ [?|?]]; [by left|done]. }
  destruct H4 as (Hsm & hs' & n' & Hi' & Hc).
  destruct Hc as [(-> & _ & Hb)|Hg].
  - apply (kpost_zero _ _ _ _ hs' n' hsm m).
    + destruct Hi1 as [_ Hp1 ? ? ? Hfr]. split; try done; [by rewrite Hsm|].
      intros x Hx. rewrite Hb. by apply Hfr.
    + intros x [Hx|Hx]; [by left|right]. by apply Hb in Hx.
  - pose proof (gv_4k _ _ _ _ _ _ Hg) as (Ha0 & _). simpl in Ha0.
    destruct (Z.eqb_spec a 0); [lia|].
    eapply (small_second s hs n hsm m s' hs' n'); try done.
    by apply (given_ext _ _ s1 hs).
Qed.

(** ** kalloc *)

Definition klen (s : kheap P) : Prop := holes_len MAX_HEAP_HOLE (h4k s).

Lemma keeps_on_4k {A} (m : M pool A) :
  keeps (holes_len MAX_HEAP_HOLE) m → keeps klen (on_4k m).
Proof. intros Hm. by apply (keeps_zoom _ (holes_len MAX_HEAP_HOLE)). Qed.
Lemma keeps_on_small {A} (m : M pool A) : keeps klen (on_small m).
Proof. by apply (keeps_zoom _ (λ _, True)). Qed.
Lemma keeps_alloc_page : keeps klen alloc_page.
Proof. by apply (keeps_zoom _ (λ _, True)). Qed.

#[local] Hint Resolve keeps_on_4k keeps_on_small keeps_alloc_page : yaos.

Lemma keeps_search z n : keeps (holes_len n) (search z).
Proof. unfold search, pool_fuel. keep. Qed.
#[local] Hint Resolve keeps_search : yaos.

Lemma keeps_refill_4k fuel p z : keeps klen (refill_4k fuel p z).
Proof. revert p. induction fuel; intros; simpl; unfold free_kheap_4k; keep. Qed.
#[local] Hint Resolve keeps_refill_4k : yaos.

Lemma keeps_alloc_4k fuel z : keeps klen (alloc_kheap_4k fuel z).
Proof. unfold alloc_kheap_4k, take_4k. keep. Qed.
#[local] Hint Resolve keeps_alloc_4k : yaos.

Lemma keeps_refill_small fuel f p z : keeps klen (refill_small fuel f p z).
Proof. revert p. induction fuel; intros; simpl; unfold free_kheap_small; keep. Qed.
#[local] Hint Resolve keeps_refill_small : yaos.

Lemma keeps_kalloc fuel z : keeps klen (kalloc fuel z).
Proof. unfold kalloc, alloc_kheap_small, take_small. keep. Qed.

(** Enough rounds for any state of the heap. *)
Definition kheap_fuel : nat := S MAX_HEAP_HOLE.

(** The state invariant of the whole heap. *)
Definition kheap_ok (s : kheap P) (hs : list range) (n : nat) (hsm : list range) (m : nat) : Prop :=
  klen s ∧ invs false s hs n hsm m.

Lemma kalloc_post_4k s hs n hsm m z r :
  invs false s hs n hsm m → 0 < z ≤ 2 ^ 64 - 0x1000 →
  post_4k s hs n (align_4k z) r → kpost s hs hsm z (n = 0%nat ∨ PAGE_SIZE < align_4k z) r.
Proof.
  intros [H4 Hp Hok Hpos Hsep Hfr] Hz. destruct r as [a s'| | | | |]; try done; [|by intros [_ ?]].
  intros (Hsm & hs' & n' & Hi & Hc). destruct (align_4k_spec z) as [Hz1 _]; [lia..|].
  assert (∀ x, free_byte s' hs' x → free_byte s hs x) as Hd.
  { destruct Hc as [(_ & _ & Hc)|Hg]; intros x Hx; [by apply Hc|].
    apply (gv_bytes _ _ _ _ _ _ Hg). by left. }
  exists hs', n', hsm, m. split_and!.
  - split; try done; [by rewrite Hsm|]. intros x Hx Hf. by apply (Hfr x Hx), Hd.
  - intros x [Hx|Hx]; [by left|right]. by apply Hd.
  - destruct Hc as [(-> & _)|Hg]; [by left|right].
    pose proof (gv_4k _ _ _ _ _ _ Hg) as (Ha & _). pose proof (gv_range _ _ _ _ _ _ Hg) as (_ & _ & Hr).
    simpl in *. split_and!; [done|lia|]. intros x Hx.
    destruct (given_bytes _ _ _ _ _ _ x Hg) as [H1 H2]; [lia|]. split; [by right|].
    intros [H3|H3]; [|done]. by apply (Hfr x).
Qed.

Lemma kpost_weaken s hs hsm z (stop stop' : Prop) r :
  (stop → stop') → kpost s hs hsm z stop r → kpost s hs hsm z stop' r.
Proof. intros H'. destruct r; auto. Qed.

(** When kalloc may panic: no unused descriptor in one of the pools, or a size
    no page can hold. *)
Definition kstop (n m : nat) (z : Z) : Prop := n = 0%nat ∨ m = 0%nat ∨ PAGE_SIZE < align_4k z.

Lemma kalloc_post fuel s hs n hsm m z :
  kheap_ok s hs n hsm m → 0 < z ≤ 2 ^ 64 - 0x1000 → (kheap_fuel ≤ fuel)%nat →
  kpost s hs hsm z (kstop n m z) (kalloc fuel z s).
Proof.
  intros [Hl Hi] Hz Hf. pose proof (pool_is_len _ _ _ _ (i4_pool _ _ _ _ (is_4k _ _ _ _ _ _ Hi))) as Hn.
  rewrite Hl in Hn. unfold kheap_fuel in Hf. unfold kalloc. destruct (Z.ltb_spec z MAX_SMALL_HEAP) as [Hz1|Hz1].
  - unfold MAX_SMALL_HEAP in Hz1. unfold alloc_kheap_small.
    erewrite bind_ret by (unfold ASSERT; destruct (Z.ltb_spec z 0x1000); [reflexivity|lia]).
    destruct (lock_small _ _ _ _ _ Hi) as [E Hi']. rewrite (bind_ret _ _ _ _ _ E).
    eapply (kpost_weaken _ _ _ _ (n = 0%nat ∨ m = 0%nat)); [unfold kstop; tauto|].
    eapply kpost_ext; [|apply (locked_small_spec fuel _ hs n hsm m z Hi'); lia]. done.
  - eapply kpost_weaken, (kalloc_post_4k _ _ n _ m); [unfold kstop; tauto|done|done|].
    apply alloc_kheap_4k_post; [apply Hi|done|lia].
Qed.

(** A run of the allocator over a list of sizes. *)
Fixpoint kalloc_all (fuel : nat) (zs : list Z) : M (kheap P) (list range) :=
  match zs with
  | [] => mret []
  | z :: zs => a ← kalloc fuel z; bs ← kalloc_all fuel zs; mret ((a, z) :: bs)
  end.

(** C1. kalloc: on a well-formed heap it returns 0 or the address of a block all of
    whose bytes were free before and none of which is free afterwards; bytes that
    were not free do not become free, and the heap stays well-formed.  It panics only when a
    pool has no unused descriptor or no page can hold the block, and it neither
    faults nor hangs nor exceeds [kheap_fuel] rounds. *)
Theorem kalloc_correct fuel s hs n hsm m z :
  kheap_ok s hs n hsm m → 0 < z ≤ 2 ^ 64 - 0x1000 → (kheap_fuel ≤ fuel)%nat →
  match kalloc fuel z s with
  | Ret a s' =>
      ∃ hs' n' hsm' m', kheap_ok s' hs' n' hsm' m' ∧
      (∀ x, kfree_byte s' hs' hsm' x → kfree_byte s hs hsm x) ∧
      (a = 0 ∨
       0 < a ∧ a + z < 2 ^ 64 ∧
       ∀ x, a ≤ x < a + z → kfree_byte s hs hsm x ∧ ¬ kfree_byte s' hs' hsm' x)
  | Panicked => kstop n m z
  | _ => False
  end.
Proof.
  intros Hok Hz Hf. pose proof (kalloc_post fuel _ _ _ _ _ _ Hok Hz Hf) as HP.
  destruct (kalloc fuel z s) as [a s'| | | | |] eqn:E; try done.
  destruct HP as (hs' & n' & hsm' & m' & Hi & Hr). exists hs', n', hsm', m'.
  split; [|done]. split; [|done]. eapply keeps_kalloc, E. apply Hok.
Qed.

Lemma kalloc_all_post fuel zs : ∀ s hs n hsm m,
  kheap_ok s hs n hsm m → Forall (λ z, 0 < z ≤ 2 ^ 64 - 0x1000) zs → (kheap_fuel ≤ fuel)%nat →
  match kalloc_all fuel zs s with
  | Ret bs s' =>
      bs.*2 = zs ∧ sep (filter (λ b, b.1 ≠ 0) bs) ∧
      ∀ b x, b ∈ bs → b.1 ≠ 0 → b.1 ≤ x < b.1 + b.2 → kfree_byte s hs hsm x
  | Panicked => True
  | _ => False
  end.
Proof.
  induction zs as [|z zs IH]; intros s hs n hsm m Hok Hz Hf; simpl.
  { split_and!; [done|done|set_solver]. }
  apply Forall_cons in Hz as [Hz Hzs].
  pose proof (kalloc_post fuel _ _ _ _ _ _ Hok Hz Hf) as HP.
  unfold mbind, M_bind. destruct (kalloc fuel z s) as [a s'| | | | |] eqn:E; try done.
  destruct HP as (hs' & n' & hsm' & m' & Hi & Hd & Ha).
  specialize (IH s' hs' n' hsm' m'
    (conj (keeps_kalloc _ _ _ _ _ (proj1 Hok) E) Hi) Hzs Hf).
  destruct (kalloc_all fuel zs s') as [bs s''| | | | |]; try done.
  destruct IH as (IH1 & IH2 & IH3). simpl. split_and!; [by f_equal| |].
  - rewrite filter_cons. case_decide as Ha0; [|done]. simpl in Ha0. split; [|done].
    apply Forall_forall. intros [b y] [Hb0 Hb]%list_elem_of_filter. simpl in Hb0.
    destruct Ha as [?|(_ & _ & Ha)]; [done|].
    assert (y ∈ bs.*2) as Hy by (apply list_elem_of_fmap; by exists (b, y)).
    rewrite IH1 in Hy. rewrite Forall_forall in Hzs. specialize (Hzs _ Hy).
    apply disjoint_bytes; simpl; [lia|lia|]. intros x Hx Hx'.
    destruct (Ha x Hx) as [_ Hn]. apply Hn. by apply (IH3 (b, y)).
  - intros b x [->|Hb]%elem_of_cons Hb0 Hx; simpl in *.
    + destruct Ha as [?|(_ & _ & Ha)]; [done|]. by apply Ha.
    + apply Hd. by apply (IH3 b).
Qed.

(** C29. Blocks do not overlap: whatever sizes are asked for one after the other, the blocks
    kalloc returns are pairwise disjoint, and every byte of them was free
    at the start. *)
Theorem kalloc_all_disjoint fuel zs s hs n hsm m :
  kheap_ok s hs n hsm m → Forall (λ z, 0 < z ≤ 2 ^ 64 - 0x1000) zs → (kheap_fuel ≤ fuel)%nat →
  match kalloc_all fuel zs s with
  | Ret bs s' =>
      bs.*2 = zs ∧ sep (filter (λ b, b.1 ≠ 0) bs) ∧
      ∀ b x, b ∈ bs → b.1 ≠ 0 → b.1 ≤ x < b.1 + b.2 → kfree_byte s hs hsm x
  | Panicked => True
  | _ => False
  end.
Proof. apply kalloc_all_post. Qed.

(** ** Setting the heap up *)

Definition zero_kheap (t : P) : kheap P := mk_kheap (zero_pool MAX_HEAP_HOLE) (zero_pool MAX_SMALL_HOLE) t.

Lemma init_pools_run k l t :
  (0 < k)%nat → (0 < l)%nat →
  ∃ q r, (on_4k (init_pool k) ;; on_small (init_pool l)) (mk_kheap (zero_pool k) (zero_pool l) t) =
           Ret tt (mk_kheap q r t) ∧
         pool_is false q [] k ∧ pool_is false r [] l ∧ holes_len k q.
Proof.
  intros Hk Hl. destruct (init_pool_spec k Hk) as (q & E & Hq).
  destruct (init_pool_spec l Hl) as (r & F & Hr). exists q, r. split_and!; [|done..|].
  - rewrite (bind_ret _ _ _ _ _ (on_4k_ret _ (mk_kheap (zero_pool k) (zero_pool l) t) _ _ E)).
    exact (on_small_ret _ (mk_kheap q (zero_pool l) t) _ _ F).
  - apply (keeps_init_pool k k (zero_pool k) tt q); [|exact E]. apply length_replicate.
Qed.

Lemma empty_heap_ok k q r t l :
  pg_inv t → pool_is false q [] k → pool_is false r [] l → invs false (mk_kheap q r t) [] k [] l.
Proof.
  intros Ht Hq Hr. split; [|exact Hr|constructor|constructor|exact I|].
  - split; [exact Hq|by split; constructor|constructor|exact Ht|]. intros. constructor.
  - by intros x (? & ?%elem_of_nil & _).
Qed.

(** init_kheap gives a well-formed heap without free ranges, all descriptors of both
    pools unused. *)
Lemma init_kheap_run t :
  pg_inv t →
  ∃ s, init_kheap (zero_kheap t) = Ret tt s ∧ phys s = t ∧
       kheap_ok s [] MAX_HEAP_HOLE [] MAX_SMALL_HOLE.
Proof.
  intros Ht. destruct (init_pools_run MAX_HEAP_HOLE MAX_SMALL_HOLE t) as (q & r & E & Hq & Hr & Hl);
    [unfold MAX_HEAP_HOLE; lia|unfold MAX_SMALL_HOLE; lia|].
  exists (mk_kheap q r t). split; [exact E|]. split; [reflexivity|].
  split; [exact Hl|]. by apply empty_heap_ok.
Qed.

Lemma free_kheap_4k_run s hs n hsm m a z :
  kheap_ok s hs n hsm m → 0 < a → 0 < z → a + z < 2 ^ 64 →
  aligned 0x1000 a → aligned 0x1000 z →
  (∀ x, a ≤ x < a + z → ¬ kfree_byte s hs hsm x) →
  match n with
  | O => free_kheap_4k a z s = Panicked
  | S n' => ∃ s' hs', free_kheap_4k a z s = Ret tt s' ∧ kheap_ok s' hs' n' hsm m ∧
              ∀ x, kfree_byte s' hs' hsm x ↔ kfree_byte s hs hsm x ∨ a ≤ x < a + z
  end.
Proof.
  intros [Hl [[Hp Hok Hal Hph Hap] Hsm Hsok Hpos Hsep Hfr]] Ha Hz Haz Haa Hza Hnew.
  pose proof (free_kheap_4k_spec s hs n a z Hp Haa Hza) as F. destruct n as [|n']; [exact F|].
  destruct F as (q & F & Hq). exists (mk_kheap q (hsmall s) (phys s)), (spec_free a z hs).
  assert (∀ x, free_byte (mk_kheap q (hsmall s) (phys s)) (spec_free a z hs) x ↔
            free_byte s hs x ∨ a ≤ x < a + z) as Hb.
  { intros x. unfold free_byte. rewrite (covers_perm _ _ _ (spec_free_perm _ _ _)).
    unfold covers at 1. setoid_rewrite elem_of_cons. simpl. split.
    - intros [(r & [->|Hr] & Hx)|Hx]; [by right|left; left; by exists r|by left; right].
    - intros [[(r & Hr & Hx)|Hx]|Hx]; [left; exists r; auto|by right|left; exists (a, z); auto]. }
  assert (∀ r, 0 < r.2 → (∀ x, r.1 ≤ x < r.1 + r.2 → kfree_byte s hs hsm x) → disjoint_range (a, z) r) as Hdj.
  { intros r Hr Hx. apply disjoint_bytes; [done|done|]. intros x Hx1 Hx2. by apply (Hnew x Hx1), Hx. }
  split; [exact F|]. split; [split|].
  - eapply (keeps_on_4k (free_hole 0xfff a z)), F; [|done]. auto with yaos.
  - split; simpl; try done; [split; simpl; try done|].
    + apply spec_free_ok; [done|unfold range_ok; simpl; lia|]. apply Forall_forall. intros r Hr.
      destruct Hok as [Hok _]. rewrite Forall_forall in Hok. destruct (Hok _ Hr) as (_ & Hr2 & _).
      apply Hdj; [done|]. intros x Hx. right. left. by exists r.
    + rewrite spec_free_perm. by constructor.
    + intros p Hpf. rewrite spec_free_perm. constructor; [|by apply Hap].
      apply disjoint_range_sym, Hdj; [done|]. intros x Hx. right. right. by exists p.
    + intros x Hx Hf. apply Hb in Hf as [Hf|Hf]; [by apply (Hfr x)|].
      apply (Hnew x Hf). by left.
  - intros x. unfold kfree_byte. rewrite Hb. tauto.
Qed.

(** free_kheap_4k gives the range [(a, z)], none of whose bytes the heap or the page
    allocator has already, to the heap: afterwards exactly its bytes are free in addition; the
    panic is for lack of descriptors only. *)
Theorem free_kheap_4k_correct s hs n hsm m a z :
  kheap_ok s hs n hsm m → 0 < a → 0 < z → a + z < 2 ^ 64 →
  aligned 0x1000 a → aligned 0x1000 z →
  (∀ x, a ≤ x < a + z → ¬ kfree_byte s hs hsm x) →
  match n with
  | O => free_kheap_4k a z s = Panicked
  | S n' => ∃ s' hs', free_kheap_4k a z s = Ret tt s' ∧ kheap_ok s' hs' n' hsm m ∧
              ∀ x, kfree_byte s' hs' hsm x ↔ kfree_byte s hs hsm x ∨ a ≤ x < a + z
  end.
Proof. apply free_kheap_4k_run. Qed.

Lemma locked_4k_large z n : ∀ s hs fuel,
  inv4 true s hs n → 0 ≤ z → (n < fuel)%nat → Forall (λ r, r.2 < z) hs → PAGE_SIZE < z →
  locked_4k fuel z s = Panicked ∨ ∃ s', locked_4k fuel z s = Ret 0 s'.
Proof.
  induction n as [|n IH]; intros s hs [|fuel] Hi Hz Hf Hno Hpg; [lia| |lia|];
    destruct (refill_round fuel s hs _ z Hi Hz (spec_alloc_None _ _ _ Hno))
      as [(s' & -> & _)|[[_ ->]|(n' & s' & hs' & [= <-] & -> & _ & Hi' & [a Ha] & _)]]; eauto.
  apply (IH s' hs' fuel); [done|done|lia| |done]. rewrite Ha. by constructor.
Qed.

(** Ranges are never merged: when no free range is large enough and the size is more than a
    page, alloc_kheap_4k takes pages until the page allocator has none left or
    the descriptors run out, and never returns a block. *)
Theorem alloc_kheap_4k_large fuel s hs n hsm m z :
  kheap_ok s hs n hsm m → 0 < z ≤ 2 ^ 64 - 0x1000 → (kheap_fuel ≤ fuel)%nat →
  Forall (λ r, r.2 < align_4k z) hs → PAGE_SIZE < align_4k z →
  alloc_kheap_4k fuel z s = Panicked ∨ ∃ s', alloc_kheap_4k fuel z s = Ret 0 s'.
Proof.
  intros [Hl Hi] Hz Hf Hno Hpg. pose proof (is_4k _ _ _ _ _ _ Hi) as Hi4.
  pose proof (pool_is_len _ _ _ _ (i4_pool _ _ _ _ Hi4)) as Hn. rewrite Hl in Hn.
  unfold kheap_fuel in Hf. destruct (lock_4k _ _ _ Hi4) as [E Hi']. unfold alloc_kheap_4k.
  rewrite (bind_ret _ _ _ _ _ E). apply (locked_4k_large _ n _ hs); [done|unfold PAGE_SIZE in Hpg; lia|lia|done|done].
Qed.

(** ** The heap as a source of blocks and pages *)

Lemma pool_is_functional b s hs n hs' n' : pool_is b s hs n → pool_is b s hs' n' → hs = hs'.
Proof.
  intros (us & fr & Hr & _) (us' & fr' & Hr' & _).
  rewrite (chain_functional _ _ _ _ (rep_head _ _ _ _ _ Hr') (rep_head _ _ _ _ _ Hr)) in Hr'.
  pose proof (rep_holes _ _ _ _ _ Hr) as H1. pose proof (rep_holes _ _ _ _ _ Hr') as H2.
  clear Hr Hr'. revert hs' H2. induction H1 as [|i r us hs Hi _ IH]; intros hs' H2; inversion H2; subst; [done|].
  f_equal; [|by apply IH]. destruct Hi as (h & E & E1 & E2).
  match goal with Hh : hole_is s i _ |- _ => destruct Hh as (h' & E' & E1' & E2') end.
  rewrite E in E'. injection E' as <-. destruct r, y. simpl in *. congruence.
Qed.

Definition heap_inv (s : kheap P) : Prop := ∃ hs n hsm m, kheap_ok s hs n hsm m.
Definition heap_free (s : kheap P) (x : Z) : Prop :=
  ∃ hs n hsm m, kheap_ok s hs n hsm m ∧ kfree_byte s hs hsm x.

Lemma heap_free_iff s hs n hsm m x :
  kheap_ok s hs n hsm m → heap_free s x ↔ kfree_byte s hs hsm x.
Proof.
  intros Hok. split; [|intros Hx; by exists hs, n, hsm, m].
  intros (hs' & n' & hsm' & m' & [_ [[Hp' _ _ _ _] Hs' _ _ _ _]] & Hx).
  destruct Hok as [_ [[Hp _ _ _ _] Hs _ _ _ _]].
  by rewrite (pool_is_functional _ _ _ _ _ _ Hp Hp'), (pool_is_functional _ _ _ _ _ _ Hs Hs').
Qed.

Definition heap_block : M (kheap P) Z := alloc_kheap_4k kheap_fuel 0x1000.

(** Blocks of any multiple of 4 KiB. *)
Lemma heap_4k_ok s z :
  heap_inv s → 0 < z ≤ 2 ^ 64 - 0x1000 → aligned 0x1000 z →
  match alloc_kheap_4k kheap_fuel z s with
  | Ret a s' => handed_4k heap_inv heap_free z s a s'
  | Panicked => True
  | _ => False
  end.
Proof.
  intros (hs & n & hsm & m & Hok) Hz Hza. pose proof Hok as [Hl Hi].
  pose proof (pool_is_len _ _ _ _ (i4_pool _ _ _ _ (is_4k _ _ _ _ _ _ Hi))) as Hn. rewrite Hl in Hn.
  pose proof (alloc_kheap_4k_post kheap_fuel s hs n z (is_4k _ _ _ _ _ _ Hi) Hz
                ltac:(unfold kheap_fuel; lia)) as HP.
  pose proof (kalloc_post_4k s hs n hsm m z _ Hi Hz HP) as HK.
  destruct (alloc_kheap_4k kheap_fuel z s) as [a s'| | | | |] eqn:E; try done.
  assert (a = 0 ∨ aligned 0x1000 a) as Hal.
  { destruct HP as (_ & ? & ? & _ & [(-> & _)|Hg]); [by left|right]. apply (gv_4k _ _ _ _ _ _ Hg). }
  destruct HK as (hs' & n' & hsm' & m' & Hi' & Hd & Ha).
  assert (kheap_ok s' hs' n' hsm' m') as Hok' by (split; [by eapply keeps_alloc_4k, E|done]).
  split; [by exists hs', n', hsm', m'|]. split.
  - intros x. rewrite (heap_free_iff _ _ _ _ _ _ Hok), (heap_free_iff _ _ _ _ _ _ Hok'). apply Hd.
  - destruct Ha as [->|(H0 & H1 & Hb)]; [by left|right]. split_and!; [done|lia|destruct Hal; [lia|done]|].
    intros x Hx. rewrite (heap_free_iff _ _ _ _ _ _ Hok), (heap_free_iff _ _ _ _ _ _ Hok'). by apply Hb.
Qed.

Lemma heap_free_4k_ok s a z :
  heap_inv s → 0 < a → 0 < z → a + z < 2 ^ 64 → aligned 0x1000 a → aligned 0x1000 z →
  (∀ x, a ≤ x < a + z → ¬ heap_free s x) →
  match free_kheap_4k a z s with
  | Ret _ s' => heap_inv s' ∧ ∀ x, heap_free s' x ↔ heap_free s x ∨ a ≤ x < a + z
  | Panicked => True
  | _ => False
  end.
Proof.
  intros (hs & n & hsm & m & Hok) Ha Hz Haz Haa Hza Hnew.
  assert (∀ x, a ≤ x < a + z → ¬ kfree_byte s hs hsm x) as Hnew'.
  { intros x Hx. rewrite <- (heap_free_iff _ _ _ _ _ _ Hok). by apply Hnew. }
  pose proof (free_kheap_4k_run s hs n hsm m a z Hok Ha Hz Haz Haa Hza Hnew') as HF.
  destruct n as [|n']; [by rewrite HF|]. destruct HF as (s' & hs' & -> & Hok' & Hb).
  split; [by exists hs', n', hsm, m|]. intros x.
  rewrite (heap_free_iff _ _ _ _ _ _ Hok'), (heap_free_iff _ _ _ _ _ _ Hok). apply Hb.
Qed.

Lemma heap_block_ok s :
  heap_inv s →
  match heap_block s with
  | Ret a s' => handed_out heap_inv heap_free 0x1000 (2 ^ 64) s a s'
  | Panicked => True
  | _ => False
  end.
Proof.
  intros Hi. pose proof (heap_4k_ok s 0x1000 Hi ltac:(lia) eq_refl) as HK. unfold heap_block.
  destruct (alloc_kheap_4k kheap_fuel 0x1000 s) as [a s'| | | | |]; try done.
  destruct HK as (? & ? & [->|(? & ? & ? & ?)]); split_and!; auto. right. split_and!; auto. lia.
Qed.

Lemma heap_page_ok s :
  heap_inv s → ∃ a s', alloc_page s = Ret a s' ∧ handed_out heap_inv heap_free PAGE_SIZE (2 ^ 52) s a s'.
Proof.
  intros (hs & n & hsm & m & Hok). pose proof Hok as [Hl [[Hp Hrok Hal Hph Hap] Hs Hsok Hpos Hsep Hfr]].
  destruct (pg_alloc_ok (phys s) Hph) as (a & t & E & Ht & Hc).
  exists a, (mk_kheap (h4k s) (hsmall s) t). split; [by apply alloc_page_ret|].
  assert (∀ x, pg_free t x → pg_free (phys s) x) as Hsub.
  { intros x. destruct Hc as [[_ ->]|[_ ->]]; tauto. }
  assert (∀ x, free_byte (mk_kheap (h4k s) (hsmall s) t) hs x → free_byte s hs x) as Hfb.
  { intros x [Hx|(b & Hb & Hx)]; [by left|right]. exists b. auto. }
  assert (kheap_ok (mk_kheap (h4k s) (hsmall s) t) hs n hsm m) as Hok'.
  { split; [done|]. split; [|done..|].
    - split; [done..|]. intros b Hb. by apply Hap, Hsub.
    - intros x Hx Hf. by apply (Hfr x Hx), Hfb. }
  split; [by exists hs, n, hsm, m|]. split.
  - intros x. rewrite (heap_free_iff _ _ _ _ _ _ Hok), (heap_free_iff _ _ _ _ _ _ Hok').
    intros [Hx|Hx]; [by left|right]. by apply Hfb.
  - destruct Hc as [[-> _]|[Ha Ht']]; [by left|right].
    pose proof (pg_free_page _ _ Hph Ha) as (Ha0 & Ha1 & Hal').
    split_and!; [done|unfold PAGE_SIZE in *; lia|done|]. intros x Hx.
    rewrite (heap_free_iff _ _ _ _ _ _ Hok), (heap_free_iff _ _ _ _ _ _ Hok').
    assert (free_byte s hs x) as Hxf by (right; by exists a). split; [by right|].
    intros [Hx'|[Hx'|(b & Hb & Hx')]].
    + by apply (Hfr x).
    + by apply (apart_not_covers (a, PAGE_SIZE) hs x (Hap _ Ha)).
    + simpl in Hb. apply Ht' in Hb as [Hb Hne].
      destruct (page_addr_apart a b (pg_free_page _ _ Hph Ha) (pg_free_page _ _ Hph Hb)); [done|lia|lia].
Qed.

End kheap.

(** ** The heap over the bitmap of phymem.c *)

#[export] Instance phymem_source1 : PageSource phymem := phymem_source 0.

Definition sample_heap : kheap phymem :=
  match init_kheap (zero_kheap sample_phys) with
  | Ret _ s => s
  | _ => zero_kheap sample_phys
  end.

Lemma sample_heap_ok :
  kheap_ok sample_heap [] MAX_HEAP_HOLE [] MAX_SMALL_HOLE.
Proof.
  destruct (init_kheap_run (H := phymem_source1) sample_phys sample_phys_ok) as (s & E & _ & Hs).
  unfold sample_heap. by rewrite E.
Qed.

#[export] Instance kheap_mem : MemSource (kheap phymem) := {|
  ms_block := heap_block;
  ms_page := alloc_page;
  ms_free_page := λ a, zoom phys (λ t s, mk_kheap (h4k s) (hsmall s) t) (free_phy_one_page a);
  ms_inv := heap_inv;
  ms_free := heap_free;
  ms_block_ok := heap_block_ok;
  ms_page_ok := heap_page_ok
|}.

(** A first request for 100 bytes is served from page 1. *)
Lemma kalloc_correct_witness :
  ∃ s' hs' n' hsm' m',
    kalloc kheap_fuel 100 sample_heap = Ret 0x200000 s' ∧
    kheap_ok s' hs' n' hsm' m' ∧ ¬ kfree_byte s' hs' hsm' 0x200000.
Proof.
  pose proof (kalloc_correct kheap_fuel sample_heap [] _ [] _ 100 sample_heap_ok
                ltac:(lia) ltac:(lia)) as HP.
  assert (ret_val (kalloc kheap_fuel 100 sample_heap) = Some 0x200000) as E
    by (vm_compute; reflexivity).
  destruct (kalloc kheap_fuel 100 sample_heap) as [a s'| | | | |]; simplify_eq/=.
  destruct HP as (hs' & n' & hsm' & m' & Hok & _ & [?|(_ & _ & Hb)]); [done|].
  exists s', hs', n', hsm', m'. split_and!; [done..|]. apply Hb. lia.
Defined.

(** Three requests, the last of which takes the second page. *)
Lemma kalloc_all_disjoint_witness :
  ∃ s', kalloc_all kheap_fuel [100; 3000; 0x200000] sample_heap =
          Ret [(0x200000, 100); (0x201000, 3000); (0x600000, 0x200000)] s' ∧
        sep [(0x200000, 100); (0x201000, 3000); (0x600000, 0x200000)].
Proof.
  assert (Forall (λ z, 0 < z ≤ 2 ^ 64 - 0x1000) [100; 3000; 0x200000]) as Hz
    by (repeat constructor; lia).
  pose proof (kalloc_all_disjoint kheap_fuel _ sample_heap [] _ [] _ sample_heap_ok Hz
                ltac:(lia)) as HP.
  assert (ret_val (kalloc_all kheap_fuel [100; 3000; 0x200000] sample_heap) =
          Some [(0x200000, 100); (0x201000, 3000); (0x600000, 0x200000)]) as E
    by (vm_compute; reflexivity).
  destruct (kalloc_all _ _ _) as [bs s'| | | | |]; simplify_eq/=.
  exists s'. split; [done|]. apply HP.
Defined.

(** The first megabyte after the kernel is given to the empty heap. *)
Lemma free_kheap_4k_correct_witness :
  ∃ s' hs', free_kheap_4k 0x100000 0x8000 sample_heap = Ret tt s' ∧
            kheap_ok s' hs' 9 [] MAX_SMALL_HOLE.
Proof.
  destruct (free_kheap_4k_correct sample_heap [] MAX_HEAP_HOLE [] MAX_SMALL_HOLE 0x100000 0x8000
              sample_heap_ok) as (s' & hs' & E & Hok & _); try reflexivity.
  - intros x Hx [(? & ?%elem_of_nil & _)|[(? & ?%elem_of_nil & _)|(a & Ha & Hxa)]]; [done..|].
    apply (pg_free_page (P := phymem)) in Ha as (Ha & _ & Hal); [|apply sample_phys_ok].
    unfold aligned, PAGE_SIZE in *. pose proof (Z.div_mod a 0x200000). lia.
  - exists s', hs'. split; [exact E|exact Hok].
Defined.

(** With two free pages a request for more than a page fails. *)
Lemma alloc_kheap_4k_large_witness :
  PAGE_SIZE < align_4k 0x200001 ∧
  (alloc_kheap_4k kheap_fuel 0x200001 sample_heap = Panicked ∨
   ∃ s', alloc_kheap_4k kheap_fuel 0x200001 sample_heap = Ret 0 s').
Proof.
  split; [reflexivity|].
  apply (alloc_kheap_4k_large kheap_fuel sample_heap [] MAX_HEAP_HOLE [] MAX_SMALL_HOLE 0x200001
           sample_heap_ok); [lia|lia|constructor|reflexivity].
Defined.
