(* ===== verification/Pgtable.v ===== *)
(** * Page tables (arch/x86_64/pgtable.c, asm/pgtable.h)

    Three levels of tables of 512 entries (the last level maps 2 MiB pages).
    Tables are 4 KiB frames of memory, reached at their physical address; new
    ones come from alloc_kheap_4k through the interface of Pages.v.  The
    theorems show that map_page_p2v changes the translation of one page and of
    no other, for every state the kernel's own operations can build. *)

From stdpp Require Import base gmap list numbers option.
From Stdlib Require Import Lia ZArith.
From S2P Require Import Prelude Pages Holes Phymem Kheap.

#[local] Open Scope Z_scope.
#[local] Open Scope yaos_scope.

Definition IO_MEM_BASE : Z := 0xfffffff800000000.
Definition PTE_P : Z := 0x001.
Definition PTE_W : Z := 0x002.
Definition PTE_U : Z := 0x004.
Definition PTE_PWT : Z := 0x008.
Definition PTE_PCD : Z := 0x010.
Definition PTE_PS : Z := 0x080.
Definition PML4_SHIFT : Z := 39.
Definition PDP_SHIFT : Z := 30.
Definition PD_SHIFT : Z := 21.
Definition PML4_NR : Z := 512.
Definition PD_PER_PTE : Z := 512.
Definition NUMBER_4G : Z := 0x100000000.

(** yaos/errno.h *)
Inductive err := OK | E_NOMEM.

#[export] Instance err_eq_dec : EqDecision err.
Proof. solve_decision. Defined.

(** The addresses of the static tables of pgtable.c. *)
Record statics := mk_statics {
  pml4 : Z;
  first_pdp : Z;
  first_pd : Z;
  second_pd : Z;
  third_pd : Z;
  fourth_pd : Z
}.

(** Memory as 4 KiB frames of 512 words by base address, the register cr3, and the
    state of the allocators. *)
Record ptstate (H : Type) := mk_pt { frames : gmap Z (list Z); cr3 : Z; mem : H }.
Arguments mk_pt {H} frames cr3 mem.
Arguments frames {H} p.
Arguments cr3 {H} p.
Arguments mem {H} p.

(** 4096 bytes of zeros. *)
Definition zero_frame : list Z := replicate 512 0.
#[global] Arguments zero_frame : simpl never.

Lemma zero_frame_len : length zero_frame = 512%nat.
Proof. apply length_replicate. Qed.

Lemma zero_frame_lookup k : zero_frame !! k = if decide (k < 512)%nat then Some 0 else None.
Proof.
  unfold zero_frame. case_decide; [by apply lookup_replicate_2|].
  apply lookup_replicate_None. lia.
Qed.

(** [e & ~0xfff] *)
Definition base_of (e : Z) : Z := e .& -0x1000.

Definition pml4_index (v : Z) : nat := Z.to_nat ((v .>> PML4_SHIFT) .& (PML4_NR - 1)).
Definition pdp_index (v : Z) : nat := Z.to_nat ((v .>> PDP_SHIFT) .& (PML4_NR - 1)).
Definition pd_index (v : Z) : nat := Z.to_nat ((v .>> PD_SHIFT) .& (PD_PER_PTE - 1)).

(** Entries are an aligned address and flags. *)
Lemma lor_flags k a f : 0 ≤ k → aligned (2 ^ k) a → 0 ≤ f < 2 ^ k → a .| f = a + f.
Proof.
  intros Hk Ha Hf. assert (a .& f = 0) as E.
  { apply Z.bits_inj'. intros i Hi. rewrite Z.land_spec, Z.bits_0.
    destruct (decide (i < k)).
    - assert (Z.testbit a i = false) as ->; [|done].
      unfold aligned in Ha. rewrite <- (Z.mod_pow2_bits_low a k i) by lia. by rewrite Ha, Z.bits_0.
    - assert (Z.testbit f i = false) as ->; [|by rewrite andb_false_r].
      rewrite <- (Z.mod_small f (2 ^ k)) by lia. apply Z.mod_pow2_bits_high. lia. }
  rewrite <- Z.lxor_lor by done. symmetry. by apply Z.add_nocarry_lxor.
Qed.

Lemma base_of_spec e : base_of e = e - e mod 0x1000.
Proof. unfold base_of. change (-0x1000) with (- 2 ^ 12). by rewrite land_not_mask. Qed.

Lemma base_of_add a f : aligned 0x1000 a → 0 ≤ f < 0x1000 → base_of (a + f) = a.
Proof.
  intros Ha Hf. rewrite base_of_spec. unfold aligned in Ha.
  rewrite Zplus_mod, Ha, Z.add_0_l, Z.mod_mod, Z.mod_small by lia. lia.
Qed.

Lemma base_of_aligned e : aligned 0x1000 (base_of e).
Proof.
  rewrite base_of_spec. unfold aligned. pose proof (Z.div_mod e 0x1000).
  replace (e - e mod 0x1000) with (e / 0x1000 * 0x1000) by lia. by apply Z.mod_mul.
Qed.

(** The physical address in an entry of the last level: bits 21 to 51. *)
Definition phys_of (e : Z) : Z := e mod 2 ^ 52 - e mod PAGE_SIZE.

Lemma phys_of_entry p f :
  aligned PAGE_SIZE p → 0 ≤ p → p + PAGE_SIZE ≤ 2 ^ 52 → 0 ≤ f < PAGE_SIZE → phys_of (p + f) = p.
Proof.
  intros Hp H0 H1 Hf. unfold phys_of. unfold aligned in Hp.
  rewrite (Z.mod_small (p + f) (2 ^ 52)) by lia.
  rewrite Zplus_mod, Hp, Z.add_0_l, Z.mod_mod, Z.mod_small by (unfold PAGE_SIZE in *; lia). lia.
Qed.

Lemma page_4k_aligned p : aligned PAGE_SIZE p → aligned 0x1000 p.
Proof.
  unfold aligned, PAGE_SIZE. intros Hp. pose proof (Z.div_mod p 0x200000).
  replace p with (p / 0x200000 * 512 * 0x1000) by lia. by apply Z.mod_mul.
Qed.

Lemma flag_bit0 p f : aligned PAGE_SIZE p → Z.testbit (p + f) 0 = Z.testbit f 0.
Proof.
  unfold aligned, PAGE_SIZE. intros Hp. pose proof (Z.div_mod p 0x200000).
  rewrite !Z.bit0_odd, Z.odd_add. replace p with (2 * (p / 0x200000 * 0x100000)) by lia.
  rewrite Z.odd_mul. by destruct (Z.odd f).
Qed.

(** An index is nine bits of the address. *)
Lemma index_bits v k : 0 ≤ k → (v .>> k) .& (512 - 1) = (v / 2 ^ k) mod 512.
Proof. intros. change 512 with (2 ^ 9). by rewrite land_mask, Z.shiftr_div_pow2. Qed.

Lemma index_lt v k : 0 ≤ k → (Z.to_nat ((v .>> k) .& (512 - 1)) < 512)%nat.
Proof. intros. rewrite index_bits by done. pose proof (Z.mod_pos_bound (v / 2 ^ k) 512). lia. Qed.

Definition slot (v : Z) : nat * nat * nat := (pml4_index v, pdp_index v, pd_index v).

(** The three indices are the number of the 2 MiB page, modulo the 48 bits of an address. *)
Lemma slot_page v v' :
  slot v = slot v' ↔ (v / PAGE_SIZE) mod 2 ^ 27 = (v' / PAGE_SIZE) mod 2 ^ 27.
Proof.
  assert (∀ x, (x / PAGE_SIZE) mod 2 ^ 27 =
            (x / 2 ^ PD_SHIFT) mod 512 + 512 * ((x / 2 ^ PDP_SHIFT) mod 512) +
            512 * 512 * ((x / 2 ^ PML4_SHIFT) mod 512)) as E.
  { intros x. unfold PAGE_SIZE, PD_SHIFT, PDP_SHIFT, PML4_SHIFT.
    change 0x200000 with (2 ^ 21). set (y := x / 2 ^ 21).
    assert (x / 2 ^ 30 = y / 512) as -> by (unfold y; by rewrite Z.div_div).
    assert (x / 2 ^ 39 = y / 512 / 512) as -> by (unfold y; by rewrite !Z.div_div).
    change (2 ^ 27) with (512 * (512 * 512)). rewrite Z.rem_mul_r by lia.
    rewrite (Z.rem_mul_r (y / 512)) by lia. lia. }
  assert (∀ x k, 0 ≤ (x / 2 ^ k) mod 512 < 512) as B by (intros; by apply Z.mod_pos_bound).
  unfold slot, pml4_index, pdp_index, pd_index. change PML4_NR with 512. change PD_PER_PTE with 512.
  rewrite !index_bits by (unfold PML4_SHIFT, PDP_SHIFT, PD_SHIFT; lia). rewrite !E.
  pose proof (B v PML4_SHIFT). pose proof (B v PDP_SHIFT). pose proof (B v PD_SHIFT).
  pose proof (B v' PML4_SHIFT). pose proof (B v' PDP_SHIFT). pose proof (B v' PD_SHIFT).
  split; [intros Hs; injection Hs; lia|]. intros Hs.
  assert ((v / 2 ^ PML4_SHIFT) mod 512 = (v' / 2 ^ PML4_SHIFT) mod 512 ∧
          (v / 2 ^ PDP_SHIFT) mod 512 = (v' / 2 ^ PDP_SHIFT) mod 512 ∧
          (v / 2 ^ PD_SHIFT) mod 512 = (v' / 2 ^ PD_SHIFT) mod 512) as (-> & -> & ->) by lia.
  done.
Qed.

Section pgtable.
Context {H : Type} `{MemSource H} (st : statics).

Implicit Types s : ptstate H.

Definition set_frames (f : gmap Z (list Z)) s : ptstate H := mk_pt f (cr3 s) (mem s).

(** Reading and writing entry [k] of the table at [t]. *)
Definition read_entry (t : Z) (k : nat) : M (ptstate H) Z := λ s,
  match frames s !! t ≫= λ f, f !! k with
  | Some e => Ret e s
  | None => Faulted
  end.

Definition write_entry (t : Z) (k : nat) (e : Z) : M (ptstate H) unit := λ s,
  match frames s !! t with
  | Some f =>
      if decide (k < length f)%nat
      then Ret tt (set_frames (<[t := <[k := e]> f]> (frames s)) s)
      else Faulted
  | None => Faulted
  end.

(** [memset (p, 0, 4096)] *)
Definition clear_frame (t : Z) : M (ptstate H) unit :=
  modify (λ s, set_frames (<[t := zero_frame]> (frames s)) s).

Definition on_mem {A} (m : M H A) : M (ptstate H) A :=
  zoom mem (λ h s, mk_pt (frames s) (cr3 s) h) m.

(** The two halves of map_page_p2v: the table entry [k] of [t] points to, made on
    demand; [None] is the return of E_NOMEM. *)
Definition next_table (t : Z) (k : nat) : M (ptstate H) (option Z) :=
  e ← read_entry t k;
  let p := base_of e in
  if p =? 0 then
    p ← on_mem ms_block;
    ASSERT (p .& 0xfff =? 0) ;;
    if p =? 0 then mret None
    else
      clear_frame p ;;
      write_entry t k (p .| PTE_P .| PTE_W .| PTE_U) ;;
      mret (Some p)
  else mret (Some p).

Definition map_page_p2v (paddr vaddr flag : Z) : M (ptstate H) err :=
  ASSERT (paddr .& 0xfff =? 0) ;;
  ASSERT (flag .& -0x1000 =? 0) ;;
  let i := pml4_index vaddr in
  let j := pdp_index vaddr in
  let k := pd_index vaddr in
  p_pdp ← next_table (pml4 st) i;
  match p_pdp with
  | None => mret E_NOMEM
  | Some p_pdp =>
      pd ← next_table p_pdp j;
      match pd with
      | None => mret E_NOMEM
      | Some pd => write_entry pd k (paddr .| flag) ;; mret OK
      end
  end.

Definition map_page_p2v_rw (paddr vaddr : Z) : M (ptstate H) err :=
  map_page_p2v paddr vaddr (PTE_P .| PTE_W .| PTE_PS).

(** get_pte_with_addr: the address of the entry, 0 when a table is missing. *)
Definition get_pte_with_addr (addr : Z) : M (ptstate H) Z :=
  c ← gets cr3;
  let pml4base := base_of c in
  e ← read_entry pml4base (pml4_index addr);
  let p_pdp := base_of e in
  if p_pdp =? 0 then mret 0 else
  e ← read_entry p_pdp (pdp_index addr);
  let p_pd := base_of e in
  if p_pd =? 0 then mret 0 else
  mret (p_pd + 8 * Z.of_nat (pd_index addr)).

(** [*pte] *)
Definition read_pte (pte : Z) : M (ptstate H) Z :=
  read_entry (base_of pte) (Z.to_nat ((pte .& 0xfff) / 8)).

(** ioremap_nocache; the loop counter [added] goes up by PAGE_SIZE while [added <= size]. *)
Fixpoint ioremap_loop (fuel : nat) (added size paddr : Z) : M (ptstate H) unit :=
  if size <? added then mret tt else
  match fuel with
  | O => out_of_fuel
  | S fuel =>
      map_page_p2v paddr (u64 (paddr + IO_MEM_BASE))
        (PTE_P .| PTE_W .| PTE_PWT .| PTE_PCD .| PTE_PS) ;;
      ioremap_loop fuel (u64 (added + PAGE_SIZE)) size (u64 (paddr + PAGE_SIZE))
  end.

Definition ioremap_nocache (fuel : nat) (addr size : Z) : M (ptstate H) Z :=
  let paddr := addr .& u64 (Z.lnot (PAGE_SIZE - 1)) in
  let size := u64 (size + (addr - paddr)) in
  ioremap_loop fuel 0 size paddr ;;
  mret (u64 (addr + IO_MEM_BASE)).

(** [first_pd.pde[i] = (i + n * PD_PER_PTE) * PAGE_SIZE | PTE_PS | PTE_W | PTE_P]: the arithmetic is
    on [int], so the product wraps around at 2^31, and the result is extended
    with its sign. *)
Definition boot_pde (n i : nat) : Z :=
  u64 (s32 ((Z.of_nat i + Z.of_nat n * PD_PER_PTE) * PAGE_SIZE) .| PTE_PS .| PTE_W .| PTE_P).

(** The identity mapping of the memory above 4 GiB. *)
Fixpoint map_high (fuel : nat) (addr max : Z) : M (ptstate H) unit :=
  if u64 (addr + PAGE_SIZE) <? max then
    match fuel with
    | O => out_of_fuel
    | S fuel =>
        r ← map_page_p2v addr addr (PTE_PS .| PTE_P .| PTE_W);
        if decide (r = OK) then map_high fuel (u64 (addr + PAGE_SIZE)) max else panic
    end
  else mret tt.

Definition init_pml4 (max_phy_mem_addr : Z) : M (ptstate H) unit :=
  clear_frame (pml4 st) ;;
  clear_frame (first_pdp st) ;;
  ASSERT (pml4 st .& 0xfff =? 0) ;;
  ASSERT (first_pdp st .& 0xfff =? 0) ;;
  ASSERT (first_pd st .& 0xfff =? 0) ;;
  write_entry (pml4 st) 0 (first_pdp st .| PTE_P .| PTE_W) ;;
  write_entry (first_pdp st) 0 (first_pd st .| PTE_P .| PTE_W) ;;
  write_entry (first_pdp st) 1 (second_pd st .| PTE_P .| PTE_W) ;;
  write_entry (first_pdp st) 2 (third_pd st .| PTE_P .| PTE_W) ;;
  write_entry (first_pdp st) 3 (fourth_pd st .| PTE_P .| PTE_W) ;;
  for_range 512 0 (λ i,
    write_entry (first_pd st) i (boot_pde 0 i) ;;
    write_entry (second_pd st) i (boot_pde 1 i) ;;
    write_entry (third_pd st) i (boot_pde 2 i) ;;
    write_entry (fourth_pd st) i (boot_pde 3 i)) ;;
  (if NUMBER_4G <? max_phy_mem_addr then
     map_high (Z.to_nat ((max_phy_mem_addr - NUMBER_4G) / PAGE_SIZE)) NUMBER_4G max_phy_mem_addr
   else mret tt) ;;
  modify (λ s, mk_pt (frames s) (pml4 st) (mem s)).

Definition init_pgtable_ap : M (ptstate H) unit :=
  modify (λ s, mk_pt (frames s) (pml4 st) (mem s)).

(** ** The translation the processor makes *)

Definition entry s (t : Z) (k : nat) : option Z := frames s !! t ≫= λ f, f !! k.

(** An upper-level entry that is present gives the next table. *)
Definition next s (t : Z) (k : nat) : option Z :=
  e ← entry s t k; if Z.testbit e 0 then Some (base_of e) else None.

Definition mmu s (v : Z) : option Z :=
  p ← next s (pml4 st) (pml4_index v);
  d ← next s p (pdp_index v);
  e ← entry s d (pd_index v);
  if Z.testbit e 0 then Some (phys_of e + v mod PAGE_SIZE) else None.

(** ** Well-formed tables *)

Inductive tid := Root | Pdp (i : nat) | Pd (i j : nat).

#[export] Instance tid_eq_dec : EqDecision tid.
Proof. solve_decision. Defined.

Definition table s (t : tid) : option Z :=
  match t with
  | Root => Some (pml4 st)
  | Pdp i => next s (pml4 st) i
  | Pd i j => p ← next s (pml4 st) i; next s p j
  end.

(** The upper entries are 0 or a present pointer. *)
Definition upper_ok (e : Z) : Prop := e = 0 ∨ (base_of e ≠ 0 ∧ Z.testbit e 0 = true).

Definition upper (t : tid) : bool := match t with Pd _ _ => false | _ => true end.

Record pt_ok s : Prop := {
  pt_inj : ∀ t1 t2 a, table s t1 = Some a → table s t2 = Some a → t1 = t2;
  pt_frame : ∀ t a, table s t = Some a → ∃ f, frames s !! a = Some f ∧ length f = 512%nat;
  pt_upper : ∀ t a k e, table s t = Some a → upper t = true → entry s a k = Some e → upper_ok e;
  pt_owned : ∀ t a x, table s t = Some a → a ≤ x < a + 0x1000 → ¬ ms_free (mem s) x;
  pt_mem : ms_inv (mem s)
}.

Lemma entry_lookup s t f k : frames s !! t = Some f → entry s t k = f !! k.
Proof. intros E. unfold entry. by rewrite E. Qed.

Lemma read_entry_run s t k e : entry s t k = Some e → read_entry t k s = Ret e s.
Proof. unfold read_entry, entry. by intros ->. Qed.

Lemma write_entry_run s t k e f :
  frames s !! t = Some f → (k < length f)%nat →
  write_entry t k e s = Ret tt (set_frames (<[t := <[k := e]> f]> (frames s)) s).
Proof. intros E Hk. unfold write_entry. by rewrite E, decide_True. Qed.

Lemma entry_write s t k e f t' k' :
  frames s !! t = Some f → (k < length f)%nat →
  entry (set_frames (<[t := <[k := e]> f]> (frames s)) s) t' k' =
    if decide (t' = t ∧ k' = k) then Some e else entry s t' k'.
Proof.
  intros E Hk. unfold entry. simpl. destruct (decide (t' = t)) as [->|Ht].
  - rewrite lookup_insert_eq, E. simpl. destruct (decide (k' = k)) as [->|Hne].
    + rewrite decide_True by done. by apply list_lookup_insert_eq.
    + rewrite decide_False by naive_solver. by apply list_lookup_insert_ne.
  - rewrite lookup_insert_ne by done. by rewrite decide_False by naive_solver.
Qed.

Lemma entry_clear s t t' k' :
  entry (set_frames (<[t := zero_frame]> (frames s)) s) t' k' =
    if decide (t' = t) then (if decide (k' < 512)%nat then Some 0 else None) else entry s t' k'.
Proof.
  unfold entry. simpl. case_decide as E.
  - subst. rewrite lookup_insert_eq. apply zero_frame_lookup.
  - by rewrite lookup_insert_ne.
Qed.

Lemma table_some_entry s t a k : pt_ok s → table s t = Some a → (k < 512)%nat →
  ∃ e, entry s a k = Some e.
Proof.
  intros Hok Ht Hk. destruct (pt_frame _ Hok _ _ Ht) as (f & E & Hl).
  rewrite (entry_lookup _ _ _ _ E). apply lookup_lt_is_Some_2. lia.
Qed.

Lemma next_entry s t a k e :
  pt_ok s → table s t = Some a → upper t = true → entry s a k = Some e →
  next s a k = if base_of e =? 0 then None else Some (base_of e).
Proof.
  intros Hok Ht Hu He. unfold next. rewrite He. cbn [mbind option_bind].
  destruct (pt_upper _ Hok _ _ _ _ Ht Hu He) as [->|[Hb ->]]; [done|].
  by destruct (Z.eqb_spec (base_of e) 0).
Qed.

(** The tables depend on the entries of the upper tables only. *)
Lemma table_ext s s' :
  (∀ t a k, table s t = Some a → upper t = true → entry s' a k = entry s a k) →
  ∀ t, table s' t = table s t.
Proof.
  intros He.
  assert (∀ i, next s' (pml4 st) i = next s (pml4 st) i) as H1.
  { intros i. unfold next. by rewrite (He Root (pml4 st)). }
  intros [|i|i j]; simpl; [done|apply H1|]. rewrite H1.
  destruct (next s (pml4 st) i) as [p|] eqn:Ep; [|done]. simpl. unfold next.
  by rewrite (He (Pdp i) p).
Qed.

Definition leaf (e v : Z) : option Z :=
  if Z.testbit e 0 then Some (phys_of e + v mod PAGE_SIZE) else None.

Lemma mmu_table s v :
  mmu s v = (d ← table s (Pd (pml4_index v) (pdp_index v)); e ← entry s d (pd_index v); leaf e v).
Proof. unfold mmu, table. by destruct (next s (pml4 st) (pml4_index v)). Qed.

(** Writing an entry of a last-level table. *)
Lemma write_leaf s i j d k e :
  pt_ok s → table s (Pd i j) = Some d → (k < 512)%nat →
  ∃ s', write_entry d k e s = Ret tt s' ∧ pt_ok s' ∧ cr3 s' = cr3 s ∧ mem s' = mem s ∧
    ∀ v, mmu s' v = if decide (slot v = (i, j, k)) then leaf e v else mmu s v.
Proof.
  intros Hok Ht Hk. destruct (pt_frame _ Hok _ _ Ht) as (f & Ef & Hl).
  set (s' := set_frames (<[d := <[k := e]> f]> (frames s)) s).
  assert (∀ t' k', entry s' t' k' = if decide (t' = d ∧ k' = k) then Some e else entry s t' k') as He.
  { intros. apply entry_write; [done|lia]. }
  assert (∀ t a, table s t = Some a → t ≠ Pd i j → a ≠ d) as Hne.
  { intros t a Ha Htd ->. by apply Htd, (pt_inj _ Hok t (Pd i j) d). }
  assert (∀ t, table s' t = table s t) as Htab.
  { apply table_ext. intros t a k' Ha Hu. rewrite He, decide_False; [done|].
    intros [-> _]. apply (Hne t d Ha); [|done]. by intros ->. }
  exists s'. split; [apply write_entry_run; [done|lia]|]. split; [|split; [done|split; [done|]]].
  - split.
    + intros t1 t2 a. rewrite !Htab. apply Hok.
    + intros t a. rewrite Htab. intros Ha. destruct (pt_frame _ Hok _ _ Ha) as (g & Eg & Hg).
      simpl. destruct (decide (a = d)) as [->|].
      * rewrite lookup_insert_eq. eexists. split; [done|]. by rewrite length_insert.
      * rewrite lookup_insert_ne by done. eauto.
    + intros t a k' e'. rewrite Htab, He. intros Ha Hu. rewrite decide_False; [by apply Hok with t|].
      intros [-> _]. apply (Hne t d Ha); [|done]. by intros ->.
    + intros t a x. rewrite Htab. apply Hok.
    + apply Hok.
  - intros v. rewrite !mmu_table, Htab. unfold slot. case_decide as Hs.
    + simplify_eq. rewrite Ht. simpl. by rewrite He, decide_True.
    + destruct (table s (Pd (pml4_index v) (pdp_index v))) as [d'|] eqn:Ed; [|done]. simpl.
      rewrite He, decide_False; [done|]. intros [-> Ek]. apply Hs.
      pose proof (pt_inj _ Hok _ _ _ Ed Ht). congruence.
Qed.

(** ** Making a table on demand *)

Definition child (t : tid) (k : nat) : tid :=
  match t with Root => Pdp k | Pdp i => Pd i k | Pd i _ => Pdp i end.

Lemma table_child s t a k :
  table s t = Some a → upper t = true → table s (child t k) = next s a k.
Proof. destruct t; simpl; [by intros [= ->]|by intros ->|done]. Qed.

(** The memory after the table [p] is cleared and entry [k] of [a] points to it. *)
Definition linked s (a : Z) (k : nat) (p : Z) (s' : ptstate H) : Prop :=
  ∀ t' k', entry s' t' k' =
    if decide (t' = a ∧ k' = k) then Some (p + 7)
    else if decide (t' = p) then (if decide (k' < 512)%nat then Some 0 else None)
    else entry s t' k'.

Lemma next_zero s p k : (∀ e, entry s p k = Some e → e = 0) → next s p k = None.
Proof. intros Hz. unfold next. destruct (entry s p k); [|done]. simpl. by rewrite (Hz _ eq_refl). Qed.

Section link.
Context s (t : tid) (a : Z) (k : nat) (p : Z) (s' : ptstate H).
Context (Hok : pt_ok s) (Ht : table s t = Some a) (Hu : upper t = true).
Context (Hk : (k < 512)%nat) (Hnone : next s a k = None).
Context (Hfresh : ∀ x, table s x ≠ Some p) (Hp : p ≠ 0) (Hal : aligned 0x1000 p).
Context (Hl : linked s a k p s').

Lemma link_ap : a ≠ p.
Proof. intros ->. by apply (Hfresh t). Qed.

Lemma link_same x b k' : table s x = Some b → x ≠ t → entry s' b k' = entry s b k'.
Proof.
  intros Hx Hne. rewrite Hl, decide_False, decide_False; [done| |].
  - intros ->. by apply (Hfresh x).
  - intros [-> _]. by apply Hne, (pt_inj _ Hok x t a).
Qed.

Lemma link_other k' : k' ≠ k → entry s' a k' = entry s a k'.
Proof.
  intros Hne. rewrite Hl, decide_False, decide_False; [done|apply link_ap|naive_solver].
Qed.

Lemma link_new : next s' a k = Some p.
Proof.
  unfold next. rewrite Hl, decide_True by done. cbn [mbind option_bind]. rewrite base_of_add by (done || lia).
  assert (Z.testbit (p + 7) 0 = true) as ->; [|done].
  rewrite Z.bit0_odd, Z.odd_add. unfold aligned in Hal.
  pose proof (Z.div_mod p 0x1000) as E. replace p with (2 * (p / 0x1000 * 0x800)) by lia.
  by rewrite Z.odd_mul.
Qed.

Lemma link_zero k' : next s' p k' = None.
Proof.
  apply next_zero. intros e. rewrite Hl, decide_False, decide_True; [|done|].
  - case_decide; by intros [= <-].
  - intros [? _]. by apply link_ap.
Qed.

Lemma next_same b k' : entry s' b k' = entry s b k' → next s' b k' = next s b k'.
Proof. unfold next. by intros ->. Qed.

Lemma link_table_root x :
  t = Root → table s' x = if decide (x = child t k) then Some p else table s x.
Proof.
  intros Et. assert (pml4 st = a) as Ea by (pose proof Ht as Ht'; rewrite Et in Ht'; by injection Ht').
  rewrite Et. destruct x as [|i|i j]; cbn [table child]; rewrite ?Ea.
  - by rewrite decide_False.
  - case_decide as Hi; [injection Hi as ->; apply link_new|].
    apply next_same, link_other. congruence.
  - rewrite decide_False by done. destruct (decide (i = k)) as [->|Hi].
    + rewrite link_new, Hnone. apply link_zero.
    + rewrite (next_same _ _ (link_other _ Hi)).
      destruct (next s a i) as [q|] eqn:Eq; [|done].
      apply next_same, (link_same (Pdp i)); [cbn; by rewrite Ea|congruence].
Qed.

Lemma link_table_pdp i0 x :
  t = Pdp i0 → table s' x = if decide (x = child t k) then Some p else table s x.
Proof.
  intros Et. pose proof Ht as Ht'. rewrite Et in Ht' |- *. cbn [table child] in Ht' |- *.
  assert (∀ i, next s' (pml4 st) i = next s (pml4 st) i) as H1.
  { intros i. apply next_same, (link_same Root); [done|congruence]. }
  destruct x as [|i|i j]; cbn iota; [by rewrite decide_False| |].
  - rewrite decide_False by done. apply H1.
  - cbn [table]. rewrite H1. destruct (decide (i = i0)) as [->|Hi].
    + rewrite Ht'. cbn [mbind option_bind]. case_decide as Hj; [injection Hj as ->; apply link_new|].
      apply next_same, link_other. congruence.
    + rewrite decide_False by congruence.
      destruct (next s (pml4 st) i) as [q|] eqn:Eq; [|done]. simpl.
      apply next_same, (link_same (Pdp i)); [done|congruence].
Qed.

Lemma link_table x : table s' x = if decide (x = child t k) then Some p else table s x.
Proof.
  assert (t = Root ∨ ∃ i0, t = Pdp i0) as [Et|[i0 Et]] by (clear -Hu; destruct t; naive_solver).
  - by apply link_table_root.
  - by apply (link_table_pdp i0).
Qed.

Lemma link_child_none : table s (child t k) = None.
Proof. by rewrite (table_child _ _ _ _ Ht Hu). Qed.

Lemma link_mmu v : mmu s' v = mmu s v.
Proof.
  rewrite !mmu_table, link_table. case_decide as Hc.
  - rewrite Hc, link_child_none. simpl.
    destruct (entry s' p (pd_index v)) as [e|] eqn:He; [|done]. simpl.
    rewrite Hl, decide_False, decide_True in He; [|done|intros [? _]; by apply link_ap].
    case_decide; [|done]. by injection He as <-.
  - destruct (table s (Pd (pml4_index v) (pdp_index v))) as [d|] eqn:Ed; [|done]. simpl.
    rewrite (link_same _ _ _ Ed); [done|]. intros E. rewrite <- E in Hu. done.
Qed.

Lemma link_ok :
  (∀ b f, frames s !! b = Some f → length f = 512%nat → b ≠ p →
     ∃ f', frames s' !! b = Some f' ∧ length f' = 512%nat) →
  (∃ f', frames s' !! p = Some f' ∧ length f' = 512%nat) →
  ms_inv (mem s') → (∀ x, ms_free (mem s') x → ms_free (mem s) x) →
  (∀ x, p ≤ x < p + 0x1000 → ¬ ms_free (mem s') x) →
  pt_ok s'.
Proof.
  intros Hf Hfp Hinv Hfr Hnew. split.
  - intros t1 t2 b. rewrite !link_table. do 2 case_decide; intros E1 E2; subst; try done;
      simplify_eq; try (by apply Hfresh in E1); try (by apply Hfresh in E2).
    by apply (pt_inj _ Hok t1 t2 b).
  - intros x b. rewrite link_table. case_decide; [by intros [= <-]|]. intros Hb.
    destruct (pt_frame _ Hok _ _ Hb) as (f & Ef & Elen). apply (Hf _ _ Ef Elen).
    intros ->. by apply (Hfresh x).
  - intros x b k' e. rewrite link_table, Hl. case_decide as Hx; intros Hb Hux He.
    + injection Hb as <-. rewrite decide_False in He by (intros [? _]; by apply link_ap).
      rewrite decide_True in He by done. case_decide; [|done]. left. congruence.
    + case_decide as Hc.
      * right. injection He as <-. rewrite base_of_add by (done || lia). split; [done|].
        pose proof link_new as Hn. unfold next in Hn. rewrite Hl, decide_True in Hn by done.
        cbn [mbind option_bind] in Hn. by destruct (Z.testbit (p + 7) 0).
      * rewrite decide_False in He by (intros ->; by apply (Hfresh x)).
        by apply (pt_upper _ Hok x b k').
  - intros x b y. rewrite link_table. case_decide; [intros [= <-]; apply Hnew|].
    intros Hb Hy Hfy. apply (pt_owned _ Hok x b y Hb Hy). by apply Hfr.
  - done.
Qed.

End link.

(** The register stays, and nothing becomes free. *)
Definition evolves s s' : Prop :=
  cr3 s' = cr3 s ∧ ∀ x, ms_free (mem s') x → ms_free (mem s) x.

Lemma evolves_trans s1 s2 s3 : evolves s1 s2 → evolves s2 s3 → evolves s1 s3.
Proof. intros [E1 F1] [E2 F2]. split; [congruence|auto]. Qed.

Lemma pt_ok_mem s h :
  pt_ok s → ms_inv h → (∀ x, ms_free h x → ms_free (mem s) x) →
  pt_ok (mk_pt (frames s) (cr3 s) h).
Proof.
  intros [Hi Hf Hu Ho Hm] Hh Hfr.
  assert (∀ t, table (mk_pt (frames s) (cr3 s) h) t = table s t) as Et by by apply table_ext.
  split; simpl.
  - intros t1 t2 a. rewrite !Et. apply Hi.
  - intros t a. rewrite Et. apply Hf.
  - intros t a k e. rewrite Et. apply Hu.
  - intros t a x. rewrite Et. intros Ha Hx Hfx. apply (Ho t a x Ha Hx). by apply Hfr.
  - done.
Qed.

(** A fresh block is none of the tables. *)
Lemma block_fresh s a h :
  pt_ok s → handed_out ms_inv ms_free 0x1000 (2 ^ 64) (mem s) a h → a ≠ 0 → ∀ t, table s t ≠ Some a.
Proof.
  intros Hok (_ & _ & [?|(_ & _ & _ & Hb)]) Ha t Ht; [done|].
  apply (pt_owned _ Hok t a a Ht); [lia|]. apply Hb. lia.
Qed.

Lemma link_run s t a k p h :
  pt_ok s → table s t = Some a → upper t = true → (k < 512)%nat → next s a k = None →
  handed_out ms_inv ms_free 0x1000 (2 ^ 64) (mem s) p h → p ≠ 0 →
  ∃ s', (clear_frame p ;; write_entry a k (p .| PTE_P .| PTE_W .| PTE_U) ;; mret (Some p))
          (mk_pt (frames s) (cr3 s) h) = Ret (Some p) s' ∧
    pt_ok s' ∧ evolves s s' ∧ (∀ v, mmu s' v = mmu s v) ∧ table s' (child t k) = Some p ∧
    ∀ x b, table s x = Some b → table s' x = Some b.
Proof.
  intros Hok Ht Hu Hk Hn Hh Hp. pose proof (block_fresh _ _ _ Hok Hh Hp) as Hfresh.
  destruct Hh as (Hinv & Hfr & [?|(_ & _ & Hal & Hby)]); [done|].
  destruct (pt_frame _ Hok _ _ Ht) as (f & Ef & Elen).
  assert (a ≠ p) as Hap by (intros ->; by apply (Hfresh t)).
  set (s1 := set_frames (<[p := zero_frame]> (frames s)) (mk_pt (frames s) (cr3 s) h)).
  assert (frames s1 !! a = Some f) as Ef1 by (simpl; by rewrite lookup_insert_ne).
  assert (p .| PTE_P .| PTE_W .| PTE_U = p + 7) as Efl.
  { rewrite <- !Z.lor_assoc. apply (lor_flags 12); [lia|done|by split]. }
  set (s2 := set_frames (<[a := <[k := p + 7]> f]> (frames s1)) s1).
  assert (linked s a k p s2) as Hl.
  { intros t' k'. unfold s2. rewrite (entry_write s1 a k (p + 7) f t' k' Ef1) by lia.
    case_decide; [done|]. exact (entry_clear s p t' k'). }
  exists s2. split.
  { erewrite bind_ret by reflexivity. rewrite Efl.
    erewrite bind_ret by (apply (write_entry_run s1 a k (p + 7) f); [done|lia]). done. }
  split; [|split; [by split|split; [|split]]].
  - eapply (link_ok s t a k p s2); try done.
    + intros b g Eb Hg Hbp. simpl. destruct (decide (b = a)) as [->|].
      * rewrite lookup_insert_eq. eexists. split; [done|]. rewrite length_insert. congruence.
      * rewrite !lookup_insert_ne by done. eauto.
    + simpl. rewrite lookup_insert_ne, lookup_insert_eq by done. eexists. split; [done|].
      apply zero_frame_len.
    + intros x Hx. by apply Hby.
  - by apply (link_mmu s t a k p s2).
  - by rewrite (link_table s t a k p s2), decide_True.
  - intros x b Hx. rewrite (link_table s t a k p s2) by done. case_decide as Hc; [|done].
    rewrite Hc, (table_child _ _ _ _ Ht Hu), Hn in Hx. done.
Qed.

Lemma next_table_spec s t a k :
  pt_ok s → table s t = Some a → upper t = true → (k < 512)%nat →
  match next_table a k s with
  | Ret r s' =>
      pt_ok s' ∧ evolves s s' ∧ (∀ v, mmu s' v = mmu s v) ∧
      (∀ x b, table s x = Some b → table s' x = Some b) ∧
      match r with Some p => table s' (child t k) = Some p | None => True end
  | Panicked => True
  | _ => False
  end.
Proof.
  intros Hok Ht Hu Hk. destruct (table_some_entry _ _ _ _ Hok Ht Hk) as [e He].
  pose proof (next_entry _ _ _ _ _ Hok Ht Hu He) as Hn.
  unfold next_table. rewrite (bind_ret _ _ _ _ _ (read_entry_run _ _ _ _ He)). cbv zeta.
  destruct (Z.eqb_spec (base_of e) 0) as [Hb|Hb].
  - unfold mbind at 1, M_bind at 1, on_mem, zoom.
    pose proof (ms_block_ok _ (pt_mem _ Hok)) as Hms.
    destruct (ms_block (mem s)) as [p h| | | | |]; try done.
    destruct (Z.eqb_spec p 0) as [->|Hp].
    + simpl. destruct Hms as (Hinv & Hfr & _). split; [by apply pt_ok_mem|]. split; [by split|]. done.
    + pose proof Hms as (_ & _ & [?|(_ & _ & Hal & _)]); [done|].
      assert (p .& 0xfff = 0) as Hm by (change 0xfff with (2 ^ 12 - 1); by rewrite land_mask).
      unfold mbind at 1, M_bind at 1, ASSERT. rewrite Hm. cbn [Z.eqb].
      destruct (link_run _ _ _ _ _ _ Hok Ht Hu Hk Hn Hms Hp) as (s' & -> & ? & ? & ? & ? & ?). done.
  - rewrite <- (table_child _ _ _ _ Ht Hu) in Hn. split; [done|]. split; [by split|]. done.
Qed.

(** ** map_page_p2v *)

(** The outcome of mapping [paddr] at [vaddr] with an entry value [e]. *)
Definition mapped s (vaddr e : Z) (r : outcome (ptstate H) err) : Prop :=
  match r with
  | Ret OK s' =>
      pt_ok s' ∧ evolves s s' ∧
      ∀ v, mmu s' v = if decide (slot v = slot vaddr) then leaf e v else mmu s v
  | Ret E_NOMEM s' => pt_ok s' ∧ evolves s s' ∧ ∀ v, mmu s' v = mmu s v
  | Panicked => True
  | _ => False
  end.

Lemma map_page_spec s paddr vaddr flag :
  pt_ok s → aligned 0x1000 paddr → 0 ≤ flag < 0x1000 →
  mapped s vaddr (paddr + flag) (map_page_p2v paddr vaddr flag s).
Proof.
  intros Hok Hp Hf. unfold map_page_p2v.
  assert (paddr .& 0xfff = 0) as E1 by (change 0xfff with (2 ^ 12 - 1); by rewrite land_mask).
  assert (flag .& -0x1000 = 0) as E2.
  { change (-0x1000) with (- 2 ^ 12). rewrite land_not_mask, Z.mod_small by lia. lia. }
  erewrite bind_ret by (unfold ASSERT; rewrite E1; reflexivity).
  erewrite bind_ret by (unfold ASSERT; rewrite E2; reflexivity). cbv zeta.
  pose proof (next_table_spec s Root (pml4 st) (pml4_index vaddr) Hok eq_refl eq_refl
                (index_lt _ _ ltac:(done))) as H1.
  unfold mbind at 1, M_bind at 1.
  destruct (next_table (pml4 st) (pml4_index vaddr) s) as [[pdp|] s1| | | | |]; try done.
  2:{ destruct H1 as (? & ? & ? & _). done. }
  destruct H1 as (Hok1 & Hc1 & Hm1 & _ & Ht1).
  pose proof (next_table_spec s1 (Pdp (pml4_index vaddr)) pdp (pdp_index vaddr) Hok1 Ht1 eq_refl
                (index_lt _ _ ltac:(done))) as H2.
  unfold mbind at 1, M_bind at 1.
  destruct (next_table pdp (pdp_index vaddr) s1) as [[pd|] s2| | | | |]; try done.
  2:{ destruct H2 as (? & ? & Hm2 & _). split; [done|]. split; [by eapply evolves_trans|].
      intros v. by rewrite Hm2. }
  destruct H2 as (Hok2 & Hc2 & Hm2 & _ & Ht2).
  destruct (write_leaf s2 _ _ pd (pd_index vaddr) (paddr .| flag) Hok2 Ht2 (index_lt _ _ ltac:(done)))
    as (s3 & E3 & Hok3 & Hc3 & Hmem3 & Hm3).
  rewrite (bind_ret _ _ _ _ _ E3). split; [done|]. split.
  { apply (evolves_trans _ s2); [by eapply evolves_trans|]. split; [done|]. by rewrite Hmem3. }
  intros v. rewrite Hm3, (lor_flags 12) by (done || lia). fold (slot vaddr).
  case_decide; [done|]. by rewrite Hm2, Hm1.
Qed.


(** ** get_pte_with_addr *)

Lemma table_aligned s t a : t ≠ Root → table s t = Some a → aligned 0x1000 a.
Proof.
  assert (∀ b k c, next s b k = Some c → aligned 0x1000 c) as Hn.
  { intros b k c. unfold next. destruct (entry s b k) as [e|]; [|done]. cbn [mbind option_bind].
    destruct (Z.testbit e 0); [|done]. intros [= <-]. apply base_of_aligned. }
  destruct t as [|i|i j]; simpl; [done|by eauto|]. intros _.
  destruct (next s (pml4 st) i); [|done]. simpl. by apply Hn.
Qed.

Lemma next_nonzero s t a k c :
  pt_ok s → table s t = Some a → upper t = true → (k < 512)%nat → next s a k = Some c → c ≠ 0.
Proof.
  intros Hok Ht Hu Hk. destruct (table_some_entry _ _ _ k Hok Ht Hk) as [e He].
  rewrite (next_entry _ _ _ _ _ Hok Ht Hu He). destruct (Z.eqb_spec (base_of e) 0); congruence.
Qed.

Lemma read_pte_run s d k :
  aligned 0x1000 d → (k < 512)%nat → read_pte (d + 8 * Z.of_nat k) s = read_entry d k s.
Proof.
  intros Hd Hk. unfold read_pte. rewrite base_of_add by (done || lia).
  change 0xfff with (2 ^ 12 - 1). rewrite land_mask by lia. change (2 ^ 12) with 0x1000.
  unfold aligned in Hd. rewrite Zplus_mod, Hd, Z.add_0_l, Z.mod_mod, Z.mod_small by lia.
  rewrite Z.mul_comm, Z.div_mul by lia. by rewrite Nat2Z.id.
Qed.

(** get_pte_with_addr: it returns 0 only for an address that is not mapped; otherwise
    the address of the entry the processor uses for [v]. *)
Theorem get_pte_correct s v :
  pt_ok s → base_of (cr3 s) = pml4 st →
  ∃ a, get_pte_with_addr v s = Ret a s ∧
    ((a = 0 ∧ mmu s v = None) ∨
     (a ≠ 0 ∧ ∃ e, read_pte a s = Ret e s ∧ mmu s v = leaf e v)).
Proof.
  intros Hok Hc. unfold get_pte_with_addr. erewrite bind_ret by reflexivity. cbv zeta. rewrite Hc.
  destruct (table_some_entry s Root (pml4 st) (pml4_index v) Hok eq_refl (index_lt _ _ ltac:(done)))
    as [e1 He1].
  pose proof (next_entry s Root _ _ _ Hok eq_refl eq_refl He1) as Hn1.
  rewrite (bind_ret _ _ _ _ _ (read_entry_run _ _ _ _ He1)).
  destruct (Z.eqb_spec (base_of e1) 0) as [Hb1|Hb1].
  { exists 0. split; [done|]. left. split; [done|]. unfold mmu. by rewrite Hn1. }
  assert (table s (Pdp (pml4_index v)) = Some (base_of e1)) as Ht1 by exact Hn1.
  destruct (table_some_entry s _ _ (pdp_index v) Hok Ht1 (index_lt _ _ ltac:(done))) as [e2 He2].
  pose proof (next_entry s _ _ _ _ Hok Ht1 eq_refl He2) as Hn2.
  rewrite (bind_ret _ _ _ _ _ (read_entry_run _ _ _ _ He2)).
  destruct (Z.eqb_spec (base_of e2) 0) as [Hb2|Hb2].
  { exists 0. split; [done|]. left. split; [done|]. unfold mmu. rewrite Hn1. simpl. by rewrite Hn2. }
  assert (table s (Pd (pml4_index v) (pdp_index v)) = Some (base_of e2)) as Ht2.
  { simpl. rewrite Hn1. simpl. done. }
  assert (pd_index v < 512)%nat as Hk by by apply index_lt.
  destruct (table_some_entry s _ _ (pd_index v) Hok Ht2 Hk) as [e3 He3].
  pose proof (base_of_aligned e2) as Hal.
  eexists. split; [reflexivity|]. right. split.
  - unfold aligned in Hal. pose proof (Z.div_mod (base_of e2) 0x1000). lia.
  - exists e3. rewrite read_pte_run by done. split; [by apply read_entry_run|].
    rewrite mmu_table, Ht2. simpl. by rewrite He3.
Qed.

(** ** The boot mapping *)

(** The entries of the boot tables: the product fits an [int] for the first two
    GiB; above, the sign of the wrapped product fills the upper half. *)
Lemma boot_pde_low n i :
  (i < 512)%nat → (n < 2)%nat →
  boot_pde n i = (Z.of_nat i + Z.of_nat n * 512) * PAGE_SIZE + 0x83.
Proof.
  intros Hi Hn. unfold boot_pde, PD_PER_PTE. set (x := (Z.of_nat i + Z.of_nat n * 512) * PAGE_SIZE).
  assert (0 ≤ x ≤ 2 ^ 31 - PAGE_SIZE) as Hx by (unfold x, PAGE_SIZE; lia).
  assert (s32 x = x) as ->.
  { unfold s32, signed. rewrite wrap_id by (unfold in_u, PAGE_SIZE in *; lia).
    destruct (Z.ltb_spec x (2 ^ (32 - 1))); [done|]. unfold PAGE_SIZE in *; lia. }
  rewrite <- !Z.lor_assoc. change (PTE_PS .| (PTE_W .| PTE_P)) with 0x83.
  rewrite (lor_flags 21) by (lia || apply aligned_mul). apply u64_id.
  unfold in_u, PAGE_SIZE in *. lia.
Qed.

Lemma boot_pde_high n i :
  (i < 512)%nat → (2 ≤ n < 4)%nat →
  boot_pde n i = 2 ^ 64 - 2 ^ 32 + (Z.of_nat i + Z.of_nat n * 512) * PAGE_SIZE + 0x83.
Proof.
  intros Hi Hn. unfold boot_pde, PD_PER_PTE. set (x := (Z.of_nat i + Z.of_nat n * 512) * PAGE_SIZE).
  assert (2 ^ 31 ≤ x ≤ 2 ^ 32 - PAGE_SIZE) as Hx by (unfold x, PAGE_SIZE; lia).
  assert (s32 x = x - 2 ^ 32) as ->.
  { unfold s32, signed. rewrite wrap_id by (unfold in_u, PAGE_SIZE in *; lia).
    destruct (Z.ltb_spec x (2 ^ (32 - 1))); [|done]. lia. }
  rewrite <- !Z.lor_assoc. change (PTE_PS .| (PTE_W .| PTE_P)) with 0x83.
  rewrite (lor_flags 21); [|lia| |lia].
  - unfold u64, wrap. replace (x - 2 ^ 32 + 0x83) with (2 ^ 64 - 2 ^ 32 + x + 0x83 + (-1) * 2 ^ 64) by lia.
    rewrite Z.mod_add, Z.mod_small by (unfold PAGE_SIZE in *; lia). done.
  - change (2 ^ 32) with (2048 * 2 ^ 21). apply aligned_sub; apply aligned_mul.
Qed.

(** The frame [t] is there. *)
Definition full s (t : Z) : Prop := ∃ f, frames s !! t = Some f ∧ length f = 512%nat.

(** [s'] is [s] with the entries [g] gives changed. *)
Record wrote s (g : Z → nat → option Z) (s' : ptstate H) : Prop := {
  wr_entry : ∀ t k, entry s' t k = match g t k with Some e => Some e | None => entry s t k end;
  wr_full : ∀ t, full s t → full s' t;
  wr_mem : mem s' = mem s;
  wr_cr3 : cr3 s' = cr3 s
}.

Definition one (t : Z) (k : nat) (e : Z) : Z → nat → option Z :=
  λ t' k', if decide (t' = t ∧ k' = k) then Some e else None.

Definition orelse (g1 g2 : Z → nat → option Z) : Z → nat → option Z :=
  λ t k, match g2 t k with Some e => Some e | None => g1 t k end.

Lemma wrote_trans s1 s2 s3 g1 g2 : wrote s1 g1 s2 → wrote s2 g2 s3 → wrote s1 (orelse g1 g2) s3.
Proof.
  intros [E1 F1 M1 C1] [E2 F2 M2 C2]. split; [|auto|congruence|congruence].
  intros t k. rewrite E2, E1. unfold orelse. by destruct (g2 t k).
Qed.

Lemma wrote_ext s s' g g' : (∀ t k, g t k = g' t k) → wrote s g s' → wrote s g' s'.
Proof. intros E [E1 F1 M1 C1]. split; auto. intros t k. by rewrite E1, E. Qed.

Lemma write_one s t k e :
  full s t → (k < 512)%nat → ∃ s', write_entry t k e s = Ret tt s' ∧ wrote s (one t k e) s'.
Proof.
  intros (f & Ef & Hl) Hk. eexists. split; [apply (write_entry_run s t k e f Ef); lia|].
  split; [|..|done|done].
  - intros t' k'. rewrite (entry_write s t k e f t' k' Ef) by lia. unfold one. by case_decide.
  - intros t' (f' & Ef' & Hl'). unfold full. simpl. destruct (decide (t' = t)) as [->|].
    + rewrite lookup_insert_eq. eexists. split; [done|]. rewrite length_insert. congruence.
    + rewrite lookup_insert_ne by done. eauto.
Qed.

(** The entries the loop writes in rounds [i], ..., [i + n - 1]. *)
Definition boot_entries (i n : nat) : Z → nat → option Z := λ t k,
  if decide (i ≤ k < i + n)%nat then
    if decide (t = fourth_pd st) then Some (boot_pde 3 k)
    else if decide (t = third_pd st) then Some (boot_pde 2 k)
    else if decide (t = second_pd st) then Some (boot_pde 1 k)
    else if decide (t = first_pd st) then Some (boot_pde 0 k)
    else None
  else None.

Definition boot_body (i : nat) : M (ptstate H) unit :=
  write_entry (first_pd st) i (boot_pde 0 i) ;;
  write_entry (second_pd st) i (boot_pde 1 i) ;;
  write_entry (third_pd st) i (boot_pde 2 i) ;;
  write_entry (fourth_pd st) i (boot_pde 3 i).

Definition pds_full s : Prop :=
  full s (first_pd st) ∧ full s (second_pd st) ∧ full s (third_pd st) ∧ full s (fourth_pd st).

Lemma boot_body_spec s i :
  pds_full s → (i < 512)%nat →
  ∃ s', boot_body i s = Ret tt s' ∧ wrote s (boot_entries i 1) s'.
Proof.
  intros (F1 & F2 & F3 & F4) Hi. unfold boot_body.
  destruct (write_one s _ i (boot_pde 0 i) F1 Hi) as (s1 & E1 & W1).
  rewrite (bind_ret _ _ _ _ _ E1).
  destruct (write_one s1 _ i (boot_pde 1 i) (wr_full _ _ _ W1 _ F2) Hi) as (s2 & E2 & W2).
  rewrite (bind_ret _ _ _ _ _ E2). pose proof (wrote_trans _ _ _ _ _ W1 W2) as W12.
  destruct (write_one s2 _ i (boot_pde 2 i) (wr_full _ _ _ W12 _ F3) Hi) as (s3 & E3 & W3).
  rewrite (bind_ret _ _ _ _ _ E3). pose proof (wrote_trans _ _ _ _ _ W12 W3) as W13.
  destruct (write_one s3 _ i (boot_pde 3 i) (wr_full _ _ _ W13 _ F4) Hi) as (s4 & E4 & W4).
  exists s4. split; [done|]. eapply wrote_ext; [|exact (wrote_trans _ _ _ _ _ W13 W4)].
  intros t k. unfold orelse, one, boot_entries.
  destruct (decide (k = i)) as [->|Hk].
  - rewrite (decide_True (P := (i ≤ i < i + 1)%nat)) by lia.
    repeat case_decide; naive_solver.
  - rewrite (decide_False (P := (i ≤ k < i + 1)%nat)) by lia.
    repeat case_decide; naive_solver.
Qed.

Lemma boot_loop_spec n : ∀ s i,
  pds_full s → (i + n ≤ 512)%nat →
  ∃ s', for_range n i boot_body s = Ret tt s' ∧ wrote s (boot_entries i n) s'.
Proof.
  induction n as [|n IH]; intros s i Hf Hi.
  - exists s. split; [done|]. split; try done. intros t k. unfold boot_entries.
    by rewrite decide_False by lia.
  - destruct (boot_body_spec s i Hf ltac:(lia)) as (s1 & E1 & W1).
    cbn [for_range]. rewrite (bind_ret _ _ _ _ _ E1).
    assert (pds_full s1) as Hf1 by (destruct Hf as (? & ? & ? & ?); split_and!; by apply (wr_full _ _ _ W1)).
    destruct (IH s1 (S i) Hf1 ltac:(lia)) as (s2 & E2 & W2). exists s2. split; [done|].
    eapply wrote_ext; [|exact (wrote_trans _ _ _ _ _ W1 W2)].
    intros t k. unfold orelse, boot_entries.
    destruct (decide (S i ≤ k < S i + n)%nat), (decide (i ≤ k < i + 1)%nat),
      (decide (i ≤ k < i + S n)%nat); try lia; repeat case_decide; done.
Qed.

Definition pds : list Z := [first_pd st; second_pd st; third_pd st; fourth_pd st].

(** The static tables are six different 4 KiB frames (the linker gives
    .bss objects different addresses, and the declarations ask for the alignment), which the allocators
    do not own. *)
Record statics_ok s : Prop := {
  so_nodup : NoDup (pml4 st :: first_pdp st :: pds);
  so_al : Forall (λ a, aligned 0x1000 a ∧ a ≠ 0) (pml4 st :: first_pdp st :: pds);
  so_full : pds_full s;
  so_owned : Forall (λ a, ∀ x, a ≤ x < a + 0x1000 → ¬ ms_free (mem s) x) (pml4 st :: first_pdp st :: pds);
  so_mem : ms_inv (mem s)
}.

(** The entries after the static tables are filled. *)
Record boot_state s s' : Prop := {
  bs_pml4 : ∀ k, entry s' (pml4 st) k =
    if decide (k < 512)%nat then Some (if decide (k = 0%nat) then first_pdp st + 3 else 0) else None;
  bs_pdp : ∀ k, entry s' (first_pdp st) k =
    if decide (k < 512)%nat then Some (match pds !! k with Some d => d + 3 | None => 0 end) else None;
  bs_pd : ∀ m d k, pds !! m = Some d → (k < 512)%nat → entry s' d k = Some (boot_pde m k);
  bs_full : ∀ t, t ∈ pml4 st :: first_pdp st :: pds → full s' t;
  bs_mem : mem s' = mem s
}.

Section boot.
Context s s' (Hso : statics_ok s) (Hbs : boot_state s s').

Lemma boot_entry_flags a k t : a ∈ pml4 st :: first_pdp st :: pds → entry s' t k = Some (a + 3) →
  next s' t k = Some a ∧ upper_ok (a + 3).
Proof.
  intros Ha He. pose proof (so_al _ Hso) as Hal. rewrite list.Forall_forall in Hal.
  destruct (Hal _ Ha) as [Haa Ha0].
  assert (Z.testbit (a + 3) 0 = true) as Hb.
  { rewrite Z.bit0_odd, Z.odd_add. unfold aligned in Haa.
    pose proof (Z.div_mod a 0x1000). replace a with (2 * (a / 0x1000 * 0x800)) by lia.
    by rewrite Z.odd_mul. }
  assert (base_of (a + 3) = a) as Hbase by (apply base_of_add; [done|lia]).
  split; [|right; by rewrite Hbase, Hb]. unfold next. rewrite He. cbn [mbind option_bind].
  by rewrite Hb, Hbase.
Qed.

Lemma boot_pdp i : next s' (pml4 st) i = if decide (i = 0%nat) then Some (first_pdp st) else None.
Proof.
  pose proof (bs_pml4 _ _ Hbs i) as He. destruct (decide (i = 0%nat)) as [Hi|Hi].
  - subst i. rewrite decide_True in He by lia.
    apply (boot_entry_flags (first_pdp st)) in He as [? _]; [done|set_solver].
  - apply next_zero. intros e. rewrite He. case_decide; [|done]. by intros [= <-].
Qed.

Lemma boot_pd j : next s' (first_pdp st) j = pds !! j.
Proof.
  pose proof (bs_pdp _ _ Hbs j) as He. destruct (pds !! j) as [d|] eqn:Ed.
  - assert (j < 4)%nat by (apply lookup_lt_Some in Ed; done).
    rewrite decide_True in He by lia.
    apply (boot_entry_flags d) in He as [? _]; [done|].
    do 2 apply list_elem_of_further. by apply list_elem_of_lookup_2 in Ed.
  - apply next_zero. intros e. rewrite He. case_decide; [|done]. by intros [= <-].
Qed.

Lemma boot_table t a :
  table s' t = Some a ↔
  (t = Root ∧ a = pml4 st) ∨ (t = Pdp 0 ∧ a = first_pdp st) ∨ (∃ m, t = Pd 0 m ∧ pds !! m = Some a).
Proof.
  destruct t as [|i|i j]; cbn [table]; [naive_solver| |].
  - rewrite boot_pdp. case_decide; naive_solver.
  - rewrite boot_pdp. case_decide; cbn [mbind option_bind]; [rewrite boot_pd|]; naive_solver.
Qed.

(** The place of a table in the list of static tables. *)
Definition place (t : tid) : nat := match t with Root => 0 | Pdp _ => 1 | Pd _ m => S (S m) end.

Lemma boot_place t a : table s' t = Some a → (pml4 st :: first_pdp st :: pds) !! place t = Some a.
Proof. intros [[-> ->]|[[-> ->]|(m & -> & Hm)]]%boot_table; done. Qed.

Lemma boot_ok : pt_ok s'.
Proof.
  assert (∀ t a, table s' t = Some a → a ∈ pml4 st :: first_pdp st :: pds) as Hin.
  { intros t a Ha%boot_place. by eapply list_elem_of_lookup_2. }
  split.
  - intros t1 t2 a H1 H2. pose proof (boot_place _ _ H1) as P1. pose proof (boot_place _ _ H2) as P2.
    pose proof (NoDup_lookup _ _ _ _ (so_nodup _ Hso) P1 P2) as E.
    apply boot_table in H1 as [[-> _]|[[-> _]|(m & -> & _)]], H2 as [[-> _]|[[-> _]|(m' & -> & _)]];
      simpl in E; congruence.
  - intros t a Ha. by apply (bs_full _ _ Hbs), (Hin t).
  - intros t a k e Ha Hu He. apply boot_table in Ha as [[-> ->]|[[-> ->]|(m & -> & _)]]; [| |done].
    + pose proof He as He'. rewrite (bs_pml4 _ _ Hbs) in He'. case_decide; [|done].
      case_decide; injection He' as <-; [|by left].
      apply (boot_entry_flags (first_pdp st) k (pml4 st)); [set_solver|done].
    + pose proof He as He'. rewrite (bs_pdp _ _ Hbs) in He'. case_decide; [|done].
      destruct (pds !! k) as [d|] eqn:Ed; injection He' as <-; [|by left].
      apply (boot_entry_flags d k (first_pdp st)); [|done].
      do 2 apply list_elem_of_further. by apply list_elem_of_lookup_2 in Ed.
  - intros t a x Ha%Hin. rewrite (bs_mem _ _ Hbs). pose proof (so_owned _ Hso) as Ho.
    rewrite list.Forall_forall in Ho. by apply Ho.
  - rewrite (bs_mem _ _ Hbs). apply Hso.
Qed.

Lemma boot_index v :
  0 ≤ v < 2 ^ 32 →
  pml4_index v = 0%nat ∧ (pdp_index v < 4)%nat ∧ (pd_index v < 512)%nat ∧
  Z.of_nat (pd_index v) + Z.of_nat (pdp_index v) * 512 = v / PAGE_SIZE ∧
  ((pdp_index v < 2)%nat ↔ v < 2 ^ 31).
Proof.
  intros Hv. unfold pml4_index, pdp_index, pd_index. change PML4_NR with 512. change PD_PER_PTE with 512.
  rewrite !index_bits by done. unfold PML4_SHIFT, PDP_SHIFT, PD_SHIFT, PAGE_SIZE.
  change 0x200000 with (2 ^ 21).
  assert (v / 2 ^ 39 = 0) as -> by (apply Z.div_small; lia).
  assert (v / 2 ^ 30 = v / 2 ^ 21 / 512) as -> by (by rewrite Z.div_div).
  set (y := v / 2 ^ 21). assert (0 ≤ y < 2048) as Hy.
  { unfold y. split; [apply Z.div_pos; lia|apply Z.div_lt_upper_bound; lia]. }
  assert (v < 2 ^ 31 ↔ y < 1024) as Hh.
  { unfold y. pose proof (Z.div_mod v (2 ^ 21)). pose proof (Z.mod_pos_bound v (2 ^ 21)). lia. }
  assert (0 ≤ y / 512 < 4) by (split; [apply Z.div_pos; lia|apply Z.div_lt_upper_bound; lia]).
  rewrite (Z.mod_small (y / 512)) by lia.
  pose proof (Z.div_mod y 512). pose proof (Z.mod_pos_bound y 512). split_and!; try lia.
  done.
Qed.

Lemma boot_mmu v :
  0 ≤ v < 2 ^ 32 → mmu s' v = Some (if decide (v < 2 ^ 31) then v else v + 2 ^ 52 - 2 ^ 32).
Proof.
  intros Hv. destruct (boot_index v Hv) as (Ei & Hj & Hk & Epg & Hlow).
  destruct (lookup_lt_is_Some_2 pds (pdp_index v)) as [d Hd]; [done|].
  rewrite mmu_table. assert (table s' (Pd (pml4_index v) (pdp_index v)) = Some d) as ->.
  { apply boot_table. right. right. rewrite Ei. eauto. }
  cbn [mbind option_bind]. rewrite (bs_pd _ _ Hbs _ _ _ Hd Hk). cbn [mbind option_bind].
  assert (v = PAGE_SIZE * (v / PAGE_SIZE) + v mod PAGE_SIZE) as Ev by (by apply Z.div_mod).
  pose proof (Z.mod_pos_bound v PAGE_SIZE ltac:(done)) as Hm.
  set (q := v / PAGE_SIZE) in *. set (r := v mod PAGE_SIZE) in *. unfold leaf.
  case_decide as Hc.
  - rewrite boot_pde_low by (done || by apply Hlow). rewrite Epg, flag_bit0 by apply aligned_mul.
    rewrite phys_of_entry; [f_equal; lia|apply aligned_mul|unfold PAGE_SIZE in *; lia..].
  - rewrite boot_pde_high by (done || (split; [|done]; destruct (decide (pdp_index v < 2)%nat); tauto || lia)).
    rewrite Epg. set (e := 2 ^ 64 - 2 ^ 32 + q * PAGE_SIZE).
    assert (aligned PAGE_SIZE e) as He.
    { unfold e. apply aligned_add; [|apply aligned_mul]. reflexivity. }
    rewrite flag_bit0 by done. f_equal. unfold phys_of.
    assert ((e + 0x83) mod PAGE_SIZE = 0x83) as ->.
    { unfold aligned in He. by rewrite Zplus_mod, He. }
    assert ((e + 0x83) mod 2 ^ 52 = 2 ^ 52 - 2 ^ 32 + q * PAGE_SIZE + 0x83) as ->; [|lia].
    unfold e. replace (2 ^ 64 - 2 ^ 32 + q * PAGE_SIZE + 0x83)
      with (2 ^ 52 - 2 ^ 32 + q * PAGE_SIZE + 0x83 + 4095 * 2 ^ 52) by lia.
    rewrite Z.mod_add, Z.mod_small by (unfold PAGE_SIZE in *; lia). done.
Qed.

End boot.

(** The two cleared tables. *)
Lemma clear_two s t1 t2 :
  let s0 := set_frames (<[t2 := zero_frame]> (<[t1 := zero_frame]> (frames s))) s in
  (∀ t k, entry s0 t k = if decide (t = t1 ∨ t = t2) then
            (if decide (k < 512)%nat then Some 0 else None) else entry s t k) ∧
  (∀ t, full s t ∨ t = t1 ∨ t = t2 → full s0 t).
Proof.
  intros s0. split.
  - intros t k. change s0 with (set_frames (<[t2 := zero_frame]> (frames (set_frames (<[t1 := zero_frame]> (frames s)) s)))
      (set_frames (<[t1 := zero_frame]> (frames s)) s)).
    rewrite !entry_clear. repeat case_decide; naive_solver.
  - intros t Ht. unfold full, s0. simpl. destruct (decide (t = t2)) as [->|].
    + rewrite lookup_insert_eq. eexists. split; [done|apply zero_frame_len].
    + rewrite lookup_insert_ne by done. destruct (decide (t = t1)) as [->|].
      * rewrite lookup_insert_eq. eexists. split; [done|apply zero_frame_len].
      * rewrite lookup_insert_ne by done. destruct Ht as [(f & ? & ?)|[?|?]]; [eauto|done|done].
Qed.

(** The five entries of the upper static tables. *)
Definition upper_entries : Z → nat → option Z := λ t k,
  if decide (t = first_pdp st) then (λ d, d + 3) <$> pds !! k
  else if decide (t = pml4 st ∧ k = 0%nat) then Some (first_pdp st + 3) else None.

Lemma upper_writes {A} (m : M (ptstate H) A) s :
  full s (pml4 st) → full s (first_pdp st) → pml4 st ≠ first_pdp st →
  (∀ a, a ∈ first_pdp st :: pds → aligned 0x1000 a) →
  ∃ s', wrote s upper_entries s' ∧
    (write_entry (pml4 st) 0 (first_pdp st .| PTE_P .| PTE_W) ;;
     write_entry (first_pdp st) 0 (first_pd st .| PTE_P .| PTE_W) ;;
     write_entry (first_pdp st) 1 (second_pd st .| PTE_P .| PTE_W) ;;
     write_entry (first_pdp st) 2 (third_pd st .| PTE_P .| PTE_W) ;;
     write_entry (first_pdp st) 3 (fourth_pd st .| PTE_P .| PTE_W) ;; m) s = m s'.
Proof.
  intros Fp Fd Hne Hal.
  assert (∀ a, a ∈ first_pdp st :: pds → a .| PTE_P .| PTE_W = a + 3) as Hfl.
  { intros a Ha. rewrite <- !Z.lor_assoc. apply (lor_flags 12); [lia|by apply Hal|by split]. }
  unfold pds in Hfl. rewrite !Hfl by set_solver.
  destruct (write_one s _ 0 (first_pdp st + 3) Fp ltac:(lia)) as (s1 & E1 & W1).
  rewrite (bind_ret _ _ _ _ _ E1). pose proof (wr_full _ _ _ W1 _ Fd) as Fd1.
  destruct (write_one s1 _ 0 (first_pd st + 3) Fd1 ltac:(lia)) as (s2 & E2 & W2).
  rewrite (bind_ret _ _ _ _ _ E2). pose proof (wr_full _ _ _ W2 _ Fd1) as Fd2.
  destruct (write_one s2 _ 1 (second_pd st + 3) Fd2 ltac:(lia)) as (s3 & E3 & W3).
  rewrite (bind_ret _ _ _ _ _ E3). pose proof (wr_full _ _ _ W3 _ Fd2) as Fd3.
  destruct (write_one s3 _ 2 (third_pd st + 3) Fd3 ltac:(lia)) as (s4 & E4 & W4).
  rewrite (bind_ret _ _ _ _ _ E4). pose proof (wr_full _ _ _ W4 _ Fd3) as Fd4.
  destruct (write_one s4 _ 3 (fourth_pd st + 3) Fd4 ltac:(lia)) as (s5 & E5 & W5).
  rewrite (bind_ret _ _ _ _ _ E5). exists s5. split; [|done].
  eapply wrote_ext; [|exact (wrote_trans _ _ _ _ _ (wrote_trans _ _ _ _ _ (wrote_trans _ _ _ _ _
    (wrote_trans _ _ _ _ _ W1 W2) W3) W4) W5)].
  intros t k. unfold orelse, one, upper_entries. destruct (decide (t = first_pdp st)) as [->|Ht].
  - destruct k as [|[|[|[|k]]]]; simpl; repeat case_decide; naive_solver.
  - repeat case_decide; naive_solver.
Qed.

Lemma boot_entries_not_pd t i n k : t ∉ pds → boot_entries i n t k = None.
Proof. unfold pds, boot_entries. intros Ht. repeat case_decide; set_solver. Qed.

Lemma boot_entries_pd m d k :
  NoDup pds → pds !! m = Some d → (k < 512)%nat → boot_entries 0 512 d k = Some (boot_pde m k).
Proof.
  intros Hnd Hd Hk. unfold boot_entries. rewrite (decide_True (P := (0 ≤ k < 0 + 512)%nat)) by lia.
  assert (∀ m' d', pds !! m' = Some d' → d = d' → m = m') as Hinj.
  { intros m' d' Hd' <-. by apply (NoDup_lookup _ _ _ d Hnd). }
  assert (m < 4)%nat as Hm by (by apply lookup_lt_Some in Hd).
  pose proof (Hinj 0%nat _ eq_refl). pose proof (Hinj 1%nat _ eq_refl).
  pose proof (Hinj 2%nat _ eq_refl). pose proof (Hinj 3%nat _ eq_refl).
  destruct m as [|[|[|[|m]]]]; [..|lia]; injection Hd as <-;
    repeat (case_decide; [naive_solver|]); naive_solver.
Qed.

Lemma boot_state_intro s s0 s' :
  statics_ok s → mem s0 = mem s →
  (∀ t k, entry s0 t k = if decide (t = pml4 st ∨ t = first_pdp st) then
            (if decide (k < 512)%nat then Some 0 else None) else entry s t k) →
  (∀ t, full s t ∨ t = pml4 st ∨ t = first_pdp st → full s0 t) →
  wrote s0 (orelse upper_entries (boot_entries 0 512)) s' → boot_state s s'.
Proof.
  intros Hso Hmem E0 F0 W. pose proof (so_nodup _ Hso) as Hnd.
  apply list.NoDup_cons in Hnd as [Hn1 [Hn2 Hnd]%list.NoDup_cons].
  assert (pml4 st ≠ first_pdp st) as Hne by (intros E; apply Hn1; set_solver).
  split.
  - intros k. rewrite (wr_entry _ _ _ W). unfold orelse.
    rewrite boot_entries_not_pd by set_solver. unfold upper_entries.
    rewrite (decide_False (P := pml4 st = first_pdp st)) by done.
    rewrite E0, (decide_True (P := pml4 st = pml4 st ∨ _)) by auto.
    repeat case_decide; naive_solver lia.
  - intros k. rewrite (wr_entry _ _ _ W). unfold orelse.
    rewrite boot_entries_not_pd by set_solver. unfold upper_entries.
    rewrite (decide_True (P := first_pdp st = first_pdp st)) by done.
    rewrite E0, (decide_True (P := first_pdp st = pml4 st ∨ _)) by auto.
    destruct (pds !! k) as [d|] eqn:Ed; simpl; [|done].
    apply lookup_lt_Some in Ed. simpl in Ed. by rewrite decide_True by lia.
  - intros m d k Hd Hk. rewrite (wr_entry _ _ _ W). unfold orelse.
    by rewrite (boot_entries_pd m).
  - intros t Ht. apply (wr_full _ _ _ W), F0.
    apply elem_of_cons in Ht as [->|[->|Ht]%elem_of_cons]; [auto..|]. left.
    destruct (so_full _ Hso) as (? & ? & ? & ?). unfold pds in Ht. set_solver.
  - rewrite (wr_mem _ _ _ W). done.
Qed.

(** What init_pml4 does up to the loop over the memory above 4 GiB. *)
Lemma boot_run s max :
  statics_ok s →
  ∃ s', boot_state s s' ∧
    init_pml4 max s =
      ((if NUMBER_4G <? max then
          map_high (Z.to_nat ((max - NUMBER_4G) / PAGE_SIZE)) NUMBER_4G max
        else mret tt) ;;
       modify (λ s, mk_pt (frames s) (pml4 st) (mem s))) s'.
Proof.
  intros Hso. pose proof (so_al _ Hso) as Hal. rewrite list.Forall_forall in Hal.
  assert (∀ a, a ∈ pml4 st :: first_pdp st :: pds → (a .& 0xfff =? 0) = true) as Hmask.
  { intros a Ha. destruct (Hal _ Ha) as [Haa _]. change 0xfff with (2 ^ 12 - 1).
    rewrite land_mask by lia. unfold aligned in Haa. change (2 ^ 12) with 0x1000. by rewrite Haa. }
  pose proof (Hmask (pml4 st) ltac:(set_solver)) as M1.
  pose proof (Hmask (first_pdp st) ltac:(set_solver)) as M2.
  pose proof (Hmask (first_pd st) ltac:(unfold pds; set_solver)) as M3.
  unfold init_pml4. do 2 erewrite bind_ret by reflexivity.
  set (s0 := set_frames _ (set_frames _ s)).
  erewrite bind_ret by (unfold ASSERT; rewrite M1; reflexivity).
  erewrite bind_ret by (unfold ASSERT; rewrite M2; reflexivity).
  erewrite bind_ret by (unfold ASSERT; rewrite M3; reflexivity).
  destruct (clear_two s (pml4 st) (first_pdp st)) as [E0 F0]. cbv zeta in E0, F0.
  change (set_frames (<[first_pdp st:=zero_frame]> (<[pml4 st:=zero_frame]> (frames s))) s) with s0 in E0, F0.
  pose proof (so_nodup _ Hso) as Hnd.
  match goal with |- context [(write_entry (pml4 st) 0 _ ≫= λ _, _ ≫= λ _, _ ≫= λ _, _ ≫= λ _, _ ≫= λ _, ?m) s0] =>
    destruct (upper_writes m s0) as (s1 & W1 & ->) end.
  { apply F0. auto. }
  { apply F0. auto. }
  { intros E. rewrite E in Hnd. apply list.NoDup_cons in Hnd as [Hn _]. set_solver. }
  { intros a Ha. apply Hal. set_solver. }
  assert (pds_full s1) as Hf1.
  { destruct (so_full _ Hso) as (? & ? & ? & ?). split_and!; apply (wr_full _ _ _ W1), F0; auto. }
  destruct (boot_loop_spec 512 s1 0 Hf1 ltac:(lia)) as (s2 & E2 & W2).
  erewrite bind_ret by exact E2. exists s2. split; [|done].
  pose proof (wrote_trans _ _ _ _ _ W1 W2) as W. by apply (boot_state_intro s s0 s2).
Qed.

(** ** The memory above 4 GiB *)

Lemma slot_same_page v a :
  0 ≤ v < 2 ^ 48 → 0 ≤ a < 2 ^ 48 → slot v = slot a ↔ v / PAGE_SIZE = a / PAGE_SIZE.
Proof.
  intros Hv Ha. rewrite slot_page.
  assert (∀ x, 0 ≤ x < 2 ^ 48 → (x / PAGE_SIZE) mod 2 ^ 27 = x / PAGE_SIZE) as E.
  { intros x Hx. apply Z.mod_small. unfold PAGE_SIZE.
    split; [apply Z.div_pos; lia|apply Z.div_lt_upper_bound; lia]. }
  by rewrite !E.
Qed.

Lemma page_of v a :
  aligned PAGE_SIZE a → v / PAGE_SIZE = a / PAGE_SIZE ↔ v - v mod PAGE_SIZE = a.
Proof.
  intros Ha. unfold aligned in Ha. pose proof (Z.div_mod v PAGE_SIZE). pose proof (Z.div_mod a PAGE_SIZE).
  unfold PAGE_SIZE in *. lia.
Qed.

(** [v] lies in a page the loop maps from [addr] on. *)
Definition in_high (addr max v : Z) : Prop := addr ≤ v ∧ v - v mod PAGE_SIZE + PAGE_SIZE < max.

#[export] Instance in_high_dec addr max v : Decision (in_high addr max v).
Proof. unfold in_high. apply _. Defined.

Lemma map_high_spec fuel : ∀ s addr max,
  pt_ok s → aligned PAGE_SIZE addr → 0 ≤ addr ≤ 2 ^ 47 → max ≤ 2 ^ 47 →
  max - addr ≤ (Z.of_nat fuel + 1) * PAGE_SIZE →
  match map_high fuel addr max s with
  | Ret _ s' =>
      pt_ok s' ∧ ∀ v, 0 ≤ v < 2 ^ 47 →
        mmu s' v = if decide (in_high addr max v) then Some v else mmu s v
  | Panicked => True
  | _ => False
  end.
Proof.
  induction fuel as [|fuel IH]; intros s addr max Hok Hal H0' Hmax Hf;
    (assert (u64 (addr + PAGE_SIZE) = addr + PAGE_SIZE) as Ew
       by (apply u64_id; unfold in_u, PAGE_SIZE; lia));
    cbn [map_high]; rewrite Ew; destruct (Z.ltb_spec (addr + PAGE_SIZE) max) as [Hlt|Hge];
    [unfold PAGE_SIZE in *; lia| | |].
  1,3: split; [done|]; intros v Hv; rewrite decide_False; [done|]; intros [H1 H2];
    pose proof (Z.div_mod v PAGE_SIZE); pose proof (Z.mod_pos_bound v PAGE_SIZE);
    unfold aligned in Hal; pose proof (Z.div_mod addr PAGE_SIZE); unfold PAGE_SIZE in *; lia.
  pose proof (map_page_spec s addr addr (PTE_PS .| PTE_P .| PTE_W) Hok (page_4k_aligned _ Hal)
                ltac:(done)) as HM.
  unfold mbind, M_bind. destruct (map_page_p2v addr addr _ s) as [[] s1| | | | |]; try done.
  destruct HM as (Hok1 & _ & HM). cbn [decide]. rewrite decide_True by done.
  assert (aligned PAGE_SIZE (addr + PAGE_SIZE)) as Hal' by (apply aligned_add; done).
  specialize (IH s1 (addr + PAGE_SIZE) max Hok1 Hal').
  destruct (map_high fuel (addr + PAGE_SIZE) max s1) as [u s'| | | | |]; try (apply IH; unfold PAGE_SIZE in *; lia).
  destruct IH as [Hok' IH]; [unfold PAGE_SIZE in *; lia..|]. split; [done|]. intros v Hv.
  rewrite IH, HM by done.
  assert (slot v = slot addr ↔ v - v mod PAGE_SIZE = addr) as Hslot.
  { rewrite slot_same_page by lia. by apply page_of. }
  assert (v = PAGE_SIZE * (v / PAGE_SIZE) + v mod PAGE_SIZE) as Ev by (by apply Z.div_mod).
  pose proof (Z.mod_pos_bound v PAGE_SIZE ltac:(done)) as Hm.
  unfold in_high. destruct (decide (slot v = slot addr)) as [Hs|Hs].
  - apply Hslot in Hs. rewrite decide_False, decide_True by lia.
    unfold leaf. rewrite flag_bit0 by done. cbn [Z.testbit]. f_equal.
    rewrite phys_of_entry; [lia|done|lia|unfold PAGE_SIZE in *; lia|done].
  - assert (v - v mod PAGE_SIZE ≠ addr) by tauto.
    assert (addr ≤ v → addr + PAGE_SIZE ≤ v) as Hnext.
    { intros Hav. unfold aligned in Hal. pose proof (Z.div_mod addr PAGE_SIZE). unfold PAGE_SIZE in *. lia. }
    repeat case_decide; try done; lia.
Qed.

(** The outcome of init_pml4, for up to 2^47 bytes of memory. *)
Definition booted (max : Z) (r : outcome (ptstate H) unit) : Prop :=
  match r with
  | Ret _ s' =>
      pt_ok s' ∧ cr3 s' = pml4 st ∧
      ∀ v, 0 ≤ v < 2 ^ 47 →
        (v < 2 ^ 31 → mmu s' v = Some v) ∧
        (2 ^ 31 ≤ v < 2 ^ 32 → mmu s' v = Some (v + 2 ^ 52 - 2 ^ 32)) ∧
        (in_high NUMBER_4G max v → mmu s' v = Some v)
  | Panicked => True
  | _ => False
  end.

Lemma init_pml4_spec s max : statics_ok s → max ≤ 2 ^ 47 → booted max (init_pml4 max s).
Proof.
  intros Hso Hmax. destruct (boot_run s max Hso) as (s1 & Hbs & ->).
  pose proof (boot_ok _ _ Hso Hbs) as Hok1. pose proof (boot_mmu _ _ Hso Hbs) as Hm1.
  assert (∀ s2, pt_ok s2 → (∀ v, 0 ≤ v < 2 ^ 47 →
            mmu s2 v = if decide (in_high NUMBER_4G max v) then Some v else mmu s1 v) →
            booted max (Ret tt (mk_pt (frames s2) (pml4 st) (mem s2)))) as Hend.
  { intros s2 [Hi Hf Hu Ho Hm] Hm2. split; [|split; [done|]].
    - by split.
    - intros v Hv. change (mmu (mk_pt (frames s2) (pml4 st) (mem s2)) v) with (mmu s2 v).
      rewrite Hm2 by done. unfold in_high, NUMBER_4G.
      split; [|split]; intros Hr; case_decide as Hc; try done; try lia; rewrite Hm1 by lia; case_decide; done || lia. }
  destruct (Z.ltb_spec NUMBER_4G max) as [Hlt|Hge].
  - pose proof (map_high_spec (Z.to_nat ((max - NUMBER_4G) / PAGE_SIZE)) s1 NUMBER_4G max Hok1 eq_refl) as HH.
    assert (0 ≤ (max - NUMBER_4G) / PAGE_SIZE) by (apply Z.div_pos; [lia|done]).
    pose proof (Z.div_mod (max - NUMBER_4G) PAGE_SIZE). pose proof (Z.mod_pos_bound (max - NUMBER_4G) PAGE_SIZE).
    unfold mbind, M_bind. destruct (map_high _ NUMBER_4G max s1) as [u s2| | | | |];
      try (apply HH; unfold NUMBER_4G, PAGE_SIZE in *; lia); try done.
    destruct u, HH as [Hok2 Hm2]; [unfold NUMBER_4G, PAGE_SIZE in *; lia..|]. by apply Hend.
  - erewrite bind_ret by reflexivity. apply Hend; [done|]. intros v Hv.
    rewrite decide_False; [done|]. intros [H1 H2]. pose proof (Z.div_mod v PAGE_SIZE).
    pose proof (Z.mod_pos_bound v PAGE_SIZE). unfold NUMBER_4G, PAGE_SIZE in *. lia.
Qed.

(** init_pml4: the tables it leaves are well-formed, cr3 points to them, and the processor translates
    the first 2 GiB and the memory above 4 GiB (whole pages below the top) to themselves. *)
Theorem init_pml4_correct s max :
  statics_ok s → max ≤ 2 ^ 47 →
  match init_pml4 max s with
  | Ret _ s' =>
      pt_ok s' ∧ cr3 s' = pml4 st ∧
      (∀ v, 0 ≤ v < 2 ^ 31 → mmu s' v = Some v) ∧
      (∀ v, 0 ≤ v < 2 ^ 47 → in_high NUMBER_4G max v → mmu s' v = Some v)
  | Panicked => True
  | _ => False
  end.
Proof.
  intros Hso Hmax. pose proof (init_pml4_spec s max Hso Hmax) as HB.
  destruct (init_pml4 max s); try done. destruct HB as (? & ? & HB). split_and!; try done.
  - intros v Hv. destruct (HB v) as (HB1 & _); [lia|]. apply HB1. lia.
  - intros v Hv Hh. by apply HB.
Qed.

(** C39. The addresses between 2 and 4 GiB: the entries are computed in [int] arithmetic, the product
    overflows, and the processor translates [v] to [v + 2^52 - 2^32] instead of [v]. *)
Theorem init_pml4_above_2g s max v :
  statics_ok s → max ≤ 2 ^ 47 → 2 ^ 31 ≤ v < 2 ^ 32 →
  match init_pml4 max s with
  | Ret _ s' => mmu s' v = Some (v + 2 ^ 52 - 2 ^ 32)
  | Panicked => True
  | _ => False
  end.
Proof.
  intros Hso Hmax Hv. pose proof (init_pml4_spec s max Hso Hmax) as HB.
  destruct (init_pml4 max s); try done. destruct HB as (? & ? & HB).
  destruct (HB v) as (_ & HB1 & _); [lia|]. apply HB1. lia.
Qed.

(** ** ioremap_nocache *)

(** A canonical address: the upper 16 bits repeat bit 47. *)
Definition canonical (v : Z) : Prop := 0 ≤ v < 2 ^ 47 ∨ 2 ^ 64 - 2 ^ 47 ≤ v < 2 ^ 64.

Lemma slot_io v a :
  canonical v → IO_MEM_BASE ≤ a < 2 ^ 64 → slot v = slot a ↔ v / PAGE_SIZE = a / PAGE_SIZE.
Proof.
  unfold IO_MEM_BASE. intros Hv Ha. rewrite slot_page.
  assert (∀ x, 2 ^ 64 - 2 ^ 47 ≤ x < 2 ^ 64 →
            (x / PAGE_SIZE) mod 2 ^ 27 = x / PAGE_SIZE - (2 ^ 43 - 2 ^ 27) ∧ 2 ^ 26 ≤ (x / PAGE_SIZE) mod 2 ^ 27) as E.
  { intros x Hx. assert (2 ^ 43 - 2 ^ 26 ≤ x / PAGE_SIZE < 2 ^ 43) as Hq.
    { unfold PAGE_SIZE. split; [apply Z.div_le_lower_bound; lia|apply Z.div_lt_upper_bound; lia]. }
    replace (x / PAGE_SIZE) with (x / PAGE_SIZE - (2 ^ 43 - 2 ^ 27) + (2 ^ 16 - 1) * 2 ^ 27) at 1 3 by lia.
    rewrite Z.mod_add, Z.mod_small by lia. lia. }
  destruct (E a) as [Ea Ha26]; [lia|]. destruct Hv as [Hv|Hv].
  - assert (0 ≤ v / PAGE_SIZE < 2 ^ 26) as Hq.
    { unfold PAGE_SIZE. split; [apply Z.div_pos; lia|apply Z.div_lt_upper_bound; lia]. }
    rewrite (Z.mod_small (v / PAGE_SIZE)) by lia. split; lia.
  - destruct (E v) as [Ev _]; [done|]. rewrite Ev, Ea. lia.
Qed.

Lemma ioremap_loop_spec fuel : ∀ s added size paddr,
  pt_ok s → aligned PAGE_SIZE paddr → 0 ≤ paddr → 0 ≤ added → 0 ≤ size < 2 ^ 35 →
  paddr + (size - added) + PAGE_SIZE < 2 ^ 35 → added ≤ size + PAGE_SIZE →
  size - added < Z.of_nat fuel * PAGE_SIZE →
  match ioremap_loop fuel added size paddr s with
  | Ret _ s' =>
      pt_ok s' ∧ ∀ v, canonical v →
        mmu s' v = mmu s v ∨ (IO_MEM_BASE + paddr ≤ v ∧ mmu s' v = Some (v - IO_MEM_BASE))
  | Panicked => True
  | _ => False
  end.
Proof.
  induction fuel as [|fuel IH]; intros s added size paddr Hok Hal Hp Ha Hs Hmax Hadd Hf; simpl;
    (destruct (Z.ltb_spec size added) as [Hlt|Hge]; [split; [done|auto]|]);
    [unfold PAGE_SIZE in *; lia|].
  assert (u64 (paddr + IO_MEM_BASE) = paddr + IO_MEM_BASE) as Ev.
  { apply u64_id. unfold in_u, IO_MEM_BASE, PAGE_SIZE in *. lia. }
  rewrite Ev. set (fl := PTE_P .| PTE_W .| PTE_PWT .| PTE_PCD .| PTE_PS).
  pose proof (map_page_spec s paddr (paddr + IO_MEM_BASE) fl Hok (page_4k_aligned _ Hal) ltac:(done)) as HM.
  assert (u64 (added + PAGE_SIZE) = added + PAGE_SIZE) as -> by (apply u64_id; unfold in_u, PAGE_SIZE in *; lia).
  assert (u64 (paddr + PAGE_SIZE) = paddr + PAGE_SIZE) as -> by (apply u64_id; unfold in_u, PAGE_SIZE in *; lia).
  assert (aligned PAGE_SIZE (paddr + PAGE_SIZE)) as Hal' by (apply aligned_add; done).
  unfold mbind, M_bind. destruct (map_page_p2v paddr _ fl s) as [r s1| | | | |]; try done.
  assert (pt_ok s1 ∧ ∀ v, canonical v →
            mmu s1 v = mmu s v ∨ (IO_MEM_BASE + paddr ≤ v ∧ mmu s1 v = Some (v - IO_MEM_BASE))) as [Hok1 Hm1].
  { destruct r; destruct HM as (? & _ & HM); (split; [done|]); intros v Hv; [|by left].
    rewrite HM. case_decide as Hs'; [right|by left].
    apply slot_io in Hs'; [|done|unfold IO_MEM_BASE, PAGE_SIZE in *; lia].
    apply page_of in Hs'; [|apply aligned_add; done].
    pose proof (Z.mod_pos_bound v PAGE_SIZE ltac:(done)). split; [lia|].
    unfold leaf. rewrite flag_bit0 by done.
    assert (Z.testbit fl 0 = true) as -> by done.
    rewrite phys_of_entry; [f_equal; lia|done|lia|unfold PAGE_SIZE in *; lia|done]. }
  specialize (IH s1 (added + PAGE_SIZE) size (paddr + PAGE_SIZE) Hok1 Hal').
  destruct (ioremap_loop fuel _ size _ s1) as [u s'| | | | |]; try (apply IH; unfold PAGE_SIZE in *; lia).
  destruct IH as [Hok' IH]; [unfold PAGE_SIZE in *; lia..|]. split; [done|]. intros v Hv.
  destruct (IH v Hv) as [->|[? ->]]; [by apply Hm1|]. right. split; [unfold PAGE_SIZE in *; lia|done].
Qed.

(** ioremap_nocache returns [addr + IO_MEM_BASE]; afterwards every canonical address is translated as
    before or, above the start of the window, to the device address IO_MEM_BASE below it. *)
Theorem ioremap_nocache_correct fuel s addr size :
  pt_ok s → 0 ≤ addr → 0 ≤ size → addr + size + 2 * PAGE_SIZE < 2 ^ 35 →
  size + PAGE_SIZE < Z.of_nat fuel * PAGE_SIZE →
  match ioremap_nocache fuel addr size s with
  | Ret a s' =>
      a = addr + IO_MEM_BASE ∧ pt_ok s' ∧
      ∀ v, canonical v →
        mmu s' v = mmu s v ∨
        (IO_MEM_BASE + (addr - addr mod PAGE_SIZE) ≤ v ∧ mmu s' v = Some (v - IO_MEM_BASE))
  | Panicked => True
  | _ => False
  end.
Proof.
  intros Hok Ha Hs Hmax Hf. unfold ioremap_nocache.
  assert (addr .& u64 (Z.lnot (PAGE_SIZE - 1)) = addr - addr mod PAGE_SIZE) as E.
  { change (u64 (Z.lnot (PAGE_SIZE - 1))) with (Z.land (- 2 ^ 21) (2 ^ 64 - 1)).
    rewrite Z.land_assoc, land_not_mask, land_mask by lia. apply Z.mod_small.
    change (2 ^ 21) with PAGE_SIZE. pose proof (Z.mod_pos_bound addr PAGE_SIZE ltac:(done)).
    pose proof (Z.mod_le addr PAGE_SIZE Ha ltac:(done)). unfold PAGE_SIZE in *. lia. }
  rewrite E. pose proof (Z.mod_pos_bound addr PAGE_SIZE ltac:(done)).
  pose proof (Z.mod_le addr PAGE_SIZE Ha ltac:(done)).
  assert (u64 (size + (addr - (addr - addr mod PAGE_SIZE))) = size + addr mod PAGE_SIZE) as ->.
  { replace (addr - (addr - addr mod PAGE_SIZE)) with (addr mod PAGE_SIZE) by lia.
    apply u64_id. unfold in_u, PAGE_SIZE in *. lia. }
  assert (aligned PAGE_SIZE (addr - addr mod PAGE_SIZE)) as Hal.
  { pose proof (Z.div_mod addr PAGE_SIZE ltac:(done)).
    replace (addr - addr mod PAGE_SIZE) with (addr / PAGE_SIZE * PAGE_SIZE) by lia. apply aligned_mul. }
  pose proof (ioremap_loop_spec fuel s 0 (size + addr mod PAGE_SIZE) _ Hok Hal) as HL.
  unfold mbind, M_bind. destruct (ioremap_loop fuel 0 _ _ s) as [u s'| | | | |];
    try (apply HL; unfold PAGE_SIZE in *; lia).
  split; [apply u64_id; unfold in_u, IO_MEM_BASE, PAGE_SIZE in *; lia|].
  apply HL; unfold PAGE_SIZE in *; lia.
Qed.

End pgtable.

(** ** Examples *)

Definition sample_st : statics := mk_statics 0x1000 0x2000 0x3000 0x4000 0x5000 0x6000.

(** The static tables of .bss and the heap of Kheap.v. *)
Definition sample_pt : ptstate (kheap phymem) :=
  mk_pt (<[0x3000 := zero_frame]> (<[0x4000 := zero_frame]>
         (<[0x5000 := zero_frame]> (<[0x6000 := zero_frame]> ∅)))) 0 sample_heap.

Lemma sample_pt_ok : statics_ok sample_st sample_pt.
Proof.
  split.
  - refine (bool_decide_unpack _ _). vm_compute. exact I.
  - by repeat constructor.
  - unfold pds_full, full. simpl. split_and!; eexists; (split; [by vm_compute|apply zero_frame_len]).
  - repeat (apply list.Forall_cons; split; [simpl; intros x Hx Hf|]); [..|by constructor].
    all: apply (heap_free_iff _ _ _ _ _ _ sample_heap_ok) in Hf
           as [(? & ?%elem_of_nil & _)|[(? & ?%elem_of_nil & _)|(a & Ha & Hxa)]]; [done..|].
    all: apply (pg_free_page (P := phymem)) in Ha as (Ha & _ & Hal); [|apply sample_phys_ok].
    all: unfold aligned, PAGE_SIZE in *; pose proof (Z.div_mod a 0x200000); lia.
  - exists [], MAX_HEAP_HOLE, [], MAX_SMALL_HOLE. apply sample_heap_ok.
Qed.

Lemma init_pml4_correct_witness :
  ∃ s', init_pml4 sample_st 0x8000000 sample_pt = Ret tt s' ∧ pt_ok sample_st s' ∧
        mmu sample_st s' 0x12345678 = Some 0x12345678.
Proof.
  pose proof (init_pml4_correct sample_st sample_pt 0x8000000 sample_pt_ok ltac:(lia)) as HP.
  assert (ret_val (init_pml4 sample_st 0x8000000 sample_pt) = Some tt) as E
    by (vm_compute; reflexivity).
  destruct (init_pml4 sample_st 0x8000000 sample_pt) as [[] s'| | | | |]; simplify_eq/=.
  destruct HP as (Hok & _ & Hm & _). exists s'. split; [done|]. split; [done|]. apply Hm. lia.
Defined.

Lemma init_pml4_above_2g_witness :
  ∃ s', init_pml4 sample_st 0x8000000 sample_pt = Ret tt s' ∧
        mmu sample_st s' 0xfee00000 = Some 0xffffffee00000.
Proof.
  pose proof (init_pml4_above_2g sample_st sample_pt 0x8000000 0xfee00000 sample_pt_ok
                ltac:(lia) ltac:(lia)) as HP.
  assert (ret_val (init_pml4 sample_st 0x8000000 sample_pt) = Some tt) as E
    by (vm_compute; reflexivity).
  destruct (init_pml4 sample_st 0x8000000 sample_pt) as [[] s'| | | | |]; simplify_eq/=.
  exists s'. split; [done|]. exact HP.
Defined.

(** The tables after booting. *)
Definition boot_pt : ptstate (kheap phymem) :=
  default sample_pt (ret_state (init_pml4 sample_st 0x8000000 sample_pt)).

Lemma boot_pt_ok : pt_ok sample_st boot_pt ∧ cr3 boot_pt = 0x1000.
Proof.
  pose proof (init_pml4_spec sample_st sample_pt 0x8000000 sample_pt_ok ltac:(lia)) as HP.
  assert (ret_val (init_pml4 sample_st 0x8000000 sample_pt) = Some tt) as E
    by (vm_compute; reflexivity).
  unfold boot_pt. destruct (init_pml4 sample_st 0x8000000 sample_pt) as [[] s'| | | | |]; simplify_eq/=.
  destruct HP as (Hok & Hc & _). done.
Qed.


Lemma get_pte_correct_witness :
  ∃ a e, get_pte_with_addr 0x12345678 boot_pt = Ret a boot_pt ∧ a ≠ 0 ∧
         read_pte a boot_pt = Ret e boot_pt ∧ mmu sample_st boot_pt 0x12345678 = leaf e 0x12345678.
Proof.
  destruct (get_pte_correct sample_st boot_pt 0x12345678 (proj1 boot_pt_ok))
    as (a & Ea & [[-> Hn]|(Ha & e & He & Hm)]).
  - rewrite (proj2 boot_pt_ok). reflexivity.
  - exfalso. assert (ret_val (get_pte_with_addr 0x12345678 boot_pt) = Some 0x3488) as E
      by (vm_compute; reflexivity). rewrite Ea in E. discriminate.
  - exists a, e. split; [exact Ea|]. split; [exact Ha|]. split; [exact He|exact Hm].
Defined.

Lemma ioremap_nocache_correct_witness :
  ∃ s', ioremap_nocache sample_st 3 0xfee00300 0x100 boot_pt = Ret (0xfee00300 + IO_MEM_BASE) s' ∧
        pt_ok sample_st s'.
Proof.
  pose proof (ioremap_nocache_correct sample_st 3 boot_pt 0xfee00300 0x100 (proj1 boot_pt_ok)
                ltac:(lia) ltac:(lia) ltac:(unfold PAGE_SIZE; lia) ltac:(unfold PAGE_SIZE; lia)) as HP.
  assert (ret_val (ioremap_nocache sample_st 3 0xfee00300 0x100 boot_pt) =
          Some (0xfee00300 + IO_MEM_BASE)) as E by (vm_compute; reflexivity).
  destruct (ret_val_Some _ _ E) as (s' & E' & _). rewrite E' in HP.
  destruct HP as (_ & Hok & _). exists s'. split; [exact E'|exact Hok].
Defined.
