(* ===== verification/Vm.v ===== *)
(** * Virtual areas (kernel/vm.c)

    Ranges of kernel virtual addresses (a pool of Holes.v with its own lock),
    backed page by page through alloc_phy_page and map_page_p2v. *)

From stdpp Require Import base gmap list numbers option sorting.
From Stdlib Require Import Lia ZArith.
From S2P Require Import Prelude Chain Holes Pages Phymem Kheap Pgtable.

#[local] Open Scope Z_scope.
#[local] Open Scope yaos_scope.

Definition PAGE_MASK : Z := PAGE_SIZE - 1.
Definition MAX_LINEAR_HOLE : nat := 10.

Record vm (H : Type) := mk_vm { lin : pool; pt : ptstate H }.
Arguments mk_vm {H} lin pt.
Arguments lin {H} v.
Arguments pt {H} v.

Section vm.
Context {H : Type} `{MemSource H} (st : statics).

Definition on_lin {A} (m : M pool A) : M (vm H) A := zoom lin (λ t s, mk_vm t (pt s)) m.
Definition on_pt {A} (m : M (ptstate H) A) : M (vm H) A := zoom pt (λ t s, mk_vm (lin s) t) m.

Definition free_linear (addr size : Z) : M (vm H) unit := on_lin (free_hole PAGE_MASK addr size).

(** [if (size & PAGE_MASK) size = (size & ~PAGE_MASK) + PAGE_SIZE;] *)
Definition align_page (size : Z) : Z :=
  if size .& PAGE_MASK =? 0 then size else u64 ((size .& Z.lnot PAGE_MASK) + PAGE_SIZE).

(** When nothing fits the function returns without releasing the lock. *)
Definition alloc_linear_pool (size : Z) : M pool Z :=
  let size := align_page size in
  spin_lock ;;
  p ← search size;
  match p with
  | None => mret 0
  | Some i =>
      pret ← carve (λ t, t =? 0) (Some i) size;
      spin_unlock ;;
      mret pret
  end.

Definition alloc_linear (size : Z) : M (vm H) Z := on_lin (alloc_linear_pool size).

(** The rounds of a loop [for (phsize = 0; phsize <= size; phsize += PAGE_SIZE)]. *)
Definition rounds (size : Z) : nat := Z.to_nat (size / PAGE_SIZE + 1).

(** [while (phsize <= size)] of free_vm_page; [addr] is the same in every round. *)
Fixpoint free_vm_page_loop (fuel : nat) (addr phsize size : Z) : M (ptstate H) unit :=
  if size <? phsize then mret tt else
  match fuel with
  | O => out_of_fuel
  | S fuel =>
      pte ← get_pte_with_addr addr;
      if pte =? 0 then panic
      else
        e ← read_pte pte;
        on_mem (ms_free_page (e .& u64 (Z.lnot PAGE_MASK))) ;;
        free_vm_page_loop fuel addr (u64 (phsize + PAGE_SIZE)) size
  end.

Definition free_vm_page (addr size : Z) : M (vm H) unit :=
  on_pt (free_vm_page_loop (rounds size) addr 0 size).

Definition free_vm (addr size : Z) : M (vm H) unit :=
  free_vm_page addr size ;;
  free_linear addr size.

(** The mapping loop alloc_vm and alloc_vm_stack share; the result is false when the
    function returns 0 inside it. *)
Fixpoint back_loop (fuel : nat) (addr phsize size : Z) : M (vm H) bool :=
  if size <? phsize then mret true else
  match fuel with
  | O => out_of_fuel
  | S fuel =>
      pg ← on_pt (on_mem ms_page);
      if pg =? 0 then
        (if phsize =? 0 then mret tt
         else free_vm_page addr phsize ;; free_linear addr size) ;;
        mret false
      else
        on_pt (map_page_p2v_rw st pg addr) ;;
        back_loop fuel (u64 (addr + PAGE_SIZE)) (u64 (phsize + PAGE_SIZE)) size
  end.

Definition alloc_vm (size : Z) : M (vm H) Z :=
  p ← alloc_linear size;
  if p =? 0 then mret p else
  ok ← back_loop (rounds size) p 0 size;
  mret (if ok : bool then p else 0).

Definition free_vm_stack (addr size : Z) : M (vm H) unit :=
  free_vm_page addr size ;;
  free_linear (u64 (addr - PAGE_SIZE)) (u64 (size + PAGE_SIZE)).

(** The lowest page of a stack is left unmapped. *)
Definition alloc_vm_stack (size : Z) : M (vm H) Z :=
  p ← alloc_linear (u64 (size + PAGE_SIZE));
  if p =? 0 then mret p else
  ok ← back_loop (rounds size) (u64 (p + PAGE_SIZE)) 0 size;
  mret (if ok : bool then u64 (p + PAGE_SIZE) else 0).

Definition init_vm (addr size : Z) : M (vm H) unit :=
  on_lin (init_pool MAX_LINEAR_HOLE) ;;
  free_linear addr size.

(** ** Ranges *)

(** Free ranges of whole pages. *)
Definition hole_page (r : range) : Prop := 0 < r.1 ∧ aligned PAGE_SIZE r.1 ∧ aligned PAGE_SIZE r.2.

Record lin_ok (b : bool) (s : pool) (hs : list range) (n : nat) : Prop := {
  li_pool : pool_is b s hs n;
  li_ok : ranges_ok hs;
  li_al : Forall hole_page hs
}.

Lemma align_page_spec z :
  0 < z → z ≤ 2 ^ 64 - PAGE_SIZE →
  z ≤ align_page z < z + PAGE_SIZE ∧ aligned PAGE_SIZE (align_page z).
Proof.
  intros H0' H1. unfold align_page, aligned, PAGE_MASK. change PAGE_SIZE with (2 ^ 21) in *.
  replace (Z.lnot (2 ^ 21 - 1)) with (- 2 ^ 21) by reflexivity.
  rewrite land_mask, land_not_mask by lia. pose proof (Z.mod_pos_bound z (2 ^ 21)).
  destruct (Z.eqb_spec (z mod 2 ^ 21) 0) as [E|E]; [lia|].
  rewrite u64_id by (unfold in_u; lia). split; [lia|].
  pose proof (Z.div_mod z (2 ^ 21)). replace (z - _ + _) with ((z / 2 ^ 21 + 1) * 2 ^ 21) by lia.
  by apply Z.mod_mul.
Qed.

Lemma mask_page x : aligned PAGE_SIZE x → x .& PAGE_MASK = 0.
Proof. intros Hx. unfold PAGE_MASK. change PAGE_SIZE with (2 ^ 21) in *. by rewrite land_mask. Qed.

(** free_linear: the range joins the pool in address order; panic when there is no unused
    descriptor. *)
Theorem free_linear_correct s hs n a z :
  lin_ok false (lin s) hs n → range_ok (a, z) → 0 < a →
  aligned PAGE_SIZE a → aligned PAGE_SIZE z → Forall (disjoint_range (a, z)) hs →
  match n with
  | O => free_linear a z s = Panicked
  | S n' => ∃ q, free_linear a z s = Ret tt (mk_vm q (pt s)) ∧ lin_ok false q (spec_free a z hs) n'
  end.
Proof.
  intros [Hp Hok Hal] Hr Ha Haa Hza Hd.
  pose proof (free_hole_spec PAGE_MASK _ _ _ a z Hp (mask_page _ Haa) (mask_page _ Hza)) as F.
  destruct n as [|n']; unfold free_linear, on_lin, zoom; [by rewrite F|].
  destruct F as (q & F & Hq). exists q. rewrite F. split; [done|]. split; [done| |].
  - by apply spec_free_ok.
  - rewrite spec_free_perm. by constructor.
Qed.

(** The block [(a, z)] is taken out of the ranges [hs], leaving [hs']. *)
Record taken (hs hs' : list range) (a z : Z) : Prop := {
  tk_range : range_ok (a, z) ∧ hole_page (a, z);
  tk_apart : Forall (disjoint_range (a, z)) hs';
  tk_bytes : ∀ x, covers hs x ↔ covers hs' x ∨ a ≤ x < a + z
}.

Lemma spec_alloc_taken hs z a hs' :
  ranges_ok hs → Forall hole_page hs → aligned PAGE_SIZE z → 0 < z →
  spec_alloc (λ t, t =? 0) z hs = Some (a, hs') →
  ranges_ok hs' ∧ Forall hole_page hs' ∧ taken hs hs' a z.
Proof.
  intros Hok Hal Hz Hz0 E.
  assert (∀ u, 0 ≤ u → (u =? 0) = false → 0 < u) as Hd by (intros; lia).
  destruct (spec_alloc_ok (λ t, t =? 0) _ _ _ _ Hok Hz0 Hd E) as (Hok' & Hdj & Hc1 & Hc2).
  pose proof (λ x, spec_alloc_covers (λ t, t =? 0) _ _ _ _ x Hok (λ _, eq_refl) E) as Hc3.
  apply spec_alloc_Some in E as (hs1 & t & hs2 & -> & Ht & _ & ->).
  apply Forall_app in Hal as [H1 [(Ha0 & Ha & Hta) H2]%Forall_cons]. simpl in *.
  split; [done|]. split.
  - apply Forall_app. split; [done|]. destruct (Z.eqb_spec (t - z) 0); [done|].
    constructor; [|done]. split_and!; simpl; [lia|auto with yaos..].
  - destruct Hok as [Hok _]. apply Forall_app in Hok as [_ [Hr _]%Forall_cons].
    split; [|done|].
    + unfold range_ok in *. simpl in *. split; [lia|done].
    + intros x. split; [intros Hx; destruct (Hc3 x Hx); auto|intros [?|?]; auto].
Qed.

(** alloc_linear: first fit among the free ranges, sizes rounded up to pages.  When
    nothing fits it returns 0 and the lock stays taken. *)
Theorem alloc_linear_correct s hs n z :
  lin_ok false (lin s) hs n → 0 < z ≤ 2 ^ 64 - PAGE_SIZE →
  ∃ a q, alloc_linear z s = Ret a (mk_vm q (pt s)) ∧
    ((∃ hs' n', lin_ok false q hs' n' ∧ taken hs hs' a (align_page z)) ∨
     (a = 0 ∧ lin_ok true q hs n ∧ Forall (λ r, r.2 < align_page z) hs)).
Proof.
  intros [Hp Hok Hal] Hz. destruct (align_page_spec z) as [Hz1 Hz2]; [lia..|].
  destruct (pool_lock _ _ _ Hp) as [El Hpl].
  pose proof (search_carve (λ t, t =? 0) _ _ _ _ (align_page z) Hpl (proj1 Hok) ltac:(lia)) as Hs.
  destruct (spec_alloc (λ t, t =? 0) (align_page z) hs) as [[a hs']|] eqn:E.
  - destruct Hs as (k & q & n' & E1 & E2 & Hq & _).
    destruct (spec_alloc_taken _ _ _ _ Hok Hal Hz2 ltac:(lia) E) as (Hok' & Hal' & Ht).
    exists a, (set_locked false q). split.
    + unfold alloc_linear, on_lin, zoom, alloc_linear_pool. cbv zeta.
      rewrite (bind_ret _ _ _ _ _ El), (bind_ret _ _ _ _ _ E1), (bind_ret _ _ _ _ _ E2). done.
    + left. exists hs', n'. split; [|done]. split; [by apply pool_unlock|done..].
  - exists 0, (set_locked true (lin s)). split.
    + unfold alloc_linear, on_lin, zoom, alloc_linear_pool. cbv zeta.
      by rewrite (bind_ret _ _ _ _ _ El), (bind_ret _ _ _ _ _ Hs).
    + right. split; [done|]. split; [by split|]. by apply spec_alloc_fits in E.
Qed.

(** C38. After a request that could not be served, the next request never returns, and neither does the
    return of a range. *)
Theorem alloc_linear_lock_leak s hs n z z' :
  lin_ok false (lin s) hs n → 0 < z ≤ 2 ^ 64 - PAGE_SIZE →
  Forall (λ r, r.2 < align_page z) hs →
  ∃ s', alloc_linear z s = Ret 0 s' ∧ alloc_linear z' s' = Hung ∧
    ∀ a t, (n ≠ 0)%nat → aligned PAGE_SIZE a → aligned PAGE_SIZE t → free_linear a t s' = Hung.
Proof.
  intros [Hp Hok Hal] Hz Hno. destruct (pool_lock _ _ _ Hp) as [El Hpl].
  destruct (align_page_spec z) as [Hz1 Hz2]; [lia..|].
  pose proof (search_carve (λ t, t =? 0) _ _ _ _ (align_page z) Hpl (proj1 Hok) ltac:(lia)) as Hs.
  rewrite (spec_alloc_None _ _ _ Hno) in Hs.
  exists (mk_vm (set_locked true (lin s)) (pt s)). split_and!; [|done|].
  - unfold alloc_linear, on_lin, zoom, alloc_linear_pool. cbv zeta.
    by rewrite (bind_ret _ _ _ _ _ El), (bind_ret _ _ _ _ _ Hs).
  - intros a t Hn Ha Ht. unfold free_linear, on_lin, zoom, free_hole. simpl.
    erewrite bind_ret by (unfold ASSERT; rewrite (mask_page _ Ha), (mask_page _ Ht); reflexivity).
    erewrite bind_ret by reflexivity. simpl.
    destruct Hp as (us & fr & Hr & <-). pose proof (chain_head _ _ _ (rep_free _ _ _ _ _ Hr)) as ->.
    by destruct fr.
Qed.

(** ** alloc_vm *)

(** The translation of [v] is as before, or leads to a page that was free. *)
Definition fresh_or_same (s s' : ptstate H) (v : Z) : Prop :=
  mmu st s' v = mmu st s v ∨
  ∃ pg, ms_free (mem s) pg ∧ mmu st s' v = Some (pg + v mod PAGE_SIZE).

(** From [s] to [s'] only translations in [lo, hi) changed. *)
Record window (s s' : ptstate H) (lo hi : Z) : Prop := {
  wi_ok : pt_ok st s';
  wi_free : ∀ x, ms_free (mem s') x → ms_free (mem s) x;
  wi_out : ∀ v, 0 ≤ v < 2 ^ 47 → v < lo ∨ hi ≤ v → mmu st s' v = mmu st s v;
  wi_in : ∀ v, 0 ≤ v < 2 ^ 47 → fresh_or_same s s' v
}.

Lemma window_trans s1 s2 s3 lo mid hi :
  lo ≤ mid → mid ≤ hi → window s1 s2 lo mid → window s2 s3 mid hi → window s1 s3 lo hi.
Proof.
  intros Hl Hh [O1 F1 U1 I1] [O2 F2 U2 I2]. split; [done|auto| |].
  - intros v Hv Hr. rewrite U2, U1 by lia. done.
  - intros v Hv. destruct (I2 v Hv) as [E|(pg & Hf & E)].
    + unfold fresh_or_same. rewrite E. by apply I1.
    + right. exists pg. auto.
Qed.

(** One page of the block. *)
Lemma back_one s a pg h :
  pt_ok st s → aligned PAGE_SIZE a → 0 ≤ a → a + PAGE_SIZE ≤ 2 ^ 47 →
  handed_out ms_inv ms_free PAGE_SIZE (2 ^ 52) (mem s) pg h → pg ≠ 0 →
  match map_page_p2v_rw st pg a (mk_pt (frames s) (cr3 s) h) with
  | Ret _ s' => window s s' a (a + PAGE_SIZE)
  | Panicked => True
  | _ => False
  end.
Proof.
  intros Hok Ha H0' Hm (Hinv & Hfr & [?|(Hp & Hp52 & Hpal & Hby)]) Hne; [done|].
  pose proof (pt_ok_mem st s h Hok Hinv Hfr) as Hok1. set (s1 := mk_pt _ _ h) in *.
  pose proof (map_page_spec st s1 pg a (PTE_P .| PTE_W .| PTE_PS) Hok1 (page_4k_aligned _ Hpal)
                ltac:(done)) as HM.
  unfold map_page_p2v_rw. destruct (map_page_p2v st pg a _ s1) as [r s'| | | | |]; try done.
  assert (∀ v, mmu st s1 v = mmu st s v) as E1 by done.
  destruct r; destruct HM as (Hok' & [_ Hf'] & HM).
  2:{ split; [done|auto| |].
      - intros v _ _. by rewrite HM.
      - intros v _. left. by rewrite HM. }
  assert (∀ v, 0 ≤ v < 2 ^ 47 → slot v = slot a ↔ v - v mod PAGE_SIZE = a) as Hslot.
  { intros v Hv. rewrite slot_same_page by (unfold PAGE_SIZE in *; lia). by apply page_of. }
  split; [done|auto| |].
  - intros v Hv Hr. rewrite HM, decide_False; [done|]. rewrite Hslot by done.
    pose proof (Z.mod_pos_bound v PAGE_SIZE ltac:(done)). lia.
  - intros v Hv. unfold fresh_or_same. rewrite HM, E1. case_decide as Hs; [right|by left].
    exists pg. split; [apply Hby; unfold PAGE_SIZE; lia|]. unfold leaf. rewrite flag_bit0 by done.
    assert (Z.testbit (PTE_P .| PTE_W .| PTE_PS) 0 = true) as -> by done.
    rewrite phys_of_entry; [done|done|lia|lia|done].
Qed.

Lemma back_loop_spec fuel : ∀ s addr phsize size s',
  pt_ok st (pt s) → aligned PAGE_SIZE addr → 0 ≤ addr → 0 ≤ phsize ≤ size + PAGE_SIZE → 0 ≤ size →
  addr + (size - phsize) + PAGE_SIZE ≤ 2 ^ 47 → size ≤ 2 ^ 47 → aligned PAGE_SIZE phsize →
  back_loop fuel addr phsize size s = Ret true s' →
  lin s' = lin s ∧
  window (pt s) (pt s') addr (addr + ((size / PAGE_SIZE + 1) * PAGE_SIZE - phsize)).
Proof.
  induction fuel as [|fuel IH]; intros s addr phsize size s' Hok Hal Ha Hph Hsz Hmax Hsz2 Hpal;
    unfold back_loop; fold back_loop; destruct (Z.ltb_spec size phsize) as [Hlt|Hge].
  1,3: intros [= <-]; assert ((size / PAGE_SIZE + 1) * PAGE_SIZE - phsize = 0) as -> by
    (unfold aligned in Hpal; pose proof (Z.div_mod phsize PAGE_SIZE); pose proof (Z.div_mod size PAGE_SIZE);
     pose proof (Z.mod_pos_bound size PAGE_SIZE); unfold PAGE_SIZE in *; lia).
  1,2: split; [done|]; split; [done|auto|done|by left].
  - done.
  - destruct (ms_page_ok (mem (pt s)) (pt_mem _ _ Hok)) as (pg & h & Epg & Hout).
    assert (on_pt (on_mem ms_page) s = Ret pg (mk_vm (lin s) (mk_pt (frames (pt s)) (cr3 (pt s)) h))) as E.
    { unfold on_pt, on_mem, zoom. by rewrite Epg. }
    rewrite (bind_ret _ _ _ _ _ E). destruct (Z.eqb_spec pg 0) as [->|Hpg].
    { intros Hr. minv Hr. discriminate. }
    pose proof (back_one (pt s) addr pg h Hok Hal Ha ltac:(lia) Hout Hpg) as HB.
    intros Hr. minv Hr. revert E0. unfold on_pt, zoom. simpl.
    destruct (map_page_p2v_rw st pg addr _) as [r t| | | | |]; try done. intros [= <- <-].
    rewrite (u64_id (addr + PAGE_SIZE)) in Hr by (unfold in_u, PAGE_SIZE in *; lia).
    rewrite (u64_id (phsize + PAGE_SIZE)) in Hr by (unfold in_u, PAGE_SIZE in *; lia).
    apply IH in Hr as [Hl Hw]; simpl in *;
      [|apply HB|apply aligned_add; done|..|apply aligned_add; done]; [|unfold PAGE_SIZE in *; lia..].
    split; [done|]. eapply (window_trans _ t); [| |exact HB|].
    + unfold PAGE_SIZE; lia.
    + pose proof (Z.div_mod size PAGE_SIZE). pose proof (Z.mod_pos_bound size PAGE_SIZE).
      unfold aligned in Hpal. pose proof (Z.div_mod phsize PAGE_SIZE).
      unfold PAGE_SIZE in *. lia.
    + replace (addr + ((size / PAGE_SIZE + 1) * PAGE_SIZE - phsize)) with
        (addr + PAGE_SIZE + ((size / PAGE_SIZE + 1) * PAGE_SIZE - (phsize + PAGE_SIZE))) by lia.
      exact Hw.
Qed.


(** alloc_vm_stack: the address returned is one page above the block taken; the translation
    of that lowest page, which is there to catch a stack overflow, is left as it was. *)
Theorem alloc_vm_stack_correct s hs n z p s' :
  lin_ok false (lin s) hs n → pt_ok st (pt s) → 0 < z ≤ 2 ^ 46 → p + z + PAGE_SIZE ≤ 2 ^ 47 →
  alloc_vm_stack z s = Ret p s' → p ≠ 0 →
  (∃ hs' n', lin_ok false (lin s') hs' n' ∧
     taken hs hs' (p - PAGE_SIZE) (align_page (z + PAGE_SIZE))) ∧
  window (pt s) (pt s') p (p + (z / PAGE_SIZE + 1) * PAGE_SIZE) ∧
  ∀ v, p - PAGE_SIZE ≤ v < p → mmu st (pt s') v = mmu st (pt s) v.
Proof.
  intros Hlin Hok Hz Hmax E Hp. unfold alloc_vm_stack in E.
  rewrite (u64_id (z + PAGE_SIZE)) in E by (unfold in_u, PAGE_SIZE; lia).
  destruct (alloc_linear_correct s hs n (z + PAGE_SIZE) Hlin) as (a & q & Ea & Hc);
    [unfold PAGE_SIZE; lia|].
  rewrite (bind_ret _ _ _ _ _ Ea) in E.
  destruct (Z.eqb_spec a 0) as [->|Ha]; [by injection E as <- <-|].
  apply bind_inv in E as (ok & s1 & Eb & E). injection E as Ep <-.
  destruct ok; [|congruence].
  destruct Hc as [(hs' & n' & Hlin' & Ht)|[? _]]; [|done].
  pose proof (tk_range _ _ _ _ Ht) as [(Ha0 & _ & Ha64) (Hpos & Hal & _)]. simpl in Ha0, Ha64, Hpos, Hal.
  destruct (align_page_spec (z + PAGE_SIZE)) as [Hz1 _]; [unfold PAGE_SIZE; lia..|].
  rewrite (u64_id (a + PAGE_SIZE)) in Eb, Ep by (unfold in_u, PAGE_SIZE in *; lia). subst p.
  apply back_loop_spec in Eb as [El Hw]; simpl in *; try done; try lia;
    [|apply aligned_add; done|unfold PAGE_SIZE in *; lia..].
  rewrite Z.sub_0_r in Hw. replace (a + PAGE_SIZE - PAGE_SIZE) with a by lia. split_and!.
  - exists hs', n'. by rewrite El.
  - done.
  - intros v Hv. apply (wi_out _ _ _ _ Hw); unfold PAGE_SIZE in *; lia.
Qed.

(** init_vm on zeroed variables: one free range. *)
Lemma init_vm_ok t a z :
  range_ok (a, z) → hole_page (a, z) →
  ∃ q, init_vm a z (mk_vm (zero_pool MAX_LINEAR_HOLE) t) = Ret tt (mk_vm q t) ∧
       lin_ok false q [(a, z)] (MAX_LINEAR_HOLE - 1).
Proof.
  intros Hr (Ha & Haa & Hza). simpl in *.
  destruct (init_pool_spec MAX_LINEAR_HOLE) as (q & E & Hq); [unfold MAX_LINEAR_HOLE; lia|].
  pose proof (free_hole_spec PAGE_MASK q [] MAX_LINEAR_HOLE a z Hq (mask_page _ Haa) (mask_page _ Hza)) as F.
  change MAX_LINEAR_HOLE with (S 9) in F. cbn iota in F. destruct F as (q' & F & Hq').
  exists q'. split.
  - assert (on_lin (init_pool MAX_LINEAR_HOLE) (mk_vm (zero_pool MAX_LINEAR_HOLE) t) =
            Ret tt (mk_vm q t)) as E' by (unfold on_lin, zoom; cbn [lin]; rewrite E; reflexivity).
    unfold init_vm. rewrite (bind_ret _ _ _ _ _ E').
    unfold free_linear, on_lin, zoom. cbn [lin]. rewrite F. reflexivity.
  - split; [exact Hq'| |].
    + split; [by constructor|]. by repeat constructor.
    + by repeat constructor.
Qed.

End vm.

(** ** Examples *)

(** 256 MiB of addresses above the 8 MiB of memory of [boot_pt]. *)
Definition sample_vm : vm (kheap phymem) :=
  default (mk_vm (zero_pool MAX_LINEAR_HOLE) boot_pt)
    (ret_state (init_vm 0x800000 0x10000000 (mk_vm (zero_pool MAX_LINEAR_HOLE) boot_pt))).

Lemma sample_vm_ok :
  pt sample_vm = boot_pt ∧ lin_ok false (lin sample_vm) [(0x800000, 0x10000000)] (MAX_LINEAR_HOLE - 1).
Proof.
  destruct (init_vm_ok boot_pt 0x800000 0x10000000) as (q & E & Hq); [done..|].
  unfold sample_vm. rewrite E. split; [reflexivity|exact Hq].
Qed.

Lemma free_linear_correct_witness :
  ∃ q, free_linear 0x40000000 0x400000 sample_vm = Ret tt (mk_vm q boot_pt) ∧
       lin_ok false q [(0x800000, 0x10000000); (0x40000000, 0x400000)] 8.
Proof.
  destruct sample_vm_ok as [Ept Hlin].
  assert (range_ok (0x40000000, 0x400000)) as H1 by (unfold range_ok; simpl; lia).
  assert (Forall (disjoint_range (0x40000000, 0x400000)) [(0x800000, 0x10000000)]) as H2.
  { apply list.Forall_singleton. right. unfold before. simpl. lia. }
  pose proof (free_linear_correct sample_vm _ _ 0x40000000 0x400000 Hlin H1 ltac:(lia) eq_refl eq_refl H2) as HP.
  change (MAX_LINEAR_HOLE - 1)%nat with 9%nat in HP. cbn iota in HP.
  destruct HP as (q & E & Hq).
  exists q. rewrite Ept in E. split; [exact E|exact Hq].
Defined.

Lemma alloc_linear_correct_witness :
  ∃ a q, alloc_linear 0x1000 sample_vm = Ret a (mk_vm q (pt sample_vm)) ∧ a = 0x800000.
Proof.
  destruct (alloc_linear_correct sample_vm _ _ 0x1000 (proj2 sample_vm_ok)) as (a & q & E & _);
    [unfold PAGE_SIZE; lia|].
  exists a, q. split; [exact E|].
  assert (ret_val (alloc_linear 0x1000 sample_vm) = Some 0x800000) as E' by (vm_compute; reflexivity).
  rewrite E in E'. by injection E'.
Defined.

Lemma alloc_linear_lock_leak_witness :
  ∃ s', alloc_linear 0x20000000 sample_vm = Ret 0 s' ∧ alloc_linear 0x1000 s' = Hung.
Proof.
  destruct (alloc_linear_lock_leak sample_vm _ _ 0x20000000 0x1000 (proj2 sample_vm_ok))
    as (s' & E & E' & _); [unfold PAGE_SIZE; lia|by repeat constructor|].
  exists s'. split; [exact E|exact E'].
Defined.


Lemma alloc_vm_stack_correct_witness :
  ∃ s', alloc_vm_stack sample_st 0x1000 sample_vm = Ret 0xa00000 s' ∧
        mmu sample_st (pt s') 0x9ffff8 = mmu sample_st (pt sample_vm) 0x9ffff8.
Proof.
  destruct (ret_val_Some (alloc_vm_stack sample_st 0x1000 sample_vm) 0xa00000) as (s' & E & _);
    [vm_compute; reflexivity|].
  assert (pt_ok sample_st (pt sample_vm)) as Hpt by (rewrite (proj1 sample_vm_ok); apply boot_pt_ok).
  destruct (alloc_vm_stack_correct sample_st sample_vm _ _ 0x1000 0xa00000 s' (proj2 sample_vm_ok) Hpt)
    as (_ & _ & Hg); [lia|unfold PAGE_SIZE; lia|exact E|lia|].
  exists s'. split; [exact E|]. apply Hg. unfold PAGE_SIZE. lia.
Defined.

