(* ===== verification/YaosCall.v ===== *)
(** * System calls between the kernel and its modules
    (kernel/yaoscall.c, kernel/yaos_page.c, include/yaos/yaoscall.h, include/yaoscall/page.h)

    The table of functions at YAOSCALL_TABLE_ADDR, the memory functions the kernel
    registers in it, and the inline functions modules call them through.  The
    heap calls implement the interface [BlockSource] of Pages.v. *)

From Stdlib Require Import Lia ZArith.
From stdpp Require Import base list numbers option.
From S2P Require Import Prelude Pages Bitops Phymem Kheap.

#[local] Open Scope Z_scope.
#[local] Open Scope yaos_scope.

(** ** Identifiers and results *)

Definition YAOS_yaoscall : Z := 0.
Definition YAOS_page_alloc : Z := 1.
Definition YAOS_page_free : Z := 2.
Definition YAOS_heap_alloc : Z := 3.
Definition YAOS_heap_free : Z := 4.
Definition YAOS_malloc : Z := 5.
Definition YAOS_mfree : Z := 6.
Definition YAOS_max_physical_mem : Z := 7.
Definition MAX_YAOSCALL : nat := 8.

Definition ERR_YAOSCALL_NONE_EXIST : Z := -1.
Definition ERR_YAOSCALL_NO_MEM : Z := -2.
Definition YAOSCALL_OK : Z := 0.

Record ret_t : Type := mk_ret { ret_v : Z; ret_e : Z }.

(** The functions a table entry can point to; [f_module n] is registered by a
    module with [regist_yaoscall]. *)
Inductive yfunc : Type :=
| f_dummy1 | f_dummy | f_heap_alloc_4k | f_heap_free_4k | f_page_alloc | f_page_free | f_max_phymem
| f_module (n : nat).

(** The table and the kernel memory behind the calls. *)
Record ystate : Type := mk_y { pyaoscall_table : Z → yfunc; kmem : kheap phymem }.

Definition set_table (id : Z) (f : yfunc) (s : ystate) : ystate :=
  mk_y (λ i, if i =? id then f else pyaoscall_table s i) (kmem s).

Definition regist_yaoscall (id : Z) (pfunc : yfunc) : M ystate unit := modify (set_table id pfunc).

(** ** The functions of yaos_page.c *)

Definition on_kmem {A} (m : M (kheap phymem) A) : M ystate A :=
  zoom kmem (λ k s, mk_y (pyaoscall_table s) k) m.
Definition on_phys {A} (m : M phymem A) : M ystate A :=
  on_kmem (zoom phys (λ t s, mk_kheap (h4k s) (hsmall s) t) m).

Definition dummy : M ystate ret_t := mret (mk_ret 0 ERR_YAOSCALL_NONE_EXIST).

Definition max_phymem : M ystate ret_t :=
  a ← on_phys (gets max_phy_addr);
  mret (mk_ret a YAOSCALL_OK).

Definition heap_alloc_4k (size : Z) : M ystate ret_t :=
  ASSERT (size .& 0xfff =? 0) ;;
  addr ← on_kmem (alloc_kheap_4k kheap_fuel size);
  mret (mk_ret addr 0).

Definition heap_free_4k (addr size : Z) : M ystate ret_t :=
  ASSERT ((size .& 0xfff =? 0) && (addr .& 0xfff =? 0)) ;;
  on_kmem (free_kheap_4k addr size) ;;
  mret (mk_ret 0 0).

Definition page_alloc (size : Z) : M ystate ret_t :=
  ASSERT (size =? PAGE_SIZE) ;;
  v ← on_kmem alloc_page;
  mret (mk_ret v (if v =? 0 then ERR_YAOSCALL_NO_MEM else YAOSCALL_OK)).

Definition page_free (addr size : Z) : M ystate ret_t :=
  on_phys (free_phy_pages addr size) ;;
  mret (mk_ret 0 0).

(** ** Calls *)

Section calls.
Context (module_call : nat → Z → Z → M ystate ret_t).

(** Calling through a table entry; a function of one argument ignores the other. *)
Definition call (id arg1 arg2 : Z) : M ystate ret_t :=
  f ← gets (λ s, pyaoscall_table s id);
  match f with
  | f_dummy1 | f_dummy => dummy
  | f_heap_alloc_4k => heap_alloc_4k arg1
  | f_heap_free_4k => heap_free_4k arg1 arg2
  | f_page_alloc => page_alloc arg1
  | f_page_free => page_free arg1 arg2
  | f_max_phymem => max_phymem
  | f_module n => module_call n arg1 arg2
  end.

Definition yaos_heap_alloc_4k (size : Z) : M ystate Z :=
  r ← call YAOS_heap_alloc size 0; mret (ret_v r).

Definition yaos_heap_free_4k (addr size : Z) : M ystate unit :=
  call YAOS_heap_free addr size ;; mret tt.

Definition yaos_page_alloc (size : Z) : M ystate Z :=
  r ← call YAOS_page_alloc size 0; mret (ret_v r).

(** The entry called is that of [YAOS_page_alloc]. *)
Definition yaos_page_free (addr size : Z) : M ystate unit :=
  call YAOS_page_alloc addr size ;; mret tt.

Definition yaos_max_physical_mem : M ystate Z :=
  r ← call YAOS_max_physical_mem 0 0; mret (ret_v r).

Definition yaos_malloc (size : Z) : M ystate Z :=
  r ← call YAOS_malloc size 0; mret (ret_v r).

Definition yaos_mfree (addr : Z) : M ystate unit :=
  call YAOS_mfree addr 0 ;; mret tt.

End calls.

(** ** Initialisation

    The entries [DECLARE_YAOSCALL] puts in the section, 16 bytes each, in the order
    of the linker: an address is a position. *)
Definition myabs (a b : Z) : Z := if b <? a then a - b else b - a.

(** [while (p < _yaoscall_data_end) { ... p += step; }] *)
Fixpoint init_entries (fuel : nat) (section : list (Z * yfunc)) (p step : Z) : M ystate unit :=
  match fuel with
  | O => out_of_fuel
  | S fuel =>
      if p <? 16 * Z.of_nat (length section) then
        e ← deref (section !! Z.to_nat (p / 16));
        modify (set_table (fst e) (snd e)) ;;
        init_entries fuel section (p + step) step
      else mret tt
  end.

(** [dummy1_at] and [dummy_at] are the addresses of the two entries of yaoscall.c. *)
Definition init_yaoscall (fuel : nat) (section : list (Z * yfunc)) (dummy1_at dummy_at : Z) (isbp : bool) :
    M ystate Z :=
  if negb isbp then mret 0 else
  let step := myabs dummy1_at dummy_at in
  for_range MAX_YAOSCALL 0 (λ i, modify (set_table (Z.of_nat i) f_dummy)) ;;
  init_entries fuel section 0 step ;;
  mret 0.

(** The declarations of the kernel. *)
Definition declared : list (Z * yfunc) :=
  [(0, f_dummy1); (0, f_dummy); (YAOS_heap_alloc, f_heap_alloc_4k); (YAOS_heap_free, f_heap_free_4k);
   (YAOS_page_alloc, f_page_alloc); (YAOS_page_free, f_page_free); (YAOS_max_physical_mem, f_max_phymem)].

(** ** The table after initialisation *)

(** The function declared last for an identifier. *)
Definition declaration (section : list (Z * yfunc)) (id : Z) : option yfunc :=
  snd <$> list.last (filter (λ e, e.1 = id) section).

Definition set_all (section : list (Z * yfunc)) (s : ystate) : ystate :=
  foldl (λ s e, set_table (fst e) (snd e) s) s section.

Lemma set_all_table section s id :
  pyaoscall_table (set_all section s) id = default (pyaoscall_table s id) (declaration section id).
Proof.
  unfold declaration. induction section as [|[i f] section IH] using rev_ind; [done|].
  unfold set_all in *. rewrite foldl_app, list.filter_app, filter_cons, filter_nil. simpl. destruct (Z.eqb_spec id i) as [->|Hn].
  - rewrite decide_True by done. by rewrite list.last_snoc.
  - rewrite decide_False by congruence. rewrite app_nil_r. apply IH.
Qed.

Lemma set_all_kmem section s : kmem (set_all section s) = kmem s.
Proof. unfold set_all. revert s. induction section as [|e section IH]; intros s; simpl; [done|]. by rewrite IH. Qed.

Lemma init_entries_run section : ∀ rest done_ fuel s,
  section = done_ ++ rest → (length rest < fuel)%nat →
  init_entries fuel section (16 * Z.of_nat (length done_)) 16 s = Ret tt (set_all rest s).
Proof.
  induction rest as [|e rest IH]; intros done_ [|fuel] s Es Hf; simpl in Hf; try lia; cbn [init_entries].
  - destruct (Z.ltb_spec (16 * Z.of_nat (length done_)) (16 * Z.of_nat (length section))) as [Hlt|]; [|done].
    rewrite Es, app_nil_r in Hlt. lia.
  - destruct (Z.ltb_spec (16 * Z.of_nat (length done_)) (16 * Z.of_nat (length section))) as [Hlt|Hge];
      [|rewrite Es, length_app in Hge; simpl in Hge; lia].
    rewrite Z.mul_comm, Z.div_mul, Nat2Z.id by lia.
    assert (section !! length done_ = Some e) as El by (rewrite Es, lookup_app_r, Nat.sub_diag by lia; done).
    rewrite El. do 2 (erewrite bind_ret by reflexivity).
    specialize (IH (done_ ++ [e]) fuel (set_table e.1 e.2 s) ltac:(by rewrite <- app_assoc) ltac:(lia)).
    rewrite length_app in IH. simpl in IH. etrans; [|apply IH]. f_equal. lia.
Qed.

Lemma dummies_run k i s :
  for_range k i (λ j, modify (set_table (Z.of_nat j) f_dummy)) s =
    Ret tt (set_all ((λ j, (Z.of_nat j, f_dummy)) <$> seq i k) s).
Proof.
  revert i s. induction k as [|k IH]; intros i s; simpl; [done|].
  erewrite bind_ret by reflexivity. by rewrite IH.
Qed.

(** After [init_yaoscall] on the boot processor every identifier calls the
    function declared for it last, or the one that reports that the call does not
    exist; this relies on the two entries of yaoscall.c being next to each other
    in the section, since their distance is the step. *)
Theorem init_yaoscall_correct section a b fuel s :
  myabs a b = 16 → (length section < fuel)%nat →
  ∃ s', init_yaoscall fuel section a b true s = Ret 0 s' ∧ kmem s' = kmem s ∧
    ∀ id, 0 ≤ id < Z.of_nat MAX_YAOSCALL →
      pyaoscall_table s' id = default f_dummy (declaration section id).
Proof.
  intros Hab Hf. unfold init_yaoscall. cbn [negb]. rewrite Hab.
  rewrite (bind_ret _ _ _ _ _ (dummies_run MAX_YAOSCALL 0 s)).
  set (s1 := set_all _ s).
  pose proof (init_entries_run section section [] fuel s1 eq_refl Hf) as E. simpl in E.
  rewrite (bind_ret _ _ _ _ _ E). eexists. split; [done|]. split; [by rewrite !set_all_kmem|].
  intros id Hid. rewrite set_all_table. unfold s1. rewrite set_all_table. destruct (declaration section id); [done|].
  simpl. unfold declaration, MAX_YAOSCALL in *.
  assert (id = 0 ∨ id = 1 ∨ id = 2 ∨ id = 3 ∨ id = 4 ∨ id = 5 ∨ id = 6 ∨ id = 7) as Hc by lia.
  repeat destruct Hc as [->|Hc]; [reflexivity..|subst id; reflexivity].
Qed.

(** The memory of the boot processor with an empty table. *)
Definition sample_y : ystate := mk_y (λ _, f_dummy1) sample_heap.

Lemma init_yaoscall_correct_witness :
  ∃ s', init_yaoscall 10 declared 0 16 true sample_y = Ret 0 s' ∧
    pyaoscall_table s' YAOS_heap_free = f_heap_free_4k ∧ pyaoscall_table s' YAOS_malloc = f_dummy.
Proof.
  destruct (init_yaoscall_correct declared 0 16 10 sample_y eq_refl) as (s' & E & _ & Ht); [simpl; lia|].
  exists s'. split; [exact E|]. split.
  - rewrite (Ht YAOS_heap_free) by (vm_compute; split; congruence). reflexivity.
  - rewrite (Ht YAOS_malloc) by (vm_compute; split; congruence). reflexivity.
Defined.

(** ** The heap calls implement [BlockSource] *)

Section blocks.
Context (module_call : nat → Z → Z → M ystate ret_t).

Definition y_inv (s : ystate) : Prop :=
  heap_inv (kmem s) ∧ pyaoscall_table s YAOS_heap_alloc = f_heap_alloc_4k ∧
  pyaoscall_table s YAOS_heap_free = f_heap_free_4k.

Definition y_free (s : ystate) (x : Z) : Prop := heap_free (kmem s) x.

Lemma mask_aligned z : aligned 0x1000 z → z .& 0xfff = 0.
Proof. intros Hz. change 0xfff with (2 ^ 12 - 1). rewrite land_mask by lia. exact Hz. Qed.

Lemma y_alloc_ok s z :
  y_inv s → 0 < z ≤ 2 ^ 64 - 0x1000 → aligned 0x1000 z →
  match yaos_heap_alloc_4k module_call z s with
  | Ret a s' => handed_4k y_inv y_free z s a s'
  | Panicked => True
  | _ => False
  end.
Proof.
  intros (Hi & Ht1 & Ht2) Hz Hza. unfold yaos_heap_alloc_4k, call. rewrite bind_assoc.
  erewrite bind_ret by reflexivity. rewrite Ht1. unfold heap_alloc_4k. rewrite bind_assoc.
  erewrite bind_ret by (unfold ASSERT; rewrite mask_aligned by done; reflexivity). rewrite bind_assoc.
  pose proof (heap_4k_ok (kmem s) z Hi Hz Hza) as HK.
  unfold on_kmem, mbind, M_bind, zoom.
  destruct (alloc_kheap_4k kheap_fuel z (kmem s)) as [a k'| | | | |]; try done.
  destruct HK as (Hi' & Hb & Ha). by repeat split.
Qed.

Lemma y_free_ok s a z :
  y_inv s → 0 < a → 0 < z → a + z < 2 ^ 64 → aligned 0x1000 a → aligned 0x1000 z →
  (∀ x, a ≤ x < a + z → ¬ y_free s x) →
  match yaos_heap_free_4k module_call a z s with
  | Ret _ s' => y_inv s' ∧ ∀ x, y_free s' x ↔ y_free s x ∨ a ≤ x < a + z
  | Panicked => True
  | _ => False
  end.
Proof.
  intros (Hi & Ht1 & Ht2) Ha Hz Haz Haa Hza Hn. unfold yaos_heap_free_4k, call. rewrite bind_assoc.
  erewrite bind_ret by reflexivity. rewrite Ht2. unfold heap_free_4k. rewrite bind_assoc.
  erewrite bind_ret by (unfold ASSERT; rewrite !mask_aligned by done; reflexivity). rewrite bind_assoc.
  pose proof (heap_free_4k_ok (kmem s) a z Hi Ha Hz Haz Haa Hza Hn) as HK.
  unfold on_kmem, mbind, M_bind, zoom.
  destruct (free_kheap_4k a z (kmem s)) as [u k'| | | | |]; try done.
  destruct HK as [Hi' Hb]. split; [by split|exact Hb].
Qed.

Definition y_blocks : BlockSource ystate := {|
  bk_alloc := yaos_heap_alloc_4k module_call;
  bk_free := yaos_heap_free_4k module_call;
  bk_inv := y_inv;
  bk_free_byte := y_free;
  bk_alloc_ok := y_alloc_ok;
  bk_free_ok := y_free_ok
|}.

(** [yaos_page_free] goes through the entry of [YAOS_page_alloc]: the address is
    taken for a size, and the call stops in the assertion of [page_alloc] for every
    address but one; it never frees the page. *)
Theorem yaos_page_free_asserts s addr size :
  pyaoscall_table s YAOS_page_alloc = f_page_alloc → addr ≠ PAGE_SIZE →
  yaos_page_free module_call addr size s = AssertFailed.
Proof.
  intros Ht Ha. unfold yaos_page_free, call. rewrite bind_assoc. erewrite bind_ret by reflexivity. rewrite Ht.
  unfold page_alloc, mbind, M_bind, ASSERT. by rewrite (proj2 (Z.eqb_neq addr PAGE_SIZE) Ha).
Qed.

End blocks.

Lemma yaos_page_free_asserts_witness :
  yaos_page_free (λ _ _ _, dummy) 0x400000 PAGE_SIZE (set_table YAOS_page_alloc f_page_alloc sample_y) = AssertFailed.
Proof. apply yaos_page_free_asserts; [reflexivity|discriminate]. Defined.
