(* ===== verification/Slub.v ===== *)
(** * The slab allocator (module/mm/slub.c, module/mm/slub.h)

    Caches of equal-sized objects carved out of 4 KiB pages, free objects on a
    list threaded through their first word, and four bits per page of memory that
    say which cache a page belongs to.  Pages come from the heap through the
    interface [BlockSource] of Pages.v, which YaosCall.v implements. *)

From Stdlib Require Import Lia ZArith.
From stdpp Require Import base list sets numbers option.
From S2P Require Import Prelude Chain Holes Pages Bitops Phymem Kheap YaosCall.

#[local] Open Scope Z_scope.
#[local] Open Scope yaos_scope.

Definition PAGE_4K_SHIFT : Z := 12.
Definition PAGE_4K_SIZE : Z := 0x1000.
Definition LARGE_IDX : Z := 15.
Definition LARGE_NEXT : Z := 14.
Definition ZERO_SIZE_PTR : Z := 16.
Definition MAX_ORDER : Z := 11.
Definition KMALLOC_SHIFT_LOW : nat := 3.
Definition KMALLOC_SHIFT_HIGH : nat := 12.
Definition KMALLOC_MAX_SIZE : Z := 1 .<< (MAX_ORDER + PAGE_4K_SHIFT).
Definition KMALLOC_MAX_CACHE_SIZE : Z := 1 .<< Z.of_nat KMALLOC_SHIFT_HIGH.

Definition size_index : list Z :=
  [3; 4; 5; 5; 6; 6; 6; 6; 1; 1; 1; 1; 7; 7; 7; 7; 2; 2; 2; 2; 2; 2; 2; 2].

(** The sizes of [kmalloc_info]; the names are for display. *)
Definition kmalloc_info : list Z :=
  [0; 96; 192; 8; 16; 32; 64; 128; 256; 512; 1024; 2048; 4096; 8192; 16384; 32768; 65536; 131072;
   262144; 524288; 1048576; 2097152; 4194304; 8388608; 16777216; 33554432; 67108864].

(** ** Choosing a cache *)

Definition size_index_elem (bytes : Z) : Z := (bytes - 1) / 8.

(** The result of [kmalloc_slab]: NULL, ZERO_SIZE_PTR or the address of a cache. *)
Inductive slab : Type := NoSlab | ZeroSize | Slab (index : Z).

Definition kmalloc_slab (size : Z) : slab :=
  if KMALLOC_MAX_SIZE <? size then NoSlab else
  if size <=? 192 then
    if size =? 0 then ZeroSize else
    Slab (nth (Z.to_nat (size_index_elem size)) size_index 0)
  else Slab (fls (size - 1)).

(** The reference of slub.h: the cache a size belongs to, size by size. *)
Definition kmalloc_index (size : Z) : option Z :=
  if size =? 0 then Some 0 else
  if size <=? 8 then Some 3 else
  if (64 <? size) && (size <=? 96) then Some 1 else
  if (128 <? size) && (size <=? 192) then Some 2 else
  if size <=? 8 then Some 3 else
  if size <=? 16 then Some 4 else
  if size <=? 32 then Some 5 else
  if size <=? 64 then Some 6 else
  if size <=? 128 then Some 7 else
  if size <=? 256 then Some 8 else
  if size <=? 512 then Some 9 else
  if size <=? 1024 then Some 10 else
  if size <=? 2 * 1024 then Some 11 else
  if size <=? 4 * 1024 then Some 12 else
  if size <=? 8 * 1024 then Some 13 else
  if size <=? 16 * 1024 then Some 14 else
  if size <=? 32 * 1024 then Some 15 else
  if size <=? 64 * 1024 then Some 16 else
  if size <=? 128 * 1024 then Some 17 else
  if size <=? 256 * 1024 then Some 18 else
  if size <=? 512 * 1024 then Some 19 else
  if size <=? 1024 * 1024 then Some 20 else
  if size <=? 2 * 1024 * 1024 then Some 21 else
  if size <=? 4 * 1024 * 1024 then Some 22 else
  if size <=? 8 * 1024 * 1024 then Some 23 else
  if size <=? 16 * 1024 * 1024 then Some 24 else
  if size <=? 32 * 1024 * 1024 then Some 25 else
  if size <=? 64 * 1024 * 1024 then Some 26 else
  None.

(** ** State *)

Record kmem_cache : Type := mk_cache { k_idx : Z; k_size : Z; freehead : Z }.

(** [kmalloc_caches] of one processor (the entries 14 and 15 lie behind the array of
    13, see [create_kmalloc_caches]), [page_bits], the first words of the free
    objects, and the kernel behind the system calls. *)
Record slub (H : Type) : Type := mk_slub {
  caches : Z → kmem_cache;
  page_bits : list Z;
  links : Z → Z;
  sheap : H
}.
Arguments mk_slub {H} _ _ _ _.
Arguments caches {H} _.
Arguments page_bits {H} _.
Arguments links {H} _.
Arguments sheap {H} _.

Section slub.
Context {H : Type} `{BlockSource H}.

Definition set_cache (i : Z) (c : kmem_cache) : M (slub H) unit :=
  modify (λ s, mk_slub (λ j, if j =? i then c else caches s j) (page_bits s) (links s) (sheap s)).
Definition set_bits (b : list Z) : M (slub H) unit :=
  modify (λ s, mk_slub (caches s) b (links s) (sheap s)).
Definition set_link (p v : Z) : M (slub H) unit :=
  modify (λ s, mk_slub (caches s) (page_bits s) (λ x, if x =? p then v else links s x) (sheap s)).
Definition on_heap {A} (m : M H A) : M (slub H) A :=
  zoom sheap (λ h s, mk_slub (caches s) (page_bits s) (links s) h) m.

Definition set_freehead (i p : Z) : M (slub H) unit :=
  c ← gets (λ s, caches s i);
  set_cache i (mk_cache (k_idx c) (k_size c) p).

(** ** Initialisation *)

Definition new_kmalloc_cache (idx : Z) : M (slub H) unit :=
  size ← deref (kmalloc_info !! Z.to_nat idx);
  set_cache idx (mk_cache (u8 idx) (s32 size) 0) ;;
  ASSERT (idx <? 1 .<< 16).

Definition create_kmalloc_caches : M (slub H) unit :=
  for_range (S KMALLOC_SHIFT_HIGH - KMALLOC_SHIFT_LOW) KMALLOC_SHIFT_LOW (λ i,
    new_kmalloc_cache (Z.of_nat i) ;;
    (if (i =? 6)%nat then new_kmalloc_cache 1 else mret tt) ;;
    (if (i =? 7)%nat then new_kmalloc_cache 2 else mret tt)) ;;
  new_kmalloc_cache LARGE_IDX ;;
  new_kmalloc_cache LARGE_NEXT.

(** The size in bytes of the array for memory up to [maxaddr]. *)
Definition page_bits_size (maxaddr : Z) : Z :=
  let size := maxaddr .>> PAGE_4K_SHIFT in
  let size := size / 2 in
  let size := size + 1 in
  let size := u64 (size + (PAGE_4K_SIZE - 1)) in
  size .& u64 (Z.lnot 0xfff).

Definition init_slub_bp (maxaddr : Z) : M (slub H) unit :=
  let size := page_bits_size maxaddr in
  a ← on_heap (bk_alloc size);
  if a =? 0 then fault else
  set_bits (replicate (Z.to_nat size) 0).

Definition init_slub_ap : M (slub H) unit := create_kmalloc_caches.

(** ** The bits of a page *)

Definition get_bits (offset : Z) : M (slub H) Z :=
  bs ← gets page_bits;
  b ← deref (bs !! Z.to_nat (offset / 2));
  mret (if negb (offset .& 1 =? 0) then (b .>> 4) .& 0xf else b .& 0xf).

(** [page_bits[offset / 2] |= v << 4] or [|= v]. *)
Definition or_bits (offset v : Z) : M (slub H) unit :=
  bs ← gets page_bits;
  b ← deref (bs !! Z.to_nat (offset / 2));
  set_bits (<[Z.to_nat (offset / 2) := u8 (b .| (if negb (offset .& 1 =? 0) then v .<< 4 else v))]> bs).

Definition get_cache_from_addr (addr : Z) : M (slub H) Z :=
  get_bits (addr .>> PAGE_4K_SHIFT).

(** ** Freeing *)

(** [do { size += PAGE_4K_SIZE; offset++; ... } while (idx == LARGE_NEXT);] *)
Fixpoint large_size (fuel : nat) (size offset : Z) : M (slub H) Z :=
  match fuel with
  | O => out_of_fuel
  | S fuel =>
      let size := u64 (size + PAGE_4K_SIZE) in
      let offset := offset + 1 in
      idx ← get_bits offset;
      if idx =? LARGE_NEXT then large_size fuel size offset else mret size
  end.

Definition __kmfree (fuel : nat) (p : Z) : M (slub H) unit :=
  if p =? ZERO_SIZE_PTR then mret tt else
  i ← get_cache_from_addr p;
  c ← gets (λ s, caches s i);
  if k_idx c =? LARGE_IDX then
    size ← large_size fuel 0 (p .>> PAGE_4K_SHIFT);
    on_heap (bk_free p size)
  else
    set_link p (freehead c) ;;
    set_freehead i p.

(** ** Allocating *)

(** [while (pnext < pend) { pfree->pnext = pnext; pfree = pnext; ... }]: the last object. *)
Fixpoint thread_page (fuel : nat) (pfree pend size : Z) : M (slub H) Z :=
  match fuel with
  | O => out_of_fuel
  | S fuel =>
      let pnext := u64 (pfree + size) in
      if pnext <? pend then
        set_link pfree pnext ;;
        thread_page fuel pnext pend size
      else mret pfree
  end.

Definition SLAB_FUEL : nat := 513.

Definition slub_add_page (i : Z) : M (slub H) bool :=
  addr ← on_heap (bk_alloc PAGE_4K_SIZE);
  if addr =? 0 then mret false else
  c ← gets (λ s, caches s i);
  last ← thread_page SLAB_FUEL addr (u64 (addr + PAGE_4K_SIZE)) (k_size c);
  set_link last (freehead c) ;;
  set_freehead i addr ;;
  ASSERT (k_idx c <? 16) ;;
  or_bits (addr .>> PAGE_4K_SHIFT) (k_idx c) ;;
  mret true.

Definition __kmalloc (size : Z) : M (slub H) Z :=
  match kmalloc_slab size with
  | ZeroSize => mret ZERO_SIZE_PTR
  | NoSlab => mret 0
  | Slab i =>
      c ← gets (λ s, caches s i);
      pfree ← (if freehead c =? 0 then
                 ok ← slub_add_page i;
                 if negb ok then mret None else
                 c ← gets (λ s, caches s i);
                 ASSERT (negb (freehead c =? 0)) ;;
                 mret (Some (freehead c))
               else mret (Some (freehead c)));
      match pfree with
      | None => mret 0
      | Some p =>
          pnext ← gets (λ s, links s p);
          set_freehead i pnext ;;
          mret p
      end
  end.

(** [while (offset < (addr + newsize) >> PAGE_4K_SHIFT) { ... offset++; }] *)
Fixpoint mark_next (n : nat) (offset : Z) : M (slub H) unit :=
  match n with
  | O => mret tt
  | S n => or_bits offset LARGE_NEXT ;; mark_next n (offset + 1)
  end.

Definition __kmalloc_large (size : Z) : M (slub H) Z :=
  let newsize := u64 (size + 0xfff) .& u64 (Z.lnot 0xfff) in
  addr ← on_heap (bk_alloc newsize);
  if addr =? 0 then mret 0 else
  let offset := addr .>> PAGE_4K_SHIFT in
  or_bits offset LARGE_IDX ;;
  let offset := offset + 1 in
  mark_next (Z.to_nat ((u64 (addr + newsize) .>> PAGE_4K_SHIFT) - offset)) offset ;;
  mret addr.

Definition slub_mfree (fuel : nat) (p : Z) : M (slub H) ret_t :=
  __kmfree fuel p ;;
  mret (mk_ret 0 YAOSCALL_OK).

Definition slub_malloc (size : Z) : M (slub H) ret_t :=
  addr ← (if KMALLOC_MAX_CACHE_SIZE <? size then __kmalloc_large size else __kmalloc size);
  mret (mk_ret addr (if addr =? 0 then ERR_YAOSCALL_NO_MEM else YAOSCALL_OK)).

(** The module's event handler on the boot processor, with what it registers. *)
Inductive modevent : Type := MOD_BPLOAD | MOD_APLOAD | MOD_other.

Definition slub_main (maxaddr : Z) (is_bp : bool) (env : modevent) : M (slub H) (list Z) :=
  match env with
  | MOD_BPLOAD => init_slub_bp maxaddr ;; init_slub_ap ;; mret [YAOS_malloc; YAOS_mfree]
  | MOD_APLOAD => (if negb is_bp then init_slub_ap else mret tt) ;; mret []
  | MOD_other => mret []
  end.

End slub.

(** ** The choice of a cache *)

Definition info (i : Z) : Z := nth (Z.to_nat i) kmalloc_info 0.

(** A size is in the class of [i]. *)
Definition class_of (size i : Z) : Prop :=
  kmalloc_index size = Some i ∧ size ≤ info i ∧ ∀ j, 1 ≤ j ≤ 26 → size ≤ info j → info i ≤ info j.

(** The caches in order of size. *)
Definition classes : list (Z * Z * Z) :=
  [(0, 8, 3); (8, 16, 4); (16, 32, 5); (32, 64, 6); (64, 96, 1); (96, 128, 7); (128, 192, 2); (192, 256, 8)] ++
  ((λ k, (2 ^ (Z.of_nat k - 1), 2 ^ Z.of_nat k, Z.of_nat k)) <$> seq 9 15).

(** A boolean check of one class: the bounds are those of the reference and of the
    table of sizes. *)
Definition class_check (c : Z * Z * Z) : bool :=
  let '(lo, hi, i) := c in
  (info i =? hi) && forallb (λ j, let n := info (Z.of_nat j) in (n <=? lo) || (hi <=? n)) (seq 1 26).

Lemma classes_checked : forallb class_check classes = true.
Proof. vm_compute. reflexivity. Qed.

Lemma class_reference lo hi i size :
  (lo, hi, i) ∈ classes → lo < size ≤ hi → kmalloc_index size = Some i.
Proof.
  intros Hin Hs. unfold kmalloc_index.
  assert (∀ l, (lo, hi, i) ∈ l → l = classes → kmalloc_index size = Some i) as HA; [|by eapply HA].
  intros l Hl ->. vm_compute in Hl. repeat (apply elem_of_cons in Hl as [Hl|Hl];
    [injection Hl as -> -> ->; unfold kmalloc_index;
     repeat match goal with
     | |- context [?a =? ?b] => destruct (Z.eqb_spec a b); [lia|]
     | |- context [?a <=? ?b] => destruct (Z.leb_spec a b); [|lia]
     | |- context [?a <=? ?b] => destruct (Z.leb_spec a b); [lia|]
     | |- context [?a <? ?b] => destruct (Z.ltb_spec a b); [|lia]
     | |- context [?a <? ?b] => destruct (Z.ltb_spec a b); [lia|]
     | |- context [andb _ _] => progress simpl
     end; reflexivity|]).
  by apply not_elem_of_nil in Hl.
Qed.

Lemma class_ok lo hi i size : (lo, hi, i) ∈ classes → lo < size ≤ hi → class_of size i.
Proof.
  intros Hin Hs. pose proof classes_checked as HC. rewrite forallb_forall in HC.
  specialize (HC _ (proj1 (list_elem_of_In _ _) Hin)). apply andb_true_iff in HC as [Hi HJ].
  apply Z.eqb_eq in Hi. split; [by eapply class_reference|]. split; [lia|].
  intros j Hj Hsz. rewrite forallb_forall in HJ. specialize (HJ (Z.to_nat j)).
  rewrite Z2Nat.id in HJ by lia. apply orb_true_iff in HJ as [HJ|HJ];
    [apply Z.leb_le in HJ; lia|apply Z.leb_le in HJ; lia|apply in_seq; lia].
Qed.

Lemma slab_small size :
  0 < size ≤ 192 → ∃ lo hi i, kmalloc_slab size = Slab i ∧ (lo, hi, i) ∈ classes ∧ lo < size ≤ hi.
Proof.
  intros Hs.
  assert (forallb (λ n, let size := Z.of_nat n in
    existsb (λ c : Z * Z * Z, let '(lo, hi, i) := c in
      match kmalloc_slab size with Slab j => (j =? i) && (lo <? size) && (size <=? hi) | _ => false end)
      classes) (seq 1 192) = true) as HF by (vm_compute; reflexivity).
  rewrite forallb_forall in HF. specialize (HF (Z.to_nat size) ltac:(apply in_seq; lia)).
  rewrite Z2Nat.id in HF by lia. cbv zeta in HF.
  apply existsb_exists in HF as ([[lo hi] i] & Hin & HF).
  destruct (kmalloc_slab size) as [| |j]; try done.
  apply andb_true_iff in HF as [[Hj Hlo]%andb_true_iff Hhi].
  apply Z.eqb_eq in Hj. apply Z.ltb_lt in Hlo. apply Z.leb_le in Hhi. subst j.
  exists lo, hi, i. split_and!; try done. by apply list_elem_of_In.
Qed.

Lemma slab_power size :
  192 < size ≤ KMALLOC_MAX_SIZE →
  ∃ lo hi i, kmalloc_slab size = Slab i ∧ (lo, hi, i) ∈ classes ∧ lo < size ≤ hi ∧ 8 ≤ i ≤ 23 ∧ hi = 2 ^ i.
Proof.
  intros Hs. change KMALLOC_MAX_SIZE with 8388608 in Hs. unfold kmalloc_slab. change KMALLOC_MAX_SIZE with 8388608.
  destruct (Z.ltb_spec 8388608 size); [lia|]. destruct (Z.leb_spec size 192); [lia|].
  pose proof (fls_spec (size - 1) ltac:(rewrite pow32; lia)) as Hf. set (k := fls (size - 1)) in *.
  assert (8 ≤ k ≤ 23) as Hk.
  { split.
    - destruct (decide (8 ≤ k)); [done|]. pose proof (Z.pow_le_mono_r 2 k 7). lia.
    - destruct (decide (k ≤ 23)); [done|]. pose proof (Z.pow_le_mono_r 2 23 (k - 1)). lia. }
  destruct (decide (k = 8)) as [E|].
  - rewrite E in *. exists 192, 256, 8. split_and!; try lia.
    + done.
    + unfold classes. apply elem_of_app. left. rewrite !elem_of_cons. auto 10.
  - exists (2 ^ (k - 1)), (2 ^ k), k. split_and!; try lia; [done|].
    unfold classes. apply elem_of_app. right. apply list_elem_of_fmap. exists (Z.to_nat k).
    rewrite Z2Nat.id by lia. split; [done|]. apply elem_of_seq. lia.
Qed.

Lemma kmalloc_slab_class size :
  0 < size ≤ KMALLOC_MAX_SIZE → ∃ i, kmalloc_slab size = Slab i ∧ class_of size i.
Proof.
  intros Hs. destruct (decide (size ≤ 192)).
  - destruct (slab_small size) as (lo & hi & i & E & Hin & Hb); [lia|]. exists i. split; [done|]. by eapply class_ok.
  - destruct (slab_power size) as (lo & hi & i & E & Hin & Hb & _); [lia|]. exists i. split; [done|].
    by eapply class_ok.
Qed.

(** [kmalloc_slab] chooses for every size up to the largest the cache the reference of
    slub.h names: one whose objects have room for the size, and the smallest such. *)
Theorem kmalloc_slab_correct size :
  0 < size ≤ KMALLOC_MAX_SIZE →
  ∃ i, kmalloc_slab size = Slab i ∧ kmalloc_index size = Some i ∧ size ≤ info i ∧
    ∀ j, 1 ≤ j ≤ 26 → size ≤ info j → info i ≤ info j.
Proof. apply kmalloc_slab_class. Qed.

Lemma kmalloc_slab_correct_witness :
  ∃ i, kmalloc_slab 100 = Slab i ∧ kmalloc_index 100 = Some i ∧ 100 ≤ info i.
Proof.
  destruct (kmalloc_slab_correct 100) as (i & E & R & Hi & _); [|by exists i].
  change KMALLOC_MAX_SIZE with 8388608. lia.
Defined.

(** ** Lists of free objects *)

(** The [n] objects of [size] bytes from [a] on. *)
Fixpoint objects (n : nat) (a size : Z) : list Z :=
  match n with O => [] | S n => a :: objects n (a + size) size end.

Lemma elem_of_objects n a size x :
  x ∈ objects n a size ↔ ∃ k, 0 ≤ k < Z.of_nat n ∧ x = a + k * size.
Proof.
  revert a. induction n as [|n IH]; intros a; cbn [objects].
  - split; [by intros ?%not_elem_of_nil|]. intros (k & ? & _). lia.
  - rewrite elem_of_cons, IH. split.
    + intros [->|(k & Hk & ->)]; [exists 0; lia|exists (k + 1); lia].
    + intros (k & Hk & ->). destruct (decide (k = 0)) as [->|]; [left; lia|right]. exists (k - 1). lia.
Qed.

Lemma objects_nodup n a size : 0 < size → NoDup (objects n a size).
Proof.
  intros Hs. revert a. induction n as [|n IH]; intros a; cbn [objects]; [by apply NoDup_nil_2|].
  apply list.NoDup_cons. split; [|apply IH]. rewrite elem_of_objects. intros (k & Hk & E). nia.
Qed.

(** Objects threaded one after the other and then the list [l]. *)
Lemma clist_objects lk p l n a size :
  0 < size → 0 < a →
  (∀ k, 0 ≤ k < Z.of_nat n → lk (a + k * size) = a + (k + 1) * size) →
  lk (a + Z.of_nat n * size) = p → clist lk p l → clist lk a (objects (S n) a size ++ l).
Proof.
  intros Hs. revert a. induction n as [|n IH]; intros a Ha Hk Hp Hl.
  - replace (a + Z.of_nat 0 * size) with a in Hp by lia. unfold clist in *. simpl.
    rewrite ptr_Some by lia. split; [done|]. exists (ptr p). split; [|done]. unfold next_of. by rewrite Hp.
  - unfold clist. cbn [objects app]. rewrite ptr_Some by lia. split; [done|]. exists (Some (a + size)). split.
    + unfold next_of. specialize (Hk 0 ltac:(lia)). rewrite Z.add_0_r in Hk.
      rewrite Hk, ptr_Some by lia. f_equal. f_equal. lia.
    + specialize (IH (a + size)). rewrite <- (ptr_Some (a + size)) by lia. apply IH; [lia| |by rewrite <- Hp; f_equal; lia|done].
      intros k Hk'. specialize (Hk (k + 1) ltac:(lia)). replace (a + size + k * size) with (a + (k + 1) * size) by lia.
      rewrite Hk. lia.
Qed.

(** ** The bits of a page *)

(** The four bits of the page [p]. *)
Definition nibble (bits : list Z) (p : Z) : option Z :=
  b ← bits !! Z.to_nat (p / 2);
  mret (if negb (p .& 1 =? 0) then (b .>> 4) .& 0xf else b .& 0xf).

Lemma nibble_ops b w :
  0 ≤ b < 256 → 0 ≤ w < 16 →
  u8 (b .| w) .& 0xf = (b .& 0xf) .| w ∧ (u8 (b .| w) .>> 4) .& 0xf = (b .>> 4) .& 0xf ∧
  u8 (b .| (w .<< 4)) .& 0xf = b .& 0xf ∧ (u8 (b .| (w .<< 4)) .>> 4) .& 0xf = ((b .>> 4) .& 0xf) .| w.
Proof.
  intros Hb Hw.
  assert (forallb (λ nb, forallb (λ nw, let b := Z.of_nat nb in let w := Z.of_nat nw in
    (u8 (b .| w) .& 0xf =? (b .& 0xf) .| w) && ((u8 (b .| w) .>> 4) .& 0xf =? (b .>> 4) .& 0xf) &&
    (u8 (b .| (w .<< 4)) .& 0xf =? b .& 0xf) && ((u8 (b .| (w .<< 4)) .>> 4) .& 0xf =? ((b .>> 4) .& 0xf) .| w))
    (seq 0 16)) (seq 0 256) = true) as HF by (vm_compute; reflexivity).
  rewrite forallb_forall in HF. specialize (HF (Z.to_nat b) ltac:(apply in_seq; lia)).
  rewrite forallb_forall in HF. specialize (HF (Z.to_nat w) ltac:(apply in_seq; lia)). cbv zeta in HF.
  rewrite !Z2Nat.id in HF by lia. rewrite !andb_true_iff, !Z.eqb_eq in HF. tauto.
Qed.

Lemma bit0 p : p .& 1 = p mod 2.
Proof. exact (land_mask 1 p ltac:(lia)). Qed.

(** What [or_bits] does to the array. *)
Definition bits_or (bits : list Z) (p w : Z) : list Z :=
  alter (λ b, u8 (b .| (if negb (p .& 1 =? 0) then w .<< 4 else w))) (Z.to_nat (p / 2)) bits.

Definition bytes_ok (bits : list Z) : Prop := Forall (λ b, 0 ≤ b < 256) bits.

Lemma bits_or_ok bits p w : bytes_ok bits → bytes_ok (bits_or bits p w).
Proof.
  intros Hb. unfold bits_or, bytes_ok in *. rewrite list.Forall_forall in *. intros b [j Hj]%list_elem_of_lookup.
  destruct (decide (j = Z.to_nat (p / 2))) as [->|].
  - rewrite list_lookup_alter in Hj. rewrite decide_True in Hj by done.
    destruct (bits !! _); simpl in Hj; [|done]. simplify_eq. apply (wrap_range 8). lia.
  - rewrite list_lookup_alter_ne in Hj by done. apply Hb. by eapply list_elem_of_lookup_2.
Qed.

Lemma nibble_or bits p w q :
  bytes_ok bits → 0 ≤ p → 0 ≤ q → 0 ≤ w < 16 →
  nibble (bits_or bits p w) q = if q =? p then (λ v, v .| w) <$> nibble bits p else nibble bits q.
Proof.
  intros Hb Hp Hq Hw. unfold nibble, bits_or. rewrite !bit0.
  destruct (decide (q / 2 = p / 2)) as [Ed|Nd].
  - rewrite Ed, list_lookup_alter, decide_True by done.
    destruct (bits !! Z.to_nat (p / 2)) as [b|] eqn:Eb; simpl; [|by destruct (q =? p)].
    assert (0 ≤ b < 256) as Hbb.
    { unfold bytes_ok in Hb. rewrite list.Forall_forall in Hb. apply Hb. by eapply list_elem_of_lookup_2. }
    destruct (nibble_ops b w Hbb Hw) as (E1 & E2 & E3 & E4).
    pose proof (Z.div_mod p 2 ltac:(lia)). pose proof (Z.div_mod q 2 ltac:(lia)).
    pose proof (Z.mod_pos_bound p 2 ltac:(lia)). pose proof (Z.mod_pos_bound q 2 ltac:(lia)).
    destruct (Z.eqb_spec (p mod 2) 0), (Z.eqb_spec (q mod 2) 0), (Z.eqb_spec q p); try lia; simpl; by f_equal.
  - rewrite list_lookup_alter_ne.
    + destruct (Z.eqb_spec q p); [by subst|done].
    + intros E. apply Nd. pose proof (Z.div_pos p 2). pose proof (Z.div_pos q 2). lia.
Qed.

Section runs.
Context {H : Type} `{BlockSource H}.
Implicit Types s : slub H.

Definition with_bits s (b : list Z) : slub H := mk_slub (caches s) b (links s) (sheap s).

Lemma get_bits_run s p v : nibble (page_bits s) p = Some v → get_bits p s = Ret v s.
Proof.
  unfold nibble, get_bits. intros E. erewrite bind_ret by reflexivity.
  destruct (page_bits s !! _) as [b|]; simpl in E; [|done]. injection E as <-. reflexivity.
Qed.

Lemma or_bits_run s p w :
  is_Some (nibble (page_bits s) p) → or_bits p w s = Ret tt (with_bits s (bits_or (page_bits s) p w)).
Proof.
  unfold nibble, or_bits. intros [v E]. erewrite bind_ret by reflexivity.
  destruct (page_bits s !! _) as [b|] eqn:Eb; simpl in E; [|done]. erewrite bind_ret by reflexivity.
  unfold set_bits, modify, with_bits, bits_or. f_equal. f_equal. apply list_eq. intros j.
  destruct (decide (j = Z.to_nat (p / 2))) as [->|].
  - rewrite list_lookup_insert_eq, list_lookup_alter, decide_True, Eb by (done || by eapply lookup_lt_Some). done.
  - by rewrite list_lookup_insert_ne, list_lookup_alter_ne by done.
Qed.


Definition with_links s (lk : Z → Z) : slub H := mk_slub (caches s) (page_bits s) lk (sheap s).

(** The loop threads the objects that start in the page and stops at the last one. *)
Lemma thread_page_run n fuel a pend size s :
  (S n ≤ fuel)%nat → 0 < size → 0 ≤ a → a + (Z.of_nat n + 1) * size < 2 ^ 64 →
  a + Z.of_nat n * size < pend ≤ a + (Z.of_nat n + 1) * size →
  ∃ lk, thread_page fuel a pend size s = Ret (a + Z.of_nat n * size) (with_links s lk) ∧
    (∀ k, 0 ≤ k < Z.of_nat n → lk (a + k * size) = a + (k + 1) * size) ∧
    (∀ x, x < a ∨ a + Z.of_nat n * size ≤ x → lk x = links s x).
Proof.
  intros Hf Hs. revert fuel Hf a s. induction n as [|n IH]; intros [|fuel] Hf a s Ha Hb Hp; try lia; cbn [thread_page].
  - exists (links s). rewrite (u64_id (a + size)) by (unfold in_u; lia).
    destruct (Z.ltb_spec (a + size) pend); [lia|].
    replace (a + Z.of_nat 0 * size) with a by lia. split; [by destruct s|]. split; [lia|done].
  - rewrite (u64_id (a + size)) by (unfold in_u; nia).
    destruct (Z.ltb_spec (a + size) pend); [|nia].
    unfold set_link at 1. erewrite bind_ret by reflexivity.
    match goal with |- context [thread_page _ _ _ _ ?s1] => set (s' := s1) end.
    destruct (IH fuel ltac:(lia) (a + size) s' ltac:(lia) ltac:(lia) ltac:(lia)) as (lk & Hrun & Hin & Hout).
    exists lk. rewrite Hrun. split; [f_equal; lia|]. split.
    + intros k Hk. destruct (decide (k = 0)) as [->|].
      * rewrite Z.add_0_r, Hout by lia. subst s'. cbn. rewrite Z.eqb_refl. lia.
      * specialize (Hin (k - 1) ltac:(lia)). replace (a + size + (k - 1) * size) with (a + k * size) in Hin by lia.
        rewrite Hin. lia.
    + intros x Hx. rewrite Hout by lia. subst s'. cbn. destruct (Z.eqb_spec x a); [nia|done].
Qed.

(** ** Invariant *)

(** The object [a] of the cache [i]: its page carries the number of the cache. *)
Definition object s (a i : Z) : Prop :=
  0x1000 ≤ a ∧ aligned (2 ^ i) a ∧ nibble (page_bits s) (a / 0x1000) = Some i.

(** The number of pages of a large block. *)
Definition npages (z : Z) : Z := (z + 0xfff) / 0x1000.

Definition large s (a z : Z) : Prop :=
  0 < a ∧ aligned 0x1000 a ∧ nibble (page_bits s) (a / 0x1000) = Some LARGE_IDX ∧
  (∀ k, 0 < k < npages z → nibble (page_bits s) (a / 0x1000 + k) = Some LARGE_NEXT) ∧
  is_Some (nibble (page_bits s) (a / 0x1000 + npages z)) ∧
  ∀ x, a ≤ x < a + npages z * 0x1000 → ¬ bk_free_byte (sheap s) x.

(** The caches of power-of-two sizes. *)
Definition pow_cache (i : Z) : Prop := 3 ≤ i ≤ 12.

(** [fl i] are the free objects of the cache [i], [live] the blocks handed out, with
    the sizes asked for. *)
Record slub_inv s (fl : Z → list Z) (live : list (Z * Z)) : Prop := {
  inv_heap : bk_inv (sheap s);
  inv_bytes : bytes_ok (page_bits s);
  inv_free : ∀ x, bk_free_byte (sheap s) x →
    0 ≤ x ∧ nibble (page_bits s) (x / 0x1000) = Some 0 ∧ is_Some (nibble (page_bits s) (x / 0x1000 + 1));
  inv_next : ∀ p, 0 ≤ p → nibble (page_bits s) p = Some LARGE_NEXT →
    ∃ a z, (a, z) ∈ live ∧ KMALLOC_MAX_CACHE_SIZE < z ∧ a / 0x1000 < p < a / 0x1000 + npages z;
  inv_large : k_idx (caches s LARGE_IDX) = LARGE_IDX;
  inv_cache : ∀ i, pow_cache i → k_idx (caches s i) = i ∧ k_size (caches s i) = 2 ^ i ∧
    clist (links s) (freehead (caches s i)) (fl i);
  inv_objects : ∀ i a, pow_cache i → a ∈ fl i → object s a i ∧ a ∉ live.*1;
  inv_small : ∀ a z, (a, z) ∈ live → z ≤ KMALLOC_MAX_CACHE_SIZE →
    ∃ i, pow_cache i ∧ 0 < z ≤ 2 ^ i ∧ object s a i;
  inv_blocks : ∀ a z, (a, z) ∈ live → KMALLOC_MAX_CACHE_SIZE < z → large s a z;
  inv_live : NoDup live.*1
}.

Definition disjoint_blocks (b c : Z * Z) : Prop := b.1 + b.2 ≤ c.1 ∨ c.1 + c.2 ≤ b.1.

(** An object does not leave its page. *)
Lemma object_in_page i x : pow_cache i → aligned (2 ^ i) x → x + 2 ^ i ≤ (x / 0x1000 + 1) * 0x1000.
Proof.
  unfold pow_cache, aligned. intros Hi Hx. assert (0 < 2 ^ i) by (apply Z.pow_pos_nonneg; lia).
  assert (0x1000 = 2 ^ (12 - i) * 2 ^ i) as E
    by (rewrite <- Z.pow_add_r by lia; replace (12 - i + i) with 12 by lia; reflexivity).
  apply Z.mod_divide in Hx as [y ->]; [|lia].
  pose proof (Z.div_mod (y * 2 ^ i) 0x1000 ltac:(lia)). pose proof (Z.mod_pos_bound (y * 2 ^ i) 0x1000 ltac:(lia)).
  set (q := (y * 2 ^ i) / 0x1000) in *. set (r := (y * 2 ^ i) mod 0x1000) in *. clearbody q r.
  set (t := 2 ^ i) in *. set (k := 2 ^ (12 - i)) in *. clearbody t k.
  assert (y < (q + 1) * k) by (apply (Z.mul_lt_mono_pos_r t); [lia|rewrite <- Z.mul_assoc, <- E; lia]).
  assert ((y + 1) * t ≤ (q + 1) * k * t) as HL by (apply Z.mul_le_mono_pos_r; lia).
  rewrite <- (Z.mul_assoc _ k t), <- E in HL. lia.
Qed.

(** Two objects that do not carry the same address do not overlap. *)
Lemma objects_disjoint s a i b j :
  object s a i → object s b j → pow_cache i → pow_cache j → a ≠ b → a + 2 ^ i ≤ b ∨ b + 2 ^ j ≤ a.
Proof.
  intros (Ha & Aa & Na) (Hb & Ab & Nb) Hi Hj Hne. destruct (decide (a / 0x1000 = b / 0x1000)) as [E|E].
  - assert (i = j) as <- by congruence. unfold aligned, pow_cache in *.
    assert (0 < 2 ^ i) by (apply Z.pow_pos_nonneg; lia).
    apply Z.mod_divide in Aa as [x ->]; [|lia]. apply Z.mod_divide in Ab as [y ->]; [|lia].
    destruct (Z.lt_trichotomy x y) as [|[->|]]; [left; nia|done|right; nia].
  - pose proof (object_in_page i a Hi Aa). pose proof (object_in_page j b Hj Ab).
    pose proof (Z.mul_div_le a 0x1000 ltac:(lia)). pose proof (Z.mul_div_le b 0x1000 ltac:(lia)). lia.
Qed.

Lemma large_page s a z p :
  large s a z → a / 0x1000 ≤ p < a / 0x1000 + npages z →
  nibble (page_bits s) p = Some LARGE_IDX ∧ p = a / 0x1000 ∨
  nibble (page_bits s) p = Some LARGE_NEXT ∧ a / 0x1000 < p.
Proof.
  intros (_ & _ & N0 & Nk & _) Hp. destruct (decide (p = a / 0x1000)) as [->|]; [by left|right].
  split; [|lia]. rewrite <- (Nk (p - a / 0x1000)) by lia. f_equal. lia.
Qed.

Lemma large_bounds s a z : large s a z → a = a / 0x1000 * 0x1000.
Proof. intros (_ & Al & _). unfold aligned in Al. pose proof (Z.div_mod a 0x1000 ltac:(lia)). lia. Qed.

Lemma npages_bound z : z ≤ npages z * 0x1000.
Proof. unfold npages. pose proof (Z.div_mod (z + 0xfff) 0x1000 ltac:(lia)). pose proof (Z.mod_pos_bound (z + 0xfff) 0x1000). lia. Qed.

Lemma object_large_disjoint s a i b z :
  object s a i → pow_cache i → large s b z → a + 2 ^ i ≤ b ∨ b + npages z * 0x1000 ≤ a.
Proof.
  intros (Ha & Aa & Na) Hi Hl. pose proof (object_in_page i a Hi Aa). pose proof (large_bounds s b z Hl).
  pose proof (Z.mul_div_le a 0x1000 ltac:(lia)).
  destruct (decide (b / 0x1000 ≤ a / 0x1000 < b / 0x1000 + npages z)) as [Hp|]; [|lia].
  unfold pow_cache, LARGE_IDX, LARGE_NEXT in *.
  destruct (large_page s b z _ Hl Hp) as [[E _]|[E _]]; rewrite Na in E; unfold LARGE_IDX, LARGE_NEXT in E; simplify_eq; lia.
Qed.

Lemma large_disjoint s a y b z :
  large s a y → large s b z → a ≠ b → a + npages y * 0x1000 ≤ b ∨ b + npages z * 0x1000 ≤ a.
Proof.
  intros Ha Hb Hne. pose proof (large_bounds _ _ _ Ha). pose proof (large_bounds _ _ _ Hb).
  pose proof Ha as (_ & _ & Na & _). pose proof Hb as (_ & _ & Nb & _).
  destruct (decide (a / 0x1000 ≤ b / 0x1000 < a / 0x1000 + npages y)) as [Hp|].
  { destruct (large_page s a y _ Ha Hp) as [[_ E]|[E _]]; [lia|]. rewrite Nb in E. done. }
  destruct (decide (b / 0x1000 ≤ a / 0x1000 < b / 0x1000 + npages z)) as [Hp|].
  { destruct (large_page s b z _ Hb Hp) as [[_ E]|[E _]]; [lia|]. rewrite Na in E. done. }
  lia.
Qed.

(** The blocks handed out do not overlap. *)
Lemma live_disjoint s fl live b c :
  slub_inv s fl live → b ∈ live → c ∈ live → b.1 ≠ c.1 → disjoint_blocks b c.
Proof.
  intros HI Hb Hc Hne. destruct b as [a y], c as [b z]. unfold disjoint_blocks. simpl in *.
  pose proof (npages_bound y). pose proof (npages_bound z).
  destruct (decide (y ≤ KMALLOC_MAX_CACHE_SIZE)) as [Hy|Hy], (decide (z ≤ KMALLOC_MAX_CACHE_SIZE)) as [Hz|Hz];
    try (destruct (inv_small _ _ _ HI a y Hb Hy) as (i & Pi & Bi & Oi));
    try (pose proof (inv_blocks _ _ _ HI a y Hb ltac:(lia)) as La);
    try (destruct (inv_small _ _ _ HI b z Hc Hz) as (j & Pj & Bj & Oj));
    try (pose proof (inv_blocks _ _ _ HI b z Hc ltac:(lia)) as Lb).
  - pose proof (objects_disjoint _ _ _ _ _ Oi Oj Pi Pj Hne). lia.
  - pose proof (object_large_disjoint _ _ _ _ _ Oi Pi Lb). lia.
  - pose proof (object_large_disjoint _ _ _ _ _ Oj Pj La). lia.
  - pose proof (large_disjoint _ _ _ _ _ La Lb Hne). lia.
Qed.


(** ** Taking memory from the heap *)

(** The heap gave out memory and only the bits of pages that had none were set. *)
Record grows s s' : Prop := {
  gr_heap : bk_inv (sheap s');
  gr_bytes : bytes_ok (page_bits s');
  gr_free : ∀ x, bk_free_byte (sheap s') x →
    bk_free_byte (sheap s) x ∧ nibble (page_bits s') (x / 0x1000) = nibble (page_bits s) (x / 0x1000);
  gr_bits : ∀ q v, 0 ≤ q → nibble (page_bits s) q = Some v → v ≠ 0 → nibble (page_bits s') q = Some v;
  gr_some : ∀ q, 0 ≤ q → is_Some (nibble (page_bits s) q) → is_Some (nibble (page_bits s') q)
}.

Lemma object_grows s s' a i : grows s s' → pow_cache i → object s a i → object s' a i.
Proof.
  intros HG Hi (Ha & Al & Na). split_and!; try done.
  unfold pow_cache in Hi. eapply (gr_bits _ _ HG); [apply Z.div_pos; lia|done|lia].
Qed.

Lemma npages_nonneg z : 0 < z → 0 < npages z.
Proof. intros. unfold npages. apply Z.div_str_pos. lia. Qed.

Lemma large_grows s s' a z : grows s s' → 0 < z → large s a z → large s' a z.
Proof.
  intros HG Hz (Ha & Al & N0 & Nk & Nl & Hf). pose proof (Z.div_pos a 0x1000). pose proof (npages_nonneg z Hz).
  split_and!; try done.
  - eapply (gr_bits _ _ HG); [lia|done|done].
  - intros k Hk. eapply (gr_bits _ _ HG); [lia|by apply Nk|done].
  - apply (gr_some _ _ HG); [lia|done].
  - intros x Hx Hx'. apply (Hf x Hx). by apply (gr_free _ _ HG).
Qed.

Lemma grows_free s s' fl live x :
  slub_inv s fl live → grows s s' → bk_free_byte (sheap s') x →
  0 ≤ x ∧ nibble (page_bits s') (x / 0x1000) = Some 0 ∧ is_Some (nibble (page_bits s') (x / 0x1000 + 1)).
Proof.
  intros HI HG Hx. destruct (gr_free _ _ HG x Hx) as [Hf ->].
  destruct (inv_free _ _ _ HI x Hf) as (Hx0 & HN & HS). pose proof (Z.div_pos x 0x1000). split_and!; try done.
  apply (gr_some _ _ HG); [lia|done].
Qed.

(** Pages of free objects and of live blocks have bits. *)
Lemma live_page s fl live a :
  slub_inv s fl live → a ∈ live.*1 → 0 < a ∧ ∃ v, nibble (page_bits s) (a / 0x1000) = Some v ∧ v ≠ 0.
Proof.
  intros HI [[b z] [-> Hin]]%list_elem_of_fmap. simpl. destruct (decide (z ≤ KMALLOC_MAX_CACHE_SIZE)) as [Hz|Hz].
  - destruct (inv_small _ _ _ HI b z Hin Hz) as (i & Pi & _ & Hb & _ & N). split; [lia|].
    exists i. unfold pow_cache in Pi. split; [done|lia].
  - destruct (inv_blocks _ _ _ HI b z Hin ltac:(lia)) as (Hb & _ & N & _). split; [done|]. by exists LARGE_IDX.
Qed.

Definition with_heap s (h : H) : slub H := mk_slub (caches s) (page_bits s) (links s) h.

(** A heap that shrank only. *)
Lemma grows_heap s fl live h :
  slub_inv s fl live → bk_inv h → (∀ x, bk_free_byte h x → bk_free_byte (sheap s) x) → grows s (with_heap s h).
Proof. intros HI Hh Hf. destruct HI. by split; simpl; auto. Qed.

Lemma inv_shrink s fl live h :
  slub_inv s fl live → bk_inv h → (∀ x, bk_free_byte h x → bk_free_byte (sheap s) x) →
  slub_inv (with_heap s h) fl live.
Proof.
  intros HI Hh Hf. pose proof (grows_heap s fl live h HI Hh Hf) as HG. split; try apply HI; try done.
  - intros x. by apply (grows_free s _ fl live).
  - intros a z Hin Hz. eapply large_grows; [done| |by eapply inv_blocks].
    change KMALLOC_MAX_CACHE_SIZE with 4096 in Hz. lia.
Qed.

Lemma nibble_fresh bits p w q :
  bytes_ok bits → 0 ≤ p → 0 ≤ q → 0 ≤ w < 16 → nibble bits p = Some 0 →
  nibble (bits_or bits p w) q = if q =? p then Some w else nibble bits q.
Proof. intros Hb Hp Hq Hw E. rewrite nibble_or, E by done. destruct (q =? p); [|done]. simpl. by rewrite Z.lor_0_l. Qed.

Lemma slub_page_of a x : aligned 0x1000 a → a / 0x1000 = x / 0x1000 → a ≤ x < a + 0x1000.
Proof.
  unfold aligned. intros Al E. pose proof (Z.div_mod a 0x1000 ltac:(lia)). pose proof (Z.div_mod x 0x1000 ltac:(lia)).
  pose proof (Z.mod_pos_bound x 0x1000 ltac:(lia)). lia.
Qed.

(** One page taken and marked. *)
Lemma grows_page s fl live a h w c lk :
  slub_inv s fl live → handed_4k bk_inv bk_free_byte 0x1000 (sheap s) a h → a ≠ 0 → 0 < w < 16 →
  grows s (mk_slub c (bits_or (page_bits s) (a / 0x1000) w) lk h).
Proof.
  intros HI (Hh & Hsub & [?|(Ha & Hlt & Al & Hby)]) Hne Hw; [done|].
  assert (nibble (page_bits s) (a / 0x1000) = Some 0) as N0.
  { destruct (Hby a ltac:(lia)) as [Hf _]. by destruct (inv_free _ _ _ HI a Hf) as (_ & N & _). }
  pose proof (Z.div_pos a 0x1000 ltac:(lia) ltac:(lia)) as Hp.
  pose proof (inv_bytes _ _ _ HI) as Hb. split; simpl.
  - done.
  - by apply bits_or_ok.
  - intros x Hx. split; [by apply Hsub|].
    destruct (inv_free _ _ _ HI x ltac:(by apply Hsub)) as (Hx0 & _). pose proof (Z.div_pos x 0x1000 ltac:(lia) ltac:(lia)).
    rewrite nibble_fresh by (done || lia). destruct (Z.eqb_spec (x / 0x1000) (a / 0x1000)) as [E|]; [|done].
    destruct (Hby x) as [_ Hnf]; [|done]. by apply slub_page_of.
  - intros q v Hq E Hv. rewrite nibble_fresh by (done || lia). destruct (Z.eqb_spec q (a / 0x1000)); [|done]. congruence.
  - intros q Hq E. rewrite nibble_fresh by (done || lia). destruct (q =? _); [by eexists|done].
Qed.


(** Nothing in use lies on a page without bits. *)
Lemma fresh_page s fl live a x :
  slub_inv s fl live → 0 < a → aligned 0x1000 a → nibble (page_bits s) (a / 0x1000) = Some 0 →
  a ≤ x < a + 0x1000 → x ∉ live.*1 ∧ ∀ i, pow_cache i → x ∉ fl i.
Proof.
  intros HI Ha Al N Hx. assert (x / 0x1000 = a / 0x1000) as E.
  { unfold aligned in Al. pose proof (Z.div_mod a 0x1000 ltac:(lia)).
    symmetry. apply (Z.div_unique _ _ _ (x - a)); lia. }
  split.
  - intros Hin. destruct (live_page _ _ _ _ HI Hin) as (_ & v & Nv & Hv). rewrite E in Nv. congruence.
  - intros i Pi Hin. destruct (inv_objects _ _ _ HI i x Pi Hin) as [(_ & _ & Nv) _]. rewrite E, N in Nv.
    unfold pow_cache in Pi. simplify_eq. lia.
Qed.

(** The objects of a new page. *)
Lemma page_objects n a i x :
  pow_cache i → 0 < a → aligned 0x1000 a → 0x1000 = Z.of_nat n * 2 ^ i → x ∈ objects n a (2 ^ i) →
  a ≤ x < a + 0x1000 ∧ aligned (2 ^ i) x ∧ x / 0x1000 = a / 0x1000.
Proof.
  intros Pi Ha Al En (k & Hk & ->)%elem_of_objects. unfold pow_cache in Pi.
  assert (0 < 2 ^ i) by (apply Z.pow_pos_nonneg; lia).
  assert (a ≤ a + k * 2 ^ i < a + 0x1000) as Hb by nia. split; [done|]. split.
  - apply aligned_add; [|apply aligned_mul]. unfold aligned in *.
    apply Z.mod_divide in Al as [y ->]; [|lia]. rewrite En. replace (y * (Z.of_nat n * 2 ^ i)) with ((y * Z.of_nat n) * 2 ^ i) by lia.
    apply Z.mod_mul. lia.
  - unfold aligned in Al. pose proof (Z.div_mod a 0x1000 ltac:(lia)).
    symmetry. apply (Z.div_unique _ _ _ (k * 2 ^ i)); lia.
Qed.

(** A cache after a page was added to it. *)
Lemma inv_add_page s fl live i n a h lk :
  slub_inv s fl live → pow_cache i → 0x1000 = (Z.of_nat n + 1) * 2 ^ i →
  handed_4k bk_inv bk_free_byte 0x1000 (sheap s) a h → a ≠ 0 →
  (∀ k, 0 ≤ k < Z.of_nat n → lk (a + k * 2 ^ i) = a + (k + 1) * 2 ^ i) →
  lk (a + Z.of_nat n * 2 ^ i) = freehead (caches s i) →
  (∀ x, x < a ∨ a + 0x1000 ≤ x → lk x = links s x) →
  slub_inv (mk_slub (λ j, if j =? i then mk_cache i (2 ^ i) a else caches s j)
              (bits_or (page_bits s) (a / 0x1000) i) lk h)
           (λ j, if j =? i then objects (S n) a (2 ^ i) ++ fl i else fl j) live.
Proof.
  intros HI Pi En Hh Hne Hin Hlast Hout. pose proof Pi as Pi'. unfold pow_cache in Pi'.
  pose proof (grows_page s fl live a h i (λ j, if j =? i then mk_cache i (2 ^ i) a else caches s j) lk
                HI Hh Hne ltac:(lia)) as HG.
  destruct Hh as (Hh & Hsub & [?|(Ha & Hlt & Al & Hby)]); [done|].
  pose proof (Z.div_pos a 0x1000 ltac:(lia) ltac:(lia)) as Hp.
  assert (nibble (page_bits s) (a / 0x1000) = Some 0) as N0.
  { destruct (Hby a ltac:(lia)) as [Hf _]. by destruct (inv_free _ _ _ HI a Hf) as (_ & N & _). }
  assert (∀ j b, pow_cache j → b ∈ fl j → lk b = links s b) as Hlk.
  { intros j b Pj Hb. apply Hout. destruct (decide (a ≤ b < a + 0x1000)) as [Hab|]; [|lia].
    destruct (fresh_page s fl live a b HI Ha Al N0 Hab) as [_ Hnf]. by apply Hnf in Hb. }
  assert (0 < 2 ^ i) by (apply Z.pow_pos_nonneg; lia).
  split; cbn [caches page_bits links sheap]; try apply HI; try done.
  - apply HG.
  - intros x. by apply (grows_free s _ fl live x HI HG).
  - intros p Hp0 N. apply (inv_next _ _ _ HI p Hp0). rewrite nibble_fresh in N by (done || lia || apply HI).
    destruct (p =? _); [|done]. injection N as ->. unfold LARGE_NEXT in Pi'. lia.
  - unfold LARGE_IDX. destruct (Z.eqb_spec 15 i); [lia|]. apply HI.
  - intros j Pj. destruct (inv_cache _ _ _ HI j Pj) as (Ej & Sj & Fj). destruct (Z.eqb_spec j i) as [->|]; simpl.
    + split_and!; try done. eapply clist_objects; [lia|lia|done|exact Hlast|].
      eapply clist_ext; [exact Fj|]. intros b Hb. by apply (Hlk i).
    + split_and!; try done. eapply clist_ext; [exact Fj|]. intros b Hb. by apply (Hlk j).
  - intros j b Pj Hb. destruct (Z.eqb_spec j i) as [->|].
    + apply elem_of_app in Hb as [Hb|Hb].
      * destruct (page_objects (S n) a i b Pi Ha Al ltac:(lia) Hb) as (Hr & Ab & Eb).
        split; [|by apply (fresh_page s fl live a b)].
        assert (0x1000 ≤ a) by (unfold aligned in Al; pose proof (Z.div_mod a 0x1000 ltac:(lia)); nia).
        split_and!; [lia|done|]. simpl.
        rewrite Eb, nibble_fresh, Z.eqb_refl by (done || lia || apply HI). done.
      * destruct (inv_objects _ _ _ HI i b Pi Hb) as [Ho Hl]. split; [by eapply object_grows|done].
    + destruct (inv_objects _ _ _ HI j b Pj Hb) as [Ho Hl]. split; [by eapply object_grows|done].
  - intros b z Hb Hz. destruct (inv_small _ _ _ HI b z Hb Hz) as (j & Pj & Bj & Oj).
    exists j. split_and!; try done; try lia. by eapply object_grows.
  - intros b z Hb Hz. eapply large_grows; [exact HG| |by eapply inv_blocks].
    change KMALLOC_MAX_CACHE_SIZE with 4096 in Hz. lia.
Qed.

(** ** The operations *)

Lemma pow_pages i : pow_cache i → ∃ n, 0x1000 = (Z.of_nat n + 1) * 2 ^ i ∧ (S n < SLAB_FUEL)%nat.
Proof.
  unfold pow_cache. intros Hi. assert (0x1000 = 2 ^ (12 - i) * 2 ^ i) as E
    by (rewrite <- Z.pow_add_r by lia; replace (12 - i + i) with 12 by lia; reflexivity).
  assert (0 < 2 ^ (12 - i)) by (apply Z.pow_pos_nonneg; lia).
  pose proof (Z.pow_le_mono_r 2 (12 - i) 9 ltac:(lia) ltac:(lia)) as Hle. change (2 ^ 9) with 512 in Hle.
  exists (Z.to_nat (2 ^ (12 - i) - 1)). rewrite Z2Nat.id by lia. unfold SLAB_FUEL. split; [|lia].
  rewrite E at 1. f_equal. lia.
Qed.

Lemma slub_add_page_ok s fl live i :
  slub_inv s fl live → pow_cache i →
  ends (slub_add_page i) s (λ ok s', ∃ fl', slub_inv s' fl' live ∧ (ok = true → fl' i ≠ [])).
Proof.
  intros HI Pi. destruct (pow_pages i Pi) as (n & En & Hfuel).
  destruct (inv_cache _ _ _ HI i Pi) as (Ei & Si & Fi). unfold slub_add_page, PAGE_4K_SIZE.
  apply ends_bind, ends_zoom. eapply ends_mono.
  { exact (bk_alloc_ok (sheap s) 0x1000 (inv_heap _ _ _ HI) ltac:(lia) eq_refl). }
  intros a h Hh. fold (with_heap s h). destruct (Z.eqb_spec a 0) as [Ez|Hne].
  { eapply ends_ret; [reflexivity|]. exists fl. split; [|done]. destruct Hh as (? & ? & _). by apply inv_shrink. }
  assert (0 < a ∧ a + 0x1000 < 2 ^ 64 ∧ nibble (page_bits s) (a / 0x1000) = Some 0) as (Ha & Hb & N0).
  { destruct Hh as (_ & _ & [?|(Ha & Hb & _ & Hby)]); [done|]. split_and!; try done.
    destruct (Hby a ltac:(lia)) as [Hf _]. by destruct (inv_free _ _ _ HI a Hf) as (_ & N & _). }
  eapply ends_step; [reflexivity|]. cbn [caches with_heap]. rewrite Si.
  rewrite u64_id by (unfold in_u; lia).
  assert (0 < 2 ^ i) by (unfold pow_cache in Pi; apply Z.pow_pos_nonneg; lia).
  destruct (thread_page_run n SLAB_FUEL a (a + 0x1000) (2 ^ i) (with_heap s h) ltac:(lia) ltac:(lia) ltac:(lia) ltac:(lia)
    ltac:(lia)) as (lk & Hrun & Hin & Hout).
  eapply ends_step; [exact Hrun|]. unfold set_link, set_freehead, set_cache.
  eapply ends_step; [reflexivity|]. eapply ends_bind, ends_step; [reflexivity|].
  eapply ends_ret; [reflexivity|]. cbn [caches with_links with_heap page_bits links sheap]. rewrite Ei, Si.
  assert (i <? 16 = true) as -> by (unfold pow_cache in Pi; apply Z.ltb_lt; lia).
  eapply ends_step; [reflexivity|]. eapply ends_step.
  { apply or_bits_run. cbn [page_bits]. change PAGE_4K_SHIFT with 12. rewrite Z.shiftr_div_pow2 by lia. by exists 0. }
  unfold with_bits. cbn [caches page_bits links sheap]. change PAGE_4K_SHIFT with 12. rewrite Z.shiftr_div_pow2 by lia.
  eapply ends_ret; [reflexivity|]. eexists. split; [|intros _].
  - eapply (inv_add_page s fl live i n a h); try done.
    + intros k Hk. cbn. destruct (Z.eqb_spec (a + k * 2 ^ i) (a + Z.of_nat n * 2 ^ i)); [nia|]. by apply Hin.
    + cbn. by rewrite Z.eqb_refl.
    + intros x Hx. cbn. destruct (Z.eqb_spec x (a + Z.of_nat n * 2 ^ i)); [nia|]. apply Hout. lia.
  - cbn. by rewrite Z.eqb_refl.
Qed.

(** The sizes served from the caches of power-of-two sizes. *)
Definition pow_size (size : Z) : Prop := 0 < size ≤ 64 ∨ 96 < size ≤ 128 ∨ 192 < size ≤ 4096.

Lemma pow_size_slab size :
  pow_size size → ∃ i, kmalloc_slab size = Slab i ∧ pow_cache i ∧ 0 < size ≤ 2 ^ i.
Proof.
  intros Hs.
  assert (forallb (λ n, let size := Z.of_nat n in
    ((64 <? size) && (size <=? 96)) || ((128 <? size) && (size <=? 192)) ||
    match kmalloc_slab size with Slab i => (3 <=? i) && (i <=? 12) && (size <=? 2 ^ i) | _ => false end)
    (seq 1 4096) = true) as HF by (vm_compute; reflexivity).
  rewrite forallb_forall in HF. unfold pow_size in Hs.
  specialize (HF (Z.to_nat size) ltac:(apply in_seq; lia)). cbv zeta in HF. rewrite Z2Nat.id in HF by lia.
  rewrite !orb_true_iff, !andb_true_iff, !Z.ltb_lt, !Z.leb_le in HF.
  destruct HF as [[?|?]|HF]; [lia|lia|]. destruct (kmalloc_slab size) as [| |i]; try done.
  rewrite !andb_true_iff, !Z.leb_le in HF. exists i. unfold pow_cache. split_and!; try done; lia.
Qed.

Definition with_head s (i p : Z) : slub H :=
  mk_slub (λ j, if j =? i then mk_cache (k_idx (caches s i)) (k_size (caches s i)) p else caches s j)
    (page_bits s) (links s) (sheap s).

Lemma fl_disjoint s fl live i j a :
  slub_inv s fl live → pow_cache i → pow_cache j → a ∈ fl i → a ∈ fl j → i = j.
Proof.
  intros HI Pi Pj Hi Hj. destruct (inv_objects _ _ _ HI i a Pi Hi) as [(_ & _ & E) _].
  destruct (inv_objects _ _ _ HI j a Pj Hj) as [(_ & _ & E') _]. congruence.
Qed.

(** The first free object becomes a live block. *)
Lemma inv_pop s fl live i a l z :
  slub_inv s fl live → pow_cache i → fl i = a :: l → 0 < z ≤ 2 ^ i → z ≤ KMALLOC_MAX_CACHE_SIZE →
  slub_inv (with_head s i (links s a)) (λ j, if j =? i then l else fl j) ((a, z) :: live).
Proof.
  intros HI Pi El Hz Hz'. destruct (inv_cache _ _ _ HI i Pi) as (Ei & Si & Fi). rewrite El in Fi.
  destruct (clist_cons _ _ _ _ Fi) as (Ep & _ & Fl).
  assert (a ∉ l) as Hal by (pose proof (chain_nodup _ _ _ Fi) as ND; by apply list.NoDup_cons in ND as [? _]).
  assert (a ∈ fl i) as Ha by (rewrite El; by apply elem_of_cons; left).
  destruct (inv_objects _ _ _ HI i a Pi Ha) as [Oa Na].
  split; cbn [with_head caches page_bits links sheap]; try apply HI.
  - intros p Hp N. destruct (inv_next _ _ _ HI p Hp N) as (b & y & Hin & Hy & Hb).
    exists b, y. split_and!; try done; try lia. by apply elem_of_cons; right.
  - unfold pow_cache, LARGE_IDX in *. destruct (Z.eqb_spec 15 i); [lia|]. apply HI.
  - intros j Pj. destruct (Z.eqb_spec j i) as [->|]; [done|]. by apply HI.
  - intros j b Pj Hb. rewrite fmap_cons, not_elem_of_cons. destruct (Z.eqb_spec j i) as [->|].
    + assert (b ∈ fl i) as Hbi by (rewrite El; by apply elem_of_cons; right).
      destruct (inv_objects _ _ _ HI i b Pi Hbi). split_and!; try done. by intros ->.
    + destruct (inv_objects _ _ _ HI j b Pj Hb). split_and!; try done. intros ->.
      simpl in Hb. by pose proof (fl_disjoint s fl live j i a HI Pj Pi Hb Ha).
  - intros b y [[= -> ->]|Hin]%elem_of_cons Hy; [by exists i|].
    by apply (inv_small _ _ _ HI).
  - intros b y [[= -> ->]|Hin]%elem_of_cons Hy; [lia|]. by apply (inv_blocks _ _ _ HI).
  - rewrite fmap_cons. apply list.NoDup_cons. split; [done|apply HI].
Qed.

(** A live object goes back to the front of its cache's list. *)
Lemma inv_push s fl l1 a z l2 i :
  slub_inv s fl (l1 ++ (a, z) :: l2) → pow_cache i → object s a i → z ≤ KMALLOC_MAX_CACHE_SIZE →
  slub_inv (with_head (with_links s (λ x, if x =? a then freehead (caches s i) else links s x)) i a)
    (λ j, if j =? i then a :: fl i else fl j) (l1 ++ l2).
Proof.
  intros HI Pi Oa Hz. destruct (inv_cache _ _ _ HI i Pi) as (Ei & Si & Fi).
  assert (∀ j b, pow_cache j → b ∈ fl j → b ≠ a) as Hne.
  { intros j b Pj Hb ->. destruct (inv_objects _ _ _ HI j a Pj Hb) as [_ Hn]. apply Hn.
    rewrite fmap_app, fmap_cons. apply elem_of_app. right. by apply elem_of_cons; left. }
  assert (∀ c, c ∈ l1 ++ l2 → c ∈ l1 ++ (a, z) :: l2) as Hsub.
  { intros c. rewrite !elem_of_app, elem_of_cons. tauto. }
  pose proof (inv_live _ _ _ HI) as ND. rewrite fmap_app, fmap_cons in ND. simpl in ND.
  apply list.NoDup_app in ND as (ND1 & ND12 & ND2). apply list.NoDup_cons in ND2 as [Na2 ND2].
  split; cbn [with_head with_links caches page_bits links sheap]; try apply HI.
  - intros p Hp N. destruct (inv_next _ _ _ HI p Hp N) as (b & y & Hin & Hy & Hb).
    exists b, y. split_and!; try done; try lia. rewrite elem_of_app, elem_of_cons in Hin. rewrite elem_of_app.
    destruct Hin as [?|[[= -> ->]|?]]; [by left|lia|by right].
  - unfold pow_cache, LARGE_IDX in *. destruct (Z.eqb_spec 15 i); [lia|]. apply HI.
  - intros j Pj. destruct (Z.eqb_spec j i) as [->|]; simpl.
    + split_and!; try done. apply clist_push; [done| |by destruct Oa; lia]. intros Hin. by eapply Hne.
    + destruct (inv_cache _ _ _ HI j Pj) as (Ej & Sj & Fj). split_and!; try done.
      eapply clist_ext; [exact Fj|]. intros b Hb. cbn.
      destruct (Z.eqb_spec b a) as [E|]; [by destruct (Hne j b Pj Hb)|done].
  - assert (a ∉ (l1 ++ l2).*1) as Hna.
    { rewrite fmap_app, elem_of_app. intros [Hin|Hin]; [|done]. eapply ND12; [exact Hin|]. by apply elem_of_cons; left. }
    assert (∀ b, b ∉ (l1 ++ (a, z) :: l2).*1 → b ∉ (l1 ++ l2).*1) as Hnl.
    { intros b. rewrite !fmap_app, fmap_cons, !elem_of_app, elem_of_cons. tauto. }
    intros j b Pj Hb. destruct (Z.eqb_spec j i) as [->|].
    + apply elem_of_cons in Hb as [->|Hb]; [done|]. destruct (inv_objects _ _ _ HI i b Pi Hb). auto.
    + destruct (inv_objects _ _ _ HI j b Pj Hb). auto.
  - intros b y Hin. apply (inv_small _ _ _ HI); auto.
  - intros b y Hin. apply (inv_blocks _ _ _ HI); auto.
  - rewrite fmap_app. apply list.NoDup_app. split_and!; try done. intros x Hx Hx'. eapply ND12; [exact Hx|].
    by apply elem_of_cons; right.
Qed.

Lemma ASSERT_true {S} b (s : S) : b = true → ASSERT b s = Ret tt s.
Proof. by intros ->. Qed.

Lemma __kmalloc_ok s fl live size :
  slub_inv s fl live → pow_size size →
  ends (__kmalloc size) s (λ a s', ∃ fl',
    a = 0 ∧ slub_inv s' fl' live ∨ a ≠ 0 ∧ slub_inv s' fl' ((a, size) :: live)).
Proof.
  intros HI Hs. destruct (pow_size_slab size Hs) as (i & Ei & Pi & Hi). unfold __kmalloc. rewrite Ei.
  assert (size ≤ KMALLOC_MAX_CACHE_SIZE) as Hz by (change KMALLOC_MAX_CACHE_SIZE with 4096; unfold pow_size in Hs; lia).
  assert (∀ s fl a l, slub_inv s fl live → fl i = a :: l →
    ends (pnext ← gets (λ s, links s a); set_freehead i pnext ;; mret a) s (λ a s', ∃ fl',
      a = 0 ∧ slub_inv s' fl' live ∨ a ≠ 0 ∧ slub_inv s' fl' ((a, size) :: live))) as HP.
  { clear s fl HI. intros s fl a l HI El. eapply ends_ret; [reflexivity|]. eexists. right.
    split; [|by eapply inv_pop]. destruct (inv_cache _ _ _ HI i Pi) as (_ & _ & Fi). rewrite El in Fi.
    by destruct (clist_cons _ _ _ _ Fi) as (_ & ? & _). }
  assert (∀ s fl, slub_inv s fl live → (freehead (caches s i) = 0 ↔ fl i = []) ∧
    ∀ a l, fl i = a :: l → freehead (caches s i) = a) as HF.
  { clear s fl HI. intros s fl HI. destruct (inv_cache _ _ _ HI i Pi) as (_ & _ & Fi). split.
    - split; intros E; [rewrite E in Fi; by apply clist_zero in Fi|].
      rewrite E in Fi. unfold clist, chain, ptr in Fi. simpl in Fi. by destruct (Z.eqb_spec (freehead (caches s i)) 0).
    - intros a l El. rewrite El in Fi. by destruct (clist_cons _ _ _ _ Fi) as (? & _ & _). }
  eapply ends_step; [reflexivity|]. destruct (HF s fl HI) as [H0' Hhd].
  destruct (Z.eqb_spec (freehead (caches s i)) 0) as [E|E].
  - apply ends_bind, ends_bind. eapply ends_mono; [by apply (slub_add_page_ok s fl live)|].
    intros [] s' (fl' & HI' & Hne); simpl.
    + destruct (HF s' fl' HI') as [H0'' Hhd']. destruct (fl' i) as [|a l] eqn:El; [by destruct Hne|].
      eapply ends_step; [reflexivity|]. specialize (Hhd' a l eq_refl). eapply ends_step.
      { apply ASSERT_true. apply negb_true_iff, Z.eqb_neq. intros E'. by apply H0'' in E'. }
      eapply ends_ret; [reflexivity|]. rewrite Hhd'. by eapply HP.
    + eapply ends_ret; [reflexivity|]. eapply ends_ret; [reflexivity|]. exists fl'. by left.
  - eapply ends_step; [reflexivity|]. destruct (fl i) as [|a l] eqn:El; [by destruct E; apply H0'|].
    rewrite (Hhd a l eq_refl). by eapply HP.
Qed.

(** The page number of an address, and back. *)
Lemma page_shift a : a .>> PAGE_4K_SHIFT = a / 0x1000.
Proof. change PAGE_4K_SHIFT with 12. by rewrite Z.shiftr_div_pow2 by lia. Qed.

Lemma __kmfree_ok s fl l1 a z l2 fuel :
  slub_inv s fl (l1 ++ (a, z) :: l2) → z ≤ KMALLOC_MAX_CACHE_SIZE →
  ∃ fl' s', __kmfree fuel a s = Ret tt s' ∧ slub_inv s' fl' (l1 ++ l2) ∧
    sheap s' = sheap s ∧ page_bits s' = page_bits s.
Proof.
  intros HI Hz. destruct (inv_small _ _ _ HI a z) as (i & Pi & Hi & Oi); [|done|].
  { apply elem_of_app. right. by apply elem_of_cons; left. }
  pose proof Oi as (Ha & _ & N).
  unfold __kmfree. destruct (Z.eqb_spec a ZERO_SIZE_PTR) as [Ez|_]; [by rewrite Ez in Ha|]. unfold get_cache_from_addr. rewrite page_shift, (bind_ret _ _ _ _ _ (get_bits_run s _ i N)).
  erewrite bind_ret by reflexivity. destruct (inv_cache _ _ _ HI i Pi) as (Ei & _). rewrite Ei.
  assert (i =? LARGE_IDX = false) as -> by (apply Z.eqb_neq; unfold pow_cache, LARGE_IDX in *; lia).
  eexists _, _. split; [reflexivity|]. split; [|done]. by eapply inv_push.
Qed.

(** ** Large blocks *)

Lemma round_up size :
  0 ≤ size ≤ 2 ^ 64 - 0x1000 → u64 (size + 0xfff) .& u64 (Z.lnot 0xfff) = npages size * 0x1000.
Proof.
  intros Hs. rewrite u64_id by (unfold in_u; lia). change (u64 (Z.lnot 0xfff)) with (Z.land (- 2 ^ 12) (2 ^ 64 - 1)).
  rewrite Z.land_assoc, land_not_mask, land_mask by lia. change (2 ^ 12) with 0x1000. unfold npages.
  pose proof (Z.div_mod (size + 0xfff) 0x1000 ltac:(lia)). pose proof (Z.mod_pos_bound (size + 0xfff) 0x1000 ltac:(lia)).
  pose proof (Z.div_pos (size + 0xfff) 0x1000 ltac:(lia) ltac:(lia)). rewrite Z.mod_small; lia.
Qed.

Lemma mark_next_run n p s :
  bytes_ok (page_bits s) → 0 ≤ p → (∀ q, p ≤ q < p + Z.of_nat n → nibble (page_bits s) q = Some 0) →
  ∃ bits, mark_next n p s = Ret tt (with_bits s bits) ∧ bytes_ok bits ∧
    ∀ q, 0 ≤ q → nibble bits q =
      if (p <=? q) && (q <? p + Z.of_nat n) then Some LARGE_NEXT else nibble (page_bits s) q.
Proof.
  revert p s. induction n as [|n IH]; intros p s Hb Hp HN.
  - exists (page_bits s). split; [by destruct s|]. split; [done|]. intros q Hq.
    destruct (Z.leb_spec p q), (Z.ltb_spec q (p + Z.of_nat 0)); try done. lia.
  - cbn [mark_next]. rewrite (bind_ret _ _ _ _ _ (or_bits_run s p LARGE_NEXT ltac:(exists 0; apply HN; lia))).
    pose proof (λ q Hq, nibble_fresh (page_bits s) p LARGE_NEXT q Hb Hp Hq ltac:(done) (HN p ltac:(lia))) as HF.
    destruct (IH (p + 1) (with_bits s (bits_or (page_bits s) p LARGE_NEXT))) as (bits & Hrun & Hok & Hnib).
    + by apply bits_or_ok.
    + lia.
    + intros q Hq. cbn [page_bits with_bits]. rewrite HF by lia. destruct (Z.eqb_spec q p); [lia|]. apply HN. lia.
    + exists bits. split; [exact Hrun|]. split; [done|]. intros q Hq. rewrite (Hnib q Hq). cbn [page_bits with_bits].
      rewrite HF by lia.
      destruct (Z.leb_spec (p + 1) q), (Z.ltb_spec q (p + 1 + Z.of_nat n)), (Z.leb_spec p q),
        (Z.ltb_spec q (p + Z.of_nat (S n))), (Z.eqb_spec q p); simpl; try done; lia.
Qed.

(** The bits of the pages from [p] on, as a large block of [n] pages has them. *)
Definition marked (bits bits' : list Z) (p n : Z) : Prop :=
  bytes_ok bits' ∧ ∀ q, 0 ≤ q → nibble bits' q =
    if q =? p then Some LARGE_IDX else
    if (p <? q) && (q <? p + n) then Some LARGE_NEXT else nibble bits q.

Lemma free_pages s fl live a n :
  slub_inv s fl live → 0 < a → aligned 0x1000 a →
  (∀ x, a ≤ x < a + n * 0x1000 → bk_free_byte (sheap s) x) →
  ∀ q, a / 0x1000 ≤ q < a / 0x1000 + n →
    nibble (page_bits s) q = Some 0 ∧ is_Some (nibble (page_bits s) (q + 1)).
Proof.
  intros HI Ha Al Hf q Hq. unfold aligned in Al. pose proof (Z.div_mod a 0x1000 ltac:(lia)).
  destruct (inv_free _ _ _ HI (q * 0x1000) ltac:(apply Hf; lia)) as (_ & N & S).
  by rewrite Z.div_mul in N, S by lia.
Qed.

Lemma grows_large s fl live a z h bits :
  slub_inv s fl live → 0 < z → handed_4k bk_inv bk_free_byte (npages z * 0x1000) (sheap s) a h → a ≠ 0 →
  marked (page_bits s) bits (a / 0x1000) (npages z) → grows s (mk_slub (caches s) bits (links s) h).
Proof.
  intros HI Hz (Hh & Hsub & [?|(Ha & Hlt & Al & Hby)]) Hne [Hok Hnib]; [done|].
  pose proof (free_pages s fl live a (npages z) HI Ha Al ltac:(intros; by apply Hby)) as HP.
  pose proof (npages_nonneg z Hz). split; simpl; try done.
  - intros x Hx. split; [by apply Hsub|].
    destruct (inv_free _ _ _ HI x ltac:(by apply Hsub)) as (Hx0 & _). pose proof (Z.div_pos x 0x1000 ltac:(lia) ltac:(lia)).
    rewrite Hnib by lia. unfold aligned in Al. pose proof (Z.div_mod a 0x1000 ltac:(lia)).
    pose proof (Z.div_mod x 0x1000 ltac:(lia)). pose proof (Z.mod_pos_bound x 0x1000 ltac:(lia)).
    assert (¬ (a / 0x1000 ≤ x / 0x1000 < a / 0x1000 + npages z)) as Hn.
    { intros Hin. destruct (Hby x) as [_ Hnf]; [nia|done]. }
    destruct (Z.eqb_spec (x / 0x1000) (a / 0x1000)); [lia|].
    destruct (Z.ltb_spec (a / 0x1000) (x / 0x1000)), (Z.ltb_spec (x / 0x1000) (a / 0x1000 + npages z)); simpl; try done. lia.
  - intros q v Hq E Hv. rewrite Hnib by lia.
    assert (¬ (a / 0x1000 ≤ q < a / 0x1000 + npages z)) as Hn.
    { intros Hin. destruct (HP q Hin). congruence. }
    destruct (Z.eqb_spec q (a / 0x1000)); [lia|].
    destruct (Z.ltb_spec (a / 0x1000) q), (Z.ltb_spec q (a / 0x1000 + npages z)); simpl; try done. lia.
  - intros q Hq E. rewrite Hnib by lia. destruct (q =? _); [by eexists|].
    destruct (_ && _); [by eexists|done].
Qed.

Lemma marked_large s bits lk c a z h :
  marked (page_bits s) bits (a / 0x1000) (npages z) → 0 < z → 0 < a → aligned 0x1000 a →
  (∀ x, a ≤ x < a + npages z * 0x1000 → ¬ bk_free_byte h x) →
  is_Some (nibble (page_bits s) (a / 0x1000 + npages z)) →
  large (mk_slub c bits lk h) a z.
Proof.
  intros [_ Hnib] Hz Ha Al Hnf Hlast. pose proof (Z.div_pos a 0x1000 ltac:(lia) ltac:(lia)). pose proof (npages_nonneg z Hz).
  split_and!; simpl; try done.
  - by rewrite Hnib, Z.eqb_refl.
  - intros k Hk. rewrite Hnib by lia. destruct (Z.eqb_spec (a / 0x1000 + k) (a / 0x1000)); [lia|].
    destruct (Z.ltb_spec (a / 0x1000) (a / 0x1000 + k)), (Z.ltb_spec (a / 0x1000 + k) (a / 0x1000 + npages z)); try lia. done.
  - rewrite Hnib by lia. destruct (_ =? _); [by eexists|]. destruct (_ && _); [by eexists|done].
Qed.

(** A large block becomes live. *)
Lemma inv_grab s fl live a z h bits :
  slub_inv s fl live → KMALLOC_MAX_CACHE_SIZE < z →
  handed_4k bk_inv bk_free_byte (npages z * 0x1000) (sheap s) a h → a ≠ 0 →
  marked (page_bits s) bits (a / 0x1000) (npages z) →
  slub_inv (mk_slub (caches s) bits (links s) h) fl ((a, z) :: live).
Proof.
  intros HI Hz Hh Hne HM. assert (0 < z) as Hz0 by (change KMALLOC_MAX_CACHE_SIZE with 4096 in Hz; lia).
  pose proof (grows_large s fl live a z h bits HI Hz0 Hh Hne HM) as HG.
  destruct Hh as (Hh & Hsub & [?|(Ha & Hlt & Al & Hby)]); [done|].
  pose proof (free_pages s fl live a (npages z) HI Ha Al ltac:(intros; by apply Hby)) as HP.
  pose proof (npages_nonneg z Hz0). pose proof (Z.div_pos a 0x1000 ltac:(lia) ltac:(lia)).
  destruct (HP (a / 0x1000) ltac:(lia)) as [N0 _].
  destruct (HP (a / 0x1000 + npages z - 1) ltac:(lia)) as [_ Hlast].
  replace (a / 0x1000 + npages z - 1 + 1) with (a / 0x1000 + npages z) in Hlast by lia.
  destruct (fresh_page s fl live a a HI Ha Al N0 ltac:(lia)) as [Hnl Hnfl].
  split; cbn [caches page_bits links sheap]; try apply HI; try apply HG; try done.
  - intros x. by apply (grows_free s _ fl live x HI HG).
  - intros p Hp N. rewrite (proj2 HM p Hp) in N. destruct (Z.eqb_spec p (a / 0x1000)); [done|].
    destruct (Z.ltb_spec (a / 0x1000) p), (Z.ltb_spec p (a / 0x1000 + npages z)); simpl in N;
      try (destruct (inv_next _ _ _ HI p Hp N) as (b & y & Hin & Hy & Hb); exists b, y;
           split_and!; try done; try lia; by apply elem_of_cons; right).
    exists a, z. split_and!; try done. by apply elem_of_cons; left.
  - intros i b Pi Hb. destruct (inv_objects _ _ _ HI i b Pi Hb) as [Ho Hl]. split; [by eapply object_grows|].
    rewrite fmap_cons, not_elem_of_cons. split; [|done]. intros ->. by apply (Hnfl i).
  - intros b y [[= -> ->]|Hin]%elem_of_cons Hy; [lia|].
    destruct (inv_small _ _ _ HI b y Hin Hy) as (i & Pi & Bi & Oi). exists i. split_and!; try done; try lia.
    by eapply object_grows.
  - intros b y [[= -> ->]|Hin]%elem_of_cons Hy.
    + eapply marked_large; try done. intros x Hx. by apply Hby.
    + eapply large_grows; [exact HG| |by eapply inv_blocks]. change KMALLOC_MAX_CACHE_SIZE with 4096 in Hy. lia.
  - rewrite fmap_cons. apply list.NoDup_cons. split; [done|apply HI].
Qed.

Lemma __kmalloc_large_ok s fl live size :
  slub_inv s fl live → KMALLOC_MAX_CACHE_SIZE < size ≤ 2 ^ 64 - 0x1000 →
  ends (__kmalloc_large size) s (λ a s',
    a = 0 ∧ slub_inv s' fl live ∨ a ≠ 0 ∧ slub_inv s' fl ((a, size) :: live)).
Proof.
  intros HI Hs. unfold __kmalloc_large. assert (0 < size) as Hz0 by (change KMALLOC_MAX_CACHE_SIZE with 4096 in Hs; lia).
  rewrite round_up by lia. pose proof (npages_nonneg size Hz0) as Hn.
  apply ends_bind, ends_zoom. eapply ends_mono.
  { apply (bk_alloc_ok (sheap s) (npages size * 0x1000) (inv_heap _ _ _ HI)); [|apply aligned_mul].
    split; [lia|]. unfold npages in *. pose proof (Z.mul_div_le (size + 0xfff) 0x1000 ltac:(lia)).
    assert ((size + 0xfff) / 0x1000 ≤ (2 ^ 64 - 1) / 0x1000) as Hle by (apply Z.div_le_mono; lia).
    change ((2 ^ 64 - 1) / 0x1000) with (2 ^ 52 - 1) in Hle. lia. }
  intros a h Hh. fold (with_heap s h). destruct (Z.eqb_spec a 0) as [Ez|Hne].
  { eapply ends_ret; [reflexivity|]. left. split; [done|]. destruct Hh as (? & ? & _). by apply inv_shrink. }
  pose proof Hh as (_ & _ & [?|(Ha & Hlt & Al & Hby)]); [done|]. rewrite u64_id by (unfold in_u; lia).
  pose proof (free_pages s fl live a (npages size) HI Ha Al ltac:(intros; by apply Hby)) as HP.
  pose proof (Z.div_pos a 0x1000 ltac:(lia) ltac:(lia)). rewrite !page_shift.
  destruct (HP (a / 0x1000) ltac:(lia)) as [N0 _]. pose proof (inv_bytes _ _ _ HI) as Hb.
  pose proof (λ q Hq, nibble_fresh (page_bits s) (a / 0x1000) LARGE_IDX q Hb ltac:(lia) Hq ltac:(done) N0) as HF.
  rewrite Z.div_add by lia. replace (a / 0x1000 + npages size - (a / 0x1000 + 1)) with (npages size - 1) by lia.
  eapply ends_step; [apply or_bits_run; by exists 0|].
  destruct (mark_next_run (Z.to_nat (npages size - 1)) (a / 0x1000 + 1)
    (with_bits (with_heap s h) (bits_or (page_bits s) (a / 0x1000) LARGE_IDX))) as (bits & Hrun & Hok & Hnib);
    cbn [page_bits with_bits with_heap] in *.
  - by apply bits_or_ok.
  - lia.
  - intros q Hq. rewrite HF by lia. destruct (Z.eqb_spec q (a / 0x1000)); [lia|]. apply HP. lia.
  - eapply ends_step; [exact Hrun|]. eapply ends_ret; [reflexivity|]. right. split; [done|].
    unfold with_bits, with_heap. cbn [caches page_bits links sheap]. apply inv_grab; try done; [lia|].
    split; [done|]. intros q Hq. rewrite Hnib, HF by lia. rewrite Z2Nat.id by lia.
    destruct (Z.leb_spec (a / 0x1000 + 1) q), (Z.ltb_spec q (a / 0x1000 + 1 + (npages size - 1))),
      (Z.eqb_spec q (a / 0x1000)), (Z.ltb_spec (a / 0x1000) q), (Z.ltb_spec q (a / 0x1000 + npages size));
      simpl; try done; lia.
Qed.

Lemma large_size_run n fuel p size s :
  (n ≤ fuel)%nat → (0 < n)%nat → 0 ≤ size → size + Z.of_nat n * 0x1000 < 2 ^ 64 →
  (∀ k, 0 < k < Z.of_nat n → nibble (page_bits s) (p + k) = Some LARGE_NEXT) →
  (∃ v, nibble (page_bits s) (p + Z.of_nat n) = Some v ∧ v ≠ LARGE_NEXT) →
  large_size fuel size p s = Ret (size + Z.of_nat n * 0x1000) s.
Proof.
  revert fuel p size. induction n as [|n IH]; intros [|fuel] p size Hf Hn Hs Hb Hk Hl; try lia.
  cbn [large_size]. unfold PAGE_4K_SIZE. rewrite (u64_id (size + 0x1000)) by (unfold in_u; lia). destruct (decide (n = 0%nat)) as [->|].
  - destruct Hl as (v & Nv & Hv). rewrite (bind_ret _ _ _ _ _ (get_bits_run s (p + 1) v Nv)).
    rewrite (proj2 (Z.eqb_neq _ _) Hv). reflexivity.
  - rewrite (bind_ret _ _ _ _ _ (get_bits_run s (p + 1) LARGE_NEXT (Hk 1 ltac:(lia)))). rewrite Z.eqb_refl.
    rewrite IH; [f_equal; lia|lia..| |].
    + intros k Hk'. rewrite <- (Hk (k + 1)) by lia. f_equal. lia.
    + destruct Hl as (v & Nv & Hv). exists v. split; [|done]. rewrite <- Nv. f_equal. lia.
Qed.

(** The page behind a live large block is not marked as a continuation. *)
Lemma large_end s fl live a z :
  slub_inv s fl live → (a, z) ∈ live → KMALLOC_MAX_CACHE_SIZE < z →
  ∃ v, nibble (page_bits s) (a / 0x1000 + npages z) = Some v ∧ v ≠ LARGE_NEXT.
Proof.
  intros HI Hin Hz. assert (0 < z) as Hz0 by (change KMALLOC_MAX_CACHE_SIZE with 4096 in Hz; lia).
  pose proof (inv_blocks _ _ _ HI a z Hin Hz) as La. pose proof La as (Ha & Al & _ & _ & [v Nv] & _).
  exists v. split; [done|]. intros ->. pose proof (npages_nonneg z Hz0). pose proof (Z.div_pos a 0x1000 ltac:(lia) ltac:(lia)).
  destruct (inv_next _ _ _ HI (a / 0x1000 + npages z) ltac:(lia) Nv) as (b & y & Hb & Hy & Hr).
  pose proof (inv_blocks _ _ _ HI b y Hb Hy) as Lb.
  pose proof (large_bounds _ _ _ La). pose proof (large_bounds _ _ _ Lb).
  destruct (decide (a = b)) as [->|Hne].
  - assert (y = z) as ->; [|lia]. pose proof (inv_live _ _ _ HI) as ND.
    clear - ND Hin Hb. induction live as [|[c x] l IH]; [by apply not_elem_of_nil in Hb|].
    rewrite fmap_cons in ND. apply list.NoDup_cons in ND as [Hc ND]. simpl in Hc.
    apply elem_of_cons in Hin, Hb. destruct Hin as [E1|Hin], Hb as [E2|Hb]; [congruence| | |by apply IH].
    + destruct Hc. apply list_elem_of_fmap. exists (b, y). split; [by injection E1|done].
    + destruct Hc. apply list_elem_of_fmap. exists (b, z). split; [by injection E2|done].
  - pose proof (large_disjoint _ _ _ _ _ La Lb Hne). lia.
Qed.

Lemma __kmfree_large_run s fl live a z fuel :
  slub_inv s fl live → (a, z) ∈ live → KMALLOC_MAX_CACHE_SIZE < z → npages z ≤ Z.of_nat fuel →
  npages z * 0x1000 < 2 ^ 64 →
  __kmfree fuel a s = on_heap (bk_free a (npages z * 0x1000)) s.
Proof.
  intros HI Hin Hz Hf Hlt. assert (0 < z) as Hz0 by (change KMALLOC_MAX_CACHE_SIZE with 4096 in Hz; lia).
  pose proof (inv_blocks _ _ _ HI a z Hin Hz) as (Ha & Al & N0 & Nk & _). pose proof (npages_nonneg z Hz0).
  unfold __kmfree. destruct (Z.eqb_spec a ZERO_SIZE_PTR) as [Ez|_]; [by rewrite Ez in Al|].
  unfold get_cache_from_addr. rewrite page_shift, (bind_ret _ _ _ _ _ (get_bits_run s _ _ N0)).
  erewrite bind_ret by reflexivity. rewrite (inv_large _ _ _ HI), Z.eqb_refl.
  rewrite (bind_ret _ _ _ _ _ (large_size_run (Z.to_nat (npages z)) fuel (a / 0x1000) 0 s ltac:(lia) ltac:(lia) ltac:(lia)
    ltac:(lia) ltac:(intros; apply Nk; lia) ltac:(rewrite Z2Nat.id by lia; by eapply large_end))).
  by rewrite Z2Nat.id by lia.
Qed.

(** [slub_malloc]: for a size of a power-of-two cache or of a large block it
    returns an error with no block and changes nothing of what is live, or a block
    of that size that overlaps no live block; it does not fault or fail an assertion. *)
Theorem slub_malloc_correct s fl live size :
  slub_inv s fl live → pow_size size ∨ KMALLOC_MAX_CACHE_SIZE < size ≤ 2 ^ 64 - 0x1000 →
  ends (slub_malloc size) s (λ r s', ∃ fl',
    r = mk_ret 0 ERR_YAOSCALL_NO_MEM ∧ slub_inv s' fl' live ∨
    ∃ a, r = mk_ret a YAOSCALL_OK ∧ a ≠ 0 ∧ slub_inv s' fl' ((a, size) :: live) ∧
         ∀ b, b ∈ live → disjoint_blocks (a, size) b).
Proof.
  intros HI Hs. unfold slub_malloc. apply ends_bind.
  assert (ends (if KMALLOC_MAX_CACHE_SIZE <? size then __kmalloc_large size else __kmalloc size) s (λ a s', ∃ fl',
    a = 0 ∧ slub_inv s' fl' live ∨ a ≠ 0 ∧ slub_inv s' fl' ((a, size) :: live))) as HE.
  { change KMALLOC_MAX_CACHE_SIZE with 4096 in *. unfold pow_size in Hs. destruct (Z.ltb_spec 4096 size).
    - eapply ends_mono; [apply __kmalloc_large_ok; [done|change KMALLOC_MAX_CACHE_SIZE with 4096; lia]|].
      intros a s' HQ. by exists fl.
    - apply (__kmalloc_ok s fl live); [done|]. unfold pow_size. lia. }
  eapply ends_mono; [exact HE|]. intros a s' (fl' & [(-> & HI')|(Ha & HI')]).
  - eapply ends_ret; [reflexivity|]. exists fl'. by left.
  - eapply ends_ret; [reflexivity|]. exists fl'. right. exists a. rewrite (proj2 (Z.eqb_neq a 0) Ha).
    split_and!; try done. intros b Hb. apply (live_disjoint s' fl' ((a, size) :: live)); [done| | |].
    + by apply elem_of_cons; left.
    + by apply elem_of_cons; right.
    + pose proof (inv_live _ _ _ HI') as ND. rewrite fmap_cons in ND. apply list.NoDup_cons in ND as [Hn _].
      intros E. apply Hn. apply list_elem_of_fmap. by exists b.
Qed.

(** [slub_mfree] of a live small block puts its object back: the block is not live
    any more, the others are, and neither the heap nor the bits of the pages change. *)
Theorem slub_mfree_correct s fl l1 a z l2 fuel :
  slub_inv s fl (l1 ++ (a, z) :: l2) → z ≤ KMALLOC_MAX_CACHE_SIZE →
  ∃ fl' s', slub_mfree fuel a s = Ret (mk_ret 0 YAOSCALL_OK) s' ∧ slub_inv s' fl' (l1 ++ l2) ∧
    sheap s' = sheap s ∧ page_bits s' = page_bits s.
Proof.
  intros HI Hz. destruct (__kmfree_ok s fl l1 a z l2 fuel HI Hz) as (fl' & s' & E & HI' & HH).
  exists fl', s'. unfold slub_mfree. by rewrite (bind_ret _ _ _ _ _ E).
Qed.

(** [slub_mfree] of a live large block finds its length from the bits of the pages
    and gives exactly its pages back to the heap; nothing else changes, the bits of the
    pages in particular. *)
Theorem slub_mfree_large s fl live a z fuel :
  slub_inv s fl live → (a, z) ∈ live → KMALLOC_MAX_CACHE_SIZE < z → npages z ≤ Z.of_nat fuel →
  a + npages z * 0x1000 < 2 ^ 64 →
  ends (slub_mfree fuel a) s (λ r s', r = mk_ret 0 YAOSCALL_OK ∧ bk_inv (sheap s') ∧
    s' = with_heap s (sheap s') ∧
    ∀ x, bk_free_byte (sheap s') x ↔ bk_free_byte (sheap s) x ∨ a ≤ x < a + npages z * 0x1000).
Proof.
  intros HI Hin Hz Hf Hlt. pose proof (inv_blocks _ _ _ HI a z Hin Hz) as (Ha & Al & _ & _ & _ & Hnf).
  assert (0 < z) as Hz0 by (change KMALLOC_MAX_CACHE_SIZE with 4096 in Hz; lia). pose proof (npages_nonneg z Hz0).
  unfold slub_mfree. apply ends_bind. unfold ends at 1.
  rewrite (__kmfree_large_run s fl live a z fuel HI Hin Hz Hf ltac:(lia)). apply ends_zoom. eapply ends_mono.
  { apply (bk_free_ok (sheap s) a (npages z * 0x1000) (inv_heap _ _ _ HI)); try done; try lia. apply aligned_mul. }
  intros _ h [Hh Hb]. eapply ends_ret; [reflexivity|]. done.
Qed.

(** ** Clients *)

(** Calls of a client: a block of some size, or the block allocated [k] live blocks ago
    given back.  The blocks the client holds are kept with the sizes asked for. *)
Inductive request : Type := Malloc (size : Z) | Mfree (k : nat).

Definition request_run (r : request) (live : list (Z * Z)) : M (slub H) (list (Z * Z)) :=
  match r with
  | Malloc size =>
      ret ← slub_malloc size;
      mret (if ret_e ret =? YAOSCALL_OK then (ret_v ret, size) :: live else live)
  | Mfree k =>
      match live !! k with
      | Some (p, _) => slub_mfree 0 p ;; mret (take k live ++ drop (S k) live)
      | None => mret live
      end
  end.

Fixpoint client (rs : list request) (live : list (Z * Z)) : M (slub H) (list (Z * Z)) :=
  match rs with
  | [] => mret live
  | r :: rs => live ← request_run r live; client rs live
  end.

Definition small_request (r : request) : Prop :=
  match r with Malloc size => pow_size size | Mfree _ => True end.

Lemma request_run_ok s fl live r :
  slub_inv s fl live → Forall (λ b : Z * Z, b.2 ≤ KMALLOC_MAX_CACHE_SIZE) live → small_request r →
  ends (request_run r live) s (λ live' s', (∃ fl', slub_inv s' fl' live') ∧
    Forall (λ b : Z * Z, b.2 ≤ KMALLOC_MAX_CACHE_SIZE) live').
Proof.
  intros HI HF Hr. destruct r as [size|k]; cbn [request_run].
  - cbn in Hr. assert (size ≤ KMALLOC_MAX_CACHE_SIZE) as Hz
      by (change KMALLOC_MAX_CACHE_SIZE with 4096; unfold pow_size in Hr; lia).
    unfold slub_malloc. apply ends_bind, ends_bind. destruct (Z.ltb_spec KMALLOC_MAX_CACHE_SIZE size); [lia|].
    eapply ends_mono; [by apply (__kmalloc_ok s fl live)|]. intros a s' (fl' & [(-> & HI')|(Ha & HI')]).
    + eapply ends_ret; [reflexivity|]. eapply ends_ret; [reflexivity|]. split; [by exists fl'|done].
    + rewrite (proj2 (Z.eqb_neq a 0) Ha). eapply ends_ret; [reflexivity|]. eapply ends_ret; [reflexivity|].
      split; [by exists fl'|]. by apply list.Forall_cons.
  - destruct (live !! k) as [[p z]|] eqn:E; [|by eapply ends_ret; [reflexivity|split; [by exists fl|]]].
    apply take_drop_middle in E as El. rewrite <- El in HI, HF. apply Forall_app in HF as [HF1 HF2].
    apply list.Forall_cons in HF2 as [Hz HF2].
    destruct (__kmfree_ok s fl _ p z _ 0 HI Hz) as (fl' & s' & Erun & HI' & _).
    unfold slub_mfree. apply ends_bind. eapply ends_step; [exact Erun|]. eapply ends_ret; [reflexivity|].
    eapply ends_ret; [reflexivity|]. split; [by exists fl'|]. by apply Forall_app.
Qed.

Lemma client_ok rs s fl live :
  slub_inv s fl live → Forall (λ b : Z * Z, b.2 ≤ KMALLOC_MAX_CACHE_SIZE) live → Forall small_request rs →
  ends (client rs live) s (λ live' s', ∃ fl', slub_inv s' fl' live').
Proof.
  revert s fl live. induction rs as [|r rs IH]; intros s fl live HI HF Hrs; cbn [client].
  - eapply ends_ret; [reflexivity|]. by exists fl.
  - apply list.Forall_cons in Hrs as [Hr Hrs]. apply ends_bind.
    eapply ends_mono; [by eapply request_run_ok|]. intros live' s' [[fl' HI'] HF']. by eapply IH.
Qed.


(** ** Initialisation *)

Definition with_cache s (i : Z) (c : kmem_cache) : slub H :=
  mk_slub (λ j, if j =? i then c else caches s j) (page_bits s) (links s) (sheap s).

Lemma new_kmalloc_cache_run idx size s :
  kmalloc_info !! Z.to_nat idx = Some size → idx < 0x10000 →
  new_kmalloc_cache idx s = Ret tt (with_cache s idx (mk_cache (u8 idx) (s32 size) 0)).
Proof.
  intros E Hi. unfold new_kmalloc_cache. rewrite E. erewrite !bind_ret by reflexivity.
  apply ASSERT_true. by apply Z.ltb_lt.
Qed.

Lemma create_kmalloc_caches_run s :
  ∃ s', create_kmalloc_caches s = Ret tt s' ∧
    page_bits s' = page_bits s ∧ links s' = links s ∧ sheap s' = sheap s ∧
    k_idx (caches s' LARGE_IDX) = LARGE_IDX ∧ ∀ i, pow_cache i → caches s' i = mk_cache i (2 ^ i) 0.
Proof.
  eexists. split.
  - unfold create_kmalloc_caches. change (S KMALLOC_SHIFT_HIGH - KMALLOC_SHIFT_LOW)%nat with 10%nat.
    unfold KMALLOC_SHIFT_LOW. cbn [for_range]. cbn [Nat.eqb].
    repeat first [rewrite bind_assoc
                 |erewrite bind_ret by (apply new_kmalloc_cache_run; [reflexivity|reflexivity])
                 |erewrite bind_ret by reflexivity].
    by apply new_kmalloc_cache_run.
  - split_and!; [reflexivity..|]. unfold pow_cache. intros i Hi.
    assert (i = 3 ∨ i = 4 ∨ i = 5 ∨ i = 6 ∨ i = 7 ∨ i = 8 ∨ i = 9 ∨ i = 10 ∨ i = 11 ∨ i = 12) as Hc by lia.
    by destruct Hc as [->|[->|[->|[->|[->|[->|[->|[->|[->| ->]]]]]]]]].
Qed.

Lemma page_bits_size_ok maxaddr :
  0 ≤ maxaddr < 2 ^ 52 →
  0 < page_bits_size maxaddr ≤ 2 ^ 64 - 0x1000 ∧ aligned 0x1000 (page_bits_size maxaddr) ∧
  maxaddr / 0x1000 < 2 * page_bits_size maxaddr.
Proof.
  intros Hm. unfold page_bits_size, PAGE_4K_SIZE. rewrite page_shift. change (0x1000 - 1) with 0xfff.
  pose proof (Z.div_mod maxaddr 0x1000 ltac:(lia)). pose proof (Z.mod_pos_bound maxaddr 0x1000 ltac:(lia)).
  set (p := maxaddr / 0x1000) in *. pose proof (Z.div_mod p 2 ltac:(lia)). pose proof (Z.mod_pos_bound p 2 ltac:(lia)).
  assert (0 ≤ p < 2 ^ 40) as Hp by lia. rewrite round_up by lia. unfold npages.
  pose proof (Z.div_mod (p / 2 + 1 + 0xfff) 0x1000 ltac:(lia)). pose proof (Z.mod_pos_bound (p / 2 + 1 + 0xfff) 0x1000 ltac:(lia)).
  split; [lia|]. split; [apply aligned_mul|]. lia.
Qed.

Lemma nibble_zero n p : 0 ≤ p < 2 * n → nibble (replicate (Z.to_nat n) 0) p = Some 0.
Proof.
  intros Hp. unfold nibble. assert (p / 2 < n) by (apply Z.div_lt_upper_bound; lia). pose proof (Z.div_pos p 2).
  rewrite lookup_replicate_2 by lia. cbn. by destruct (negb _).
Qed.

Lemma slub_main_run s maxaddr :
  bk_inv (sheap s) → 0 ≤ maxaddr < 2 ^ 52 → aligned 0x1000 maxaddr → (∀ x, bk_free_byte (sheap s) x → 0 ≤ x < maxaddr) →
  match slub_main maxaddr true MOD_BPLOAD s with
  | Ret calls s' => calls = [YAOS_malloc; YAOS_mfree] ∧ slub_inv s' (λ _, []) []
  | Faulted => ∃ h, bk_alloc (page_bits_size maxaddr) (sheap s) = Ret 0 h
  | Panicked => True
  | _ => False
  end.
Proof.
  intros Hh Hm Hma Hx. destruct (page_bits_size_ok maxaddr Hm) as (Hs & Ha & Hc).
  pose proof (bk_alloc_ok (sheap s) (page_bits_size maxaddr) Hh Hs Ha) as HA.
  unfold slub_main, init_slub_bp, init_slub_ap. set (n := page_bits_size maxaddr) in *.
  destruct (bk_alloc n (sheap s)) as [a h| | | | |] eqn:E; try done;
    [|unfold mbind, M_bind, on_heap, zoom; by rewrite E].
  unfold on_heap. rewrite bind_assoc. erewrite bind_ret by (apply zoom_ret, E).
  destruct (Z.eqb_spec a 0) as [->|Hne]; [by exists h|]. erewrite bind_ret by reflexivity.
  destruct (create_kmalloc_caches_run (mk_slub (caches s) (replicate (Z.to_nat n) 0) (links s) h)) as (s' & Ec & Eb & Ek & Eh & El & Hcs).
  rewrite (bind_ret _ _ _ _ _ Ec). cbn [page_bits links sheap] in *. cbv beta delta [mret M_ret] iota.
  split; [done|]. destruct HA as (Hi & Hsub & _).
  assert (∀ b : Z * Z, b ∉ []) as HN by (intros b ?%not_elem_of_nil; done).
  split; rewrite ?Eb, ?Eh; try done.
  - apply Forall_replicate. lia.
  - intros x Hf. destruct (Hx x (Hsub x Hf)). pose proof (Z.div_pos x 0x1000 ltac:(lia) ltac:(lia)).
    assert (x / 0x1000 < maxaddr / 0x1000) as Hlt.
    { apply Z.div_lt_upper_bound; [lia|]. unfold aligned in Hma. pose proof (Z.div_mod maxaddr 0x1000 ltac:(lia)). lia. }
    split_and!; [lia|apply nibble_zero; lia|]. exists 0. apply nibble_zero. lia.
  - intros p Hp N. unfold nibble in N. destruct (replicate _ 0 !! _) as [b|] eqn:Eb'; [|done].
    apply lookup_replicate in Eb' as [-> _]. cbn in N. by destruct (negb _).
  - intros i Pi. rewrite (Hcs i Pi). done.
  - intros i a' _ ?%not_elem_of_nil. done.
  - by intros a' z ?%HN.
  - by intros a' z ?%HN.
  - apply NoDup_nil_2.
Qed.

(** Loading the module on the boot processor: unless the heap has no room for the
    bits of the pages, it leaves the allocator in order with no block handed out, and
    registers the two calls. *)
Theorem slub_main_correct s maxaddr :
  bk_inv (sheap s) → 0 ≤ maxaddr < 2 ^ 52 → aligned 0x1000 maxaddr → (∀ x, bk_free_byte (sheap s) x → 0 ≤ x < maxaddr) →
  match slub_main maxaddr true MOD_BPLOAD s with
  | Ret calls s' => calls = [YAOS_malloc; YAOS_mfree] ∧ slub_inv s' (λ _, []) []
  | Faulted => ∃ h, bk_alloc (page_bits_size maxaddr) (sheap s) = Ret 0 h
  | Panicked => True
  | _ => False
  end.
Proof. apply slub_main_run. Qed.

(** ** The caches of 96 and 192 bytes *)

(** A page of the caches of 96 and of 192 bytes, whose sizes do not divide a page, is
    cut into objects as long as they start in the page: the last one runs past its
    end, into memory the heap may have handed to others. *)
Theorem odd_cache_overruns s a size :
  size = 96 ∨ size = 192 → 0 < a → a + 0x2000 < 2 ^ 64 →
  ∃ s', thread_page SLAB_FUEL a (a + 0x1000) size s = Ret (a + 4032) s' ∧
    a + 4032 < a + 0x1000 < a + 4032 + size.
Proof.
  intros Hs Ha Hb. destruct Hs as [-> | ->].
  - destruct (thread_page_run 42 SLAB_FUEL a (a + 0x1000) 96 s ltac:(unfold SLAB_FUEL; lia) ltac:(lia) ltac:(lia)
      ltac:(lia) ltac:(lia)) as (lk & E & _). eexists. split; [exact E|]. lia.
  - destruct (thread_page_run 21 SLAB_FUEL a (a + 0x1000) 192 s ltac:(unfold SLAB_FUEL; lia) ltac:(lia) ltac:(lia)
      ltac:(lia) ltac:(lia)) as (lk & E & _). eexists. split; [exact E|]. lia.
Qed.

(** The bits of a page are only ever added to: a page that was the first of a large
    block and that a cache takes after the block was freed still reads as a large
    block, so that freeing an object of it gives memory to the heap instead of
    the object to its cache. *)
Theorem stale_bits s a i fuel :
  bytes_ok (page_bits s) → 0x1000 ≤ a → pow_cache i → k_idx (caches s LARGE_IDX) = LARGE_IDX →
  nibble (page_bits s) (a / 0x1000) = Some LARGE_IDX →
  (∃ v, nibble (page_bits s) (a / 0x1000 + 1) = Some v ∧ v ≠ LARGE_NEXT) →
  ∃ s1, or_bits (a .>> PAGE_4K_SHIFT) i s = Ret tt s1 ∧
    __kmfree (S fuel) a s1 = on_heap (bk_free a 0x1000) s1.
Proof.
  intros Hb Ha Hi HL N (v & Nv & Hv). rewrite page_shift. pose proof (Z.div_pos a 0x1000 ltac:(lia) ltac:(lia)).
  unfold pow_cache in Hi. eexists. split; [apply or_bits_run; by exists LARGE_IDX|].
  assert (LARGE_IDX .| i = LARGE_IDX) as Eor.
  { assert (i = 3 ∨ i = 4 ∨ i = 5 ∨ i = 6 ∨ i = 7 ∨ i = 8 ∨ i = 9 ∨ i = 10 ∨ i = 11 ∨ i = 12) as Hc by lia.
    by destruct Hc as [->|[->|[->|[->|[->|[->|[->|[->|[->| ->]]]]]]]]]. }
  unfold __kmfree. destruct (Z.eqb_spec a ZERO_SIZE_PTR) as [Ez|_]; [by rewrite Ez in Ha|].
  unfold get_cache_from_addr. rewrite page_shift. erewrite bind_ret.
  2: { apply get_bits_run. cbn [page_bits with_bits]. rewrite nibble_or, Z.eqb_refl, N by (done || lia). cbn. by rewrite Eor. }
  erewrite bind_ret by reflexivity. cbn [caches with_bits]. rewrite HL, Z.eqb_refl.
  erewrite bind_ret; [reflexivity|]. rewrite (large_size_run 1); try lia; [reflexivity|].
  exists v. split; [|done]. cbn [page_bits with_bits]. rewrite nibble_or by (done || lia).
  change (Z.of_nat 1) with 1. by rewrite (proj2 (Z.eqb_neq (a / 0x1000 + 1) (a / 0x1000))) by lia.
Qed.

End runs.

(** ** Examples *)

(** The allocator over the heap of an 8 MiB machine, as the boot processor loads it. *)
#[local] Instance sample_blocks : BlockSource ystate := y_blocks (λ _ _ _, dummy).

Definition sample_calls : ystate :=
  set_table YAOS_heap_free f_heap_free_4k (set_table YAOS_heap_alloc f_heap_alloc_4k sample_y).
Definition empty_slub : slub ystate := mk_slub (λ _, mk_cache 0 0 0) [] (λ _, 0) sample_calls.
Definition sample_slub : slub ystate :=
  match slub_main 0x8000000 true MOD_BPLOAD empty_slub with Ret _ s => s | _ => empty_slub end.

#[local] Strategy 1000 [sample_heap].

Lemma sample_free x : bk_free_byte sample_calls x → 0 ≤ x < 0x8000000.
Proof.
  intros Hf. cbv [bk_free_byte sample_blocks y_blocks y_free sample_calls set_table kmem sample_y] in Hf.
  apply (heap_free_iff _ _ _ _ _ _ sample_heap_ok) in Hf
    as [(? & ?%elem_of_nil & _)|[(? & ?%elem_of_nil & _)|(a & Ha & Hxa)]]; [done..|].
  destruct Ha as (Hal & Hi). pose proof (bit_at_range _ _ Hi) as Hr.
  assert (length (pgbits (phys sample_heap)) = 1%nat) as El by (vm_compute; reflexivity). rewrite El in Hr. clear El Hi.
  unfold aligned, PAGE_SIZE in *.
  pose proof (Z.div_mod a 0x200000 ltac:(lia)). lia.
Qed.

Lemma sample_calls_inv : bk_inv sample_calls.
Proof.
  cbv [bk_inv sample_blocks y_blocks y_inv sample_calls set_table kmem sample_y]. split; [|done].
  exists [], MAX_HEAP_HOLE, [], MAX_SMALL_HOLE. apply sample_heap_ok.
Qed.

Lemma sample_slub_ok : slub_inv sample_slub (λ _, []) [].
Proof.
  pose proof (slub_main_run empty_slub 0x8000000 sample_calls_inv ltac:(lia) eq_refl sample_free) as HM.
  assert (ret_val (slub_main 0x8000000 true MOD_BPLOAD empty_slub) = Some [YAOS_malloc; YAOS_mfree]) as E
    by (vm_compute; reflexivity).
  unfold sample_slub. apply ret_val_Some in E as (s & E & _). rewrite E in HM |- *. apply HM.
Qed.

Lemma slub_main_correct_witness :
  ∃ s', slub_main 0x8000000 true MOD_BPLOAD empty_slub = Ret [YAOS_malloc; YAOS_mfree] s' ∧
    slub_inv s' (λ _, []) [].
Proof.
  pose proof (slub_main_correct empty_slub 0x8000000 sample_calls_inv ltac:(lia) eq_refl sample_free) as HM.
  assert (ret_val (slub_main 0x8000000 true MOD_BPLOAD empty_slub) = Some [YAOS_malloc; YAOS_mfree]) as E
    by (vm_compute; reflexivity).
  apply ret_val_Some in E as (s & E & _). exists s. rewrite E in HM. split; [exact E|apply HM].
Defined.

Lemma slub_malloc_correct_witness :
  ends (slub_malloc 100) sample_slub (λ r s', ∃ fl',
    r = mk_ret 0 ERR_YAOSCALL_NO_MEM ∧ slub_inv s' fl' [] ∨
    ∃ a, r = mk_ret a YAOSCALL_OK ∧ a ≠ 0 ∧ slub_inv s' fl' [(a, 100)]) ∧
  ret_val (slub_malloc 100 sample_slub) = Some (mk_ret 0x205000 YAOSCALL_OK).
Proof.
  split; [|vm_compute; reflexivity].
  eapply ends_mono; [apply (slub_malloc_correct sample_slub (λ _, []) [] 100 sample_slub_ok)|].
  - left. unfold pow_size. lia.
  - intros r s' (fl' & [HQ|(a & E & Ha & HI & _)]); exists fl'; [by left|right]. by exists a.
Defined.


(** One small and one large block handed out. *)
Definition held_small : slub ystate :=
  match slub_malloc 100 sample_slub with Ret _ s => s | _ => sample_slub end.
Definition held_large : slub ystate :=
  match slub_malloc 0x3000 sample_slub with Ret _ s => s | _ => sample_slub end.

Lemma held_small_ok : ∃ fl, slub_inv held_small fl ([] ++ (0x205000, 100) :: []).
Proof.
  pose proof (__kmalloc_ok sample_slub (λ _, []) [] 100 sample_slub_ok ltac:(unfold pow_size; lia)) as HK.
  assert (ret_val (__kmalloc 100 sample_slub) = Some 0x205000) as E by (vm_compute; reflexivity).
  apply ret_val_Some in E as (s & E & _). unfold held_small, slub_malloc, ends in *.
  change (KMALLOC_MAX_CACHE_SIZE <? 100) with false. cbv iota. rewrite E in HK.
  rewrite (bind_ret _ _ _ _ _ E). destruct HK as (fl & [[Hz _]|[_ HI]]); [discriminate Hz|].
  cbv beta iota delta [mret M_ret app]. exists fl. exact HI.
Qed.

Lemma held_large_ok : ∃ fl, slub_inv held_large fl [(0x205000, 0x3000)].
Proof.
  pose proof (__kmalloc_large_ok sample_slub (λ _, []) [] 0x3000 sample_slub_ok ltac:(by split)) as HK.
  assert (ret_val (__kmalloc_large 0x3000 sample_slub) = Some 0x205000) as E by (vm_compute; reflexivity).
  apply ret_val_Some in E as (s & E & _). unfold held_large, slub_malloc, ends in *.
  change (KMALLOC_MAX_CACHE_SIZE <? 0x3000) with true. cbv iota. rewrite E in HK.
  rewrite (bind_ret _ _ _ _ _ E). destruct HK as [[Hz _]|[_ HI]]; [discriminate Hz|].
  cbv beta iota delta [mret M_ret]. exists (λ _, []). exact HI.
Qed.

Lemma slub_mfree_correct_witness :
  ∃ fl' s', slub_mfree 0 0x205000 held_small = Ret (mk_ret 0 YAOSCALL_OK) s' ∧ slub_inv s' fl' [].
Proof.
  destruct held_small_ok as [fl HI].
  destruct (slub_mfree_correct held_small fl [] 0x205000 100 [] 0 HI) as (fl' & s' & E & HI' & _);
    [by vm_compute|]. exists fl', s'. split; [exact E|exact HI'].
Defined.

Lemma slub_mfree_large_witness :
  ends (slub_mfree 3 0x205000) held_large (λ r s', r = mk_ret 0 YAOSCALL_OK ∧
    ∀ x, bk_free_byte (sheap s') x ↔ bk_free_byte (sheap held_large) x ∨ 0x205000 ≤ x < 0x208000).
Proof.
  destruct held_large_ok as [fl HI].
  eapply ends_mono; [apply (slub_mfree_large held_large fl [(0x205000, 0x3000)] 0x205000 0x3000 3 HI)|].
  - by apply elem_of_cons; left.
  - reflexivity.
  - by vm_compute.
  - reflexivity.
  - intros r s' (E & _ & _ & HQ). split; [exact E|]. exact HQ.
Defined.

Lemma odd_cache_overruns_witness :
  ∃ s', thread_page SLAB_FUEL 0x205000 (0x205000 + 0x1000) 96 sample_slub = Ret (0x205000 + 4032) s'.
Proof.
  destruct (odd_cache_overruns sample_slub 0x205000 96) as (s' & E & _); [by left|reflexivity..|]. exists s'. exact E.
Defined.

Lemma stale_bits_witness :
  ∃ s1, or_bits (0x207000 .>> PAGE_4K_SHIFT) 7
          (with_bits sample_slub (bits_or (page_bits sample_slub) 0x207 LARGE_IDX)) = Ret tt s1 ∧
    __kmfree 1 0x207000 s1 = on_heap (bk_free 0x207000 0x1000) s1.
Proof.
  apply stale_bits; [..|exists 0; split; [vm_compute; reflexivity|discriminate]].
  - apply bits_or_ok. apply (inv_bytes _ _ _ sample_slub_ok).
  - lia.
  - unfold pow_cache. lia.
  - vm_compute. reflexivity.
  - vm_compute. reflexivity.
Defined.
