(* ===== verification/Softirq.v ===== *)
(** * Soft interrupts and tasklets (kernel/tasklet.c, include/yaos/tasklet.h)

    The pending mask of one processor, the loop that runs the actions of the pending
    soft interrupts, and the two queues of tasklets, linked through the tasklets
    with a pointer to the last link.  What a tasklet or a foreign action does, and the
    thread switch of [wake_up_thread], are arguments of the model. *)

From Stdlib Require Import Lia ZArith.
From stdpp Require Import base list numbers option.
From S2P Require Import Prelude Chain Bitops.

#[local] Open Scope Z_scope.
#[local] Open Scope yaos_scope.

Definition HI_SOFTIRQ : Z := 0.
Definition TIMER_SOFTIRQ : Z := 1.
Definition TASKLET_SOFTIRQ : Z := 6.
Definition NR_SOFTIRQS : Z := 10.
Definition TASKLET_STATE_SCHED : Z := 0.
Definition TASKLET_STATE_RUN : Z := 1.
Definition MAX_SOFTIRQ_TIME : Z := 2.
Definition MAX_SOFTIRQ_RESTART : nat := 10.

(** ** State *)

Record tasklet_struct : Type := mk_tasklet {
  t_next : Z;
  t_state : Z;
  t_count : Z;
  t_func : Z;
  t_data : Z
}.

(** The tail of a queue points to its head field ([None]) or to the [next] field of a
    tasklet. *)
Record tasklet_head : Type := mk_tvec { t_head : Z; t_tail : option Z }.

(** The functions an entry of [softirq_vec] can hold. *)
Inductive handler : Type := h_tasklet_action | h_tasklet_hi_action | h_other (n : nat).

(** [suspended] is the THREAD_SUSPEND flag of the processor's tasklet thread; [env] is
    the rest of the machine. *)
Record sirq (U : Type) : Type := mk_sirq {
  pending : Z;
  tasklet_count : Z;
  irqs : bool;
  suspended : bool;
  msec_count : Z;
  softirq_vec : Z → option handler;
  tasklet_vec : tasklet_head;
  tasklet_hi_vec : tasklet_head;
  tasklets : Z → tasklet_struct;
  env : U
}.
Arguments mk_sirq {U}.
Arguments pending {U}.
Arguments tasklet_count {U}.
Arguments irqs {U}.
Arguments suspended {U}.
Arguments msec_count {U}.
Arguments softirq_vec {U}.
Arguments tasklet_vec {U}.
Arguments tasklet_hi_vec {U}.
Arguments tasklets {U}.
Arguments env {U}.

Section softirq.
Context {U : Type}.
Context (tfunc : Z → Z → M (sirq U) unit) (other_action : nat → M (sirq U) unit) (wake_up_thread : M (sirq U) unit).

Notation S := (sirq U).

Definition put_pending (x : Z) (s : S) : S :=
  mk_sirq x (tasklet_count s) (irqs s) (suspended s) (msec_count s) (softirq_vec s) (tasklet_vec s)
    (tasklet_hi_vec s) (tasklets s) (env s).
Definition put_count (x : Z) (s : S) : S :=
  mk_sirq (pending s) x (irqs s) (suspended s) (msec_count s) (softirq_vec s) (tasklet_vec s)
    (tasklet_hi_vec s) (tasklets s) (env s).
Definition put_irqs (b : bool) (s : S) : S :=
  mk_sirq (pending s) (tasklet_count s) b (suspended s) (msec_count s) (softirq_vec s) (tasklet_vec s)
    (tasklet_hi_vec s) (tasklets s) (env s).
Definition put_vec (v : Z → option handler) (s : S) : S :=
  mk_sirq (pending s) (tasklet_count s) (irqs s) (suspended s) (msec_count s) v (tasklet_vec s)
    (tasklet_hi_vec s) (tasklets s) (env s).
Definition put_tasklets (f : Z → tasklet_struct) (s : S) : S :=
  mk_sirq (pending s) (tasklet_count s) (irqs s) (suspended s) (msec_count s) (softirq_vec s) (tasklet_vec s)
    (tasklet_hi_vec s) f (env s).

(** The two queues, by priority. *)
Inductive prio : Type := Lo | Hi.

Definition queue (q : prio) (s : S) : tasklet_head :=
  match q with Lo => tasklet_vec s | Hi => tasklet_hi_vec s end.
Definition put_queue (q : prio) (v : tasklet_head) (s : S) : S :=
  mk_sirq (pending s) (tasklet_count s) (irqs s) (suspended s) (msec_count s) (softirq_vec s)
    (match q with Lo => v | Hi => tasklet_vec s end)
    (match q with Lo => tasklet_hi_vec s | Hi => v end) (tasklets s) (env s).
Definition softirq_nr (q : prio) : Z := match q with Lo => TASKLET_SOFTIRQ | Hi => HI_SOFTIRQ end.

(** [do {} while (1)] *)
Definition BUG : M S unit := λ _, Hung.

(** ** Interrupt flag and pending mask *)

Definition local_irq_save : M S bool :=
  b ← gets irqs; modify (put_irqs false) ;; mret b.
Definition local_irq_restore (b : bool) : M S unit := modify (put_irqs b).
Definition local_irq_enable : M S unit := modify (put_irqs true).
Definition local_irq_disable : M S unit := modify (put_irqs false).

Definition local_softirq_pending : M S Z := gets pending.
Definition set_softirq_pending (x : Z) : M S unit := modify (put_pending (u32 x)).
Definition or_softirq_pending (x : Z) : M S unit := modify (λ s, put_pending (u32 (pending s .| x)) s).

Definition in_tasklet : M S bool := gets (λ s, 0 <=? tasklet_count s).
Definition disable_tasklet : M S unit := modify (λ s, put_count (s32 (tasklet_count s + 1)) s).
Definition enable_tasklet : M S unit := modify (λ s, put_count (s32 (tasklet_count s - 1)) s).

(** ** Raising *)

Definition wakeup_taskletd : M S unit :=
  b ← gets suspended;
  if (b : bool) then wake_up_thread else mret tt.

Definition __raise_softirq_irqoff (nr : Z) : M S unit := or_softirq_pending (1 .<< nr).

Definition raise_softirq_irqoff (nr : Z) : M S unit :=
  __raise_softirq_irqoff nr ;;
  b ← in_tasklet;
  if negb b then wakeup_taskletd else mret tt.

Definition raise_softirq (nr : Z) : M S unit :=
  flags ← local_irq_save;
  raise_softirq_irqoff nr ;;
  local_irq_restore flags.

Definition open_softirq (nr : Z) (action : handler) : M S unit :=
  modify (λ s, put_vec (λ i, if i =? nr then Some action else softirq_vec s i) s).

(** ** Tasklets *)

Definition set_tasklet (t : Z) (x : tasklet_struct) : M S unit :=
  modify (λ s, put_tasklets (λ i, if i =? t then x else tasklets s i) s).
Definition tasklet (t : Z) : M S tasklet_struct := gets (λ s, tasklets s t).

Definition set_next (t n : Z) : M S unit :=
  x ← tasklet t; set_tasklet t (mk_tasklet n (t_state x) (t_count x) (t_func x) (t_data x)).
Definition set_state (t st : Z) : M S unit :=
  x ← tasklet t; set_tasklet t (mk_tasklet (t_next x) st (t_count x) (t_func x) (t_data x)).
Definition set_count (t c : Z) : M S unit :=
  x ← tasklet t; set_tasklet t (mk_tasklet (t_next x) (t_state x) c (t_func x) (t_data x)).

(** The bit operations on [t->state]; the result is the old bit. *)
Definition test_and_set_state (t bit : Z) : M S bool :=
  x ← tasklet t; set_state t (Z.setbit (t_state x) bit) ;; mret (Z.testbit (t_state x) bit).
Definition test_and_clear_state (t bit : Z) : M S bool :=
  x ← tasklet t; set_state t (Z.clearbit (t_state x) bit) ;; mret (Z.testbit (t_state x) bit).

Definition tasklet_init (t func data : Z) : M S unit := set_tasklet t (mk_tasklet 0 0 0 func data).

Definition tasklet_trylock (t : Z) : M S bool :=
  b ← test_and_set_state t TASKLET_STATE_RUN; mret (negb b).
Definition tasklet_unlock (t : Z) : M S unit :=
  x ← tasklet t; set_state t (Z.clearbit (t_state x) TASKLET_STATE_RUN).

(** [while (test_bit(TASKLET_STATE_RUN, &t->state)) barrier();] with nothing else
    running, a loop that waits waits for ever. *)
Definition tasklet_unlock_wait (t : Z) : M S unit :=
  x ← tasklet t;
  if Z.testbit (t_state x) TASKLET_STATE_RUN then BUG else mret tt.

Definition tasklet_disable_nosync (t : Z) : M S unit :=
  x ← tasklet t; set_count t (s32 (t_count x + 1)).
Definition tasklet_disable (t : Z) : M S unit :=
  tasklet_disable_nosync t ;; tasklet_unlock_wait t.
Definition tasklet_enable (t : Z) : M S unit :=
  x ← tasklet t; set_count t (s32 (t_count x - 1)).

(** [t->next = NULL; *tail = t; tail = &t->next;] *)
Definition append (q : prio) (t : Z) : M S unit :=
  set_next t 0 ;;
  v ← gets (queue q);
  match t_tail v with
  | None => modify (put_queue q (mk_tvec t (Some t)))
  | Some l => set_next l t ;; modify (put_queue q (mk_tvec (t_head v) (Some t)))
  end.

Definition schedule_on (q : prio) (t : Z) : M S unit :=
  flags ← local_irq_save;
  append q t ;;
  raise_softirq_irqoff (softirq_nr q) ;;
  local_irq_restore flags.
Definition __tasklet_schedule : Z → M S unit := schedule_on Lo.
Definition __tasklet_hi_schedule : Z → M S unit := schedule_on Hi.

(** The BUG_ON is empty in this configuration; the tail is left alone. *)
Definition __tasklet_hi_schedule_first (t : Z) : M S unit :=
  v ← gets (queue Hi);
  set_next t (t_head v) ;;
  v ← gets (queue Hi);
  modify (put_queue Hi (mk_tvec t (t_tail v))) ;;
  __raise_softirq_irqoff HI_SOFTIRQ.

Definition tasklet_schedule (t : Z) : M S unit :=
  b ← test_and_set_state t TASKLET_STATE_SCHED;
  if negb b then __tasklet_schedule t else mret tt.
Definition tasklet_hi_schedule (t : Z) : M S unit :=
  b ← test_and_set_state t TASKLET_STATE_SCHED;
  if negb b then __tasklet_hi_schedule t else mret tt.
Definition tasklet_hi_schedule_first (t : Z) : M S unit :=
  b ← test_and_set_state t TASKLET_STATE_SCHED;
  if negb b then __tasklet_hi_schedule_first t else mret tt.

(** The body of the loop for one tasklet. *)
Definition action_one (q : prio) (t : Z) : M S unit :=
  let requeue :=
    local_irq_disable ;;
    append q t ;;
    __raise_softirq_irqoff (softirq_nr q) ;;
    local_irq_enable in
  ok ← tasklet_trylock t;
  if (ok : bool) then
    x ← tasklet t;
    if t_count x =? 0 then
      b ← test_and_clear_state t TASKLET_STATE_SCHED;
      if negb b then BUG else
      tfunc (t_func x) (t_data x) ;;
      tasklet_unlock t
    else
      tasklet_unlock t ;; requeue
  else requeue.

Fixpoint action_loop (fuel : nat) (q : prio) (list : Z) : M S unit :=
  match fuel with
  | O => out_of_fuel
  | Datatypes.S fuel =>
      if list =? 0 then mret tt else
      x ← tasklet list;
      action_one q list ;;
      action_loop fuel q (t_next x)
  end.

Definition action_on (fuel : nat) (q : prio) : M S unit :=
  local_irq_disable ;;
  v ← gets (queue q);
  modify (put_queue q (mk_tvec 0 None)) ;;
  local_irq_enable ;;
  action_loop fuel q (t_head v).
Definition tasklet_action (fuel : nat) : M S unit := action_on fuel Lo.
Definition tasklet_hi_action (fuel : nat) : M S unit := action_on fuel Hi.

(** ** Running soft interrupts *)

Definition run_action (fuel : nat) (nr : Z) : M S unit :=
  h ← gets (λ s, softirq_vec s nr);
  match h with
  | None => fault
  | Some h_tasklet_action => tasklet_action fuel
  | Some h_tasklet_hi_action => tasklet_hi_action fuel
  | Some (h_other n) => other_action n
  end.

(** [while ((softirq_bit = ffs(pending))) { h += softirq_bit - 1; h->action(h); h++;
    pending >>= softirq_bit; }] with [h] the index in [softirq_vec]. *)
Fixpoint run_pending (act : Z → M S unit) (fuel : nat) (h pending : Z) : M S unit :=
  match fuel with
  | O => out_of_fuel
  | Datatypes.S fuel =>
      let softirq_bit := ffs pending in
      if softirq_bit =? 0 then mret tt else
      act (h + (softirq_bit - 1)) ;;
      run_pending act fuel (h + softirq_bit) (pending .>> softirq_bit)
  end.

(** From the label restart on; [max_restart] rounds are left. *)
Fixpoint softirq_rounds (act : Z → M S unit) (max_restart : nat) (limit pend : Z) : M S unit :=
  set_softirq_pending 0 ;;
  local_irq_enable ;;
  run_pending act 33 0 pend ;;
  local_irq_disable ;;
  pend ← local_softirq_pending;
  if negb (pend =? 0) then
    now ← gets msec_count;
    match max_restart with
    | O => wakeup_taskletd
    | Datatypes.S O => wakeup_taskletd
    | Datatypes.S m => if now <? limit then softirq_rounds act m limit pend else wakeup_taskletd
    end
  else mret tt.

Definition __do_softirq (fuel : nat) : M S unit :=
  now ← gets msec_count;
  pend ← local_softirq_pending;
  disable_tasklet ;;
  softirq_rounds (run_action fuel) MAX_SOFTIRQ_RESTART (u64 (now + MAX_SOFTIRQ_TIME)) pend ;;
  enable_tasklet.

Definition do_softirq (fuel : nat) : M S unit :=
  b ← in_tasklet;
  if (b : bool) then mret tt else
  flags ← local_irq_save;
  pend ← local_softirq_pending;
  (if negb (pend =? 0) then __do_softirq fuel else mret tt) ;;
  local_irq_restore flags.

Definition irq_exit (fuel : nat) : M S unit :=
  local_irq_disable ;;
  b ← in_tasklet;
  pend ← local_softirq_pending;
  if negb b && negb (pend =? 0) then __do_softirq fuel else mret tt.

Definition ksoftirqd_should_run : M S bool := p ← local_softirq_pending; mret (negb (p =? 0)).

Definition run_ksoftirqd (fuel : nat) : M S Z :=
  local_irq_disable ;;
  pend ← local_softirq_pending;
  (if negb (pend =? 0) then __do_softirq fuel else mret tt) ;;
  local_irq_enable ;;
  mret 0.

(** The queues of this processor, the two actions; the tasklet thread is registered with
    smp.c. *)
Definition softirq_init (isbp : bool) : M S Z :=
  if negb isbp then mret 0 else
  modify (λ s, put_queue Lo (mk_tvec (t_head (tasklet_vec s)) None) s) ;;
  modify (λ s, put_queue Hi (mk_tvec (t_head (tasklet_hi_vec s)) None) s) ;;
  open_softirq TASKLET_SOFTIRQ h_tasklet_action ;;
  open_softirq HI_SOFTIRQ h_tasklet_hi_action ;;
  mret 0.

(** ** Invariant of the queues *)

Definition next_in (s : S) (t : Z) : Z := t_next (tasklets s t).
Definition sched (s : S) (t : Z) : bool := Z.testbit (t_state (tasklets s t)) TASKLET_STATE_SCHED.

(** The queue [q] holds the tasklets [l], and its tail points to the last link. *)
Definition queue_is (s : S) (q : prio) (l : list Z) : Prop :=
  clist (next_in s) (t_head (queue q s)) l ∧ t_tail (queue q s) = list.last l.

(** The tasklets [ex] are in hand, [loc] is the rest of a list an action took from its
    queue, [lo] and [hi] are in the queues: these are the scheduled tasklets, each in
    one place. *)
Record tasklets_ok (s : S) (ex : list Z) (p : Z) (loc lo hi : list Z) : Prop := {
  tk_loc : clist (next_in s) p loc;
  tk_lo : queue_is s Lo lo;
  tk_hi : queue_is s Hi hi;
  tk_nodup : NoDup (ex ++ loc ++ lo ++ hi);
  tk_sched : ∀ t, sched s t = true ↔ t ∈ ex ++ loc ++ lo ++ hi
}.

(** A state that differs in the links of no listed tasklet and in no SCHED bit. *)
Lemma tasklets_ok_ext s s' ex p loc lo hi :
  tasklets_ok s ex p loc lo hi → (∀ q, queue q s' = queue q s) →
  (∀ t, next_in s' t = next_in s t) → (∀ t, sched s' t = sched s t) → tasklets_ok s' ex p loc lo hi.
Proof.
  intros [Hloc [Hlo Tlo] [Hhi Thi] ND HS] HQ HN HC. split.
  - eapply clist_ext; [exact Hloc|]. auto.
  - split; rewrite HQ; [|done]. eapply clist_ext; [exact Hlo|]. auto.
  - split; rewrite HQ; [|done]. eapply clist_ext; [exact Hhi|]. auto.
  - done.
  - intros t. by rewrite HC.
Qed.

Definition put_tasklet (t : Z) (x : tasklet_struct) (s : S) : S :=
  put_tasklets (λ i, if i =? t then x else tasklets s i) s.

Lemma put_tasklet_eq t x s : tasklets (put_tasklet t x s) t = x.
Proof. cbn. by rewrite Z.eqb_refl. Qed.
Lemma put_tasklet_ne t x s i : i ≠ t → tasklets (put_tasklet t x s) i = tasklets s i.
Proof. intros. cbn. by rewrite (proj2 (Z.eqb_neq i t)). Qed.

Definition with_next (x : tasklet_struct) (n : Z) := mk_tasklet n (t_state x) (t_count x) (t_func x) (t_data x).
Definition with_state (x : tasklet_struct) (st : Z) := mk_tasklet (t_next x) st (t_count x) (t_func x) (t_data x).

Lemma tasklet_next_run t n s : set_next t n s = Ret tt (put_tasklet t (with_next (tasklets s t) n) s).
Proof. reflexivity. Qed.
Lemma set_state_run t st s : set_state t st s = Ret tt (put_tasklet t (with_state (tasklets s t) st) s).
Proof. reflexivity. Qed.

(** Changing bits of the state other than SCHED. *)
Lemma tasklets_ok_run s ex p loc lo hi t st :
  tasklets_ok s ex p loc lo hi → Z.testbit st TASKLET_STATE_SCHED = sched s t →
  tasklets_ok (put_tasklet t (with_state (tasklets s t) st) s) ex p loc lo hi.
Proof.
  intros HT Hst. eapply tasklets_ok_ext; [exact HT|by intros []| |].
  - intros x. unfold next_in. destruct (decide (x = t)) as [->|]; [by rewrite put_tasklet_eq|by rewrite put_tasklet_ne].
  - intros x. unfold sched in *. destruct (decide (x = t)) as [->|]; [by rewrite put_tasklet_eq|by rewrite put_tasklet_ne].
Qed.

(** A tasklet that is in no list is taken in hand by setting SCHED. *)
Lemma tasklets_ok_take s ex p loc lo hi t :
  tasklets_ok s ex p loc lo hi → sched s t = false →
  tasklets_ok (put_tasklet t (with_state (tasklets s t) (Z.setbit (t_state (tasklets s t)) TASKLET_STATE_SCHED)) s)
    (t :: ex) p loc lo hi.
Proof.
  clear tfunc other_action wake_up_thread.
  intros [Hloc [Hlo Tlo] [Hhi Thi] ND HS] Hs.
  assert (t ∉ ex ++ loc ++ lo ++ hi) as Hn by (rewrite <- HS; congruence).
  assert (∀ x, next_in (put_tasklet t (with_state (tasklets s t)
    (Z.setbit (t_state (tasklets s t)) TASKLET_STATE_SCHED)) s) x = next_in s x) as HN.
  { intros x. unfold next_in. destruct (decide (x = t)) as [->|]; [by rewrite put_tasklet_eq|by rewrite put_tasklet_ne]. }
  split.
  - eapply clist_ext; [exact Hloc|]. auto.
  - split; [|done]. eapply clist_ext; [exact Hlo|]. auto.
  - split; [|done]. eapply clist_ext; [exact Hhi|]. auto.
  - by apply list.NoDup_cons.
  - intros x. cbn [app]. rewrite elem_of_cons, <- HS. unfold sched. destruct (decide (x = t)) as [->|].
    + rewrite put_tasklet_eq. cbn [with_state t_state]. rewrite Z.setbit_eq by done. tauto.
    + rewrite put_tasklet_ne by done. tauto.
Qed.

(** A tasklet in hand is given up by clearing SCHED. *)
Lemma tasklets_ok_drop s ex p loc lo hi t :
  tasklets_ok s (t :: ex) p loc lo hi →
  tasklets_ok (put_tasklet t (with_state (tasklets s t) (Z.clearbit (t_state (tasklets s t)) TASKLET_STATE_SCHED)) s)
    ex p loc lo hi.
Proof.
  clear tfunc other_action wake_up_thread.
  intros [Hloc [Hlo Tlo] [Hhi Thi] ND HS]. cbn [app] in ND, HS. apply list.NoDup_cons in ND as [Hn ND].
  assert (∀ x, next_in (put_tasklet t (with_state (tasklets s t)
    (Z.clearbit (t_state (tasklets s t)) TASKLET_STATE_SCHED)) s) x = next_in s x) as HN.
  { intros x. unfold next_in. destruct (decide (x = t)) as [->|]; [by rewrite put_tasklet_eq|by rewrite put_tasklet_ne]. }
  split.
  - eapply clist_ext; [exact Hloc|]. auto.
  - split; [|done]. eapply clist_ext; [exact Hlo|]. auto.
  - split; [|done]. eapply clist_ext; [exact Hhi|]. auto.
  - done.
  - intros x. specialize (HS x). rewrite elem_of_cons in HS. unfold sched in *. destruct (decide (x = t)) as [->|].
    + rewrite put_tasklet_eq. cbn [with_state t_state]. rewrite Z.clearbit_eq. split; [done|]. by intros ?%Hn.
    + rewrite put_tasklet_ne by done. rewrite HS. naive_solver.
Qed.

(** What [append] may change: links, and the queue it appends to. *)
Record appended (q : prio) (t : Z) (l : list Z) (s s' : S) : Prop := {
  ap_new : next_in s' t = 0;
  ap_last : ∀ x, list.last l = Some x → next_in s' x = t;
  ap_rest : ∀ x, x ≠ t → list.last l ≠ Some x → next_in s' x = next_in s x;
  ap_data : ∀ x, with_next (tasklets s' x) 0 = with_next (tasklets s x) 0;
  ap_head : t_head (queue q s') = match l with [] => t | _ => t_head (queue q s) end;
  ap_tail : t_tail (queue q s') = Some t;
  ap_queue : ∀ q', q' ≠ q → queue q' s' = queue q' s;
  ap_pending : pending s' = pending s;
  ap_count : tasklet_count s' = tasklet_count s;
  ap_irqs : irqs s' = irqs s;
  ap_susp : suspended s' = suspended s;
  ap_env : env s' = env s
}.

Lemma with_next_data x y n : with_next x 0 = with_next y 0 → with_next x n = with_next y n.
Proof. destruct x, y. unfold with_next. cbn. congruence. Qed.

Lemma append_run q t l s :
  queue_is s q l → t ∉ l → ∃ s', append q t s = Ret tt s' ∧ appended q t l s s'.
Proof.
  intros [Hc Ht] Hn. unfold append. rewrite (bind_ret _ _ _ _ _ (tasklet_next_run t 0 s)).
  erewrite bind_ret by reflexivity. set (s1 := put_tasklet t (with_next (tasklets s t) 0) s).
  assert (queue q s1 = queue q s) as -> by by destruct q. rewrite Ht.
  destruct (list.last l) as [x|] eqn:El.
  - assert (x ≠ t) as Hx.
    { intros ->. apply Hn. apply list.last_Some in El as [l' ->]. apply elem_of_app. right. by apply elem_of_cons; left. }
    rewrite (bind_ret _ _ _ _ _ (tasklet_next_run x t s1)). eexists. split; [reflexivity|].
    assert (∀ y, tasklets (put_tasklet x (with_next (tasklets s1 x) t) s1) y =
      if decide (y = x) then with_next (tasklets s x) t else
      if decide (y = t) then with_next (tasklets s t) 0 else tasklets s y) as HT.
    { intros y. destruct (decide (y = x)) as [->|]; [rewrite put_tasklet_eq; unfold s1; by rewrite put_tasklet_ne|].
      rewrite put_tasklet_ne by done. unfold s1.
      destruct (decide (y = t)) as [->|]; [by rewrite put_tasklet_eq|by rewrite put_tasklet_ne]. }
    split; try (by destruct q); unfold next_in; cbn [tasklets put_queue].
    + by rewrite HT, decide_False, decide_True by done.
    + intros y. rewrite El. intros [= <-]. by rewrite HT, decide_True.
    + intros y Hyt Hyx. rewrite El in Hyx. rewrite HT, !decide_False by congruence. done.
    + intros y. rewrite HT. destruct (decide (y = x)) as [->|]; [done|]. by destruct (decide (y = t)) as [->|].
    + destruct l as [|z l]; [done|]. by destruct q.
    + by intros [] Hq; destruct q.
  - apply last_None in El as ->. eexists. split; [reflexivity|]. split; try (by destruct q); unfold next_in; cbn [tasklets put_queue].
    + unfold s1. by rewrite put_tasklet_eq.
    + intros y Hy _. unfold s1. by rewrite put_tasklet_ne.
    + intros y. unfold s1. destruct (decide (y = t)) as [->|]; [by rewrite put_tasklet_eq|by rewrite put_tasklet_ne].
    + by intros [] Hq; destruct q.
Qed.

Definition sel (q : prio) (lo hi : list Z) : list Z := match q with Lo => lo | Hi => hi end.
Definition put_lo (q : prio) (lo : list Z) (t : Z) : list Z := match q with Lo => lo ++ [t] | Hi => lo end.
Definition put_hi (q : prio) (hi : list Z) (t : Z) : list Z := match q with Lo => hi | Hi => hi ++ [t] end.

(** A list of others stays as it is. *)
Lemma appended_other q t l s s' p k :
  appended q t l s s' → clist (next_in s) p k → t ∉ k → (∀ x, x ∈ l → x ∉ k) → clist (next_in s') p k.
Proof.
  intros HA Hc Ht Hd. eapply clist_ext; [exact Hc|]. intros x Hx. apply (ap_rest _ _ _ _ _ HA); [by intros ->|].
  intros E. apply (Hd x); [|done]. apply list.last_Some in E as [l' ->]. apply elem_of_app. right. by apply elem_of_cons; left.
Qed.

Lemma appended_own q t l s s' :
  appended q t l s s' → queue_is s q l → t ∉ l → t ≠ 0 → queue_is s' q (l ++ [t]).
Proof.
  intros HA [Hc Ht] Hn H0. split; [|by rewrite (ap_tail _ _ _ _ _ HA), list.last_snoc].
  rewrite (ap_head _ _ _ _ _ HA). eapply clist_snoc; [exact Hc|done|apply HA|apply HA|].
  intros x Hx Hl. apply HA; [|done]. by intros ->.
Qed.

Lemma append_ok q t s ex p loc lo hi :
  tasklets_ok s (t :: ex) p loc lo hi → t ≠ 0 →
  ∃ s', append q t s = Ret tt s' ∧ appended q t (sel q lo hi) s s' ∧
    tasklets_ok s' ex p loc (put_lo q lo t) (put_hi q hi t).
Proof.
  clear tfunc other_action wake_up_thread.
  intros [Hloc Hlo Hhi ND HS] H0. cbn [app] in ND, HS. apply list.NoDup_cons in ND as [Hn ND].
  rewrite !elem_of_app in Hn. pose proof ND as ND'. rewrite !list.NoDup_app in ND'. setoid_rewrite elem_of_app in ND'.
  destruct (append_run q t (sel q lo hi) s) as (s' & E & HA); [by destruct q|destruct q; simpl; tauto|].
  exists s'. split; [done|]. split; [done|].
  assert (∀ x, sched s' x = sched s x) as HC.
  { intros x. unfold sched. pose proof (ap_data _ _ _ _ _ HA x) as HD. unfold with_next in HD. by injection HD as ->. }
  split.
  - eapply appended_other; [exact HA|exact Hloc|tauto|]. intros x Hx Hx'. destruct q; simpl in Hx; naive_solver.
  - destruct q; simpl in *.
    + eapply appended_own; [exact HA|done|tauto|done].
    + split; rewrite (ap_queue _ _ _ _ _ HA Lo) by done; [|apply Hlo].
      eapply appended_other; [exact HA|apply Hlo|tauto|]. naive_solver.
  - destruct q; simpl in *.
    + split; rewrite (ap_queue _ _ _ _ _ HA Hi) by done; [|apply Hhi].
      eapply appended_other; [exact HA|apply Hhi|tauto|]. naive_solver.
    + eapply appended_own; [exact HA|done|tauto|done].
  - assert (ex ++ loc ++ put_lo q lo t ++ put_hi q hi t ≡ₚ t :: ex ++ loc ++ lo ++ hi) as ->.
    { destruct q; simpl; solve_Permutation. }
    apply list.NoDup_cons. split; [|done]. rewrite !elem_of_app. tauto.
  - intros x. rewrite HC, HS. destruct q; simpl; rewrite !elem_of_app, !elem_of_cons, ?elem_of_app, ?elem_of_nil; tauto.
Qed.

(** ** Code that respects the queues *)

(** [m] ends, and leaves the tasklets in hand and the list in progress as they were and
    the queues in order. *)
Definition harmless (m : M S unit) : Prop := ∀ s ex p loc lo hi,
  tasklets_ok s ex p loc lo hi → ends m s (λ _ s', ∃ lo' hi', tasklets_ok s' ex p loc lo' hi').

Lemma harmless_ret : harmless (mret tt).
Proof. intros s ex p loc lo hi HT. eapply ends_ret; [reflexivity|]. by exists lo, hi. Qed.

Lemma harmless_seq m k : harmless m → harmless k → harmless (m ;; k).
Proof.
  intros Hm Hk s ex p loc lo hi HT. apply ends_bind. eapply ends_mono; [by eapply Hm|].
  intros [] s' (lo' & hi' & HT'). by eapply Hk.
Qed.

Lemma harmless_gets {A} (f : S → A) (m : A → M S unit) : (∀ a, harmless (m a)) → harmless (a ← gets f; m a).
Proof. intros Hm s ex p loc lo hi HT. eapply ends_step; [reflexivity|]. by eapply (Hm (f s)). Qed.

(** A change of the other fields. *)
Lemma harmless_modify f :
  (∀ s, tasklets (f s) = tasklets s ∧ tasklet_vec (f s) = tasklet_vec s ∧ tasklet_hi_vec (f s) = tasklet_hi_vec s) →
  harmless (modify f).
Proof.
  intros Hf s ex p loc lo hi HT. eapply ends_ret; [reflexivity|]. exists lo, hi.
  destruct (Hf s) as (E1 & E2 & E3). eapply tasklets_ok_ext; [exact HT|intros []; done| |];
    intros t; unfold next_in, sched; by rewrite E1.
Qed.

Hint Resolve harmless_ret harmless_seq harmless_gets harmless_modify : yaos.

Lemma harmless_raise nr : harmless (__raise_softirq_irqoff nr).
Proof. by apply harmless_modify. Qed.
Lemma harmless_irqs b : harmless (modify (put_irqs b)).
Proof. by apply harmless_modify. Qed.

Lemma harmless_wakeup : harmless wake_up_thread → harmless wakeup_taskletd.
Proof. intros Hw. apply harmless_gets. intros []; [done|apply harmless_ret]. Qed.

Lemma harmless_raise_irqoff nr : harmless wake_up_thread → harmless (raise_softirq_irqoff nr).
Proof.
  intros Hw. apply harmless_seq; [apply harmless_raise|]. apply harmless_gets. intros []; simpl;
    [apply harmless_ret|by apply harmless_wakeup].
Qed.

(** Scheduling a tasklet is such code: it may be done by tasklets and by anything else. *)
Lemma schedule_on_ok q t s ex p loc lo hi :
  harmless wake_up_thread → tasklets_ok s (t :: ex) p loc lo hi → t ≠ 0 →
  ends (schedule_on q t) s (λ _ s', ∃ lo' hi', tasklets_ok s' ex p loc lo' hi').
Proof.
  intros Hw HT H0. unfold schedule_on. eapply ends_step; [reflexivity|].
  assert (tasklets_ok (put_irqs false s) (t :: ex) p loc lo hi) as HT1 by (eapply tasklets_ok_ext; [exact HT|by intros []|done|done]).
  destruct (append_ok q t _ ex p loc lo hi HT1 H0) as (s2 & E & _ & HT2).
  eapply ends_step; [exact E|]. eapply harmless_seq; [by apply harmless_raise_irqoff|apply harmless_irqs|done].
Qed.

Lemma test_and_set_run t bit s :
  test_and_set_state t bit s = Ret (Z.testbit (t_state (tasklets s t)) bit)
    (put_tasklet t (with_state (tasklets s t) (Z.setbit (t_state (tasklets s t)) bit)) s).
Proof. reflexivity. Qed.

Lemma test_and_clear_run t bit s :
  test_and_clear_state t bit s = Ret (Z.testbit (t_state (tasklets s t)) bit)
    (put_tasklet t (with_state (tasklets s t) (Z.clearbit (t_state (tasklets s t)) bit)) s).
Proof. reflexivity. Qed.

Lemma unlock_run t s :
  tasklet_unlock t s = Ret tt (put_tasklet t (with_state (tasklets s t) (Z.clearbit (t_state (tasklets s t)) TASKLET_STATE_RUN)) s).
Proof. reflexivity. Qed.

Lemma harmless_schedule_on q t :
  harmless wake_up_thread → t ≠ 0 →
  harmless (b ← test_and_set_state t TASKLET_STATE_SCHED; if negb b then schedule_on q t else mret tt).
Proof.
  intros Hw H0 s ex p loc lo hi HT. eapply ends_step; [apply test_and_set_run|].
  destruct (sched s t) eqn:Es; unfold sched in Es; rewrite Es; cbn [negb].
  - eapply harmless_ret. apply tasklets_ok_run; [done|]. unfold sched. rewrite Es. by apply Z.setbit_eq.
  - eapply schedule_on_ok; [done| |done]. by apply tasklets_ok_take.
Qed.

(** Scheduling a tasklet, at either priority and whether or not it is scheduled
    already, keeps the queues in order: every scheduled tasklet is in one place. *)
Theorem tasklet_schedule_harmless t :
  harmless wake_up_thread → t ≠ 0 → harmless (tasklet_schedule t) ∧ harmless (tasklet_hi_schedule t).
Proof. intros Hw H0. split; by apply harmless_schedule_on. Qed.

Lemma requeue_ok q t s ex p loc lo hi :
  tasklets_ok s (t :: ex) p loc lo hi → t ≠ 0 →
  ends (local_irq_disable ;; append q t ;; __raise_softirq_irqoff (softirq_nr q) ;; local_irq_enable) s
    (λ _ s', ∃ lo' hi', tasklets_ok s' ex p loc lo' hi').
Proof.
  intros HT H0. eapply ends_step; [reflexivity|].
  assert (tasklets_ok (put_irqs false s) (t :: ex) p loc lo hi) as HT1 by (eapply tasklets_ok_ext; [exact HT|by intros []|done|done]).
  destruct (append_ok q t _ ex p loc lo hi HT1 H0) as (s2 & E & _ & HT2).
  eapply ends_step; [exact E|]. eapply harmless_seq; [apply harmless_raise|apply harmless_irqs|done].
Qed.

(** Setting or clearing RUN does not touch SCHED. *)
Lemma tasklets_ok_lock s ex p loc lo hi t :
  tasklets_ok s ex p loc lo hi →
  tasklets_ok (put_tasklet t (with_state (tasklets s t) (Z.setbit (t_state (tasklets s t)) TASKLET_STATE_RUN)) s) ex p loc lo hi.
Proof. intros HT. apply tasklets_ok_run; [done|]. by apply Z.setbit_neq. Qed.

Lemma tasklets_ok_unlock s ex p loc lo hi t :
  tasklets_ok s ex p loc lo hi →
  tasklets_ok (put_tasklet t (with_state (tasklets s t) (Z.clearbit (t_state (tasklets s t)) TASKLET_STATE_RUN)) s) ex p loc lo hi.
Proof. intros HT. apply tasklets_ok_run; [done|]. by apply Z.clearbit_neq. Qed.

Lemma action_one_ok q t s ex p loc lo hi :
  (∀ f d, harmless (tfunc f d)) → tasklets_ok s (t :: ex) p loc lo hi → t ≠ 0 →
  ends (action_one q t) s (λ _ s', ∃ lo' hi', tasklets_ok s' ex p loc lo' hi').
Proof.
  intros Hf HT H0. unfold action_one, tasklet_trylock. apply ends_bind. eapply ends_step; [apply test_and_set_run|].
  eapply ends_ret; [reflexivity|]. pose proof (tasklets_ok_lock _ _ _ _ _ _ t HT) as HT1.
  destruct (Z.testbit (t_state (tasklets s t)) TASKLET_STATE_RUN); cbn [negb]; [by eapply requeue_ok|].
  set (s1 := put_tasklet _ _ s) in *. eapply ends_step; [reflexivity|].
  destruct (Z.eqb_spec (t_count (tasklets s1 t)) 0).
  - eapply ends_step; [apply test_and_clear_run|].
    assert (sched s1 t = true) as Es by (apply (tk_sched _ _ _ _ _ _ HT1); by apply elem_of_cons; left).
    unfold sched in Es. rewrite Es. cbn [negb]. pose proof (tasklets_ok_drop _ _ _ _ _ _ _ HT1) as HT2.
    apply ends_bind. eapply ends_mono; [by eapply Hf|]. intros [] s3 (lo' & hi' & HT3).
    eapply ends_ret; [reflexivity|]. exists lo', hi'. by apply tasklets_ok_unlock.
  - eapply ends_step; [reflexivity|]. eapply requeue_ok; [by apply tasklets_ok_unlock|done].
Qed.

Lemma action_loop_ok q loc fuel p s lo hi :
  (∀ f d, harmless (tfunc f d)) → tasklets_ok s [] p loc lo hi → (length loc < fuel)%nat →
  ends (action_loop fuel q p) s (λ _ s', ∃ lo' hi', tasklets_ok s' [] 0 [] lo' hi').
Proof.
  intros Hf. revert fuel p s lo hi. induction loc as [|t loc IH]; intros [|fuel] p s lo hi HT Hl; simpl in Hl; try lia;
    cbn [action_loop].
  - rewrite (clist_nil _ _ (tk_loc _ _ _ _ _ _ HT)). rewrite Z.eqb_refl. eapply ends_ret; [reflexivity|].
    exists lo, hi. by rewrite <- (clist_nil _ _ (tk_loc _ _ _ _ _ _ HT)).
  - pose proof HT as [Hloc Hlo Hhi ND HS]. destruct (clist_cons _ _ _ _ Hloc) as (-> & H0 & Hloc').
    rewrite (proj2 (Z.eqb_neq t 0) H0). eapply ends_step; [reflexivity|]. apply ends_bind. eapply ends_mono.
    + apply (action_one_ok q t s [] (t_next (tasklets s t)) loc lo hi Hf); [|done]. by split.
    + intros [] s' (lo' & hi' & HT'). eapply IH; [done|lia].
Qed.

Lemma action_on_ok q fuel s lo hi :
  (∀ f d, harmless (tfunc f d)) → tasklets_ok s [] 0 [] lo hi → (length (sel q lo hi) < fuel)%nat →
  ends (action_on fuel q) s (λ _ s', ∃ lo' hi', tasklets_ok s' [] 0 [] lo' hi').
Proof.
  clear other_action wake_up_thread.
  intros Hf [Hloc Hlo Hhi ND HS] Hl. unfold action_on. do 4 (eapply ends_step; [reflexivity|]).
  eapply (action_loop_ok q (sel q lo hi) fuel _ _ (match q with Lo => [] | Hi => lo end) (match q with Lo => hi | Hi => [] end));
    [done| |done].
  destruct q; split; try done; cbn in *.
  - apply Hlo.
  - apply Hhi.
  - cbn [app] in ND. by rewrite app_nil_r, (Permutation_app_comm hi lo).
  - intros t. specialize (HS t). rewrite app_nil_r. cbn [app] in HS. rewrite elem_of_app in *. unfold sched in *. cbn in *.
    rewrite HS. tauto.
Qed.


(** ** The order of the actions *)

Fixpoint each (act : Z → M S unit) (l : list Z) : M S unit :=
  match l with [] => mret tt | i :: l => act i ;; each act l end.

(** The bits set in a mask, from [h] on. *)
Definition bits_from (h m pend : Z) : list Z := filter (λ i, Z.testbit pend (i - h) = true) (seqZ h m).

Lemma bits_from_none h m pend :
  (∀ i, 0 ≤ i < m → Z.testbit pend i = false) → bits_from h m pend = [].
Proof.
  intros Hb. unfold bits_from. apply filter_none. intros i Hi%elem_of_seqZ.
  rewrite Hb by lia. done.
Qed.

Lemma bits_from_next h m pend b :
  1 ≤ b ≤ m → Z.testbit pend (b - 1) = true → (∀ i, i < b - 1 → Z.testbit pend i = false) →
  bits_from h m pend = (h + (b - 1)) :: bits_from (h + b) (m - b) (pend .>> b).
Proof.
  intros Hb Hs Hn. unfold bits_from.
  replace m with ((b - 1) + (1 + (m - b))) at 1 by lia. rewrite seqZ_app by lia. rewrite list.filter_app.
  assert (filter (λ i, Z.testbit pend (i - h) = true) (seqZ h (b - 1)) = []) as ->.
  { apply filter_none. intros i Hi%elem_of_seqZ. rewrite Hn by lia. done. }
  rewrite seqZ_app by lia. cbn [app]. change (seqZ (h + (b - 1)) 1) with [h + (b - 1)]. cbn [app].
  rewrite filter_cons, decide_True.
  - f_equal. replace (h + (b - 1) + 1) with (h + b) by lia. apply filter_same.
    intros i Hi%elem_of_seqZ. rewrite Z.shiftr_spec by lia. by replace (i - (h + b) + b) with (i - h) by lia.
  - by replace (h + (b - 1) - h) with (b - 1) by lia.
Qed.

Lemma run_pending_each act fuel h m pend s :
  0 ≤ m ≤ 32 → 0 ≤ pend < 2 ^ m → m < Z.of_nat fuel →
  run_pending act fuel h pend s = each act (bits_from h m pend) s.
Proof.
  revert h m pend s. induction fuel as [|fuel IH]; intros h m pend s Hm Hp Hf; [lia|]. cbn [run_pending].
  assert (u32 pend = pend) as Eu.
  { apply wrap_id. split; [lia|]. pose proof (Z.pow_le_mono_r 2 m 32 ltac:(lia) ltac:(lia)). lia. }
  destruct (ffs_spec pend) as [[E E0]|(Hb & Hs & Hn)].
  - rewrite E, Z.eqb_refl. rewrite Eu in E0. subst pend. rewrite bits_from_none; [done|]. intros. apply Z.testbit_0_l.
  - set (b := ffs pend) in *. rewrite (proj2 (Z.eqb_neq b 0)) by lia.
    assert (b ≤ m) as Hbm.
    { destruct (decide (b ≤ m)); [done|]. destruct (decide (pend = 0)) as [->|]; [by rewrite Z.testbit_0_l in Hs|].
      rewrite Z.bits_above_log2 in Hs; [done|lia|]. pose proof (proj1 (Z.log2_lt_pow2 pend m ltac:(lia)) ltac:(lia)). lia. }
    rewrite (bits_from_next h m pend b) by (done || lia). cbn [each]. unfold mbind, M_bind.
    destruct (act (h + (b - 1)) s) as [[] s'| | | | |]; try done. apply IH; [lia| |lia].
    rewrite Z.shiftr_div_pow2 by lia. split; [apply Z.div_pos; lia|]. apply Z.div_lt_upper_bound; [lia|].
    rewrite <- Z.pow_add_r by lia. replace (b + (m - b)) with m by lia. lia.
Qed.

(** The loop over the pending mask calls the action of each pending soft interrupt
    exactly once, from the lowest number to the highest. *)
Theorem run_pending_order act pend s :
  0 ≤ pend < 2 ^ 31 →
  run_pending act 33 0 pend s = each act (filter (λ i, Z.testbit pend i = true) (seqZ 0 32)) s.
Proof.
  intros Hp. rewrite (run_pending_each act 33 0 32 pend s) by lia.
  assert (bits_from 0 32 pend = filter (λ i, Z.testbit pend i = true) (seqZ 0 32)) as ->; [|done].
  apply filter_same. intros i _. by rewrite Z.sub_0_r.
Qed.

(** ** Termination of a run *)

Section run.
Context (act : Z → M S unit) (I : S → Prop) (valid : Z → Prop).

(** [m] ends, keeps [I] and nests its counting of tasklets. *)
Definition behaves (m : M S unit) : Prop := ∀ s, I s → ends m s (λ _ s', I s' ∧ tasklet_count s' = tasklet_count s).

Context (act_ok : ∀ nr, valid nr → behaves (act nr)) (wake_ok : behaves wake_up_thread)
        (I_irqs : ∀ b s, I s → I (put_irqs b s)) (I_clear : ∀ s, I s → I (put_pending 0 s))
        (I_pending : ∀ s, I s → 0 ≤ pending s < 2 ^ 31 ∧ ∀ nr, Z.testbit (pending s) nr = true → valid nr).

Lemma behaves_seq m k : behaves m → behaves k → behaves (m ;; k).
Proof.
  intros Hm Hk s HI. apply ends_bind. eapply ends_mono; [by apply Hm|]. intros [] s' [HI' E].
  eapply ends_mono; [by apply Hk|]. intros [] s'' [HI'' E']. split; [done|congruence].
Qed.

Lemma behaves_each l : (∀ nr, nr ∈ l → valid nr) → behaves (each act l).
Proof.
  induction l as [|nr l IH]; intros Hl; cbn [each]; [by intros s HI; eapply ends_ret|].
  apply behaves_seq; [apply act_ok, Hl; by apply elem_of_cons; left|]. apply IH. intros k Hk. apply Hl.
  by apply elem_of_cons; right.
Qed.

Lemma behaves_wakeup : behaves wakeup_taskletd.
Proof. intros s HI. eapply ends_step; [reflexivity|]. destruct (suspended s); [by apply wake_ok|by eapply ends_ret]. Qed.

Lemma behaves_rounds n limit pend :
  0 ≤ pend < 2 ^ 31 → (∀ nr, Z.testbit pend nr = true → valid nr) → behaves (softirq_rounds act n limit pend).
Proof.
  revert pend. induction n as [|n IH]; intros pend Hp Hv s HI; cbn [softirq_rounds].
  all: apply I_clear in HI as HI1; apply (I_irqs true) in HI1.
  all: eapply ends_step; [reflexivity|]; eapply ends_step; [reflexivity|]; apply ends_bind; unfold ends at 1.
  all: rewrite (run_pending_each act 33 0 32 pend) by lia.
  all: eapply ends_mono; [apply behaves_each; [|exact HI1]|].
  1,3: intros nr Hnr; apply Hv; unfold bits_from in Hnr; apply list_elem_of_filter in Hnr as [Hnr _];
       by rewrite Z.sub_0_r in Hnr.
  all: intros [] s' [HI' Ec]; apply (I_irqs false) in HI' as HI2.
  all: eapply ends_step; [reflexivity|]; eapply ends_step; [reflexivity|].
  all: assert (∀ m, behaves m → ends m (put_irqs false s') (λ _ s'0, I s'0 ∧ tasklet_count s'0 = tasklet_count s)) as HW
       by (intros m Hm; eapply ends_mono; [by apply Hm|]; intros [] s'' [? E]; split; [done|by rewrite E]).
  all: destruct (pending (put_irqs false s') =? 0); cbn [negb]; [by eapply ends_ret|].
  all: eapply ends_step; [reflexivity|].
  - apply HW, behaves_wakeup.
  - destruct n as [|n]; [apply HW, behaves_wakeup|]. destruct (_ <? limit); apply HW; [|apply behaves_wakeup].
    apply IH; apply (I_pending _ HI2).
Qed.

End run.

(** [__do_softirq] ends after at most ten rounds over the pending soft interrupts, and
    leaves the nesting count of tasklets as it found it, if the actions it finds
    registered end and nest their own counting. *)
Theorem do_softirq_ends (I : S → Prop) (valid : Z → Prop) fuel s :
  (∀ nr, valid nr → behaves I (run_action fuel nr)) → behaves I wake_up_thread →
  (∀ b s, I s → I (put_irqs b s)) → (∀ s, I s → I (put_pending 0 s)) → (∀ c s, I s → I (put_count c s)) →
  (∀ s, I s → 0 ≤ pending s < 2 ^ 31 ∧ ∀ nr, Z.testbit (pending s) nr = true → valid nr) →
  I s → - 2 ^ 31 ≤ tasklet_count s < 2 ^ 31 - 1 →
  ends (__do_softirq fuel) s (λ _ s', I s' ∧ tasklet_count s' = tasklet_count s).
Proof.
  intros Ha Hw Hi Hc Hn Hp HI Hr. unfold __do_softirq.
  eapply ends_step; [reflexivity|]. eapply ends_step; [reflexivity|]. eapply ends_step; [reflexivity|].
  apply ends_bind. eapply ends_mono.
  { eapply (behaves_rounds (run_action fuel) I valid); try done; [apply (Hp s HI)|apply (Hp s HI)|by apply Hn]. }
  intros [] s' [HI' E]. eapply ends_ret; [reflexivity|]. split; [by apply Hn|]. cbn [tasklet_count put_count].
  cbn [tasklet_count put_count] in E. rewrite E. set (c := tasklet_count s) in *. clearbody c.
  rewrite (s32_id (c + 1)) by lia. rewrite s32_id; lia.
Qed.

(** ** Which tasklets run *)

Definition put_env (e : U) (s : S) : S :=
  mk_sirq (pending s) (tasklet_count s) (irqs s) (suspended s) (msec_count s) (softirq_vec s) (tasklet_vec s)
    (tasklet_hi_vec s) (tasklets s) e.

Definition running (s : S) (t : Z) : bool := Z.testbit (t_state (tasklets s t)) TASKLET_STATE_RUN.
Definition disabled (s : S) (t : Z) : Prop := t_count (tasklets s t) ≠ 0.

#[local] Instance disabled_dec s t : Decision (disabled s t).
Proof. unfold disabled. apply _. Defined.

(** What the rest of a run depends on, besides the links. *)
Definition same_data (s s' : S) : Prop := ∀ x,
  t_count (tasklets s' x) = t_count (tasklets s x) ∧ t_func (tasklets s' x) = t_func (tasklets s x) ∧
  t_data (tasklets s' x) = t_data (tasklets s x) ∧ running s' x = running s x.

Lemma same_data_appended q t l s s' : appended q t l s s' → same_data s s'.
Proof.
  intros HA x. pose proof (ap_data _ _ _ _ _ HA x) as HD. unfold with_next in HD. injection HD as E1 E2 E3 E4.
  unfold running. by rewrite E1.
Qed.

Lemma same_data_trans s1 s2 s3 : same_data s1 s2 → same_data s2 s3 → same_data s1 s3.
Proof. intros H1 H2 x. destruct (H1 x) as (? & ? & ? & ?), (H2 x) as (? & ? & ? & ?). split_and!; congruence. Qed.

Lemma same_data_state t st s :
  Z.testbit st TASKLET_STATE_RUN = running s t → same_data s (put_tasklet t (with_state (tasklets s t) st) s).
Proof.
  intros Hst x. unfold running in *. destruct (decide (x = t)) as [->|]; [rewrite put_tasklet_eq|rewrite put_tasklet_ne by done]; done.
Qed.

Section fifo.
Context (upd : Z → Z → U → U) (tfunc_env : ∀ f d s, tfunc f d s = Ret tt (put_env (upd f d (env s)) s)).

(** The call of one tasklet, as the rest of the machine sees it. *)
Definition called (s : S) (e : U) (t : Z) : U := upd (t_func (tasklets s t)) (t_data (tasklets s t)) e.

Lemma action_one_enabled t s p loc lo hi :
  tasklets_ok s [t] p loc lo hi → running s t = false → ¬ disabled s t →
  ∃ s', action_one Lo t s = Ret tt s' ∧ tasklets_ok s' [] p loc lo hi ∧ same_data s s' ∧ env s' = called s (env s) t.
Proof.
  intros HT Hr Hd. unfold action_one, tasklet_trylock. rewrite bind_assoc, (bind_ret _ _ _ _ _ (test_and_set_run t _ s)).
  erewrite bind_ret by reflexivity. unfold running in Hr. rewrite Hr. cbn [negb].
  pose proof (tasklets_ok_lock _ _ _ _ _ _ t HT) as HT1. set (s1 := put_tasklet _ _ s) in *.
  assert (tasklets s1 t = with_state (tasklets s t) (Z.setbit (t_state (tasklets s t)) TASKLET_STATE_RUN)) as Et
    by (unfold s1; by rewrite put_tasklet_eq).
  erewrite bind_ret by reflexivity. rewrite Et. cbn [t_count with_state].
  destruct (Z.eqb_spec (t_count (tasklets s t)) 0) as [_|]; [|done].
  rewrite (bind_ret _ _ _ _ _ (test_and_clear_run t _ s1)).
  assert (sched s1 t = true) as Es by (apply (tk_sched _ _ _ _ _ _ HT1); by apply elem_of_cons; left).
  unfold sched in Es. rewrite Es. cbn [negb]. pose proof (tasklets_ok_drop _ _ _ _ _ _ _ HT1) as HT2.
  set (s2 := put_tasklet _ _ s1) in *.
  rewrite (bind_ret _ _ _ _ _ (tfunc_env _ _ s2)). set (s3 := put_env _ s2).
  assert (tasklets_ok s3 [] p loc lo hi) as HT3 by (eapply tasklets_ok_ext; [exact HT2|by intros []|done|done]).
  eexists. split; [apply unlock_run|]. split; [by apply tasklets_ok_unlock|]. split; [|reflexivity].
  assert (∀ x, tasklets s3 x = if decide (x = t) then with_state (tasklets s t)
    (Z.clearbit (Z.setbit (t_state (tasklets s t)) TASKLET_STATE_RUN) TASKLET_STATE_SCHED) else tasklets s x) as E3.
  { intros x. change (tasklets s3 x) with (tasklets s2 x). unfold s2. destruct (decide (x = t)) as [->|].
    - rewrite put_tasklet_eq, Et. done.
    - rewrite put_tasklet_ne by done. unfold s1. by rewrite put_tasklet_ne. }
  intros x. unfold running. destruct (decide (x = t)) as [->|].
  - rewrite put_tasklet_eq, E3, decide_True by done. cbn [with_state t_count t_func t_data t_state]. split_and!; try done.
    by rewrite Z.clearbit_eq, Hr.
  - by rewrite put_tasklet_ne, E3, decide_False by done.
Qed.

Lemma action_one_disabled t s p loc lo hi :
  tasklets_ok s [t] p loc lo hi → t ≠ 0 → running s t = false → disabled s t →
  ∃ s', action_one Lo t s = Ret tt s' ∧ tasklets_ok s' [] p loc (lo ++ [t]) hi ∧ same_data s s' ∧ env s' = env s.
Proof.
  intros HT H0 Hr Hd. unfold action_one, tasklet_trylock. rewrite bind_assoc, (bind_ret _ _ _ _ _ (test_and_set_run t _ s)).
  erewrite bind_ret by reflexivity. unfold running in Hr. rewrite Hr. cbn [negb].
  pose proof (tasklets_ok_lock _ _ _ _ _ _ t HT) as HT1. set (s1 := put_tasklet _ _ s) in *.
  assert (tasklets s1 t = with_state (tasklets s t) (Z.setbit (t_state (tasklets s t)) TASKLET_STATE_RUN)) as Et
    by (unfold s1; by rewrite put_tasklet_eq).
  erewrite bind_ret by reflexivity. rewrite Et. cbn [t_count with_state].
  destruct (Z.eqb_spec (t_count (tasklets s t)) 0) as [|_]; [done|].
  rewrite (bind_ret _ _ _ _ _ (unlock_run t s1)). pose proof (tasklets_ok_unlock _ _ _ _ _ _ t HT1) as HT2.
  set (s2 := put_tasklet _ _ s1) in *.
  erewrite bind_ret by reflexivity.
  assert (tasklets_ok (put_irqs false s2) [t] p loc lo hi) as HT3 by (eapply tasklets_ok_ext; [exact HT2|by intros []|done|done]).
  destruct (append_ok Lo t _ [] p loc lo hi HT3 H0) as (s4 & E4 & HA & HT4). rewrite (bind_ret _ _ _ _ _ E4).
  eexists. split; [reflexivity|]. split; [eapply tasklets_ok_ext; [exact HT4|by intros []|done|done]|].
  assert (same_data s s2) as HD.
  { intros x. unfold running, s2. destruct (decide (x = t)) as [->|].
    - rewrite put_tasklet_eq, Et. cbn [with_state t_count t_func t_data t_state]. split_and!; try done.
      by rewrite Z.clearbit_eq, Hr.
    - unfold s1. by rewrite !put_tasklet_ne by done. }
  split.
  - eapply same_data_trans; [exact HD|]. eapply same_data_trans; [exact (same_data_appended _ _ _ _ _ HA)|]. done.
  - cbn. by rewrite (ap_env _ _ _ _ _ HA).
Qed.

Lemma called_same s s' e l : same_data s s' → foldl (called s') e l = foldl (called s) e l.
Proof.
  intros HD. revert e. induction l as [|t l IH]; intros e; [done|]. cbn [foldl]. rewrite IH. f_equal. unfold called.
  destruct (HD t) as (_ & -> & -> & _). done.
Qed.

Lemma action_loop_fifo loc fuel p s lo hi :
  tasklets_ok s [] p loc lo hi → (∀ t, t ∈ loc → running s t = false) → (length loc < fuel)%nat →
  ∃ s', action_loop fuel Lo p s = Ret tt s' ∧ tasklets_ok s' [] 0 [] (lo ++ filter (disabled s) loc) hi ∧
    env s' = foldl (called s) (env s) (filter (λ t, ¬ disabled s t) loc).
Proof.
  clear other_action wake_up_thread.
  revert fuel p s lo. induction loc as [|t loc IH]; intros [|fuel] p s lo HT Hr Hl; simpl in Hl; try lia; cbn [action_loop].
  - pose proof (clist_nil _ _ (tk_loc _ _ _ _ _ _ HT)) as ->. rewrite Z.eqb_refl. exists s. split; [done|].
    by rewrite !filter_nil, app_nil_r.
  - pose proof HT as [Hloc Hlo Hhi ND HS]. destruct (clist_cons _ _ _ _ Hloc) as (-> & H0 & Hloc').
    rewrite (proj2 (Z.eqb_neq t 0) H0). erewrite bind_ret by reflexivity.
    assert (running s t = false) as Hrt by (apply Hr; by apply elem_of_cons; left).
    assert (tasklets_ok s [t] (t_next (tasklets s t)) loc lo hi) as HT1 by by split.
    assert (∃ s1, action_one Lo t s = Ret tt s1 ∧
      tasklets_ok s1 [] (t_next (tasklets s t)) loc (lo ++ filter (disabled s) [t]) hi ∧ same_data s s1 ∧
      env s1 = foldl (called s) (env s) (filter (λ t, ¬ disabled s t) [t])) as (s1 & E1 & HT2 & HD & He).
    { rewrite !filter_cons, !filter_nil. destruct (decide (disabled s t)) as [Hd|Hd].
      - destruct (action_one_disabled t s _ loc lo hi HT1 H0 Hrt Hd) as (s1 & ? & ? & ? & ?). exists s1.
        by rewrite decide_False by tauto.
      - destruct (action_one_enabled t s _ loc lo hi HT1 Hrt Hd) as (s1 & ? & ? & ? & ?). exists s1.
        rewrite decide_True by tauto. by rewrite app_nil_r. }
    rewrite (bind_ret _ _ _ _ _ E1).
    destruct (IH fuel _ s1 _ HT2) as (s2 & E2 & HT3 & He2); [|lia|].
    { intros x Hx. destruct (HD x) as (_ & _ & _ & ->). apply Hr. by apply elem_of_cons; right. }
    assert (∀ x, disabled s1 x ↔ disabled s x) as Hdis by (intros x; unfold disabled; destruct (HD x) as (-> & _); done).
    exists s2. split; [done|]. split.
    + rewrite <- app_assoc in HT3. rewrite (filter_same (disabled s1) (disabled s) loc) in HT3 by auto.
      by rewrite <- list.filter_app in HT3.
    + rewrite He2, He, (called_same s s1) by done.
      rewrite (filter_same (λ t, ¬ disabled s1 t) (λ t, ¬ disabled s t) loc) by (intros; by rewrite Hdis).
      rewrite <- foldl_app, <- list.filter_app. done.
Qed.

(** The action of the tasklet queue calls the functions of the enabled tasklets, each
    once and in the order they were scheduled; the disabled ones stay scheduled in
    their order. *)
Theorem tasklet_action_fifo fuel s lo hi :
  tasklets_ok s [] 0 [] lo hi → (∀ t, t ∈ lo → running s t = false) → (length lo < fuel)%nat →
  ∃ s', tasklet_action fuel s = Ret tt s' ∧ tasklets_ok s' [] 0 [] (filter (disabled s) lo) hi ∧
    env s' = foldl (called s) (env s) (filter (λ t, ¬ disabled s t) lo).
Proof.
  intros [Hloc Hlo Hhi ND HS] Hr Hl. unfold tasklet_action, action_on.
  do 4 (erewrite bind_ret by reflexivity). set (s1 := put_irqs true _).
  assert (tasklets_ok s1 [] (t_head (tasklet_vec s)) lo [] hi) as HT1 by (split; try done; apply Hlo).
  destruct (action_loop_fifo lo fuel _ s1 [] hi HT1 Hr Hl) as (s' & E & HT' & He). by exists s'.
Qed.

End fifo.

(** ** The first high tasklet *)

Lemma hi_schedule_first_run s t :
  tasklet_hi_vec s = mk_tvec 0 None → sched s t = false →
  ∃ s1, tasklet_hi_schedule_first t s = Ret tt s1 ∧ tasklet_hi_vec s1 = mk_tvec t None ∧
    sched s1 t = true ∧ (∀ x, x ≠ t → tasklets s1 x = tasklets s x) ∧ tasklet_count s1 = tasklet_count s.
Proof.
  intros Hq Ht. unfold tasklet_hi_schedule_first. rewrite (bind_ret _ _ _ _ _ (test_and_set_run t _ s)).
  unfold sched in Ht. rewrite Ht. cbn [negb]. eexists. split; [reflexivity|]. split_and!.
  - cbn. by rewrite Hq.
  - unfold sched. cbn -[Z.setbit Z.testbit]. rewrite !Z.eqb_refl. cbn [t_state]. by apply Z.setbit_eq.
  - intros x Hx. cbn. by rewrite (proj2 (Z.eqb_neq x t) Hx).
  - done.
Qed.

Lemma hi_schedule_empty s u :
  t_tail (tasklet_hi_vec s) = None → sched s u = false → 0 ≤ tasklet_count s → u ≠ 0 →
  ∃ s', tasklet_hi_schedule u s = Ret tt s' ∧ queue_is s' Hi [u] ∧ ∀ x, x ≠ u → tasklets s' x = tasklets s x.
Proof.
  intros Hq Hu Hc H0. unfold tasklet_hi_schedule. rewrite (bind_ret _ _ _ _ _ (test_and_set_run u _ s)).
  unfold sched in Hu. rewrite Hu. cbn [negb]. unfold __tasklet_hi_schedule, schedule_on.
  erewrite bind_ret by reflexivity. unfold append. rewrite bind_assoc. erewrite bind_ret by reflexivity.
  rewrite bind_assoc. erewrite bind_ret by reflexivity. cbn [queue tasklet_hi_vec put_tasklets put_tasklet put_irqs].
  rewrite Hq. erewrite bind_ret by reflexivity. unfold raise_softirq_irqoff, in_tasklet.
  rewrite bind_assoc. erewrite bind_ret by reflexivity. rewrite bind_assoc. erewrite bind_ret by reflexivity.
  match goal with |- context [0 <=? ?x] => change x with (tasklet_count s) end. rewrite (proj2 (Z.leb_le 0 (tasklet_count s)) Hc).
  cbn [negb]. eexists. split; [reflexivity|]. split.
  - split; [|done]. cbn [queue tasklet_hi_vec put_queue put_pending put_irqs t_head]. apply clist_intro; [done|].
    unfold next_in. cbn. rewrite !Z.eqb_refl. done.
  - intros x Hx. cbn. by rewrite (proj2 (Z.eqb_neq x u) Hx).
Qed.

(** [tasklet_hi_schedule_first] on an empty queue does not move the tail of the queue:
    the next [tasklet_hi_schedule] overwrites the head, and the first tasklet is lost,
    its SCHED bit set for ever. *)
Theorem hi_schedule_first_lost s t u :
  tasklet_hi_vec s = mk_tvec 0 None → t ≠ u → u ≠ 0 → sched s t = false → sched s u = false →
  0 ≤ tasklet_count s →
  ∃ s', (tasklet_hi_schedule_first t ;; tasklet_hi_schedule u) s = Ret tt s' ∧
    queue_is s' Hi [u] ∧ sched s' t = true.
Proof.
  intros Hq Hne Hu Ht Hsu Hc. destruct (hi_schedule_first_run s t Hq Ht) as (s1 & E1 & Q1 & S1 & T1 & C1).
  destruct (hi_schedule_empty s1 u) as (s2 & E2 & Q2 & T2); [by rewrite Q1| |by rewrite C1|done|].
  { unfold sched. rewrite T1 by congruence. exact Hsu. }
  exists s2. rewrite (bind_ret _ _ _ _ _ E1). split; [done|]. split; [done|]. unfold sched. by rewrite T2.
Qed.

End softirq.

(** ** Examples *)

(** The rest of the machine is a log of the calls; the tasklets 1, 2 and 3 are queued and
    2 is disabled. *)
Definition log_call (f d : Z) : M (sirq (list (Z * Z))) unit := modify (λ s, put_env (env s ++ [(f, d)]) s).
Definition no_wake : M (sirq (list (Z * Z))) unit := mret tt.
Definition no_other (n : nat) : M (sirq (list (Z * Z))) unit := mret tt.

Definition sample_tasklets (t : Z) : tasklet_struct :=
  if t =? 1 then mk_tasklet 2 1 0 100 11 else
  if t =? 2 then mk_tasklet 3 1 1 200 22 else
  if t =? 3 then mk_tasklet 0 1 0 300 33 else mk_tasklet 0 0 0 0 0.

Definition sample_sirq : sirq (list (Z * Z)) :=
  mk_sirq 0x40 (-1) true false 1000 (λ nr, if nr =? 6 then Some h_tasklet_action else None)
    (mk_tvec 1 (Some 3)) (mk_tvec 0 None) sample_tasklets [].

Lemma sample_sirq_ok : tasklets_ok sample_sirq [] 0 [] [1; 2; 3] [].
Proof.
  split; try done.
  - split; [|done]. repeat (apply clist_intro; [done|]). done.
  - repeat constructor; rewrite ?elem_of_cons, ?elem_of_nil; try tauto; lia.
  - intros t. cbn [app]. rewrite !elem_of_cons. unfold sched, sample_sirq, sample_tasklets. cbn [tasklets].
    destruct (Z.eqb_spec t 1), (Z.eqb_spec t 2), (Z.eqb_spec t 3); subst; simpl; split; try done; try tauto.
    intros [?|[?|[?|?%elem_of_nil]]]; done.
Qed.

Lemma log_call_harmless f d : harmless (log_call f d).
Proof. by apply harmless_modify. Qed.

Lemma tasklet_schedule_harmless_witness :
  harmless (tasklet_schedule no_wake 5) ∧
  ret_state (tasklet_schedule no_wake 5 sample_sirq) ≠ None.
Proof.
  split; [|vm_compute; discriminate].
  apply (tasklet_schedule_harmless no_wake 5 harmless_ret ltac:(discriminate)).
Defined.


Lemma tasklet_action_fifo_witness :
  ∃ s', tasklet_action log_call 4 sample_sirq = Ret tt s' ∧ env s' = [(100, 11); (300, 33)] ∧
    tasklets_ok s' [] 0 [] [2] [].
Proof.
  destruct (tasklet_action_fifo log_call (λ f d e, e ++ [(f, d)]) ltac:(reflexivity) 4 sample_sirq [1; 2; 3] []
              sample_sirq_ok) as (s' & E & HT & He).
  - intros t [->|[->|[->|?%elem_of_nil]%elem_of_cons]%elem_of_cons]%elem_of_cons; done.
  - simpl. lia.
  - exists s'. split; [exact E|]. split; [exact He|exact HT].
Defined.

Lemma run_pending_order_witness :
  run_pending (λ nr, modify (λ s, put_env (env s ++ [(nr, 0)]) s)) 33 0 0x252 sample_sirq =
  each (λ nr, modify (λ s, put_env (env s ++ [(nr, 0)]) s)) [1; 4; 6; 9] sample_sirq.
Proof. rewrite run_pending_order by lia. vm_compute. reflexivity. Defined.

(** Only the soft interrupt 1 is registered, and it is pending. *)
Definition timer_sirq : sirq (list (Z * Z)) :=
  put_pending 2 (put_vec (λ nr, if nr =? 1 then Some (h_other 0) else None) sample_sirq).

Lemma do_softirq_ends_witness :
  ends (__do_softirq log_call no_other no_wake 4) timer_sirq (λ _ s', tasklet_count s' = -1).
Proof.
  eapply ends_mono.
  - apply (do_softirq_ends log_call no_other no_wake
      (λ s, softirq_vec s = softirq_vec timer_sirq ∧ (pending s = 0 ∨ pending s = 2)) (λ nr, nr = 1)).
    + intros nr -> s [Hv Hp]. eapply ends_step; [reflexivity|]. rewrite Hv. by eapply ends_ret.
    + intros s HI. by eapply ends_ret.
    + done.
    + intros s [Hv _]. split; [done|by left].
    + done.
    + intros s [_ [-> | ->]]; (split; [lia|]); intros nr; [by rewrite Z.testbit_0_l|].
      change 2 with (2 ^ 1). rewrite Z.pow2_bits_eqb by lia. intros ?%Z.eqb_eq. done.
    + split; [done|by right].
    + cbn. lia.
  - cbn. by intros ? ? [_ ->].
Defined.

Lemma hi_schedule_first_lost_witness :
  ∃ s', (tasklet_hi_schedule_first 7 ;; tasklet_hi_schedule no_wake 8) (put_count 0 sample_sirq) = Ret tt s' ∧
    queue_is s' Hi [8] ∧ sched s' 7 = true.
Proof.
  apply (hi_schedule_first_lost no_wake (put_count 0 sample_sirq) 7 8); try reflexivity; try discriminate.
Defined.
