(* ===== verification/Timer.v ===== *)
(** * Timers and the clock (kernel/timer.c, arch/x86_64/time.c)

    The timers of one processor on a list sorted by deadline and the free nodes on
    another, the soft interrupt that runs the expired ones ten at a time; the
    conversion of a date to seconds and the reading of the battery clock.  The memory
    allocator, the functions called by timers and the clock's registers are arguments. *)

From Stdlib Require Import Lia ZArith.
From stdpp Require Import base list numbers option sorting.
From S2P Require Import Prelude Chain Softirq.

#[local] Open Scope Z_scope.
#[local] Open Scope yaos_scope.

Definition NR_TIMER_BUF : nat := 16.
Definition ENOMEM : Z := -12.

(** ** Dates *)

(** [mktime64] computes in [unsigned int] up to the cast and in [unsigned long] after. *)
Definition mktime64 (year0 mon0 day hour min sec : Z) : Z :=
  let mon := u32 (mon0 - 2) in
  let year := year0 in
  let '(mon, year) := if s32 mon <=? 0 then (u32 (mon + 12), u32 (year - 1)) else (mon, year) in
  let days := u32 (u32 (u32 (u32 (year / 4 - year / 100) + year / 400) + u32 (367 * mon) / 12) + day) in
  let days := u64 (u64 (days + u32 (year * 365)) - 719499) in
  let hours := u64 (u64 (days * 24) + hour) in
  let minutes := u64 (u64 (hours * 60) + min) in
  u64 (u64 (minutes * 60) + sec).

(** ** Timers *)

Record timeout_callback : Type := mk_timeout { pnext : Z; deadline : Z; callback : Z }.

(** The timer manager of one processor, the nodes by address, the clock and the rest of
    the machine. *)
Record timers (E : Type) : Type := mk_timers {
  pfree : Z;
  ptimer : Z;
  nodes : Z → timeout_callback;
  clock : Z;
  rest : E
}.
Arguments mk_timers {E}.
Arguments pfree {E}.
Arguments ptimer {E}.
Arguments nodes {E}.
Arguments clock {E}.
Arguments rest {E}.

Section timer.
Context {E : Type}.
Context (yaos_malloc : Z → M E Z) (call : Z → Z → M (timers E) unit).

Notation T := (timers E).

Definition set_pfree (p : Z) : M T unit := modify (λ s, mk_timers p (ptimer s) (nodes s) (clock s) (rest s)).
Definition set_ptimer (p : Z) : M T unit := modify (λ s, mk_timers (pfree s) p (nodes s) (clock s) (rest s)).
Definition set_node (a : Z) (n : timeout_callback) : M T unit :=
  modify (λ s, mk_timers (pfree s) (ptimer s) (λ x, if x =? a then n else nodes s x) (clock s) (rest s)).
Definition node (a : Z) : M T timeout_callback := gets (λ s, nodes s a).
Definition set_pnext (a p : Z) : M T unit :=
  n ← node a; set_node a (mk_timeout p (deadline n) (callback n)).
Definition malloc (z : Z) : M T Z :=
  zoom rest (λ e s, mk_timers (pfree s) (ptimer s) (nodes s) (clock s) e) (yaos_malloc z).

(** [while (ptr->pnext && ptr->pnext->deadline < thedeadline) ptr = ptr->pnext;] *)
Fixpoint find_pos (fuel : nat) (ptr d : Z) : M T Z :=
  match fuel with
  | O => out_of_fuel
  | S fuel =>
      n ← node ptr;
      m ← node (pnext n);
      if negb (pnext n =? 0) && (deadline m <? d) then find_pos fuel (pnext n) d else mret ptr
  end.

(** From the computation of the deadline on, for the node [p]. *)
Definition arm (fuel : nat) (p msec pfunc : Z) : M T Z :=
  now ← gets clock;
  let thedeadline := u64 (msec + now) in
  n ← node p;
  set_node p (mk_timeout (pnext n) thedeadline pfunc) ;;
  t ← gets ptimer;
  first ← node t;
  (if (t =? 0) || (thedeadline <? deadline first) then
     set_pnext p t ;;
     set_ptimer p
   else
     ptr ← find_pos fuel t thedeadline;
     n ← node ptr;
     set_pnext p (pnext n) ;;
     set_pnext ptr p) ;;
  mret 0.

Definition set_timeout (fuel : nat) (msec pfunc : Z) : M T Z :=
  p ← gets pfree;
  p ← (if p =? 0 then malloc 24 else n ← node p; set_pfree (pnext n) ;; mret p);
  if p =? 0 then mret ENOMEM else arm fuel p msec pfunc.

(** [while (ptr->pnext && msec_count >= ptr->pnext->deadline && callnr > 0)]: the last node
    taken and the callbacks, in the order of [funcarr] from its end. *)
Fixpoint collect (callnr : nat) (ptr : Z) : M T (Z * nat * list Z) :=
  n ← node ptr;
  m ← node (pnext n);
  now ← gets clock;
  if negb (pnext n =? 0) && (deadline m <=? now) then
    match callnr with
    | O => mret (ptr, O, [])
    | S callnr =>
        r ← collect callnr (pnext n);
        let '(q, nr, fs) := r in mret (q, nr, callback m :: fs)
    end
  else mret (ptr, callnr, []).

Fixpoint call_all (fs : list Z) : M T unit :=
  match fs with
  | [] => mret tt
  | f :: fs => now ← gets clock; call f now ;; call_all fs
  end.

Fixpoint run_timer_softirq (fuel : nat) : M T unit :=
  match fuel with
  | O => out_of_fuel
  | S fuel =>
      p ← gets ptimer;
      first ← node p;
      now ← gets clock;
      if (p =? 0) || (now <? deadline first) then mret tt else
      r ← collect 9 p;
      let '(ptr, callnr, fs) := r in
      n ← node ptr;
      set_ptimer (pnext n) ;;
      free ← gets pfree;
      set_pnext ptr free ;;
      set_pfree p ;;
      call_all (callback first :: fs) ;;
      match callnr with O => run_timer_softirq fuel | _ => mret tt end
  end.

(** The nodes of [timerbuf], by address. *)
Context (timerbuf : nat → Z).

Definition init_timer : M T Z :=
  for_range (NR_TIMER_BUF - 1) 0 (λ i, set_pnext (timerbuf i) (timerbuf (S i))) ;;
  set_pnext (timerbuf (NR_TIMER_BUF - 1)) 0 ;;
  set_pfree (timerbuf 0) ;;
  set_ptimer 0 ;;
  mret 0.

End timer.

(** What the timer interrupt raises. *)
Definition run_local_timers {U} (wake_up_thread : M (sirq U) unit) : M (sirq U) unit :=
  raise_softirq wake_up_thread TIMER_SOFTIRQ.

(** ** The battery clock *)

Definition SECS : Z := 0x00.
Definition MINS : Z := 0x02.
Definition HOURS : Z := 0x04.
Definition DAY : Z := 0x07.
Definition MONTH : Z := 0x08.
Definition YEAR : Z := 0x09.
Definition CMOS_STATA : Z := 0x0a.
Definition CMOS_STATB : Z := 0x0b.
Definition CMOS_UIP : Z := 1 .<< 7.

Record rtcdate : Type := mk_rtc { second : Z; minute : Z; hour : Z; day : Z; month : Z; year : Z }.

#[export] Instance rtcdate_eq_dec : EqDecision rtcdate.
Proof. solve_decision. Defined.

Section cmos.
Context {D : Type} (cmos_read : Z → M D Z).

Definition fill_rtcdate : M D rtcdate :=
  s ← cmos_read SECS;
  m ← cmos_read MINS;
  h ← cmos_read HOURS;
  d ← cmos_read DAY;
  mo ← cmos_read MONTH;
  y ← cmos_read YEAR;
  mret (mk_rtc s m h d mo y).

(** [for (;;)] until two readings agree outside an update. *)
Fixpoint read_stable (fuel : nat) : M D rtcdate :=
  match fuel with
  | O => out_of_fuel
  | S fuel =>
      t1 ← fill_rtcdate;
      a ← cmos_read CMOS_STATA;
      if negb (a .& CMOS_UIP =? 0) then read_stable fuel else
      t2 ← fill_rtcdate;
      if decide (t1 = t2) then mret t1 else read_stable fuel
  end.

Definition CONV (x : Z) : Z := u32 ((x .>> 4) * 10 + (x .& 0xf)).

Definition cmostime (fuel : nat) : M D rtcdate :=
  sb ← cmos_read CMOS_STATB;
  let bcd := sb .& (1 .<< 2) =? 0 in
  t1 ← read_stable fuel;
  let t1 := if bcd then mk_rtc (CONV (second t1)) (CONV (minute t1)) (CONV (hour t1)) (CONV (day t1))
                          (CONV (month t1)) (CONV (year t1)) else t1 in
  mret (mk_rtc (second t1) (minute t1) (hour t1) (day t1) (month t1) (u32 (year t1 + 2000))).

(** [start_time_in_sec]. *)
Definition init_time (fuel : nat) : M D Z :=
  t ← cmostime fuel;
  mret (mktime64 (year t) (month t) (day t) (hour t) (minute t) (second t)).

End cmos.

(** ** The calendar *)

Definition leap (y : Z) : bool := ((y mod 4 =? 0) && negb (y mod 100 =? 0)) || (y mod 400 =? 0).
Definition year_days (y : Z) : Z := if leap y then 366 else 365.
Definition month_days (y m : Z) : Z :=
  if m =? 2 then (if leap y then 29 else 28) else
  if (m =? 4) || (m =? 6) || (m =? 9) || (m =? 11) then 30 else 31.

(** The days of the [n] years from [y] on, and of the [n] months of [y] from [m] on. *)
Fixpoint years (n : nat) (y : Z) : Z := match n with O => 0 | S n => year_days y + years n (y + 1) end.
Fixpoint months (n : nat) (y m : Z) : Z := match n with O => 0 | S n => month_days y m + months n y (m + 1) end.

(** The days from 1 January 1970 to a date. *)
Definition epoch_days (y m d : Z) : Z :=
  years (Z.to_nat (y - 1970)) 1970 + months (Z.to_nat (m - 1)) y 1 + (d - 1).

(** Leap days up to the end of a year. *)
Definition leaps (y : Z) : Z := y / 4 - y / 100 + y / 400.

Lemma leaps_step y : leaps y = leaps (y - 1) + (if leap y then 1 else 0).
Proof.
  unfold leaps, leap.
  destruct (Z.eqb_spec (y mod 4) 0), (Z.eqb_spec (y mod 100) 0), (Z.eqb_spec (y mod 400) 0); simpl;
    Z.to_euclidean_division_equations; lia.
Qed.

Lemma years_leaps n y : years n y = 365 * Z.of_nat n + leaps (y + Z.of_nat n - 1) - leaps (y - 1).
Proof.
  revert y. induction n as [|n IH]; intros y; cbn [years].
  - replace (y + Z.of_nat 0 - 1) with (y - 1) by lia. lia.
  - rewrite IH. unfold year_days. pose proof (leaps_step y) as Hs.
    replace (y + 1 + Z.of_nat n - 1) with (y + Z.of_nat (S n) - 1) by lia. replace (y + 1 - 1) with y by lia.
    destruct (leap y); lia.
Qed.

(** The days of the months before [m], as the formula counts them. *)
Lemma months_formula y m :
  1 ≤ m ≤ 12 →
  months (Z.to_nat (m - 1)) y 1 =
    if m <=? 2 then 367 * (m + 10) / 12 - 336
    else 367 * (m - 2) / 12 - 30 + 59 + (if leap y then 1 else 0).
Proof.
  intros Hm. assert (m = 1 ∨ m = 2 ∨ m = 3 ∨ m = 4 ∨ m = 5 ∨ m = 6 ∨ m = 7 ∨ m = 8 ∨ m = 9 ∨ m = 10 ∨ m = 11 ∨ m = 12) as Hc by lia.
  destruct Hc as [->|[->|[->|[->|[->|[->|[->|[->|[->|[->|[->| ->]]]]]]]]]]]; 
    vm_compute (Z.to_nat _); cbn [months Z.leb]; unfold month_days; destruct (leap y); vm_compute; reflexivity.
Qed.

(** The sum [mktime64] takes of a year and month counted from March. *)
Lemma mktime64_sum y m d h mi s :
  0 ≤ y ≤ 1000000 → 1 ≤ m ≤ 12 → 0 ≤ d < 2 ^ 16 → 0 ≤ h < 2 ^ 16 → 0 ≤ mi < 2 ^ 16 → 0 ≤ s < 2 ^ 16 →
  719499 ≤ leaps y + 367 * m / 12 + d + y * 365 →
  (let days := u32 (u32 (u32 (u32 (y / 4 - y / 100) + y / 400) + u32 (367 * m) / 12) + d) in
   let days := u64 (u64 (days + u32 (y * 365)) - 719499) in
   let hours := u64 (u64 (days * 24) + h) in
   let minutes := u64 (u64 (hours * 60) + mi) in
   u64 (u64 (minutes * 60) + s)) =
  (((leaps y + 367 * m / 12 + d + y * 365 - 719499) * 24 + h) * 60 + mi) * 60 + s.
Proof.
  intros Hy Hm Hd Hh Hmi Hs Hlow. unfold leaps in *. cbv zeta.
  assert (0 ≤ 367 * m / 12 ≤ 367) as Hq by (Z.to_euclidean_division_equations; lia).
  assert (0 ≤ y / 4 - y / 100 ≤ 250000) as Hl1 by (Z.to_euclidean_division_equations; lia).
  assert (0 ≤ y / 400 ≤ 2500) as Hl2 by (Z.to_euclidean_division_equations; lia).
  set (q := 367 * m / 12) in *. set (l1 := y / 4 - y / 100) in *. set (l2 := y / 400) in *.
  rewrite (u32_small (367 * m)) by lia. fold q. clearbody q l1 l2.
  rewrite (u32_small (y * 365)), (u32_small l1), (u32_small (l1 + l2)), (u32_small (l1 + l2 + q)),
    (u32_small (l1 + l2 + q + d)) by lia.
  set (n := l1 + l2 + q + d + y * 365) in *. assert (719499 ≤ n < 2 ^ 30) as Hn by lia. clearbody n.
  rewrite (u64_id n), (u64_id (n - 719499)), (u64_id ((n - 719499) * 24)), (u64_id ((n - 719499) * 24 + h)) by (unfold in_u; lia).
  set (hh := (n - 719499) * 24 + h) in *. assert (0 ≤ hh < 2 ^ 40) as Hhh by lia. clearbody hh.
  rewrite (u64_id (hh * 60)), (u64_id (hh * 60 + mi)), (u64_id ((hh * 60 + mi) * 60)), (u64_id ((hh * 60 + mi) * 60 + s))
    by (unfold in_u; lia).
  reflexivity.
Qed.

Lemma mktime64_epoch y m d h mi s :
  1970 ≤ y ≤ 1000000 → 1 ≤ m ≤ 12 → 1 ≤ d ≤ 31 → 0 ≤ h < 24 → 0 ≤ mi < 60 → 0 ≤ s < 60 →
  mktime64 y m d h mi s = ((epoch_days y m d * 24 + h) * 60 + mi) * 60 + s.
Proof.
  intros Hy Hm Hd Hh Hmi Hs. unfold epoch_days. rewrite years_leaps, months_formula by lia.
  rewrite Z2Nat.id by lia. replace (1970 + (y - 1970) - 1) with (y - 1) by lia.
  change (leaps (1970 - 1)) with 477. unfold mktime64.
  assert (477 ≤ leaps (y - 1)) as Hlow.
  { unfold leaps. Z.to_euclidean_division_equations; lia. }
  destruct (Z.leb_spec m 2) as [Hm2|Hm2].
  - assert (s32 (u32 (m - 2)) <=? 0 = true) as -> by (assert (m = 1 ∨ m = 2) as [-> | ->] by lia; reflexivity).
    assert (u32 (u32 (m - 2) + 12) = m + 10) as -> by (assert (m = 1 ∨ m = 2) as [-> | ->] by lia; reflexivity).
    rewrite (u32_small (y - 1)) by lia. assert (336 ≤ 367 * (m + 10) / 12) by (apply Z.div_le_lower_bound; lia).
    rewrite mktime64_sum by lia. lia.
  - rewrite (u32_small (m - 2)) by lia. rewrite s32_id by lia. destruct (Z.leb_spec (m - 2) 0); [lia|].
    assert (0 ≤ 367 * (m - 2) / 12) by (apply Z.div_pos; lia). pose proof (leaps_step y).
    rewrite mktime64_sum by (destruct (leap y); lia). destruct (leap y); lia.
Qed.

(** [mktime64] gives, for every date from 1970 on, the seconds from the start of 1970:
    its arithmetic on a year that starts in March agrees with the calendar counted
    year by year and month by month. *)
Theorem mktime64_correct y m d h mi s :
  1970 ≤ y ≤ 1000000 → 1 ≤ m ≤ 12 → 1 ≤ d ≤ 31 → 0 ≤ h < 24 → 0 ≤ mi < 60 → 0 ≤ s < 60 →
  mktime64 y m d h mi s = ((epoch_days y m d * 24 + h) * 60 + mi) * 60 + s.
Proof. apply mktime64_epoch. Qed.

Lemma mktime64_correct_witness :
  mktime64 2026 11 15 12 30 0 = 1794745800 ∧ epoch_days 2026 11 15 = 20772.
Proof.
  split; [|vm_compute; reflexivity]. rewrite (mktime64_correct 2026 11 15 12 30 0) by lia.
  vm_compute. reflexivity.
Defined.

(** ** Reading the clock *)

Definition bcd (v : Z) : Z := (v / 10) * 16 + v mod 10.

Lemma CONV_bcd v : 0 ≤ v < 100 → CONV (bcd v) = v.
Proof.
  intros Hv. assert (forallb (λ n, CONV (bcd (Z.of_nat n)) =? Z.of_nat n) (seq 0 100) = true) as HF by (vm_compute; reflexivity).
  rewrite forallb_forall in HF. specialize (HF (Z.to_nat v) ltac:(apply in_seq; lia)).
  rewrite Z2Nat.id in HF by lia. by apply Z.eqb_eq in HF.
Qed.

(** The registers of a clock that holds a date and is not being updated. *)
Definition shows (reg : Z → Z) (r : rtcdate) : Prop :=
  reg SECS = bcd (second r) ∧ reg MINS = bcd (minute r) ∧ reg HOURS = bcd (hour r) ∧
  reg DAY = bcd (day r) ∧ reg MONTH = bcd (month r) ∧ reg YEAR = bcd (year r) ∧
  reg CMOS_STATA .& CMOS_UIP = 0 ∧ reg CMOS_STATB .& 4 = 0.

Definition in_century (r : rtcdate) : Prop :=
  0 ≤ second r < 60 ∧ 0 ≤ minute r < 60 ∧ 0 ≤ hour r < 24 ∧ 1 ≤ day r ≤ 31 ∧ 1 ≤ month r ≤ 12 ∧ 0 ≤ year r < 100.

Lemma cmostime_run {D} (cmos_read : Z → M D Z) (reg : Z → Z) r fuel s :
  (∀ i s, cmos_read i s = Ret (reg i) s) → shows reg r → in_century r →
  cmostime cmos_read (S fuel) s = Ret (mk_rtc (second r) (minute r) (hour r) (day r) (month r) (year r + 2000)) s.
Proof.
  intros Hr (Hs & Hm & Hh & Hd & Hmo & Hy & Ha & Hb) (? & ? & ? & ? & ? & ?).
  assert (fill_rtcdate cmos_read s = Ret (mk_rtc (reg SECS) (reg MINS) (reg HOURS) (reg DAY) (reg MONTH) (reg YEAR)) s) as Ef.
  { unfold fill_rtcdate. by do 6 rewrite (bind_ret _ _ _ _ _ (Hr _ s)). }
  unfold cmostime. rewrite (bind_ret _ _ _ _ _ (Hr _ s)). cbn [read_stable]. change (1 .<< 2) with 4. rewrite Hb.
  rewrite bind_assoc, (bind_ret _ _ _ _ _ Ef), bind_assoc, (bind_ret _ _ _ _ _ (Hr _ s)), Ha. cbn [negb Z.eqb].
  rewrite bind_assoc, (bind_ret _ _ _ _ _ Ef), decide_True by done. erewrite bind_ret by reflexivity.
  cbn [second minute hour day month year]. rewrite Hs, Hm, Hh, Hd, Hmo, Hy, !CONV_bcd by lia.
  rewrite u32_small by lia. reflexivity.
Qed.

(** The time the kernel starts with: from a clock in BCD format that shows a date of this
    century, [init_time] computes the seconds from the start of 1970. *)
Theorem init_time_correct {D} (cmos_read : Z → M D Z) (reg : Z → Z) r fuel s :
  (∀ i s, cmos_read i s = Ret (reg i) s) → shows reg r → in_century r →
  init_time cmos_read (S fuel) s =
    Ret (((epoch_days (2000 + year r) (month r) (day r) * 24 + hour r) * 60 + minute r) * 60 + second r) s.
Proof.
  intros Hr Hsh Hc. unfold init_time. rewrite (bind_ret _ _ _ _ _ (cmostime_run cmos_read reg r fuel s Hr Hsh Hc)).
  destruct Hc as (? & ? & ? & ? & ? & ?). cbn [second minute hour day month year].
  rewrite mktime64_epoch, (Z.add_comm (year r)) by lia. reflexivity.
Qed.

Definition sample_reg (i : Z) : Z :=
  if i =? SECS then 0x59 else if i =? MINS then 0x30 else if i =? HOURS then 0x12 else
  if i =? DAY then 0x15 else if i =? MONTH then 0x11 else if i =? YEAR then 0x26 else 0.

Lemma init_time_correct_witness :
  init_time (λ i (s : unit), Ret (sample_reg i) s) 1 tt = Ret 1794745859 tt.
Proof.
  rewrite (init_time_correct _ sample_reg (mk_rtc 59 30 12 15 11 26) 0 tt).
  - vm_compute. reflexivity.
  - reflexivity.
  - repeat split; reflexivity.
  - unfold in_century. cbn. lia.
Defined.

(** ** The list of timers *)

Section timers_ok.
Context {E : Type}.
Implicit Types s : timers E.

Definition link s (a : Z) : Z := pnext (nodes s a).
Definition due s (a : Z) : Z := deadline (nodes s a).

(** [fl] are the free nodes, [ts] the timers in order of their deadlines. *)
Record timers_ok s (fl ts : list Z) : Prop := {
  tm_free : clist (link s) (pfree s) fl;
  tm_timers : clist (link s) (ptimer s) ts;
  tm_nodup : NoDup (fl ++ ts);
  tm_sorted : StronglySorted (λ a b, due s a ≤ due s b) ts
}.

(** Where a timer with the deadline [d] goes: in front if it is earlier than all, else
    behind the first one and all later ones that are earlier. *)
Fixpoint insert_later (f : Z → Z) (d a : Z) (l : list Z) : list Z :=
  match l with [] => [a] | x :: l => if f x <? d then x :: insert_later f d a l else a :: x :: l end.
Definition insert_timer (f : Z → Z) (d a : Z) (l : list Z) : list Z :=
  match l with [] => [a] | x :: l => if d <? f x then a :: x :: l else x :: insert_later f d a l end.

Lemma insert_later_perm f d a l : insert_later f d a l ≡ₚ a :: l.
Proof. induction l as [|x l IH]; simpl; [done|]. destruct (f x <? d); [|done]. rewrite IH. by rewrite Permutation_swap. Qed.

Lemma insert_timer_perm f d a l : insert_timer f d a l ≡ₚ a :: l.
Proof. destruct l as [|x l]; simpl; [done|]. destruct (d <? f x); [done|]. rewrite insert_later_perm. by rewrite Permutation_swap. Qed.

Lemma insert_later_sorted f d a l :
  StronglySorted (λ x y, f x ≤ f y) l → f a = d → StronglySorted (λ x y, f x ≤ f y) (insert_later f d a l).
Proof.
  intros Hs Ha. induction Hs as [|x l Hs IH Hx]; simpl; [by repeat constructor|].
  destruct (Z.ltb_spec (f x) d).
  - constructor; [done|]. rewrite insert_later_perm. constructor; [lia|done].
  - constructor; [by constructor|]. constructor; [lia|]. eapply list.Forall_impl; [exact Hx|]. simpl. lia.
Qed.

Lemma insert_timer_sorted f d a l :
  StronglySorted (λ x y, f x ≤ f y) l → f a = d → StronglySorted (λ x y, f x ≤ f y) (insert_timer f d a l).
Proof.
  intros Hs Ha. destruct l as [|x l]; simpl; [by repeat constructor|].
  apply StronglySorted_inv in Hs as [Hs Hx]. destruct (Z.ltb_spec d (f x)).
  - constructor; [by constructor|]. constructor; [lia|]. eapply list.Forall_impl; [exact Hx|]. simpl. lia.
  - constructor; [by apply insert_later_sorted|]. rewrite insert_later_perm. constructor; [lia|done].
Qed.

(** The walk stops at the node the new timer goes behind. *)
Lemma find_pos_run l fuel x d a s :
  clist (link s) x (x :: l) → (length l < fuel)%nat →
  ∃ l1 q l2, find_pos fuel x d s = Ret q s ∧ x :: l = l1 ++ q :: l2 ∧
    x :: insert_later (due s) d a l = l1 ++ q :: a :: l2.
Proof.
  revert fuel x. induction l as [|y l IH]; intros [|fuel] x Hc Hf; simpl in Hf; try lia; cbn [find_pos];
    destruct (clist_cons _ _ _ _ Hc) as (_ & Hx & Hc'); do 2 (erewrite bind_ret by reflexivity).
  - apply clist_nil in Hc'. unfold link in Hc'. rewrite Hc'. cbn [negb andb Z.eqb]. by exists [], x, [].
  - pose proof Hc' as Hc2. destruct (clist_cons _ _ _ _ Hc') as (Ey & Hy & _). unfold link in Ey. rewrite Ey.
    rewrite (proj2 (Z.eqb_neq y 0) Hy). cbn [negb andb insert_later]. change (deadline (nodes s y)) with (due s y).
    destruct (due s y <? d); [|by exists [], x, (y :: l)].
    unfold link in Hc2. rewrite Ey in Hc2. destruct (IH fuel y Hc2 ltac:(lia)) as (l1 & q & l2 & Er & E1 & E2).
    exists (x :: l1), q, l2. split; [done|]. cbn [app]. by rewrite E1, E2.
Qed.

Lemma insert_later_ext f g d a l : (∀ x, x ∈ l → f x = g x) → insert_later f d a l = insert_later g d a l.
Proof.
  induction l as [|x l IH]; intros He; simpl; [done|]. rewrite (He x) by (by apply elem_of_cons; left).
  rewrite IH; [done|]. intros y Hy. apply He. by apply elem_of_cons; right.
Qed.

Lemma insert_timer_ext f g d a l : (∀ x, x ∈ l → f x = g x) → insert_timer f d a l = insert_timer g d a l.
Proof.
  intros He. destruct l as [|x l]; simpl; [done|]. rewrite (He x) by (by apply elem_of_cons; left).
  rewrite (insert_later_ext f g); [done|]. intros y Hy. apply He. by apply elem_of_cons; right.
Qed.

Definition put_node (a : Z) (n : timeout_callback) s : timers E :=
  mk_timers (pfree s) (ptimer s) (λ x, if x =? a then n else nodes s x) (clock s) (rest s).

Lemma put_node_eq a n s : nodes (put_node a n s) a = n.
Proof. cbn. by rewrite Z.eqb_refl. Qed.
Lemma put_node_ne a n s x : x ≠ a → nodes (put_node a n s) x = nodes s x.
Proof. intros. cbn. by rewrite (proj2 (Z.eqb_neq x a)). Qed.

Lemma set_pnext_run a p s :
  set_pnext a p s = Ret tt (put_node a (mk_timeout p (due s a) (callback (nodes s a))) s).
Proof. reflexivity. Qed.

(** The deadlines and functions of the nodes other than [p] are kept. *)
Record armed (p d f : Z) s s' : Prop := {
  ar_due : due s' p = d;
  ar_call : callback (nodes s' p) = f;
  ar_dues : ∀ x, x ≠ p → due s' x = due s x;
  ar_calls : ∀ x, x ≠ p → callback (nodes s' x) = callback (nodes s x);
  ar_free : pfree s' = pfree s;
  ar_clock : clock s' = clock s;
  ar_rest : rest s' = rest s
}.

Lemma armed_ok p d f s s' fl ts ts' :
  armed p d f s s' → timers_ok s fl ts → p ∉ fl ++ ts → (∀ x, x ∈ fl → link s' x = link s x) →
  clist (link s') (ptimer s') ts' → ts' = insert_timer (due s) d p ts → timers_ok s' fl ts'.
Proof.
  intros HA [Hf Ht ND Hs] Hp Hl Hc ->. rewrite elem_of_app in Hp.
  assert (∀ x, x ∈ ts → due s x = due s' x) as Hd.
  { intros x Hx. symmetry. apply HA. intros ->. tauto. }
  split.
  - rewrite (ar_free _ _ _ _ _ HA). by eapply clist_ext.
  - done.
  - rewrite insert_timer_perm. rewrite (Permutation_app_comm fl). cbn [app]. apply list.NoDup_cons.
    rewrite elem_of_app. split; [tauto|]. by rewrite (Permutation_app_comm ts).
  - rewrite (insert_timer_ext (due s) (due s')) by done. apply insert_timer_sorted; [|apply HA].
    clear - Hs Hd. induction Hs as [|x l Hs IH Hx]; constructor; [apply IH; intros y Hy; apply Hd; by apply elem_of_cons; right|].
    rewrite list.Forall_forall in *. intros y Hy. rewrite <- !Hd; [by apply Hx|by apply elem_of_cons; right|by apply elem_of_cons; left].
Qed.

(** Only links and the head of the timers changed. *)
Record relinked s s' : Prop := {
  rl_due : ∀ x, due s' x = due s x;
  rl_call : ∀ x, callback (nodes s' x) = callback (nodes s x);
  rl_free : pfree s' = pfree s;
  rl_clock : clock s' = clock s;
  rl_rest : rest s' = rest s
}.

Lemma relinked_pnext a p s : relinked s (put_node a (mk_timeout p (due s a) (callback (nodes s a))) s).
Proof.
  split; try done; intros x; unfold due; (destruct (decide (x = a)) as [->|]; [by rewrite put_node_eq|by rewrite put_node_ne]).
Qed.

Lemma relinked_trans s1 s2 s3 : relinked s1 s2 → relinked s2 s3 → relinked s1 s3.
Proof. intros [] []. split; intros; congruence. Qed.

(** Putting the node [p] in front. *)
Lemma push_run p s ts :
  clist (link s) (ptimer s) ts → p ∉ ts → p ≠ 0 →
  ∃ s', (set_pnext p (ptimer s) ;; set_ptimer p) s = Ret tt s' ∧ relinked s s' ∧
    clist (link s') (ptimer s') (p :: ts) ∧ ∀ x, x ≠ p → link s' x = link s x.
Proof.
  intros Hc Hp H0. rewrite (bind_ret _ _ _ _ _ (set_pnext_run p (ptimer s) s)). eexists. split; [reflexivity|].
  assert (∀ x, x ≠ p → link (put_node p (mk_timeout (ptimer s) (due s p) (callback (nodes s p))) s) x = link s x) as Hl.
  { intros x Hx. unfold link. by rewrite put_node_ne. }
  split; [|split; [|exact Hl]].
  - destruct (relinked_pnext p (ptimer s) s) as [Hd Hcb ? ? ?]. split; try done.
  - cbn [ptimer]. apply clist_intro; [done|]. unfold link. cbn [nodes]. rewrite put_node_eq. cbn [pnext].
    eapply clist_ext; [exact Hc|]. intros x Hx. apply Hl. by intros ->.
Qed.

(** Putting it behind [q]. *)
Lemma behind_run p q s l1 l2 :
  clist (link s) (ptimer s) (l1 ++ q :: l2) → p ∉ l1 ++ q :: l2 → p ≠ 0 →
  ∃ s', (n ← node q; set_pnext p (pnext n) ;; set_pnext q p) s = Ret tt s' ∧ relinked s s' ∧
    clist (link s') (ptimer s') (l1 ++ q :: p :: l2) ∧ ∀ x, x ≠ p → x ≠ q → link s' x = link s x.
Proof.
  intros Hc Hp H0. pose proof (clist_nodup _ _ _ Hc) as ND. erewrite bind_ret by reflexivity.
  rewrite (bind_ret _ _ _ _ _ (set_pnext_run p _ s)). set (s1 := put_node p _ s).
  assert (p ≠ q) as Hpq. { intros ->. apply Hp. apply elem_of_app. right. by apply elem_of_cons; left. }
  eexists. split; [apply set_pnext_run|]. split; [|split].
  - eapply relinked_trans; [apply relinked_pnext|apply relinked_pnext].
  - cbn [ptimer put_node]. eapply clist_insert_after; [exact Hc|done|done| | |].
    + unfold link. by rewrite put_node_eq.
    + unfold link. rewrite put_node_ne by done. unfold s1. by rewrite put_node_eq.
    + intros x Hx. unfold link. rewrite elem_of_app in Hx.
      apply list.NoDup_app in ND as (_ & ND1 & ND2). apply list.NoDup_cons in ND2 as [Hq2 _].
      rewrite elem_of_app, elem_of_cons in Hp.
      rewrite put_node_ne; [unfold s1; rewrite put_node_ne; [done|]|].
      * intros ->. tauto.
      * intros ->. destruct Hx as [Hx|Hx]; [|done]. apply (ND1 q Hx). by apply elem_of_cons; left.
  - intros x Hx1 Hx2. unfold link. rewrite put_node_ne by done. unfold s1. by rewrite put_node_ne.
Qed.

Lemma arm_run fuel p msec f s fl ts :
  timers_ok s fl ts → p ∉ fl ++ ts → p ≠ 0 → (length ts < fuel)%nat →
  ∃ s', arm fuel p msec f s = Ret 0 s' ∧ armed p (u64 (msec + clock s)) f s s' ∧
    timers_ok s' fl (insert_timer (due s) (u64 (msec + clock s)) p ts).
Proof.
  intros HT Hp H0 Hf. pose proof HT as [Hfl Hts ND Hs]. pose proof Hp as Hp'. rewrite elem_of_app in Hp'.
  unfold arm. erewrite bind_ret by reflexivity. cbv zeta. set (d := u64 (msec + clock s)).
  erewrite bind_ret by reflexivity. erewrite bind_ret by reflexivity.
  set (s1 := put_node p (mk_timeout (pnext (nodes s p)) d f) s).
  change (mk_timers _ _ _ (clock s) (rest s)) with s1. do 2 (erewrite bind_ret by reflexivity).
  assert (∀ x, x ≠ p → nodes s1 x = nodes s x) as Hn1 by (intros; by apply put_node_ne).
  assert (nodes s1 p = mk_timeout (pnext (nodes s p)) d f) as Hp1 by apply put_node_eq.
  assert (clist (link s1) (ptimer s1) ts) as Hc1.
  { eapply clist_ext; [exact Hts|]. intros x Hx. unfold link. rewrite Hn1; [done|]. intros ->. tauto. }
  assert (∀ s2, relinked s1 s2 → armed p d f s s2) as HA.
  { intros s2 [Hd Hcb Hfr Hck Hre]. split; try done.
    - rewrite Hd. unfold due. by rewrite Hp1.
    - rewrite Hcb. by rewrite Hp1.
    - intros x Hx. rewrite Hd. unfold due. by rewrite Hn1.
    - intros x Hx. rewrite Hcb. by rewrite Hn1. }
  assert (∀ x, x ∈ fl → link s1 x = link s x) as Hfl1 by (intros x Hx; unfold link; rewrite Hn1; [done|intros ->; tauto]).
  assert (∀ x, x ∈ ts → due s1 x = due s x) as Hd1 by (intros x Hx; unfold due; rewrite Hn1; [done|intros ->; tauto]).
  destruct ts as [|t ts].
  - assert (ptimer s1 = 0) as Ez by exact (clist_nil _ _ Hc1). destruct (push_run p s1 [] Hc1 ltac:(by apply not_elem_of_nil) H0) as (s2 & E2 & Hr & Hc2 & Hl2).
    rewrite Ez in E2 |- *. cbn [Z.eqb orb]. rewrite (bind_ret _ _ _ _ _ E2). exists s2. split; [done|]. split; [auto|].
    eapply armed_ok; [by apply HA|done|done| |exact Hc2|done]. intros x Hx. rewrite Hl2; [auto|]. intros ->. tauto.
  - destruct (clist_cons _ _ _ _ Hc1) as (Et & Ht0 & Hc1'). rewrite Et. rewrite (proj2 (Z.eqb_neq t 0) Ht0). cbn [orb].
    change (deadline (nodes s1 t)) with (due s1 t). rewrite Hd1 by (by apply elem_of_cons; left).
    unfold insert_timer. destruct (d <? due s t) eqn:Ed.
    + destruct (push_run p s1 (t :: ts) Hc1 ltac:(tauto) H0) as (s2 & E2 & Hr & Hc2 & Hl2). rewrite Et in E2.
      rewrite (bind_ret _ _ _ _ _ E2). exists s2. split; [done|]. split; [auto|].
      eapply armed_ok; [by apply HA|exact HT|done| |exact Hc2|unfold insert_timer; by rewrite Ed].
      intros x Hx. rewrite Hl2; [auto|]. intros ->. tauto.
    + rewrite Et in Hc1. destruct (find_pos_run ts fuel t d p s1 Hc1 ltac:(simpl in Hf; lia)) as (l1 & q & l2 & Eq & E1 & E2).
      rewrite bind_assoc, (bind_ret _ _ _ _ _ Eq). rewrite E1 in Hc1. rewrite <- Et in Hc1.
      destruct (behind_run p q s1 l1 l2 Hc1 ltac:(rewrite <- E1; tauto) H0) as (s2 & E3 & Hr & Hc2 & Hl2).
      rewrite (bind_ret _ _ _ _ _ E3). exists s2. split; [done|]. split; [auto|].
      rewrite (insert_later_ext (due s) (due s1)) by (intros x Hx; rewrite Hd1; [done|by apply elem_of_cons; right]).
      rewrite E2. eapply armed_ok; [by apply HA|exact HT|done| |exact Hc2|].
      * intros x Hx. rewrite Hl2; [auto|intros ->; tauto|]. intros ->.
        apply list.NoDup_app in ND as (_ & ND & _). apply (ND q Hx). rewrite E1. apply elem_of_app. right. by apply elem_of_cons; left.
      * unfold insert_timer. rewrite Ed, <- E2. f_equal. apply insert_later_ext. intros x Hx. rewrite Hd1; [done|].
        by apply elem_of_cons; right.
Qed.

(** [set_timeout] puts a timer with the deadline and the function given into the list,
    which stays sorted, and keeps the timers that are there; it fails with ENOMEM only
    when there is neither a free node nor memory for one. *)
Theorem set_timeout_correct (yaos_malloc : Z → M E Z) fuel msec f s fl ts :
  timers_ok s fl ts → (length ts < fuel)%nat →
  (fl = [] → match yaos_malloc 24 (rest s) with Ret a _ => a = 0 ∨ a ∉ ts | _ => False end) →
  ∃ r s', set_timeout yaos_malloc fuel msec f s = Ret r s' ∧
    ((r = ENOMEM ∧ fl = [] ∧ timers_ok s' [] ts ∧ nodes s' = nodes s) ∨
     (r = 0 ∧ ∃ p fl', timers_ok s' fl' (insert_timer (due s) (u64 (msec + clock s)) p ts) ∧
        p ∉ ts ∧ due s' p = u64 (msec + clock s) ∧ callback (nodes s' p) = f ∧
        ∀ x, x ∈ ts → due s' x = due s x ∧ callback (nodes s' x) = callback (nodes s x))).
Proof.
  intros HT Hf Hm. pose proof HT as [Hfl Hts ND Hs]. unfold set_timeout. erewrite bind_ret by reflexivity.
  assert (∀ p fl0 s0, timers_ok s0 fl0 ts → p ∉ fl0 ++ ts → p ≠ 0 → clock s0 = clock s → nodes s0 = nodes s →
    ∃ r s', arm fuel p msec f s0 = Ret r s' ∧ ((r = ENOMEM ∧ fl = [] ∧ timers_ok s' [] ts ∧ nodes s' = nodes s) ∨
     (r = 0 ∧ ∃ p fl', timers_ok s' fl' (insert_timer (due s) (u64 (msec + clock s)) p ts) ∧
        p ∉ ts ∧ due s' p = u64 (msec + clock s) ∧ callback (nodes s' p) = f ∧
        ∀ x, x ∈ ts → due s' x = due s x ∧ callback (nodes s' x) = callback (nodes s x)))) as HA.
  { intros p fl0 s0 HT0 Hp Hp0 Ec En. destruct (arm_run fuel p msec f s0 fl0 ts HT0 Hp Hp0 Hf) as (s' & Er & HA & HT').
    assert (∀ x, due s0 x = due s x) as Hd by (intros x; unfold due; by rewrite En). rewrite elem_of_app in Hp.
    exists 0, s'. split; [done|]. right. split; [done|]. exists p, fl0. rewrite <- Ec.
    rewrite (insert_timer_ext (due s) (due s0)) by auto. split_and!; [done|tauto|apply HA|apply HA|].
    intros x Hx. rewrite (ar_dues _ _ _ _ _ HA), (ar_calls _ _ _ _ _ HA), Hd, En by (intros ->; tauto). done. }
  destruct fl as [|p fl].
  - rewrite (clist_nil _ _ Hfl). cbn [Z.eqb]. specialize (Hm eq_refl). unfold malloc.
    destruct (yaos_malloc 24 (rest s)) as [a e| | | | |] eqn:Em; try done.
    rewrite (bind_ret _ _ _ _ _ (zoom_ret _ _ _ _ _ _ Em)). set (s0 := mk_timers _ _ _ _ e).
    assert (timers_ok s0 [] ts) as HT0 by (split; [exact Hfl|exact Hts|done|exact Hs]).
    destruct (Z.eqb_spec a 0) as [|Ha]; [exists ENOMEM, s0; split; [done|by left]|].
    apply (HA a [] s0 HT0); [|done|done|done]. destruct Hm; [done|]. done.
  - destruct (clist_cons _ _ _ _ Hfl) as (Ep & Hp0 & Hfl'). rewrite Ep, (proj2 (Z.eqb_neq p 0) Hp0).
    erewrite bind_ret by reflexivity. rewrite (proj2 (Z.eqb_neq p 0) Hp0). set (s0 := mk_timers _ _ _ _ _).
    cbn [app] in ND. apply list.NoDup_cons in ND as [Hn ND].
    apply (HA p fl s0); [|done|done|done|done]. split; [exact Hfl'|exact Hts|done|exact Hs].
Qed.

(** ** Running the expired timers *)

Lemma collect_run n p l s :
  clist (link s) p (p :: l) →
  ∃ l1 l2, collect n p s = Ret (default p (list.last l1), (n - length l1)%nat, (λ a, callback (nodes s a)) <$> l1) s ∧
    l = l1 ++ l2 ∧ (length l1 ≤ n)%nat ∧ Forall (λ a, due s a ≤ clock s) l1 ∧
    ((n - length l1)%nat = O ∨ match l2 with [] => True | a :: _ => clock s < due s a end).
Proof.
  revert p l. induction n as [|n IH]; intros p l Hc; destruct (clist_cons _ _ _ _ Hc) as (_ & Hp & Hc'); cbn [collect];
    do 3 (erewrite bind_ret by reflexivity).
  - exists [], l. split; [by destruct (negb (pnext (nodes s p) =? 0) && _)|]. split_and!; try done. by left.
  - destruct l as [|a l].
    + apply clist_nil in Hc'. unfold link in Hc'. rewrite Hc'. cbn [negb andb Z.eqb]. exists [], [].
      split_and!; [done|done|simpl; lia|by constructor|by right].
    + destruct (clist_cons _ _ _ _ Hc') as (Ea & Ha & _). pose proof Hc' as Hca. unfold link in Ea, Hca. rewrite Ea in Hca.
      rewrite Ea, (proj2 (Z.eqb_neq a 0) Ha). cbn [negb andb]. change (deadline (nodes s a)) with (due s a).
      destruct (Z.leb_spec (due s a) (clock s)) as [Hle|Hgt].
      * destruct (IH a l Hca) as (l1 & l2 & Er & El & Hn & Hall & Hlast). rewrite (bind_ret _ _ _ _ _ Er).
        exists (a :: l1), l2. split_and!.
        -- cbn. f_equal. f_equal. f_equal. destruct l1 as [|b l1]; [done|]. cbn [list.last].
           by destruct (list.last (b :: l1)) eqn:Eb; [|apply last_None in Eb].
        -- by rewrite El.
        -- simpl. lia.
        -- by constructor.
        -- simpl. done.
      * exists [], (a :: l). split_and!; [done|done|simpl; lia|by constructor|by right].
Qed.

Lemma sorted_tail s l1 l2 :
  StronglySorted (λ a b, due s a ≤ due s b) (l1 ++ l2) → StronglySorted (λ a b, due s a ≤ due s b) l2.
Proof. induction l1 as [|x l1 IH]; intros Hs; [done|]. cbn [app] in Hs. apply StronglySorted_inv in Hs as [Hs _]. auto. Qed.

Lemma sorted_head s l1 l2 :
  StronglySorted (λ a b, due s a ≤ due s b) (l1 ++ l2) → StronglySorted (λ a b, due s a ≤ due s b) l1.
Proof.
  induction l1 as [|x l1 IH]; intros Hs; [constructor|]. cbn [app] in Hs. apply StronglySorted_inv in Hs as [Hs Hx].
  apply Forall_app in Hx as [Hx _]. constructor; auto.
Qed.

(** Where the expired timers go: the nodes up to [q] are freed. *)
Lemma unlink_run p s fl l q l2 :
  timers_ok s fl (l ++ q :: l2) → ptimer s = p →
  ∃ s', (n ← node q; set_ptimer (pnext n) ;; free ← gets pfree; set_pnext q free ;; set_pfree p) s = Ret tt s' ∧
    timers_ok s' ((l ++ [q]) ++ fl) l2 ∧ (∀ x, due s' x = due s x) ∧
    (∀ x, callback (nodes s' x) = callback (nodes s x)) ∧ clock s' = clock s ∧ rest s' = rest s.
Proof.
  intros [Hf Ht ND Hs] Ep. erewrite bind_ret by reflexivity. do 2 (erewrite bind_ret by reflexivity).
  set (s1 := mk_timers _ _ _ _ _). rewrite (bind_ret _ _ _ _ _ (set_pnext_run q _ s1)).
  eexists. split; [reflexivity|]. set (s2 := put_node q _ s1).
  assert (∀ x, due s2 x = due s x) as Hd.
  { intros x. unfold due, s2. destruct (decide (x = q)) as [->|]; [by rewrite put_node_eq|by rewrite put_node_ne]. }
  assert (∀ x, callback (nodes s2 x) = callback (nodes s x)) as Hcb.
  { intros x. unfold s2. destruct (decide (x = q)) as [->|]; [by rewrite put_node_eq|by rewrite put_node_ne]. }
  assert (∀ x, x ≠ q → link s2 x = link s x) as Hl by (intros x Hx; unfold link, s2; by rewrite put_node_ne).
  pose proof ND as ND'. apply list.NoDup_app in ND' as (NDf & NDft & NDt). apply list.NoDup_app in NDt as (NDl & NDl2 & NDq).
  apply list.NoDup_cons in NDq as [Hq2 NDq].
  split; [|split_and!; try done].
  split.
  - cbn [pfree]. rewrite <- app_assoc. cbn [app]. rewrite Ep in Ht. eapply clist_relink; [exact Ht| |].
    + replace (link _ q) with (pfree s) by (unfold link; cbn [nodes]; unfold s2; by rewrite put_node_eq).
      eapply clist_ext; [exact Hf|]. intros x Hx. apply Hl. intros ->. apply (NDft q Hx). apply elem_of_app. right. by apply elem_of_cons; left.
    + intros x Hx. apply Hl. intros ->. apply (NDl2 q Hx). by apply elem_of_cons; left.
  - cbn [ptimer]. eapply clist_ext; [exact (clist_cut _ _ _ _ _ Ht)|]. intros x Hx. apply Hl. by intros ->.
  - assert (((l ++ [q]) ++ fl) ++ l2 ≡ₚ fl ++ l ++ q :: l2) as -> by solve_Permutation. done.
  - rewrite cons_middle, app_assoc in Hs. apply sorted_tail in Hs. clear - Hs Hd.
    induction Hs as [|x k Hs IH Hx]; constructor; [done|]. rewrite list.Forall_forall in *. intros y Hy.
    unfold due in *. cbn [nodes] in *. rewrite !Hd. by apply Hx.
Qed.

Definition put_rest (e : E) s : timers E := mk_timers (pfree s) (ptimer s) (nodes s) (clock s) e.

(** Sorted timers: the expired ones are in front. *)
Lemma expired_split s l1 l2 :
  StronglySorted (λ a b, due s a ≤ due s b) (l1 ++ l2) → Forall (λ a, due s a ≤ clock s) l1 →
  match l2 with [] => True | a :: _ => clock s < due s a end →
  filter (λ a, due s a ≤ clock s) (l1 ++ l2) = l1 ∧ filter (λ a, clock s < due s a) (l1 ++ l2) = l2.
Proof.
  intros Hs H1 H2. assert (Forall (λ a, clock s < due s a) l2) as HF.
  { apply sorted_tail in Hs. destruct l2 as [|a l2]; [done|]. apply StronglySorted_inv in Hs as [_ Ha]. constructor; [done|].
    eapply list.Forall_impl; [exact Ha|]. simpl. lia. }
  clear Hs H2. induction H1 as [|x l1 Hx H1 IH]; cbn [app].
  - induction HF as [|y l2 Hy HF IH]; [done|]. destruct IH as [E1 E2].
    rewrite filter_cons_False, filter_cons_True, E1, E2 by lia. done.
  - destruct IH as [E1 E2]. rewrite filter_cons_True, filter_cons_False, E1, E2 by lia. done.
Qed.

End timers_ok.

Section run.
Context {E : Type} (call : Z → Z → M (timers E) unit) (upd : Z → Z → E → E).
Context (call_rest : ∀ f now s, call f now s = Ret tt (put_rest (upd f now (rest s)) s)).
Implicit Types s : timers E.

Definition fired s (e : E) (a : Z) : E := upd (callback (nodes s a)) (clock s) e.

Lemma call_all_run l s s0 :
  (∀ a, callback (nodes s0 a) = callback (nodes s a)) → clock s0 = clock s →
  call_all call ((λ a, callback (nodes s a)) <$> l) s0 = Ret tt (put_rest (foldl (fired s) (rest s0) l) s0).
Proof.
  intros Hc Hk. revert s0 Hc Hk. induction l as [|a l IH]; intros s0 Hc Hk; cbn [fmap list_fmap call_all foldl]; [by destruct s0|].
  erewrite bind_ret by reflexivity. rewrite (bind_ret _ _ _ _ _ (call_rest _ _ s0)). rewrite IH by done.
  cbn [rest put_rest]. unfold fired at 2. by rewrite Hk.
Qed.

Lemma fired_same s s' e l :
  (∀ a, callback (nodes s' a) = callback (nodes s a)) → clock s' = clock s → foldl (fired s') e l = foldl (fired s) e l.
Proof.
  intros Hc Hk. revert e. induction l as [|a l IH]; intros e; [done|]. cbn [foldl]. rewrite IH. unfold fired at 2 4. by rewrite Hc, Hk.
Qed.


End run.

(** ** Initialisation *)

Section init.
Context {E : Type} (timerbuf : nat → Z).
Context (timerbuf_inj : ∀ i j, timerbuf i = timerbuf j → i = j) (timerbuf_nonzero : ∀ i, timerbuf i ≠ 0).
Implicit Types s : timers E.

Lemma thread_run n i s :
  ∃ s', for_range n i (λ i, set_pnext (timerbuf i) (timerbuf (S i))) s = Ret tt s' ∧
    (∀ j, (i ≤ j < i + n)%nat → link s' (timerbuf j) = timerbuf (S j)) ∧
    (∀ j, (j < i ∨ i + n ≤ j)%nat → link s' (timerbuf j) = link s (timerbuf j)).
Proof.
  revert i s. induction n as [|n IH]; intros i s; cbn [for_range].
  - exists s. split; [done|]. split; [lia|done].
  - rewrite (bind_ret _ _ _ _ _ (set_pnext_run (timerbuf i) _ s)). set (s1 := put_node _ _ s).
    destruct (IH (S i) s1) as (s' & Er & Hin & Hout). exists s'. split; [done|]. split.
    + intros j Hj. destruct (decide (j = i)) as [->|]; [|apply Hin; lia]. rewrite Hout by lia.
      unfold link, s1. by rewrite put_node_eq.
    + intros j Hj. rewrite Hout by lia. unfold link, s1. rewrite put_node_ne; [done|]. intros ?%timerbuf_inj. lia.
Qed.

Lemma clist_seq (lk : Z → Z) n i :
  (∀ j, (i ≤ j < i + n)%nat → lk (timerbuf j) = if decide (S j = i + n)%nat then 0 else timerbuf (S j)) →
  clist lk (if decide (n = 0%nat) then 0 else timerbuf i) (timerbuf <$> seq i n).
Proof.
  revert i. induction n as [|n IH]; intros i Hl; [done|]. rewrite decide_False by lia. cbn [seq fmap list_fmap].
  apply clist_intro; [done|]. rewrite Hl by lia. destruct (decide (S i = i + S n)%nat).
  - assert (n = 0%nat) as -> by lia. done.
  - specialize (IH (S i)). rewrite decide_False in IH by lia. apply IH. intros j Hj. rewrite Hl by lia.
    by replace (i + S n)%nat with (S i + n)%nat by lia.
Qed.

(** After [init_timer] every node of the buffer is free and no timer is set. *)
Theorem init_timer_correct s :
  ∃ s', init_timer timerbuf s = Ret 0 s' ∧ timers_ok s' (timerbuf <$> seq 0 NR_TIMER_BUF) [].
Proof.
  unfold init_timer. destruct (thread_run (NR_TIMER_BUF - 1) 0 s) as (s1 & Er & Hin & Hout). rewrite (bind_ret _ _ _ _ _ Er).
  rewrite (bind_ret _ _ _ _ _ (set_pnext_run _ 0 s1)). set (s2 := put_node _ _ s1).
  eexists. split; [reflexivity|]. split; cbn [pfree ptimer].
  - pose proof (clist_seq (link s2) NR_TIMER_BUF 0) as Hc. rewrite decide_False in Hc by done. apply Hc. intros j Hj.
    unfold NR_TIMER_BUF in *. unfold link, s2. destruct (decide (S j = 0 + 16)%nat) as [Ej|].
    + replace j with (16 - 1)%nat by lia. by rewrite put_node_eq.
    + rewrite put_node_ne by (intros ?%timerbuf_inj; lia). apply Hin. lia.
  - done.
  - rewrite app_nil_r. apply NoDup_fmap; [intros i j; apply timerbuf_inj|apply NoDup_ListNoDup, seq_NoDup].
  - constructor.
Qed.

End init.

(** ** Examples *)

(** Nodes 24 bytes apart; the rest of the machine is a log of the calls. *)
Definition sample_buf (i : nat) : Z := 0x10000 + 24 * Z.of_nat i.
Definition sample_call (f now : Z) : M (timers (list Z)) unit := modify (λ s, put_rest (rest s ++ [f]) s).

Lemma init_timer_correct_witness :
  ∃ s', init_timer sample_buf (mk_timers 0 0 (λ _, mk_timeout 0 0 0) 1000 ([] : list Z)) = Ret 0 s' ∧
    timers_ok s' (sample_buf <$> seq 0 16) [].
Proof.
  apply (init_timer_correct sample_buf).
  - intros i j. unfold sample_buf. lia.
  - intros i. unfold sample_buf. lia.
Defined.

(** Two timers, at 1005 and 1010. *)
Definition two_timers : timers (list Z) :=
  mk_timers 0 0x100 (λ a, if a =? 0x100 then mk_timeout 0x200 1005 7 else mk_timeout 0 1010 8) 1007 [].

Lemma two_timers_ok : timers_ok two_timers [] [0x100; 0x200].
Proof.
  split; try done.
  - repeat (apply clist_intro; [done|]). done.
  - repeat constructor; rewrite ?elem_of_cons, ?elem_of_nil; try tauto; lia.
  - repeat constructor. unfold due, two_timers. cbn. lia.
Qed.

Lemma set_timeout_correct_witness :
  ∃ s', set_timeout (λ _ e, Ret 0x300 e) 5 1 9 two_timers = Ret 0 s' ∧
    ∃ p fl', timers_ok s' fl' (insert_timer (due two_timers) 1008 p [0x100; 0x200]).
Proof.
  destruct (set_timeout_correct (λ _ e, Ret 0x300 e) 5 1 9 two_timers [] [0x100; 0x200] two_timers_ok)
    as (r & s' & Er & [(Hr & _)|(-> & p & fl' & HT & _)]).
  - simpl. lia.
  - intros _. right. rewrite !elem_of_cons, elem_of_nil. lia.
  - exfalso. assert (ret_val (set_timeout (λ _ e, Ret 0x300 e) 5 1 9 two_timers) = Some 0) as Ev by (vm_compute; reflexivity).
    rewrite Er in Ev. cbn in Ev. rewrite Hr in Ev. discriminate Ev.
  - exists s'. split; [exact Er|]. exists p, fl'. exact HT.
Defined.

