(* ===== verification/Printk.v ===== *)
(** * Formatted output (kernel/printk.c)

    [number] and [vsprintf] as functions from a format and arguments to the characters
    written; characters are their codes.  The strings handed to the screen are the
    result, drawing them is not modelled. *)

From Stdlib Require Import Lia ZArith.
From stdpp Require Import base list numbers option.
From S2P Require Import Prelude.

#[local] Open Scope Z_scope.
#[local] Open Scope yaos_scope.

Definition ZEROPAD : Z := 1.
Definition SIGN : Z := 2.
Definition PLUS : Z := 4.
Definition SPACE : Z := 8.
Definition LEFT : Z := 16.
Definition SMALL : Z := 32.
Definition SPECIAL : Z := 64.

(** [flags & bit] as a condition. *)
Definition has (flags bit : Z) : bool := negb (flags .& bit =? 0).

Definition isdigit (ch : Z) : bool := (48 <=? ch) && (ch <=? 57).

(** The character at the front of a format, NUL at its end. *)
Definition cur (fmt : list Z) : Z := match fmt with [] => 0 | c :: _ => c end.

(** [skip_atoi]: the number and the rest. *)
Fixpoint skip_from (i : Z) (s : list Z) : Z * list Z :=
  match s with
  | [] => (i, [])
  | c :: s' => if isdigit c then skip_from (s32 (i * 10 + c - 48)) s' else (i, s)
  end.
Definition skip_atoi (s : list Z) : Z * list Z := skip_from 0 s.

(** ** Numbers *)

Definition digits : list Z := [48; 49; 50; 51; 52; 53; 54; 55; 56; 57; 65; 66; 67; 68; 69; 70].
Definition digit (d : Z) : Z := nth (Z.to_nat d) digits 0.

(** [while (num != 0) tmp[i++] = digits[__do_div(num, base)] | locase;] on the unsigned
    number: [tmp], the last digit first. *)
Fixpoint fill_tmp (fuel : nat) (num base locase : Z) : list Z :=
  match fuel with
  | O => []
  | S fuel =>
      if num =? 0 then [] else
      (digit (num mod base) .| locase) :: fill_tmp fuel (num / base) base locase
  end.

Definition repeat_char (n c : Z) : list Z := replicate (Z.to_nat n) c.

(** [while (size-- > 0) *str++ = c;]: what is written, and [size] behind the loop. *)
Definition pad (size c : Z) : list Z * Z :=
  (repeat_char size c, (if 0 <? size then 0 else size) - 1).

(** The sign to show and what is left of the number and of the size. *)
Definition sign_of (num size type : Z) : list Z * Z * Z :=
  if has type SIGN then
    if num <? 0 then ([45], s64 (- num), size - 1)
    else if has type PLUS then ([43], num, size - 1)
    else if has type SPACE then ([32], num, size - 1)
    else ([], num, size)
  else ([], num, size).

Definition number (num base size precision type : Z) : option (list Z) :=
  let locase := type .& SMALL in
  let type := if has type LEFT then type .& Z.lnot ZEROPAD else type in
  if (base <? 2) || (16 <? base) then None else
  let c := if has type ZEROPAD then 48 else 32 in
  let '(sign, num, size) := sign_of num size type in
  let size := if has type SPECIAL then (if base =? 16 then size - 2 else if base =? 8 then size - 1 else size) else size in
  let tmp := if num =? 0 then [48] else fill_tmp 64 (u64 num) base locase in
  let i := Z.of_nat (length tmp) in
  let precision := if precision <? i then i else precision in
  let size := size - precision in
  let '(s1, size) := if has type (ZEROPAD + LEFT) then ([], size) else pad size 32 in
  let prefix := if has type SPECIAL then
      (if base =? 8 then [48] else if base =? 16 then [48; 88 .| locase] else []) else [] in
  let '(s2, size) := if has type LEFT then ([], size) else pad size c in
  let s3 := repeat_char (precision - i) 48 in
  let '(s4, _) := pad size 32 in
  Some (s1 ++ sign ++ prefix ++ s2 ++ s3 ++ rev tmp ++ s4).

(** ** Formats *)

(** An argument: a register with a number, or a pointer to a string. *)
Inductive arg : Type := AInt (x : Z) | AStr (s : list Z).

(** What was written, the arguments to come, and what [%n] stored where. *)
Record vstate : Type := mk_v { str : list Z; args : list arg; stores : list (Z * Z) }.

Definition emit (l : list Z) : M vstate unit := modify (λ s, mk_v (str s ++ l) (args s) (stores s)).

(** [va_arg]: a number or a string; behind the last argument there is nothing. *)
Definition va_int : M vstate Z :=
  l ← gets args;
  match l with
  | AInt x :: l => modify (λ s, mk_v (str s) l (stores s)) ;; mret x
  | _ => fault
  end.
Definition va_str : M vstate (list Z) :=
  l ← gets args;
  match l with
  | AStr x :: l => modify (λ s, mk_v (str s) l (stores s)) ;; mret x
  | _ => fault
  end.

(** From the label repeat on: the flags and the rest of the format. *)
Fixpoint get_flags (fmt : list Z) (flags : Z) : Z * list Z :=
  match fmt with
  | [] => (flags, [])
  | c :: rest =>
      if c =? 45 then get_flags rest (flags .| LEFT) else
      if c =? 43 then get_flags rest (flags .| PLUS) else
      if c =? 32 then get_flags rest (flags .| SPACE) else
      if c =? 35 then get_flags rest (flags .| SPECIAL) else
      if c =? 48 then get_flags rest (flags .| ZEROPAD) else (flags, fmt)
  end.

Definition get_width (fmt : list Z) (flags : Z) : M vstate (Z * Z * list Z) :=
  if isdigit (cur fmt) then let '(w, rest) := skip_atoi fmt in mret (w, flags, rest)
  else if cur fmt =? 42 then
    x ← va_int;
    let w := s32 x in
    mret (if w <? 0 then (s32 (- w), flags .| LEFT, tail fmt) else (w, flags, tail fmt))
  else mret (-1, flags, fmt).

Definition get_precision (fmt : list Z) : M vstate (Z * list Z) :=
  if cur fmt =? 46 then
    let fmt := tail fmt in
    r ← (if isdigit (cur fmt) then mret (skip_atoi fmt)
         else if cur fmt =? 42 then x ← va_int; mret (s32 x, tail fmt)
         else mret (-1, fmt));
    let '(p, rest) := r in
    mret (if p <? 0 then 0 else p, rest)
  else mret (-1, fmt).

Definition get_qualifier (fmt : list Z) : Z * list Z :=
  let c := cur fmt in
  if (c =? 104) || (c =? 108) || (c =? 76) then (c, tail fmt) else (-1, fmt).

(** [%c], [%s] and the numbers. *)
Definition put_char (flags field_width : Z) : M vstate unit :=
  let '(s1, w) := if has flags LEFT then ([], field_width) else pad (field_width - 1) 32 in
  x ← va_int;
  emit (s1 ++ [u8 x] ++ fst (pad (w - 1) 32)).

(** [strnlen(s, precision)], [precision] taken as [size_t]. *)
Definition str_len (s : list Z) (precision : Z) : Z := Z.min (Z.of_nat (length s)) (u64 precision).

Definition put_string (flags field_width precision : Z) : M vstate unit :=
  s ← va_str;
  let len := str_len s precision in
  let '(s1, w) := if has flags LEFT then ([], field_width) else
    let '(l, r) := pad (field_width - len) 32 in (l, len + r) in
  emit (s1 ++ take (Z.to_nat len) s ++ fst (pad (w - len) 32)).

Definition put_number (num base field_width precision flags : Z) : M vstate unit :=
  l ← deref (number (s64 num) base field_width precision flags);
  emit l.

(** The argument of an integer conversion. *)
Definition get_num (qualifier flags : Z) : M vstate Z :=
  x ← va_int;
  mret (if qualifier =? 108 then u64 x
        else if qualifier =? 104 then
          (if has flags SIGN then u64 (signed 16 (u16 x)) else u16 x)
        else if has flags SIGN then u64 (s32 x)
        else u32 x).

(** The [switch] on the conversion character; the result is the rest of the format. *)
Definition convert (fmt : list Z) (flags field_width precision qualifier : Z) : M vstate (list Z) :=
  let c := cur fmt in
  let int base flags :=
    num ← get_num qualifier flags;
    put_number num base field_width precision flags ;;
    mret (tail fmt) in
  if c =? 99 then put_char flags field_width ;; mret (tail fmt) else
  if c =? 115 then put_string flags field_width precision ;; mret (tail fmt) else
  if c =? 112 then
    let '(w, flags) := if field_width =? -1 then (16, flags .| ZEROPAD) else (field_width, flags) in
    x ← va_int;
    put_number (u64 x) 16 w precision flags ;; mret (tail fmt) else
  if c =? 110 then
    p ← va_int;
    modify (λ s, mk_v (str s) (args s) ((p, Z.of_nat (length (str s))) :: stores s)) ;; mret (tail fmt) else
  if c =? 37 then emit [37] ;; mret (tail fmt) else
  if c =? 111 then int 8 flags else
  if c =? 120 then int 16 (flags .| SMALL) else
  if c =? 88 then int 16 flags else
  if (c =? 100) || (c =? 105) then int 10 (flags .| SIGN) else
  if c =? 117 then int 10 flags else
  match fmt with
  | [] => emit [37] ;; mret []
  | c :: rest => emit [37; c] ;; mret rest
  end.

(** One conversion, from behind the percent sign on. *)
Definition conversion (fmt : list Z) : M vstate (list Z) :=
  let '(flags, fmt) := get_flags fmt 0 in
  r ← get_width fmt flags;
  let '(field_width, flags, fmt) := r in
  r ← get_precision fmt;
  let '(precision, fmt) := r in
  let '(qualifier, fmt) := get_qualifier fmt in
  convert fmt flags field_width precision qualifier.

Fixpoint format (fuel : nat) (fmt : list Z) : M vstate unit :=
  match fuel with
  | O => out_of_fuel
  | S fuel =>
      match fmt with
      | [] => mret tt
      | c :: rest =>
          if negb (c =? 37) then emit [c] ;; format fuel rest
          else fmt ← conversion rest; format fuel fmt
      end
  end.

(** The characters written, without the NUL, the count returned, and the stores. *)
Definition vsprintf (fmt : list Z) (args : list arg) : outcome vstate Z :=
  (format (S (length fmt)) fmt ;; gets (λ s, Z.of_nat (length (str s)))) (mk_v [] args []).
Definition sprintf : list Z → list arg → outcome vstate Z := vsprintf.

(** [printk] draws the buffer on the screen. *)
Definition printk (fmt : list Z) (args : list arg) : option (list Z * Z) :=
  match vsprintf fmt args with Ret n s => Some (str s, n) | _ => None end.

Definition printf : list Z → list arg → option (list Z * Z) := printk.

(** [printk_color] also hands on the two colours; [panic] prints and halts. *)
Definition printk_color (back fore : Z) (fmt : list Z) (args : list arg) : option (Z * Z * list Z * Z) :=
  match vsprintf fmt args with Ret n s => Some (back, fore, str s, n) | _ => None end.
Definition panic_text (fmt : list Z) (args : list arg) : option (list Z) := fst <$> printk fmt args.

(** ** Reading a number back *)

Definition digit_value (c : Z) : Z :=
  if isdigit c then c - 48 else if (65 <=? c) && (c <=? 70) then c - 55 else c - 87.

(** The value of a string of digits, and of the same digits the last one first. *)
Definition read_number (base : Z) (l : list Z) : Z := foldl (λ n c, n * base + digit_value c) 0 l.
Fixpoint read_rev (base : Z) (l : list Z) : Z :=
  match l with [] => 0 | c :: l => digit_value c + base * read_rev base l end.

Lemma read_number_rev base l : read_number base (rev l) = read_rev base l.
Proof.
  unfold read_number. induction l as [|c l IH]; [done|]. cbn [rev read_rev]. rewrite foldl_app, IH. cbn. lia.
Qed.

Lemma digit_value_ok d locase :
  0 ≤ d < 16 → locase = 0 ∨ locase = 32 → digit_value (digit d .| locase) = d ∧ (digit d .| locase = 48 ↔ d = 0).
Proof.
  intros Hd Hl.
  assert (forallb (λ n, forallb (λ lo, let d := Z.of_nat n in let c := digit d .| lo in
    (digit_value c =? d) && Bool.eqb (c =? 48) (d =? 0)) [0; 32]) (seq 0 16) = true) as HF by (vm_compute; reflexivity).
  rewrite forallb_forall in HF. specialize (HF (Z.to_nat d) ltac:(apply in_seq; lia)).
  rewrite forallb_forall in HF. specialize (HF locase ltac:(simpl; lia)). cbv zeta in HF. rewrite Z2Nat.id in HF by lia.
  apply andb_true_iff in HF as [H1 H2]. apply Z.eqb_eq in H1. apply Bool.eqb_prop in H2. split; [done|].
  by rewrite <- !Z.eqb_eq, H2.
Qed.

Lemma fill_tmp_value fuel num base locase :
  2 ≤ base ≤ 16 → locase = 0 ∨ locase = 32 → 0 ≤ num < base ^ Z.of_nat fuel →
  read_rev base (fill_tmp fuel num base locase) = num.
Proof.
  intros Hb Hl. revert num. induction fuel as [|fuel IH]; intros num Hn; cbn [fill_tmp].
  - simpl in *. change (base ^ 0) with 1 in Hn. lia.
  - destruct (Z.eqb_spec num 0) as [->|]; [done|]. cbn [read_rev].
    pose proof (Z.mod_pos_bound num base ltac:(lia)). destruct (digit_value_ok (num mod base) locase ltac:(lia) Hl) as [-> _].
    rewrite IH; [pose proof (Z.div_mod num base ltac:(lia)); lia|]. split; [apply Z.div_pos; lia|].
    apply Z.div_lt_upper_bound; [lia|]. rewrite Nat2Z.inj_succ, Z.pow_succ_r in Hn by lia. lia.
Qed.

Lemma fill_tmp_last fuel num base locase :
  2 ≤ base ≤ 16 → locase = 0 ∨ locase = 32 → 0 < num < base ^ Z.of_nat fuel →
  ∃ l c, fill_tmp fuel num base locase = l ++ [c] ∧ c ≠ 48.
Proof.
  intros Hb Hl. revert num. induction fuel as [|fuel IH]; intros num Hn; cbn [fill_tmp].
  - change (base ^ Z.of_nat 0) with 1 in Hn. lia.
  - rewrite (proj2 (Z.eqb_neq num 0)) by lia. destruct (decide (num < base)) as [Hlt|Hge].
    + rewrite (Z.mod_small num base) by lia. rewrite (Z.div_small num base) by lia.
      exists [], (digit num .| locase). split; [by destruct fuel|].
      destruct (digit_value_ok num locase ltac:(lia) Hl) as [_ Hz]. intros E. apply Hz in E. lia.
    + destruct (IH (num / base)) as (l & c & E & Hc).
      { split; [apply Z.div_str_pos; lia|]. apply Z.div_lt_upper_bound; [lia|].
        rewrite Nat2Z.inj_succ, Z.pow_succ_r in Hn by lia. lia. }
      rewrite E. by exists ((digit (num mod base) .| locase) :: l), c.
Qed.

(** The digits of a number of 64 bits. *)
Definition tmp_of (num base locase : Z) : list Z := if num =? 0 then [48] else fill_tmp 64 (u64 num) base locase.

Lemma tmp_of_ok num base locase :
  2 ≤ base ≤ 16 → locase = 0 ∨ locase = 32 → - 2 ^ 63 ≤ num < 2 ^ 63 →
  read_number base (rev (tmp_of num base locase)) = u64 num ∧
  (rev (tmp_of num base locase) = [48] ∨ ∃ c l, rev (tmp_of num base locase) = c :: l ∧ c ≠ 48).
Proof.
  intros Hb Hl Hn. unfold tmp_of. destruct (Z.eqb_spec num 0) as [->|Hz]; [split; [done|by left]|].
  assert (0 < u64 num < 2 ^ 64) as Hu.
  { pose proof (u64_range num) as [? ?]. split; [|done]. destruct (decide (u64 num = 0)) as [E|]; [|lia].
    unfold u64, wrap in E. apply Z.mod_divide in E as [k Ek]; lia. }
  assert (2 ^ 64 ≤ base ^ Z.of_nat 64) as Hp by (apply Z.pow_le_mono_l; lia).
  split; [rewrite read_number_rev; apply fill_tmp_value; [done|done|lia]|right].
  destruct (fill_tmp_last 64 (u64 num) base locase Hb Hl ltac:(lia)) as (l & c & -> & Hc).
  rewrite rev_app_distr. by exists c, (rev l).
Qed.

(** ** Flags *)

Lemma has_bit flags k : 0 ≤ k → has flags (2 ^ k) = Z.testbit flags k.
Proof.
  intros Hk. unfold has. destruct (Z.testbit flags k) eqn:E.
  - apply negb_true_iff, Z.eqb_neq. intros E0. apply (f_equal (λ x, Z.testbit x k)) in E0.
    rewrite Z.land_spec, E, Z.pow2_bits_true, Z.testbit_0_l in E0 by lia. done.
  - apply negb_false_iff, Z.eqb_eq. apply Z.bits_inj. intros j. rewrite Z.land_spec, Z.testbit_0_l, Z.pow2_bits_eqb by lia.
    destruct (Z.eqb_spec k j) as [->|]; [by rewrite E|apply andb_false_r].
Qed.

Lemma has_two flags a b : has flags (a .| b) = has flags a || has flags b.
Proof.
  unfold has. rewrite Z.land_lor_distr_r. destruct (Z.eqb_spec (flags .& a) 0) as [E|E], (Z.eqb_spec (flags .& b) 0) as [E'|E']; simpl.
  - by rewrite E, E'.
  - rewrite E, Z.lor_0_l. by rewrite (proj2 (Z.eqb_neq _ 0) E').
  - rewrite E', Z.lor_0_r. by rewrite (proj2 (Z.eqb_neq _ 0) E).
  - assert (flags .& a .| (flags .& b) ≠ 0) as Hn by (intros [? _]%Z.lor_eq_0_iff; done).
    by rewrite (proj2 (Z.eqb_neq _ 0) Hn).
Qed.

(** The flags behind [if (type & LEFT) type &= ~ZEROPAD]. *)
Definition type_of (type : Z) : Z := if has type LEFT then type .& Z.lnot ZEROPAD else type.

Lemma type_of_bit type k : 0 < k → Z.testbit (type_of type) k = Z.testbit type k.
Proof.
  intros Hk. unfold type_of. destruct (has type LEFT); [|done]. rewrite Z.land_spec, Z.lnot_spec by lia.
  change ZEROPAD with (2 ^ 0). rewrite Z.pow2_bits_false by lia. apply andb_true_r.
Qed.

Lemma type_of_has type bit k : bit = 2 ^ k → 0 < k → has (type_of type) bit = has type bit.
Proof. intros -> Hk. rewrite !has_bit by lia. by apply type_of_bit. Qed.

Lemma type_of_zeropad type : has type LEFT = true → has (type_of type) ZEROPAD = false.
Proof.
  intros HL. unfold type_of. rewrite HL. change ZEROPAD with (2 ^ 0). rewrite has_bit by lia.
  rewrite Z.land_spec, Z.lnot_spec, Z.pow2_bits_true by lia. apply andb_false_r.
Qed.

(** ** The layout of a number *)

Definition spaces (n : Z) : list Z := repeat_char n 32.
Definition zeros (n : Z) : list Z := repeat_char n 48.

Definition prefix_of (base type : Z) : list Z :=
  if has type SPECIAL then (if base =? 8 then [48] else if base =? 16 then [48; 88 .| (type .& SMALL)] else []) else [].

Lemma pad_neg size c : size ≤ 0 → pad size c = ([], size - 1).
Proof. intros Hs. unfold pad, repeat_char. replace (Z.to_nat size) with O by lia. destruct (Z.ltb_spec 0 size); [lia|done]. Qed.

Lemma pad_after size c : snd (pad size c) ≤ 0.
Proof. unfold pad. simpl. destruct (Z.ltb_spec 0 size); lia. Qed.

Lemma fst_pad size c : fst (pad size c) = repeat_char size c.
Proof. done. Qed.

(** What [number] writes, with [w] the characters that are missing to the width: on the left
    as spaces or behind the prefix as zeros, or on the right. *)
Lemma number_layout num base size precision type sign n sz :
  2 ≤ base ≤ 16 → sign_of num size (type_of type) = (sign, n, sz) →
  let ds := rev (tmp_of n base (type .& SMALL)) in
  let p := Z.max precision (Z.of_nat (length ds)) in
  let w := sz - (if has type SPECIAL then Z.of_nat (length (prefix_of base type)) else 0) - p in
  number num base size precision type = Some (
    (if has type LEFT || has (type_of type) ZEROPAD then [] else spaces w) ++ sign ++ prefix_of base type ++
    (if has (type_of type) ZEROPAD then zeros w else []) ++ zeros (p - Z.of_nat (length ds)) ++ ds ++
    (if has type LEFT then spaces w else [])).
Proof.
  intros Hb Hs. cbv zeta. unfold number. fold (type_of type).
  assert (has (type_of type) SPECIAL = has type SPECIAL) as -> by by apply (type_of_has type SPECIAL 6).
  assert (has (type_of type) LEFT = has type LEFT) as -> by by apply (type_of_has type LEFT 4).
  change (ZEROPAD + LEFT) with (ZEROPAD .| LEFT). rewrite has_two.
  assert (has (type_of type) LEFT = has type LEFT) as -> by by apply (type_of_has type LEFT 4).
  destruct (Z.ltb_spec base 2); [lia|]. destruct (Z.ltb_spec 16 base); [lia|]. cbn [orb]. rewrite Hs.
  change (if n =? 0 then [48] else fill_tmp 64 (u64 n) base (type .& SMALL)) with (tmp_of n base (type .& SMALL)).
  set (tmp := tmp_of n base (type .& SMALL)). rewrite length_rev.
  assert ((if precision <? Z.of_nat (length tmp) then Z.of_nat (length tmp) else precision) =
    Z.max precision (Z.of_nat (length tmp))) as -> by (destruct (Z.ltb_spec precision (Z.of_nat (length tmp))); lia).
  set (p := Z.max precision (Z.of_nat (length tmp))).
  assert ((if has type SPECIAL then if base =? 16 then sz - 2 else if base =? 8 then sz - 1 else sz else sz) =
    sz - (if has type SPECIAL then Z.of_nat (length (prefix_of base type)) else 0)) as ->.
  { unfold prefix_of. destruct (has type SPECIAL); [|lia]. destruct (Z.eqb_spec base 16) as [E16|], (Z.eqb_spec base 8); simpl; lia. }
  fold (prefix_of base type). set (w := sz - _ - p). clearbody w.
  destruct (has type LEFT) eqn:HL.
  - rewrite (type_of_zeropad type HL). cbn [orb]. unfold pad. cbn [fst app]. done.
  - rewrite orb_false_r. destruct (has (type_of type) ZEROPAD) eqn:HZ; cbn [orb].
    + unfold pad at 1. rewrite (pad_neg _ 32) by (pose proof (pad_after w 48); done). done.
    + unfold pad at 1. rewrite (pad_neg _ 32) by (pose proof (pad_after w 32); done).
      rewrite (pad_neg _ 32); [done|]. destruct (Z.ltb_spec 0 w); lia.
Qed.

Lemma small_bit type : type .& SMALL = 0 ∨ type .& SMALL = 32.
Proof.
  change SMALL with (2 ^ 5). destruct (Z.testbit type 5) eqn:E; [right|left]; apply Z.bits_inj; intros j;
    rewrite Z.land_spec, Z.pow2_bits_eqb by lia; [change 32 with (2 ^ 5); rewrite Z.pow2_bits_eqb by lia|rewrite Z.testbit_0_l];
    destruct (Z.eqb_spec 5 j) as [<-|]; rewrite ?E; auto using andb_false_r.
Qed.

(** The sign and the number without it. *)
Lemma sign_of_ok num size type :
  - 2 ^ 63 ≤ num < 2 ^ 63 →
  ∃ sign n, sign_of num size type = (sign, n, size - Z.of_nat (length sign)) ∧ - 2 ^ 63 ≤ n < 2 ^ 63 ∧
    u64 n = (if has type SIGN then Z.abs num else u64 num) ∧ (sign = [45] ↔ has type SIGN = true ∧ num < 0).
Proof.
  intros Hn. unfold sign_of. destruct (has type SIGN).
  2: { exists [], num. split; [f_equal; simpl; lia|]. split; [done|]. split; [done|]. split; [done|]. by intros [? _]. }
  destruct (Z.ltb_spec num 0) as [Hneg|Hpos].
  - exists [45], (s64 (- num)). assert (- 2 ^ 63 ≤ s64 (- num) < 2 ^ 63 ∧ u64 (s64 (- num)) = - num) as [Hr Hu].
    { destruct (decide (num = - 2 ^ 63)) as [->|]; [by vm_compute|]. rewrite s64_id by lia. rewrite u64_id by (unfold in_u; lia). lia. }
    split; [f_equal; simpl; lia|]. split; [done|]. split; [rewrite Hu; lia|done].
  - assert (u64 num = Z.abs num) as Hu by (rewrite u64_id by (unfold in_u; lia); lia).
    assert (∀ c, c ≠ 45 → [c] = [45] ↔ true = true ∧ num < 0) as Hs by (intros c Hc; split; [by intros [= ?]|lia]).
    destruct (has type PLUS); [|destruct (has type SPACE)].
    + exists [43], num. split; [f_equal; simpl; lia|]. split; [done|]. split; [done|]. by apply Hs.
    + exists [32], num. split; [f_equal; simpl; lia|]. split; [done|]. split; [done|]. by apply Hs.
    + exists [], num. split; [f_equal; simpl; lia|]. split; [done|]. split; [done|]. split; [done|lia].
Qed.

Lemma repeat_char_length n c : Z.of_nat (length (repeat_char n c)) = Z.max 0 n.
Proof. unfold repeat_char. rewrite length_replicate. lia. Qed.

Lemma zeros_app a b : 0 ≤ b → zeros a ++ zeros b = zeros (Z.max 0 a + b).
Proof.
  intros Hb. unfold zeros, repeat_char. rewrite <- replicate_add. f_equal. lia.
Qed.

Lemma number_spec num base size precision type :
  2 ≤ base ≤ 16 → - 2 ^ 63 ≤ num < 2 ^ 63 →
  ∃ l sign z ds r,
    number num base size precision type = Some (spaces l ++ sign ++ prefix_of base type ++ zeros z ++ ds ++ spaces r) ∧
    read_number base ds = (if has type SIGN then Z.abs num else u64 num) ∧
    (ds = [48] ∨ ∃ c k, ds = c :: k ∧ c ≠ 48) ∧
    (sign = [45] ↔ has type SIGN = true ∧ num < 0) ∧
    0 ≤ l ∧ 0 ≤ z ∧ 0 ≤ r ∧ (has type LEFT = true → l = 0) ∧ (has type LEFT = false → r = 0) ∧
    l + Z.of_nat (length sign) + Z.of_nat (length (prefix_of base type)) + z + Z.of_nat (length ds) + r =
      Z.max size (Z.of_nat (length sign) + Z.of_nat (length (prefix_of base type)) + Z.max precision (Z.of_nat (length ds))).
Proof.
  intros Hb Hn. destruct (sign_of_ok num size (type_of type) Hn) as (sign & n & Es & Hnr & Hu & Hsg).
  pose proof (number_layout num base size precision type sign n _ Hb Es) as HL. cbv zeta in HL. rewrite HL. clear HL.
  rewrite (type_of_has type SIGN 1) in Hu, Hsg by done.
  destruct (tmp_of_ok n base (type .& SMALL) Hb (small_bit type) Hnr) as [Hv Hz]. rewrite Hu in Hv.
  set (ds := rev (tmp_of n base (type .& SMALL))) in *.
  assert ((if has type SPECIAL then Z.of_nat (length (prefix_of base type)) else 0) = Z.of_nat (length (prefix_of base type))) as ->.
  { unfold prefix_of. by destruct (has type SPECIAL). }
  set (w := size - Z.of_nat (length sign) - Z.of_nat (length (prefix_of base type)) - Z.max precision (Z.of_nat (length ds))).
  assert (∀ k, spaces k = spaces (Z.max 0 k)) as Hsp by (intros k; unfold spaces, repeat_char; f_equal; lia).
  set (k := Z.max precision (Z.of_nat (length ds)) - Z.of_nat (length ds)).
  destruct (has type LEFT) eqn:EL; [|destruct (has (type_of type) ZEROPAD) eqn:EZ].
  - rewrite (type_of_zeropad type EL). cbn [orb app]. exists 0, sign, k, ds, (Z.max 0 w). cbn [spaces]. rewrite <- Hsp.
    split_and!; try done; unfold k, w in *; lia.
  - cbn [orb]. exists 0, sign, (Z.max 0 w + k), ds, 0. rewrite <- zeros_app by (unfold k; lia). rewrite <- app_assoc.
    split_and!; try done; unfold k, w in *; lia.
  - cbn [orb app]. exists (Z.max 0 w), sign, k, ds, 0. rewrite <- Hsp.
    split_and!; try done; unfold k, w in *; lia.
Qed.


(** ** Termination *)

(** [m] gives back a format not longer than [n], or lacks an argument. *)
Definition shortens {A} (len : A → nat) (n : nat) (m : M vstate A) : Prop :=
  ∀ s, match m s with Ret a _ => (len a ≤ n)%nat | Faulted => True | _ => False end.

Lemma shortens_bind {A B} (lenA : A → nat) (lenB : B → nat) k n (m : M vstate A) (f : A → M vstate B) :
  shortens lenA k m → (∀ a, (lenA a ≤ k)%nat → shortens lenB n (f a)) → shortens lenB n (m ≫= f).
Proof.
  intros Hm Hf s. specialize (Hm s). unfold mbind, M_bind. destruct (m s) as [a s'| | | | |]; try done. by apply Hf.
Qed.

Lemma shortens_ret {A} (len : A → nat) n a : (len a ≤ n)%nat → shortens len n (mret a).
Proof. by intros Hl s. Qed.

(** Code that does not touch the format. *)
Definition steps {A} (m : M vstate A) : Prop := shortens (λ _, 0%nat) 0 m.

Lemma steps_bind {A B} (len : B → nat) n (m : M vstate A) (f : A → M vstate B) :
  steps m → (∀ a, shortens len n (f a)) → shortens len n (m ≫= f).
Proof. intros Hm Hf. eapply shortens_bind; [exact Hm|auto]. Qed.

Lemma steps_emit l : steps (emit l).
Proof. intros s. simpl. lia. Qed.
Lemma steps_int : steps va_int.
Proof. intros s. unfold va_int, mbind, M_bind, gets. destruct (args s) as [|[x|x] l]; simpl; lia || done. Qed.
Lemma steps_str : steps va_str.
Proof. intros s. unfold va_str, mbind, M_bind, gets. destruct (args s) as [|[x|x] l]; simpl; lia || done. Qed.
Lemma steps_ret {A} (a : A) : steps (mret a).
Proof. by apply shortens_ret. Qed.
Lemma steps_number num base w p flags : steps (put_number num base w p flags).
Proof.
  unfold put_number. apply steps_bind; [|intros; apply steps_emit]. intros s. destruct (number _ _ _ _ _); simpl; [lia|done].
Qed.
Lemma steps_char flags w : steps (put_char flags w).
Proof. unfold put_char. destruct (if has flags LEFT then _ else _). apply steps_bind; [apply steps_int|intros; apply steps_emit]. Qed.
Lemma steps_string flags w p : steps (put_string flags w p).
Proof.
  unfold put_string. apply steps_bind; [apply steps_str|]. intros a. cbv zeta. destruct (if has flags LEFT then _ else _). apply steps_emit.
Qed.

Lemma get_flags_length fmt flags : (length (snd (get_flags fmt flags)) ≤ length fmt)%nat.
Proof.
  revert flags. induction fmt as [|c rest IH]; intros flags; cbn [get_flags]; [simpl; lia|].
  repeat (match goal with |- context [if ?b then _ else _] => destruct b end; [etransitivity; [apply IH|simpl; lia]|]). simpl. lia.
Qed.

Lemma skip_from_length i s : (length (snd (skip_from i s)) ≤ length s)%nat.
Proof.
  revert i. induction s as [|c s IH]; intros i; cbn [skip_from]; [simpl; lia|]. destruct (isdigit c); [|simpl; lia].
  etransitivity; [apply IH|simpl; lia].
Qed.

Lemma tail_length (l : list Z) : (length (tail l) ≤ length l)%nat.
Proof. destruct l; simpl; lia. Qed.

Lemma get_width_shortens fmt flags : shortens (λ r : Z * Z * list Z, length r.2) (length fmt) (get_width fmt flags).
Proof.
  unfold get_width. destruct (isdigit (cur fmt)).
  - pose proof (skip_from_length 0 fmt) as Hl. unfold skip_atoi. destruct (skip_from 0 fmt) as [w rest]. by apply shortens_ret.
  - pose proof (tail_length fmt). destruct (cur fmt =? 42); [|by apply shortens_ret].
    apply steps_bind; [apply steps_int|]. intros x. cbv zeta. by destruct (s32 x <? 0); apply shortens_ret.
Qed.

Lemma get_precision_shortens fmt : shortens (λ r : Z * list Z, length r.2) (length fmt) (get_precision fmt).
Proof.
  unfold get_precision. destruct (cur fmt =? 46); [|by apply shortens_ret].
  apply (shortens_bind (λ r : Z * list Z, length r.2) _ (length fmt)).
  - pose proof (tail_length fmt). destruct (isdigit (cur (tail fmt))).
    + apply shortens_ret. etransitivity; [apply skip_from_length|lia].
    + pose proof (tail_length (tail fmt)). destruct (_ =? 42); [|by apply shortens_ret].
      apply steps_bind; [apply steps_int|]. intros x. apply shortens_ret. simpl. lia.
  - intros [p rest] Hl. by apply shortens_ret.
Qed.

Lemma convert_shortens fmt flags w p q : shortens length (length fmt) (convert fmt flags w p q).
Proof.
  pose proof (tail_length fmt) as Ht.
  assert (∀ m : M vstate unit, steps m → shortens length (length fmt) (m ;; mret (tail fmt))) as HS.
  { intros m Hm. apply steps_bind; [done|]. intros _. by apply shortens_ret. }
  assert (∀ base flags, shortens length (length fmt) (num ← get_num q flags; put_number num base w p flags ;; mret (tail fmt))) as HN.
  { intros base fl. apply steps_bind; [apply steps_bind; [apply steps_int|intros; apply steps_ret]|]. intros num. apply HS, steps_number. }
  unfold convert. cbv zeta.
  destruct (cur fmt =? 99); [apply HS, steps_char|]. destruct (cur fmt =? 115); [apply HS, steps_string|].
  destruct (cur fmt =? 112).
  { destruct (if w =? -1 then _ else _). apply steps_bind; [apply steps_int|]. intros x. apply HS, steps_number. }
  destruct (cur fmt =? 110).
  { apply steps_bind; [apply steps_int|]. intros x. apply HS. intros s. simpl. lia. }
  destruct (cur fmt =? 37); [apply HS, steps_emit|].
  repeat (match goal with |- context [if ?b then num ← _; _ else _] => destruct b; [apply HN|] end).
  destruct fmt as [|c rest]; (apply steps_bind; [apply steps_emit|]; intros _; apply shortens_ret; simpl; lia).
Qed.

Lemma conversion_shortens fmt : shortens length (length fmt) (conversion fmt).
Proof.
  unfold conversion. pose proof (get_flags_length fmt 0) as Hf. destruct (get_flags fmt 0) as [flags fmt1]. simpl in Hf.
  eapply shortens_bind; [apply get_width_shortens|]. intros [[w fl] fmt2] H2. simpl in H2.
  eapply shortens_bind; [apply get_precision_shortens|]. intros [p fmt3] H3. simpl in H3.
  assert (length (snd (get_qualifier fmt3)) ≤ length fmt3)%nat as H4.
  { unfold get_qualifier. destruct (_ || _); [apply tail_length|done]. }
  destruct (get_qualifier fmt3) as [q fmt4]. simpl in H4. intros s. pose proof (convert_shortens fmt4 fl w p q s) as HC.
  destruct (convert fmt4 fl w p q s); try done. lia.
Qed.

Lemma format_total fuel fmt s :
  (length fmt < fuel)%nat → match format fuel fmt s with Ret _ _ | Faulted => True | _ => False end.
Proof.
  revert fmt s. induction fuel as [|fuel IH]; intros fmt s Hf; [lia|]. destruct fmt as [|c rest]; [done|]. cbn [format]. simpl in Hf.
  destruct (negb (c =? 37)); [unfold mbind, M_bind; simpl; apply IH; lia|].
  pose proof (conversion_shortens rest s) as HC. unfold mbind, M_bind. destruct (conversion rest s) as [fmt' s'| | | | |]; try done.
  apply IH. lia.
Qed.

(** [vsprintf] ends on every format string: it returns the count of the characters it
    wrote, or asks for an argument that was not passed. *)
Theorem vsprintf_total fmt args :
  match vsprintf fmt args with Ret n s => n = Z.of_nat (length (str s)) | Faulted => True | _ => False end.
Proof.
  unfold vsprintf. pose proof (format_total (S (length fmt)) fmt (mk_v [] args []) ltac:(lia)) as HF.
  unfold mbind, M_bind. by destruct (format _ _ _).
Qed.

(** ** Formats in use *)

(** The pieces of a format: text, [%d], [%lx], [%s] and [%%], with their arguments. *)
Inductive item : Type := IText (l : list Z) | IDec (x : Z) | IHex (x : Z) | IStr (s : list Z) | IPercent.

Definition item_fmt (i : item) : list Z :=
  match i with
  | IText l => l | IDec _ => [37; 100] | IHex _ => [37; 108; 120] | IStr _ => [37; 115] | IPercent => [37; 37]
  end.
Definition item_args (i : item) : list arg :=
  match i with IDec x | IHex x => [AInt x] | IStr s => [AStr s] | _ => [] end.

(** A number in base ten with its sign, and in base sixteen. *)
Definition show_dec (n : Z) : list Z := (if n <? 0 then [45] else []) ++ rev (tmp_of (Z.abs n) 10 0).
Definition show_hex (n : Z) : list Z := rev (tmp_of (s64 n) 16 32).
Definition item_text (i : item) : list Z :=
  match i with IText l => l | IDec x => show_dec (s32 x) | IHex x => show_hex (u64 x) | IStr s => s | IPercent => [37] end.

Definition item_ok (i : item) : Prop :=
  match i with IText l => 37 ∉ l | IStr s => Z.of_nat (length s) < 2 ^ 64 | _ => True end.

Definition read_int (l : list Z) : Z :=
  match l with 45 :: l => - read_number 10 l | _ => read_number 10 l end.

Lemma fill_tmp_chars fuel n base locase :
  2 ≤ base ≤ 16 → locase = 0 ∨ locase = 32 → Forall (λ c, 48 ≤ c) (fill_tmp fuel n base locase).
Proof.
  intros Hb Hl. revert n. induction fuel as [|fuel IH]; intros n; cbn [fill_tmp]; [constructor|].
  destruct (n =? 0); [constructor|]. constructor; [|done]. pose proof (Z.mod_pos_bound n base ltac:(lia)).
  assert (forallb (λ d, forallb (λ lo, 48 <=? digit (Z.of_nat d) .| lo) [0; 32]) (seq 0 16) = true) as HF by (vm_compute; reflexivity).
  rewrite forallb_forall in HF. specialize (HF (Z.to_nat (n mod base)) ltac:(apply in_seq; lia)).
  rewrite forallb_forall in HF. specialize (HF locase ltac:(simpl; lia)). rewrite Z2Nat.id in HF by lia. by apply Z.leb_le.
Qed.

Lemma read_show_dec n : - 2 ^ 63 < n < 2 ^ 63 → read_int (show_dec n) = n.
Proof.
  intros Hn. destruct (tmp_of_ok (Z.abs n) 10 0 ltac:(lia) ltac:(by left) ltac:(lia)) as [Hv Hz].
  rewrite u64_id in Hv by (unfold in_u; lia). unfold show_dec, read_int. destruct (Z.ltb_spec n 0); cbn [app].
  - rewrite Hv. lia.
  - assert (Forall (λ c, 48 ≤ c) (rev (tmp_of (Z.abs n) 10 0))) as HF.
    { apply Forall_rev. unfold tmp_of. destruct (Z.abs n =? 0); [by repeat constructor|]. apply fill_tmp_chars; [lia|by left]. }
    destruct (rev (tmp_of (Z.abs n) 10 0)) as [|c k] eqn:E; [by destruct Hz as [?|(? & ? & ? & _)]|].
    apply list.Forall_cons in HF as [Hc _]. rewrite Z.abs_eq in Hv by lia. rewrite <- Hv.
    destruct c as [|c|c]; try lia. do 6 (destruct c as [c|c|]; try done).
Qed.

Lemma number_dec n : - 2 ^ 63 < n < 2 ^ 63 → number n 10 (-1) (-1) SIGN = Some (show_dec n).
Proof.
  intros Hn. assert (sign_of n (-1) (type_of SIGN) = (if n <? 0 then [45] else [], Z.abs n, if n <? 0 then -2 else -1)) as Es.
  { unfold sign_of. change (has (type_of SIGN) SIGN) with true. change (has (type_of SIGN) PLUS) with false.
    change (has (type_of SIGN) SPACE) with false. cbv iota. destruct (Z.ltb_spec n 0).
    - rewrite s64_id by lia. f_equal. f_equal. lia.
    - f_equal. f_equal. lia. }
  pose proof (number_layout n 10 (-1) (-1) SIGN _ _ _ ltac:(lia) Es) as HL. cbv zeta in HL. rewrite HL.
  change (has SIGN LEFT || has (type_of SIGN) ZEROPAD) with false. change (has (type_of SIGN) ZEROPAD) with false.
  change (has SIGN SPECIAL) with false. change (has SIGN LEFT) with false. change (SIGN .& SMALL) with 0. change (prefix_of 10 SIGN) with (@nil Z).
  cbv iota. cbn [app]. set (ds := rev (tmp_of (Z.abs n) 10 0)). rewrite app_nil_r. unfold show_dec. fold ds.
  assert (∀ k c, k ≤ 0 → repeat_char k c = []) as Hr by (intros k c Hk; unfold repeat_char; by replace (Z.to_nat k) with O by lia).
  unfold spaces, zeros. rewrite !Hr; [done|lia|destruct (n <? 0); lia].
Qed.

Lemma number_hex x : 0 ≤ x < 2 ^ 64 → number (s64 x) 16 (-1) (-1) SMALL = Some (show_hex x).
Proof.
  intros Hx. pose proof (number_layout (s64 x) 16 (-1) (-1) SMALL [] (s64 x) (-1) ltac:(lia) eq_refl) as HL. cbv zeta in HL. rewrite HL.
  change (has SMALL LEFT || has (type_of SMALL) ZEROPAD) with false. change (has (type_of SMALL) ZEROPAD) with false.
  change (has SMALL SPECIAL) with false. change (has SMALL LEFT) with false. change (SMALL .& SMALL) with 32. change (prefix_of 16 SMALL) with (@nil Z).
  cbv iota. cbn [app]. unfold show_hex. set (ds := rev (tmp_of (s64 x) 16 32)). rewrite app_nil_r.
  assert (∀ k c, k ≤ 0 → repeat_char k c = []) as Hr by (intros k c Hk; unfold repeat_char; by replace (Z.to_nat k) with O by lia).
  unfold spaces, zeros. rewrite !Hr; [done|lia|lia].
Qed.

Lemma format_fuel f1 f2 fmt s :
  (length fmt < f1)%nat → (length fmt < f2)%nat → format f1 fmt s = format f2 fmt s.
Proof.
  revert f2 fmt s. induction f1 as [|f1 IH]; intros [|f2] fmt s H1 H2; try lia. destruct fmt as [|c rest]; [done|]. cbn [format].
  simpl in H1, H2. destruct (negb (c =? 37)).
  - unfold mbind, M_bind. simpl. apply IH; lia.
  - pose proof (conversion_shortens rest s) as HC. unfold mbind, M_bind. destruct (conversion rest s); try done. apply IH; lia.
Qed.

Definition run_format (fmt : list Z) : M vstate unit := format (S (length fmt)) fmt.

Lemma run_format_text l rest s : 37 ∉ l → run_format (l ++ rest) s = run_format rest (mk_v (str s ++ l) (args s) (stores s)).
Proof.
  revert s. induction l as [|c l IH]; intros s Hl; cbn [app].
  - rewrite app_nil_r. by destruct s.
  - apply not_elem_of_cons in Hl as [Hc Hl]. unfold run_format. cbn [format length].
    rewrite (proj2 (Z.eqb_neq c 37)) by congruence. cbn [negb]. erewrite bind_ret by reflexivity.
    change (format (S (length (l ++ rest))) (l ++ rest)) with (run_format (l ++ rest)). rewrite IH by done. cbn [str args stores].
    by rewrite <- app_assoc.
Qed.

Lemma run_format_conv rest fmt s s' :
  conversion rest s = Ret fmt s' → run_format (37 :: rest) s = run_format fmt s'.
Proof.
  intros E. pose proof (conversion_shortens rest s) as HC. rewrite E in HC. unfold run_format.
  transitivity ((fmt ← conversion rest; format (S (length rest)) fmt) s); [reflexivity|].
  rewrite (bind_ret _ _ _ _ _ E). apply format_fuel; lia.
Qed.

Lemma s64_u64 y : - 2 ^ 63 ≤ y < 2 ^ 63 → s64 (u64 y) = y.
Proof.
  intros Hy. unfold s64, signed. change (wrap 64) with u64.
  assert (u64 (u64 y) = u64 y) as -> by (apply u64_id, u64_range). destruct (decide (0 ≤ y)).
  - rewrite u64_id by (unfold in_u; lia). destruct (Z.ltb_spec y (2 ^ (64 - 1))); lia.
  - assert (u64 y = y + 2 ^ 64) as -> by (unfold u64, wrap; symmetry; apply (Z.mod_unique _ _ (-1)); lia).
    destruct (Z.ltb_spec (y + 2 ^ 64) (2 ^ (64 - 1))); lia.
Qed.

Lemma conversion_dec rest x out al st :
  conversion (100 :: rest) (mk_v out (AInt x :: al) st) = Ret rest (mk_v (out ++ show_dec (s32 x)) al st).
Proof.
  transitivity ((put_number (u64 (s32 x)) 10 (-1) (-1) SIGN ;; mret rest) (mk_v out al st)); [reflexivity|].
  pose proof (s32_range x). unfold put_number. rewrite s64_u64, number_dec by lia. reflexivity.
Qed.

Lemma conversion_hex rest x out al st :
  conversion (108 :: 120 :: rest) (mk_v out (AInt x :: al) st) = Ret rest (mk_v (out ++ show_hex (u64 x)) al st).
Proof.
  transitivity ((put_number (u64 x) 16 (-1) (-1) SMALL ;; mret rest) (mk_v out al st)); [reflexivity|].
  unfold put_number. rewrite number_hex by apply u64_range. reflexivity.
Qed.

Lemma conversion_str rest l out al st :
  Z.of_nat (length l) < 2 ^ 64 →
  conversion (115 :: rest) (mk_v out (AStr l :: al) st) = Ret rest (mk_v (out ++ l) al st).
Proof.
  intros Hl. transitivity ((put_string 0 (-1) (-1) ;; mret rest) (mk_v out (AStr l :: al) st)); [reflexivity|].
  unfold put_string. rewrite bind_assoc. erewrite bind_ret by reflexivity. unfold str_len. change (u64 (-1)) with (2 ^ 64 - 1).
  rewrite Z.min_l by lia. change (has 0 LEFT) with false. cbv iota. cbv zeta.
  rewrite (pad_neg (-1 - Z.of_nat (length l)) 32) by lia. rewrite Nat2Z.id, firstn_all. rewrite pad_neg by lia. cbn [fst app].
  rewrite app_nil_r. reflexivity.
Qed.

Lemma run_item i rest out al st :
  item_ok i → run_format (item_fmt i ++ rest) (mk_v out (item_args i ++ al) st) = run_format rest (mk_v (out ++ item_text i) al st).
Proof.
  intros Hi. destruct i as [l|x|x|l|]; cbn [item_fmt item_args item_text app].
  - by rewrite run_format_text.
  - apply run_format_conv, conversion_dec.
  - apply run_format_conv, conversion_hex.
  - by apply run_format_conv, conversion_str.
  - by apply run_format_conv.
Qed.

Definition items_fmt (l : list item) : list Z := concat (item_fmt <$> l).
Definition items_args (l : list item) : list arg := concat (item_args <$> l).
Definition items_text (l : list item) : list Z := concat (item_text <$> l).

Lemma run_items l out st :
  Forall item_ok l → run_format (items_fmt l) (mk_v out (items_args l) st) = Ret tt (mk_v (out ++ items_text l) [] st).
Proof.
  intros Hl. revert out. induction Hl as [|i l Hi Hl IH]; intros out.
  - unfold items_text. cbn. by rewrite app_nil_r.
  - unfold items_fmt, items_args, items_text. rewrite !fmap_cons. cbn [concat]. rewrite run_item by done.
    fold (items_fmt l) (items_args l) (items_text l). rewrite IH. by rewrite <- app_assoc.
Qed.


(** ** Examples *)


