(* ===== verification/Strings.v ===== *)
(** * String functions (libs/string, arch/x86_64/string64.c)

    Memory is a partial map from addresses to bytes; an access outside it is a
    fault.  The routines of libs/string read whole 64-bit words and look for a
    zero byte with the HASZERO trick; the theorems show that they compute what
    the byte-by-byte definitions do, for every alignment of the string, and
    that they read no word that does not contain a byte of it. *)

From Stdlib Require Import Lia ZArith.
From stdpp Require Import base list sets numbers option.
From S2P Require Import Prelude Bitops.

#[local] Open Scope Z_scope.
#[local] Open Scope yaos_scope.

Definition memory : Type := Z → option Z.

(** [*p] for a byte and for a little-endian word. *)
Definition ld (a : Z) : M memory Z := λ m,
  match m a with Some b => Ret b m | None => Faulted end.

(** The word whose bytes are [bs], lowest first. *)
Fixpoint le_word (bs : list Z) : Z :=
  match bs with [] => 0 | b :: bs => b + 256 * le_word bs end.

Definition bytes_at (m : memory) (a : Z) (n : nat) : option (list Z) :=
  mapM (λ i, m (a + Z.of_nat i)) (seq 0 n).

Definition ld64 (a : Z) : M memory Z := λ m,
  match bytes_at m a 8 with Some bs => Ret (le_word bs) m | None => Faulted end.

Definition st (a b : Z) : M memory unit := λ m,
  match m a with
  | Some _ => Ret tt (λ x, if x =? a then Some (u8 b) else m x)
  | None => Faulted
  end.

(** ** The word trick *)

Definition ONES : Z := (2 ^ 64 - 1) / 255.
Definition HIGHS : Z := ONES * (255 / 2 + 1).
Definition HASZERO (x : Z) : bool := negb (u64 (x - ONES) .& u64 (Z.lnot x) .& HIGHS =? 0).

(** ** libs/string *)

Module libs.

(** [for (; (uintptr_t)s % ALIGN; s++) if (!*s) return s-a;]: [inl] is the early
    return. *)
Fixpoint strlen_head (fuel : nat) (s a : Z) : M memory (Z + Z) :=
  if s mod 8 =? 0 then mret (inr s) else
  match fuel with
  | O => out_of_fuel
  | S fuel =>
      c ← ld s;
      if c =? 0 then mret (inl (s - a)) else strlen_head fuel (s + 1) a
  end.

(** [for (w = s; !HASZERO( *w); w++);] *)
Fixpoint strlen_words (fuel : nat) (w : Z) : M memory Z :=
  match fuel with
  | O => out_of_fuel
  | S fuel =>
      x ← ld64 w;
      if HASZERO x then mret w else strlen_words fuel (w + 8)
  end.

(** [for (s = w; *s; s++);] *)
Fixpoint strlen_tail (fuel : nat) (s : Z) : M memory Z :=
  match fuel with
  | O => out_of_fuel
  | S fuel =>
      c ← ld s;
      if c =? 0 then mret s else strlen_tail fuel (s + 1)
  end.

Definition strlen (fuel : nat) (s : Z) : M memory Z :=
  r ← strlen_head fuel s s;
  match r with
  | inl n => mret n
  | inr s' =>
      w ← strlen_words fuel s';
      e ← strlen_tail fuel w;
      mret (e - s)
  end.

(** memchr: [for (; ((uintptr_t)s & ALIGN) && n && *s != c; s++, n--);] *)
Fixpoint memchr_head (fuel : nat) (s c n : Z) : M memory (Z * Z) :=
  match fuel with
  | O => out_of_fuel
  | S fuel =>
      if s .& 7 =? 0 then mret (s, n) else
      if n =? 0 then mret (s, n) else
      b ← ld s;
      if b =? c then mret (s, n) else memchr_head fuel (s + 1) c (n - 1)
  end.

(** [for (w = s; n>=SS && !HASZERO( *w^k); w++, n-=SS);] *)
Fixpoint memchr_words (fuel : nat) (w k n : Z) : M memory (Z * Z) :=
  match fuel with
  | O => out_of_fuel
  | S fuel =>
      if n <? 8 then mret (w, n) else
      x ← ld64 w;
      if HASZERO (x .^ k) then mret (w, n) else memchr_words fuel (w + 8) k (n - 8)
  end.

(** [for (s = w; n && *s != c; s++, n--);] *)
Fixpoint memchr_tail (fuel : nat) (s c n : Z) : M memory (Z * Z) :=
  match fuel with
  | O => out_of_fuel
  | S fuel =>
      if n =? 0 then mret (s, n) else
      b ← ld s;
      if b =? c then mret (s, n) else memchr_tail fuel (s + 1) c (n - 1)
  end.

(** [if (n && *s != c) { ... }] *)
Definition memchr_rest (fuel : nat) (s c n : Z) : M memory (Z * Z) :=
  if n =? 0 then mret (s, n) else
  b ← ld s;
  if b =? c then mret (s, n) else
  '(w, n) ← memchr_words fuel s (u64 (ONES * c)) n;
  memchr_tail fuel w c n.

(** The result is a pointer, 0 for not found. *)
Definition memchr (fuel : nat) (src c n : Z) : M memory Z :=
  let c := u8 c in
  '(s, n) ← memchr_head fuel src c n;
  '(s, n) ← memchr_rest fuel s c n;
  mret (if n =? 0 then 0 else s).

Definition strnlen (fuel : nat) (s n : Z) : M memory Z :=
  p ← memchr fuel s 0 n;
  mret (if p =? 0 then n else p - s).

(** [for (; n && *l == *r; n--, l++, r++);] *)
Fixpoint memcmp (fuel : nat) (l r n : Z) : M memory Z :=
  match fuel with
  | O => out_of_fuel
  | S fuel =>
      if n =? 0 then mret 0 else
      a ← ld l;
      b ← ld r;
      if a =? b then memcmp fuel (l + 1) (r + 1) (n - 1) else mret (a - b)
  end.

Definition bcmp : nat → Z → Z → Z → M memory Z := memcmp.

Fixpoint strchrnul_head (fuel : nat) (s c : Z) : M memory (Z + Z) :=
  if s mod 8 =? 0 then mret (inr s) else
  match fuel with
  | O => out_of_fuel
  | S fuel =>
      b ← ld s;
      if (b =? 0) || (b =? c) then mret (inl s) else strchrnul_head fuel (s + 1) c
  end.

Fixpoint strchrnul_words (fuel : nat) (w k : Z) : M memory Z :=
  match fuel with
  | O => out_of_fuel
  | S fuel =>
      x ← ld64 w;
      if HASZERO x || HASZERO (x .^ k) then mret w else strchrnul_words fuel (w + 8) k
  end.

Fixpoint strchrnul_tail (fuel : nat) (s c : Z) : M memory Z :=
  match fuel with
  | O => out_of_fuel
  | S fuel =>
      b ← ld s;
      if (b =? 0) || (b =? c) then mret s else strchrnul_tail fuel (s + 1) c
  end.

Definition strchrnul (fuel : nat) (s c : Z) : M memory Z :=
  let c := u8 c in
  if c =? 0 then n ← strlen fuel s; mret (s + n) else
  r ← strchrnul_head fuel s c;
  match r with
  | inl p => mret p
  | inr s =>
      w ← strchrnul_words fuel s (u64 (ONES * c));
      strchrnul_tail fuel w c
  end.

Definition strchr (fuel : nat) (s c : Z) : M memory Z :=
  r ← strchrnul fuel s c;
  b ← ld r;
  mret (if b =? u8 c then r else 0).

End libs.

(** ** arch/x86_64/string64.c

    The kernel's own versions; the names carry the number of the file. *)

Module string64.

(** [repe; cmpsb; setnz]: 0 when all bytes are equal, else 1. When [len] is 0 no byte is
    compared and the flag is the one left by the code before, [zf]. *)
Fixpoint memcmp64 (fuel : nat) (zf : bool) (s1 s2 len : Z) : M memory Z :=
  match fuel with
  | O => out_of_fuel
  | S fuel =>
      if len =? 0 then mret (if zf then 0 else 1) else
      a ← ld s1;
      b ← ld s2;
      if a =? b then memcmp64 fuel true (s1 + 1) (s2 + 1) (len - 1) else mret 1
  end.

(** [rep stosb] *)
Fixpoint stosb (n : nat) (s c : Z) : M memory unit :=
  match n with
  | O => mret tt
  | S n => st s c ;; stosb n (s + 1) c
  end.

Definition memset64 (s c count : Z) : M memory Z :=
  ASSERT (0 <? count) ;;
  stosb (Z.to_nat count) s c ;;
  mret s.

Fixpoint strcmp64 (fuel : nat) (s1 s2 : Z) : M memory Z :=
  match fuel with
  | O => out_of_fuel
  | S fuel =>
      a ← ld s1;
      b ← ld s2;
      if (a =? 0) && (b =? 0) then mret 0 else
      if a - b =? 0 then strcmp64 fuel (s1 + 1) (s2 + 1) else mret (a - b)
  end.

Fixpoint strncmp64 (fuel : nat) (cs ct count : Z) : M memory Z :=
  match fuel with
  | O => out_of_fuel
  | S fuel =>
      if count =? 0 then mret 0 else
      c1 ← ld cs;
      c2 ← ld ct;
      if negb (c1 =? c2) then mret (if c1 <? c2 then -1 else 1) else
      if c1 =? 0 then mret 0 else strncmp64 fuel (cs + 1) (ct + 1) (count - 1)
  end.

Fixpoint strnlen_loop (fuel : nat) (es maxlen : Z) : M memory Z :=
  match fuel with
  | O => out_of_fuel
  | S fuel =>
      c ← ld es;
      if (c =? 0) || (maxlen =? 0) then mret es else strnlen_loop fuel (es + 1) (maxlen - 1)
  end.

Definition strnlen64 (fuel : nat) (s maxlen : Z) : M memory Z :=
  es ← strnlen_loop fuel s maxlen;
  mret (es - s).

Definition isdigit (ch : Z) : bool := (48 <=? ch) && (ch <=? 57).

(** [i = i * 10 + ( *s++ - '0')] on unsigned int. *)
Fixpoint atou_loop (fuel : nat) (s i : Z) : M memory Z :=
  match fuel with
  | O => out_of_fuel
  | S fuel =>
      c ← ld s;
      if isdigit c then atou_loop fuel (s + 1) (u32 (i * 10 + (c - 48))) else mret i
  end.

Definition atou (fuel : nat) (s : Z) : M memory Z := atou_loop fuel s 0.

Fixpoint strlen_loop (fuel : nat) (sc : Z) : M memory Z :=
  match fuel with
  | O => out_of_fuel
  | S fuel =>
      c ← ld sc;
      if c =? 0 then mret sc else strlen_loop fuel (sc + 1)
  end.

Definition strlen64 (fuel : nat) (s : Z) : M memory Z :=
  sc ← strlen_loop fuel s;
  mret (sc - s).

(** [while (l1 >= l2) { l1--; if (!memcmp (s1, s2, l2)) return s1; s1++; }] *)
Fixpoint strstr_loop (fuel : nat) (s1 s2 l1 l2 : Z) : M memory Z :=
  match fuel with
  | O => out_of_fuel
  | S fuel' =>
      if l1 <? l2 then mret 0 else
      d ← memcmp64 fuel true s1 s2 l2;
      if d =? 0 then mret s1 else strstr_loop fuel' (s1 + 1) s2 (l1 - 1) l2
  end.

Definition strstr64 (fuel : nat) (s1 s2 : Z) : M memory Z :=
  l2 ← strlen64 fuel s2;
  if l2 =? 0 then mret s1 else
  l1 ← strlen64 fuel s1;
  strstr_loop fuel s1 s2 l1 l2.

(** [while (n-- > 0) *dst++ = *src++;] *)
Fixpoint memmove_loop (n : nat) (dst src : Z) : M memory unit :=
  match n with
  | O => mret tt
  | S n =>
      b ← ld src;
      st dst b ;;
      memmove_loop n (dst + 1) (src + 1)
  end.

Definition memmove64 (vdst vsrc n : Z) : M memory Z :=
  memmove_loop (Z.to_nat n) vdst vsrc ;;
  mret vdst.

End string64.

(** ** The zero-byte test *)

(** The constants for words of [k] bytes. *)
Fixpoint ones (k : nat) : Z := match k with O => 0 | S k => 1 + 256 * ones k end.

Lemma ONES_8 : ONES = ones 8.
Proof. reflexivity. Qed.
Lemma HIGHS_8 : HIGHS = 128 * ones 8.
Proof. reflexivity. Qed.

Lemma ones_nonneg k : 0 ≤ ones k.
Proof. induction k; simpl; lia. Qed.

(** Bitwise and, byte by byte. *)
Lemma land_byte a b :
  a .& b = (a mod 256) .& (b mod 256) + 256 * ((a / 256) .& (b / 256)).
Proof.
  assert (∀ x, x mod 256 = x .& (2 ^ 8 - 1)) as Em by (intros; by rewrite land_mask).
  assert (∀ x, x / 256 = x .>> 8) as Es by (intros; by rewrite Z.shiftr_div_pow2).
  rewrite (Z.div_mod (a .& b) 256) at 1 by lia. rewrite !Em, !Es, Z.shiftr_land, Z.add_comm.
  f_equal. apply Z.bits_inj'. intros i Hi. rewrite !Z.land_spec.
  by destruct (Z.testbit a i), (Z.testbit b i), (Z.testbit (2 ^ 8 - 1) i).
Qed.

Lemma lnot_byte x : Z.lnot x mod 256 = 255 - x mod 256 ∧ Z.lnot x / 256 = Z.lnot (x / 256).
Proof.
  unfold Z.lnot. pose proof (Z.div_mod x 256). pose proof (Z.mod_pos_bound x 256).
  assert (Z.pred (- x) = (255 - x mod 256) + (- (x / 256) - 1) * 256) as E by lia.
  rewrite E, Z.mod_add, Z.div_add by lia. rewrite Z.mod_small, Z.div_small by lia. lia.
Qed.

(** One byte [b] of the word, with no borrow from the bytes below it. *)
Lemma byte_test b : 1 ≤ b ≤ 255 → (b - 1) .& (255 - b) .& 128 = 0.
Proof.
  intros Hb. assert (forallb (λ n, let b := Z.of_nat n in (b - 1) .& (255 - b) .& 128 =? 0) (seq 1 255) = true)
    as HF by (vm_compute; reflexivity).
  rewrite forallb_forall in HF. specialize (HF (Z.to_nat b)).
  rewrite Z2Nat.id in HF by lia. apply Z.eqb_eq, HF, in_seq. lia.
Qed.

Definition byte (b : Z) : Prop := 0 ≤ b < 256.

Lemma split_byte b y : byte b → (b + 256 * y) mod 256 = b ∧ (b + 256 * y) / 256 = y.
Proof.
  unfold byte. intros Hb. rewrite Z.mul_comm, Z.mod_add, Z.div_add, Z.mod_small, Z.div_small by lia.
  done.
Qed.

Lemma haszero_bytes bs :
  Forall byte bs →
  (le_word bs - ones (length bs)) .& Z.lnot (le_word bs) .& (128 * ones (length bs)) = 0 ↔
  Forall (λ b, b ≠ 0) bs.
Proof.
  induction 1 as [|b bs Hb Hbs IH]; [done|]. cbn [le_word length ones].
  set (y := le_word bs) in *. set (o := ones (length bs)) in *.
  rewrite land_byte, (land_byte (_ - _)).
  destruct (lnot_byte (b + 256 * y)) as [-> ->].
  assert (128 * (1 + 256 * o) = 128 + 256 * (128 * o)) as -> by lia.
  destruct (split_byte 128 (128 * o) ltac:(done)) as [-> ->].
  destruct (split_byte b y Hb) as [-> ->]. unfold byte in Hb.
  destruct (decide (b = 0)) as [->|Hn].
  - assert (0 + 256 * y - (1 + 256 * o) = 255 + 256 * (y - o - 1)) as -> by lia.
    destruct (split_byte 255 (y - o - 1) ltac:(done)) as [-> ->].
    rewrite list.Forall_cons. split; [|naive_solver]. change (255 .& (255 - 0)) with 255.
    destruct (split_byte 255 ((y - o - 1) .& Z.lnot y) ltac:(done)) as [-> ->].
    change (255 .& 128) with 128. lia.
  - assert (b + 256 * y - (1 + 256 * o) = b - 1 + 256 * (y - o)) as -> by lia.
    destruct (split_byte (b - 1) (y - o) ltac:(unfold byte; lia)) as [-> ->].
    set (low := (b - 1) .& (255 - b)).
    assert (byte low) as Hlow.
    { apply (land_u8 (b - 1) (255 - b)). unfold in_u. lia. }
    destruct (split_byte low ((y - o) .& Z.lnot y) Hlow) as [-> ->].
    unfold low. rewrite byte_test by lia. rewrite list.Forall_cons, <- IH. split; [|intros [_ ->]; done].
    intros E. split; [done|]. lia.
Qed.

Lemma land_u64 x y : 0 ≤ y < 2 ^ 64 → u64 x .& y = x .& y.
Proof.
  intros Hy. unfold u64, wrap. rewrite <- (Z.mod_small y (2 ^ 64)) by lia.
  rewrite <- !land_mask by lia. rewrite <- !Z.land_assoc, (Z.land_comm _ (y .& _)), <- Z.land_assoc.
  by rewrite Z.land_diag.
Qed.

Lemma HASZERO_bytes bs :
  length bs = 8%nat → Forall byte bs → HASZERO (le_word bs) = true ↔ 0 ∈ bs.
Proof.
  intros Hl Hb. unfold HASZERO.
  assert (0 ≤ HIGHS < 2 ^ 64) as HH by done.
  rewrite (Z.land_comm _ HIGHS), Z.land_assoc, (Z.land_comm HIGHS), <- Z.land_assoc, (Z.land_comm HIGHS).
  rewrite (land_u64 (Z.lnot _) HIGHS) by done.
  assert (0 ≤ Z.lnot (le_word bs) .& HIGHS < 2 ^ 64) as HL.
  { split; [apply Z.land_nonneg; lia|].
    rewrite <- (land_u64 (Z.lnot _) HIGHS) by done. rewrite Z.land_comm.
    rewrite <- (Z.mod_small HIGHS (2 ^ 64)) by done. rewrite <- land_mask by lia.
    rewrite <- Z.land_assoc, (Z.land_comm (2 ^ 64 - 1)), Z.land_assoc, land_mask by lia.
    by apply Z.mod_pos_bound. }
  rewrite land_u64 by done. rewrite ONES_8, HIGHS_8, Z.land_assoc, <- Hl.
  pose proof (haszero_bytes bs Hb) as HZ.
  destruct (Z.eqb_spec ((le_word bs - ones (length bs)) .& Z.lnot (le_word bs) .& (128 * ones (length bs))) 0)
    as [E|E]; simpl.
  - split; [done|]. apply HZ in E. rewrite list.Forall_forall in E. intros H0. by destruct (E 0 H0).
  - split; [|done]. intros _. destruct (decide (0 ∈ bs)) as [|Hn]; [done|]. destruct E. apply HZ.
    apply list.Forall_forall. intros b Hin ->. done.
Qed.

(** The test on the exclusive or with [c] repeated finds the byte [c]. *)
Lemma lxor_byte a b : a .^ b = (a mod 256) .^ (b mod 256) + 256 * ((a / 256) .^ (b / 256)).
Proof.
  assert (∀ x, x / 256 = x .>> 8) as Es by (intros; by rewrite Z.shiftr_div_pow2).
  rewrite (Z.div_mod (a .^ b) 256) at 1 by lia. rewrite !Es, Z.shiftr_lxor, Z.add_comm. f_equal.
  apply Z.bits_inj'. intros i Hi. destruct (decide (i < 8)).
  - by rewrite (Z.mod_pow2_bits_low _ 8), !Z.lxor_spec, !(Z.mod_pow2_bits_low _ 8) by lia.
  - by rewrite (Z.mod_pow2_bits_high _ 8), !Z.lxor_spec, !(Z.mod_pow2_bits_high _ 8) by lia.
Qed.

Lemma lxor_words c bs :
  byte c → Forall byte bs →
  le_word bs .^ (ones (length bs) * c) = le_word ((λ b, b .^ c) <$> bs).
Proof.
  intros Hc. induction 1 as [|b bs Hb Hbs IH]; [done|]. cbn [length ones le_word fmap list_fmap].
  replace ((1 + 256 * ones (length bs)) * c) with (c + 256 * (ones (length bs) * c)) by lia.
  rewrite lxor_byte. destruct (split_byte b (le_word bs) Hb) as [-> ->].
  destruct (split_byte c (ones (length bs) * c) Hc) as [-> ->]. by rewrite IH.
Qed.

Lemma lxor_u8 b c : byte b → byte c → byte (b .^ c).
Proof.
  intros Hb Hc. apply (lor_lxor_u8 Z.lxor xorb); try done; [intros; apply Z.lxor_spec|].
  apply Z.lxor_nonneg. unfold byte in *. lia.
Qed.

Lemma HASZERO_xor bs c :
  length bs = 8%nat → Forall byte bs → byte c →
  HASZERO (le_word bs .^ u64 (ONES * c)) = true ↔ c ∈ bs.
Proof.
  intros Hl Hb Hc. assert (u64 (ONES * c) = ones (length bs) * c) as ->.
  { rewrite Hl, <- ONES_8. apply u64_id. unfold in_u, byte in *. change ONES with 72340172838076673. lia. }
  rewrite lxor_words by done. rewrite HASZERO_bytes.
  - rewrite list_elem_of_fmap. split.
    + intros (b & E & Hin). symmetry in E. apply Z.lxor_eq in E. by subst.
    + intros Hin. exists c. split; [by rewrite Z.lxor_nilpotent|done].
  - by rewrite length_fmap.
  - apply Forall_fmap. eapply list.Forall_impl; [exact Hb|]. intros b Hb'. by apply lxor_u8.
Qed.

(** ** Reading memory *)

Definition byte_of (m : memory) (x : Z) : Z := default 0 (m x).

(** All of [lo, hi) can be read. *)
Definition readable (m : memory) (lo hi : Z) : Prop :=
  ∀ x, lo ≤ x < hi → ∃ b, m x = Some b ∧ byte b.

Definition word_bytes (m : memory) (w : Z) : list Z :=
  (λ i, byte_of m (w + Z.of_nat i)) <$> seq 0 8.

Lemma ld_run m lo hi x : readable m lo hi → lo ≤ x < hi → ld x m = Ret (byte_of m x) m.
Proof. intros Hr Hx. destruct (Hr x Hx) as (b & E & _). unfold ld, byte_of. by rewrite E. Qed.

Lemma byte_of_byte m lo hi x : readable m lo hi → lo ≤ x < hi → byte (byte_of m x).
Proof. intros Hr Hx. destruct (Hr x Hx) as (b & E & ?). unfold byte_of. by rewrite E. Qed.

Lemma ld64_run m lo hi w :
  readable m lo hi → lo ≤ w → w + 8 ≤ hi →
  ld64 w m = Ret (le_word (word_bytes m w)) m ∧ Forall byte (word_bytes m w).
Proof.
  intros Hr Hlo Hhi. split.
  - unfold ld64, bytes_at. assert (mapM (λ i : nat, m (w + Z.of_nat i)) (seq 0 8) = Some (word_bytes m w)) as ->; [|done].
    apply mapM_Some_2. unfold word_bytes. apply Forall2_fmap_r, Forall_Forall2_diag.
    apply list.Forall_forall. intros i Hi%elem_of_seq.
    destruct (Hr (w + Z.of_nat i)) as (b & E & _); [lia|]. simpl. unfold byte_of. by rewrite E.
  - unfold word_bytes. apply Forall_fmap, list.Forall_forall. intros i Hi%elem_of_seq. simpl.
    eapply byte_of_byte; [done|lia].
Qed.

Lemma word_bytes_elem m w c : c ∈ word_bytes m w ↔ ∃ i, 0 ≤ i < 8 ∧ byte_of m (w + i) = c.
Proof.
  unfold word_bytes. rewrite list_elem_of_fmap. setoid_rewrite elem_of_seq. split.
  - intros (i & -> & Hi). exists (Z.of_nat i). split; [lia|done].
  - intros (i & Hi & <-). exists (Z.to_nat i). rewrite Z2Nat.id by lia. split; [done|lia].
Qed.

(** Reading the word at [w] and testing it for a zero byte, or for the byte [c]. *)
Lemma test_word m lo hi w :
  readable m lo hi → lo ≤ w → w + 8 ≤ hi →
  ∃ x, ld64 w m = Ret x m ∧
    (HASZERO x = true ↔ ∃ i, 0 ≤ i < 8 ∧ byte_of m (w + i) = 0) ∧
    ∀ c, byte c → (HASZERO (x .^ u64 (ONES * c)) = true ↔ ∃ i, 0 ≤ i < 8 ∧ byte_of m (w + i) = c).
Proof.
  intros Hr Hlo Hhi. destruct (ld64_run _ _ _ _ Hr Hlo Hhi) as [E Hb]. eexists. split; [exact E|].
  split.
  - rewrite HASZERO_bytes by done. apply word_bytes_elem.
  - intros c Hc. rewrite HASZERO_xor by done. apply word_bytes_elem.
Qed.

(** ** strlen *)

(** A string of [n] bytes other than 0 at [s], then a 0. *)
Record cstr (m : memory) (s n : Z) : Prop := {
  cs_len : 0 ≤ n;
  cs_body : ∀ i, 0 ≤ i < n → byte_of m (s + i) ≠ 0;
  cs_end : byte_of m (s + n) = 0
}.

(** The end of the aligned word that contains [x]. *)
Definition word_end (x : Z) : Z := 8 * (x / 8) + 8.

Lemma word_end_gt x : x < word_end x.
Proof. unfold word_end. pose proof (Z.div_mod x 8). pose proof (Z.mod_pos_bound x 8). lia. Qed.

Lemma word_in w x : w mod 8 = 0 → w ≤ x → w + 8 ≤ word_end x.
Proof. intros Hw Hx. unfold word_end. pose proof (Z.div_mod x 8). pose proof (Z.div_mod w 8).
  pose proof (Z.mod_pos_bound x 8). lia. Qed.

Section strlen.
Context (m : memory) (s n : Z) (Hs : cstr m s n).

Lemma strlen_head_spec fuel : ∀ i,
  readable m s (s + n + 1) → 0 ≤ i ≤ n → n - i < Z.of_nat fuel →
  libs.strlen_head fuel (s + i) s m = Ret (inl n) m ∨
  ∃ j, libs.strlen_head fuel (s + i) s m = Ret (inr (s + j)) m ∧ i ≤ j ≤ n ∧ (s + j) mod 8 = 0.
Proof.
  induction fuel as [|fuel IH]; intros i Hr Hi Hf; [lia|]. simpl.
  destruct (Z.eqb_spec ((s + i) mod 8) 0) as [E|E].
  { right. exists i. split; [done|]. lia. }
  rewrite (bind_ret _ _ _ _ _ (ld_run _ _ _ (s + i) Hr ltac:(lia))).
  destruct (Z.eqb_spec (byte_of m (s + i)) 0) as [E0|E0].
  - left. destruct (decide (i = n)) as [->|]; [unfold mret, M_ret; do 2 f_equal; lia|].
    by destruct (cs_body _ _ _ Hs i ltac:(lia)).
  - assert (i ≠ n) by (intros ->; by destruct E0, Hs).
    replace (s + i + 1) with (s + (i + 1)) by lia.
    destruct (IH (i + 1) Hr) as [?|(j & ? & ? & ?)]; [lia..|by left|].
    right. exists j. split_and!; try done; lia.
Qed.

Lemma strlen_words_spec fuel : ∀ i,
  readable m s (word_end (s + n)) → 0 ≤ i ≤ n → (s + i) mod 8 = 0 → n - i < 8 * Z.of_nat fuel →
  ∃ j, libs.strlen_words fuel (s + i) m = Ret (s + j) m ∧ i ≤ j ≤ n ∧ n < j + 8.
Proof.
  induction fuel as [|fuel IH]; intros i Hr Hi Hal Hf; [lia|]. simpl.
  destruct (test_word m s (word_end (s + n)) (s + i) Hr) as (x & Ex & Hz & _); [lia|by apply word_in; [|lia]|].
  rewrite (bind_ret _ _ _ _ _ Ex). destruct (HASZERO x) eqn:Eh.
  - exists i. split; [done|]. split; [lia|]. destruct (proj1 Hz eq_refl) as (k & Hk & Ek).
    destruct (decide (n < i + 8)); [done|]. destruct (cs_body _ _ _ Hs (i + k)); [lia|].
    by rewrite Z.add_assoc.
  - assert (i + 8 ≤ n) as Hn.
    { destruct (decide (i + 8 ≤ n)); [done|]. assert (false = true); [|done]. apply Hz.
      exists (n - i). split; [lia|]. replace (s + i + (n - i)) with (s + n) by lia. apply Hs. }
    replace (s + i + 8) with (s + (i + 8)) by lia.
    destruct (IH (i + 8) Hr) as (j & E & Hj); [lia| |lia|].
    + replace (s + (i + 8)) with (s + i + 1 * 8) by lia. by rewrite Z.mod_add.
    + exists j. split; [done|lia].
Qed.

Lemma strlen_tail_spec fuel : ∀ i,
  readable m s (s + n + 1) → 0 ≤ i ≤ n → n - i < Z.of_nat fuel →
  libs.strlen_tail fuel (s + i) m = Ret (s + n) m.
Proof.
  induction fuel as [|fuel IH]; intros i Hr Hi Hf; [lia|]. simpl.
  rewrite (bind_ret _ _ _ _ _ (ld_run _ _ _ (s + i) Hr ltac:(lia))).
  destruct (Z.eqb_spec (byte_of m (s + i)) 0) as [E0|E0].
  - destruct (decide (i = n)) as [->|]; [done|]. by destruct (cs_body _ _ _ Hs i ltac:(lia)).
  - assert (i ≠ n) by (intros ->; by destruct E0, Hs).
    replace (s + i + 1) with (s + (i + 1)) by lia. apply IH; [done|lia|lia].
Qed.

Lemma strlen_run fuel :
  readable m s (word_end (s + n)) → n < Z.of_nat fuel → libs.strlen fuel s m = Ret n m.
Proof.
  intros Hr Hf. pose proof (cs_len _ _ _ Hs).
  assert (readable m s (s + n + 1)) as Hr1.
  { intros x Hx. apply Hr. pose proof (word_end_gt (s + n)). lia. }
  unfold libs.strlen. rewrite <- (Z.add_0_r s) at 1.
  destruct (strlen_head_spec fuel 0 Hr1) as [E|(j & E & Hj & Hal)]; [lia..| |];
    rewrite (bind_ret _ _ _ _ _ E); [done|].
  destruct (strlen_words_spec fuel j Hr) as (k & E2 & Hk & _); [lia|done|lia|].
  rewrite (bind_ret _ _ _ _ _ E2).
  rewrite (bind_ret _ _ _ _ _ (strlen_tail_spec fuel k Hr1 ltac:(lia) ltac:(lia))).
  unfold mret, M_ret. f_equal. lia.
Qed.

Lemma strlen64_run fuel :
  readable m s (s + n + 1) → n < Z.of_nat fuel → string64.strlen64 fuel s m = Ret n m.
Proof.
  intros Hr Hf. pose proof (cs_len _ _ _ Hs). unfold string64.strlen64.
  assert (∀ fuel i, 0 ≤ i ≤ n → n - i < Z.of_nat fuel →
            string64.strlen_loop fuel (s + i) m = Ret (s + n) m) as HL.
  { intros f. induction f as [|f IH]; intros i Hi Hfi; [lia|]. simpl.
    rewrite (bind_ret _ _ _ _ _ (ld_run _ _ _ (s + i) Hr ltac:(lia))).
    destruct (Z.eqb_spec (byte_of m (s + i)) 0) as [E0|E0].
    - destruct (decide (i = n)) as [->|]; [done|]. by destruct (cs_body _ _ _ Hs i ltac:(lia)).
    - assert (i ≠ n) by (intros ->; by destruct E0, Hs).
      replace (s + i + 1) with (s + (i + 1)) by lia. apply IH; lia. }
  specialize (HL fuel 0 ltac:(lia) ltac:(lia)). rewrite Z.add_0_r in HL.
  rewrite (bind_ret _ _ _ _ _ HL). unfold mret, M_ret. f_equal. lia.
Qed.

End strlen.

(** ** memchr and strnlen *)

(** No byte [c] among the first [i]. *)
Definition absent (m : memory) (s c i : Z) : Prop := ∀ j, 0 ≤ j < i → byte_of m (s + j) ≠ c.

Lemma absent_step m s c i : absent m s c i → byte_of m (s + i) ≠ c → absent m s c (i + 1).
Proof. intros Ha Hi j Hj. destruct (decide (j = i)) as [->|]; [done|]. apply Ha. lia. Qed.

Section memchr.
Context (m : memory) (s c n : Z) (Hn : 0 ≤ n) (Hc : byte c) (Hr : readable m s (s + n)).

(** The position [i] a loop stops at, and why. *)
Definition stops (stop : Z → Prop) (i : Z) (r : outcome memory (Z * Z)) : Prop :=
  ∃ j, r = Ret (s + j, n - j) m ∧ i ≤ j ≤ n ∧ absent m s c j ∧ (j = n ∨ stop j).

Lemma memchr_head_spec fuel : ∀ i,
  0 ≤ i ≤ n → absent m s c i → n - i < Z.of_nat fuel →
  stops (λ j, (s + j) mod 8 = 0 ∨ byte_of m (s + j) = c) i (libs.memchr_head fuel (s + i) c (n - i) m).
Proof.
  induction fuel as [|fuel IH]; intros i Hi Ha Hf; [lia|]. simpl.
  assert ((s + i) .& 7 = (s + i) mod 8) as -> by (change 7 with (2 ^ 3 - 1); by rewrite land_mask).
  destruct (Z.eqb_spec ((s + i) mod 8) 0); [exists i; split_and!; auto; lia|].
  destruct (Z.eqb_spec (n - i) 0); [exists i; split_and!; auto; lia|].
  rewrite (bind_ret _ _ _ _ _ (ld_run _ _ _ (s + i) Hr ltac:(lia))).
  destruct (Z.eqb_spec (byte_of m (s + i)) c); [exists i; split_and!; auto; lia|].
  replace (s + i + 1) with (s + (i + 1)) by lia. replace (n - i - 1) with (n - (i + 1)) by lia.
  destruct (IH (i + 1)) as (j & E & Hj & ? & ?); [lia|by apply absent_step|lia|].
  exists j. split_and!; auto; lia.
Qed.

Lemma memchr_words_spec fuel : ∀ i,
  0 ≤ i ≤ n → absent m s c i → n - i < Z.of_nat fuel →
  stops (λ _, True) i (libs.memchr_words fuel (s + i) (u64 (ONES * c)) (n - i) m).
Proof.
  induction fuel as [|fuel IH]; intros i Hi Ha Hf; [lia|]. simpl.
  destruct (Z.ltb_spec (n - i) 8); [exists i; split_and!; auto; lia|].
  destruct (test_word m s (s + n) (s + i) Hr) as (x & Ex & _ & Hx); [lia..|].
  rewrite (bind_ret _ _ _ _ _ Ex). destruct (HASZERO (x .^ _)) eqn:Eh; [exists i; split_and!; auto; lia|].
  replace (s + i + 8) with (s + (i + 8)) by lia. replace (n - i - 8) with (n - (i + 8)) by lia.
  destruct (IH (i + 8)) as (j & E & Hj & ? & ?); [lia| |lia|exists j; split_and!; auto; lia].
  intros j Hj. destruct (decide (j < i)); [apply Ha; lia|]. intros E.
  assert (false = true); [|done]. rewrite <- Eh. apply Hx; [done|]. exists (j - i). split; [lia|].
  by replace (s + i + (j - i)) with (s + j) by lia.
Qed.

Lemma memchr_tail_spec fuel : ∀ i,
  0 ≤ i ≤ n → absent m s c i → n - i < Z.of_nat fuel →
  stops (λ j, byte_of m (s + j) = c) i (libs.memchr_tail fuel (s + i) c (n - i) m).
Proof.
  induction fuel as [|fuel IH]; intros i Hi Ha Hf; [lia|]. simpl.
  destruct (Z.eqb_spec (n - i) 0); [exists i; split_and!; auto; lia|].
  rewrite (bind_ret _ _ _ _ _ (ld_run _ _ _ (s + i) Hr ltac:(lia))).
  destruct (Z.eqb_spec (byte_of m (s + i)) c); [exists i; split_and!; auto; lia|].
  replace (s + i + 1) with (s + (i + 1)) by lia. replace (n - i - 1) with (n - (i + 1)) by lia.
  destruct (IH (i + 1)) as (j & E & Hj & ? & ?); [lia|by apply absent_step|lia|].
  exists j. split_and!; auto; lia.
Qed.

Lemma memchr_rest_spec fuel i :
  0 ≤ i ≤ n → absent m s c i → n - i < Z.of_nat fuel →
  stops (λ j, byte_of m (s + j) = c) i (libs.memchr_rest fuel (s + i) c (n - i) m).
Proof.
  intros Hi Ha Hf. unfold libs.memchr_rest.
  destruct (Z.eqb_spec (n - i) 0); [exists i; split_and!; auto; lia|].
  rewrite (bind_ret _ _ _ _ _ (ld_run _ _ _ (s + i) Hr ltac:(lia))).
  destruct (Z.eqb_spec (byte_of m (s + i)) c); [exists i; split_and!; auto; lia|].
  destruct (memchr_words_spec fuel i) as (j & E & Hj & Ha' & _); [done..|].
  rewrite (bind_ret _ _ _ _ _ E). cbv beta iota.
  destruct (memchr_tail_spec fuel j) as (k & E' & Hk & ? & ?); [lia|done|lia|].
  exists k. split_and!; auto; lia.
Qed.

Lemma memchr_run fuel :
  n < Z.of_nat fuel →
  ∃ j, libs.memchr fuel s c n m = Ret (if decide (j = n) then 0 else s + j) m ∧
    0 ≤ j ≤ n ∧ absent m s c j ∧ (j = n ∨ byte_of m (s + j) = c).
Proof.
  intros Hf. unfold libs.memchr. assert (u8 c = c) as -> by by apply wrap_id.
  assert (absent m s c 0) as Ha0 by (intros j Hj; lia).
  destruct (memchr_head_spec fuel 0) as (i & E1 & Hi & Ha & _); [lia|done|lia|].
  rewrite Z.add_0_r, Z.sub_0_r in E1. rewrite (bind_ret _ _ _ _ _ E1). cbv beta iota.
  destruct (memchr_rest_spec fuel i) as (j & E2 & Hj & Ha' & Hs); [lia|done|lia|].
  rewrite (bind_ret _ _ _ _ _ E2). cbv beta iota. exists j. split_and!; auto; [|lia..].
  unfold mret, M_ret. f_equal. destruct (Z.eqb_spec (n - j) 0), (decide (j = n)); done || lia.
Qed.

End memchr.

(** ** strchrnul and strchr *)

(** The first [i] bytes are neither 0 nor [c]. *)
Definition passes (m : memory) (s c i : Z) : Prop :=
  ∀ j, 0 ≤ j < i → byte_of m (s + j) ≠ 0 ∧ byte_of m (s + j) ≠ c.

Section strchrnul.
Context (m : memory) (s c n : Z) (Hn : 0 ≤ n) (Hc : byte c).
Context (Hp : passes m s c n) (Hend : byte_of m (s + n) = 0 ∨ byte_of m (s + n) = c).
Context (Hr : readable m s (word_end (s + n))).

Lemma strchrnul_here i : 0 ≤ i ≤ n →
  ((byte_of m (s + i) =? 0) || (byte_of m (s + i) =? c)) = true ↔ i = n.
Proof.
  intros Hi. split.
  - intros E. destruct (decide (i = n)); [done|]. destruct (Hp i ltac:(lia)).
    apply orb_true_iff in E as [?%Z.eqb_eq|?%Z.eqb_eq]; done.
  - intros ->. apply orb_true_iff. rewrite !Z.eqb_eq. done.
Qed.

Lemma strchrnul_ld i : 0 ≤ i ≤ n → ld (s + i) m = Ret (byte_of m (s + i)) m.
Proof. intros Hi. apply (ld_run _ _ _ _ Hr). pose proof (word_end_gt (s + n)). lia. Qed.

Lemma strchrnul_head_spec fuel : ∀ i,
  0 ≤ i ≤ n → n - i < Z.of_nat fuel →
  libs.strchrnul_head fuel (s + i) c m = Ret (inl (s + n)) m ∨
  ∃ j, libs.strchrnul_head fuel (s + i) c m = Ret (inr (s + j)) m ∧ i ≤ j ≤ n ∧ (s + j) mod 8 = 0.
Proof.
  induction fuel as [|fuel IH]; intros i Hi Hf; [lia|]. simpl.
  destruct (Z.eqb_spec ((s + i) mod 8) 0) as [E|E]; [right; exists i; split_and!; done || lia|].
  rewrite (bind_ret _ _ _ _ _ (strchrnul_ld i Hi)). pose proof (strchrnul_here i Hi) as Hh.
  destruct ((byte_of m (s + i) =? 0) || (byte_of m (s + i) =? c)).
  - left. by rewrite (proj1 Hh eq_refl).
  - assert (i ≠ n) by (intros ->; by destruct Hh as [_ Hh]; specialize (Hh eq_refl)).
    replace (s + i + 1) with (s + (i + 1)) by lia.
    destruct (IH (i + 1)) as [?|(j & ? & ? & ?)]; [lia..|by left|].
    right. exists j. split_and!; done || lia.
Qed.

Lemma strchrnul_words_spec fuel : ∀ i,
  0 ≤ i ≤ n → (s + i) mod 8 = 0 → n - i < 8 * Z.of_nat fuel →
  ∃ j, libs.strchrnul_words fuel (s + i) (u64 (ONES * c)) m = Ret (s + j) m ∧ i ≤ j ≤ n.
Proof.
  induction fuel as [|fuel IH]; intros i Hi Hal Hf; [lia|]. simpl.
  destruct (test_word m s (word_end (s + n)) (s + i) Hr) as (x & Ex & Hz & Hx); [lia|by apply word_in; [|lia]|].
  specialize (Hx c Hc). rewrite (bind_ret _ _ _ _ _ Ex).
  destruct (HASZERO x || HASZERO (x .^ u64 (ONES * c))) eqn:Eh; [exists i; split; [done|lia]|].
  apply orb_false_iff in Eh as [E1 E2]. rewrite E1 in Hz. rewrite E2 in Hx.
  assert (i + 8 ≤ n) as Hn8.
  { destruct (decide (i + 8 ≤ n)); [done|]. assert (false = true); [|done].
    assert (s + i + (n - i) = s + n) as Ei by lia.
    destruct Hend; [apply Hz|apply Hx]; exists (n - i); rewrite Ei; split; done || lia. }
  replace (s + i + 8) with (s + (i + 8)) by lia.
  destruct (IH (i + 8)) as (j & E & Hj); [lia| |lia|exists j; split; [done|lia]].
  replace (s + (i + 8)) with (s + i + 1 * 8) by lia. by rewrite Z.mod_add.
Qed.

Lemma strchrnul_tail_spec fuel : ∀ i,
  0 ≤ i ≤ n → n - i < Z.of_nat fuel → libs.strchrnul_tail fuel (s + i) c m = Ret (s + n) m.
Proof.
  induction fuel as [|fuel IH]; intros i Hi Hf; [lia|]. simpl.
  rewrite (bind_ret _ _ _ _ _ (strchrnul_ld i Hi)). pose proof (strchrnul_here i Hi) as Hh.
  destruct ((byte_of m (s + i) =? 0) || (byte_of m (s + i) =? c)).
  - by rewrite (proj1 Hh eq_refl).
  - assert (i ≠ n) by (intros ->; by destruct Hh as [_ Hh]; specialize (Hh eq_refl)).
    replace (s + i + 1) with (s + (i + 1)) by lia. apply IH; lia.
Qed.

Lemma strchrnul_run fuel : n < Z.of_nat fuel → libs.strchrnul fuel s c m = Ret (s + n) m.
Proof.
  intros Hf. unfold libs.strchrnul. assert (u8 c = c) as -> by by apply wrap_id.
  destruct (Z.eqb_spec c 0) as [->|Hc0].
  - assert (cstr m s n) as Hs.
    { split; [done|intros i Hi; by apply Hp|by destruct Hend]. }
    by rewrite (bind_ret _ _ _ _ _ (strlen_run m s n Hs fuel Hr Hf)).
  - destruct (strchrnul_head_spec fuel 0) as [E|(i & E & Hi & Hal)]; [lia..| |];
      rewrite Z.add_0_r in E; rewrite (bind_ret _ _ _ _ _ E); [done|].
    destruct (strchrnul_words_spec fuel i) as (j & E2 & Hj); [lia|done|lia|].
    rewrite (bind_ret _ _ _ _ _ E2). apply strchrnul_tail_spec; lia.
Qed.

Lemma strchr_run fuel :
  n < Z.of_nat fuel →
  libs.strchr fuel s c m = Ret (if byte_of m (s + n) =? c then s + n else 0) m.
Proof.
  intros Hf. unfold libs.strchr. rewrite (bind_ret _ _ _ _ _ (strchrnul_run fuel Hf)).
  rewrite (bind_ret _ _ _ _ _ (strchrnul_ld n ltac:(lia))).
  assert (u8 c = c) as -> by by apply wrap_id. done.
Qed.

End strchrnul.

(** ** Comparison and search in string64.c *)

(** The [n] bytes at [a] and [b] agree. *)
Definition same (m : memory) (a b n : Z) : Prop :=
  ∀ i, 0 ≤ i < n → byte_of m (a + i) = byte_of m (b + i).

Lemma memcmp64_run m s1 s2 n fuel :
  readable m s1 (s1 + n) → readable m s2 (s2 + n) → 0 ≤ n → n < Z.of_nat fuel →
  ∃ d, string64.memcmp64 fuel true s1 s2 n m = Ret d m ∧ (d = 0 ↔ same m s1 s2 n).
Proof.
  intros Hr1 Hr2 Hn Hf.
  assert (∀ fuel i, 0 ≤ i ≤ n → same m s1 s2 i → n - i < Z.of_nat fuel →
    ∃ d, string64.memcmp64 fuel true (s1 + i) (s2 + i) (n - i) m = Ret d m ∧ (d = 0 ↔ same m s1 s2 n)) as HL.
  { intros f. induction f as [|f IH]; intros i Hi Hs Hfi; [lia|]. simpl.
    destruct (Z.eqb_spec (n - i) 0) as [E|E].
    { exists 0. split; [done|]. replace n with i by lia. done. }
    rewrite (bind_ret _ _ _ _ _ (ld_run _ _ _ (s1 + i) Hr1 ltac:(lia))).
    rewrite (bind_ret _ _ _ _ _ (ld_run _ _ _ (s2 + i) Hr2 ltac:(lia))).
    destruct (Z.eqb_spec (byte_of m (s1 + i)) (byte_of m (s2 + i))) as [Eb|Eb].
    - replace (s1 + i + 1) with (s1 + (i + 1)) by lia. replace (s2 + i + 1) with (s2 + (i + 1)) by lia.
      replace (n - i - 1) with (n - (i + 1)) by lia. apply IH; [lia| |lia].
      intros j Hj. destruct (decide (j = i)) as [->|]; [done|]. apply Hs. lia.
    - exists 1. split; [done|]. split; [done|]. intros Hsame. destruct Eb. apply Hsame. lia. }
  specialize (HL fuel 0 ltac:(lia) ltac:(intros i Hi; lia) ltac:(lia)).
  by rewrite !Z.add_0_r, Z.sub_0_r in HL.
Qed.

(** [s2] (of length [l2]) occurs in the string at [s1] of length [l1] at offset [i]. *)
Definition occurs (m : memory) (s1 l1 s2 l2 i : Z) : Prop :=
  0 ≤ i ∧ i + l2 ≤ l1 ∧ same m (s1 + i) s2 l2.

Lemma readable_sub m lo hi lo' hi' : readable m lo hi → lo ≤ lo' → hi' ≤ hi → readable m lo' hi'.
Proof. intros Hr H1 H2 x Hx. apply Hr. lia. Qed.

Section strstr64.
Context (m : memory) (s1 l1 s2 l2 : Z) (H1 : cstr m s1 l1) (H2 : cstr m s2 l2).
Context (Hr1 : readable m s1 (s1 + l1 + 1)) (Hr2 : readable m s2 (s2 + l2 + 1)).

(** Either the first occurrence, or there is none. *)
Definition first_occurrence (from : Z) (r : outcome memory Z) : Prop :=
  (∃ i, r = Ret (s1 + i) m ∧ occurs m s1 l1 s2 l2 i ∧
        ∀ j, from ≤ j < i → ¬ occurs m s1 l1 s2 l2 j) ∨
  (r = Ret 0 m ∧ ∀ j, from ≤ j → ¬ occurs m s1 l1 s2 l2 j).

Lemma strstr_loop_spec fuel : ∀ i,
  0 ≤ i → l1 - i < Z.of_nat fuel → l2 < Z.of_nat fuel → 0 < l2 → i ≤ l1 + 1 →
  l2 + (l1 - i) < Z.of_nat fuel →
  first_occurrence i (string64.strstr_loop fuel (s1 + i) s2 (l1 - i) l2 m).
Proof.
  induction fuel as [|fuel IH]; intros i Hi Hf Hf2 Hl2 Hil Hf3; [lia|].
  cbn [string64.strstr_loop]. destruct (Z.ltb_spec (l1 - i) l2) as [Hlt|Hge].
  { right. split; [done|]. intros j Hj (? & ? & _). lia. }
  destruct (memcmp64_run m (s1 + i) s2 l2 (S fuel)) as (d & Ed & Hd);
    [by eapply readable_sub; [exact Hr1|lia|lia]|by eapply readable_sub; [exact Hr2|lia|lia]|lia|lia|].
  rewrite (bind_ret _ _ _ _ _ Ed). destruct (Z.eqb_spec d 0) as [E0|E0].
  { left. exists i. split; [done|]. split; [split_and!; [lia|lia|by apply Hd]|]. intros; lia. }
  replace (s1 + i + 1) with (s1 + (i + 1)) by lia. replace (l1 - i - 1) with (l1 - (i + 1)) by lia.
  assert (¬ occurs m s1 l1 s2 l2 i) as Hno by (intros (_ & _ & Hs); by apply E0, Hd).
  destruct (IH (i + 1)) as [(k & E & Hk & Hmin)|[E Hnone]]; [lia..| |].
  - left. exists k. split_and!; try done. intros j Hj. destruct (decide (j = i)) as [->|]; [done|].
    apply Hmin. lia.
  - right. split; [done|]. intros j Hj. destruct (decide (j = i)) as [->|]; [done|]. apply Hnone. lia.
Qed.

Lemma strstr64_run fuel :
  l1 + l2 < Z.of_nat fuel → first_occurrence 0 (string64.strstr64 fuel s1 s2 m).
Proof.
  intros Hf. pose proof (cs_len _ _ _ H1). pose proof (cs_len _ _ _ H2). unfold string64.strstr64.
  rewrite (bind_ret _ _ _ _ _ (strlen64_run m s2 l2 H2 fuel Hr2 ltac:(lia))).
  destruct (Z.eqb_spec l2 0) as [E|E].
  { left. exists 0. rewrite Z.add_0_r. split; [done|]. split; [split_and!; [lia|lia|intros i Hi; lia]|].
    intros; lia. }
  rewrite (bind_ret _ _ _ _ _ (strlen64_run m s1 l1 H1 fuel Hr1 ltac:(lia))).
  pose proof (strstr_loop_spec fuel 0 ltac:(lia) ltac:(lia) ltac:(lia) ltac:(lia) ltac:(lia) ltac:(lia)) as HL.
  by rewrite Z.add_0_r, Z.sub_0_r in HL.
Qed.

End strstr64.

Lemma same_step m a b i :
  same m a b i → byte_of m (a + i) = byte_of m (b + i) → same m a b (i + 1).
Proof. intros Hs E j Hj. destruct (decide (j = i)) as [->|]; [done|]. apply Hs. lia. Qed.

(** The lexicographic order of two strings, by the first byte that differs; [d] is
    the sign of the comparison. *)
Definition lexicographic (m : memory) (s1 s2 bound d : Z) : Prop :=
  (d = 0 ∧ ∃ k, k ≤ bound ∧ same m s1 s2 k ∧ (k = bound ∨ byte_of m (s1 + k) = 0 ∧ byte_of m (s2 + k) = 0)) ∨
  ∃ k, 0 ≤ k < bound ∧ same m s1 s2 k ∧
    (d < 0 ∧ byte_of m (s1 + k) < byte_of m (s2 + k) ∨ 0 < d ∧ byte_of m (s2 + k) < byte_of m (s1 + k)).

Lemma strcmp64_run m s1 s2 l1 l2 fuel :
  cstr m s1 l1 → cstr m s2 l2 → readable m s1 (s1 + l1 + 1) → readable m s2 (s2 + l2 + 1) →
  l1 < Z.of_nat fuel →
  ∃ d, string64.strcmp64 fuel s1 s2 m = Ret d m ∧ lexicographic m s1 s2 (l1 + 1) d.
Proof.
  intros H1 H2 Hr1 Hr2 Hf. pose proof (cs_len _ _ _ H1). pose proof (cs_len _ _ _ H2).
  assert (∀ fuel i, 0 ≤ i ≤ l1 → i ≤ l2 → same m s1 s2 i → l1 - i < Z.of_nat fuel →
    ∃ d, string64.strcmp64 fuel (s1 + i) (s2 + i) m = Ret d m ∧ lexicographic m s1 s2 (l1 + 1) d) as HL.
  { intros f. induction f as [|f IH]; intros i Hi Hi2 Hs Hfi; [lia|]. simpl.
    rewrite (bind_ret _ _ _ _ _ (ld_run _ _ _ (s1 + i) Hr1 ltac:(lia))).
    rewrite (bind_ret _ _ _ _ _ (ld_run _ _ _ (s2 + i) Hr2 ltac:(lia))).
    destruct (byte_of_byte _ _ _ (s1 + i) Hr1 ltac:(lia)), (byte_of_byte _ _ _ (s2 + i) Hr2 ltac:(lia)).
    destruct (Z.eqb_spec (byte_of m (s1 + i)) 0) as [E1|E1], (Z.eqb_spec (byte_of m (s2 + i)) 0) as [E2|E2]; simpl.
    1: { exists 0. split; [done|]. left. split; [done|]. exists i. split_and!; auto; lia. }
    all: destruct (Z.eqb_spec (byte_of m (s1 + i) - byte_of m (s2 + i)) 0) as [E|E]; [try lia|].
    all: try (eexists; split; [done|]; right; exists i; split_and!; [lia|lia|done|lia]).
    replace (s1 + i + 1) with (s1 + (i + 1)) by lia. replace (s2 + i + 1) with (s2 + (i + 1)) by lia.
    assert (i ≠ l1) by (intros ->; by destruct E1, H1).
    assert (i ≠ l2) by (intros ->; by destruct E2, H2).
    apply IH; [lia|lia| |lia]. apply same_step; [done|lia]. }
  specialize (HL fuel 0 ltac:(lia) ltac:(lia) ltac:(intros i Hi; lia) ltac:(lia)).
  by rewrite !Z.add_0_r in HL.
Qed.

Lemma strncmp64_run m s1 s2 l1 l2 n fuel :
  cstr m s1 l1 → cstr m s2 l2 → readable m s1 (s1 + l1 + 1) → readable m s2 (s2 + l2 + 1) →
  0 ≤ n → n < Z.of_nat fuel →
  ∃ d, string64.strncmp64 fuel s1 s2 n m = Ret d m ∧ lexicographic m s1 s2 n d ∧ -1 ≤ d ≤ 1.
Proof.
  intros H1 H2 Hr1 Hr2 Hn Hf. pose proof (cs_len _ _ _ H1). pose proof (cs_len _ _ _ H2).
  assert (∀ fuel i, 0 ≤ i ≤ n → i ≤ l1 → i ≤ l2 → same m s1 s2 i → n - i < Z.of_nat fuel →
    ∃ d, string64.strncmp64 fuel (s1 + i) (s2 + i) (n - i) m = Ret d m ∧
         lexicographic m s1 s2 n d ∧ -1 ≤ d ≤ 1) as HL.
  { intros f. induction f as [|f IH]; intros i Hi Hi1 Hi2 Hs Hfi; [lia|]. simpl.
    destruct (Z.eqb_spec (n - i) 0) as [E0|E0].
    { exists 0. split; [done|]. split; [|lia]. left. split; [done|]. exists i. split_and!; auto; lia. }
    rewrite (bind_ret _ _ _ _ _ (ld_run _ _ _ (s1 + i) Hr1 ltac:(lia))).
    rewrite (bind_ret _ _ _ _ _ (ld_run _ _ _ (s2 + i) Hr2 ltac:(lia))).
    destruct (Z.eqb_spec (byte_of m (s1 + i)) (byte_of m (s2 + i))) as [E|E]; simpl.
    2: { eexists. split; [done|]. split; [|destruct (_ <? _); lia]. right. exists i. split; [lia|].
         split; [done|]. destruct (Z.ltb_spec (byte_of m (s1 + i)) (byte_of m (s2 + i))); lia. }
    destruct (Z.eqb_spec (byte_of m (s1 + i)) 0) as [E1|E1].
    { exists 0. split; [done|]. split; [|lia]. left. split; [done|]. exists i. split_and!; auto; [lia|].
      right. lia. }
    replace (s1 + i + 1) with (s1 + (i + 1)) by lia. replace (s2 + i + 1) with (s2 + (i + 1)) by lia.
    replace (n - i - 1) with (n - (i + 1)) by lia.
    assert (i ≠ l1) by (intros ->; by destruct E1, H1).
    assert (i ≠ l2) by (intros ->; rewrite E in E1; by destruct E1, H2).
    apply IH; [lia|lia|lia| |lia]. by apply same_step. }
  specialize (HL fuel 0 ltac:(lia) ltac:(lia) ltac:(lia) ltac:(intros i Hi; lia) ltac:(lia)).
  by rewrite !Z.add_0_r, Z.sub_0_r in HL.
Qed.

(** ** Copying *)

Lemma st_run m a b v : m a = Some v → st a b m = Ret tt (λ x, if x =? a then Some (u8 b) else m x).
Proof. intros E. unfold st. by rewrite E. Qed.

Lemma u8_byte b : byte b → u8 b = b.
Proof. intros Hb. by apply wrap_id. Qed.

(** What the forward copy leaves at [x]: the byte [x - dst] of the source as it is
    when it is read, which for a destination inside the source is a byte already
    written. *)
Definition copied (m : memory) (dst src n x : Z) : option Z :=
  if decide (dst ≤ x < dst + n)
  then m (if decide (src < dst) then src + (x - dst) mod (dst - src) else src + (x - dst))
  else m x.

Lemma memmove_loop_run k : ∀ m0 m dst src i,
  0 ≤ i → readable m0 src (src + i + Z.of_nat k) → readable m0 dst (dst + i + Z.of_nat k) →
  (∀ x, m x = copied m0 dst src i x) →
  ∃ m', string64.memmove_loop k (dst + i) (src + i) m = Ret tt m' ∧
        ∀ x, m' x = copied m0 dst src (i + Z.of_nat k) x.
Proof.
  induction k as [|k IH]; intros m0 m dst src i Hi Hs Hd Hm; cbn [string64.memmove_loop].
  { exists m. split; [done|]. by rewrite Z.add_0_r. }
  assert (∃ b, m (src + i) = Some b ∧ byte b ∧
    m0 (if decide (src < dst) then src + i mod (dst - src) else src + i) = Some b) as (b & Eb & Hb & E0).
  { rewrite Hm. unfold copied. destruct (decide (dst ≤ src + i < dst + i)) as [Hin|Hout].
    - destruct (decide (src < dst)); [|lia].
      assert ((src + i - dst) mod (dst - src) = i mod (dst - src)) as ->.
      { replace (src + i - dst) with (i + (-1) * (dst - src)) by lia. by rewrite Z.mod_add by lia. }
      pose proof (Z.mod_pos_bound i (dst - src) ltac:(lia)).
      pose proof (Z.mod_le i (dst - src) ltac:(lia) ltac:(lia)).
      destruct (Hs (src + i mod (dst - src))) as (b & Eb & Hb); [lia|]. eauto.
    - destruct (Hs (src + i)) as (b & Eb & Hb); [lia|]. exists b. split_and!; try done.
      destruct (decide (src < dst)); [|done]. by rewrite Z.mod_small by lia. }
  assert (∃ v, m (dst + i) = Some v) as (v & Ev).
  { rewrite Hm. unfold copied. destruct (decide (dst ≤ dst + i < dst + i)); [lia|].
    destruct (Hd (dst + i)) as (v & ? & _); [lia|eauto]. }
  assert (ld (src + i) m = Ret b m) as El by (unfold ld; by rewrite Eb).
  rewrite (bind_ret _ _ _ _ _ El), (bind_ret _ _ _ _ _ (st_run _ _ _ _ Ev)).
  rewrite <- !Z.add_assoc. destruct (IH m0 (λ x, if x =? dst + i then Some (u8 b) else m x) dst src (i + 1))
    as (m' & E' & Hm').
  - lia.
  - eapply readable_sub; [exact Hs|lia|lia].
  - eapply readable_sub; [exact Hd|lia|lia].
  - intros x. rewrite u8_byte by done. unfold copied. destruct (Z.eqb_spec x (dst + i)) as [->|Hx].
    + destruct (decide (dst ≤ dst + i < dst + (i + 1))); [|lia].
      by replace (dst + i - dst) with i by lia.
    + rewrite Hm. unfold copied. repeat case_decide; done || lia.
  - exists m'. split; [exact E'|]. intros x. rewrite Hm'. f_equal. lia.
Qed.

Lemma memmove64_run m dst src n :
  0 ≤ n → readable m src (src + n) → readable m dst (dst + n) →
  ∃ m', string64.memmove64 dst src n m = Ret dst m' ∧ ∀ x, m' x = copied m dst src n x.
Proof.
  intros Hn Hs Hd.
  destruct (memmove_loop_run (Z.to_nat n) m m dst src 0) as (m' & E & Hm').
  - lia.
  - rewrite Z.add_0_r, Z2Nat.id by lia. done.
  - rewrite Z.add_0_r, Z2Nat.id by lia. done.
  - intros x. unfold copied. by destruct (decide (dst ≤ x < dst + 0)); [lia|].
  - rewrite !Z.add_0_r, Z2Nat.id in * by lia. exists m'. unfold string64.memmove64.
    rewrite (bind_ret _ _ _ _ _ E). done.
Qed.

(** ** Properties of the string functions *)

(** The zero-byte test: a 64-bit word passes HASZERO exactly when one of its
    eight bytes is 0, and its exclusive or with the byte [c] repeated passes it
    exactly when one of them is [c]. *)
Theorem HASZERO_correct bs c :
  length bs = 8%nat → Forall byte bs → byte c →
  (HASZERO (le_word bs) = true ↔ 0 ∈ bs) ∧
  (HASZERO (le_word bs .^ u64 (ONES * c)) = true ↔ c ∈ bs).
Proof. intros Hl Hb Hc. split; [by apply HASZERO_bytes|by apply HASZERO_xor]. Qed.

Lemma HASZERO_correct_witness :
  HASZERO (le_word [1; 2; 128; 255; 7; 0; 1; 9]) = true ∧
  HASZERO (le_word [1; 1; 1; 1; 1; 1; 1; 1] .^ u64 (ONES * 2)) = false.
Proof.
  split.
  - apply (HASZERO_correct [1; 2; 128; 255; 7; 0; 1; 9] 5); [done| |done|set_solver].
    repeat (constructor; [done|]); constructor.
  - apply not_true_iff_false. intros H.
    apply (HASZERO_correct [1; 1; 1; 1; 1; 1; 1; 1] 2) in H; [set_solver|done| |done].
    repeat (constructor; [done|]); constructor.
Defined.

(** A memory that holds the bytes [bs] from address [a] on. *)
Definition holding (a : Z) (bs : list Z) : memory := λ x,
  if x <? a then None else bs !! Z.to_nat (x - a).

Lemma holding_readable a bs lo hi :
  a ≤ lo → hi ≤ a + Z.of_nat (length bs) → Forall byte bs → readable (holding a bs) lo hi.
Proof.
  intros Hlo Hhi Hb x Hx. unfold holding. destruct (Z.ltb_spec x a); [lia|].
  destruct (lookup_lt_is_Some_2 bs (Z.to_nat (x - a))) as (b & E); [lia|].
  exists b. split; [done|]. by eapply (list.Forall_lookup_1 byte).
Qed.

(** The string of [body] at [s] inside such a memory, checked by evaluation. *)
Lemma cstr_check m s n :
  forallb (λ i, negb (byte_of m (s + Z.of_nat i) =? 0)) (seq 0 (Z.to_nat n)) = true →
  0 ≤ n → byte_of m (s + n) = 0 → cstr m s n.
Proof.
  intros HF Hn H0. split; [done| |done]. intros i Hi E. rewrite forallb_forall in HF.
  specialize (HF (Z.to_nat i)). rewrite Z2Nat.id, E in HF by lia. simpl in HF.
  assert (false = true); [|done]. apply HF, in_seq. lia.
Qed.

(** C33. [strlen]: the word-at-a-time version of libs/string and the kernel's byte
    loop both return the length, for a string at any alignment.  The first reads
    no further than the end of the aligned word with the terminator, so it does
    not cross into another page. *)
Theorem strlen_correct m s n fuel :
  cstr m s n → readable m s (word_end (s + n)) → n < Z.of_nat fuel →
  libs.strlen fuel s m = Ret n m ∧ string64.strlen64 fuel s m = Ret n m.
Proof.
  intros Hs Hr Hf. split; [by apply strlen_run|]. apply strlen64_run; [done| |done].
  eapply readable_sub; [exact Hr|lia|]. pose proof (word_end_gt (s + n)). lia.
Qed.

(** hello world at address 4099, other bytes around it. *)
Definition sample_text : memory :=
  holding 4096 ([7; 7; 7] ++ [104; 101; 108; 108; 111; 32; 119; 111; 114; 108; 100; 0] ++
                [111; 32; 119; 0; 122; 122; 0; 0; 0]).

Lemma sample_readable lo hi : 4096 ≤ lo → hi ≤ 4120 → readable sample_text lo hi.
Proof.
  intros Hlo Hhi. apply holding_readable; [done|done|]. simpl.
  repeat (constructor; [done|]); constructor.
Qed.

Lemma sample_cstr : cstr sample_text 4099 11.
Proof. by apply cstr_check. Qed.
Lemma sample_needle : cstr sample_text 4111 3.
Proof. by apply cstr_check. Qed.

Lemma strlen_correct_witness :
  libs.strlen 40 4099 sample_text = Ret 11 sample_text ∧
  string64.strlen64 40 4099 sample_text = Ret 11 sample_text.
Proof. apply strlen_correct; [apply sample_cstr|by apply sample_readable|lia]. Defined.

(** [memchr] returns the address of the first byte equal to [c] among the [n]
    bytes at [s], or NULL when none is, whatever the alignment and reading none of
    the bytes after them; [strnlen] is the smaller of [n] and the length. *)
Theorem memchr_correct m s c n fuel :
  0 < s → 0 ≤ n → byte c → readable m s (s + n) → n < Z.of_nat fuel →
  ((libs.memchr fuel s c n m = Ret 0 m ∧ absent m s c n) ∨
   (∃ j, libs.memchr fuel s c n m = Ret (s + j) m ∧ 0 ≤ j < n ∧
         byte_of m (s + j) = c ∧ absent m s c j)) ∧
  (∃ k, libs.strnlen fuel s n m = Ret k m ∧ 0 ≤ k ≤ n ∧ absent m s 0 k ∧
        (k = n ∨ byte_of m (s + k) = 0)).
Proof.
  intros Hs0 Hn Hc Hr Hf. split.
  - destruct (memchr_run m s c n Hn Hc Hr fuel Hf) as (j & E & Hj & Ha & Hstop).
    destruct (decide (j = n)) as [->|]; [by left|]. right. exists j. split_and!; try done; [lia..|].
    by destruct Hstop.
  - destruct (memchr_run m s 0 n Hn ltac:(done) Hr fuel Hf) as (j & E & Hj & Ha & Hstop).
    exists j. split; [|done]. unfold libs.strnlen. rewrite (bind_ret _ _ _ _ _ E).
    unfold mret, M_ret. f_equal. destruct (decide (j = n)) as [->|]; [done|].
    destruct (Z.eqb_spec (s + j) 0); lia.
Qed.

Lemma memchr_correct_witness :
  libs.memchr 40 4099 111 12 sample_text = Ret 4103 sample_text ∧ absent sample_text 4099 111 4.
Proof.
  pose proof (memchr_correct sample_text 4099 111 12 40 ltac:(lia) ltac:(lia) ltac:(done)
                ltac:(by apply sample_readable) ltac:(lia)) as [[[E _]|(j & E & _ & _ & Ha)] _].
  - assert (ret_val (libs.memchr 40 4099 111 12 sample_text) = Some 4103) as Ev by (vm_compute; reflexivity).
    rewrite E in Ev. discriminate Ev.
  - assert (ret_val (libs.memchr 40 4099 111 12 sample_text) = Some 4103) as Ev by (vm_compute; reflexivity).
    rewrite E in Ev. injection Ev as Ej. assert (j = 4) by lia. subst j. by split.
Defined.

(** [strstr] of string64.c returns the address of the first occurrence of the
    second string in the first, or NULL when there is none. *)
Theorem strstr64_correct m s1 l1 s2 l2 fuel :
  cstr m s1 l1 → cstr m s2 l2 → readable m s1 (s1 + l1 + 1) → readable m s2 (s2 + l2 + 1) →
  l1 + l2 < Z.of_nat fuel →
  (∃ i, string64.strstr64 fuel s1 s2 m = Ret (s1 + i) m ∧ occurs m s1 l1 s2 l2 i ∧
        ∀ j, 0 ≤ j < i → ¬ occurs m s1 l1 s2 l2 j) ∨
  (string64.strstr64 fuel s1 s2 m = Ret 0 m ∧ ∀ j, 0 ≤ j → ¬ occurs m s1 l1 s2 l2 j).
Proof. intros H1 H2 Hr1 Hr2 Hf. exact (strstr64_run m s1 l1 s2 l2 H1 H2 Hr1 Hr2 fuel Hf). Qed.

Lemma strstr64_correct_witness :
  ∃ i, string64.strstr64 40 4099 4111 sample_text = Ret (4099 + i) sample_text ∧
       occurs sample_text 4099 11 4111 3 i.
Proof.
  pose proof (strstr64_correct sample_text 4099 11 4111 3 40 sample_cstr sample_needle
    ltac:(by apply sample_readable) ltac:(by apply sample_readable) ltac:(lia)) as [(i & E & Ho & _)|[E _]].
  - by exists i.
  - assert (ret_val (string64.strstr64 40 4099 4111 sample_text) = Some 4103) as Ev by (vm_compute; reflexivity).
    rewrite E in Ev. discriminate Ev.
Defined.

(** [strcmp] and [strncmp] of string64.c order strings by their first
    differing byte, [strncmp] within the first [n] bytes and with a result in
    -1, 0, 1. *)
Theorem strcmp64_correct m s1 s2 l1 l2 n fuel :
  cstr m s1 l1 → cstr m s2 l2 → readable m s1 (s1 + l1 + 1) → readable m s2 (s2 + l2 + 1) →
  0 ≤ n → n < Z.of_nat fuel → l1 < Z.of_nat fuel →
  (∃ d, string64.strcmp64 fuel s1 s2 m = Ret d m ∧ lexicographic m s1 s2 (l1 + 1) d) ∧
  (∃ d, string64.strncmp64 fuel s1 s2 n m = Ret d m ∧ lexicographic m s1 s2 n d ∧ -1 ≤ d ≤ 1).
Proof.
  intros H1 H2 Hr1 Hr2 Hn Hf Hf1. split; [by eapply strcmp64_run|by eapply strncmp64_run].
Qed.

Lemma strcmp64_correct_witness :
  ∃ d, string64.strcmp64 40 4099 4111 sample_text = Ret d sample_text ∧
       lexicographic sample_text 4099 4111 12 d.
Proof.
  refine (proj1 (strcmp64_correct sample_text 4099 4111 11 3 2 40 sample_cstr sample_needle
    _ _ _ _ _)); [by apply sample_readable|by apply sample_readable|lia..].
Defined.

(** [memmove] of string64.c copies the [n] bytes when the destination does not
    start inside the source, and changes nothing else. *)
Theorem memmove64_correct m dst src n :
  0 ≤ n → readable m src (src + n) → readable m dst (dst + n) → dst ≤ src ∨ src + n ≤ dst →
  ∃ m', string64.memmove64 dst src n m = Ret dst m' ∧
    (∀ i, 0 ≤ i < n → m' (dst + i) = m (src + i)) ∧
    (∀ x, ¬ (dst ≤ x < dst + n) → m' x = m x).
Proof.
  intros Hn Hs Hd Hov. destruct (memmove64_run m dst src n Hn Hs Hd) as (m' & E & Hm').
  exists m'. split; [done|]. split; intros x Hx; rewrite Hm'; unfold copied.
  - destruct (decide (dst ≤ dst + x < dst + n)); [|lia]. replace (dst + x - dst) with x by lia.
    destruct (decide (src < dst)); [|done]. by rewrite Z.mod_small by lia.
  - by destruct (decide (dst ≤ x < dst + n)).
Qed.

Lemma memmove64_correct_witness :
  ∃ m', string64.memmove64 4096 4099 11 sample_text = Ret 4096 m' ∧
    ∀ i, 0 ≤ i < 11 → m' (4096 + i) = sample_text (4099 + i).
Proof.
  destruct (memmove64_correct sample_text 4096 4099 11) as (m' & E & H & _);
    [lia|by apply sample_readable|by apply sample_readable|lia|]. by exists m'.
Defined.

(** When the destination starts inside the source the forward copy repeats the
    first [dst - src] bytes instead of moving the block. *)
Theorem memmove64_overlap m dst src n :
  src < dst < src + n → readable m src (src + n) → readable m dst (dst + n) →
  ∃ m', string64.memmove64 dst src n m = Ret dst m' ∧
    ∀ i, 0 ≤ i < n → m' (dst + i) = m (src + i mod (dst - src)).
Proof.
  intros Hov Hs Hd. destruct (memmove64_run m dst src n ltac:(lia) Hs Hd) as (m' & E & Hm').
  exists m'. split; [done|]. intros i Hi. rewrite Hm'. unfold copied.
  destruct (decide (dst ≤ dst + i < dst + n)); [|lia]. replace (dst + i - dst) with i by lia.
  by destruct (decide (src < dst)); [|lia].
Qed.

Lemma memmove64_overlap_witness :
  ∃ m', string64.memmove64 4100 4099 11 sample_text = Ret 4100 m' ∧
    m' (4100 + 5) = sample_text (4099 + 5 mod 1).
Proof.
  destruct (memmove64_overlap sample_text 4100 4099 11) as (m' & E & H);
    [lia|by apply sample_readable|by apply sample_readable|]. exists m'. split; [done|]. apply H. lia.
Defined.
