(* ===== verification/Grep.v ===== *)
(** * The grep program (user/grep.c)

    The regular expression matcher, proved against the language its patterns
    denote, and the line buffering of [grep], proved to write exactly the
    matching lines of its input.  Strings are the lists of their bytes before the
    terminator. *)

From Stdlib Require Import Lia ZArith.
From stdpp Require Import base list numbers option.
From S2P Require Import Prelude.

#[local] Open Scope Z_scope.

Definition STAR : Z := 42.
Definition DOT : Z := 46.
Definition CARET : Z := 94.
Definition DOLLAR : Z := 36.
Definition NL : Z := 10.

(** ** The matcher *)

(** [matchstar (c, re, text)], with [mh] for [matchhere (re, _)]. *)
Fixpoint matchstar (mh : list Z → bool) (c : Z) (text : list Z) : bool :=
  if mh text then true else
  match text with
  | [] => false
  | t :: text => if (t =? c) || (c =? DOT) then matchstar mh c text else false
  end.

Fixpoint matchhere (re text : list Z) : bool :=
  match re with
  | [] => true
  | c :: re1 =>
      let rest :=
        match text with
        | [] => false
        | t :: text => if (c =? DOT) || (c =? t) then matchhere re1 text else false
        end in
      match re1 with
      | [] => if c =? DOLLAR then match text with [] => true | _ => false end else rest
      | c1 :: re2 => if c1 =? STAR then matchstar (matchhere re2) c text else rest
      end
  end.

(** The loop of [match]: every suffix of the text, the empty one included. *)
Fixpoint match_loop (re text : list Z) : bool :=
  if matchhere re text then true else
  match text with [] => false | _ :: text => match_loop re text end.

Definition match_re (re text : list Z) : bool :=
  match re with
  | c :: re1 => if c =? CARET then matchhere re1 text else match_loop re text
  | [] => match_loop re text
  end.

(** ** The language of a pattern *)

(** A pattern is a sequence of items. *)
Inductive item : Type :=
| One (c : Z)       (* a byte, or any byte for a dot *)
| Many (c : Z)      (* any number of them *)
| End.              (* the end of the text *)

(** How a pattern reads: a star binds the byte before it, whatever it is, and a
    dollar is special at the end only. *)
Fixpoint items (re : list Z) : list item :=
  match re with
  | [] => []
  | c :: re1 =>
      match re1 with
      | [] => [if c =? DOLLAR then End else One c]
      | c1 :: re2 => if c1 =? STAR then Many c :: items re2 else One c :: items re1
      end
  end.

Definition accepts (c t : Z) : Prop := c = DOT ∨ t = c.

(** [denotes its text]: a prefix of the text is in the language of the items; after
    [End] nothing is left. *)
Inductive denotes : list item → list Z → Prop :=
| den_nil text : denotes [] text
| den_one c t its text : accepts c t → denotes its text → denotes (One c :: its) (t :: text)
| den_many_none c its text : denotes its text → denotes (Many c :: its) text
| den_many_more c t its text :
    accepts c t → denotes (Many c :: its) text → denotes (Many c :: its) (t :: text)
| den_end : denotes [End] [].

#[export] Hint Constructors denotes : yaos.

Lemma accepts_dec c t : ((t =? c) || (c =? DOT)) = true ↔ accepts c t.
Proof. unfold accepts. rewrite orb_true_iff, !Z.eqb_eq. naive_solver. Qed.

Lemma accepts_dec' c t : ((c =? DOT) || (c =? t)) = true ↔ accepts c t.
Proof. unfold accepts. rewrite orb_true_iff, !Z.eqb_eq. naive_solver. Qed.

Lemma matchstar_spec mh c its text :
  (∀ t, mh t = true ↔ denotes its t) → matchstar mh c text = true ↔ denotes (Many c :: its) text.
Proof.
  intros Hmh. induction text as [|t text IH]; cbn [matchstar]; destruct (mh _) eqn:E.
  - split; [|done]. intros _. by apply den_many_none, Hmh.
  - split; [done|]. inversion 1; subst. by rewrite <- E, Hmh.
  - split; [|done]. intros _. by apply den_many_none, Hmh.
  - destruct ((t =? c) || (c =? DOT)) eqn:Ea.
    + apply accepts_dec in Ea. rewrite IH. split; [by constructor|].
      inversion 1 as [| |? ? ? Hd| |]; subst; [|done]. apply Hmh in Hd. congruence.
    + split; [done|]. inversion 1 as [| |? ? ? Hd|? ? ? ? Ha|]; subst.
      * apply Hmh in Hd. congruence.
      * apply accepts_dec in Ha. congruence.
Qed.

(** Reading the first item off a text. *)
Lemma one_spec c its re1 t text :
  (matchhere re1 text = true ↔ denotes its text) →
  (if (c =? DOT) || (c =? t) then matchhere re1 text else false) = true ↔
  denotes (One c :: its) (t :: text).
Proof.
  intros IH. destruct ((c =? DOT) || (c =? t)) eqn:Ea.
  - apply accepts_dec' in Ea. rewrite IH. split; [by constructor|]. by inversion 1.
  - split; [done|]. inversion 1 as [|? ? ? ? Ha| | |]; subst. apply accepts_dec' in Ha. congruence.
Qed.

Lemma matchhere_spec n re : (length re ≤ n)%nat → ∀ text,
  matchhere re text = true ↔ denotes (items re) text.
Proof.
  revert re. induction n as [|n IH]; intros [|c re1] Hn text; cbn [length] in Hn; try lia;
    try by (split; auto with yaos).
  assert (∀ t text', text = t :: text' →
    ((if (c =? DOT) || (c =? t) then matchhere re1 text' else false) = true ↔
     denotes (One c :: items re1) text)) as Hone.
  { intros t text' ->. apply one_spec. apply IH. lia. }
  assert (¬ denotes (One c :: items re1) []) as Hno by inversion 1.
  destruct re1 as [|c1 re2]; cbn [matchhere items].
  - destruct (c =? DOLLAR).
    + destruct text; split; try done; [by constructor|]. by inversion 1.
    + destruct text as [|t text]; [by split|]. by apply (Hone t text).
  - destruct (c1 =? STAR).
    + apply matchstar_spec. intros t. apply IH. cbn [length] in Hn. lia.
    + destruct text as [|t text]; [by split|]. by apply (Hone t text).
Qed.

Lemma matchhere_denotes re text : matchhere re text = true ↔ denotes (items re) text.
Proof. by apply (matchhere_spec (length re)). Qed.

Lemma match_loop_spec re text :
  match_loop re text = true ↔ ∃ pre post, text = pre ++ post ∧ denotes (items re) post.
Proof.
  induction text as [|t text IH]; cbn [match_loop]; destruct (matchhere re _) eqn:E.
  - split; [|done]. intros _. exists [], []. split; [done|]. by apply matchhere_denotes.
  - split; [done|]. intros (pre & post & Et & Hd). symmetry in Et. apply app_nil in Et as [-> ->].
    apply matchhere_denotes in Hd. congruence.
  - split; [|done]. intros _. exists [], (t :: text). split; [done|]. by apply matchhere_denotes.
  - rewrite IH. split.
    + intros (pre & post & -> & Hd). by exists (t :: pre), post.
    + intros ([|t' pre] & post & Et & Hd); simpl in Et.
      * subst post. apply matchhere_denotes in Hd. congruence.
      * simplify_eq. eauto.
Qed.

(** ** The line loop *)

(** [strchr (p, '\n')] on the bytes [p] of the buffer up to the terminator: the
    line before the newline and what follows it. *)
Fixpoint find_nl (p : list Z) : option (list Z * list Z) :=
  match p with
  | [] => None
  | b :: p =>
      if b =? NL then Some ([], p) else
      if b =? 0 then None else
      match find_nl p with Some (line, rest) => Some (b :: line, rest) | None => None end
  end.

(** [while ((q = strchr (p, '\n')) != 0) { ... }]: the lines written and the bytes
    from [p] on when no newline is left. *)
Fixpoint line_loop (fuel : nat) (pattern p : list Z) : list (list Z) * list Z :=
  match fuel with
  | O => ([], p)
  | S fuel =>
      match find_nl p with
      | None => ([], p)
      | Some (line, rest) =>
          let '(out, p') := line_loop fuel pattern rest in
          (if match_re pattern line then (line ++ [NL]) :: out else out, p')
      end
  end.

Definition BUFSIZE : nat := 1024.

(** One round of the outer loop, on the [m] bytes kept from the rounds before and
    the bytes just read: what is written, and the bytes kept. *)
Definition grep_round (pattern kept chunk : list Z) : list (list Z) * list Z :=
  let buf := kept ++ chunk in
  let '(out, p) := line_loop (length buf) pattern buf in
  (out, if (length p =? length buf)%nat then [] else p).

(** [grep (pattern, fd)], for the sequence of non-empty results of [read]. *)
Fixpoint grep (pattern kept : list Z) (reads : list (list Z)) : list (list Z) :=
  match reads with
  | [] => []
  | chunk :: reads =>
      let '(out, kept) := grep_round pattern kept chunk in
      out ++ grep pattern kept reads
  end.

(** [read] returns at least one byte and at most the [sizeof (buf) - m - 1] asked for. *)
Fixpoint reads_fit (pattern kept : list Z) (reads : list (list Z)) : Prop :=
  match reads with
  | [] => True
  | chunk :: reads =>
      (0 < length chunk)%nat ∧ (length kept + length chunk ≤ BUFSIZE - 1)%nat ∧
      reads_fit pattern (grep_round pattern kept chunk).2 reads
  end.

(** The complete lines of a text, without their newlines. *)
Fixpoint lines_from (cur text : list Z) : list (list Z) :=
  match text with
  | [] => []
  | b :: text => if b =? NL then cur :: lines_from [] text else lines_from (cur ++ [b]) text
  end.

(** What is left after the last newline. *)
Fixpoint partial_from (cur text : list Z) : list Z :=
  match text with
  | [] => cur
  | b :: text => if b =? NL then partial_from [] text else partial_from (cur ++ [b]) text
  end.

Definition lines : list Z → list (list Z) := lines_from [].

(** The lines [grep] should write. *)
Definition matching (pattern : list Z) (ls : list (list Z)) : list (list Z) :=
  (λ l, l ++ [NL]) <$> filter (λ l, match_re pattern l = true) ls.

Definition textual (l : list Z) : Prop := Forall (λ b, b ≠ 0) l.

Lemma find_nl_spec cur p : textual p →
  match find_nl p with
  | Some (line, rest) =>
      lines_from cur p = (cur ++ line) :: lines_from [] rest ∧
      partial_from cur p = partial_from [] rest ∧
      (length rest < length p)%nat ∧ textual rest
  | None => lines_from cur p = [] ∧ partial_from cur p = cur ++ p ∧ NL ∉ p
  end.
Proof.
  revert cur. induction p as [|b p IH]; intros cur Hp; cbn [find_nl].
  { simpl. rewrite app_nil_r. split_and!; [done..|]. apply not_elem_of_nil. }
  apply list.Forall_cons in Hp as [Hb Hp]. cbn [lines_from partial_from].
  destruct (Z.eqb_spec b NL) as [->|Hn].
  { rewrite app_nil_r. split_and!; auto. }
  destruct (Z.eqb_spec b 0); [done|]. specialize (IH (cur ++ [b]) Hp).
  destruct (find_nl p) as [[line rest]|].
  - destruct IH as (-> & -> & Hl & Ht). rewrite <- app_assoc. split_and!; try done. simpl. lia.
  - destruct IH as (-> & -> & Hnl). rewrite <- app_assoc. split_and!; [done..|]. by apply not_elem_of_cons.
Qed.

Lemma line_loop_spec fuel pattern p :
  textual p → (length p ≤ fuel)%nat →
  line_loop fuel pattern p = (matching pattern (lines p), partial_from [] p).
Proof.
  unfold lines. revert p. induction fuel as [|fuel IH]; intros p Hp Hl.
  { destruct p; [done|simpl in Hl; lia]. }
  cbn [line_loop]. pose proof (find_nl_spec [] p Hp) as HF.
  destruct (find_nl p) as [[line rest]|].
  - destruct HF as (-> & -> & Hlt & Hr). rewrite IH by (done || lia). f_equal.
    unfold matching. rewrite filter_cons. simpl. by destruct (match_re pattern line).
  - destruct HF as (-> & -> & _). done.
Qed.

Lemma lines_app cur a b :
  lines_from cur (a ++ b) = lines_from cur a ++ lines_from (partial_from cur a) b.
Proof. revert cur. induction a as [|x a IH]; intros cur; simpl; [done|]. destruct (x =? NL); simpl; by rewrite IH. Qed.

Lemma lines_partial cur a : lines_from cur a = lines_from [] (cur ++ a) ∨ NL ∈ cur.
Proof.
  destruct (decide (NL ∈ cur)) as [|Hn]; [by right|left].
  rewrite lines_app. assert (∀ c d, NL ∉ d → lines_from c d = [] ∧ partial_from c d = c ++ d) as H.
  { intros c d. revert c. induction d as [|x d IH]; intros c Hd; simpl; [by rewrite app_nil_r|].
    apply not_elem_of_cons in Hd as [Hx Hd]. destruct (Z.eqb_spec x NL); [congruence|].
    destruct (IH (c ++ [x]) Hd) as [-> ->]. by rewrite <- app_assoc. }
  destruct (H [] cur Hn) as [-> ->]. done.
Qed.

Lemma partial_no_nl cur a : NL ∉ cur → NL ∉ partial_from cur a.
Proof.
  revert cur. induction a as [|x a IH]; intros cur Hc; simpl; [done|].
  destruct (Z.eqb_spec x NL); apply IH; [apply not_elem_of_nil|]. rewrite elem_of_app, list_elem_of_singleton.
  intros [?|?]; congruence.
Qed.

Lemma partial_length cur a :
  (length (partial_from cur a) ≤ length cur + length a)%nat ∧
  (NL ∈ a → (length (partial_from cur a) < length cur + length a)%nat).
Proof.
  revert cur. induction a as [|x a IH]; intros cur; simpl.
  { split; [lia|]. by intros ?%not_elem_of_nil. }
  destruct (Z.eqb_spec x NL) as [->|Hx].
  - destruct (IH []) as [H _]. simpl in H. split; [lia|]. intros _. lia.
  - destruct (IH (cur ++ [x])) as [H1 H2]. rewrite length_app in *. simpl in *. split; [lia|].
    intros [E|Hin]%elem_of_cons; [congruence|]. specialize (H2 Hin). lia.
Qed.

Lemma grep_round_spec pattern kept chunk :
  textual kept → textual chunk → NL ∈ chunk →
  grep_round pattern kept chunk =
    (matching pattern (lines (kept ++ chunk)), partial_from [] (kept ++ chunk)).
Proof.
  intros Hk Hc Hnl. unfold grep_round. rewrite line_loop_spec by (done || by apply Forall_app_2).
  destruct (partial_length [] (kept ++ chunk)) as [_ Hlt].
  specialize (Hlt ltac:(apply elem_of_app; by right)). simpl in Hlt.
  destruct (Nat.eqb_spec (length (partial_from [] (kept ++ chunk))) (length (kept ++ chunk))); [lia|done].
Qed.

Lemma textual_partial cur a : textual cur → textual a → textual (partial_from cur a).
Proof.
  revert cur. induction a as [|x a IH]; intros cur Hc Ha; simpl; [done|].
  apply list.Forall_cons in Ha as [Hx Ha]. destruct (x =? NL); apply IH; auto; [by apply Forall_nil|].
  apply Forall_app_2; [done|]. by apply list.Forall_singleton.
Qed.

Lemma grep_lines pattern reads kept :
  NL ∉ kept → textual kept → Forall textual reads → Forall (λ chunk, NL ∈ chunk) reads →
  grep pattern kept reads = matching pattern (lines (kept ++ concat reads)).
Proof.
  revert kept. induction reads as [|chunk reads IH]; intros kept Hk Ht Hrs Hnl; cbn [grep concat].
  { rewrite app_nil_r. destruct (lines_partial kept []) as [E|E]; [|done]. rewrite app_nil_r in E.
    unfold lines. by rewrite <- E. }
  apply list.Forall_cons in Hrs as [Hc Hrs]. apply list.Forall_cons in Hnl as [Hn Hnl].
  rewrite grep_round_spec by done.
  assert (NL ∉ partial_from [] (kept ++ chunk)) as Hp by apply partial_no_nl, not_elem_of_nil.
  rewrite IH; [|done| |done|done].
  - unfold lines, matching. rewrite app_assoc, (lines_app [] (kept ++ chunk)).
    destruct (lines_partial (partial_from [] (kept ++ chunk)) (concat reads)) as [->|]; [|done].
    by rewrite list.filter_app, fmap_app.
  - apply textual_partial; [by apply Forall_nil|by apply Forall_app_2].
Qed.

Lemma find_nl_length p line rest : find_nl p = Some (line, rest) → (length rest < length p)%nat.
Proof.
  revert line. induction p as [|b p IH]; intros line; cbn [find_nl]; [done|].
  destruct (b =? NL); [intros [= _ <-]; simpl; lia|]. destruct (b =? 0); [done|].
  destruct (find_nl p) as [[l r]|]; [|done]. intros [= _ <-]. specialize (IH l eq_refl). simpl. lia.
Qed.

Lemma line_loop_length fuel pattern p : (length (line_loop fuel pattern p).2 ≤ length p)%nat.
Proof.
  revert p. induction fuel as [|fuel IH]; intros p; cbn [line_loop]; [done|].
  destruct (find_nl p) as [[line rest]|] eqn:E; [|done]. apply find_nl_length in E.
  specialize (IH rest). destruct (line_loop fuel pattern rest). simpl in *. lia.
Qed.

Lemma grep_round_room pattern kept chunk :
  (0 < length chunk)%nat → (length kept + length chunk ≤ BUFSIZE - 1)%nat →
  (length (grep_round pattern kept chunk).2 < BUFSIZE - 1)%nat.
Proof.
  intros Hc Hfit. unfold grep_round. pose proof (line_loop_length (length (kept ++ chunk)) pattern (kept ++ chunk)) as H.
  destruct (line_loop _ _ _) as [out p]. simpl in *. rewrite length_app in *.
  destruct (Nat.eqb_spec (length p) (length kept + length chunk)); unfold BUFSIZE in *; simpl; lia.
Qed.

(** ** Properties *)

(** C36. [match] decides the language of the pattern: with a leading caret a prefix
    of the text is in it, without one some substring is; both directions, for every
    pattern and text. *)
Theorem match_correct re text :
  match_re re text = true ↔
  match re with
  | c :: re1 =>
      if c =? CARET then denotes (items re1) text
      else ∃ pre post, text = pre ++ post ∧ denotes (items re) post
  | [] => True
  end.
Proof.
  destruct re as [|c re1]; simpl.
  - rewrite match_loop_spec. split; [done|]. intros _. exists [], text. split; [done|]. constructor.
  - destruct (c =? CARET); [apply matchhere_denotes|apply match_loop_spec].
Qed.

(** [grep] writes exactly the matching lines of its input, in order and with
    their newlines, when every result of [read] has a newline in it: lines that
    span two reads are put together in the buffer. *)
Theorem grep_correct pattern reads :
  Forall textual reads → Forall (λ chunk, NL ∈ chunk) reads →
  grep pattern [] reads = matching pattern (lines (concat reads)).
Proof. intros Ht Hnl. apply grep_lines; [apply not_elem_of_nil|by apply Forall_nil|done|done]. Qed.

(** a.*c on two reads, with a line in both. *)
Lemma grep_correct_witness :
  grep [97; DOT; STAR; 99] [] [[98; 97; NL; 97; 98]; [98; 99; NL]] = [[97; 98; 98; 99; NL]].
Proof.
  rewrite grep_correct; [vm_compute; reflexivity| |].
  - repeat constructor; done.
  - repeat constructor; vm_compute; repeat constructor.
Defined.

(** The buffer of [grep] never overflows and never gets stuck: the bytes kept
    plus the bytes read leave room for the terminator, and after every round at
    least one byte can be read. *)
Theorem grep_room pattern kept chunk reads :
  reads_fit pattern kept (chunk :: reads) →
  (length (kept ++ chunk) < BUFSIZE)%nat ∧
  (0 < BUFSIZE - length (grep_round pattern kept chunk).2 - 1)%nat.
Proof.
  intros (Hc & Hfit & _). pose proof (grep_round_room pattern kept chunk Hc Hfit).
  rewrite length_app. unfold BUFSIZE in *. lia.
Qed.

Lemma grep_room_witness :
  reads_fit [] [97] [[98; NL]] ∧ (0 < BUFSIZE - length (grep_round [] [97%Z] [98%Z; NL]).2 - 1)%nat.
Proof.
  assert (reads_fit [] [97] [[98; NL]]) as H by (unfold reads_fit, BUFSIZE; simpl; lia).
  split; [exact H|]. apply (grep_room [] [97] [98; NL] [] H).
Defined.

(** A line longer than what one [read] returns is lost: when the buffer has no
    newline its bytes are dropped. *)
Theorem grep_drops_partial pattern kept chunk reads :
  textual kept → textual chunk → NL ∉ kept → NL ∉ chunk →
  grep pattern kept (chunk :: reads) = grep pattern [] reads.
Proof.
  intros Hk Hc Hnk Hnc. cbn [grep]. unfold grep_round.
  assert (line_loop (length (kept ++ chunk)) pattern (kept ++ chunk) = ([], kept ++ chunk)) as ->.
  { assert (NL ∉ kept ++ chunk) as Hn by (rewrite elem_of_app; naive_solver).
    pose proof (find_nl_spec [] (kept ++ chunk) ltac:(by apply Forall_app_2)) as HF.
    destruct (length (kept ++ chunk)); cbn [line_loop]; [done|].
    destruct (find_nl (kept ++ chunk)) as [[line rest]|] eqn:E; [|done].
    exfalso. clear HF. revert line E. generalize dependent (kept ++ chunk).
    induction l as [|b l IH]; intros Hn line; cbn [find_nl]; [done|].
    apply not_elem_of_cons in Hn as [Hb Hn]. destruct (Z.eqb_spec b NL); [congruence|].
    destruct (b =? 0); [done|]. destruct (find_nl l) as [[l' r]|] eqn:E; [|done].
    intros [= <- <-]. by apply (IH Hn l'). }
  rewrite Nat.eqb_refl. done.
Qed.

Lemma grep_drops_partial_witness :
  grep [97] [] [[97; 97]; [98; NL]] = [] ∧ matching [97] (lines [97; 97; 98; NL]) = [[97; 97; 98; NL]].
Proof.
  split; [|vm_compute; reflexivity].
  rewrite (grep_drops_partial [97] [] [97; 97] [[98; NL]]); [vm_compute; reflexivity| | | |].
  - by apply Forall_nil.
  - by repeat constructor.
  - apply not_elem_of_nil.
  - rewrite !not_elem_of_cons. split_and!; [done..|]. apply not_elem_of_nil.
Defined.
