(* ===== verification/Ulib.v ===== *)
(** * The library of user programs and wc (ulib/ulib.c, ulib/printf.c, user/wc.c)

    The string functions work on the memory of Strings.v; what [printf] writes and what
    [gets] reads are lists of bytes, since write and read are system calls.  [wc] is
    shown to count the same whatever the sizes of the blocks its input arrives in. *)

From Stdlib Require Import Lia ZArith.
From stdpp Require Import base list sets numbers option.
From S2P Require Import Prelude Bitops Strings.

#[local] Open Scope Z_scope.
#[local] Open Scope yaos_scope.

Module ulib.

(** ** ulib.c *)

(** [while (( *s++ = *t++) != 0);] *)
Fixpoint strcpy_loop (fuel : nat) (s t : Z) : M memory unit :=
  match fuel with
  | O => out_of_fuel
  | S fuel =>
      c ← ld t;
      st s c ;;
      if c =? 0 then mret tt else strcpy_loop fuel (s + 1) (t + 1)
  end.

Definition strcpy (fuel : nat) (s t : Z) : M memory Z :=
  strcpy_loop fuel s t ;;
  mret s.

Fixpoint strcmp (fuel : nat) (p q : Z) : M memory Z :=
  match fuel with
  | O => out_of_fuel
  | S fuel =>
      a ← ld p;
      b ← ld q;
      if negb (a =? 0) && (a =? b) then strcmp fuel (p + 1) (q + 1) else mret (a - b)
  end.

Fixpoint strchr (fuel : nat) (s c : Z) : M memory Z :=
  match fuel with
  | O => out_of_fuel
  | S fuel =>
      b ← ld s;
      if b =? 0 then mret 0 else if b =? c then mret s else strchr fuel (s + 1) c
  end.

(** A character [read] has given, or [None] for its end or failure. *)
Record io : Type := mk_io { mem : memory; input : list (option Z) }.

Definition on_mem {A} (m : M memory A) : M io A := zoom mem (λ m s, mk_io m (input s)) m.

(** [read(0, &c, 1)] *)
Definition read1 : M io (option Z) :=
  l ← gets input;
  match l with
  | [] => mret None
  | c :: l => modify (λ s, mk_io (mem s) l) ;; mret c
  end.

(** The index at which [gets] ends. *)
Fixpoint gets_loop (fuel : nat) (buf max i : Z) : M io Z :=
  if i + 1 <? max then
    match fuel with
    | O => out_of_fuel
    | S fuel =>
        o ← read1;
        match o with
        | None => mret i
        | Some c =>
            on_mem (st (buf + i) c) ;;
            if (c =? 10) || (c =? 13) then mret (i + 1) else gets_loop fuel buf max (i + 1)
        end
    end
  else mret i.

Definition ugets (buf max : Z) : M io Z :=
  i ← gets_loop (Z.to_nat max) buf max 0;
  on_mem (st (buf + i) 0) ;;
  mret buf.

(** [while('0' <= *s && *s <= '9') n = n*10 + *s++ - '0';] *)
Fixpoint atoi_loop (fuel : nat) (s n : Z) : M memory Z :=
  match fuel with
  | O => out_of_fuel
  | S fuel =>
      c ← ld s;
      if (48 <=? c) && (c <=? 57) then atoi_loop fuel (s + 1) (s32 (n * 10 + c - 48)) else mret n
  end.

Definition atoi (fuel : nat) (s : Z) : M memory Z := atoi_loop fuel s 0.

(** ** printf.c *)

Definition digit (d : Z) : Z := nth (Z.to_nat d) [48; 49; 50; 51; 52; 53; 54; 55; 56; 57; 65; 66; 67; 68; 69; 70] 0.

(** [do buf[i++] = digits[x % base]; while((x /= base) != 0);] *)
Fixpoint digits_loop (fuel : nat) (x base : Z) : option (list Z) :=
  match fuel with
  | O => None
  | S fuel =>
      if x / base =? 0 then Some [digit (x mod base)]
      else l ← digits_loop fuel (x / base) base; Some (digit (x mod base) :: l)
  end.

(** The characters written; the array [buf] has room for 16. *)
Definition printint (xx base : Z) (sgn : bool) : option (list Z) :=
  let neg := sgn && (xx <? 0) in
  let x := if neg then u32 (- xx) else u32 xx in
  l ← digits_loop 16 x base;
  let buf := if neg then l ++ [45] else l in
  if (length buf <=? 16)%nat then Some (rev buf) else None.

(** An argument: a number, or a pointer to a string that may be null. *)
Inductive arg : Type := AInt (x : Z) | AStr (s : option (list Z)).

(** What the conversion [c] writes with the arguments [args], and the arguments left. *)
Definition convert (c : Z) (args : list arg) : option (list Z * list arg) :=
  if c =? 100 then
    match args with AInt x :: args => l ← printint (s32 x) 10 true; Some (l, args) | _ => None end
  else if (c =? 120) || (c =? 112) then
    match args with AInt x :: args => l ← printint (s32 x) 16 false; Some (l, args) | _ => None end
  else if c =? 115 then
    match args with
    | AStr None :: args => Some ([40; 110; 117; 108; 108; 41], args)
    | AStr (Some s) :: args => Some (s, args)
    | _ => None
    end
  else if c =? 99 then
    match args with AInt x :: args => Some ([u8 x], args) | _ => None end
  else if c =? 37 then Some ([c], args)
  else Some ([37; c], args).

(** [state] is whether the character before was a percent sign. *)
Fixpoint printf_loop (fmt : list Z) (state : bool) (args : list arg) : option (list Z) :=
  match fmt with
  | [] => Some []
  | c :: fmt =>
      if state then
        '(l, args) ← convert c args;
        r ← printf_loop fmt false args;
        Some (l ++ r)
      else if c =? 37 then printf_loop fmt true args
      else r ← printf_loop fmt false args; Some (c :: r)
  end.

Definition printf (fmt : list Z) (args : list arg) : option (list Z) := printf_loop fmt false args.

End ulib.

(** ** wc.c *)

Module wc.

(** [l], [w], [c] and [inword]. *)
Record counts : Type := mk_counts { lines : Z; words : Z; chars : Z; inword : bool }.

Definition SPACES : list Z := [32; 13; 9; 10; 11].

Definition wc_char (k : counts) (b : Z) : counts :=
  let k := mk_counts (lines k) (words k) (s32 (chars k + 1)) (inword k) in
  let k := if b =? 10 then mk_counts (s32 (lines k + 1)) (words k) (chars k) (inword k) else k in
  if bool_decide (b ∈ SPACES) then mk_counts (lines k) (words k) (chars k) false
  else if negb (inword k) then mk_counts (lines k) (s32 (words k + 1)) (chars k) true
  else k.

(** The blocks that read returned, up to the end of the file. *)
Definition wc_loop (reads : list (list Z)) : counts :=
  foldl (λ k chunk, foldl wc_char k chunk) (mk_counts 0 0 0 false) reads.

(** What is printed, [%d %d %d %s] and the end of the line, and whether [wc] returns: after
    the blocks [reads], read returned 0, or a negative number when [failed]; then the
    message is [wc: read error] and the program exits. *)
Definition wc (reads : list (list Z)) (failed : bool) (name : list Z) : option (list Z * bool) :=
  let k := wc_loop reads in
  if failed then
    l ← ulib.printf [119; 99; 58; 32; 114; 101; 97; 100; 32; 101; 114; 114; 111; 114; 10] [];
    Some (l, false)
  else
    l ← ulib.printf [37; 100; 32; 37; 100; 32; 37; 100; 32; 37; 115; 10]
          [ulib.AInt (lines k); ulib.AInt (words k); ulib.AInt (chars k); ulib.AStr (Some name)];
    Some (l, true).

End wc.

(** ** Numbers and their text *)

Import ulib.

Lemma digit_char d : 0 ≤ d < 10 → digit d = 48 + d.
Proof. intros Hd. assert (d = 0 ∨ d = 1 ∨ d = 2 ∨ d = 3 ∨ d = 4 ∨ d = 5 ∨ d = 6 ∨ d = 7 ∨ d = 8 ∨ d = 9) by lia. naive_solver. Qed.

(** The value of digits, the lowest one first. *)
Fixpoint value (base : Z) (l : list Z) : Z := match l with [] => 0 | d :: l => d + base * value base l end.

Lemma digits_loop_run base fuel x : 2 ≤ base ≤ 16 → 0 ≤ x < base ^ Z.of_nat fuel → (0 < fuel)%nat →
  ∃ ds, digits_loop fuel x base = Some (digit <$> ds) ∧ value base ds = x ∧ Forall (λ d, 0 ≤ d < base) ds ∧ (0 < length ds ≤ fuel)%nat.
Proof.
  intros Hb. revert x. induction fuel as [|fuel IH]; intros x Hx Hf; [lia|]. cbn [digits_loop].
  pose proof (Z.mod_pos_bound x base ltac:(lia)). pose proof (Z.div_mod x base ltac:(lia)) as Hdm.
  destruct (Z.eqb_spec (x / base) 0) as [E|E].
  - exists [x mod base]. split_and!; [done|simpl; lia|constructor; [lia|constructor]|simpl; lia|simpl; lia].
  - rewrite Nat2Z.inj_succ, Z.pow_succ_r in Hx by lia. assert (0 ≤ x / base < base ^ Z.of_nat fuel) as Hx'.
    { split; [apply Z.div_pos; lia|apply Z.div_lt_upper_bound; lia]. }
    destruct fuel as [|fuel]; [simpl in Hx'; lia|].
    destruct (IH (x / base) Hx' ltac:(lia)) as (ds & Ed & Hv & HF & Hl). rewrite Ed. exists (x mod base :: ds).
    split_and!; [done|simpl; lia|by constructor|simpl; lia|simpl; lia].
Qed.

Lemma digits_loop_more n k x base l : digits_loop n x base = Some l → digits_loop (n + k) x base = Some l.
Proof.
  revert x l. induction n as [|n IH]; intros x l E; [done|]. cbn [digits_loop Nat.add] in *. destruct (x / base =? 0); [done|].
  destruct (digits_loop n (x / base) base) as [l'|] eqn:E'; [|done]. by rewrite (IH _ _ E').
Qed.

(** Every number has its text in the array. *)
Lemma printint_run xx base sgn : base = 10 ∨ base = 16 → - 2 ^ 31 ≤ xx < 2 ^ 31 →
  ∃ ds, printint xx base sgn = Some ((if sgn && (xx <? 0) then [45] else []) ++ (digit <$> rev ds)) ∧
    value base ds = (if sgn && (xx <? 0) then - xx else xx mod 2 ^ 32) ∧ Forall (λ d, 0 ≤ d < base) ds ∧ (0 < length ds ≤ 10)%nat.
Proof.
  intros Hb Hx. unfold printint. set (neg := sgn && (xx <? 0)).
  assert ((if neg then u32 (- xx) else u32 xx) = if neg then - xx else xx mod 2 ^ 32) as ->.
  { destruct neg eqn:En; [|done]. apply andb_true_iff in En as [_ En%Z.ltb_lt]. apply wrap_id. unfold in_u. lia. }
  set (x := if neg then _ else _). assert (0 ≤ x < 2 ^ 32) as Hx2.
  { unfold x. destruct neg eqn:En; [|apply Z.mod_pos_bound; lia]. apply andb_true_iff in En as [_ En%Z.ltb_lt]. lia. }
  destruct (digits_loop_run base 10 x) as (ds & Ed & Hv & HF & Hl); [lia|destruct Hb as [-> | ->]; lia|lia|].
  pose proof (digits_loop_more 10 6 x base _ Ed) as Ed16. cbn [Nat.add] in Ed16. rewrite Ed16.
  cbn [mbind option_bind]. exists ds. split_and!; try done; [|lia|lia].
  destruct neg; rewrite (proj2 (Nat.leb_le _ _)) by (rewrite ?length_app, length_fmap; simpl; lia).
  - rewrite rev_app_distr. cbn. by rewrite <- map_rev.
  - f_equal. by rewrite <- map_rev.
Qed.

(** The bytes [l] are in the memory from [s] on. *)
Definition stored (m : memory) (s : Z) (l : list Z) : Prop := ∀ i b, l !! i = Some b → m (s + Z.of_nat i) = Some b.

Lemma stored_cons m s b l : stored m s (b :: l) → m s = Some b ∧ stored m (s + 1) l.
Proof.
  intros Hs. split; [specialize (Hs 0%nat b eq_refl); by rewrite Z.add_0_r in Hs|]. intros i c Hi. specialize (Hs (S i) c Hi).
  by replace (s + 1 + Z.of_nat i) with (s + Z.of_nat (S i)) by lia.
Qed.

Lemma value_app base l d : value base (l ++ [d]) = value base l + base ^ Z.of_nat (length l) * d.
Proof.
  induction l as [|e l IH]; cbn [value app length]; [rewrite Z.mul_1_l; lia|]. rewrite IH, Nat2Z.inj_succ, Z.pow_succ_r by lia. ring.
Qed.

(** Reading digits, the highest one first. *)
Lemma atoi_loop_run m ds : ∀ s n c fuel, stored m s ((digit <$> ds) ++ [c]) → Forall (λ d, 0 ≤ d < 10) ds → ¬ 48 ≤ c ≤ 57 → 0 ≤ n →
  n * 10 ^ Z.of_nat (length ds) + value 10 (rev ds) < 2 ^ 31 → (length ds < fuel)%nat →
  atoi_loop fuel s n m = Ret (n * 10 ^ Z.of_nat (length ds) + value 10 (rev ds)) m.
Proof.
  induction ds as [|d ds IH]; intros s n c fuel Hs HF Hc Hn Hlt Hf; (destruct fuel as [|fuel]; [simpl in Hf; lia|]); cbn [atoi_loop fmap list_fmap app] in *;
    apply stored_cons in Hs as [Hb Hs]; (assert (ld s m = Ret _ m) as El by (unfold ld; by rewrite Hb)); rewrite (bind_ret _ _ _ _ _ El).
  - destruct (Z.leb_spec 48 c), (Z.leb_spec c 57); try lia; cbn [andb length rev value]; f_equal; simpl; lia.
  - apply list.Forall_cons in HF as [Hd HF]. rewrite digit_char by lia. rewrite (proj2 (Z.leb_le _ _)), (proj2 (Z.leb_le _ _)) by lia. cbn [andb].
    cbn [rev length] in *. rewrite value_app, length_rev, Nat2Z.inj_succ, Z.pow_succ_r in * by lia.
    assert (0 ≤ value 10 (rev ds)) as Hv.
    { assert (Forall (λ d, 0 ≤ d < 10) (rev ds)) as HR by (by apply Forall_rev). clear -HR. induction HR as [|e l He _ IH]; cbn [value]; lia. }
    assert (0 < 10 ^ Z.of_nat (length ds)) by lia. assert (0 ≤ n * 10 + d < 2 ^ 31) as Hr by nia.
    replace (n * 10 + (48 + d) - 48) with (n * 10 + d) by lia. rewrite s32_id by lia.
    rewrite (IH (s + 1) (n * 10 + d) c fuel); [|done|done|done|lia|nia|simpl in Hf; lia]. f_equal. ring.
Qed.

(** The text [printf] writes for a number is read back by [atoi]. *)
Theorem printf_atoi n : 0 ≤ n < 2 ^ 31 → ∃ text, printf [37; 100] [AInt n] = Some text ∧
  ∀ m s c fuel, stored m s (text ++ [c]) → ¬ 48 ≤ c ≤ 57 → (length text < fuel)%nat → atoi fuel s m = Ret n m.
Proof.
  intros Hn. destruct (printint_run n 10 true) as (ds & E & Hv & HF & Hl); [by left|lia|]. rewrite (proj2 (Z.ltb_ge n 0)) in * by lia. cbn [andb app] in *.
  rewrite Z.mod_small in Hv by lia. exists (digit <$> rev ds). split.
  - unfold printf. cbn [printf_loop Z.eqb Pos.eqb]. unfold convert. cbn [Z.eqb Pos.eqb]. rewrite s32_id, E by lia. cbn. by rewrite app_nil_r.
  - intros m s c fuel Hs Hc Hf. unfold atoi. rewrite (atoi_loop_run m (rev ds) s 0 c fuel Hs); [|by apply Forall_rev|done|lia| |by rewrite length_fmap in Hf].
    + rewrite rev_involutive, Hv. by rewrite Z.mul_0_l.
    + rewrite rev_involutive, Hv. lia.
Qed.

(** ** gets *)

(** The line [gets] takes: up to [n] characters, to the first end of line. *)
Fixpoint line (n : nat) (inp : list (option Z)) : list Z :=
  match n, inp with
  | S n, Some c :: inp => c :: (if (c =? 10) || (c =? 13) then [] else line n inp)
  | _, _ => []
  end.

(** The memory with [l] from [a] on. *)
Definition written (m : memory) (a : Z) (l : list Z) : memory := λ x,
  if decide (a ≤ x < a + Z.of_nat (length l)) then l !! Z.to_nat (x - a) else m x.

Lemma written_snoc m a l b : byte b → ∀ x, (if x =? a + Z.of_nat (length l) then Some (u8 b) else written m a l x) = written m a (l ++ [b]) x.
Proof.
  intros Hb x. unfold written. rewrite length_app. cbn [length]. destruct (Z.eqb_spec x (a + Z.of_nat (length l))) as [->|Hx].
  - rewrite decide_True by lia. rewrite u8_byte by done. rewrite lookup_app_r by lia.
    by replace (Z.to_nat (a + Z.of_nat (length l) - a) - length l)%nat with 0%nat by lia.
  - do 2 case_decide; try lia; [|done]. rewrite lookup_app_l by lia. done.
Qed.

Lemma gets_loop_run m0 buf max k : ∀ m inp done, readable m0 buf (buf + max) → Forall (λ o, ∀ c, o = Some c → byte c) inp →
  (∀ x, m x = written m0 buf done x) → Z.of_nat (length done) + Z.of_nat k + 1 = max →
  ∃ s', gets_loop (k + 1) buf max (Z.of_nat (length done)) (mk_io m inp) = Ret (Z.of_nat (length (done ++ line k inp))) s' ∧
    ∀ x, mem s' x = written m0 buf (done ++ line k inp) x.
Proof.
  induction k as [|k IH]; intros m inp dn Hr Hi Hm Hk; cbn [gets_loop Nat.add].
  { rewrite (proj2 (Z.ltb_ge _ _)) by lia. cbn [line]. rewrite app_nil_r. by eexists. }
  rewrite (proj2 (Z.ltb_lt _ _)) by lia. destruct inp as [|[c|] inp].
  1,3: cbn [line]; rewrite app_nil_r; eexists; (split; [reflexivity|done]).
  apply list.Forall_cons in Hi as [Hc Hi]. specialize (Hc c eq_refl). erewrite bind_ret by reflexivity. cbn beta iota.
  destruct (Hr (buf + Z.of_nat (length dn))) as (v & Ev & _); [lia|].
  assert (m (buf + Z.of_nat (length dn)) = Some v) as Ev' by (rewrite Hm; unfold written; rewrite decide_False by lia; done).
  erewrite bind_ret by (apply zoom_ret; by apply (st_run _ _ _ v)). cbn [line ulib.input].
  assert (∀ x, (if x =? buf + Z.of_nat (length dn) then Some (u8 c) else m x) = written m0 buf (dn ++ [c]) x) as Hm'.
  { intros x. rewrite Hm. by apply written_snoc. }
  destruct ((c =? 10) || (c =? 13)).
  - rewrite length_app. cbn [length]. eexists. split; [unfold mret, M_ret; do 2 f_equal; lia|done].
  - destruct (IH (λ x, if x =? buf + Z.of_nat (length dn) then Some (u8 c) else m x) inp (dn ++ [c])) as (s' & E & Hs'); [done|done|done|rewrite length_app; simpl; lia|].
    rewrite <- app_assoc in E, Hs'. cbn [app] in E, Hs'. exists s'. split; [|done]. rewrite <- E. f_equal. rewrite length_app. simpl. lia.
Qed.

(** [gets] stores a line and its terminator, and nothing beyond the buffer. *)
Theorem gets_correct m buf max inp : 0 < max → readable m buf (buf + max) → Forall (λ o, ∀ c, o = Some c → byte c) inp →
  ∃ s', ugets buf max (mk_io m inp) = Ret buf s' ∧ (∀ x, mem s' x = written m buf (line (Z.to_nat (max - 1)) inp ++ [0]) x) ∧
    (length (line (Z.to_nat (max - 1)) inp) < Z.to_nat max)%nat.
Proof.
  intros Hmax Hr Hi. set (k := Z.to_nat (max - 1)). destruct (gets_loop_run m buf max k m inp [] Hr Hi) as (s1 & E & Hs1).
  { intros x. unfold written. by rewrite decide_False by (simpl; lia). } { simpl. lia. }
  cbn [app length Z.of_nat] in E, Hs1. set (l := line k inp) in *.
  assert (length l ≤ k)%nat as Hl.
  { unfold l. clear. revert inp. induction k as [|k IH]; intros [|[c|] inp]; cbn [line length]; try lia. destruct (_ || _); simpl; [lia|]. specialize (IH inp). lia. }
  destruct (Hr (buf + Z.of_nat (length l))) as (v & Ev & _); [lia|].
  assert (mem s1 (buf + Z.of_nat (length l)) = Some v) as Ev' by (rewrite Hs1; unfold written; rewrite decide_False by lia; done).
  eexists. split_and!; [| |lia].
  - unfold ugets. replace (Z.to_nat max) with (k + 1)%nat by lia. erewrite bind_ret by exact E. erewrite bind_ret by (apply zoom_ret; by apply (st_run _ _ _ v)). done.
  - intros x. cbn [mem]. rewrite <- written_snoc by done. by rewrite <- Hs1.
Qed.

(** ** strcpy *)

Lemma strcpy_loop_run m0 s l : ∀ m t dn fuel, readable m0 s (s + Z.of_nat (length dn + length l) + 1) → Forall (λ b, byte b ∧ b ≠ 0) l →
  stored m0 t (l ++ [0]) → (t + Z.of_nat (length l) < s ∨ s + Z.of_nat (length dn + length l) < t) →
  (∀ x, m x = written m0 s dn x) → (length l < fuel)%nat →
  ∃ m', strcpy_loop fuel (s + Z.of_nat (length dn)) t m = Ret tt m' ∧ ∀ x, m' x = written m0 s (dn ++ l ++ [0]) x.
Proof.
  induction l as [|b l IH]; intros m t dn fuel Hr HF Hs Hd Hm Hf; (destruct fuel as [|fuel]; [simpl in Hf; lia|]); cbn [strcpy_loop app length] in *;
    apply stored_cons in Hs as [Hb Hs]; destruct (Hr (s + Z.of_nat (length dn))) as (v & Ev & _); try lia;
    (assert (m (s + Z.of_nat (length dn)) = Some v) as Ev' by (rewrite Hm; unfold written; rewrite decide_False by lia; done)).
  - erewrite bind_ret by (unfold ld; rewrite Hm; unfold written; rewrite decide_False, Hb by lia; reflexivity).
    erewrite bind_ret by (by apply (st_run _ _ _ v)). eexists. split; [done|]. intros x. cbn beta. rewrite Hm. by apply written_snoc.
  - apply list.Forall_cons in HF as [[Hby Hnz] HF].
    erewrite bind_ret by (unfold ld; rewrite Hm; unfold written; rewrite decide_False, Hb by lia; reflexivity).
    erewrite bind_ret by (by apply (st_run _ _ _ v)). rewrite (proj2 (Z.eqb_neq _ _)) by done.
    replace (s + Z.of_nat (length dn) + 1) with (s + Z.of_nat (length (dn ++ [b]))) by (rewrite length_app; simpl; lia).
    destruct (IH (λ x, if x =? s + Z.of_nat (length dn) then Some (u8 b) else m x) (t + 1) (dn ++ [b]) fuel) as (m' & E & Hm'); try done; try (rewrite ?length_app; simpl; lia).
    { replace (length (dn ++ [b]) + length l)%nat with (length dn + S (length l))%nat by (rewrite length_app; simpl; lia). done. }
    { intros x. rewrite Hm. by apply written_snoc. }
    exists m'. split; [done|]. intros x. by rewrite Hm', <- app_assoc.
Qed.

(** [strcpy] copies the string with its terminator, and changes no other byte, when the
    two areas do not overlap. *)
Theorem strcpy_correct m s t l fuel : readable m s (s + Z.of_nat (length l) + 1) → Forall (λ b, byte b ∧ b ≠ 0) l → stored m t (l ++ [0]) →
  (t + Z.of_nat (length l) < s ∨ s + Z.of_nat (length l) < t) → (length l < fuel)%nat →
  ∃ m', strcpy fuel s t m = Ret s m' ∧ ∀ x, m' x = written m s (l ++ [0]) x.
Proof.
  intros Hr HF Hs Hd Hf. destruct (strcpy_loop_run m s l m t [] fuel) as (m' & E & Hm'); try done.
  { intros x. unfold written. by rewrite decide_False by (simpl; lia). }
  cbn [length Z.of_nat app] in *. rewrite Z.add_0_r in E. exists m'. split; [|done]. unfold strcpy. by erewrite bind_ret by exact E.
Qed.

(** ** wc *)

Import wc.

(** The number of words: the characters that are no space and come first or after a
    space. *)
Fixpoint word_starts (after_space : bool) (l : list Z) : Z :=
  match l with
  | [] => 0
  | b :: l => let sp := bool_decide (b ∈ SPACES) in (if after_space && negb sp then 1 else 0) + word_starts sp l
  end.

Fixpoint newlines (l : list Z) : Z := match l with [] => 0 | b :: l => (if b =? 10 then 1 else 0) + newlines l end.

Lemma wc_chars l : ∀ k, 0 ≤ lines k ≤ chars k → 0 ≤ words k ≤ chars k → chars k + Z.of_nat (length l) < 2 ^ 31 →
  ∃ b, foldl wc_char k l = mk_counts (lines k + newlines l) (words k + word_starts (negb (inword k)) l) (chars k + Z.of_nat (length l)) b.
Proof.
  induction l as [|b l IH]; intros k Hl Hw Hc; cbn [foldl newlines word_starts length] in *.
  { exists (inword k). destruct k; cbn in *. f_equal; lia. }
  set (k' := mk_counts (lines k + (if b =? 10 then 1 else 0)) (words k + (if negb (inword k) && negb (bool_decide (b ∈ SPACES)) then 1 else 0)) (chars k + 1) (negb (bool_decide (b ∈ SPACES)))).
  assert (wc_char k b = k') as ->.
  { unfold wc_char, k'. cbn [lines words chars inword]. rewrite (s32_id (chars k + 1)) by lia.
    destruct (b =? 10), (bool_decide (b ∈ SPACES)), (inword k) eqn:Ei; cbn [lines words chars inword negb andb]; rewrite ?Ei, ?s32_id by lia; cbn [negb]; f_equal; lia. }
  destruct (IH k') as [i E]; cbn [k' lines words chars inword].
  1-3: destruct (b =? 10), (negb (inword k) && _); lia.
  exists i. rewrite E. cbn [k' lines words chars inword]. rewrite negb_involutive. f_equal; lia.
Qed.

Lemma printf_loop_d fmt x l args : printint (s32 x) 10 true = Some l →
  printf_loop (37 :: 100 :: fmt) false (AInt x :: args) = app l <$> printf_loop fmt false args.
Proof. intros E. cbn [printf_loop Z.eqb Pos.eqb]. unfold convert. cbn [Z.eqb Pos.eqb]. rewrite E. cbn [mbind option_bind]. by destruct (printf_loop fmt false args). Qed.

Lemma printf_loop_char fmt c args : c ≠ 37 → printf_loop (c :: fmt) false args = cons c <$> printf_loop fmt false args.
Proof. intros Hc. cbn [printf_loop]. rewrite (proj2 (Z.eqb_neq _ _)) by done. by destruct (printf_loop fmt false args). Qed.

(** [wc] prints the numbers of lines, words and characters of its input, however read
    divides it into blocks. *)
Theorem wc_correct reads name : Z.of_nat (length (concat reads)) < 2 ^ 31 →
  wc reads false name = (λ l, (l, true)) <$> printf [37; 100; 32; 37; 100; 32; 37; 100; 32; 37; 115; 10]
    [AInt (newlines (concat reads)); AInt (word_starts true (concat reads)); AInt (Z.of_nat (length (concat reads))); AStr (Some name)] ∧
  is_Some (wc reads false name).
Proof.
  intros Hl. assert (wc_loop reads = foldl wc_char (mk_counts 0 0 0 false) (concat reads)) as E.
  { unfold wc_loop. generalize (mk_counts 0 0 0 false). clear. induction reads as [|r reads IH]; intros k; cbn [foldl concat]; [done|]. by rewrite foldl_app, IH. }
  destruct (wc_chars (concat reads) (mk_counts 0 0 0 false)) as [b Eb]; [cbn; lia..|]. unfold wc. rewrite E, Eb. cbn [lines words chars inword negb Z.add].
  split; [by destruct (printf _ _)|].
  assert (∀ x, is_Some (printint (s32 x) 10 true)) as Hp.
  { intros x. destruct (printint_run (s32 x) 10 true) as (ds & -> & _); [by left| |done]. apply s32_range. }
  assert (∀ x y z, is_Some (printf [37; 100; 32; 37; 100; 32; 37; 100; 32; 37; 115; 10] [AInt x; AInt y; AInt z; AStr (Some name)])) as Hs.
  { intros x y z. destruct (Hp x) as [lx Ex], (Hp y) as [ly Ey], (Hp z) as [lz Ez]. unfold printf.
    rewrite (printf_loop_d _ _ _ _ Ex), printf_loop_char, (printf_loop_d _ _ _ _ Ey), printf_loop_char, (printf_loop_d _ _ _ _ Ez) by done. done. }
  match goal with |- context [printf ?f [AInt ?x; AInt ?y; AInt ?z; _]] => destruct (Hs x y z) as [r ->] end. done.
Qed.
