(* ===== verification/Sh.v ===== *)
(** * The shell's command parser (user/sh.c)

    The tokenizer, the recursive-descent parser and [nulterminate], on the bytes
    of a command line; pointers into the line are offsets.  The parser is shown to
    be total and to invert a printer of command trees, and the strings of the
    tree it returns to be the words of the line. *)

From Stdlib Require Import Lia ZArith.
From stdpp Require Import base list numbers option.
From S2P Require Import Prelude.

#[local] Open Scope Z_scope.

Definition BAR : Z := 124.
Definition LPAR : Z := 40.
Definition RPAR : Z := 41.
Definition SEMI : Z := 59.
Definition AMP : Z := 38.
Definition LT : Z := 60.
Definition GT : Z := 62.
Definition PLUS : Z := 43.
Definition LOWER_A : Z := 97.

(** [whitespace] and [symbols]; [strchr (set, c)] is membership. *)
Definition whitespace : list Z := [32; 9; 13; 10; 11].
Definition symbols : list Z := [LT; BAR; GT; AMP; SEMI; LPAR; RPAR].
Definition strchr_in (set : list Z) (c : Z) : bool := bool_decide (c ∈ set).

Definition MAXARGS : nat := 10.

(** ** Command trees

    A string of the tree is a pair of offsets of the line: [argv[i]] and
    [eargv[i]], [file] and [efile].  The same type with the words themselves in
    place of the offsets is the abstract syntax. *)
Inductive cmd (W : Type) : Type :=
| EXEC (argv : list W)
| REDIR (c : cmd W) (file : W) (mode fd : Z)
| PIPE (left right : cmd W)
| LIST (left right : cmd W)
| BACK (c : cmd W).
Arguments EXEC {W} argv.
Arguments REDIR {W} c file mode fd.
Arguments PIPE {W} left right.
Arguments LIST {W} left right.
Arguments BACK {W} c.

Definition range : Type := nat * nat.

Section parser.
(** The line, without its terminator, and the constants of fcntl.h. *)
Context (buf : list Z) (O_RDONLY O_WRONLY O_CREATE : Z).

Definition es : nat := length buf.
Definition at_ (s : nat) : Z := nth s buf 0.

(** [while (s < es && test ( *s)) s++;], with [n] for [es - s]. *)
Fixpoint scan_while (test : Z → bool) (n s : nat) : nat :=
  match n with
  | O => s
  | S n => if test (at_ s) then scan_while test n (S s) else s
  end.

Definition skip_white (s : nat) : nat := scan_while (strchr_in whitespace) (es - s) s.
Definition word_char (c : Z) : bool := negb (strchr_in whitespace c) && negb (strchr_in symbols c).
Definition skip_word (s : nat) : nat := scan_while word_char (es - s) s.

(** The switch of [gettoken]: the token and the offset after it. *)
Definition token_at (s : nat) : Z * nat :=
  let c := at_ s in
  if c =? 0 then (0, s) else
  if (c =? BAR) || (c =? LPAR) || (c =? RPAR) || (c =? SEMI) || (c =? AMP) || (c =? LT) then (c, S s) else
  if c =? GT then (if at_ (S s) =? GT then (PLUS, S (S s)) else (GT, S s)) else
  (LOWER_A, skip_word s).

(** The state is the offset [*ps]; the result is the token with [*q] and [*eq]. *)
Definition gettoken : M nat (Z * range) := λ ps,
  let s := skip_white ps in
  let '(ret, e) := token_at s in
  Ret (ret, (s, e)) (skip_white e).

Definition peek (toks : list Z) : M nat bool := λ ps,
  let s := skip_white ps in
  Ret (negb (at_ s =? 0) && strchr_in toks (at_ s)) s.

(** [redircmd (cmd, ...)] for the three tokens of a redirection. *)
Definition redircmd {W} (tok : Z) (file : W) (c : cmd W) : cmd W :=
  if tok =? LT then REDIR c file O_RDONLY 0 else REDIR c file (Z.lor O_WRONLY O_CREATE) 1.

(** [parseredirs].  [parseexec] goes on filling the [execcmd] after it has been
    wrapped in redirections, so the command wrapped is not known yet: the result
    is the list of wrappers, innermost first. *)
Fixpoint parseredirs (fuel : nat) (rs : list (Z * range)) : M nat (list (Z * range)) :=
  match fuel with
  | O => out_of_fuel
  | S fuel =>
      b ← peek [LT; GT];
      if b : bool then
        '(tok, _) ← gettoken;
        '(t, file) ← gettoken;
        if negb (t =? LOWER_A) then panic else
        parseredirs fuel (rs ++ [(tok, file)])
      else mret rs
  end.

Definition wrap_redirs {W} (c : cmd W) (rs : list (Z * W)) : cmd W :=
  foldl (λ c r, redircmd r.1 r.2 c) c rs.

(** The loop of [parseexec]. *)
Fixpoint parseargs (fuel : nat) (argv : list range) (rs : list (Z * range)) : M nat (cmd range) :=
  match fuel with
  | O => out_of_fuel
  | S fuel' =>
      b ← peek [BAR; RPAR; AMP; SEMI];
      if b : bool then mret (wrap_redirs (EXEC argv) rs) else
      '(tok, w) ← gettoken;
      if tok =? 0 then mret (wrap_redirs (EXEC argv) rs) else
      if negb (tok =? LOWER_A) then panic else
      let argv := argv ++ [w] in
      if (MAXARGS <=? length argv)%nat then panic else
      rs ← parseredirs fuel rs;
      parseargs fuel' argv rs
  end.

(** [while (peek (ps, es, "&")) { gettoken (...); cmd = backcmd (cmd); }] *)
Fixpoint parsebacks (fuel : nat) (c : cmd range) : M nat (cmd range) :=
  match fuel with
  | O => out_of_fuel
  | S fuel =>
      b ← peek [AMP];
      if b : bool then gettoken ;; parsebacks fuel (BACK c) else mret c
  end.

Fixpoint parseline (fuel : nat) : M nat (cmd range) :=
  match fuel with
  | O => out_of_fuel
  | S fuel' =>
      c ← parsepipe fuel';
      c ← parsebacks fuel c;
      b ← peek [SEMI];
      if b : bool then gettoken ;; r ← parseline fuel'; mret (LIST c r) else mret c
  end
with parsepipe (fuel : nat) : M nat (cmd range) :=
  match fuel with
  | O => out_of_fuel
  | S fuel' =>
      c ← parseexec fuel';
      b ← peek [BAR];
      if b : bool then gettoken ;; r ← parsepipe fuel'; mret (PIPE c r) else mret c
  end
with parseexec (fuel : nat) : M nat (cmd range) :=
  match fuel with
  | O => out_of_fuel
  | S fuel' =>
      b ← peek [LPAR];
      if b : bool then parseblock fuel' else
      rs ← parseredirs fuel [];
      parseargs fuel [] rs
  end
with parseblock (fuel : nat) : M nat (cmd range) :=
  match fuel with
  | O => out_of_fuel
  | S fuel' =>
      b ← peek [LPAR];
      if negb b then panic else
      gettoken ;;
      c ← parseline fuel';
      b ← peek [RPAR];
      if negb b then panic else
      gettoken ;;
      rs ← parseredirs fuel [];
      mret (wrap_redirs c rs)
  end.

(** The strings of a tree, in the order [nulterminate] ends them. *)
Fixpoint ranges (c : cmd range) : list range :=
  match c with
  | EXEC argv => argv
  | REDIR c file _ _ => ranges c ++ [file]
  | PIPE l r | LIST l r => ranges l ++ ranges r
  | BACK c => ranges c
  end.

End parser.

(** [*eargv[i] = 0]: the line with its terminator is [mem]. *)
Definition end_string (mem : list Z) (w : range) : list Z := <[w.2 := 0]> mem.

Fixpoint nulterminate (c : cmd range) (mem : list Z) : list Z :=
  match c with
  | EXEC argv => foldl end_string mem argv
  | REDIR c file _ _ => end_string (nulterminate c mem) file
  | PIPE l r | LIST l r => nulterminate r (nulterminate l mem)
  | BACK c => nulterminate c mem
  end.

(** [parsecmd]: the tree, and the line as [nulterminate] leaves it. *)
Definition parsecmd (fuel : nat) (O_RDONLY O_WRONLY O_CREATE : Z) (buf : list Z) :
    M nat (cmd range * list Z) :=
  c ← parseline buf O_RDONLY O_WRONLY O_CREATE fuel;
  peek buf [] ;;
  s ← gets id;
  if negb (s =? length buf)%nat then panic else
  mret (c, nulterminate c (buf ++ [0])).

(** ** Scanning *)

Section scanning.
Context (buf : list Z) (Hbuf : Forall (λ b, b ≠ 0) buf).
#[local] Notation es := (es buf).
#[local] Notation at_ := (at_ buf).
#[local] Notation skip_white := (skip_white buf).
#[local] Notation skip_word := (skip_word buf).

Lemma at_zero s : at_ s = 0 ↔ (es ≤ s)%nat.
Proof.
  unfold Sh.at_, Sh.es. split.
  - intros E. destruct (decide (length buf ≤ s)%nat); [done|].
    rewrite list.Forall_forall in Hbuf. destruct (Hbuf (nth s buf 0)); [|done].
    rewrite <- E. apply list_elem_of_In, nth_In. lia.
  - apply nth_overflow.
Qed.

Lemma scan_while_spec test n s : n = (es - s)%nat → (s ≤ es)%nat →
  let e := scan_while buf test n s in
  (s ≤ e ≤ es)%nat ∧ (∀ i, (s ≤ i < e)%nat → test (at_ i) = true) ∧ (e = es ∨ test (at_ e) = false).
Proof.
  revert s. induction n as [|n IH]; intros s Hn Hs; cbn [scan_while].
  { split_and!; [lia|lia|intros; lia|left; lia]. }
  destruct (test (at_ s)) eqn:E.
  - destruct (IH (S s)) as (? & Hall & ?); [lia..|]. cbv zeta. split_and!; [lia|lia| |done].
    intros i Hi. destruct (decide (i = s)) as [->|]; [done|]. apply Hall. lia.
  - cbv zeta. split_and!; [lia|lia|intros; lia|by right].
Qed.

Lemma skip_white_spec s : (s ≤ es)%nat →
  (s ≤ skip_white s ≤ es)%nat ∧
  (skip_white s = es ∨ strchr_in whitespace (at_ (skip_white s)) = false).
Proof. intros Hs. destruct (scan_while_spec (strchr_in whitespace) (es - s) s) as (? & _ & ?); done. Qed.

Lemma skip_white_stop s : (s ≤ es)%nat → s = es ∨ strchr_in whitespace (at_ s) = false → skip_white s = s.
Proof.
  intros Hs [->|E]; unfold Sh.skip_white; [by rewrite Nat.sub_diag|].
  destruct (es - s)%nat; cbn [scan_while]; [done|]. by rewrite E.
Qed.

Lemma skip_white_idem s : (s ≤ es)%nat → skip_white (skip_white s) = skip_white s.
Proof. intros Hs. destruct (skip_white_spec s Hs). apply skip_white_stop; [lia|done]. Qed.

(** A word of the line: a maximal run of word characters. *)
Definition word_range (w : range) : Prop :=
  (w.1 < w.2 ≤ es)%nat ∧ (∀ i, (w.1 ≤ i < w.2)%nat → word_char (at_ i) = true) ∧
  (w.2 = es ∨ word_char (at_ w.2) = false).

Lemma not_symbol c :
  ((c =? BAR) || (c =? LPAR) || (c =? RPAR) || (c =? SEMI) || (c =? AMP) || (c =? LT)) = false →
  c ≠ GT → strchr_in symbols c = false.
Proof.
  rewrite !orb_false_iff, !Z.eqb_neq. intros H HG. apply bool_decide_eq_false.
  unfold symbols. rewrite !not_elem_of_cons. destruct_and!. split_and!; try done. apply not_elem_of_nil.
Qed.

(** Every call makes progress except at the end of the line. *)
Lemma token_at_spec s tok e :
  (s ≤ es)%nat → s = es ∨ strchr_in whitespace (at_ s) = false → token_at buf s = (tok, e) →
  (s ≤ e ≤ es)%nat ∧ (tok = 0 ↔ s = es) ∧ (s ≠ es → (s < e)%nat) ∧ (tok = LOWER_A → word_range (s, e)).
Proof.
  intros Hs Hw. unfold token_at. pose proof (at_zero s) as H0. destruct (Z.eqb_spec (at_ s) 0) as [E0|E0].
  { intros [= <- <-]. assert (s = es) by lia. split_and!; [lia|lia|done|done|done]. }
  assert (s < es)%nat as Hlt by (destruct (decide (es ≤ s)%nat); [tauto|lia]).
  destruct Hw as [?|Hw]; [lia|].
  destruct ((at_ s =? BAR) || _ || _ || _ || _ || _) eqn:Esym.
  { intros [= <- <-]. split_and!; try lia. intros E. rewrite E in Esym. done. }
  destruct (Z.eqb_spec (at_ s) GT) as [EG|EG].
  { pose proof (at_zero (S s)). destruct (Z.eqb_spec (at_ (S s)) GT) as [E1|E1]; intros [= <- <-].
    - assert (S s < es)%nat; [destruct (decide (es ≤ S s)%nat); [|lia]|].
      + assert (at_ (S s) = 0) by tauto. unfold GT in *. lia.
      + split_and!; [lia|lia|unfold PLUS; lia|lia|done].
    - split_and!; [lia|lia|unfold GT; lia|lia|done]. }
  intros [= <- <-]. unfold Sh.skip_word.
  assert (word_char (at_ s) = true) as Hc by (unfold word_char; by rewrite Hw, not_symbol).
  destruct (scan_while_spec word_char (es - s) s) as (Hle & Hall & Hend); [lia..|].
  assert (s < scan_while buf word_char (es - s) s)%nat as Hp.
  { destruct Hend as [->|E]; [lia|]. destruct (decide (s = scan_while buf word_char (es - s) s)) as [Es|]; [|lia].
    rewrite <- Es in E. congruence. }
  split_and!; [lia|lia|unfold LOWER_A; lia|lia|]. intros _. split_and!; simpl; [lia|lia|done|done].
Qed.

Lemma gettoken_spec ps :
  (ps ≤ es)%nat →
  ∃ tok w ps', gettoken buf ps = Ret (tok, w) ps' ∧ (ps ≤ ps' ≤ es)%nat ∧
    w.1 = skip_white ps ∧
    (tok = 0 ↔ skip_white ps = es) ∧ (skip_white ps ≠ es → (skip_white ps < ps')%nat) ∧
    (tok = LOWER_A → word_range w).
Proof.
  intros Hps. unfold gettoken. destruct (skip_white_spec ps Hps) as [Hle Hstop].
  destruct (token_at buf (skip_white ps)) as [tok e] eqn:E.
  apply token_at_spec in E as (He & H0 & Hlt & Hw); [|lia|done].
  destruct (skip_white_spec e) as [He' _]; [lia|].
  exists tok, (skip_white ps, e), (skip_white e). split_and!; try done; try lia.
Qed.

Lemma peek_spec toks ps :
  (ps ≤ es)%nat →
  ∃ b, peek buf toks ps = Ret b (skip_white ps) ∧ (ps ≤ skip_white ps ≤ es)%nat ∧
       (b = true ↔ (skip_white ps < es)%nat ∧ at_ (skip_white ps) ∈ toks).
Proof.
  intros Hps. unfold peek. destruct (skip_white_spec ps Hps) as [Hle Hstop].
  eexists. split; [done|]. split; [done|]. pose proof (at_zero (skip_white ps)).
  rewrite andb_true_iff, negb_true_iff, Z.eqb_neq. unfold strchr_in. rewrite bool_decide_eq_true.
  destruct (decide (es ≤ skip_white ps)%nat); naive_solver lia.
Qed.

End scanning.

(** ** The parser is total *)

Section total.
Context (buf : list Z) (Hbuf : Forall (λ b, b ≠ 0) buf) (O_RDONLY O_WRONLY O_CREATE : Z).
#[local] Notation es := (es buf).
#[local] Notation redircmd := (redircmd O_RDONLY O_WRONLY O_CREATE).
#[local] Notation wrap_redirs := (wrap_redirs O_RDONLY O_WRONLY O_CREATE).
#[local] Notation parseargs := (parseargs buf O_RDONLY O_WRONLY O_CREATE).
#[local] Notation parseline := (parseline buf O_RDONLY O_WRONLY O_CREATE).
#[local] Notation parsepipe := (parsepipe buf O_RDONLY O_WRONLY O_CREATE).
#[local] Notation parseexec := (parseexec buf O_RDONLY O_WRONLY O_CREATE).
#[local] Notation parseblock := (parseblock buf O_RDONLY O_WRONLY O_CREATE).

(** A call at [ps] returns a result with [P] further on in the line, or reports a
    syntax error. *)
Definition good {A} (ps : nat) (P : A → Prop) (r : outcome nat A) : Prop :=
  match r with Ret a ps' => (ps ≤ ps' ≤ es)%nat ∧ P a | Panicked => True | _ => False end.

Lemma good_ret {A} ps (P : A → Prop) a : (ps ≤ es)%nat → P a → good ps P (Ret a ps).
Proof. simpl. auto with lia. Qed.

Lemma good_bind {A B} ps (m : M nat A) (f : A → M nat B) P Q :
  good ps P (m ps) → (∀ a ps', (ps ≤ ps' ≤ es)%nat → P a → good ps' Q (f a ps')) →
  good ps Q ((m ≫= f) ps).
Proof.
  unfold good, mbind, M_bind. intros Hm Hf. destruct (m ps) as [a ps'| | | | |]; try done.
  destruct Hm as [Hle HP]. specialize (Hf a ps' Hle HP). destruct (f a ps') as [b ps''| | | | |]; try done.
  destruct Hf. split; [lia|done].
Qed.

Lemma good_weaken {A} ps ps' (P Q : A → Prop) r :
  good ps' P r → (ps ≤ ps')%nat → (∀ a, P a → Q a) → good ps Q r.
Proof. destruct r; simpl; try done. intros [? ?] ? HPQ. split; [lia|]. by apply HPQ. Qed.

Lemma good_gettoken ps :
  (ps ≤ es)%nat → good ps (λ t, t.1 = LOWER_A → word_range buf t.2) (gettoken buf ps).
Proof.
  intros Hps. destruct (gettoken_spec buf Hbuf ps Hps) as (tok & w & ps' & -> & ? & _ & _ & _ & ?).
  split; [lia|done].
Qed.

(** [peek] followed by [gettoken] on the token it saw. *)
Lemma good_peek_get {B} toks ps (f : Z * range → M nat B) (g : M nat B) Q :
  (ps ≤ es)%nat →
  (∀ t ps', (ps < ps' ≤ es)%nat → good ps' Q (f t ps')) →
  (∀ ps', (ps ≤ ps' ≤ es)%nat → good ps' Q (g ps')) →
  good ps Q ((peek buf toks ≫= λ b : bool, if b then gettoken buf ≫= f else g) ps).
Proof.
  intros Hps Hf Hg. destruct (peek_spec buf Hbuf toks ps Hps) as (b & E & Hle & Hb).
  rewrite (bind_ret _ _ _ _ _ E). destruct b.
  - destruct (proj1 Hb eq_refl) as [Hlt _].
    destruct (gettoken_spec buf Hbuf (skip_white buf ps)) as (tok & w & ps' & E' & ? & _ & _ & Hp & _); [lia|].
    rewrite (bind_ret _ _ _ _ _ E'). rewrite skip_white_idem in Hp by done. specialize (Hp ltac:(lia)).
    eapply good_weaken; [apply Hf|..]; [lia|lia|done].
  - eapply good_weaken; [apply Hg|..]; [lia|lia|done].
Qed.

Lemma good_peek_need {B} toks ps (f : Z * range → M nat B) Q :
  (ps ≤ es)%nat →
  (∀ t ps', (ps < ps' ≤ es)%nat → good ps' Q (f t ps')) →
  good ps Q ((peek buf toks ≫= λ b : bool, if negb b then panic else gettoken buf ≫= f) ps).
Proof.
  intros Hps Hf. destruct (peek_spec buf Hbuf toks ps Hps) as (b & E & _).
  pose proof (good_peek_get toks ps f panic Q Hps Hf) as HG.
  rewrite (bind_ret _ _ _ _ _ E) in HG. rewrite (bind_ret _ _ _ _ _ E). destruct b; [|done].
  apply HG. done.
Qed.

Definition tree_ok (c : cmd range) : Prop := Forall (word_range buf) (ranges c).
Definition redirs_ok (rs : list (Z * range)) : Prop := Forall (λ r, word_range buf r.2) rs.

Lemma wrap_redirs_ok c rs : tree_ok c → redirs_ok rs → tree_ok (wrap_redirs c rs).
Proof.
  intros Hc Hrs. revert c Hc. induction Hrs as [|[tok w] rs Hw _ IH]; intros c Hc; simpl; [done|].
  apply IH. unfold tree_ok, Sh.redircmd in *. simpl in *.
  destruct (tok =? LT); simpl; apply Forall_app_2; auto; by apply list.Forall_singleton.
Qed.

Lemma good_parseredirs fuel : ∀ ps rs,
  (ps ≤ es)%nat → (es - ps < fuel)%nat → redirs_ok rs → good ps redirs_ok (parseredirs buf fuel rs ps).
Proof.
  induction fuel as [|fuel IH]; intros ps rs Hps Hf Hrs; [lia|]. cbn [parseredirs].
  apply good_peek_get; [done| |intros; apply good_ret; [lia|done]].
  intros [tok w] ps' Hps'. eapply good_bind; [apply good_gettoken; lia|].
  intros [t file] ps2 Hps2 Hw. simpl in Hw. destruct (Z.eqb_spec t LOWER_A) as [Et|Et]; [|done]. simpl.
  apply IH; [lia|lia|]. apply Forall_app_2; [done|]. apply list.Forall_singleton. by apply Hw.
Qed.

(** No [argv] with room for fewer than its terminator. *)
Fixpoint args_fit (c : cmd range) : Prop :=
  match c with
  | EXEC argv => (length argv < MAXARGS)%nat
  | REDIR c _ _ _ | BACK c => args_fit c
  | PIPE l r | LIST l r => args_fit l ∧ args_fit r
  end.

Lemma wrap_redirs_fit c rs : args_fit c → args_fit (wrap_redirs c rs).
Proof.
  revert c. induction rs as [|[tok w] rs IH]; intros c Hc; simpl; [done|]. apply IH.
  unfold Sh.redircmd. simpl. by destruct (tok =? LT).
Qed.

Definition parsed (c : cmd range) : Prop := tree_ok c ∧ args_fit c.

Lemma wrap_parsed c rs : parsed c → redirs_ok rs → parsed (wrap_redirs c rs).
Proof. intros [Ht Hf] Hrs. split; [by apply wrap_redirs_ok|by apply wrap_redirs_fit]. Qed.

Lemma good_parseargs fuel : ∀ ps argv rs,
  (ps ≤ es)%nat → (es - ps < fuel)%nat → Forall (word_range buf) argv → (length argv < MAXARGS)%nat →
  redirs_ok rs → good ps parsed (parseargs fuel argv rs ps).
Proof.
  induction fuel as [|fuel IH]; intros ps argv rs Hps Hf Ha Hl Hrs; [lia|]. cbn [Sh.parseargs].
  destruct (peek_spec buf Hbuf [BAR; RPAR; AMP; SEMI] ps Hps) as (b & E & Hle & _).
  rewrite (bind_ret _ _ _ _ _ E). destruct b.
  { eapply (good_weaken _ (skip_white buf ps)); [|lia|done]. apply good_ret; [lia|].
    by apply wrap_parsed. }
  destruct (gettoken_spec buf Hbuf (skip_white buf ps)) as (tok & w & ps' & E' & Hps' & _ & H0 & Hp & Hw); [lia|].
  rewrite skip_white_idem in * by done.
  rewrite (bind_ret _ _ _ _ _ E'). cbv beta iota.
  destruct (Z.eqb_spec tok 0) as [Et|Et].
  { eapply (good_weaken _ ps'); [|lia|done]. apply good_ret; [lia|]. by apply wrap_parsed. }
  destruct (Z.eqb_spec tok LOWER_A) as [El|El]; [|done]. cbn [negb]. cbv zeta.
  destruct (Nat.leb_spec MAXARGS (length (argv ++ [w]))) as [|Hl']; [done|].
  specialize (Hp ltac:(naive_solver)).
  eapply (good_weaken _ ps' parsed); [|lia|done].
  eapply good_bind; [apply (good_parseredirs (S fuel)); [lia|lia|done]|].
  intros rs' ps2 Hps2 Hrs'. apply IH; [lia|lia| |done|done].
  apply Forall_app_2; [done|]. apply list.Forall_singleton. by apply Hw.
Qed.

Lemma good_parsebacks fuel : ∀ ps c,
  (ps ≤ es)%nat → (es - ps < fuel)%nat → parsed c → good ps parsed (parsebacks buf fuel c ps).
Proof.
  induction fuel as [|fuel IH]; intros ps c Hps Hf Hc; [lia|]. cbn [parsebacks].
  apply good_peek_get; [done| |intros; apply good_ret; [lia|done]].
  intros t ps' Hps'. apply IH; [lia|lia|done].
Qed.

Lemma good_parse fuel : ∀ ps, (ps ≤ es)%nat →
  ((4 * (es - ps) + 4 ≤ fuel)%nat → good ps parsed (parseline fuel ps)) ∧
  ((4 * (es - ps) + 3 ≤ fuel)%nat → good ps parsed (parsepipe fuel ps)) ∧
  ((4 * (es - ps) + 2 ≤ fuel)%nat → good ps parsed (parseexec fuel ps)) ∧
  ((4 * (es - ps) + 1 ≤ fuel)%nat → good ps parsed (parseblock fuel ps)).
Proof.
  induction fuel as [|fuel IH]; intros ps Hps; [split_and!; lia|].
  split_and!; intros Hf; cbn [Sh.parseline Sh.parsepipe Sh.parseexec Sh.parseblock].
  - eapply good_bind; [apply IH; lia|]. intros c ps1 H1 Hc.
    eapply good_bind; [apply good_parsebacks; [lia|lia|done]|]. intros c' ps2 H2 Hc'.
    apply good_peek_get; [lia| |intros; apply good_ret; [lia|done]]. intros t ps3 H3.
    eapply good_bind; [apply IH; lia|]. intros r ps4 H4 Hr. apply good_ret; [lia|].
    split; [apply Forall_app_2; [apply Hc'|apply Hr]|split; [apply Hc'|apply Hr]].
  - eapply good_bind; [apply IH; lia|]. intros c ps1 H1 Hc.
    apply good_peek_get; [lia| |intros; apply good_ret; [lia|done]]. intros t ps3 H3.
    eapply good_bind; [apply IH; lia|]. intros r ps4 H4 Hr. apply good_ret; [lia|].
    split; [apply Forall_app_2; [apply Hc|apply Hr]|split; [apply Hc|apply Hr]].
  - destruct (peek_spec buf Hbuf [LPAR] ps Hps) as (b & E & Hle & _).
    rewrite (bind_ret _ _ _ _ _ E). eapply (good_weaken _ (skip_white buf ps) parsed); [|lia|done].
    destruct b; [apply IH; lia|].
    eapply good_bind; [apply good_parseredirs; [lia|lia|by apply Forall_nil]|]. intros rs ps2 H2 Hrs.
    apply good_parseargs; [lia|lia|by apply Forall_nil|simpl; unfold MAXARGS; lia|done].
  - apply good_peek_need; [done|]. intros t ps1 H1.
    eapply good_bind; [apply IH; lia|]. intros c ps2 H2 Hc.
    apply good_peek_need; [lia|]. intros t' ps3 H3.
    eapply good_bind; [apply good_parseredirs; [lia|lia|by apply Forall_nil]|]. intros rs ps4 H4 Hrs.
    apply good_ret; [lia|]. by apply wrap_parsed.
Qed.

End total.

(** ** The strings of the tree *)

(** The C string that starts the list. *)
Fixpoint cstring (l : list Z) : list Z :=
  match l with [] => [] | b :: l => if b =? 0 then [] else b :: cstring l end.

(** The bytes of a range of the line. *)
Definition slice (buf : list Z) (w : range) : list Z := take (w.2 - w.1) (drop w.1 buf).

Lemma nulterminate_ranges c mem : nulterminate c mem = foldl end_string mem (ranges c).
Proof.
  revert mem. induction c as [argv|c IH file mode fd|l IHl r IHr|l IHl r IHr|c IH]; intros mem; simpl.
  - done.
  - by rewrite foldl_app, IH.
  - by rewrite foldl_app, IHl, IHr.
  - by rewrite foldl_app, IHl, IHr.
  - done.
Qed.

Lemma end_strings_lookup ws mem i :
  foldl end_string mem ws !! i =
  if decide (i ∈ ws.*2) then (λ _, 0) <$> mem !! i else mem !! i.
Proof.
  revert mem. induction ws as [|w ws IH]; intros mem; [|rewrite fmap_cons]; cbn [foldl].
  { destruct (decide (i ∈ _)) as [H|]; [by apply not_elem_of_nil in H|done]. }
  rewrite IH. unfold end_string. destruct (decide (i = w.2)) as [->|Hi].
  - destruct (decide (w.2 ∈ w.2 :: ws.*2)) as [_|Hn]; [|destruct Hn; by apply elem_of_cons; left].
    destruct (decide (w.2 < length mem)%nat).
    + rewrite list_lookup_insert_eq by done. destruct (lookup_lt_is_Some_2 mem w.2) as (x & ->); [done|].
      simpl. by destruct (decide _).
    + rewrite list_insert_ge by lia. rewrite (lookup_ge_None_2 mem) by lia. simpl. by destruct (decide _).
  - rewrite list_lookup_insert_ne by done.
    destruct (decide (i ∈ ws.*2)) as [H|H], (decide (i ∈ w.2 :: ws.*2)) as [H'|H']; try done.
    + destruct H'. by apply elem_of_cons; right.
    + by apply elem_of_cons in H' as [?|?].
Qed.

Lemma cstring_prefix l p : (∀ k, (k < length p)%nat → l !! k = p !! k) → Forall (λ b, b ≠ 0) p →
  l !! length p = Some 0 → cstring l = p.
Proof.
  revert l. induction p as [|x p IH]; intros [|y l] Hl Hp Hend; simpl in *; try done.
  - by injection Hend as ->.
  - pose proof (Hl 0%nat ltac:(lia)) as [= ->]. apply list.Forall_cons in Hp as [Hx Hp].
    destruct (Z.eqb_spec x 0); [done|]. f_equal. apply IH; [|done|done].
    intros k Hk. apply (Hl (S k)). lia.
Qed.

Lemma slice_length buf w : (w.2 ≤ length buf)%nat → length (slice buf w) = (w.2 - w.1)%nat.
Proof. intros H. unfold slice. rewrite length_take, length_drop. lia. Qed.

Lemma at_lookup buf i : (i < length buf)%nat → buf !! i = Some (at_ buf i).
Proof. intros Hi. destruct (lookup_lt_is_Some_2 buf i Hi) as (x & E). rewrite E. f_equal.
  symmetry. unfold at_. by apply nth_lookup_Some with (d := 0) in E. Qed.

(** Ending every string of the tree leaves the words themselves in place. *)
Lemma nulterminate_word buf ws w :
  Forall (λ b, b ≠ 0) buf → Forall (word_range buf) ws → w ∈ ws →
  cstring (drop w.1 (foldl end_string (buf ++ [0]) ws)) = slice buf w.
Proof.
  intros Hbuf Hws Hw. pose proof (proj1 (list.Forall_forall _ _) Hws) as Hws'.
  destruct (Hws' w Hw) as (Hr & Hchars & Hend). unfold es in *.
  apply cstring_prefix.
  - rewrite slice_length by lia. intros k Hk. unfold slice. rewrite lookup_take_lt, !lookup_drop by lia.
    rewrite end_strings_lookup. destruct (decide _) as [Hin|]; [|by rewrite lookup_app_l by lia].
    apply list_elem_of_fmap in Hin as (w' & Ei & Hw'). destruct (Hws' w' Hw') as (_ & _ & [He|He]).
    + unfold es in He. lia.
    + rewrite <- Ei, Hchars in He by lia. done.
  - unfold slice. apply Forall_take, Forall_drop, Hbuf.
  - rewrite slice_length, lookup_drop, end_strings_lookup by lia.
    replace (w.1 + (w.2 - w.1))%nat with w.2 by lia.
    destruct (decide _) as [_|Hn]; [|destruct Hn; apply list_elem_of_fmap; eauto].
    destruct (lookup_lt_is_Some_2 (buf ++ [0]) w.2) as (x & ->); [rewrite length_app; simpl; lia|done].
Qed.

(** ** Printing command trees *)

Fixpoint cmd_map {V W} (f : V → W) (c : cmd V) : cmd W :=
  match c with
  | EXEC argv => EXEC (f <$> argv)
  | REDIR c file mode fd => REDIR (cmd_map f c) (f file) mode fd
  | PIPE l r => PIPE (cmd_map f l) (cmd_map f r)
  | LIST l r => LIST (cmd_map f l) (cmd_map f r)
  | BACK c => BACK (cmd_map f c)
  end.

Inductive tok : Type := Sym (c : Z) | Word (w : list Z).

Definition chars (t : tok) : list Z := match t with Sym c => [c] | Word w => w end.

(** The text of a sequence of tokens: a space after each. *)
Fixpoint text (ts : list tok) : list Z :=
  match ts with [] => [] | t :: ts => chars t ++ 32 :: text ts end.

(** The four levels of the grammar. *)
Inductive level : Type := Lline | Lback | Lpipe | Lexec.

Definition paren (ts : list tok) : list tok := Sym LPAR :: ts ++ [Sym RPAR].

Definition redir_tok (fd : Z) : Z := if fd =? 0 then LT else GT.

(** The tokens of a tree in a context of the grammar, with parentheses where the
    context does not allow the tree. *)
Fixpoint toks (c : cmd (list Z)) (lv : level) : list tok :=
  match c with
  | EXEC argv => Word <$> argv
  | REDIR c file _ fd => toks c Lexec ++ [Sym (redir_tok fd); Word file]
  | PIPE l r =>
      let ts := toks l Lexec ++ Sym BAR :: toks r Lpipe in
      match lv with Lexec => paren ts | _ => ts end
  | BACK c =>
      let ts := toks c Lback ++ [Sym AMP] in
      match lv with Lline | Lback => ts | _ => paren ts end
  | LIST l r =>
      let ts := toks l Lback ++ Sym SEMI :: toks r Lline in
      match lv with Lline => ts | _ => paren ts end
  end.

Definition print_cmd (c : cmd (list Z)) : list Z := text (toks c Lline).

Definition word_ok (w : list Z) : Prop := w ≠ [] ∧ Forall (λ b, b ≠ 0 ∧ word_char b = true) w.

Definition tok_ok (t : tok) : Prop :=
  match t with Sym c => c ∈ symbols | Word w => word_ok w end.

Section printed.
Context (O_RDONLY O_WRONLY O_CREATE : Z).

(** The trees of the shell: words of word characters, at most nine arguments,
    and the two kinds of redirection. *)
Fixpoint wf (c : cmd (list Z)) : Prop :=
  match c with
  | EXEC argv => Forall word_ok argv ∧ (length argv < MAXARGS)%nat
  | REDIR c file mode fd =>
      wf c ∧ word_ok file ∧
      (mode = O_RDONLY ∧ fd = 0 ∨ mode = Z.lor O_WRONLY O_CREATE ∧ fd = 1)
  | PIPE l r | LIST l r => wf l ∧ wf r
  | BACK c => wf c
  end.

Lemma text_app ts us : text (ts ++ us) = text ts ++ text us.
Proof. induction ts as [|t ts IH]; simpl; [done|]. by rewrite IH, <- app_assoc. Qed.

Lemma sym_ok c : strchr_in symbols c = true → tok_ok (Sym c).
Proof. intros H. by apply bool_decide_eq_true in H. Qed.

Lemma paren_ok ts : Forall tok_ok ts → Forall tok_ok (paren ts).
Proof.
  intros H. unfold paren. constructor; [by apply sym_ok|].
  apply Forall_app_2; [done|]. apply list.Forall_singleton. by apply sym_ok.
Qed.

Lemma toks_ok c lv : wf c → Forall tok_ok (toks c lv).
Proof.
  revert lv. induction c as [argv|c IH file mode fd|l IHl r IHr|l IHl r IHr|c IH]; intros lv Hwf; simpl in *.
  - apply Forall_fmap. eapply list.Forall_impl; [apply Hwf|done].
  - destruct Hwf as (Hc & Hf & Hm). apply Forall_app_2; [by apply IH|].
    constructor; [|by apply list.Forall_singleton]. apply sym_ok. unfold redir_tok. by destruct (fd =? 0).
  - destruct Hwf as [Hl Hr]. assert (Forall tok_ok (toks l Lexec ++ Sym BAR :: toks r Lpipe)) as H.
    { apply Forall_app_2; [by apply IHl|]. constructor; [by apply sym_ok|by apply IHr]. }
    destruct lv; auto using paren_ok.
  - destruct Hwf as [Hl Hr]. assert (Forall tok_ok (toks l Lback ++ Sym SEMI :: toks r Lline)) as H.
    { apply Forall_app_2; [by apply IHl|]. constructor; [by apply sym_ok|by apply IHr]. }
    destruct lv; auto using paren_ok.
  - assert (Forall tok_ok (toks c Lback ++ [Sym AMP])) as H.
    { apply Forall_app_2; [by apply IH|]. apply list.Forall_singleton. by apply sym_ok. }
    destruct lv; auto using paren_ok.
Qed.

Lemma symbol_facts c : c ∈ symbols → c ≠ 0 ∧ strchr_in whitespace c = false ∧ word_char c = false.
Proof.
  unfold symbols. rewrite !elem_of_cons. intros H.
  repeat destruct H as [->|H]; [split_and!; done..|]. by apply not_elem_of_nil in H.
Qed.

Lemma chars_nonzero t : tok_ok t → Forall (λ b, b ≠ 0) (chars t).
Proof.
  destruct t as [c|w]; simpl.
  - intros H. apply list.Forall_singleton. by apply symbol_facts.
  - intros [_ H]. eapply list.Forall_impl; [exact H|]. naive_solver.
Qed.

Lemma text_nonzero ts : Forall tok_ok ts → Forall (λ b, b ≠ 0) (text ts).
Proof.
  induction 1 as [|t ts Ht _ IH]; simpl; [by apply Forall_nil|].
  apply Forall_app_2; [by apply chars_nonzero|]. by constructor.
Qed.

End printed.

(** ** Parsing what was printed *)

Section reparse.
Context (buf : list Z) (Hbuf : Forall (λ b, b ≠ 0) buf).

(** At [ps] the line reads as the tokens [ts]. *)
Record at_toks (ps : nat) (ts : list tok) : Prop := {
  att_pos : (ps ≤ length buf)%nat;
  att_text : drop ps buf = text ts;
  att_ok : Forall tok_ok ts
}.

Lemma at_toks_left ps ts : at_toks ps ts → length (text ts) = (length buf - ps)%nat.
Proof. intros H. rewrite <- (att_text _ _ H). apply length_drop. Qed.

Lemma at_text ps ts k : at_toks ps ts → (ps + k < length buf)%nat →
  text ts !! k = Some (at_ buf (ps + k)).
Proof.
  intros H Hk. rewrite <- (att_text _ _ H), lookup_drop. by apply at_lookup.
Qed.

Lemma at_text_inv ps ts k x : at_toks ps ts → text ts !! k = Some x →
  at_ buf (ps + k) = x ∧ (ps + k < length buf)%nat.
Proof.
  intros H Hx. assert (ps + k < length buf)%nat as Hlt.
  { apply lookup_lt_Some in Hx. rewrite (at_toks_left _ _ H) in Hx. lia. }
  rewrite (at_text _ _ _ H Hlt) in Hx. by injection Hx.
Qed.

(** The first character of the first token. *)
Lemma first_char t ts : tok_ok t → ∃ b, text (t :: ts) !! 0%nat = Some b ∧ b ≠ 0 ∧
  strchr_in whitespace b = false ∧
  match t with Sym c => b = c | Word _ => strchr_in symbols b = false end.
Proof.
  destruct t as [c|w]; cbn [text chars tok_ok].
  - intros Hc. exists c. destruct (symbol_facts c Hc) as (? & ? & _). by split_and!.
  - intros [Hne Hw]. destruct w as [|b w]; [done|]. apply list.Forall_cons in Hw as [[H0 Hb] _].
    unfold word_char in Hb. apply andb_true_iff in Hb as [Hb1%negb_true_iff Hb2%negb_true_iff].
    exists b. by split_and!.
Qed.

Lemma att_first ps t ts : at_toks ps (t :: ts) →
  at_ buf ps ≠ 0 ∧ (ps < length buf)%nat ∧ strchr_in whitespace (at_ buf ps) = false ∧
  match t with Sym c => at_ buf ps = c | Word _ => strchr_in symbols (at_ buf ps) = false end.
Proof.
  intros H. pose proof (att_ok _ _ H) as Hok. apply list.Forall_cons in Hok as [Ht _].
  destruct (first_char t ts Ht) as (b & Hb & H0 & Hw & Hm).
  destruct (at_text_inv _ _ _ _ H Hb) as [E Hlt]. rewrite Nat.add_0_r in *. rewrite E. done.
Qed.

Lemma att_nil ps : at_toks ps [] → ps = length buf.
Proof. intros H. pose proof (at_toks_left _ _ H) as E. simpl in E. pose proof (att_pos _ _ H). lia. Qed.

Lemma att_skip ps ts : at_toks ps ts → skip_white buf ps = ps.
Proof.
  intros H. apply skip_white_stop; [apply H|]. destruct ts as [|t ts]; [left; by apply att_nil|right].
  by apply att_first in H as (_ & _ & ? & _).
Qed.

(** The first token, as [peek] sees it. *)
Definition sees (set : list Z) (ts : list tok) : bool :=
  match ts with Sym c :: _ => strchr_in set c | _ => false end.

Lemma peek_toks set ps ts :
  at_toks ps ts → set ⊆ symbols → peek buf set ps = Ret (sees set ts) ps.
Proof.
  intros H Hset. unfold peek. rewrite (att_skip _ _ H). f_equal. destruct ts as [|t ts].
  - pose proof (att_nil _ H). pose proof (at_zero buf Hbuf ps) as [_ ->]; [done|]. unfold es. lia.
  - destruct (att_first _ _ _ H) as (H0 & _ & _ & Hm). apply Z.eqb_neq in H0. rewrite H0.
    destruct t as [c|w]; simpl; [by subst|]. apply bool_decide_eq_false in Hm.
    apply bool_decide_eq_false. intros Hin. by apply Hm, Hset.
Qed.

(** Moving over the first token and the space after it. *)
Lemma att_next ps t ts : at_toks ps (t :: ts) →
  at_toks (ps + length (chars t) + 1) ts ∧
  skip_white buf (ps + length (chars t)) = (ps + length (chars t) + 1)%nat ∧
  at_ buf (ps + length (chars t)) = 32 ∧ slice buf (ps, ps + length (chars t))%nat = chars t.
Proof.
  intros H. pose proof (att_text _ _ H) as E. cbn [text] in E.
  assert (text (t :: ts) !! length (chars t) = Some 32) as H32.
  { cbn [text]. by rewrite lookup_app_r, Nat.sub_diag by lia. }
  destruct (at_text_inv _ _ _ _ H H32) as [Hsp Hlt].
  assert (at_toks (ps + length (chars t) + 1) ts) as Hn.
  { pose proof (att_ok _ _ H) as Hok. apply list.Forall_cons in Hok as [_ Hok]. split; [lia| |done].
    rewrite <- Nat.add_assoc, <- drop_drop, E, drop_app_ge by lia.
    by replace (length (chars t) + 1 - length (chars t))%nat with 1%nat by lia. }
  split_and!; [done| |done|].
  - pose proof (att_skip _ _ Hn) as Es. unfold skip_white in *. unfold es in *.
    destruct (length buf - (ps + length (chars t)))%nat as [|n] eqn:En; [lia|]. cbn [scan_while].
    rewrite Hsp. replace (length buf - (ps + length (chars t) + 1))%nat with n in Es by lia.
    by rewrite Nat.add_1_r in *.
  - unfold slice. simpl. rewrite E. replace (ps + length (chars t) - ps)%nat with (length (chars t)) by lia.
    by rewrite take_app_length.
Qed.

(** What [gettoken] returns for a token. *)
Definition kind (t : tok) : Z := match t with Sym c => c | Word _ => LOWER_A end.

Lemma scan_word ps w ts n k :
  at_toks ps (Word w :: ts) → n = (length buf - (ps + k))%nat → (k ≤ length w)%nat →
  scan_while buf word_char n (ps + k) = (ps + length w)%nat.
Proof.
  intros H. destruct (att_next _ _ _ H) as (_ & _ & Hsp & _). simpl in Hsp.
  pose proof (at_toks_left _ _ H) as Hlen. cbn [text chars] in Hlen. rewrite length_app in Hlen. simpl in Hlen.
  revert k. induction n as [|n IH]; intros k Hn Hk; [lia|]. cbn [scan_while].
  destruct (decide (k = length w)) as [->|Hne]; [by rewrite Hsp|].
  assert (word_char (at_ buf (ps + k)) = true) as ->.
  { pose proof (att_ok _ _ H) as Hok. apply list.Forall_cons in Hok as [[_ Hw] _].
    destruct (lookup_lt_is_Some_2 w k) as (b & Eb); [lia|].
    destruct (at_text_inv _ _ k b H) as [-> _]; [cbn [text chars]; by rewrite lookup_app_l by lia|].
    by destruct (list.Forall_lookup_1 _ _ _ _ Hw Eb). }
  rewrite <- Nat.add_succ_r. apply IH; lia.
Qed.

Lemma gettoken_toks ps t ts :
  at_toks ps (t :: ts) →
  ∃ w ps', gettoken buf ps = Ret (kind t, w) ps' ∧ slice buf w = chars t ∧ at_toks ps' ts ∧
    (ps < ps' ≤ length buf)%nat.
Proof.
  intros H. destruct (att_next _ _ _ H) as (Hn & Esk & Hsp & Esl).
  destruct (att_first _ _ _ H) as (H0 & Hlt & Hws & Hm).
  assert (token_at buf ps = (kind t, (ps + length (chars t))%nat)) as Et.
  { unfold token_at. apply Z.eqb_neq in H0. rewrite H0. destruct t as [c|w]; simpl in Hm, Hsp |- *.
    - pose proof (att_ok _ _ H) as Hok. apply list.Forall_cons in Hok as [Hc _]. simpl in Hc.
      rewrite Hm. rewrite Nat.add_1_r in *.
      unfold symbols in Hc. rewrite !elem_of_cons in Hc.
      repeat destruct Hc as [->|Hc]; try done; [|by apply not_elem_of_nil in Hc].
      simpl. by rewrite Hsp.
    - assert (∀ c, strchr_in symbols c = true → (at_ buf ps =? c) = false) as Hsym.
      { intros c Hc. apply Z.eqb_neq. congruence. }
      rewrite !Hsym by done. simpl. unfold skip_word, es.
      f_equal. rewrite <- (Nat.add_0_r ps) at 2. by eapply scan_word; [done|lia|lia]. }
  unfold gettoken. rewrite (att_skip _ _ H), Et, Esk. eexists _, _. split; [done|].
  split; [done|]. split; [done|]. pose proof (att_pos _ _ Hn). lia.
Qed.

Lemma gettoken_end ps : at_toks ps [] → ∃ w, gettoken buf ps = Ret (0, w) ps.
Proof.
  intros H. pose proof (att_nil _ H) as E. unfold gettoken. rewrite (att_skip _ _ H).
  assert (token_at buf ps = (0, ps)) as ->.
  { unfold token_at. pose proof (at_zero buf Hbuf ps) as [_ ->]; [done|]. unfold es. lia. }
  rewrite (att_skip _ _ H). eauto.
Qed.

End reparse.

Section reparse_tree.
Context (buf : list Z) (Hbuf : Forall (λ b, b ≠ 0) buf) (O_RDONLY O_WRONLY O_CREATE : Z).
#[local] Notation redircmd := (redircmd O_RDONLY O_WRONLY O_CREATE).
#[local] Notation wrap_redirs := (wrap_redirs O_RDONLY O_WRONLY O_CREATE).
#[local] Notation parseargs := (parseargs buf O_RDONLY O_WRONLY O_CREATE).
#[local] Notation parseline := (parseline buf O_RDONLY O_WRONLY O_CREATE).
#[local] Notation parsepipe := (parsepipe buf O_RDONLY O_WRONLY O_CREATE).
#[local] Notation parseexec := (parseexec buf O_RDONLY O_WRONLY O_CREATE).
#[local] Notation parseblock := (parseblock buf O_RDONLY O_WRONLY O_CREATE).
#[local] Notation at_toks := (at_toks buf).
#[local] Notation left_ ps := (length buf - ps)%nat.

(** The call returns [c] and stops before the tokens [ts]. *)
Definition parses (r : outcome nat (cmd range)) (c : cmd (list Z)) (ts : list tok) (ps : nat) : Prop :=
  ∃ c' ps', r = Ret c' ps' ∧ cmd_map (slice buf) c' = c ∧ at_toks ps' ts ∧ (ps ≤ ps')%nat.

Lemma parses_weaken r c ts ps ps' : parses r c ts ps' → (ps ≤ ps')%nat → parses r c ts ps.
Proof. intros (c' & p & E & Ec & Hat & Hle) H. exists c', p. split_and!; try done. lia. Qed.

Lemma peek_run set ps ts :
  at_toks ps ts → forallb (strchr_in symbols) set = true → peek buf set ps = Ret (sees set ts) ps.
Proof.
  intros H Hs. apply peek_toks; [done..|]. intros x Hx. rewrite forallb_forall in Hs.
  specialize (Hs x (proj1 (list_elem_of_In _ _) Hx)). by apply bool_decide_eq_true in Hs.
Qed.

(** Runs the [peek] at the head of the program. *)
#[local] Ltac see_peek Hat :=
  match goal with
  | |- context [mbind _ (peek _ ?set)] =>
      rewrite (bind_ret _ _ _ _ _ (peek_run set _ _ Hat eq_refl))
  end.

Fixpoint rtoks (rs : list (Z * list Z)) : list tok :=
  match rs with [] => [] | (t, w) :: rs => Sym t :: Word w :: rtoks rs end.

Definition redir_ok (r : Z * list Z) : Prop := r.1 = LT ∨ r.1 = GT.

Lemma cmd_map_wrap {V W} (f : V → W) c rs :
  cmd_map f (wrap_redirs c rs) = wrap_redirs (cmd_map f c) (prod_map id f <$> rs).
Proof.
  revert c. induction rs as [|[t w] rs IH]; intros c; simpl; [done|]. rewrite IH. f_equal.
  unfold Sh.redircmd. simpl. by destruct (t =? LT).
Qed.

Lemma parseredirs_toks rs : ∀ fuel rs0 ts ps,
  at_toks ps (rtoks rs ++ ts) → Forall redir_ok rs → sees [LT; GT] ts = false → (left_ ps < fuel)%nat →
  ∃ rs' ps', parseredirs buf fuel rs0 ps = Ret (rs0 ++ rs') ps' ∧
    prod_map id (slice buf) <$> rs' = rs ∧ at_toks ps' ts ∧ (ps ≤ ps')%nat.
Proof.
  induction rs as [|[t w] rs IH]; intros [|fuel] rs0 ts ps Hat Hok Hs Hf; try lia; cbn [parseredirs].
  { cbn [rtoks app] in Hat. see_peek Hat. rewrite Hs.
    exists [], ps. rewrite app_nil_r. by split_and!. }
  apply list.Forall_cons in Hok as [Ht Hok]. unfold redir_ok in Ht. simpl in Ht, Hat.
  see_peek Hat.
  assert (sees [LT; GT] (Sym t :: Word w :: rtoks rs ++ ts) = true) as -> by (simpl; by destruct Ht as [->| ->]).
  destruct (gettoken_toks buf _ _ _ Hat) as (w1 & ps1 & E1 & _ & Hat1 & ?).
  destruct (gettoken_toks buf _ _ _ Hat1) as (w2 & ps2 & E2 & Hw2 & Hat2 & ?).
  rewrite (bind_ret _ _ _ _ _ E1). cbv beta iota. rewrite (bind_ret _ _ _ _ _ E2). cbv beta iota.
  change (negb (kind (Word w) =? LOWER_A)) with false. cbv iota.
  destruct (IH fuel (rs0 ++ [(kind (Sym t), w2)]) ts ps2) as (rs' & ps' & E & Em & Hat' & ?); [done..|lia|].
  exists ((t, w2) :: rs'), ps'. rewrite E, <- app_assoc. split_and!; [done| |done|lia].
  rewrite fmap_cons, Em. unfold prod_map. simpl. by rewrite Hw2.
Qed.

(** A command ends here. *)
Definition stops_at (set : list Z) (ts : list tok) : Prop := ts = [] ∨ sees set ts = true.

Lemma stops_not set set' ts :
  stops_at set ts → forallb (λ c, negb (strchr_in set' c)) set = true → sees set' ts = false.
Proof.
  intros [->|H] Hd; [done|]. destruct ts as [|[c|w] ts]; simpl in *; try done.
  rewrite forallb_forall in Hd. apply bool_decide_eq_true in H.
  specialize (Hd c (proj1 (list_elem_of_In _ _) H)). by apply negb_true_iff in Hd.
Qed.

Definition exec_end : list Z := [BAR; RPAR; AMP; SEMI].
Definition pipe_end : list Z := [RPAR; AMP; SEMI].
Definition back_end : list Z := [RPAR; SEMI].
Definition line_end : list Z := [RPAR].

Lemma stops_sub set set' ts :
  stops_at set ts → forallb (strchr_in set') set = true → stops_at set' ts.
Proof.
  intros [->|H] Hd; [by left|right]. destruct ts as [|[c|w] ts]; simpl in *; try done.
  rewrite forallb_forall in Hd. apply bool_decide_eq_true in H.
  exact (Hd c (proj1 (list_elem_of_In _ _) H)).
Qed.

(** The words and redirections of a simple command. *)
Lemma args_toks ws : ∀ fuel F argv rs0 rs ts ps,
  at_toks ps ((Word <$> ws) ++ rtoks rs ++ ts) → Forall redir_ok rs → stops_at exec_end ts →
  (length argv + length ws < MAXARGS)%nat → (left_ ps < fuel)%nat → (left_ ps < F)%nat →
  ∃ argv' rs' ps',
    (parseredirs buf F rs0 ≫= λ rs, parseargs fuel argv rs) ps =
      Ret (wrap_redirs (EXEC (argv ++ argv')) (rs0 ++ rs')) ps' ∧
    slice buf <$> argv' = ws ∧ prod_map id (slice buf) <$> rs' = rs ∧ at_toks ps' ts ∧ (ps ≤ ps')%nat.
Proof.
  induction ws as [|w ws IH]; intros [|fuel] F argv rs0 rs ts ps Hat Hok Hend Hl Hf HF; try lia.
  - destruct (parseredirs_toks rs F rs0 ts ps Hat Hok) as (rs' & ps' & E & Em & Hat' & ?);
      [by eapply stops_not|done|].
    rewrite (bind_ret _ _ _ _ _ E). exists [], rs', ps'. rewrite app_nil_r. split; [|by split_and!].
    cbn [Sh.parseargs]. see_peek Hat'.
    destruct Hend as [->|Hs].
    + cbn [sees]. destruct (gettoken_end buf Hbuf _ Hat') as (w & Ew). by rewrite (bind_ret _ _ _ _ _ Ew).
    + unfold exec_end in Hs. by rewrite Hs.
  - rewrite fmap_cons in Hat. simpl in Hat.
    destruct (parseredirs_toks [] F rs0 _ ps Hat) as (rs' & ps1 & E & Em & Hat1 & Hle1);
      [by apply Forall_nil|done|done|].
    apply fmap_nil_inv in Em as ->. rewrite app_nil_r in E. rewrite (bind_ret _ _ _ _ _ E).
    cbn [Sh.parseargs]. see_peek Hat1. cbn [sees].
    destruct (gettoken_toks buf _ _ _ Hat1) as (w1 & ps2 & E2 & Hw & Hat2 & Hle2).
    rewrite (bind_ret _ _ _ _ _ E2). cbv beta iota. simpl in Hw.
    change (kind (Word w) =? 0) with false. change (negb (kind (Word w) =? LOWER_A)) with false. cbv iota zeta.
    cbn [length] in Hl. destruct (Nat.leb_spec MAXARGS (length (argv ++ [w1]))) as [Hm|Hm];
      [rewrite length_app in Hm; simpl in Hm; lia|].
    destruct (IH fuel (S fuel) (argv ++ [w1]) rs0 rs ts ps2) as (argv' & rs' & ps' & E' & Ea & Er & Hat' & Hle');
      [done..|rewrite length_app; simpl; lia|lia|lia|].
    exists (w1 :: argv'), rs', ps'. rewrite E', <- app_assoc. rewrite fmap_cons, Ea, Hw. split_and!; try done. lia.
Qed.

Lemma parsebacks_toks n : ∀ fuel c ts ps,
  at_toks ps (replicate n (Sym AMP) ++ ts) → stops_at back_end ts → (left_ ps < fuel)%nat →
  ∃ ps', parsebacks buf fuel c ps = Ret (Nat.iter n BACK c) ps' ∧ at_toks ps' ts ∧ (ps ≤ ps')%nat.
Proof.
  induction n as [|n IH]; intros [|fuel] c ts ps Hat Hend Hf; try lia; cbn [parsebacks replicate app] in *.
  - see_peek Hat.
    rewrite (stops_not _ [AMP] _ Hend) by done. by exists ps.
  - see_peek Hat. cbn [sees].
    change (strchr_in [AMP] AMP) with true. cbv iota.
    destruct (gettoken_toks buf _ _ _ Hat) as (w & ps1 & E & _ & Hat1 & ?).
    rewrite (bind_ret _ _ _ _ _ E).
    destruct (IH fuel (BACK c) ts ps1) as (ps' & E' & Hat' & ?); [done|done|lia|].
    exists ps'. rewrite E'. rewrite <- Nat.iter_succ_r. split_and!; [done|done|lia].
Qed.

(** The four levels; a simple command or block may be followed by redirections. *)
Definition exec_level (c : cmd (list Z)) : Prop := ∀ rs ts ps fuel,
  at_toks ps (toks c Lexec ++ rtoks rs ++ ts) → Forall redir_ok rs → stops_at exec_end ts →
  (4 * left_ ps + 2 ≤ fuel)%nat → parses (parseexec fuel ps) (wrap_redirs c rs) ts ps.

Definition pipe_level (c : cmd (list Z)) : Prop := ∀ ts ps fuel,
  at_toks ps (toks c Lpipe ++ ts) → stops_at pipe_end ts →
  (4 * left_ ps + 3 ≤ fuel)%nat → parses (parsepipe fuel ps) c ts ps.

Definition back_level (c : cmd (list Z)) : Prop := ∀ ts ps fuel,
  at_toks ps (toks c Lback ++ ts) → stops_at pipe_end ts → (4 * left_ ps + 3 ≤ fuel)%nat →
  ∃ c0 n ps', parsepipe fuel ps = Ret c0 ps' ∧ at_toks ps' (replicate n (Sym AMP) ++ ts) ∧
    cmd_map (slice buf) (Nat.iter n BACK c0) = c ∧ (ps ≤ ps')%nat.

Definition line_level (c : cmd (list Z)) : Prop := ∀ ts ps fuel,
  at_toks ps (toks c Lline ++ ts) → stops_at line_end ts →
  (4 * left_ ps + 4 ≤ fuel)%nat → parses (parseline fuel ps) c ts ps.

Lemma pipe_of_exec c : toks c Lpipe = toks c Lexec → exec_level c → pipe_level c.
Proof.
  intros Et IH ts ps [|fuel] Hat Hend Hf; [lia|]. cbn [Sh.parsepipe]. rewrite Et in Hat.
  destruct (IH [] ts ps fuel Hat) as (c' & ps' & E & Ec & Hat' & Hle);
    [by apply Forall_nil|by eapply stops_sub|lia|].
  rewrite (bind_ret _ _ _ _ _ E). see_peek Hat'. rewrite (stops_not _ [BAR] _ Hend) by done.
  by exists c', ps'.
Qed.

Lemma back_of_pipe c : toks c Lback = toks c Lpipe → pipe_level c → back_level c.
Proof.
  intros Et IH ts ps fuel Hat Hend Hf. rewrite Et in Hat.
  destruct (IH ts ps fuel Hat Hend Hf) as (c' & ps' & E & Ec & Hat' & Hle). by exists c', 0%nat, ps'.
Qed.

(** [parsepipe] and the loop over ampersands. *)
Lemma line_start c ts ps fuel fuel' :
  back_level c → at_toks ps (toks c Lback ++ ts) → stops_at back_end ts →
  (4 * left_ ps + 3 ≤ fuel)%nat → (left_ ps < fuel')%nat →
  parses ((parsepipe fuel ≫= λ c, parsebacks buf fuel' c) ps) c ts ps.
Proof.
  intros IH Hat Hend Hf Hf'.
  destruct (IH ts ps fuel Hat) as (c0 & n & ps1 & E & Hat1 & Ec & Hle); [by eapply stops_sub|done|].
  rewrite (bind_ret _ _ _ _ _ E).
  destruct (parsebacks_toks n fuel' c0 ts ps1) as (ps2 & E2 & Hat2 & Hle2); [done|done|lia|].
  exists (Nat.iter n BACK c0), ps2. split_and!; [done|done|done|lia].
Qed.

Lemma line_of_back c : toks c Lline = toks c Lback → back_level c → line_level c.
Proof.
  intros Et IH ts ps [|fuel] Hat Hend Hf; [lia|]. cbn [Sh.parseline]. rewrite Et in Hat.
  destruct (line_start c ts ps fuel (S fuel) IH Hat) as (c' & ps' & E & Ec & Hat' & Hle);
    [by eapply stops_sub|lia|lia|].
  rewrite <- bind_assoc, (bind_ret _ _ _ _ _ E). see_peek Hat'.
  rewrite (stops_not _ [SEMI] _ Hend) by done. by exists c', ps'.
Qed.

Lemma exec_of_line c : toks c Lexec = paren (toks c Lline) → line_level c → exec_level c.
Proof.
  intros Et IH rs ts ps [|[|fuel]] Hat Hok Hend Hf; [lia|lia|].
  rewrite Et in Hat. unfold paren in Hat. simpl in Hat. rewrite <- app_assoc in Hat. simpl in Hat.
  cbn [Sh.parseexec Sh.parseblock]. see_peek Hat. cbn [sees]. change (strchr_in [LPAR] LPAR) with true. cbv iota.
  see_peek Hat. cbn [sees]. change (negb (strchr_in [LPAR] LPAR)) with false. cbv iota.
  destruct (gettoken_toks buf _ _ _ Hat) as (w1 & ps1 & E1 & _ & Hat1 & Hle1).
  rewrite (bind_ret _ _ _ _ _ E1).
  destruct (IH _ ps1 fuel Hat1) as (c' & ps2 & E2 & Ec & Hat2 & Hle2); [by right|lia|].
  rewrite (bind_ret _ _ _ _ _ E2). see_peek Hat2. cbn [sees].
  change (negb (strchr_in [RPAR] RPAR)) with false. cbv iota.
  destruct (gettoken_toks buf _ _ _ Hat2) as (w3 & ps3 & E3 & _ & Hat3 & Hle3).
  rewrite (bind_ret _ _ _ _ _ E3).
  destruct (parseredirs_toks rs (S fuel) [] ts ps3) as (rs' & ps4 & E4 & Er & Hat4 & Hle4);
    [done|done|by eapply stops_not|lia|].
  rewrite (bind_ret _ _ _ _ _ E4). eexists _, ps4. split; [done|]. cbn [app]. rewrite cmd_map_wrap, Ec, Er.
  split_and!; [done|done|lia].
Qed.

Lemma exec_simple argv : Forall word_ok argv ∧ (length argv < MAXARGS)%nat → exec_level (EXEC argv).
Proof.
  intros [Hw Hl] rs ts ps [|fuel] Hat Hok Hend Hf; [lia|]. cbn [Sh.parseexec]. simpl in Hat.
  see_peek Hat.
  assert (sees [LPAR] ((Word <$> argv) ++ rtoks rs ++ ts) = false) as ->.
  { destruct argv; [|done]. destruct rs as [|[t w] rs]; simpl; [by eapply stops_not|].
    apply list.Forall_cons in Hok as [Ht _]. unfold redir_ok in Ht. simpl in Ht. by destruct Ht as [->| ->]. }
  destruct (args_toks argv (S fuel) (S fuel) [] [] rs ts ps) as (argv' & rs' & ps' & E & Ea & Er & Hat' & Hle);
    [done..|simpl; lia|lia|lia|].
  rewrite E. eexists _, ps'. split; [done|]. rewrite cmd_map_wrap. cbn [app cmd_map]. by rewrite Ea, Er.
Qed.

Lemma pipe_pipe l r : exec_level l → pipe_level r → pipe_level (PIPE l r).
Proof.
  intros Hl Hr ts ps [|fuel] Hat Hend Hf; [lia|]. cbn [Sh.parsepipe]. simpl in Hat. rewrite <- app_assoc in Hat.
  destruct (Hl [] (Sym BAR :: toks r Lpipe ++ ts) ps fuel Hat) as (c1 & ps1 & E1 & Ec1 & Hat1 & Hle1);
    [by apply Forall_nil|by right|lia|].
  rewrite (bind_ret _ _ _ _ _ E1). see_peek Hat1. cbn [sees]. change (strchr_in [BAR] BAR) with true. cbv iota.
  destruct (gettoken_toks buf _ _ _ Hat1) as (w2 & ps2 & E2 & _ & Hat2 & Hle2).
  rewrite (bind_ret _ _ _ _ _ E2).
  destruct (Hr ts ps2 fuel Hat2 Hend) as (c3 & ps3 & E3 & Ec3 & Hat3 & Hle3); [lia|].
  rewrite (bind_ret _ _ _ _ _ E3). exists (PIPE c1 c3), ps3. simpl in Ec1 |- *. rewrite Ec1, Ec3.
  split_and!; [done|done|done|lia].
Qed.

Lemma line_list l r : back_level l → line_level r → line_level (LIST l r).
Proof.
  intros Hl Hr ts ps [|fuel] Hat Hend Hf; [lia|]. cbn [Sh.parseline]. simpl in Hat. rewrite <- app_assoc in Hat.
  destruct (line_start l (Sym SEMI :: toks r Lline ++ ts) ps fuel (S fuel) Hl Hat)
    as (c1 & ps1 & E1 & Ec1 & Hat1 & Hle1); [by right|lia|lia|].
  rewrite <- bind_assoc, (bind_ret _ _ _ _ _ E1). see_peek Hat1. cbn [sees].
  change (strchr_in [SEMI] SEMI) with true. cbv iota.
  destruct (gettoken_toks buf _ _ _ Hat1) as (w2 & ps2 & E2 & _ & Hat2 & Hle2).
  rewrite (bind_ret _ _ _ _ _ E2).
  destruct (Hr ts ps2 fuel Hat2 Hend) as (c3 & ps3 & E3 & Ec3 & Hat3 & Hle3); [lia|].
  rewrite (bind_ret _ _ _ _ _ E3). exists (LIST c1 c3), ps3. simpl. rewrite Ec1, Ec3.
  split_and!; [done|done|done|lia].
Qed.

Lemma back_back c : back_level c → back_level (BACK c).
Proof.
  intros IH ts ps fuel Hat Hend Hf. simpl in Hat. rewrite <- app_assoc in Hat.
  destruct (IH ([Sym AMP] ++ ts) ps fuel Hat) as (c0 & n & ps' & E & Hat' & Ec & Hle); [by right|done|].
  exists c0, (S n), ps'. split; [done|]. split; [|by rewrite Nat.iter_succ; simpl; rewrite Ec].
  by rewrite replicate_S_end, <- app_assoc.
Qed.

Lemma reparse c :
  wf O_RDONLY O_WRONLY O_CREATE c → exec_level c ∧ pipe_level c ∧ back_level c ∧ line_level c.
Proof.
  assert (∀ c, toks c Lpipe = toks c Lexec → toks c Lback = toks c Lpipe → toks c Lline = toks c Lback →
            exec_level c → exec_level c ∧ pipe_level c ∧ back_level c ∧ line_level c) as Hup.
  { intros c0 E1 E2 E3 He. pose proof (pipe_of_exec c0 E1 He) as Hp. pose proof (back_of_pipe c0 E2 Hp) as Hb.
    split_and!; [done..|]. by apply line_of_back. }
  induction c as [argv|c IH file mode fd|l IHl r IHr|l IHl r IHr|c IH]; intros Hwf.
  - apply Hup; [done..|]. by apply exec_simple.
  - apply Hup; [done..|]. destruct Hwf as (Hc & Hf & Hm). destruct (IH Hc) as (He & _).
    intros rs ts ps fuel Hat Hok Hend Hfu. simpl in Hat. rewrite <- app_assoc in Hat.
    assert (wrap_redirs (REDIR c file mode fd) rs = wrap_redirs c ((redir_tok fd, file) :: rs)) as ->.
    { simpl. unfold Sh.redircmd, redir_tok. by destruct Hm as [[-> ->]|[-> ->]]. }
    apply He; [done| |done|done]. constructor; [|done]. unfold redir_ok, redir_tok. simpl. destruct (fd =? 0); auto.
  - destruct Hwf as [Hl Hr]. destruct (IHl Hl) as (He & _), (IHr Hr) as (_ & Hp & _).
    assert (pipe_level (PIPE l r)) as HP; [by apply pipe_pipe|].
    pose proof (back_of_pipe (PIPE l r) eq_refl HP) as HB. pose proof (line_of_back (PIPE l r) eq_refl HB) as HL.
    split_and!; try done. by apply exec_of_line.
  - destruct Hwf as [Hl Hr]. destruct (IHl Hl) as (_ & _ & Hb & _), (IHr Hr) as (_ & _ & _ & Hli).
    assert (line_level (LIST l r)) as HL; [by apply line_list|].
    pose proof (exec_of_line (LIST l r) eq_refl HL) as HE. pose proof (pipe_of_exec (LIST l r) eq_refl HE) as HP.
    split_and!; try done. by apply back_of_pipe.
  - destruct (IH Hwf) as (_ & _ & Hb & _). assert (back_level (BACK c)) as HB; [by apply back_back|].
    pose proof (line_of_back (BACK c) eq_refl HB) as HL. pose proof (exec_of_line (BACK c) eq_refl HL) as HE.
    split_and!; try done. by apply pipe_of_exec.
Qed.

End reparse_tree.

(** ** Properties of parsecmd *)

(** C32. [parsecmd] is total: for every line it reports a syntax error or returns a
    tree whose [argv] arrays keep room for their terminator and whose strings,
    after [nulterminate] has written into the line, are exactly the words of the
    line they were parsed from. *)
Theorem parsecmd_total O_RDONLY O_WRONLY O_CREATE buf fuel :
  Forall (λ b, b ≠ 0) buf → (4 * length buf + 4 ≤ fuel)%nat →
  parsecmd fuel O_RDONLY O_WRONLY O_CREATE buf 0%nat = Panicked ∨
  ∃ c mem, parsecmd fuel O_RDONLY O_WRONLY O_CREATE buf 0%nat = Ret (c, mem) (length buf) ∧
    args_fit c ∧ length mem = S (length buf) ∧
    ∀ w, w ∈ ranges c → word_range buf w ∧ cstring (drop w.1 mem) = slice buf w.
Proof.
  intros Hbuf Hf. unfold parsecmd.
  destruct (good_parse buf Hbuf O_RDONLY O_WRONLY O_CREATE fuel 0%nat) as (HL & _); [lia|].
  specialize (HL ltac:(unfold es; lia)). unfold good in HL.
  destruct (parseline buf O_RDONLY O_WRONLY O_CREATE fuel 0%nat) as [c ps| | | | |] eqn:E; try done;
    [|left; unfold mbind, M_bind; by rewrite E].
  destruct HL as (Hps & Ht & Ha). rewrite (bind_ret _ _ _ _ _ E).
  destruct (peek_spec buf Hbuf [] ps) as (b & Eb & _); [lia|]. rewrite (bind_ret _ _ _ _ _ Eb).
  erewrite bind_ret by reflexivity. unfold id.
  destruct (Nat.eqb_spec (skip_white buf ps) (length buf)) as [->|]; [right|by left]. simpl.
  exists c, (nulterminate c (buf ++ [0])). split_and!; [done|done| |].
  - rewrite nulterminate_ranges. generalize (ranges c). intros ws.
    assert (∀ mem, length (foldl end_string mem ws) = length mem) as ->.
    { induction ws as [|w ws IH]; intros mem; simpl; [done|]. rewrite IH. apply length_insert. }
    rewrite length_app. simpl. lia.
  - intros w Hw. split; [by eapply list.Forall_forall|]. rewrite nulterminate_ranges.
    by apply nulterminate_word.
Qed.

(** ls -l > f *)
Definition sample_line : list Z := [108; 115; 32; 45; 108; 32; 62; 32; 102; 10].

Lemma parsecmd_total_witness :
  ∃ c mem, parsecmd 100 0 1 512 sample_line 0%nat = Ret (c, mem) 10%nat ∧
    args_fit c ∧ ∀ w, w ∈ ranges c → cstring (drop w.1 mem) = slice sample_line w.
Proof.
  assert (Forall (λ b, b ≠ 0) sample_line) as Hz by (repeat constructor; done).
  assert (4 * length sample_line + 4 ≤ 100)%nat as Hf by (simpl; lia).
  destruct (parsecmd_total 0 1 512 sample_line 100 Hz Hf) as [E|(c & mem & E & Ha & _ & Hw)].
  - exfalso. assert (ret_state (parsecmd 100 0 1 512 sample_line 0%nat) = Some 10%nat) as E'
      by (vm_compute; reflexivity).
    rewrite E in E'. discriminate E'.
  - exists c, mem. split; [exact E|]. split; [exact Ha|]. intros w Hin. apply Hw, Hin.
Defined.

Lemma cmd_map_ranges (f g : range → list Z) c :
  (∀ w, w ∈ ranges c → f w = g w) → cmd_map f c = cmd_map g c.
Proof.
  induction c as [argv|c IH file mode fd|l IHl r IHr|l IHl r IHr|c IH]; simpl; intros H.
  - f_equal. apply list.list_fmap_ext. intros i w E. apply H. by eapply list_elem_of_lookup_2.
  - rewrite IH, H; [done|apply elem_of_app; right; by apply elem_of_cons; left|].
    intros w Hw. apply H, elem_of_app. by left.
  - rewrite IHl, IHr; [done|intros w Hw; apply H, elem_of_app; by right|intros w Hw; apply H, elem_of_app; by left].
  - rewrite IHl, IHr; [done|intros w Hw; apply H, elem_of_app; by right|intros w Hw; apply H, elem_of_app; by left].
  - by rewrite IH.
Qed.

(** C28. Parsing inverts printing: every command tree, printed with the parentheses
    the grammar needs, parses to itself: the tree returned, with each string read
    from the line as [nulterminate] left it, is the tree that was printed. *)
Theorem parsecmd_roundtrip O_RDONLY O_WRONLY O_CREATE c fuel :
  wf O_RDONLY O_WRONLY O_CREATE c → (4 * length (print_cmd c) + 4 ≤ fuel)%nat →
  ∃ c' mem ps, parsecmd fuel O_RDONLY O_WRONLY O_CREATE (print_cmd c) 0%nat = Ret (c', mem) ps ∧
    cmd_map (λ w, cstring (drop w.1 mem)) c' = c.
Proof.
  intros Hwf Hf. set (buf := print_cmd c) in *.
  pose proof (toks_ok O_RDONLY O_WRONLY O_CREATE c Lline Hwf) as Htoks.
  assert (Forall (λ b, b ≠ 0) buf) as Hbuf by by apply text_nonzero.
  assert (at_toks buf 0 (toks c Lline ++ [])) as Hat.
  { split; [lia| |]; rewrite app_nil_r; done. }
  destruct (reparse buf Hbuf O_RDONLY O_WRONLY O_CREATE c Hwf) as (_ & _ & _ & HL).
  destruct (HL [] 0%nat fuel Hat) as (c' & ps & E & Ec & Hat' & _); [by left|lia|].
  destruct (good_parse buf Hbuf O_RDONLY O_WRONLY O_CREATE fuel 0%nat) as (HG & _); [lia|].
  specialize (HG ltac:(unfold es; lia)). rewrite E in HG. destruct HG as (_ & Ht & _).
  exists c', (nulterminate c' (buf ++ [0])), ps. split.
  - unfold parsecmd. rewrite (bind_ret _ _ _ _ _ E).
    rewrite (bind_ret _ _ _ _ _ (peek_run buf Hbuf [] _ _ Hat' eq_refl)).
    erewrite bind_ret by reflexivity. unfold id. rewrite (att_nil _ _ Hat'). by rewrite Nat.eqb_refl.
  - etrans; [|exact Ec]. apply cmd_map_ranges. intros w Hw. rewrite nulterminate_ranges.
    by apply nulterminate_word.
Qed.

(** ( a > f ; b & ) | c d *)
Definition sample_cmd : cmd (list Z) :=
  PIPE (LIST (REDIR (EXEC [[97]]) [102] 513 1) (BACK (EXEC [[98]]))) (EXEC [[99]; [100]]).

Lemma parsecmd_roundtrip_witness :
  ∃ c' mem ps, parsecmd 200 0 1 512 (print_cmd sample_cmd) 0%nat = Ret (c', mem) ps ∧
    cmd_map (λ w, cstring (drop w.1 mem)) c' = sample_cmd.
Proof.
  apply (parsecmd_roundtrip 0 1 512 sample_cmd 200); [|vm_compute; lia].
  simpl. unfold word_ok, MAXARGS. repeat split; try done; try lia; try (repeat constructor; done).
Defined.
