(* ===== verification/Kthread.v ===== *)
(** * Threads of a processor (kernel/kthread.c, kernel/smp.c)

    A thread that is resumed or woken up runs on top of the one that was running, its
    [parent]; when it yields or suspends itself, the parent goes on.  The processor has
    one stack pointer, which [switch_to] and [switch_first] of entry64.S exchange with the
    one saved in the thread.  The threads of a processor are shown to be a stack, on
    which each thread finds the stack pointer it left.

    The results of alloc_vm_stack and alloc_kheap_4k are arguments, and so is the test
    of the page tables in the assertions: [mapped a] is
    [a < __max_phy_mem_addr || get_pte_with_addr (a)]. *)

From stdpp Require Import base gmap list numbers option.
From Stdlib Require Import Lia ZArith.
From S2P Require Import Prelude Chain Pages.

#[local] Open Scope Z_scope.
#[local] Open Scope yaos_scope.

(** ** State *)

Definition THREAD_PERCPU : Z := 1.
Definition THREAD_IDLE : Z := 4.
Definition THREAD_SUSPEND : Z := 8.
Definition THREAD_LVL_IDLE : Z := 4096.

Inductive thread_state : Type := THREAD_INIT | THREAD_READY | THREAD_RUN | THREAD_DONE.

#[export] Instance thread_state_eq_dec : EqDecision thread_state.
Proof. solve_decision. Defined.

Record thread_struct : Type := mk_thread {
  stack_addr : Z;
  stack_size : Z;
  rsp : Z;
  lvl : Z;
  flag : Z;
  on_cpu : Z;
  state : thread_state;
  real_parent : option Z;
  parent : option Z
}.

(** The threads by address, [current_thread] of the processor, its stack pointer and the
    register a switch leaves its argument in, and [kthread_create_list]. *)
Record cpu : Type := mk_cpu {
  threads : gmap Z thread_struct;
  current_thread : Z;
  sp : Z;
  rax : Z;
  kthread_create_list : list Z
}.

Definition set_stack (a : Z) (t : thread_struct) : thread_struct :=
  mk_thread a (stack_size t) (rsp t) (lvl t) (flag t) (on_cpu t) (state t) (real_parent t) (parent t).
Definition set_size (a : Z) (t : thread_struct) : thread_struct :=
  mk_thread (stack_addr t) a (rsp t) (lvl t) (flag t) (on_cpu t) (state t) (real_parent t) (parent t).
Definition set_rsp (a : Z) (t : thread_struct) : thread_struct :=
  mk_thread (stack_addr t) (stack_size t) a (lvl t) (flag t) (on_cpu t) (state t) (real_parent t) (parent t).
Definition set_lvl (a : Z) (t : thread_struct) : thread_struct :=
  mk_thread (stack_addr t) (stack_size t) (rsp t) a (flag t) (on_cpu t) (state t) (real_parent t) (parent t).
Definition set_flag (a : Z) (t : thread_struct) : thread_struct :=
  mk_thread (stack_addr t) (stack_size t) (rsp t) (lvl t) a (on_cpu t) (state t) (real_parent t) (parent t).
Definition set_cpu (a : Z) (t : thread_struct) : thread_struct :=
  mk_thread (stack_addr t) (stack_size t) (rsp t) (lvl t) (flag t) a (state t) (real_parent t) (parent t).
Definition set_state (a : thread_state) (t : thread_struct) : thread_struct :=
  mk_thread (stack_addr t) (stack_size t) (rsp t) (lvl t) (flag t) (on_cpu t) a (real_parent t) (parent t).
Definition set_real_parent (a : option Z) (t : thread_struct) : thread_struct :=
  mk_thread (stack_addr t) (stack_size t) (rsp t) (lvl t) (flag t) (on_cpu t) (state t) a (parent t).
Definition set_parent (a : option Z) (t : thread_struct) : thread_struct :=
  mk_thread (stack_addr t) (stack_size t) (rsp t) (lvl t) (flag t) (on_cpu t) (state t) (real_parent t) a.

Definition thread (p : Z) : M cpu thread_struct := o ← gets (λ s, threads s !! p); deref o.
Definition upd (p : Z) (f : thread_struct → thread_struct) : M cpu unit :=
  t ← thread p;
  modify (λ s, mk_cpu (<[p := f t]> (threads s)) (current_thread s) (sp s) (rax s) (kthread_create_list s)).
Definition set_current (p : Z) : M cpu unit :=
  modify (λ s, mk_cpu (threads s) p (sp s) (rax s) (kthread_create_list s)).
Definition set_regs (stack arg : Z) : M cpu unit :=
  modify (λ s, mk_cpu (threads s) (current_thread s) stack arg (kthread_create_list s)).

Definition suspended (t : thread_struct) : bool := negb (flag t .& THREAD_SUSPEND =? 0).

Section kthread.
Context (mapped : Z → bool).

(** ** Switching stacks *)

(** Six registers are pushed, the stack pointer is saved and replaced, and the registers
    are popped from the new stack. *)
Definition switch_to (stack old arg : Z) : M cpu unit :=
  now ← gets sp;
  upd old (set_rsp (u64 (now - 48))) ;;
  set_regs (u64 (stack + 48)) arg.

(** The new stack holds the address of the call of exit_thread only. *)
Definition switch_first (stack old arg : Z) : M cpu unit :=
  now ← gets sp;
  upd old (set_rsp (u64 (now - 48))) ;;
  set_regs (u64 (stack - 8)) arg.

Definition thread_switch_first (p old arg : Z) : M cpu unit :=
  t ← thread p;
  let stack_point := u64 (stack_addr t + stack_size t - 8) in
  ASSERT (negb (stack_point =? 0)) ;;
  ASSERT (mapped stack_point) ;;
  switch_first stack_point old arg.

Definition thread_switch_to (p old arg : Z) : M cpu unit :=
  t ← thread p;
  ASSERT (negb (rsp t =? 0)) ;;
  ASSERT (mapped (rsp t)) ;;
  switch_to (rsp t) old arg.

(** ** Making threads *)

Definition ENOMEM : Z := -12.

Definition create_thread_oncpu (vm_stack : Z) (p oncpu : Z) : M cpu Z :=
  t ← thread p;
  ok ← (if stack_addr t =? 0 then
          if vm_stack =? 0 then mret false else upd p (set_stack vm_stack) ;; mret true
        else mret true);
  if negb ok then mret ENOMEM else
  modify (λ s, mk_cpu (threads s) (current_thread s) (sp s) (rax s) (p :: kthread_create_list s)) ;;
  upd p (set_state THREAD_READY) ;;
  upd p (set_cpu oncpu) ;;
  mret 0.

(** ** Scheduling *)

Definition yield_thread (arg : Z) : M cpu unit :=
  pold ← gets current_thread;
  t ← thread pold;
  ASSERT (negb (bool_decide (parent t = Some pold))) ;;
  match parent t with
  | None => panic
  | Some p =>
      set_current p ;;
      u ← thread p;
      if bool_decide (state u = THREAD_READY) then
        upd p (set_state THREAD_RUN) ;; thread_switch_first p pold arg
      else
        upd p (set_state THREAD_RUN) ;; thread_switch_to p pold arg
  end.

(** What a thread does when it is switched to for the first time: it yields as long as
    it is suspended, before its main function is called. *)
Definition thread_main (p arg : Z) : M cpu unit :=
  upd p (set_state THREAD_RUN) ;;
  t ← thread p;
  if suspended t then yield_thread arg else mret tt.

(** [current_thread] is not changed. *)
Definition exit_thread (arg : Z) : M cpu unit :=
  pold ← gets current_thread;
  t ← thread pold;
  upd pold (set_state THREAD_DONE) ;;
  match parent t with
  | None => panic
  | Some p =>
      u ← thread p;
      if bool_decide (state u = THREAD_READY) then
        upd p (set_state THREAD_RUN) ;; thread_switch_first p pold arg
      else
        upd p (set_state THREAD_RUN) ;; thread_switch_to p pold arg
  end.

(** The search of the assertion in wake_up_thread, along the parents. *)
Fixpoint find_parent (fuel : nat) (p : Z) (pold : option Z) (found : bool) : M cpu bool :=
  match pold with
  | None => mret found
  | Some q =>
      match fuel with
      | O => out_of_fuel
      | S fuel =>
          t ← thread q;
          find_parent fuel p (parent t) (if bool_decide (parent t = Some p) then true else found)
      end
  end.

Definition wake_up_thread (p : Z) : M cpu unit :=
  pold ← gets current_thread;
  if bool_decide (p = pold) then mret tt else
  t ← thread p;
  if bool_decide (state t = THREAD_INIT) then mret tt else
  if negb (suspended t) then
    fuel ← gets (λ s, S (size (threads s)));
    found ← find_parent fuel p (Some pold) false;
    ASSERT (negb found)
  else
  told ← thread pold;
  if lvl told <? lvl t then
    ASSERT (negb (bool_decide (parent told = Some p))) ;;
    upd p (set_parent (parent told)) ;;
    upd pold (set_parent (Some p))
  else
    upd p (λ t, set_flag (flag t .& Z.lnot THREAD_SUSPEND) t) ;;
    set_current p ;;
    upd p (set_parent (Some pold)) ;;
    if bool_decide (state t = THREAD_READY) then
      upd p (set_state THREAD_RUN) ;; thread_switch_first p pold 0
    else thread_switch_to p pold 0.

Definition suspend_thread : M cpu unit :=
  pold ← gets current_thread;
  t ← thread pold;
  ASSERT (negb (bool_decide (parent t = Some pold))) ;;
  match parent t with
  | None => panic
  | Some p =>
      ASSERT (negb (suspended t)) ;;
      upd pold (λ t, set_flag (flag t .| THREAD_SUSPEND) t) ;;
      set_current p ;;
      u ← thread p;
      if bool_decide (state u = THREAD_READY) then
        upd p (set_state THREAD_RUN) ;; thread_switch_first p pold 0
      else
        upd p (set_state THREAD_RUN) ;; thread_switch_to p pold 0
  end.

(** The result is false for a thread that is done. *)
Definition resume_thread (p arg : Z) : M cpu bool :=
  t ← thread p;
  if bool_decide (state t = THREAD_DONE) then mret false else
  pold ← gets current_thread;
  upd p (set_parent (Some pold)) ;;
  ASSERT (negb (bool_decide (pold = p))) ;;
  set_current p ;;
  (if bool_decide (state t = THREAD_READY) then
     upd p (set_state THREAD_RUN) ;; thread_switch_first p pold arg
   else thread_switch_to p pold arg) ;;
  mret true.

(** ** The first thread, and the threads of smp.c *)

Definition init_idle_thread (idle init_stack init_size cpuid : Z) : M cpu Z :=
  upd idle (λ t, set_parent None (set_real_parent None (set_lvl THREAD_LVL_IDLE (set_flag THREAD_IDLE
    (set_size init_size (set_stack init_stack t)))))) ;;
  ret ← create_thread_oncpu 0 idle cpuid;
  if negb (ret =? 0) then mret ret else
  set_current idle ;;
  upd idle (set_state THREAD_RUN) ;;
  mret 0.

(** [ht_size] and [ht_lvl] are the fields of the [struct smp_percpu_thread]. *)
Definition smp_create_thread (heap vm_stack : Z) (p ht ht_size ht_lvl cpuid : Z) : M cpu Z :=
  upd p (λ t, set_flag THREAD_PERCPU (set_size ht_size (set_stack 0 t))) ;;
  ok ← (if ht_size <? PAGE_SIZE then
          if heap =? 0 then mret false else upd p (set_stack (u64 (heap + ht_size))) ;; mret true
        else mret true);
  if negb ok then mret ENOMEM else
  ret ← create_thread_oncpu vm_stack p cpuid;
  if negb (ret =? 0) then mret ret else
  cur ← gets current_thread;
  upd p (set_real_parent (Some cur)) ;;
  upd p (set_lvl ht_lvl) ;;
  resume_thread p ht ;;
  mret 0.

End kthread.

(** ** The stack of threads

    The specification: a stack of threads, each with a stack pointer of its own from the
    moment it has started. *)

Record sched : Type := mk_sched {
  stk : list Z;            (* the running thread first *)
  flagged : gset Z;        (* the suspended ones *)
  sps : gmap Z Z
}.

(** What the running thread does: [Work x] is code that leaves the stack pointer at [x]. *)
Inductive op : Type :=
| Work (x : Z)
| Resume (p arg : Z)
| Yield (arg : Z)
| Suspend
| Wake (p : Z).

Section spec.
(** The threads that have been made; [room p x]: the thread [p] may have its stack
    pointer at [x]; [start p]: where it has it at the beginning. *)
Context (alive : gset Z) (room : Z → Z → bool) (start level : Z → Z).

(** The running thread becomes the first of [ts]; it starts if it has not yet. *)
Definition run (ts : list Z) (fl : gset Z) (a : sched) : sched :=
  mk_sched ts fl (match ts with
                  | p :: _ => match sps a !! p with Some _ => sps a | None => <[p := start p]> (sps a) end
                  | [] => sps a
                  end).

Definition step (a : sched) (o : op) : option sched :=
  match stk a with
  | [] => None
  | t :: ts =>
      match o with
      | Work x => if room t x then Some (mk_sched (t :: ts) (flagged a) (<[t := x]> (sps a))) else None
      | Resume p _ => if bool_decide (p ∈ alive ∧ p ∉ t :: ts) then Some (run (p :: t :: ts) (flagged a) a) else None
      | Yield _ => match ts with [] => None | _ => Some (run ts (flagged a) a) end
      | Suspend =>
          match ts with
          | [] => None
          | _ => if bool_decide (t ∈ flagged a) then None else Some (run ts ({[t]} ∪ flagged a) a)
          end
      | Wake p =>
          if bool_decide (p = t) then Some a else
          if bool_decide (p ∉ alive ∨ p ∈ ts) then None else
          if bool_decide (p ∈ flagged a) then
            if level t <? level p then Some (mk_sched (t :: p :: ts) (flagged a) (sps a))
            else Some (run (p :: t :: ts) (flagged a ∖ {[p]}) a)
          else Some a
      end
  end.

Fixpoint steps (a : sched) (os : list op) : option sched :=
  match os with [] => Some a | o :: os => a ← step a o; steps a os end.

End spec.

(** The code of an operation. *)
Definition run_op (mapped : Z → bool) (o : op) : M cpu unit :=
  match o with
  | Work x => modify (λ s, mk_cpu (threads s) (current_thread s) x (rax s) (kthread_create_list s))
  | Resume p arg => resume_thread mapped p arg ;; mret tt
  | Yield arg => yield_thread mapped arg
  | Suspend => suspend_thread mapped
  | Wake p => wake_up_thread mapped p
  end.

Fixpoint run_ops (mapped : Z → bool) (os : list op) : M cpu unit :=
  match os with [] => mret tt | o :: os => run_op mapped o ;; run_ops mapped os end.

(** ** The code implements the stack *)

Section refine.
Context (mapped : Z → bool) (base : gmap Z thread_struct) (alive : gset Z) (room : Z → Z → bool) (start level : Z → Z).

(** Stack pointers stay inside stacks that are mapped, with room for the registers. *)
Record stacks_ok : Prop := {
  st_room : ∀ p x, p ∈ alive → room p x = true → 48 < x < 2 ^ 64 ∧ mapped (x - 48) = true;
  st_start : ∀ p, p ∈ alive → room p (start p) = true ∧ start p + 8 < 2 ^ 64 ∧ mapped (start p + 8) = true
}.
Context (Hst : stacks_ok).

Definition nx (ths : gmap Z thread_struct) (p : Z) : option (option Z) := parent <$> ths !! p.

(** The thread [t] at [p] shows what the specification says of it; [r] is the one that runs. *)
Record shows (a : sched) (r p : Z) (t : thread_struct) : Prop := {
  sh_state : state t = match sps a !! p with Some _ => THREAD_RUN | None => THREAD_READY end;
  sh_flag : suspended t = bool_decide (p ∈ flagged a);
  sh_lvl : lvl t = level p;
  sh_stack : u64 (stack_addr t + stack_size t - 8) = start p + 8;
  sh_rsp : p ≠ r → ∀ x, sps a !! p = Some x → rsp t = x - 48
}.

(** The threads that are not made yet are as they were, in [base]. *)
Record implements (s : cpu) (a : sched) : Prop := {
  im_chain : chain (nx (threads s)) (Some (current_thread s)) (stk a);
  im_alive : ∀ p, p ∈ stk a → p ∈ alive;
  im_shows : ∀ p, p ∈ alive → ∃ t, threads s !! p = Some t ∧ shows a (current_thread s) p t;
  im_sp : sps a !! current_thread s = Some (sp s);
  im_room : ∀ p x, sps a !! p = Some x → p ∈ alive ∧ room p x = true;
  im_frame : ∀ p, p ∉ alive → threads s !! p = base !! p ∧ p ∉ flagged a
}.

Lemma thread_at_run s p t : threads s !! p = Some t → thread p s = Ret t s.
Proof. intros E. unfold thread. erewrite bind_ret by reflexivity. by rewrite E. Qed.

Definition with_thread (p : Z) (t : thread_struct) (s : cpu) : cpu :=
  mk_cpu (<[p := t]> (threads s)) (current_thread s) (sp s) (rax s) (kthread_create_list s).

Lemma upd_run s p f t : threads s !! p = Some t → upd p f s = Ret tt (with_thread p (f t) s).
Proof. intros E. unfold upd. by erewrite bind_ret by (by apply thread_at_run). Qed.

Lemma set_state_id t : state t = THREAD_RUN → set_state THREAD_RUN t = t.
Proof. destruct t. simpl. by intros ->. Qed.

(** The thread [u] takes over from [t]: the map of threads when the switch begins shows the
    specification but for the thread that runs. *)
Definition ready_to (s : cpu) (a : sched) (t u : Z) : Prop :=
  chain (nx (threads s)) (Some u) (stk a) ∧ (∀ p, p ∈ stk a → p ∈ alive) ∧
  (∀ p, p ∈ alive → ∃ x, threads s !! p = Some x ∧ shows a t p x) ∧
  sps a !! t = Some (sp s) ∧ (∀ p x, sps a !! p = Some x → p ∈ alive ∧ room p x = true) ∧
  u ≠ t ∧ current_thread s = u ∧ ∀ p, p ∉ alive → threads s !! p = base !! p ∧ p ∉ flagged a.

(** The state after the switch. *)
Definition switched (s : cpu) (t u : Z) (w v : thread_struct) (x arg : Z) : cpu :=
  mk_cpu (<[t := set_rsp (sp s - 48) w]> (<[u := set_state THREAD_RUN v]> (threads s))) u x arg (kthread_create_list s).

Lemma switched_ok s a t u w v arg : ready_to s a t u → threads s !! t = Some w → threads s !! u = Some v →
  let x := default (start u) (sps a !! u) in implements (switched s t u w v x arg) (run start (stk a) (flagged a) a).
Proof.
  intros (Hch & Hal & Hsh & Hsp & Hroom & Hne & Hcur & Hfr) Ew Ev x.
  destruct (chain_Some _ _ _ Hch) as (q & ts & Ets & _ & _).
  assert (u ∈ alive) as Hu by (apply Hal; rewrite Ets; left).
  assert (sps (run start (stk a) (flagged a) a) = match sps a !! u with Some _ => sps a | None => <[u := start u]> (sps a) end) as Es
    by (unfold run; by rewrite Ets).
  assert (∀ p, p ≠ u → sps (run start (stk a) (flagged a) a) !! p = sps a !! p) as Esp.
  { intros p Hp. rewrite Es. destruct (sps a !! u); [done|]. by rewrite lookup_insert_ne. }
  assert (sps (run start (stk a) (flagged a) a) !! u = Some x) as Esu.
  { rewrite Es. unfold x. destruct (sps a !! u) as [y|] eqn:Ey; [done|apply lookup_insert_eq]. }
  split; cbn [threads current_thread sp switched]; try done.
  - eapply lseg_ext, Hch. intros k _. unfold nx. destruct (decide (k = t)) as [->|Hkt].
    + by rewrite lookup_insert_eq, Ew.
    + rewrite lookup_insert_ne by done. destruct (decide (k = u)) as [->|]; [by rewrite lookup_insert_eq, Ev|by rewrite lookup_insert_ne].
  - intros p Hp. destruct (Hsh p Hp) as (y & Ey & [S1 S2 S3 S4 S5]). destruct (decide (p = t)) as [->|Hpt].
    + eexists. split; [apply lookup_insert_eq|]. simplify_eq. split; cbn [state lvl stack_addr stack_size rsp set_rsp]; try done.
      * rewrite S1, Esp by done. done.
      * intros _ z. rewrite Esp by done. rewrite Hsp. by intros [= ->].
    + rewrite lookup_insert_ne by done. destruct (decide (p = u)) as [->|Hpu].
      * eexists. split; [apply lookup_insert_eq|]. simplify_eq. split; cbn [state lvl stack_addr stack_size rsp set_state]; try done. by rewrite Esu.
      * exists y. rewrite lookup_insert_ne by done. split; [done|]. split; try done.
        -- by rewrite Esp.
        -- intros _ z. rewrite Esp by done. by apply S5.
  - intros p y. destruct (decide (p = u)) as [->|Hpu]; [|rewrite Esp by done; apply Hroom].
    rewrite Esu. intros [= <-]. split; [done|]. unfold x. destruct (sps a !! u) as [y|] eqn:Ey; [by apply Hroom|]. by apply (st_start Hst).
  - intros p Hp. destruct (Hfr p Hp) as [Ep Hf]. split; [|done]. destruct (Hroom _ _ Hsp) as [Ht _].
    by rewrite !lookup_insert_ne by (by intros ->).
Qed.

(** The switches of the code lead there. *)
Lemma switch_run s a t u w v arg : ready_to s a t u → threads s !! t = Some w → threads s !! u = Some v →
  let s' := switched s t u w v (default (start u) (sps a !! u)) arg in
  (if bool_decide (state v = THREAD_READY) then upd u (set_state THREAD_RUN) ;; thread_switch_first mapped u t arg
   else upd u (set_state THREAD_RUN) ;; thread_switch_to mapped u t arg) s = Ret tt s' ∧
  (if bool_decide (state v = THREAD_READY) then upd u (set_state THREAD_RUN) ;; thread_switch_first mapped u t arg
   else thread_switch_to mapped u t arg) s = Ret tt s'.
Proof.
  intros (Hch & Hal & Hsh & Hsp & Hroom & Hne & Hcur & Hfr) Ew Ev s'.
  destruct (chain_Some _ _ _ Hch) as (q & ts & Ets & _ & _). assert (u ∈ alive) as Hu by (apply Hal; rewrite Ets; left).
  destruct (Hroom _ _ Hsp) as [Ht Hrt]. destruct (st_room Hst _ _ Ht Hrt) as [Hspr _].
  destruct (Hsh u Hu) as (v' & Ev' & [S1 S2 S3 S4 S5]). assert (v' = v) as -> by congruence. rewrite S1. unfold s', switched.
  assert (∀ s1, threads s1 = <[u := set_state THREAD_RUN v]> (threads s) → threads s1 !! t = Some w) as Ht1.
  { intros s1 ->. by rewrite lookup_insert_ne. }
  assert (threads (with_thread u (set_state THREAD_RUN v) s) !! u = Some (set_state THREAD_RUN v)) as Eu by apply lookup_insert_eq.
  destruct (sps a !! u) as [y|] eqn:Ey; cbn [default from_option]; unfold id.
  - rewrite bool_decide_false by done. destruct (Hroom _ _ Ey) as [_ Hry]. destruct (st_room Hst _ _ Hu Hry) as [Hy Hm].
    pose proof (S5 Hne y eq_refl) as Er. assert (set_state THREAD_RUN v = v) as Ev2 by (by apply set_state_id).
    assert (thread_switch_to mapped u t arg s = Ret tt (mk_cpu (<[t := set_rsp (sp s - 48) w]> (threads s)) u y arg (kthread_create_list s))) as E.
    { unfold thread_switch_to. erewrite bind_ret by (by apply thread_at_run). rewrite Er. rewrite (proj2 (Z.eqb_neq _ _)) by lia.
      erewrite bind_ret by reflexivity. rewrite Hm. erewrite bind_ret by reflexivity. unfold switch_to. erewrite bind_ret by reflexivity.
      erewrite bind_ret by (by apply upd_run). unfold set_regs, modify, with_thread. cbn.
      rewrite !(wrap_id 64) by (unfold in_u; lia). rewrite Hcur. do 2 f_equal. lia. }
    rewrite Ev2. split.
    + erewrite bind_ret by (by apply upd_run). rewrite Ev2.
      assert (with_thread u v s = s) as -> by (unfold with_thread; rewrite insert_id by done; by destruct s). rewrite (insert_id (threads s) u v) by done. exact E.
    + rewrite (insert_id (threads s) u v) by done. exact E.
  - rewrite bool_decide_true by done. destruct (st_start Hst _ Hu) as (Hr0 & Hs1 & Hs2). destruct (st_room Hst _ _ Hu Hr0) as [Hs0 _].
    enough ((upd u (set_state THREAD_RUN) ;; thread_switch_first mapped u t arg) s = Ret tt (mk_cpu (<[t := set_rsp (sp s - 48) w]> (<[u := set_state THREAD_RUN v]> (threads s))) u (start u) arg (kthread_create_list s))) by done.
    erewrite bind_ret by (by apply upd_run). unfold thread_switch_first. erewrite bind_ret by (by apply thread_at_run).
    cbn [stack_addr stack_size set_state]. rewrite S4. rewrite (proj2 (Z.eqb_neq _ _)) by lia. erewrite bind_ret by reflexivity.
    rewrite Hs2. erewrite bind_ret by reflexivity. unfold switch_first. erewrite bind_ret by reflexivity.
    erewrite bind_ret by (apply upd_run, Ht1; reflexivity). unfold set_regs, modify, with_thread. cbn.
    rewrite !(wrap_id 64) by (unfold in_u; lia). rewrite Hcur. do 2 f_equal. lia.
Qed.

(** ** The operations *)

Lemma nx_insert ths p t k : (∀ u, ths !! p = Some u → parent t = parent u) → is_Some (ths !! p) → nx (<[p := t]> ths) k = nx ths k.
Proof.
  intros Hp [u Hu]. unfold nx. destruct (decide (k = p)) as [->|]; [rewrite lookup_insert_eq, Hu; simpl; f_equal; by apply Hp|by rewrite lookup_insert_ne].
Qed.

Lemma im_top s a t ts : implements s a → stk a = t :: ts → current_thread s = t ∧
  ∃ w, threads s !! t = Some w ∧ parent w = head ts ∧ chain (nx (threads s)) (head ts) ts ∧ t ∉ ts ∧ shows a t t w.
Proof.
  intros [I1 I2 I3 I4 I5 I6] Es. rewrite Es in I1. pose proof (chain_nodup _ _ _ I1) as Hnd. apply list.NoDup_cons in Hnd as [Hni _].
  destruct I1 as ([= Ec] & q & Hq & Hch). split; [done|]. destruct (I3 t) as (w & Ew & Hw); [apply I2; rewrite Es; left|].
  exists w. pose proof (chain_head _ _ _ Hch) as ->. unfold nx in Hq. rewrite Ew in Hq. simpl in Hq. injection Hq as Hq. rewrite Ec in Hw. done.
Qed.

Lemma implements_ready s a t ts u us fl s1 :
  implements s a → stk a = t :: ts → (∀ p, p ∈ u :: us → p ∈ alive) → u ≠ t →
  sp s1 = sp s → current_thread s1 = u → chain (nx (threads s1)) (Some u) (u :: us) →
  (∀ p w, threads s !! p = Some w → shows a t p w → ∃ w', threads s1 !! p = Some w' ∧ shows (mk_sched (u :: us) fl (sps a)) t p w') →
  (∀ p, p ∉ alive → threads s1 !! p = threads s !! p ∧ (p ∈ fl → p ∈ flagged a)) →
  ready_to s1 (mk_sched (u :: us) fl (sps a)) t u.
Proof.
  intros HI Es Hal Hne Esp Ec Hch Hsh Hfr. destruct (im_top s a t ts HI Es) as [Ect _]. pose proof HI as [I1 I2 I3 I4 I5 I6].
  split_and!; try done.
  - intros p Hp. destruct (I3 p Hp) as (w & Ew & Hw). rewrite Ect in Hw. eauto.
  - cbn [sps]. by rewrite Esp, <- Ect.
  - intros p Hp. destruct (Hfr p Hp) as [-> Hf], (I6 p Hp) as [-> Hn]. split; [done|]. auto.
Qed.

Lemma yield_ok s a t u ts arg : implements s a → stk a = t :: u :: ts →
  ∃ s', yield_thread mapped arg s = Ret tt s' ∧ implements s' (run start (u :: ts) (flagged a) a) ∧ rax s' = arg.
Proof.
  intros HI Es. destruct (im_top s a t _ HI Es) as (Ec & w & Ew & Hpar & Hch & Hni & Hw). cbn [head] in *.
  apply not_elem_of_cons in Hni as [Hne Hni]. pose proof HI as [I1 I2 I3 I4 I5 I6].
  set (s1 := mk_cpu (threads s) u (sp s) (rax s) (kthread_create_list s)).
  assert (ready_to s1 (mk_sched (u :: ts) (flagged a) (sps a)) t u) as HR.
  { eapply (implements_ready s a t (u :: ts)); try done; [intros p Hp; apply I2; rewrite Es; by right|].
    by intros p x Hx [S1 S2 S3 S4 S5]; exists x. }
  destruct (I3 u) as (v & Ev & _); [apply I2; rewrite Es; right; left|].
  destruct (switch_run s1 _ t u w v arg HR Ew Ev) as [E _]. eexists. split; [|split; [by apply (switched_ok s1 _ t u w v arg HR)|done]].
  unfold yield_thread. erewrite bind_ret by reflexivity. rewrite Ec. erewrite bind_ret by (by apply thread_at_run). rewrite Hpar.
  rewrite bool_decide_false by congruence. erewrite bind_ret by reflexivity. erewrite bind_ret by reflexivity.
  erewrite bind_ret by (by apply (thread_at_run s1)). exact E.
Qed.

Lemma suspended_set t : suspended (set_flag (flag t .| THREAD_SUSPEND) t) = true.
Proof.
  unfold suspended. cbn [flag set_flag]. apply negb_true_iff, Z.eqb_neq. intros E. apply (f_equal (λ z, Z.testbit z 3)) in E.
  rewrite Z.land_spec, Z.lor_spec in E. change (Z.testbit THREAD_SUSPEND 3) with true in E. by rewrite orb_true_r in E.
Qed.

Lemma suspended_clear t : suspended (set_flag (flag t .& Z.lnot THREAD_SUSPEND) t) = false.
Proof. unfold suspended. cbn [flag set_flag]. rewrite <- Z.land_assoc. change (Z.lnot THREAD_SUSPEND .& THREAD_SUSPEND) with 0. by rewrite Z.land_0_r. Qed.

Lemma suspend_ok s a t u ts : implements s a → stk a = t :: u :: ts → t ∉ flagged a →
  ∃ s', suspend_thread mapped s = Ret tt s' ∧ implements s' (run start (u :: ts) ({[t]} ∪ flagged a) a).
Proof.
  intros HI Es Hf. destruct (im_top s a t _ HI Es) as (Ec & w & Ew & Hpar & Hch & Hni & Hw). cbn [head] in *.
  apply not_elem_of_cons in Hni as [Hne Hni]. pose proof HI as [I1 I2 I3 I4 I5 I6].
  set (w1 := set_flag (flag w .| THREAD_SUSPEND) w).
  set (s1 := mk_cpu (<[t := w1]> (threads s)) u (sp s) (rax s) (kthread_create_list s)).
  assert (ready_to s1 (mk_sched (u :: ts) ({[t]} ∪ flagged a) (sps a)) t u) as HR.
  { eapply (implements_ready s a t (u :: ts)); try done; [intros p Hp; apply I2; rewrite Es; by right| | |].
    - eapply lseg_ext, Hch. intros k _. apply nx_insert; [by intros x [= <-]%(eq_trans (eq_sym Ew))|eauto].
    - intros p x Hx [S1 S2 S3 S4 S5]. cbn [threads s1]. destruct (decide (p = t)) as [->|Hpt].
      + exists w1. rewrite lookup_insert_eq. split; [done|]. simplify_eq. split; try done. cbn [flagged].
        rewrite bool_decide_true by set_solver. apply suspended_set.
      + exists x. rewrite lookup_insert_ne by done. split; [done|]. split; try done. cbn [flagged]. rewrite S2. apply bool_decide_ext. set_solver.
    - intros p Hp. assert (p ≠ t) by (intros ->; apply Hp, I2; rewrite Es; left). cbn [threads s1]. rewrite lookup_insert_ne by done. set_solver. }
  destruct (I3 u) as (v & Ev & _); [apply I2; rewrite Es; right; left|].
  assert (threads s1 !! t = Some w1) as Ew1 by apply lookup_insert_eq.
  assert (threads s1 !! u = Some v) as Ev1 by (cbn; by rewrite lookup_insert_ne).
  destruct (switch_run s1 _ t u w1 v 0 HR Ew1 Ev1) as [E _]. eexists. split; [|by apply (switched_ok s1 _ t u w1 v 0 HR)].
  unfold suspend_thread. erewrite bind_ret by reflexivity. rewrite Ec. erewrite bind_ret by (by apply thread_at_run). rewrite Hpar.
  rewrite bool_decide_false by congruence. erewrite bind_ret by reflexivity.
  rewrite (sh_flag _ _ _ _ Hw), bool_decide_false by done. erewrite bind_ret by reflexivity.
  erewrite bind_ret by (by apply upd_run). erewrite bind_ret by reflexivity. erewrite bind_ret by (by apply (thread_at_run s1)). exact E.
Qed.

(** The thread [p] is put on top of the running one, its flag as in [fl]. *)
Lemma push_ready s a t ts p v v1 fl : implements s a → stk a = t :: ts → p ∈ alive → p ∉ t :: ts → threads s !! p = Some v →
  parent v1 = Some t → (shows a t p v → shows (mk_sched (p :: t :: ts) fl (sps a)) t p v1) →
  (∀ q, q ≠ p → q ∈ flagged a ↔ q ∈ fl) →
  ready_to (mk_cpu (<[p := v1]> (threads s)) p (sp s) (rax s) (kthread_create_list s)) (mk_sched (p :: t :: ts) fl (sps a)) t p.
Proof.
  intros HI Es Hp Hni Ev Hpar Hv1 Hfl. destruct (im_top s a t _ HI Es) as (Ec & w & Ew & _). pose proof HI as [I1 I2 I3 I4 I5 I6].
  eapply (implements_ready s a t ts); try done.
  - intros q [->|Hq]%elem_of_cons; [done|]. apply I2. by rewrite Es.
  - intros ->. apply Hni. left.
  - rewrite Es, Ec in I1. apply (chain_push (nx (threads s)) _ (Some t)); [done|done| |].
    + unfold nx. cbn [threads]. rewrite lookup_insert_eq. simpl. by rewrite Hpar.
    + intros j Hj. unfold nx. cbn [threads]. by rewrite lookup_insert_ne.
  - intros q x Hx Hsx. cbn [threads]. destruct (decide (q = p)) as [->|Hqp].
    + exists v1. rewrite lookup_insert_eq. simplify_eq. auto.
    + exists x. rewrite lookup_insert_ne by done. split; [done|]. destruct Hsx as [S1 S2 S3 S4 S5]. split; try done.
      cbn [flagged]. rewrite S2. apply bool_decide_ext. auto.
  - intros q Hq. assert (q ≠ p) by (by intros ->). cbn [threads]. rewrite lookup_insert_ne by done. split; [done|]. apply Hfl; done.
Qed.

Lemma resume_ok s a t ts p arg : implements s a → stk a = t :: ts → p ∈ alive → p ∉ t :: ts →
  ∃ s', resume_thread mapped p arg s = Ret true s' ∧ implements s' (run start (p :: t :: ts) (flagged a) a) ∧ rax s' = arg.
Proof.
  intros HI Es Hp Hni. destruct (im_top s a t _ HI Es) as (Ec & w & Ew & _). pose proof HI as [I1 I2 I3 I4 I5 I6].
  destruct (I3 p Hp) as (v & Ev & Hv). set (v1 := set_parent (Some t) v).
  assert (ready_to (mk_cpu (<[p := v1]> (threads s)) p (sp s) (rax s) (kthread_create_list s)) (mk_sched (p :: t :: ts) (flagged a) (sps a)) t p) as HR.
  { eapply push_ready; try done. by intros []. }
  set (s1 := mk_cpu _ p _ _ _) in HR. apply not_elem_of_cons in Hni as [Hne Hni].
  assert (threads s1 !! p = Some v1) as Ev1 by apply lookup_insert_eq.
  assert (threads s1 !! t = Some w) as Ew1 by (cbn; by rewrite lookup_insert_ne).
  destruct (switch_run s1 _ t p w v1 arg HR Ew1 Ev1) as [_ E]. eexists. split; [|split; [by apply (switched_ok s1 _ t p w v1 arg HR)|done]].
  unfold resume_thread. erewrite bind_ret by (by apply thread_at_run). rewrite bool_decide_false by (rewrite (sh_state _ _ _ _ Hv); by destruct (sps a !! p)).
  erewrite bind_ret by reflexivity. rewrite Ec. erewrite bind_ret by (by apply upd_run). rewrite (bool_decide_false (t = p)) by congruence.
  erewrite bind_ret by reflexivity. erewrite bind_ret by reflexivity. change (state v) with (state v1). by erewrite bind_ret by exact E.
Qed.

(** *** wake_up_thread *)

Lemma find_parent_run s p : ∀ ks q fuel b, chain (nx (threads s)) (Some q) (q :: ks) → (length ks < fuel)%nat →
  find_parent fuel p (Some q) b s = Ret (b || bool_decide (p ∈ ks)) s.
Proof.
  induction ks as [|k ks IH]; intros q fuel b (_ & r & Hr & Hc) Hf; (destruct fuel as [|fuel]; [simpl in Hf; lia|]); cbn [find_parent];
    unfold nx in Hr; destruct (threads s !! q) as [t|] eqn:Eq; try done; simpl in Hr; injection Hr as Hr;
    (erewrite bind_ret by (by apply thread_at_run)); rewrite Hr.
  - apply chain_head in Hc as ->. cbn [head]. rewrite bool_decide_false by done. destruct fuel; simpl; by rewrite orb_false_r.
  - pose proof (chain_head _ _ _ Hc) as ->. cbn [head] in *. rewrite IH by (done || simpl in Hf; lia). f_equal.
    repeat case_bool_decide; simplify_eq; rewrite ?orb_true_r, ?orb_false_r; try done; exfalso; set_solver.
Qed.

Lemma stack_size_le s a : implements s a → (length (stk a) ≤ size (threads s))%nat.
Proof.
  intros [I1 I2 I3 I4 I5 I6]. rewrite <- (size_list_to_set (C:=gset Z)) by (by eapply chain_nodup). rewrite <- (size_dom (D:=gset Z)).
  apply subseteq_size. intros p Hp%elem_of_list_to_set. apply elem_of_dom. destruct (I3 p (I2 p Hp)) as (t & -> & _). eauto.
Qed.

Lemma wake_none s a t ts p : implements s a → stk a = t :: ts → p ∈ alive → p ≠ t → p ∉ ts → p ∉ flagged a →
  wake_up_thread mapped p s = Ret tt s.
Proof.
  intros HI Es Hp Hne Hni Hf. destruct (im_top s a t _ HI Es) as (Ec & w & Ew & _). pose proof (stack_size_le s a HI) as Hle. rewrite Es in Hle.
  pose proof HI as [I1 I2 I3 I4 I5 I6]. destruct (I3 p Hp) as (v & Ev & Hv). rewrite Es, Ec in I1.
  unfold wake_up_thread. erewrite bind_ret by reflexivity. rewrite Ec, bool_decide_false by done.
  erewrite bind_ret by (by apply thread_at_run). rewrite bool_decide_false by (rewrite (sh_state _ _ _ _ Hv); by destruct (sps a !! p)).
  rewrite (sh_flag _ _ _ _ Hv), bool_decide_false by done. cbn [negb]. erewrite bind_ret by reflexivity.
  erewrite bind_ret by (eapply find_parent_run; [exact I1|simpl in Hle; lia]). by rewrite bool_decide_false.
Qed.

Lemma wake_push s a t ts p : implements s a → stk a = t :: ts → p ∈ alive → p ∉ t :: ts → p ∈ flagged a → level p ≤ level t →
  ∃ s', wake_up_thread mapped p s = Ret tt s' ∧ implements s' (run start (p :: t :: ts) (flagged a ∖ {[p]}) a).
Proof.
  intros HI Es Hp Hni Hf Hlvl. destruct (im_top s a t _ HI Es) as (Ec & w & Ew & _ & _ & _ & Hw). pose proof HI as [I1 I2 I3 I4 I5 I6].
  destruct (I3 p Hp) as (v & Ev & Hv). set (v0 := set_flag (flag v .& Z.lnot THREAD_SUSPEND) v). set (v1 := set_parent (Some t) v0).
  assert (ready_to (mk_cpu (<[p := v1]> (threads s)) p (sp s) (rax s) (kthread_create_list s)) (mk_sched (p :: t :: ts) (flagged a ∖ {[p]}) (sps a)) t p) as HR.
  { eapply push_ready; try done; [|set_solver]. intros [S1 S2 S3 S4 S5]. split; try done. cbn [flagged].
    rewrite bool_decide_false by set_solver. apply suspended_clear. }
  set (s1 := mk_cpu _ p _ _ _) in HR. apply not_elem_of_cons in Hni as [Hne Hni].
  assert (threads s1 !! p = Some v1) as Ev1 by apply lookup_insert_eq.
  assert (threads s1 !! t = Some w) as Ew1 by (cbn; by rewrite lookup_insert_ne).
  destruct (switch_run s1 _ t p w v1 0 HR Ew1 Ev1) as [_ E]. eexists. split; [|by apply (switched_ok s1 _ t p w v1 0 HR)].
  unfold wake_up_thread. erewrite bind_ret by reflexivity. rewrite Ec, bool_decide_false by done.
  erewrite bind_ret by (by apply thread_at_run). rewrite bool_decide_false by (rewrite (sh_state _ _ _ _ Hv); by destruct (sps a !! p)).
  rewrite (sh_flag _ _ _ _ Hv), bool_decide_true by done. cbn [negb]. erewrite bind_ret by (by apply thread_at_run).
  rewrite (sh_lvl _ _ _ _ Hv), (sh_lvl _ _ _ _ Hw), (proj2 (Z.ltb_ge _ _)) by lia.
  erewrite bind_ret by (by apply upd_run). erewrite bind_ret by reflexivity. fold v0.
  erewrite bind_ret by (apply upd_run; apply lookup_insert_eq). unfold with_thread. cbn [threads current_thread sp rax kthread_create_list].
  rewrite insert_insert_eq. change (state v) with (state v1). exact E.
Qed.

(** A thread of a lower level is put below the running one. *)
Lemma wake_later s a t ts p : implements s a → stk a = t :: ts → p ∈ alive → p ∉ t :: ts → p ∈ flagged a → level t < level p →
  ∃ s', wake_up_thread mapped p s = Ret tt s' ∧ implements s' (mk_sched (t :: p :: ts) (flagged a) (sps a)).
Proof.
  intros HI Es Hp Hni Hf Hlvl. destruct (im_top s a t _ HI Es) as (Ec & w & Ew & Hpar & _ & _ & Hw). pose proof HI as [I1 I2 I3 I4 I5 I6].
  destruct (I3 p Hp) as (v & Ev & Hv). pose proof Hni as [Hne Hnt]%not_elem_of_cons.
  assert (parent w ≠ Some p) as Hnp by (rewrite Hpar; destruct ts; [done|]; apply not_elem_of_cons in Hnt as [? _]; cbn; congruence).
  set (v1 := set_parent (parent w) v). set (w1 := set_parent (Some p) w).
  exists (with_thread t w1 (with_thread p v1 s)). split.
  - unfold wake_up_thread. erewrite bind_ret by reflexivity. rewrite Ec, bool_decide_false by done.
    erewrite bind_ret by (by apply thread_at_run). rewrite bool_decide_false by (rewrite (sh_state _ _ _ _ Hv); by destruct (sps a !! p)).
    rewrite (sh_flag _ _ _ _ Hv), bool_decide_true by done. cbn [negb]. erewrite bind_ret by (by apply thread_at_run).
    rewrite (sh_lvl _ _ _ _ Hv), (sh_lvl _ _ _ _ Hw), (proj2 (Z.ltb_lt _ _)) by lia. rewrite bool_decide_false by done.
    erewrite bind_ret by reflexivity. erewrite bind_ret by (by apply upd_run). apply upd_run. cbn. by rewrite lookup_insert_ne.
  - rewrite Es, Ec in I1. split; cbn [threads with_thread current_thread sp stk sps].
    + rewrite Ec. apply (chain_insert_after (nx (threads s)) _ _ [] t p ts); [done|done| | |].
      * unfold nx. by rewrite lookup_insert_eq.
      * unfold nx. rewrite lookup_insert_ne, lookup_insert_eq, Ew by done. done.
      * intros j Hj1 Hj2. unfold nx. by rewrite !lookup_insert_ne.
    + intros q Hq. destruct (decide (q = p)) as [->|]; [done|]. apply I2. rewrite Es. rewrite !elem_of_cons in *. naive_solver.
    + intros q Hq. destruct (I3 q Hq) as (x & Ex & [S1 S2 S3 S4 S5]). destruct (decide (q = t)) as [->|Hqt].
      * exists w1. rewrite lookup_insert_eq. simplify_eq. by split.
      * rewrite lookup_insert_ne by done. destruct (decide (q = p)) as [->|Hqp].
        -- exists v1. rewrite lookup_insert_eq. simplify_eq. by split.
        -- exists x. rewrite lookup_insert_ne by done. by split.
    + done.
    + done.
    + intros q Hq. destruct (I6 q Hq) as [Eq Hfq]. split; [|done].
      rewrite !lookup_insert_ne by (intros ->; apply Hq; [done || (apply I2; rewrite Es; left)]). done.
Qed.

(** *** Every operation *)

Lemma work_ok s a t ts x : implements s a → stk a = t :: ts → room t x = true →
  implements (mk_cpu (threads s) (current_thread s) x (rax s) (kthread_create_list s)) (mk_sched (t :: ts) (flagged a) (<[t := x]> (sps a))).
Proof.
  intros HI Es Hx. destruct (im_top s a t _ HI Es) as (Ec & w & Ew & _). pose proof HI as [I1 I2 I3 I4 I5 I6]. rewrite Ec in *. rewrite Es in *.
  split; cbn [threads current_thread sp stk sps flagged]; try done.
  - intros p Hp. destruct (I3 p Hp) as (y & Ey & [S1 S2 S3 S4 S5]). exists y. split; [done|]. split; try done; cbn [sps].
    + destruct (decide (p = t)) as [->|]; [by rewrite S1, I4, lookup_insert_eq|by rewrite lookup_insert_ne].
    + intros Hne z. rewrite lookup_insert_ne by done. auto.
  - apply lookup_insert_eq.
  - intros p y [[<- <-]|[_ E]]%lookup_insert_Some; [|by apply I5]. split; [apply I2; left|done].
Qed.

Lemma op_ok s a o a' : implements s a → step alive room start level a o = Some a' →
  ∃ s', run_op mapped o s = Ret tt s' ∧ implements s' a'.
Proof.
  intros HI Hst'. unfold step in Hst'. destruct (stk a) as [|t ts] eqn:Es; [done|].
  destruct (im_top s a t ts HI Es) as (Ec & _). destruct o as [x|p arg|arg| |p]; cbn [run_op].
  - destruct (room t x) eqn:Er; [|done]. injection Hst' as <-. eexists. split; [done|]. by apply work_ok.
  - case_bool_decide as Hp; [|done]. injection Hst' as <-. destruct Hp as [Hp Hni].
    destruct (resume_ok s a t ts p arg HI Es Hp Hni) as (s' & E & HI' & _). exists s'. split; [by erewrite bind_ret by exact E|done].
  - destruct ts as [|u ts]; [done|]. injection Hst' as <-. destruct (yield_ok s a t u ts arg HI Es) as (s' & E & HI' & _). eauto.
  - destruct ts as [|u ts]; [done|]. case_bool_decide; [done|]. injection Hst' as <-. by apply suspend_ok with (t := t).
  - case_bool_decide as Hpt.
    + injection Hst' as <-. subst p. exists s. split; [|done]. unfold wake_up_thread. erewrite bind_ret by reflexivity. by rewrite Ec, bool_decide_true.
    + case_bool_decide as Hp; [done|]. destruct (decide (p ∈ alive)) as [Hal|]; [|naive_solver]. assert (p ∉ ts) as Hni by naive_solver.
      assert (p ∉ t :: ts) as Hn by (by apply not_elem_of_cons). case_bool_decide as Hf.
      * destruct (Z.ltb_spec (level t) (level p)); injection Hst' as <-; [by apply wake_later|by apply wake_push].
      * injection Hst' as <-. exists s. split; [by apply (wake_none s a t ts p)|done].
Qed.

Lemma ops_ok os : ∀ s a a', implements s a → steps alive room start level a os = Some a' →
  ∃ s', run_ops mapped os s = Ret tt s' ∧ implements s' a'.
Proof.
  induction os as [|o os IH]; intros s a a' HI Hst'; cbn [steps run_ops] in *; [injection Hst' as <-; by exists s|].
  destruct (step alive room start level a o) as [a1|] eqn:E1; [|done].
  destruct (op_ok s a o a1 HI E1) as (s1 & E & HI1). destruct (IH s1 a1 a' HI1 Hst') as (s2 & E2 & HI2).
  exists s2. split; [by erewrite bind_ret by exact E|done].
Qed.

End refine.

(** ** The start *)

Lemma create_run s p t vm_stack oncpu : threads s !! p = Some t →
  let st := if stack_addr t =? 0 then vm_stack else stack_addr t in
  create_thread_oncpu vm_stack p oncpu s =
    if st =? 0 then Ret ENOMEM s
    else Ret 0 (mk_cpu (<[p := set_cpu oncpu (set_state THREAD_READY (set_stack st t))]> (threads s)) (current_thread s) (sp s) (rax s)
                  (p :: kthread_create_list s)).
Proof.
  intros Et st. unfold create_thread_oncpu. erewrite bind_ret by (by apply thread_at_run). unfold st.
  assert (∀ t' s1, threads s1 !! p = Some t' →
    (modify (λ s, mk_cpu (threads s) (current_thread s) (sp s) (rax s) (p :: kthread_create_list s)) ;;
     upd p (set_state THREAD_READY) ;; upd p (set_cpu oncpu) ;; mret 0) s1 =
    Ret 0 (mk_cpu (<[p := set_cpu oncpu (set_state THREAD_READY t')]> (threads s1)) (current_thread s1) (sp s1) (rax s1) (p :: kthread_create_list s1))) as H.
  { intros t' s1 E. erewrite bind_ret by reflexivity. erewrite bind_ret by (by apply upd_run). erewrite bind_ret by (apply upd_run, lookup_insert_eq).
    unfold with_thread. cbn. by rewrite insert_insert_eq. }
  destruct (Z.eqb_spec (stack_addr t) 0) as [E0|E0].
  - destruct (vm_stack =? 0) eqn:Ev; [by erewrite bind_ret by reflexivity|].
    erewrite bind_ret by (by erewrite bind_ret by (by apply upd_run)). cbn [negb]. rewrite (H (set_stack vm_stack t)) by apply lookup_insert_eq.
    unfold with_thread. cbn. by rewrite insert_insert_eq.
  - erewrite bind_ret by reflexivity. cbn [negb]. rewrite (H t) by done. rewrite (proj2 (Z.eqb_neq _ _)) by done. by destruct t.
Qed.

(** The idle thread is the first of the stack. *)
Lemma init_idle_ok room start level s idle stack len cpuid t :
  threads s !! idle = Some t → stack ≠ 0 → u64 (stack + len - 8) = start idle + 8 → level idle = THREAD_LVL_IDLE → room idle (sp s) = true →
  ∃ s', init_idle_thread idle stack len cpuid s = Ret 0 s' ∧
    implements (threads s) {[idle]} room start level s' (mk_sched [idle] ∅ {[idle := sp s]}).
Proof.
  intros Et Hs Hst Hlv Hr. eexists. split.
  - unfold init_idle_thread. erewrite bind_ret by (by apply upd_run). erewrite bind_ret.
    2:{ rewrite (create_run _ idle _) by apply lookup_insert_eq. cbn [stack_addr set_parent set_real_parent set_lvl set_flag set_size set_stack].
        rewrite (proj2 (Z.eqb_neq stack 0)) by done. cbv zeta. rewrite (proj2 (Z.eqb_neq stack 0)) by done. reflexivity. }
    cbn [negb Z.eqb]. erewrite bind_ret by reflexivity. erewrite bind_ret by (apply upd_run, lookup_insert_eq). reflexivity.
  - split; cbn.
    + split; [done|]. exists None. split; [unfold nx; by rewrite lookup_insert_eq|done].
    + intros p ->%list_elem_of_singleton. by apply elem_of_singleton.
    + intros p ->%elem_of_singleton. eexists. split; [apply lookup_insert_eq|]. split; cbn; try done. by rewrite lookup_singleton_eq.
    + by rewrite lookup_singleton_eq.
    + intros p x [<- <-]%lookup_singleton_Some. split; [by apply elem_of_singleton|done].
    + intros p Hp. split; [|set_solver]. rewrite !lookup_insert_ne by set_solver. done.
Qed.

(** A new thread joins them. *)
Lemma create_ok base alive room start level s a p t vm_stack oncpu :
  implements base alive room start level s a → p ∉ alive → base !! p = Some t → suspended t = false →
  let st := if stack_addr t =? 0 then vm_stack else stack_addr t in
  st ≠ 0 → u64 (st + stack_size t - 8) = start p + 8 → level p = lvl t →
  ∃ s', create_thread_oncpu vm_stack p oncpu s = Ret 0 s' ∧ implements base ({[p]} ∪ alive) room start level s' a.
Proof.
  intros [I1 I2 I3 I4 I5 I6] Hp Et Hsu st Hst Hstart Hlv. destruct (I6 p Hp) as [Ep Hfl]. rewrite Et in Ep.
  assert (sps a !! p = None) as Hsp by (destruct (sps a !! p) eqn:E; [by destruct (I5 _ _ E)|done]). eexists. split.
  { rewrite (create_run s p t) by done. fold st. rewrite (proj2 (Z.eqb_neq st 0)) by done. reflexivity. }
  split; cbn [threads current_thread sp].
  - eapply lseg_ext, I1. intros k Hk. unfold nx. rewrite lookup_insert_ne; [done|]. intros ->. by apply Hp, I2.
  - intros q Hq. apply elem_of_union_r. auto.
  - intros q [->%elem_of_singleton|Hq]%elem_of_union.
    + eexists. split; [apply lookup_insert_eq|]. split; cbn [state lvl stack_addr stack_size rsp set_cpu set_state set_stack]; try done.
      * by rewrite Hsp.
      * rewrite bool_decide_false by done. done.
      * rewrite Hsp. done.
    + destruct (I3 q Hq) as (x & Ex & Hx). exists x. rewrite lookup_insert_ne by (by intros ->). done.
  - done.
  - intros q x Hx. destruct (I5 q x Hx). split; [by apply elem_of_union_r|done].
  - intros q Hq. destruct (I6 q) as [<- Hf]; [set_solver|]. split; [|done]. by rewrite lookup_insert_ne by set_solver.
Qed.

(** ** Threads that are made as the others run *)

Inductive event : Type :=
| Create (p vm_stack oncpu : Z)
| Do (o : op).

Section history.
Context (mapped : Z → bool) (base : gmap Z thread_struct) (all : gset Z) (room : Z → Z → bool) (start level : Z → Z).

(** A thread of [all] can be made once, with a stack of its own or one of alloc_vm_stack. *)
Definition makes (p vm_stack : Z) : bool :=
  match base !! p with
  | Some t =>
      let st := if stack_addr t =? 0 then vm_stack else stack_addr t in
      bool_decide (p ∈ all) && negb (suspended t) && negb (st =? 0) &&
      (u64 (st + stack_size t - 8) =? start p + 8) && (level p =? lvl t)
  | None => false
  end.

Fixpoint history (alive : gset Z) (a : sched) (es : list event) : option (gset Z * sched) :=
  match es with
  | [] => Some (alive, a)
  | Create p vm_stack _ :: es => if makes p vm_stack && bool_decide (p ∉ alive) then history ({[p]} ∪ alive) a es else None
  | Do o :: es => a' ← step alive room start level a o; history alive a' es
  end.

(** The code of the events. *)
Definition run_event (e : event) : M cpu unit :=
  match e with
  | Create p vm_stack oncpu => ret ← create_thread_oncpu vm_stack p oncpu; ASSERT (ret =? 0)
  | Do o => run_op mapped o
  end.

Fixpoint run_events (es : list event) : M cpu unit :=
  match es with [] => mret tt | e :: es => run_event e ;; run_events es end.

Lemma stacks_ok_sub alive : stacks_ok mapped all room start → alive ⊆ all → stacks_ok mapped alive room start.
Proof. intros [H1 H2] Hs. split; [intros p x Hp Hx; by apply (H1 p x (Hs p Hp))|intros p Hp; by apply (H2 p (Hs p Hp))]. Qed.

Lemma events_ok es : stacks_ok mapped all room start → ∀ alive s a alive' a', alive ⊆ all → implements base alive room start level s a →
  history alive a es = Some (alive', a') → ∃ s', run_events es s = Ret tt s' ∧ implements base alive' room start level s' a'.
Proof.
  intros Hst. induction es as [|[p vm oncpu|o] es IH]; intros alive s a alive' a' Hal HI Hh; cbn [history run_events run_event] in *.
  - injection Hh as <- <-. by exists s.
  - destruct (makes p vm) eqn:Em; [|done]. case_bool_decide as Hp; [|done]. unfold makes in Em. destruct (base !! p) as [t|] eqn:Et; [|done].
    apply andb_true_iff in Em as [[[[Hpa%bool_decide_eq_true Hsu%negb_true_iff]%andb_true_iff Hs%negb_true_iff]%andb_true_iff Hu%Z.eqb_eq]%andb_true_iff Hl%Z.eqb_eq].
    apply Z.eqb_neq in Hs.
    destruct (create_ok base alive room start level s a p t vm oncpu HI Hp Et Hsu Hs Hu Hl) as (s1 & E & HI1).
    destruct (IH ({[p]} ∪ alive) s1 a alive' a' ltac:(set_solver) HI1 Hh) as (s2 & E2 & HI2). exists s2. split; [|done].
    by erewrite bind_ret by (by erewrite bind_ret by exact E).
  - destruct (step alive room start level a o) as [a1|] eqn:E1; [|done].
    destruct (op_ok mapped base alive room start level (stacks_ok_sub alive Hst Hal) s a o a1 HI E1) as (s1 & E & HI1).
    destruct (IH alive s1 a1 alive' a' Hal HI1 Hh) as (s2 & E2 & HI2). exists s2. split; [by erewrite bind_ret by exact E|done].
Qed.

End history.

(** C18. The threads of a processor implement a stack: after init_idle_thread, whatever
    sequence of work, create_thread_oncpu, resume_thread, yield_thread, suspend_thread and
    wake_up_thread the specification allows, the code ends it without an assertion, a
    panic or a fault, with the top of the stack as current_thread, the rest of it as the
    chain of parents, and each thread's stack pointer where that thread left it. *)
Theorem threads_refine_stack mapped all room start level s idle stack len cpuid t es alive a :
  threads s !! idle = Some t → stack ≠ 0 → u64 (stack + len - 8) = start idle + 8 → level idle = THREAD_LVL_IDLE →
  room idle (sp s) = true → idle ∈ all → stacks_ok mapped all room start →
  history (threads s) all room start level {[idle]} (mk_sched [idle] ∅ {[idle := sp s]}) es = Some (alive, a) →
  ∃ s', (ret ← init_idle_thread idle stack len cpuid; ASSERT (ret =? 0) ;; run_events mapped es) s = Ret tt s' ∧
    implements (threads s) alive room start level s' a.
Proof.
  intros Et Hs Hu Hl Hr Ha Hst Hh. destruct (init_idle_ok room start level s idle stack len cpuid t Et Hs Hu Hl Hr) as (s1 & E & HI).
  destruct (events_ok mapped (threads s) all room start level es Hst {[idle]} s1 _ alive a ltac:(set_solver) HI Hh) as (s2 & E2 & HI2).
  exists s2. split; [|done]. erewrite bind_ret by exact E. by erewrite bind_ret by reflexivity.
Qed.

(** ** An example: the idle thread, a tasklet thread and one of a lower level *)

Definition raw (len lv : Z) : thread_struct := mk_thread 0 len 0 lv 0 0 THREAD_INIT None None.
Definition demo : cpu := mk_cpu {[100 := raw 0 0; 200 := raw 0x1000 128; 300 := raw 0x1000 512]} 0 0x1f80 0 [].
Definition demo_base (p : Z) : Z := if p =? 100 then 0x1000 else if p =? 200 then 0x3000 else 0x5000.
Definition demo_start (p : Z) : Z := demo_base p + 0x1000 - 16.
Definition demo_room (p x : Z) : bool := (demo_base p + 0x100 <=? x) && (x <? demo_base p + 0x1000).
Definition demo_level (p : Z) : Z := if p =? 100 then THREAD_LVL_IDLE else if p =? 200 then 128 else 512.
Definition demo_mapped (x : Z) : bool := (0x1000 <=? x) && (x <? 0x6000).
Definition demo_events : list event :=
  [Create 200 0x3000 0; Do (Work 0x1f00); Do (Resume 200 7); Do (Work 0x3f00); Do Suspend; Do (Work 0x1e80);
   Do (Wake 200); Do (Work 0x3e00); Create 300 0x5000 0; Do (Resume 300 1); Do (Yield 2); Do (Yield 3)].

Lemma demo_stacks : stacks_ok demo_mapped {[100; 200; 300]} demo_room demo_start.
Proof.
  split.
  - intros p x Hp [H1%Z.leb_le H2%Z.ltb_lt]%andb_true_iff. unfold demo_mapped, demo_base in *. rewrite andb_true_iff, Z.leb_le, Z.ltb_lt.
    destruct (p =? 100), (p =? 200); lia.
  - intros p Hp. unfold demo_room, demo_start, demo_mapped, demo_base. rewrite !andb_true_iff, !Z.leb_le, !Z.ltb_lt.
    destruct (p =? 100), (p =? 200); lia.
Qed.

(** The idle thread goes on with the stack pointer it had when it woke up the other. *)
Lemma threads_refine_stack_witness : ∃ s',
  (ret ← init_idle_thread 100 0x1000 0x1000 0; ASSERT (ret =? 0) ;; run_events demo_mapped demo_events) demo = Ret tt s' ∧
  current_thread s' = 100 ∧ sp s' = 0x1e80.
Proof.
  destruct (threads_refine_stack demo_mapped {[100; 200; 300]} demo_room demo_start demo_level demo 100 0x1000 0x1000 0 (raw 0 0) demo_events
    {[300; 200; 100]} (mk_sched [100] ∅ {[100 := 0x1e80; 200 := 0x3e00; 300 := 0x5ff0]})) as (s' & E & HI); try (vm_compute; reflexivity).
  - lia.
  - apply demo_stacks.
  - exists s'. destruct HI as [(Hc & _) _ _ Hsp _ _]. cbn in Hc. injection Hc as Hc. rewrite Hc in Hsp.
    split; [exact E|]. split; [exact Hc|]. symmetry. injection Hsp. intros H. exact H.
Defined.

(** ** What the specification leaves out *)

(** exit_thread goes back to the parent's stack with the ended thread still current: the
    next switch saves the parent's stack pointer in the ended thread. *)
Example exit_thread_current : ∃ s',
  (init_idle_thread 100 0x1000 0x1000 0 ;;
   run_events demo_mapped [Create 200 0x3000 0; Do (Resume 200 7); Do (Work 0x3f00)] ;;
   exit_thread demo_mapped 0) demo = Ret tt s' ∧
  current_thread s' = 200 ∧ sp s' = 0x1f80 ∧ state <$> threads s' !! 200 = Some THREAD_DONE.
Proof. eexists. vm_compute. done. Qed.

(** A thread that is woken up by one of a higher level keeps its flag: it runs when the
    other suspends itself, and cannot suspend itself any more. *)
Example wake_up_later_suspend :
  (init_idle_thread 100 0x1000 0x1000 0 ;;
   run_events demo_mapped [Create 200 0x3000 0; Create 300 0x5000 0; Do (Resume 300 1); Do Suspend; Do (Resume 200 1); Do (Wake 300); Do Suspend] ;;
   s ← gets current_thread; ASSERT (s =? 300) ;; suspend_thread demo_mapped) demo = AssertFailed.
Proof. vm_compute. done. Qed.

(** The first stack pointer of a thread with a small stack is past the block of the heap. *)
Example smp_create_thread_sp : ∃ s',
  (init_idle_thread 100 0x1000 0x1000 0 ;; smp_create_thread demo_mapped 0x3000 0 200 0 0x1000 128 0) demo = Ret 0 s' ∧ 0x3000 + 0x1000 < sp s'.
Proof. eexists. vm_compute. done. Qed.
