(* ===== verification/Sched.v ===== *)
(** * Callbacks of a processor that waits (kernel/sched.c)

    [sched_yield] gives the callbacks that were registered a chance to run.  They are
    kept in a list whose cells are taken from the array [callbuf]. *)

From stdpp Require Import base gmap list numbers option.
From Stdlib Require Import Lia ZArith.
From S2P Require Import Prelude Chain.

#[local] Open Scope Z_scope.

Module Sched.
Section sched.
(** A callback is a function on the state of its own component. *)
Context {W : Type} (call : Z → M W unit).

Definition NR_CALL_BUF : nat := 16.

Record callback : Type := mk_callback { pnext : option nat; fn : Z }.

(** A pointer into [callbuf] is an index. *)
Record state : Type := mk_state {
  phead : option nat;
  callbuf : list callback;
  pfree : option nat;
  world : W
}.

Definition cell (i : nat) : M state callback := o ← gets (λ s, callbuf s !! i); deref o.
Definition set_cell (i : nat) (f : callback → callback) : M state unit :=
  c ← cell i;
  modify (λ s, mk_state (phead s) (<[i := f c]> (callbuf s)) (pfree s) (world s)).

(** The loop of [sched_yield]. *)
Fixpoint yield_loop (fuel : nat) (p : option nat) : M state unit :=
  match p with
  | None => mret tt
  | Some i =>
      match fuel with
      | O => out_of_fuel
      | S fuel =>
          c ← cell i;
          zoom world (λ w s, mk_state (phead s) (callbuf s) (pfree s) w) (call (fn c)) ;;
          c ← cell i;
          ASSERT (negb (bool_decide (pnext c = Some i))) ;;
          yield_loop fuel (pnext c)
      end
  end.

Definition sched_yield : M state unit :=
  p ← gets phead;
  yield_loop NR_CALL_BUF p.

Definition register_yield_callback (pfunc : Z) : M state unit :=
  o ← gets pfree;
  match o with
  | None => panic
  | Some p =>
      c ← cell p;
      modify (λ s, mk_state (phead s) (callbuf s) (pnext c) (world s)) ;;
      set_cell p (λ c, mk_callback (pnext c) pfunc) ;;
      h ← gets phead;
      set_cell p (λ c, mk_callback h (fn c)) ;;
      modify (λ s, mk_state (Some p) (callbuf s) (pfree s) (world s))
  end.

Definition init_sched (isbp : bool) : M state Z :=
  if negb isbp then mret 0 else
  modify (λ s, mk_state None (callbuf s) (pfree s) (world s)) ;;
  for_range (NR_CALL_BUF - 1) 0 (λ i, set_cell i (λ c, mk_callback (Some (S i)) (fn c))) ;;
  set_cell (NR_CALL_BUF - 1) (λ c, mk_callback None (fn c)) ;;
  modify (λ s, mk_state (phead s) (callbuf s) (Some 0%nat) (world s)) ;;
  mret 0.

(** ** The list of callbacks *)

Fixpoint each {S} (f : Z → M S unit) (l : list Z) : M S unit :=
  match l with [] => mret tt | x :: l => f x ;; each f l end.

Definition nx (cs : list callback) (i : nat) : option (option nat) := pnext <$> cs !! i.

(** The cells [us] hold the callbacks [fs], the last registered one first; the cells [fr]
    are free. *)
Record lists (s : state) (us fr : list nat) (fs : list Z) : Prop := {
  ls_head : chain (nx (callbuf s)) (phead s) us;
  ls_free : chain (nx (callbuf s)) (pfree s) fr;
  ls_fns : Forall2 (λ i f, fn <$> callbuf s !! i = Some f) us fs;
  ls_nodup : NoDup (us ++ fr)
}.

Lemma cell_run s i c : callbuf s !! i = Some c → cell i s = Ret c s.
Proof. intros E. unfold cell. erewrite bind_ret by reflexivity. by rewrite E. Qed.

Lemma set_cell_run s i c f : callbuf s !! i = Some c →
  set_cell i f s = Ret tt (mk_state (phead s) (<[i := f c]> (callbuf s)) (pfree s) (world s)).
Proof. intros E. unfold set_cell. by erewrite bind_ret by (by apply cell_run). Qed.

Lemma register_run s us i fr fs f : lists s us (i :: fr) fs →
  ∃ s', register_yield_callback f s = Ret tt s' ∧ lists s' (i :: us) fr (f :: fs) ∧ world s' = world s.
Proof.
  intros [Hh Hf Hfn Hnd]. destruct Hf as (Ep & q & Hq & Hfr). unfold nx in Hq.
  destruct (callbuf s !! i) as [c|] eqn:Ec; [|done]. simpl in Hq. injection Hq as <-. pose proof (lookup_lt_Some _ _ _ Ec) as Hlt.
  assert (i ∉ us ∧ i ∉ fr) as [Hi1 Hi2].
  { apply list.NoDup_app in Hnd as (_ & Hd & [Hn _]%list.NoDup_cons). split; [|done]. intros Hi. apply (Hd i Hi). left. }
  eexists. split; [|split].
  - unfold register_yield_callback. erewrite bind_ret by reflexivity. rewrite Ep. erewrite bind_ret by (by apply cell_run).
    erewrite bind_ret by reflexivity. erewrite bind_ret by (by apply set_cell_run). erewrite bind_ret by reflexivity.
    erewrite bind_ret by (apply set_cell_run; by apply list_lookup_insert_eq). reflexivity.
  - cbn [phead callbuf pfree world fn pnext]. rewrite list_insert_insert_eq. split; cbn [phead callbuf pfree].
    + apply (chain_push (nx (callbuf s)) _ (phead s)); [done|done|by unfold nx; rewrite list_lookup_insert_eq|].
      intros j Hj. unfold nx. by rewrite list_lookup_insert_ne.
    + eapply lseg_ext, Hfr. intros k Hk. unfold nx. rewrite list_lookup_insert_ne; [done|]. by intros ->.
    + constructor; [by rewrite list_lookup_insert_eq by done|]. apply Forall2_same_length_lookup. split; [by eapply Forall2_length|].
      intros k x y Hx Hy. rewrite list_lookup_insert_ne by (intros ->; apply Hi1; by eapply list_elem_of_lookup_2).
      by eapply (Forall2_lookup_lr _ _ _ _ _ _ Hfn).
    + cbn [app]. by rewrite Permutation_middle.
  - done.
Qed.

(** Initially the cells are free, in their order. *)
Lemma callbuf_init_run s : length (callbuf s) = NR_CALL_BUF →
  ∃ s', init_sched true s = Ret 0 s' ∧ lists s' [] (seq 0 NR_CALL_BUF) [] ∧ world s' = world s.
Proof.
  destruct s as [h cs f w]. cbn [callbuf world]. intros Hl.
  do 16 (destruct cs as [|? cs]; [done|]). destruct cs; [|done]. eexists. split; [vm_compute; reflexivity|]. split; [|done].
  split; cbn [phead callbuf pfree]; [done| |constructor|apply NoDup_seq].
  split; [done|]. repeat (eexists; split; [reflexivity|]; try (split; [reflexivity|])). done.
Qed.

Lemma register_none s us fs f : lists s us [] fs → register_yield_callback f s = Panicked.
Proof. intros [_ Hf _ _]. unfold register_yield_callback. erewrite bind_ret by reflexivity. by rewrite (chain_head _ _ _ Hf). Qed.

Lemma each_register_run fs : ∀ s us fr gs, lists s us fr gs →
  if (length fs <=? length fr)%nat
  then ∃ s' us' fr', each register_yield_callback fs s = Ret tt s' ∧ lists s' us' fr' (rev fs ++ gs) ∧ world s' = world s ∧
         (length us' + length fr' = length us + length fr)%nat
  else each register_yield_callback fs s = Panicked.
Proof.
  induction fs as [|f fs IH]; intros s us fr gs HL; cbn [each length].
  - by exists s, us, fr.
  - destruct fr as [|i fr]; cbn [length Nat.leb].
    + unfold mbind, M_bind. by rewrite (register_none _ _ _ _ HL).
    + destruct (register_run s us i fr gs f HL) as (s1 & E & HL1 & Hw). erewrite bind_ret by exact E. specialize (IH s1 (i :: us) fr (f :: gs) HL1).
      destruct (length fs <=? length fr)%nat; [|done]. destruct IH as (s2 & us2 & fr2 & E2 & HL2 & Hw2 & Hn).
      exists s2, us2, fr2. split; [done|]. split; [|split; [congruence|simpl in Hn; lia]]. cbn [rev]. by rewrite <- app_assoc.
Qed.

Lemma yield_loop_run s fs : ∀ us p fuel w w', chain (nx (callbuf s)) p us → Forall2 (λ i f, fn <$> callbuf s !! i = Some f) us fs → NoDup us →
  (length us ≤ fuel)%nat → each call fs w = Ret tt w' →
  yield_loop fuel p (mk_state (phead s) (callbuf s) (pfree s) w) = Ret tt (mk_state (phead s) (callbuf s) (pfree s) w').
Proof.
  induction fs as [|f fs IH]; intros us p fuel w w' Hc HF Hnd Hl Hw; inversion HF as [|i ? us' ? Hi HF']; subst; cbn [each] in Hw.
  - apply chain_head in Hc as ->. injection Hw as ->. by destruct fuel.
  - apply bind_inv in Hw as ([] & w1 & Hw1 & Hw2). destruct fuel as [|fuel]; [simpl in Hl; lia|]. destruct Hc as (-> & q & Hq & Hc).
    unfold nx in Hq. destruct (callbuf s !! i) as [c|] eqn:Ec; [|done]. cbn [fmap option_fmap option_map] in Hq, Hi. injection Hq as <-. injection Hi as <-.
    apply list.NoDup_cons in Hnd as [Hni Hnd]. cbn [yield_loop].
    erewrite bind_ret by (by apply cell_run). erewrite bind_ret by (by apply zoom_ret). cbn [phead callbuf pfree world].
    erewrite bind_ret by (by apply cell_run). rewrite bool_decide_false.
    2:{ intros Hp. rewrite Hp in Hc. destruct (chain_Some _ _ _ Hc) as (? & ? & -> & _). apply Hni. left. }
    erewrite bind_ret by reflexivity. eapply IH; try done. simpl in Hl. lia.
Qed.

(** From its initialisation on, the list of the callbacks holds what was registered:
    [sched_yield] calls every callback once, the last registered one first, and the
    registration panics exactly when more than the sixteen cells are needed. *)
Theorem sched_yield_calls s fs : length (callbuf s) = NR_CALL_BUF →
  (length fs ≤ NR_CALL_BUF → ∀ w', each call (rev fs) (world s) = Ret tt w' →
     ∃ s', (init_sched true ;; each register_yield_callback fs ;; sched_yield) s = Ret tt s' ∧ world s' = w')%nat ∧
  (NR_CALL_BUF < length fs → (init_sched true ;; each register_yield_callback fs) s = Panicked)%nat.
Proof.
  intros Hl. destruct (callbuf_init_run s Hl) as (s1 & E1 & HL1 & Hw1). pose proof (each_register_run fs s1 _ _ _ HL1) as HR. rewrite length_seq in HR.
  split.
  - intros Hle w' Hw. rewrite (proj2 (Nat.leb_le _ _) Hle) in HR. destruct HR as (s2 & us & fr & E2 & [Hh Hf Hfn Hnd] & Hw2 & Hn).
    eexists. split.
    + erewrite bind_ret by exact E1. erewrite bind_ret by exact E2. unfold sched_yield. erewrite bind_ret by reflexivity.
      assert (s2 = mk_state (phead s2) (callbuf s2) (pfree s2) (world s2)) as Es by (by destruct s2). rewrite Es at 2.
      rewrite app_nil_r in Hfn. eapply (yield_loop_run s2 (rev fs) us); try done; [by apply list.NoDup_app in Hnd as [? _]|simpl in Hn; lia|].
      rewrite Hw2, Hw1. exact Hw.
    + done.
  - intros Hgt. erewrite bind_ret by exact E1. by rewrite (proj2 (Nat.leb_gt _ _) Hgt) in HR.
Qed.

End sched.

(** The callbacks write to a log. *)
Definition log (f : Z) : M (list Z) unit := modify (λ l, l ++ [f]).
Definition blank : state (W := list Z) := mk_state None (replicate NR_CALL_BUF (mk_callback None 0)) None [].

Lemma sched_yield_calls_witness : ∃ s',
  (init_sched true ;; each register_yield_callback [7; 8; 9] ;; sched_yield log) blank = Ret tt s' ∧ world s' = [9; 8; 7].
Proof. apply (sched_yield_calls log blank [7; 8; 9]); [reflexivity|unfold NR_CALL_BUF; simpl; lia|reflexivity]. Defined.
End Sched.
