(* ===== verification/Umalloc.v ===== *)
(** * The memory allocator of user programs (ulib/umalloc.c)

    The allocator of Kernighan and Ritchie: free blocks are on a circular list in the
    order of their addresses that starts at the static header [base]; [malloc] takes the
    first block that is large enough, and [free] puts a block back and joins it with its
    neighbours.  The blocks, free and allocated, are shown to tile the memory obtained
    from sbrk, so that no memory is lost or given out twice.

    sbrk is a system call that the sources do not have; the class [Sbrk] says what is
    documented of it. *)

From stdpp Require Import base gmap list numbers option functions sorting.
From Stdlib Require Import Lia ZArith.
From S2P Require Import Prelude Chain.

#[local] Open Scope Z_scope.
#[local] Open Scope yaos_scope.

(** The result of sbrk is the end of the data segment before the call, [None] for the
    pointer -1 of a failure. *)
Class Sbrk (W : Type) := {
  sbrk : Z → M W (option Z);
  brk : W → Z;
  sbrk_limit : Z;
  sbrk_ok : ∀ n w, 0 < n → ∃ r w', sbrk n w = Ret r w' ∧
    (r = Some (brk w) ∧ brk w' = brk w + n ∧ brk w' ≤ sbrk_limit ∨ r = None ∧ brk w' = brk w)
}.

(** ** The code *)

Definition sizeof_Header : Z := 16.

Record Header : Type := mk_header { ptr : Z; size : Z }.

Section umalloc.
Context `{Sbrk W}.
(** The address of [base], and of the end of the static data. *)
Context (base lo : Z).

(** The memory in units of a header, [freep], and the state of the system. *)
Record state : Type := mk_state {
  mem : Z → Header;
  freep : Z;
  os : W
}.

(** What is not static data or below the break cannot be accessed. *)
Definition accessible (s : state) (a : Z) : bool :=
  (a =? base) || ((lo <=? a) && (a + sizeof_Header <=? brk (os s))).

Definition load (a : Z) : M state Header :=
  ok ← gets (λ s, accessible s a);
  if (ok : bool) then gets (λ s, mem s a) else fault.
Definition store (a : Z) (f : Header → Header) : M state unit :=
  h ← load a;
  modify (λ s, mk_state (<[a := f h]> (mem s)) (freep s) (os s)).
Definition set_ptr (a p : Z) : M state unit := store a (λ h, mk_header p (size h)).
Definition set_size (a n : Z) : M state unit := store a (λ h, mk_header (ptr h) n).
Definition set_freep (p : Z) : M state unit := modify (λ s, mk_state (mem s) p (os s)).

(** [p + n] for a [Header *]. *)
Definition plus (p n : Z) : Z := u64 (p + sizeof_Header * n).

(** The loop of [free]. *)
Fixpoint free_loop (fuel : nat) (bp p : Z) : M state Z :=
  h ← load p;
  if (p <? bp) && (bp <? ptr h) then mret p else
  if (ptr h <=? p) && ((p <? bp) || (bp <? ptr h)) then mret p else
  match fuel with O => out_of_fuel | S fuel => free_loop fuel bp (ptr h) end.

(** There are at most as many free blocks as units. *)
Definition units (s : state) : nat := S (Z.to_nat ((brk (os s) - lo) / sizeof_Header)).

(** [bp] is linked to the block after [p], or joined with it. *)
Definition join_upper (bp p : Z) : M state unit :=
  b ← load bp;
  h ← load p;
  if plus bp (size b) =? ptr h then
    q ← load (ptr h);
    set_size bp (u32 (size b + size q)) ;;
    set_ptr bp (ptr q)
  else set_ptr bp (ptr h).

(** [p] is linked to [bp], or joined with it. *)
Definition join_lower (bp p : Z) : M state unit :=
  h ← load p;
  b ← load bp;
  if plus p (size h) =? bp then
    set_size p (u32 (size h + size b)) ;;
    set_ptr p (ptr b)
  else set_ptr p bp.

Definition free (ap : Z) : M state unit :=
  let bp := plus ap (-1) in
  fuel ← gets units;
  f ← gets freep;
  p ← free_loop fuel bp f;
  join_upper bp p ;;
  join_lower bp p ;;
  set_freep p.

(** The result is 0 when there is no more memory. *)
Definition morecore (nu : Z) : M state Z :=
  let nu := if nu <? 4096 then 4096 else nu in
  r ← zoom os (λ w s, mk_state (mem s) (freep s) w) (sbrk (nu * sizeof_Header));
  match r with
  | None => mret 0
  | Some hp =>
      set_size hp nu ;;
      free (plus hp 1) ;;
      gets freep
  end.

(** The block [p] is large enough: it leaves the list, or its end is taken. *)
Definition take (nunits prevp p : Z) : M state Z :=
  h ← load p;
  r ← (if size h =? nunits then set_ptr prevp (ptr h) ;; mret p
       else
         set_size p (u32 (size h - nunits)) ;;
         h ← load p;
         let p := plus p (size h) in
         set_size p nunits ;;
         mret p);
  set_freep prevp ;;
  mret (plus r 1).

(** The loop of [malloc]. *)
Fixpoint malloc_loop (fuel : nat) (nunits prevp p : Z) : M state Z :=
  match fuel with
  | O => out_of_fuel
  | S fuel =>
      h ← load p;
      if nunits <=? size h then take nunits prevp p else
      f ← gets freep;
      p ← (if p =? f then morecore nunits else mret p);
      if p =? 0 then mret 0 else
      h ← load p;
      malloc_loop fuel nunits p (ptr h)
  end.

Definition malloc (nbytes : Z) : M state Z :=
  let nunits := u32 ((nbytes + sizeof_Header - 1) / sizeof_Header + 1) in
  f ← gets freep;
  prevp ← (if f =? 0 then
             set_freep base ;;
             set_ptr base base ;;
             set_size base 0 ;;
             mret base
           else mret f);
  h ← load prevp;
  fuel ← gets units;
  malloc_loop (2 * fuel + 2) nunits prevp (ptr h).

(** ** The blocks *)

(** A block: the address of its header, its size in units with the header, and whether it
    is free. *)
Record block : Type := mk_block { addr : Z; len : Z; isfree : bool }.

(** The blocks tile the memory from [a] to [b]. *)
Fixpoint tiles (a : Z) (bs : list block) (b : Z) : Prop :=
  match bs with
  | [] => a = b
  | x :: bs => addr x = a ∧ 0 < len x ∧ tiles (a + 16 * len x) bs b
  end.

Definition frees (bs : list block) : list Z := addr <$> filter (λ x, isfree x = true) bs.

(** No two free blocks are neighbours. *)
Fixpoint merged (bs : list block) : Prop :=
  match bs with
  | [] => True
  | x :: bs => (isfree x = true → ∀ y, head bs = Some y → isfree y = false) ∧ merged bs
  end.

Definition nx (m : Z → Header) (a : Z) : option (option Z) := Some (Some (ptr (m a))).

(** The free list goes from [base] through the free blocks and back. *)
Definition ring (m : Z → Header) (bs : list block) : Prop :=
  lseg (nx m) (Some base) (base :: frees bs) (Some base).

Record inv (s : state) (bs : list block) : Prop := {
  in_tiles : tiles lo bs (brk (os s));
  in_size : ∀ x, x ∈ bs → size (mem s (addr x)) = len x;
  in_base : size (mem s base) = 0;
  in_ring : ring (mem s) bs;
  in_freep : freep s ∈ base :: frees bs;
  in_merged : merged bs;
  in_limit : brk (os s) ≤ lo + 2 ^ 35
}.

(** Where there is room for the static data, and for the sizes. *)
Record layout : Prop := {
  la_base : 0 < base;
  la_lo : base + 16 ≤ lo;
  la_limit : sbrk_limit ≤ lo + 2 ^ 35;
  la_top : lo + 2 ^ 35 < 2 ^ 63
}.

(** ** Facts on tilings *)

Lemma tiles_app a l r b : tiles a (l ++ r) b ↔ ∃ m, tiles a l m ∧ tiles m r b.
Proof. revert a. induction l as [|x l IH]; intros a; simpl; [naive_solver|]. rewrite IH. naive_solver. Qed.

Lemma tiles_length a bs b : tiles a bs b → a + 16 * Z.of_nat (length bs) ≤ b.
Proof. revert a. induction bs as [|x bs IH]; intros a; cbn [tiles length]; [lia|]. intros (_ & Hx & Hb%IH). lia. Qed.

Lemma tiles_bound a bs b x : tiles a bs b → x ∈ bs → a ≤ addr x ∧ addr x + 16 * len x ≤ b ∧ 0 < len x.
Proof.
  revert a. induction bs as [|y bs IH]; intros a; cbn [tiles]; [by intros _ ?%elem_of_nil|]. intros (Ha & Hy & Hb) [->|Hx]%elem_of_cons.
  - apply tiles_length in Hb. lia.
  - destruct (IH _ Hb Hx). lia.
Qed.

(** Two blocks are the same or disjoint. *)
Lemma tiles_disjoint a bs b x y : tiles a bs b → x ∈ bs → y ∈ bs → x = y ∨ addr x + 16 * len x ≤ addr y ∨ addr y + 16 * len y ≤ addr x.
Proof.
  intros Ht (l & r & ->)%list_elem_of_split Hy. apply tiles_app in Ht as (m & Hl & Hx & Hp & Hr).
  apply elem_of_app in Hy as [Hy|[->|Hy]%elem_of_cons]; [| by left|].
  - pose proof (tiles_bound _ _ _ _ Hl Hy). lia.
  - pose proof (tiles_bound _ _ _ _ Hr Hy). lia.
Qed.

Lemma frees_app l r : frees (l ++ r) = frees l ++ frees r.
Proof. unfold frees. by rewrite list.filter_app, fmap_app. Qed.

Lemma frees_cons x r : frees (x :: r) = (if isfree x then [addr x] else []) ++ frees r.
Proof. unfold frees. rewrite filter_cons. destruct (isfree x) eqn:E; [by rewrite decide_True|by rewrite decide_False]. Qed.

Lemma elem_of_frees bs a : a ∈ frees bs ↔ ∃ x, x ∈ bs ∧ isfree x = true ∧ addr x = a.
Proof. unfold frees. rewrite list_elem_of_fmap. setoid_rewrite list_elem_of_filter. naive_solver. Qed.

Lemma frees_length bs : (length (frees bs) ≤ length bs)%nat.
Proof. unfold frees. rewrite length_fmap. apply length_filter. Qed.

Lemma frees_bound a bs b y : tiles a bs b → y ∈ frees bs → a ≤ y ∧ y + 16 ≤ b.
Proof. intros Ht (x & Hx & _ & <-)%elem_of_frees. pose proof (tiles_bound _ _ _ _ Ht Hx). lia. Qed.

Lemma frees_sorted a bs b : tiles a bs b → StronglySorted Z.lt (frees bs).
Proof.
  revert a. induction bs as [|x bs IH]; intros a; cbn [tiles]; [constructor|]. intros (Ha & Hx & Hb). rewrite frees_cons.
  destruct (isfree x); [|by eapply IH]. constructor; [by eapply IH|]. apply list.Forall_forall. intros y Hy.
  destruct (frees_bound _ _ _ _ Hb Hy). lia.
Qed.

(** ** Facts on the list *)

Definition pred (l : list block) : Z := default base (last (frees l)).
Definition succ (r : list block) : Z := default base (head (frees r)).

Lemma frees_pred l : ∃ A, base :: frees l = A ++ [pred l].
Proof.
  unfold pred. destruct (frees l) as [|x A _] using rev_ind; [by exists []|]. exists (base :: A). by rewrite last_snoc.
Qed.

Lemma ring_split m l r : ring m (l ++ r) →
  lseg (nx m) (Some base) (base :: frees l) (Some (succ r)) ∧ lseg (nx m) (Some (succ r)) (frees r) (Some base).
Proof.
  unfold ring. rewrite frees_app, app_comm_cons, lseg_app. intros (q & H1 & H2).
  assert (q = Some (succ r)) as -> by (unfold succ; destruct (frees r) as [|y ys]; [done|by destruct H2]). done.
Qed.

Lemma ring_join m l r :
  lseg (nx m) (Some base) (base :: frees l) (Some (succ r)) → lseg (nx m) (Some (succ r)) (frees r) (Some base) → ring m (l ++ r).
Proof. intros H1 H2. unfold ring. rewrite frees_app, app_comm_cons, lseg_app. eauto. Qed.

Lemma seg_pred m l y : lseg (nx m) (Some base) (base :: frees l) (Some y) → ptr (m (pred l)) = y.
Proof. destruct (frees_pred l) as [A ->]. rewrite lseg_snoc. intros [_ E]. unfold nx in E. congruence. Qed.

Context (HL : layout).

Lemma frees_nodup bs b : tiles lo bs b → NoDup (base :: frees bs).
Proof.
  intros Ht. constructor.
  - intros Hb. destruct (frees_bound _ _ _ _ Ht Hb), HL. lia.
  - pose proof (frees_sorted _ _ _ Ht) as Hs. induction Hs as [|x xs _ IH Hx]; constructor; [|done].
    intros Hi. rewrite list.Forall_forall in Hx. specialize (Hx x Hi). lia.
Qed.

(** The link of the last block before the place is changed. *)
Lemma seg_relink m m' l b y z : tiles lo l b → lseg (nx m) (Some base) (base :: frees l) (Some y) →
  (∀ a, a ∈ base :: frees l → a ≠ pred l → ptr (m' a) = ptr (m a)) → ptr (m' (pred l)) = z →
  lseg (nx m') (Some base) (base :: frees l) (Some z).
Proof.
  intros Ht Hs Hm Hz. pose proof (frees_nodup _ _ Ht) as Hnd. destruct (frees_pred l) as [A E]. rewrite E in *.
  apply lseg_snoc in Hs as [Hs _]. apply lseg_snoc. split; [|unfold nx; by rewrite Hz].
  eapply lseg_ext, Hs. intros k Hk. unfold nx. do 2 f_equal. apply Hm; [set_solver|]. intros ->.
  apply list.NoDup_app in Hnd as (_ & Hd & _). apply (Hd _ Hk). left.
Qed.

Lemma pred_elem l : pred l ∈ base :: frees l.
Proof. destruct (frees_pred l) as [A ->]. set_solver. Qed.

Lemma seg_ext m m' p bs q : lseg (nx m) p (frees bs) q → (∀ a, a ∈ frees bs → ptr (m' a) = ptr (m a)) → lseg (nx m') p (frees bs) q.
Proof. intros Hs Hm. eapply lseg_ext, Hs. intros k Hk. unfold nx. do 2 f_equal. auto. Qed.

(** ** Accesses *)

Lemma load_run s a : accessible s a = true → load a s = Ret (mem s a) s.
Proof. intros E. unfold load. erewrite bind_ret by reflexivity. by rewrite E. Qed.

Definition with_mem (a : Z) (h : Header) (s : state) : state := mk_state (<[a := h]> (mem s)) (freep s) (os s).

Lemma set_ptr_run s a p : accessible s a = true → set_ptr a p s = Ret tt (with_mem a (mk_header p (size (mem s a))) s).
Proof. intros E. unfold set_ptr, store. by erewrite bind_ret by (by apply load_run). Qed.

Lemma set_size_run s a n : accessible s a = true → set_size a n s = Ret tt (with_mem a (mk_header (ptr (mem s a)) n) s).
Proof. intros E. unfold set_size, store. by erewrite bind_ret by (by apply load_run). Qed.

Lemma accessible_base s : accessible s base = true.
Proof. unfold accessible. by rewrite Z.eqb_refl. Qed.

Lemma accessible_unit s a : lo ≤ a → a + 16 ≤ brk (os s) → accessible s a = true.
Proof. intros H1 H2. unfold accessible, sizeof_Header. rewrite (proj2 (Z.leb_le _ _) H1), (proj2 (Z.leb_le _ _) H2). apply orb_true_r. Qed.

Lemma accessible_block s bs x : tiles lo bs (brk (os s)) → x ∈ bs → accessible s (addr x) = true.
Proof. intros Ht Hx. destruct (tiles_bound _ _ _ _ Ht Hx) as (? & ? & ?). apply accessible_unit; lia. Qed.

Lemma accessible_ring s bs a : tiles lo bs (brk (os s)) → a ∈ base :: frees bs → accessible s a = true.
Proof.
  intros Ht [->|Ha]%elem_of_cons; [apply accessible_base|]. destruct (frees_bound _ _ _ _ Ht Ha). by apply accessible_unit.
Qed.

Lemma plus_id p n : 0 ≤ p + 16 * n < 2 ^ 64 → plus p n = p + 16 * n.
Proof. intros Hp. unfold plus, sizeof_Header. by apply u64_id. Qed.

(** ** The loop of free *)

(** It passes the blocks after the place, and goes on from [base]. *)
Lemma free_loop_down s bp : base < bp → ∀ D p fuel,
  lseg (nx (mem s)) (Some p) (p :: D) (Some base) → StronglySorted Z.lt (p :: D) → (∀ a, a ∈ p :: D → accessible s a = true ∧ bp < a) →
  (length (p :: D) ≤ fuel)%nat →
  free_loop fuel bp p s = free_loop (fuel - length (p :: D)) bp base s.
Proof.
  intros Hb. induction D as [|d D IH]; intros p fuel (_ & q & Hq & Hs) Hst Ha Hf; (destruct fuel as [|fuel]; [simpl in Hf; lia|]);
    destruct (Ha p ltac:(left)) as [Hap Hp]; cbn [free_loop]; (erewrite bind_ret by (by apply load_run));
    injection Hq as <-; cbn [lseg] in Hs; rewrite (proj2 (Z.ltb_ge p bp)) by lia; cbn [andb orb].
  - injection Hs as Hs. rewrite Hs. rewrite (proj2 (Z.ltb_ge bp base)) by lia. rewrite andb_false_r. by replace (S fuel - length [p])%nat with fuel by (simpl; lia).
  - destruct Hs as ([= Hd] & Hs). rewrite Hd. inversion Hst as [|? ? Hst' HF]; subst. rewrite list.Forall_forall in HF.
    rewrite (proj2 (Z.leb_gt _ p)) by (apply HF; left). cbn [andb]. rewrite IH; try done; [set_solver|simpl in *; lia].
Qed.

(** It stops at the last block before the place. *)
Lemma free_loop_up s bp k q : (bp < q ∨ q ≤ k) → ptr (mem s k) = q → accessible s k = true → k < bp → ∀ D p fuel,
  lseg (nx (mem s)) (Some p) D (Some k) → StronglySorted Z.lt (D ++ [k]) → (∀ a, a ∈ D → accessible s a = true) →
  (length D ≤ fuel)%nat → free_loop fuel bp p s = Ret k s.
Proof.
  intros Hstop Hq Hak Hk. induction D as [|d D IH]; intros p fuel Hs Hst Ha Hf.
  - injection Hs as ->. destruct fuel; cbn [free_loop]; (erewrite bind_ret by (by apply load_run)); rewrite Hq, (proj2 (Z.ltb_lt k bp)) by done;
      cbn [andb orb]; (destruct (Z.ltb_spec bp q); [done|]); rewrite (proj2 (Z.leb_le q k)) by lia; done.
  - destruct Hs as ([= ->] & r & [= <-] & Hs). destruct fuel as [|fuel]; [simpl in Hf; lia|]. cbn [free_loop].
    erewrite bind_ret by (apply load_run, Ha; left). cbn [app] in Hst. inversion Hst as [|? ? Hst' HF]; subst. rewrite list.Forall_forall in HF.
    set (e := ptr (mem s d)) in *. assert (e ∈ D ++ [k]) as He by (destruct D as [|d' D]; [injection Hs as ->; left|destruct Hs as ([= ->] & _); left]).
    assert (e ≤ k) as Hek.
    { destruct D as [|d' D]; [injection Hs as ->; lia|]. destruct Hs as ([= <-] & _). cbn [app] in Hst'. inversion Hst' as [|? ? _ HF']; subst.
      rewrite list.Forall_forall in HF'. apply Z.lt_le_incl, HF'. set_solver. }
    pose proof (HF e He). rewrite (proj2 (Z.ltb_ge bp e)), andb_false_r, (proj2 (Z.leb_gt e d)) by lia. cbn [andb].
    apply IH; [done|done|set_solver|simpl in Hf; lia].
Qed.

Lemma ring_sorted bs b : tiles lo bs b → StronglySorted Z.lt (base :: frees bs).
Proof.
  intros Ht. constructor; [by eapply frees_sorted|]. apply list.Forall_forall. intros y Hy. destruct (frees_bound _ _ _ _ Ht Hy), HL. lia.
Qed.

Lemma sorted_app_r (l1 l2 : list Z) : StronglySorted Z.lt (l1 ++ l2) → StronglySorted Z.lt l2.
Proof. induction l1 as [|x l1 IH]; [done|]. cbn [app]. inversion 1; auto. Qed.

(** The block [bp] between the blocks [l] and [r] is found its place. *)
Section place.
Context (s : state) (l r : list block) (bp n : Z).
Context (Ht : tiles lo (l ++ mk_block bp n false :: r) (brk (os s))) (Hr : ring (mem s) (l ++ mk_block bp n false :: r)).

Lemma place_tiles : tiles lo l bp ∧ 0 < n ∧ tiles (bp + 16 * n) r (brk (os s)).
Proof. destruct (proj1 (tiles_app _ _ _ _) Ht) as (m & Hl & Hm & Hn & Hr'). cbn [addr len] in *. by subst m. Qed.

Lemma place_bound : base < bp ∧ lo ≤ bp ∧ bp + 16 * n ≤ brk (os s).
Proof.
  pose proof place_tiles as (Hl & Hn & Hr'). apply tiles_length in Hl, Hr'. destruct HL. lia.
Qed.

Lemma place_before a : a ∈ base :: frees l → accessible s a = true ∧ a < bp.
Proof.
  intros Ha. pose proof place_tiles as (Hl & _). pose proof place_bound. split.
  - eapply accessible_ring; [exact Ht|]. rewrite frees_app. set_solver.
  - apply elem_of_cons in Ha as [->|Ha]; [lia|]. destruct (frees_bound _ _ _ _ Hl Ha). lia.
Qed.

Lemma place_after a : a ∈ frees r → accessible s a = true ∧ bp + 16 * n ≤ a.
Proof.
  intros Ha. pose proof place_tiles as (_ & Hn & Hr'). split; [|by destruct (frees_bound _ _ _ _ Hr' Ha)].
  eapply accessible_ring; [exact Ht|]. rewrite frees_app, frees_cons. set_solver.
Qed.

Lemma place_ring : lseg (nx (mem s)) (Some base) (base :: frees l) (Some (succ r)) ∧ lseg (nx (mem s)) (Some (succ r)) (frees r) (Some base).
Proof. destruct (ring_split _ _ _ Hr) as [H1 H2]. unfold succ in *. by rewrite frees_cons in *. Qed.

Lemma place_up f fuel : f ∈ base :: frees l → (length (frees l) < fuel)%nat → free_loop fuel bp f s = Ret (pred l) s.
Proof.
  intros Hf Hfuel. pose proof place_ring as [H1 H2]. pose proof place_tiles as (Hl & Hn & _). pose proof (seg_pred _ _ _ H1) as Hp.
  destruct (place_before _ (pred_elem l)) as [Hap Hlt]. pose proof (ring_sorted _ _ Hl) as Hso.
  assert (bp < succ r ∨ succ r ≤ pred l) as Hstop.
  { unfold succ. destruct (frees r) as [|y ys] eqn:E; cbn [head default from_option id].
    - right. pose proof (pred_elem l) as [->|Hpe]%elem_of_cons; [lia|]. destruct (frees_bound _ _ _ _ Hl Hpe), HL. lia.
    - left. destruct (place_after y) as [_ ?]; [rewrite E; left|lia]. }
  destruct (frees_pred l) as [A EA]. pose proof (λ a (Ha : a ∈ base :: frees l), proj1 (place_before a Ha)) as Hacc.
  rewrite EA in *. apply lseg_snoc in H1 as [HA _]. apply elem_of_app in Hf as [Hf|Hf].
  - apply list_elem_of_split in Hf as (A1 & A2 & ->). apply lseg_app in HA as (q & _ & HA). pose proof HA as (-> & _).
    apply (free_loop_up s bp (pred l) (succ r) Hstop Hp Hap Hlt (f :: A2)); [exact HA| | |].
    + rewrite <- app_assoc in Hso. by eapply sorted_app_r.
    + intros a Ha. apply Hacc. set_solver.
    + apply (f_equal length) in EA. rewrite !length_app in EA. simpl in *. lia.
  - apply list_elem_of_singleton in Hf as ->. eapply (free_loop_up s bp (pred l) (succ r)) with (D := []); try done; [repeat constructor|set_solver|simpl; lia].
Qed.

Lemma place_run f : f ∈ base :: frees (l ++ mk_block bp n false :: r) → free_loop (units s) bp f s = Ret (pred l) s.
Proof.
  intros Hf. pose proof (tiles_length _ _ _ Ht) as Hlen. rewrite length_app in Hlen. cbn [length] in Hlen.
  pose proof (frees_length l) as Hl1. pose proof (frees_length r) as Hr1.
  assert (length (frees l) + length (frees r) < units s)%nat as Hu.
  { unfold units, sizeof_Header. assert (Z.of_nat (length l + length r) ≤ (brk (os s) - lo) / 16) by (apply Z.div_le_lower_bound; lia). lia. }
  rewrite frees_app, frees_cons, app_comm_cons, elem_of_app in Hf. cbn [isfree app] in Hf. destruct Hf as [Hf|Hf].
  - apply place_up; [done|lia].
  - pose proof place_ring as [_ H2]. pose proof place_tiles as (_ & Hn & Hr'). pose proof (frees_sorted _ _ _ Hr') as Hso. pose proof place_bound as (Hb & _).
    pose proof (λ a (Ha : a ∈ frees r), place_after a Ha) as Hacc.
    destruct (list_elem_of_split _ _ Hf) as (C1 & C2 & E). rewrite E in *. apply lseg_app in H2 as (q & _ & H2). pose proof H2 as (-> & _).
    apply sorted_app_r in Hso. rewrite length_app in Hu. cbn [length] in Hu.
    rewrite (free_loop_down s bp Hb C2); try done; [apply place_up; [left|cbn [length]; lia]| |cbn [length]; lia].
    intros a Ha. destruct (Hacc a) as [? ?]; [set_solver|]. split; [done|lia].
Qed.

End place.

(** ** Joining *)

Lemma merged_app l r : merged (l ++ r) ↔
  merged l ∧ merged r ∧ (∀ x y, last l = Some x → isfree x = true → head r = Some y → isfree y = false).
Proof.
  induction l as [|z l IH]; simpl; [naive_solver|]. rewrite IH. destruct l as [|w l]; simpl; [|naive_solver].
  split; [|naive_solver]. intros [H1 (_ & H2 & _)]. split; [split; [done|done]|]. split; [done|]. naive_solver.
Qed.

(** The block [bp], of [n] units, and the blocks [r] after it are what [join_upper] leaves. *)
Record upper (s s1 : state) (bp n0 n : Z) (r0 r : list block) : Prop := {
  up_mem : mem s1 bp = mk_header (succ r) n;
  up_frame : ∀ a, a ≠ bp → mem s1 a = mem s a;
  up_freep : freep s1 = freep s;
  up_os : os s1 = os s;
  up_len : n0 ≤ n;
  up_tiles : tiles (bp + 16 * n) r (brk (os s));
  up_sub : ∀ x, x ∈ r → x ∈ r0;
  up_alloc : ∀ x, isfree x = false → x ∈ r0 → x ∈ r;
  up_seg : lseg (nx (mem s)) (Some (succ r)) (frees r) (Some base);
  up_merged : merged r;
  up_head : ∀ y, head r = Some y → isfree y = false;
  up_count : (length (frees r) ≤ length (frees r0))%nat
}.

Lemma join_upper_run s l r bp n : inv s (l ++ mk_block bp n false :: r) →
  ∃ s1 n' r', join_upper bp (pred l) s = Ret tt s1 ∧ upper s s1 bp n n' r r'.
Proof.
  intros [Ht Hs _ Hr _ Hm Hlim]. pose proof (place_tiles s l r bp n Ht) as (Hl & Hn & Hr'). pose proof (place_ring s l r bp n Hr) as [R1 R2].
  pose proof (place_bound s l r bp n Ht) as (B1 & B2 & B3). destruct HL as [L1 L2 L3 L4].
  assert (accessible s bp = true) as Hab by (apply accessible_unit; lia).
  destruct (place_before s l r bp n Ht Hr _ (pred_elem l)) as [Hap _].
  pose proof (Hs (mk_block bp n false) ltac:(set_solver)) as Hsb. cbn [addr len] in Hsb.
  apply merged_app in Hm as (_ & [_ Hm] & _). unfold join_upper. erewrite bind_ret by (by apply load_run). erewrite bind_ret by (by apply load_run).
  rewrite (seg_pred _ _ _ R1), Hsb, plus_id by lia. destruct (Z.eqb_spec (bp + 16 * n) (succ r)) as [E|E].
  - destruct r as [|[y m f] r']; [unfold succ in E; simpl in E; lia|]. destruct Hr' as (Hy & Hm0 & Hr'). cbn [addr len] in *. subst y.
    destruct f.
    2:{ unfold succ in E. rewrite frees_cons in E. cbn [isfree app] in E. destruct (frees r') as [|z zs] eqn:Ez; simpl in E; [lia|].
        destruct (frees_bound _ _ _ z Hr'); [rewrite Ez; left|lia]. }
    rewrite frees_cons in R2. cbn [isfree app] in R2. destruct R2 as (_ & q & [= <-] & R2). rewrite <- E.
    assert (lseg (nx (mem s)) (Some (succ r')) (frees r') (Some base) ∧ ptr (mem s (bp + 16 * n)) = succ r') as [R3 Eq].
    { unfold succ. destruct (frees r') as [|z zs]; [injection R2 as R2; done|]. destruct R2 as ([= R2] & R3). rewrite R2. done. }
    pose proof (Hs (mk_block (bp + 16 * n) m true) ltac:(set_solver)) as Hsm. cbn [addr len] in Hsm.
    pose proof (tiles_length _ _ _ Hr') as Hlen. destruct Hm as [Hm1 Hm2].
    eexists _, (n + m), r'. split.
    + erewrite bind_ret by (apply load_run, accessible_unit; lia). erewrite bind_ret by (by apply set_size_run). by apply set_ptr_run.
    + split; cbn [with_mem mem freep os]; try done.
      * rewrite !fn_lookup_insert. cbn [size]. rewrite Hsm, Eq. f_equal. apply wrap_id. unfold in_u. lia.
      * intros a Ha. by rewrite !fn_lookup_insert_ne by done.
      * lia.
      * by replace (bp + 16 * (n + m)) with (bp + 16 * n + 16 * m) by lia.
      * intros x Hx. by right.
      * intros x Hx [->|Hin]%elem_of_cons; [done|done].
      * auto.
      * rewrite frees_cons. simpl. lia.
  - eexists _, n, r. split; [by apply set_ptr_run|]. split; cbn [with_mem mem freep os]; try done.
    + by rewrite fn_lookup_insert, Hsb.
    + intros a Ha. by rewrite fn_lookup_insert_ne by done.
    + intros [y m f] Hy. destruct r as [|z r']; [done|]. injection Hy as ->. destruct Hr' as (Hy & _). cbn [addr] in Hy. subst y.
      destruct f; [|done]. unfold succ in E. rewrite frees_cons in E. done.
Qed.

(** What [free] does with the block [bp]: [bs] are the blocks after it. *)
Record freed (s s' : state) (bs0 : list block) (bp n : Z) (bs : list block) : Prop := {
  fr_inv : inv s' bs;
  fr_os : os s' = os s;
  fr_alloc : ∀ x, isfree x = false → x ∈ bs ↔ x ∈ bs0 ∧ addr x ≠ bp;
  fr_frame : ∀ a, a ≠ bp → a ∉ base :: frees bs0 → mem s' a = mem s a;
  fr_big : ∃ x, x ∈ bs ∧ isfree x = true ∧ n ≤ len x;
  fr_count : (length (frees bs) ≤ S (length (frees bs0)))%nat
}.

Section lower.
Context (s s1 : state) (l r r' : list block) (bp n n' : Z).
Context (HI : inv s (l ++ mk_block bp n false :: r)) (HU : upper s s1 bp n n' r r').

Lemma lower_left x : x ∈ l → lo ≤ addr x ∧ addr x + 16 * len x ≤ bp ∧ 0 < len x ∧ mem s1 (addr x) = mem s (addr x) ∧ size (mem s (addr x)) = len x.
Proof.
  intros Hx. destruct HI as [Ht Hs _ _ _ _ _]. pose proof (place_tiles _ _ _ _ _ Ht) as (Hl & _). destruct (tiles_bound _ _ _ _ Hl Hx) as (? & ? & ?).
  split_and!; try done; [|apply Hs; set_solver]. apply (up_frame _ _ _ _ _ _ _ HU). lia.
Qed.

Lemma lower_right x : x ∈ r' → bp + 16 * n' ≤ addr x ∧ mem s1 (addr x) = mem s (addr x) ∧ size (mem s (addr x)) = len x.
Proof.
  intros Hx. destruct HI as [Ht Hs _ _ _ _ _]. pose proof (place_tiles _ _ _ _ _ Ht) as (_ & Hn & _). destruct (tiles_bound _ _ _ _ (up_tiles _ _ _ _ _ _ _ HU) Hx) as (? & ? & ?).
  pose proof (up_len _ _ _ _ _ _ _ HU).
  split_and!; try done; [apply (up_frame _ _ _ _ _ _ _ HU); lia|]. apply Hs. pose proof (up_sub _ _ _ _ _ _ _ HU x Hx). set_solver.
Qed.

Lemma lower_alloc l2 : (∀ x, isfree x = false → x ∈ l2 ↔ x ∈ l) → ∀ x, isfree x = false →
  x ∈ l2 ++ r' ↔ x ∈ l ++ mk_block bp n false :: r ∧ addr x ≠ bp.
Proof.
  intros Hl2 x Hx. rewrite !elem_of_app, elem_of_cons, Hl2 by done. split.
  - intros [Hin|Hin]; [destruct (lower_left x Hin) as (? & ? & ? & _); split; [by left|lia]|].
    destruct (lower_right x Hin) as (? & _). pose proof (up_sub _ _ _ _ _ _ _ HU x Hin). pose proof (up_len _ _ _ _ _ _ _ HU).
    destruct HI as [Ht _ _ _ _ _ _]. pose proof (place_tiles _ _ _ _ _ Ht) as (_ & Hn & _). split; [by right; right|lia].
  - intros [[Hin|[->|Hin]] Hne]; [by left|done|]. right. by apply (up_alloc _ _ _ _ _ _ _ HU).
Qed.

Lemma lower_seg m : (∀ x, x ∈ r' → ptr (m (addr x)) = ptr (mem s (addr x))) → lseg (nx m) (Some (succ r')) (frees r') (Some base).
Proof.
  intros Hm. eapply seg_ext; [exact (up_seg _ _ _ _ _ _ _ HU)|]. intros a (x & Hx & _ & <-)%elem_of_frees. auto.
Qed.

Lemma freed_intro s2 l2 x2 : tiles lo (l2 ++ [x2]) (bp + 16 * n') → (∀ x, x ∈ l2 ++ [x2] → size (mem s2 (addr x)) = len x) →
  (∀ a, a ≠ bp → a ∉ base :: frees l → mem s2 a = mem s a) → size (mem s2 base) = 0 →
  lseg (nx (mem s2)) (Some base) (base :: frees (l2 ++ [x2])) (Some (succ r')) → merged (l2 ++ [x2]) → freep s2 ∈ base :: frees (l2 ++ [x2]) →
  os s2 = os s → (∀ x, isfree x = false → x ∈ l2 ++ [x2] ↔ x ∈ l) → isfree x2 = true → n ≤ len x2 →
  (length (frees (l2 ++ [x2])) ≤ S (length (frees l)))%nat →
  freed s s2 (l ++ mk_block bp n false :: r) bp n ((l2 ++ [x2]) ++ r').
Proof.
  intros Ht Hs Hf Hb Hr Hm Hfp Hos Hal Hx2 Hn2 Hc. pose proof HI as [It Is _ _ _ Im Ilim].
  pose proof (place_tiles _ _ _ _ _ It) as (Hl & Hn & _). pose proof (up_len _ _ _ _ _ _ _ HU) as Hn'.
  assert (∀ x, x ∈ r' → mem s2 (addr x) = mem s (addr x)) as Hr2.
  { intros x Hx. destruct (lower_right x Hx) as (? & _). pose proof (place_bound _ _ _ _ _ It). apply Hf; [lia|].
    intros [E|(y & Hy & _ & E)%elem_of_frees]%elem_of_cons; [lia|]. destruct (lower_left y Hy) as (? & ? & ? & _). lia. }
  split; try done.
  - split; rewrite ?Hos; try done.
    + apply tiles_app. eexists. split; [exact Ht|]. by apply (up_tiles _ _ _ _ _ _ _ HU).
    + intros x [Hx|Hx]%elem_of_app; [by apply Hs|]. rewrite Hr2 by done. by apply lower_right.
    + apply ring_join; [done|]. apply lower_seg. intros x Hx. by rewrite Hr2.
    + rewrite frees_app. set_solver.
    + apply merged_app. split; [done|]. split; [apply (up_merged _ _ _ _ _ _ _ HU)|]. intros x y _ _ Hy. by apply (up_head _ _ _ _ _ _ _ HU).
  - by apply lower_alloc.
  - intros a Ha Hni. apply Hf; [done|]. intros Hin. apply Hni. rewrite frees_app. set_solver.
  - exists x2. split; [set_solver|done].
  - rewrite (frees_app (l2 ++ [x2])), (frees_app l), frees_cons, !length_app. pose proof (up_count _ _ _ _ _ _ _ HU). simpl. lia.
Qed.

Lemma pred_snoc l0 x : isfree x = true → pred (l0 ++ [x]) = addr x.
Proof. intros E. unfold pred. rewrite frees_app, frees_cons, E. change ([addr x] ++ frees []) with [addr x]. by rewrite last_snoc. Qed.

(** The block before is free. *)
Lemma join_lower_free l0 x : l = l0 ++ [x] → isfree x = true →
  ∃ s2, (join_lower bp (pred l) ;; set_freep (pred l)) s1 = Ret tt s2 ∧
    freed s s2 (l ++ mk_block bp n false :: r) bp n ((l0 ++ [mk_block (addr x) (len x + n') true]) ++ r').
Proof.
  intros El Ex. pose proof HI as [It Is Ib Ir _ Im Ilim]. pose proof (place_bound _ _ _ _ _ It) as (B1 & B2 & B3). pose proof HL as [L1 L2 L3 L4].
  pose proof (place_tiles _ _ _ _ _ It) as (Hl & Hn & _). pose proof (tiles_length _ _ _ (up_tiles _ _ _ _ _ _ _ HU)) as Hlen.
  pose proof (up_len _ _ _ _ _ _ _ HU) as Hn'. destruct (lower_left x ltac:(set_solver)) as (X1 & X2 & X3 & X4 & X5).
  pose proof (place_ring _ _ _ _ _ Ir) as [R1 _]. rewrite El in Hl. apply tiles_app in Hl as (m & Hl0 & Hx & _ & Hbp). cbn [tiles] in Hbp. subst m.
  rewrite El, pred_snoc, <- El by done. pose proof (up_mem _ _ _ _ _ _ _ HU) as Um. pose proof (up_os _ _ _ _ _ _ _ HU) as Uo.
  assert (accessible s1 (addr x) = true) as Ha1 by (apply accessible_unit; [lia|rewrite Uo; lia]).
  eexists. split.
  - unfold join_lower. rewrite bind_assoc. erewrite bind_ret by (by apply load_run). rewrite bind_assoc.
    erewrite bind_ret by (apply load_run, accessible_unit; [lia|rewrite Uo; lia]). rewrite X4, X5, plus_id, Um by lia.
    rewrite (proj2 (Z.eqb_eq _ _) Hbp). cbn [ptr size]. erewrite bind_ret.
    2:{ erewrite bind_ret by (by apply set_size_run). by apply set_ptr_run. } reflexivity.
  - apply freed_intro; cbn [mem freep os with_mem addr len isfree]; try done.
    + apply tiles_app. exists (addr x). split; [done|]. cbn [tiles addr len]. split; [done|]. lia.
    + rewrite fn_lookup_insert. cbn [size]. intros y [Hy| ->%list_elem_of_singleton]%elem_of_app.
      * destruct (tiles_bound _ _ _ _ Hl0 Hy) as (? & ? & ?). destruct (lower_left y ltac:(set_solver)) as (_ & _ & _ & Y4 & Y5).
        rewrite !fn_lookup_insert_ne by lia. by rewrite Y4.
      * cbn [addr len]. rewrite !fn_lookup_insert. cbn [size]. apply wrap_id. unfold in_u. lia.
    + intros a Ha Hni. assert (addr x ≠ a). { intros <-. apply Hni. right. apply elem_of_frees. exists x. set_solver. }
      rewrite !fn_lookup_insert_ne by done. by apply (up_frame _ _ _ _ _ _ _ HU).
    + rewrite !fn_lookup_insert_ne by lia. rewrite (up_frame _ _ _ _ _ _ _ HU) by lia. done.
    + replace (frees (l0 ++ [mk_block (addr x) (len x + n') true])) with (frees l) by (by rewrite El, !frees_app, !frees_cons, Ex).
      eapply (seg_relink (mem s)); [exact (proj1 (place_tiles _ _ _ _ _ It))|exact R1| |].
      * intros a Ha. rewrite El, pred_snoc by done. intros Hne. rewrite !fn_lookup_insert_ne by done.
        rewrite (up_frame _ _ _ _ _ _ _ HU); [done|]. destruct (place_before _ _ _ _ _ It Ir a Ha). lia.
      * rewrite El, pred_snoc by done. by rewrite fn_lookup_insert.
    + rewrite El, <- app_assoc in Im. apply merged_app in Im as (M1 & _ & M2). apply merged_app. split; [done|]. split; [done|].
      intros y z Hy Hf [= <-]. specialize (M2 y x Hy Hf eq_refl). congruence.
    + right. rewrite frees_app, frees_cons. cbn [isfree addr]. set_solver.
    + intros y Hy. rewrite El. split; (intros [?| ->%list_elem_of_singleton]%elem_of_app; [set_solver|]); simpl in Hy; congruence.
    + lia.
    + rewrite El, !frees_app, !frees_cons, Ex, !length_app. simpl. lia.
Qed.

(** The last free block before it does not reach to it. *)
Lemma pred_short : (∀ x, last l = Some x → isfree x = false) → pred l + 16 * size (mem s (pred l)) ≠ bp ∧ 0 ≤ size (mem s (pred l)) ∧
  pred l + 16 * size (mem s (pred l)) ≤ bp.
Proof.
  intros Hlast. pose proof HI as [It Is Ib _ _ _ _]. pose proof (place_bound _ _ _ _ _ It) as (B1 & B2 & B3). destruct HL as [L1 L2 L3 L4].
  destruct (proj1 (elem_of_cons _ _ _) (pred_elem l)) as [->|(x & Hx & Hf & <-)%elem_of_frees]; [rewrite Ib; lia|].
  destruct (lower_left x Hx) as (X1 & X2 & X3 & X4 & ->). split; [|lia]. intros E.
  pose proof (place_tiles _ _ _ _ _ It) as (Hl & _). destruct l as [|y l0 _] using rev_ind; [by apply elem_of_nil in Hx|].
  specialize (Hlast y ltac:(apply last_snoc)). apply elem_of_app in Hx as [Hx| ->%list_elem_of_singleton]; [|congruence].
  apply tiles_app in Hl as (m & Hl0 & Hy & Hy0 & Hm). cbn [tiles] in Hm. destruct (tiles_bound _ _ _ _ Hl0 Hx). lia.
Qed.

(** The block before is allocated, or there is none. *)
Lemma join_lower_alloc : (∀ x, last l = Some x → isfree x = false) →
  ∃ s2, (join_lower bp (pred l) ;; set_freep (pred l)) s1 = Ret tt s2 ∧
    freed s s2 (l ++ mk_block bp n false :: r) bp n ((l ++ [mk_block bp n' true]) ++ r').
Proof.
  intros Hlast. destruct (pred_short Hlast) as (P1 & P2 & P3).
  pose proof HI as [It Is Ib Ir _ Im Ilim]. pose proof (place_bound _ _ _ _ _ It) as (B1 & B2 & B3). pose proof HL as [L1 L2 L3 L4].
  pose proof (place_tiles _ _ _ _ _ It) as (Hl & Hn & _). pose proof (tiles_length _ _ _ (up_tiles _ _ _ _ _ _ _ HU)) as Hlen.
  pose proof (up_len _ _ _ _ _ _ _ HU) as Hn'. pose proof (place_ring _ _ _ _ _ Ir) as [R1 _].
  pose proof (up_mem _ _ _ _ _ _ _ HU) as Um. pose proof (up_os _ _ _ _ _ _ _ HU) as Uo. pose proof (up_frame _ _ _ _ _ _ _ HU) as Uf.
  destruct (place_before _ _ _ _ _ It Ir _ (pred_elem l)) as [Ha Hlt].
  assert (accessible s1 (pred l) = true) as Ha1 by (unfold accessible in *; by rewrite Uo).
  assert (0 ≤ pred l) as Hp0. { destruct (proj1 (elem_of_cons _ _ _) (pred_elem l)) as [->|Hp]; [lia|]. destruct (frees_bound _ _ _ _ Hl Hp). lia. }
  eexists. split.
  - unfold join_lower. rewrite bind_assoc. erewrite bind_ret by (by apply load_run). rewrite bind_assoc.
    erewrite bind_ret by (apply load_run, accessible_unit; [lia|rewrite Uo; lia]). rewrite Uf, plus_id by lia.
    rewrite (proj2 (Z.eqb_neq _ _) P1). erewrite bind_ret by (by apply set_ptr_run). reflexivity.
  - apply freed_intro; cbn [mem freep os with_mem addr len isfree]; try done.
    + apply tiles_app. exists bp. split; [done|]. cbn [tiles addr len]. split; [done|]. lia.
    + intros y [Hy| ->%list_elem_of_singleton]%elem_of_app.
      * destruct (lower_left y Hy) as (_ & _ & _ & Y4 & Y5). destruct (decide (pred l = addr y)) as [E|E].
        -- rewrite E, fn_lookup_insert. cbn [size]. by rewrite Y4.
        -- rewrite fn_lookup_insert_ne by done. by rewrite Y4.
      * cbn [addr len]. rewrite fn_lookup_insert_ne by lia. by rewrite Um.
    + intros a Hne Hni. rewrite fn_lookup_insert_ne by (intros <-; apply Hni, pred_elem). auto.
    + destruct (decide (pred l = base)) as [E|E].
      * rewrite E, fn_lookup_insert. cbn [size]. rewrite Uf by lia. done.
      * rewrite fn_lookup_insert_ne, Uf by (done || lia). done.
    + rewrite frees_app, frees_cons. cbn [isfree addr]. change ([bp] ++ frees []) with [bp]. rewrite app_comm_cons, lseg_snoc. split.
      * eapply (seg_relink (mem s)); [exact Hl|exact R1| |by rewrite fn_lookup_insert].
        intros a Ha' Hne. rewrite fn_lookup_insert_ne by done. rewrite Uf; [done|]. destruct (place_before _ _ _ _ _ It Ir a Ha'). lia.
      * unfold nx. rewrite fn_lookup_insert_ne by lia. by rewrite Um.
    + apply merged_app in Im as (M1 & _ & _). apply merged_app. split; [done|]. split; [done|]. intros y z Hy Hf _. specialize (Hlast y Hy). congruence.
    + rewrite frees_app. pose proof (pred_elem l). set_solver.
    + intros y Hy. split; [intros [?| ->%list_elem_of_singleton]%elem_of_app; [done|done]|set_solver].
    + rewrite frees_app, length_app. simpl. lia.
Qed.

End lower.

(** ** free *)

Lemma free_ok s bs x : inv s bs → x ∈ bs → isfree x = false →
  ∃ s' bs', free (addr x + 16) s = Ret tt s' ∧ freed s s' bs (addr x) (len x) bs'.
Proof.
  intros HI Hx Hf. destruct (list_elem_of_split _ _ Hx) as (l & r & ->). destruct x as [bp n f]. cbn [addr len isfree] in *. subst f.
  pose proof HI as [It Is Ib Ir If Im Ilim]. pose proof (place_bound _ _ _ _ _ It) as (B1 & B2 & B3). pose proof HL as [L1 L2 L3 L4].
  pose proof (place_tiles _ _ _ _ _ It) as (Hl & Hn & _).
  destruct (join_upper_run s l r bp n HI) as (s1 & n' & r' & E1 & HU).
  assert (∃ s2 bs', (join_lower bp (pred l) ;; set_freep (pred l)) s1 = Ret tt s2 ∧ freed s s2 (l ++ mk_block bp n false :: r) bp n bs') as (s2 & bs' & E2 & HF).
  { destruct l as [|x l0 _] using rev_ind.
    - destruct (join_lower_alloc s s1 [] r r' bp n n' HI HU) as (s2 & E2 & HF); [done|]. eauto.
    - destruct (isfree x) eqn:Ex.
      + destruct (join_lower_free s s1 (l0 ++ [x]) r r' bp n n' HI HU l0 x eq_refl Ex) as (s2 & E2 & HF). eauto.
      + destruct (join_lower_alloc s s1 (l0 ++ [x]) r r' bp n n' HI HU) as (s2 & E2 & HF); [|eauto]. intros y. rewrite last_snoc. congruence. }
  exists s2, bs'. split; [|done]. unfold free. rewrite plus_id by lia. replace (bp + 16 + 16 * -1) with bp by lia.
  erewrite bind_ret by reflexivity. erewrite bind_ret by reflexivity. erewrite bind_ret by (by apply (place_run s l r bp n It Ir)).
  by erewrite bind_ret by exact E1.
Qed.

(** ** morecore *)

(** The memory of the allocated blocks is not touched. *)
Definition untouched (s s' : state) (bs : list block) : Prop :=
  ∀ x a, x ∈ bs → isfree x = false → addr x ≤ a < addr x + 16 * len x → mem s' a = mem s a.

Lemma alloc_not_ring s bs x a : inv s bs → x ∈ bs → isfree x = false → addr x ≤ a < addr x + 16 * len x → a ∉ base :: frees bs.
Proof.
  intros [It _ _ _ _ _ _] Hx Hf Ha. destruct (tiles_bound _ _ _ _ It Hx) as (? & ? & ?), HL.
  intros [E|(y & Hy & Hfy & E)%elem_of_frees]%elem_of_cons; [lia|]. destruct (tiles_bound _ _ _ _ It Hy) as (? & ? & ?).
  destruct (tiles_disjoint _ _ _ _ _ It Hx Hy) as [->|[?|?]]; [congruence|lia|lia].
Qed.

Lemma inv_sbrk s bs w n : inv s bs → 0 < n → brk w = brk (os s) + 16 * n → brk w ≤ sbrk_limit →
  inv (mk_state (<[brk (os s) := mk_header (ptr (mem s (brk (os s)))) n]> (mem s)) (freep s) w) (bs ++ [mk_block (brk (os s)) n false]).
Proof.
  intros [It Is Ib Ir If Im Ilim] Hn Hw Hlim. pose proof (tiles_length _ _ _ It) as Hlen. destruct HL as [L1 L2 L3 L4].
  assert (frees (bs ++ [mk_block (brk (os s)) n false]) = frees bs) as Ef by (rewrite frees_app, frees_cons; apply app_nil_r).
  split; cbn [mem freep os]; rewrite ?Ef; try done.
  - apply tiles_app. exists (brk (os s)). split; [done|]. cbn [tiles addr len]. done.
  - intros x [Hx| ->%list_elem_of_singleton]%elem_of_app; [|cbn [addr]; by rewrite fn_lookup_insert].
    destruct (tiles_bound _ _ _ _ It Hx) as (? & ? & ?). rewrite fn_lookup_insert_ne by lia. auto.
  - rewrite fn_lookup_insert_ne by lia. done.
  - unfold ring. rewrite Ef. eapply lseg_ext, Ir. intros k Hk. unfold nx. rewrite fn_lookup_insert_ne; [done|].
    apply elem_of_cons in Hk as [->|Hk]; [lia|]. destruct (frees_bound _ _ _ _ It Hk). lia.
  - apply merged_app. split; [done|]. split; [done|]. by intros x y _ _ [= <-].
  - lia.
Qed.

Lemma morecore_ok s bs nu : inv s bs → 0 < nu →
  (∃ s', morecore nu s = Ret 0 s' ∧ inv s' bs ∧ mem s' = mem s ∧ ∃ k, nu ≤ k ∧ sbrk (k * 16) (os s) = Ret None (os s')) ∨
  (∃ s' bs', morecore nu s = Ret (freep s') s' ∧ inv s' bs' ∧ (∀ x, isfree x = false → x ∈ bs' ↔ x ∈ bs) ∧ untouched s s' bs ∧
    (∃ x, x ∈ bs' ∧ isfree x = true ∧ nu ≤ len x) ∧ (length (frees bs') ≤ S (length (frees bs)))%nat).
Proof.
  intros HI Hnu. pose proof HI as [It Is Ib Ir If Im Ilim]. pose proof (tiles_length _ _ _ It) as Hlen. pose proof HL as [L1 L2 L3 L4].
  unfold morecore. set (n := if nu <? 4096 then 4096 else nu). assert (0 < n ∧ nu ≤ n) as [Hn0 Hnu0] by (unfold n; destruct (Z.ltb_spec nu 4096); lia).
  unfold sizeof_Header. destruct (sbrk_ok (n * 16) (os s) ltac:(lia)) as (r & w & Es & [(-> & Hw & Hlim)|[-> Hw]]).
  - right. pose proof (inv_sbrk s bs w n HI Hn0 ltac:(lia) Hlim) as HI1. set (s1 := mk_state _ _ w) in HI1.
    destruct (free_ok s1 _ (mk_block (brk (os s)) n false) HI1 ltac:(set_solver) eq_refl) as (s2 & bs2 & E & [F1 F2 F3 F4 F5 F6]). cbn [addr len] in *.
    exists s2, bs2. split_and!; try done.
    + erewrite bind_ret by (by apply zoom_ret). cbn beta iota. erewrite bind_ret by (apply set_size_run, accessible_unit; cbn [os]; lia).
      cbn [mem freep os with_mem]. rewrite plus_id by lia. replace (brk (os s) + 16 * 1) with (brk (os s) + 16) by lia. by erewrite bind_ret by exact E.
    + intros x Hx. rewrite F3, elem_of_app, list_elem_of_singleton by done. split; [intros [[?| ->] ?]; done|]. intros Hin. split; [by left|].
      destruct (tiles_bound _ _ _ _ It Hin) as (? & ? & ?). lia.
    + intros x a Hx Hf Ha. destruct (tiles_bound _ _ _ _ It Hx) as (? & ? & ?). rewrite F4; [cbn; by rewrite fn_lookup_insert_ne by lia|lia|].
      rewrite frees_app, frees_cons. cbn [isfree app]. rewrite app_nil_r. by eapply alloc_not_ring.
    + destruct F5 as (x & Hx & Hf & Hl). exists x. split_and!; [done..|lia].
    + rewrite frees_app, frees_cons, length_app in F6. simpl in F6. lia.
  - left. eexists. split_and!; [by erewrite bind_ret by (by apply zoom_ret)| |done|by exists n]. split; cbn [mem freep os]; rewrite ?Hw; done.
Qed.

(** ** Taking a block *)

Record taken (s s' : state) (bs : list block) (n : Z) (x : block) (bs' : list block) : Prop := {
  tk_inv : inv s' bs';
  tk_block : x ∈ bs' ∧ isfree x = false ∧ len x = n;
  tk_alloc : ∀ y, isfree y = false → y ∈ bs' ↔ y ∈ bs ∨ y = x;
  tk_new : ∀ y, y ∈ bs → isfree y = false → addr y ≠ addr x;
  tk_frame : untouched s s' bs
}.

Lemma nodup_split (l1 l2 r1 r2 : list Z) k : NoDup (l1 ++ k :: r1) → l1 ++ k :: r1 = l2 ++ k :: r2 → l1 = l2.
Proof.
  revert l2. induction l1 as [|x l1 IH]; intros [|y l2] Hnd E; simpl in *; [done| | |].
  - injection E as -> ->. apply list.NoDup_cons in Hnd as [Hn _]. set_solver.
  - injection E as -> <-. apply list.NoDup_cons in Hnd as [Hn _]. set_solver.
  - injection E as -> E. f_equal. apply list.NoDup_cons in Hnd as [_ Hnd]. eauto.
Qed.

(** The free block after [q] in the list, and its place. *)
Lemma next_block s bs q : inv s bs → q ∈ base :: frees bs → 0 < size (mem s (ptr (mem s q))) →
  ptr (mem s q) ∈ base :: frees bs → ∃ l m r, bs = l ++ mk_block (ptr (mem s q)) m true :: r ∧ pred l = q ∧ size (mem s (ptr (mem s q))) = m.
Proof.
  intros [It Is Ib Ir If Im Ilim] Hq Hsz [Hk|Hk]%elem_of_cons; [rewrite Hk in Hsz; lia|].
  pose proof (frees_nodup _ _ It) as Hnd. apply elem_of_frees in Hk as (x & Hx & Hf & Ex). destruct x as [k m f]. cbn in Hf, Ex. subst f k.
  set (k := ptr (mem s q)) in *. pose proof (Is _ Hx) as Hm. cbn [addr len] in Hm. destruct (list_elem_of_split _ _ Hx) as (l & r & ->).
  exists l, m, r. split_and!; [done| |done]. unfold ring in Ir. rewrite frees_app, frees_cons in *. cbn [isfree addr app] in *.
  rewrite app_comm_cons in *. destruct (list_elem_of_split _ _ Hq) as (A & C & E). pose proof Ir as Ir2. rewrite E in Ir2.
  apply lseg_app in Ir2 as (p & _ & _ & p' & [= <-] & HC). fold k in HC.
  assert (∃ C2, C = k :: C2) as [C2 ->].
  { destruct C as [|c C2]; [|destruct HC as ([= <-] & _); eauto]. injection HC as HC. rewrite HC in *. apply list.NoDup_cons in Hnd as [Hn _]. set_solver. }
  assert (base :: frees l = A ++ [q]) as E2. { apply (nodup_split _ _ (frees r) C2 k Hnd). rewrite E, <- app_assoc. done. }
  destruct (frees_pred l) as [A' E3]. rewrite E3 in E2. by apply app_inj_tail in E2 as [_ ?].
Qed.

Lemma merged_middle l r x x' : merged (l ++ x :: r) → (isfree x' = true → isfree x = true) → merged (l ++ x' :: r).
Proof.
  intros (M1 & [M2 M3] & M4)%merged_app Hx. apply merged_app. split; [done|]. split; [split; [auto|done]|].
  intros y z Hy Hf [= <-]. specialize (M4 y x Hy Hf eq_refl). destruct (isfree x'); [|done]. rewrite Hx in M4 by done. done.
Qed.

Section take.
Context (s : state) (l r : list block) (k m n : Z).
Context (HI : inv s (l ++ mk_block k m true :: r)) (Hn : 0 < n).

Lemma take_facts : tiles lo l k ∧ 0 < m ∧ tiles (k + 16 * m) r (brk (os s)) ∧ size (mem s k) = m ∧ lo ≤ k ∧ k + 16 * m ≤ brk (os s) ∧
  lseg (nx (mem s)) (Some base) (base :: frees l) (Some k) ∧ ptr (mem s k) = succ r ∧ lseg (nx (mem s)) (Some (succ r)) (frees r) (Some base).
Proof.
  pose proof HI as [It Is _ Ir _ _ _]. apply tiles_app in It as (a & Hl & Ea & Hm & Hr). cbn [addr len] in *. subst a.
  pose proof (tiles_length _ _ _ Hl). pose proof (tiles_length _ _ _ Hr). pose proof (Is (mk_block k m true) ltac:(set_solver)) as Hs.
  destruct (ring_split _ _ _ Ir) as [R1 R2]. unfold succ in R1, R2. rewrite frees_cons in R1, R2. cbn [isfree addr app head default from_option id] in R1, R2.
  destruct R2 as (_ & q & [= <-] & R2). unfold succ. destruct (frees r) as [|z zs] eqn:E.
  - injection R2 as R2. split_and!; try done; lia.
  - destruct R2 as ([= R2] & R3). rewrite R2. split_and!; try done; try lia.
Qed.

Lemma take_away x a : x ∈ l ++ r → addr x ≤ a < addr x + 16 * len x → a < k ∨ k + 16 * m ≤ a.
Proof.
  pose proof take_facts as (T1 & _ & T3 & _). intros [Hx|Hx]%elem_of_app Ha;
    [destruct (tiles_bound _ _ _ _ T1 Hx)|destruct (tiles_bound _ _ _ _ T3 Hx)]; lia.
Qed.

(** All of it. *)
Lemma take_exact : m = n → ∃ s', take n (pred l) k s = Ret (k + 16) s' ∧
  taken s s' (l ++ mk_block k m true :: r) n (mk_block k n false) (l ++ mk_block k n false :: r).
Proof.
  intros Emn. pose proof take_facts as (T1 & T2 & T3 & T4 & T5 & T6 & T7 & T8 & T9). pose proof HI as [It Is Ib Ir If Im Ilim]. pose proof HL as [L1 L2 L3 L4].
  pose proof (pred_elem l) as Hp. assert (pred l < k) as Hpk. { apply elem_of_cons in Hp as [->|Hp]; [lia|]. destruct (frees_bound _ _ _ _ T1 Hp). lia. }
  assert (accessible s (pred l) = true) as Hap. { eapply accessible_ring; [exact It|]. rewrite frees_app. set_solver. }
  assert (∀ y, y ∈ l ++ r → 0 < len y) as Hpos. { intros y [Hy|Hy]%elem_of_app; [destruct (tiles_bound _ _ _ _ T1 Hy) as (_ & _ & ?)|destruct (tiles_bound _ _ _ _ T3 Hy) as (_ & _ & ?)]; done. }
  eexists. split.
  { unfold take. erewrite bind_ret by (apply load_run, accessible_unit; lia). rewrite T4, (proj2 (Z.eqb_eq _ _) Emn).
    erewrite bind_ret by (by erewrite bind_ret by (by apply set_ptr_run)). erewrite bind_ret by reflexivity. rewrite plus_id by lia.
    by replace (k + 16 * 1) with (k + 16) by lia. }
  assert (∀ a, size ((<[pred l := mk_header (ptr (mem s k)) (size (mem s (pred l)))]> (mem s)) a) = size (mem s a)) as Hsz.
  { intros a. destruct (decide (pred l = a)) as [<-|]; [by rewrite fn_lookup_insert|by rewrite fn_lookup_insert_ne]. }
  split; cbn [mem freep os with_mem]; try done.
  - split; cbn [mem freep os with_mem]; try done.
    + apply tiles_app. exists k. split; [done|]. cbn [tiles addr len]. subst n. done.
    + intros y Hy. rewrite Hsz. apply elem_of_app in Hy as [Hy|[->|Hy]%elem_of_cons]; [apply Is; set_solver|cbn [addr len]; lia|apply Is; set_solver].
    + by rewrite Hsz.
    + replace (l ++ mk_block k n false :: r) with ((l ++ [mk_block k n false]) ++ r) by (by rewrite <- app_assoc).
      assert (frees (l ++ [mk_block k n false]) = frees l) as El by (rewrite frees_app, frees_cons; apply app_nil_r).
      apply ring_join; [rewrite El; eapply (seg_relink (mem s)); [exact T1|exact T7| |by rewrite fn_lookup_insert]|].
      * intros a _ Hne. by rewrite fn_lookup_insert_ne.
      * eapply seg_ext; [exact T9|]. intros a Ha. rewrite fn_lookup_insert_ne; [done|]. destruct (frees_bound _ _ _ _ T3 Ha). lia.
    + rewrite frees_app. set_solver.
    + eapply merged_middle; [exact Im|]. done.
  - set_solver.
  - intros y Hy. rewrite !elem_of_app, !elem_of_cons. split; [naive_solver|]. intros [[?|[->|?]]| ->]; [tauto|done|tauto|tauto].
  - intros y Hy Hf E. cbn [addr] in E. apply elem_of_app in Hy as [Hy|[->|Hy]%elem_of_cons]; [|done|];
      (destruct (take_away y (addr y)) as [?|?]; [set_solver|specialize (Hpos y); set_solver by lia|lia|lia]).
  - intros y a Hy Hf Ha. cbn [mem]. rewrite fn_lookup_insert_ne; [done|]. intros <-.
    apply (alloc_not_ring _ _ _ _ HI Hy Hf Ha). rewrite frees_app. set_solver.
Qed.

(** The end of it: the memory then. *)
Definition split_mem : Z → Header :=
  let k' := k + 16 * (m - n) in let m1 := <[k := mk_header (ptr (mem s k)) (m - n)]> (mem s) in <[k' := mk_header (ptr (m1 k')) n]> m1.

Lemma split_run : n < m → take n (pred l) k s = Ret (k + 16 * (m - n) + 16) (mk_state split_mem (pred l) (os s)).
Proof.
  intros Hnm. pose proof take_facts as (T1 & T2 & T3 & T4 & T5 & T6 & _). pose proof HI as [_ _ _ _ _ _ Ilim]. pose proof HL as [L1 L2 L3 L4].
  assert (accessible s k = true) as Hak by (apply accessible_unit; lia). assert (u32 (m - n) = m - n) as Eu by (apply wrap_id; unfold in_u; lia).
  unfold take. erewrite bind_ret by (by apply load_run). rewrite T4, (proj2 (Z.eqb_neq _ _)), Eu by lia.
  erewrite bind_ret by (erewrite bind_ret by (by apply set_size_run); erewrite bind_ret by (by apply load_run);
    cbn [mem with_mem]; rewrite fn_lookup_insert; cbn [size]; rewrite plus_id by lia;
    erewrite bind_ret by (apply set_size_run, accessible_unit; cbn [os with_mem]; lia); reflexivity).
  erewrite bind_ret by reflexivity. rewrite plus_id by lia. by replace (k + 16 * (m - n) + 16 * 1) with (k + 16 * (m - n) + 16) by lia.
Qed.

Lemma split_away a : 0 < m - n → a < k ∨ k + 16 * m ≤ a → split_mem a = mem s a.
Proof. intros Hnm Ha. unfold split_mem. by rewrite !fn_lookup_insert_ne by lia. Qed.

Lemma split_block y : 0 < m - n → y ∈ l ++ r → split_mem (addr y) = mem s (addr y) ∧ (addr y < k ∨ k + 16 * m ≤ addr y).
Proof.
  pose proof take_facts as (T1 & _ & T3 & _). intros Hnm Hy.
  assert (0 < len y) as Hp by (apply elem_of_app in Hy as [Hy|Hy]; [destruct (tiles_bound _ _ _ _ T1 Hy) as (_ & _ & ?)|destruct (tiles_bound _ _ _ _ T3 Hy) as (_ & _ & ?)]; done).
  pose proof (take_away y (addr y) Hy ltac:(lia)) as Ha. split; [by apply split_away|done].
Qed.

Lemma split_frees k' : frees ((l ++ [mk_block k (m - n) true]) ++ mk_block k' n false :: r) = frees (l ++ mk_block k m true :: r).
Proof. rewrite !frees_app, !frees_cons. cbn [isfree addr app]. by rewrite <- app_assoc. Qed.

Lemma split_inv : n < m →
  inv (mk_state split_mem (pred l) (os s)) ((l ++ [mk_block k (m - n) true]) ++ mk_block (k + 16 * (m - n)) n false :: r).
Proof.
  intros Hnm. pose proof take_facts as (T1 & T2 & T3 & T4 & T5 & T6 & _). pose proof HI as [It Is Ib Ir If Im Ilim]. pose proof HL as [L1 L2 L3 L4].
  set (k' := k + 16 * (m - n)). assert (split_mem k = mk_header (ptr (mem s k)) (m - n)) as Hk2 by (unfold split_mem; rewrite fn_lookup_insert_ne by lia; apply fn_lookup_insert).
  split; cbn [mem freep os]; rewrite ?split_frees; try done.
  - apply tiles_app. exists k'. split; [apply tiles_app; exists k; split; [done|]|]; cbn [tiles addr len].
    + split; [done|]. split; [lia|]. done.
    + split; [done|]. split; [done|]. by replace (k' + 16 * n) with (k + 16 * m) by (unfold k'; lia).
  - intros y [[Hy| ->%list_elem_of_singleton]%elem_of_app|[->|Hy]%elem_of_cons]%elem_of_app; cbn [addr len].
    + destruct (split_block y) as [-> _]; [lia|set_solver|]. apply Is. set_solver.
    + by rewrite Hk2.
    + unfold split_mem. fold k'. by rewrite fn_lookup_insert.
    + destruct (split_block y) as [-> _]; [lia|set_solver|]. apply Is. set_solver.
  - rewrite split_away by lia. done.
  - unfold ring. rewrite split_frees. eapply lseg_ext, Ir. intros a Ha. unfold nx. do 2 f_equal. destruct (decide (a = k)) as [->|Hne]; [by rewrite Hk2|].
    rewrite split_away; [done|lia|]. rewrite frees_app, frees_cons in Ha. cbn [isfree addr app] in Ha.
    apply elem_of_cons in Ha as [?|[Ha|[?|Ha]%elem_of_cons]%elem_of_app]; [lia| |lia|];
      [destruct (frees_bound _ _ _ _ T1 Ha)|destruct (frees_bound _ _ _ _ T3 Ha)]; lia.
  - pose proof (pred_elem l). rewrite frees_app. set_solver.
  - apply merged_app in Im as (M1 & [_ M3] & M4). apply merged_app. split; [apply merged_app; split_and!; [done|done|]|].
    + intros y z Hy Hf [= <-]. by specialize (M4 y _ Hy Hf eq_refl).
    + split; [done|]. by intros y z _ _ [= <-].
Qed.

Lemma take_split : n < m → ∃ s', take n (pred l) k s = Ret (k + 16 * (m - n) + 16) s' ∧
  taken s s' (l ++ mk_block k m true :: r) n (mk_block (k + 16 * (m - n)) n false)
    ((l ++ [mk_block k (m - n) true]) ++ mk_block (k + 16 * (m - n)) n false :: r).
Proof.
  intros Hnm. pose proof take_facts as (T1 & T2 & _). eexists. split; [by apply split_run|]. split; cbn [mem freep os].
  - by apply split_inv.
  - set_solver.
  - intros y Hy. rewrite !elem_of_app, !elem_of_cons, elem_of_nil. split; [intros [[?|[->|[]]]|[?|?]]; try tauto; done|]. intros [[?|[->|?]]| ->]; [tauto|done|tauto|tauto].
  - intros y Hy Hf E. cbn [addr] in E. apply elem_of_app in Hy as [Hy|[->|Hy]%elem_of_cons]; [|done|]; (destruct (split_block y) as [_ ?]; [lia|set_solver|lia]).
  - intros y a Hy Hf Ha. cbn [mem]. assert (y ∈ l ++ r) as Hy' by (apply elem_of_app in Hy as [?|[->|?]%elem_of_cons]; [set_solver|done|set_solver]).
    apply split_away; [lia|]. by apply (take_away y a).
Qed.

End take.

Lemma take_ok s bs n q : inv s bs → 0 < n → q ∈ base :: frees bs → ptr (mem s q) ∈ base :: frees bs → n ≤ size (mem s (ptr (mem s q))) →
  ∃ s' x bs', take n q (ptr (mem s q)) s = Ret (addr x + 16) s' ∧ taken s s' bs n x bs'.
Proof.
  intros HI Hn Hq Hk Hsz. destruct (next_block s bs q HI Hq ltac:(lia) Hk) as (l & m & r & -> & <- & Hm). set (k := ptr (mem s (pred l))) in *.
  destruct (decide (m = n)) as [E|E].
  - destruct (take_exact s l r k m n HI Hn E) as (s' & ? & ?). by exists s', (mk_block k n false), (l ++ mk_block k n false :: r).
  - destruct (take_split s l r k m n HI Hn ltac:(lia)) as (s' & ? & ?). by eexists s', (mk_block (k + 16 * (m - n)) n false), _.
Qed.

(** ** The loop of malloc *)

(** The list from [freep] on, which comes last. *)
Lemma rotation s bs : inv s bs → ∃ D, lseg (nx (mem s)) (Some (ptr (mem s (freep s)))) (D ++ [freep s]) (Some (ptr (mem s (freep s)))) ∧
  (∀ k, k ∈ D ++ [freep s] ↔ k ∈ base :: frees bs) ∧ length D = length (frees bs) ∧ ∀ k, k ∈ D → k ≠ freep s.
Proof.
  intros [It Is Ib Ir If Im Ilim]. unfold ring in Ir. destruct (list_elem_of_split _ _ If) as (A & C & E). assert (length (A ++ freep s :: C) = S (length (frees bs))) as Hl by (by rewrite <- E).
  pose proof (frees_nodup _ _ It) as Hnd. rewrite E in *.
  apply lseg_app in Ir as (p & HA & Ep & q & [= <-] & HC). subst p. exists (C ++ A). split_and!.
  - apply lseg_snoc. split; [|done]. apply lseg_app. eauto.
  - intros k. rewrite !elem_of_app, !elem_of_cons, elem_of_nil. tauto.
  - rewrite length_app in *. simpl in Hl. lia.
  - apply list.NoDup_app in Hnd as (_ & N1 & [N2 _]%list.NoDup_cons). intros k [Hk|Hk]%elem_of_app ->; [done|]. apply (N1 _ Hk). left.
Qed.

Lemma ring_nonzero s bs a : inv s bs → a ∈ base :: frees bs → (a =? 0) = false.
Proof.
  intros [It _ _ _ _ _ _] Ha. apply Z.eqb_neq. destruct HL. apply elem_of_cons in Ha as [->|Ha]; [lia|]. destruct (frees_bound _ _ _ _ It Ha). lia.
Qed.

(** What the loop does when it comes to [freep]. *)
Definition out_of_blocks (fuel : nat) (n : Z) : M state Z :=
  p ← morecore n; if p =? 0 then mret 0 else h ← load p; malloc_loop fuel n p (ptr h).

Lemma scan s bs n : inv s bs → ∀ D q fuel, q ∈ base :: frees bs → lseg (nx (mem s)) (Some (ptr (mem s q))) (D ++ [freep s]) (Some (ptr (mem s (freep s)))) →
  (∀ k, k ∈ D ++ [freep s] → k ∈ base :: frees bs) → (∀ k, k ∈ D → k ≠ freep s) →
  (∃ q', q' ∈ base :: frees bs ∧ ptr (mem s q') ∈ base :: frees bs ∧ n ≤ size (mem s (ptr (mem s q'))) ∧
     malloc_loop (length D + S fuel) n q (ptr (mem s q)) s = take n q' (ptr (mem s q')) s) ∨
  (∀ k, k ∈ D ++ [freep s] → size (mem s k) < n) ∧ malloc_loop (length D + S fuel) n q (ptr (mem s q)) s = out_of_blocks fuel n s.
Proof.
  intros HI. pose proof HI as [It Is Ib Ir If Im Ilim].
  induction D as [|d D IH]; intros q fuel Hq Hs Hr Hne; cbn [app length] in *; destruct Hs as ([= Ed] & p & Hp & Hs); injection Hp as <-;
    destruct (Z.leb_spec n (size (mem s (ptr (mem s q))))) as [Hle|Hlt].
  - left. exists q. rewrite Ed in Hle |- *. split_and!; [done|apply Hr; left|done|]. cbn [malloc_loop Nat.add].
    erewrite bind_ret by (eapply load_run, accessible_ring; [exact It|apply Hr; left]). by rewrite (proj2 (Z.leb_le _ _)) by done.
  - right. rewrite Ed in Hlt |- *. split; [by intros k ->%list_elem_of_singleton|]. cbn [malloc_loop Nat.add].
    erewrite bind_ret by (eapply load_run, accessible_ring; [exact It|apply Hr; left]). rewrite (proj2 (Z.leb_gt _ _)) by done.
    erewrite bind_ret by reflexivity. by rewrite Z.eqb_refl.
  - left. exists q. rewrite Ed in Hle |- *. split_and!; [done|apply Hr; left|done|]. cbn [malloc_loop Nat.add].
    erewrite bind_ret by (eapply load_run, accessible_ring; [exact It|apply Hr; left]). by rewrite (proj2 (Z.leb_le _ _)) by done.
  - rewrite Ed in Hlt |- *. cbn [malloc_loop Nat.add].
    assert (accessible s d = true) as Had by (eapply accessible_ring; [exact It|apply Hr; left]).
    destruct (IH d fuel) as [(q' & Hq' & Hk' & Hn' & E)|[Hall E]]; [apply Hr; left|done|set_solver|set_solver| |].
    1: left; exists q'; split_and!; try done. 2: right; split; [intros k [->|Hk]%elem_of_cons; auto|].
    all: erewrite bind_ret by (by apply load_run); rewrite (proj2 (Z.leb_gt _ _)) by done; erewrite bind_ret by reflexivity;
      rewrite (proj2 (Z.eqb_neq d (freep s))) by (apply Hne; left); erewrite bind_ret by reflexivity;
      rewrite (ring_nonzero s bs d HI) by (apply Hr; left); by erewrite bind_ret by (by apply load_run).
Qed.

Lemma scan_freep s bs n fuel : inv s bs →
  (∃ q', q' ∈ base :: frees bs ∧ ptr (mem s q') ∈ base :: frees bs ∧ n ≤ size (mem s (ptr (mem s q'))) ∧
     malloc_loop (length (frees bs) + S fuel) n (freep s) (ptr (mem s (freep s))) s = take n q' (ptr (mem s q')) s) ∨
  (∀ k, k ∈ base :: frees bs → size (mem s k) < n) ∧
    malloc_loop (length (frees bs) + S fuel) n (freep s) (ptr (mem s (freep s))) s = out_of_blocks fuel n s.
Proof.
  intros HI. destruct (rotation s bs HI) as (D & Hs & Hr & <- & Hne).
  destruct (scan s bs n HI D (freep s) fuel (in_freep _ _ HI) Hs (λ k, proj1 (Hr k)) Hne) as [?|[Hall E]]; [by left|].
  right. split; [|done]. intros k Hk. by apply Hall, Hr.
Qed.

(** ** malloc *)

(** Before the first call there is no list. *)
Definition ready (s : state) (bs : list block) : Prop := inv s bs ∨ (freep s = 0 ∧ bs = [] ∧ brk (os s) = lo).

Definition nunits (nbytes : Z) : Z := (nbytes + 15) / 16 + 1.

Lemma taken_trans s s1 s' bs bs1 n x bs' : inv s bs → (∀ y, isfree y = false → y ∈ bs1 ↔ y ∈ bs) → untouched s s1 bs →
  taken s1 s' bs1 n x bs' → taken s s' bs n x bs'.
Proof.
  intros HI Hal Hun [T1 T2 T3 T4 T5]. split; try done.
  - intros y Hy. by rewrite T3, Hal.
  - intros y Hy Hf. apply T4; [by apply Hal|done].
  - intros y a Hy Hf Ha. rewrite (T5 y a); [by apply (Hun y)|by apply Hal|done|done].
Qed.

Lemma malloc_loop_ok s bs n : inv s bs → 0 < n →
  (∃ s', malloc_loop (2 * units s + 2) n (freep s) (ptr (mem s (freep s))) s = Ret 0 s' ∧ inv s' bs ∧ mem s' = mem s ∧
    (∀ x, x ∈ bs → isfree x = true → len x < n) ∧ ∃ k, n ≤ k ∧ sbrk (k * 16) (os s) = Ret None (os s')) ∨
  (∃ s' x bs', malloc_loop (2 * units s + 2) n (freep s) (ptr (mem s (freep s))) s = Ret (addr x + 16) s' ∧ taken s s' bs n x bs').
Proof.
  intros HI Hn. pose proof HI as [It Is Ib Ir If Im Ilim].
  assert (length (frees bs) < units s)%nat as Hu.
  { pose proof (tiles_length _ _ _ It). pose proof (frees_length bs). unfold units, sizeof_Header.
    assert (Z.of_nat (length bs) ≤ (brk (os s) - lo) / 16) by (apply Z.div_le_lower_bound; lia). lia. }
  set (F := (2 * units s + 2 - length (frees bs) - 1)%nat). replace (2 * units s + 2)%nat with (length (frees bs) + S F)%nat by (unfold F; lia).
  destruct (scan_freep s bs n F HI) as [(q & Hq & Hk & Hle & ->)|[Hall ->]].
  { right. destruct (take_ok s bs n q HI Hn Hq Hk Hle) as (s' & x & bs' & ? & ?). eauto. }
  unfold out_of_blocks. destruct (morecore_ok s bs n HI Hn) as [(s1 & E & HI1 & Hm & k & Hk & Ek)|(s1 & bs1 & E & HI1 & Hal & Hun & (y & Hy & Hfy & Hly) & Hc)].
  - left. exists s1. split; [by erewrite bind_ret by exact E|]. split_and!; [done|done| |eauto]. intros x Hx Hf.
    rewrite <- Is by done. apply Hall. right. apply elem_of_frees. eauto.
  - right. pose proof HI1 as [It1 Is1 Ib1 Ir1 If1 Im1 Ilim1]. erewrite bind_ret by exact E. rewrite (ring_nonzero s1 bs1) by done.
    erewrite bind_ret by (by eapply load_run, accessible_ring).
    replace F with (length (frees bs1) + S (F - length (frees bs1) - 1))%nat by (unfold F; lia).
    destruct (scan_freep s1 bs1 n (F - length (frees bs1) - 1) HI1) as [(q & Hq & Hk & Hle & ->)|[Hall1 _]].
    + destruct (take_ok s1 bs1 n q HI1 Hn Hq Hk Hle) as (s' & x & bs' & ? & ?). exists s', x, bs'. split; [done|]. by eapply taken_trans.
    + exfalso. specialize (Hall1 (addr y)). rewrite Is1 in Hall1 by done. assert (len y < n); [|lia]. apply Hall1. right. apply elem_of_frees. eauto.
Qed.

Lemma malloc_ok s bs nbytes : ready s bs → 0 ≤ nbytes < 2 ^ 32 →
  (∃ s', malloc nbytes s = Ret 0 s' ∧ ready s' bs ∧ untouched s s' bs ∧
    (∀ x, x ∈ bs → isfree x = true → len x < nunits nbytes) ∧ ∃ k, nunits nbytes ≤ k ∧ sbrk (k * 16) (os s) = Ret None (os s')) ∨
  (∃ s' x bs', malloc nbytes s = Ret (addr x + 16) s' ∧ taken s s' bs (nunits nbytes) x bs').
Proof.
  intros HR Hb. unfold malloc, sizeof_Header. replace (nbytes + 16 - 1) with (nbytes + 15) by lia. fold (nunits nbytes).
  assert (0 < nunits nbytes < 2 ^ 32) as Hn by (unfold nunits; pose proof (Z.div_pos (nbytes + 15) 16); pose proof (Z.div_lt_upper_bound (nbytes + 15) 16 (2 ^ 29)); lia).
  assert (u32 (nunits nbytes) = nunits nbytes) as -> by (apply wrap_id; unfold in_u; lia). erewrite bind_ret by reflexivity.
  destruct HR as [HI|(Hf & -> & Hbrk)].
  - rewrite (ring_nonzero s bs _ HI (in_freep _ _ HI)). erewrite bind_ret by reflexivity.
    erewrite bind_ret by (eapply load_run, accessible_ring; [apply HI|apply HI]). erewrite bind_ret by reflexivity.
    destruct (malloc_loop_ok s bs (nunits nbytes) HI) as [(s' & E & HI' & Hm & Hs & Hk)|?]; [lia| |by right].
    left. exists s'. split_and!; try done; [by left|]. intros x a _ _ _. by rewrite Hm.
  - rewrite Hf. cbn [Z.eqb]. set (s1 := mk_state (<[base := mk_header base 0]> (<[base := mk_header base (size (mem s base))]> (mem s))) base (os s)).
    assert (inv s1 []) as HI1.
    { split; cbn [mem freep os s1]; [done|by intros x ?%elem_of_nil|by rewrite fn_lookup_insert| |left|done|rewrite Hbrk; lia].
      split; [done|]. eexists. split; [done|]. cbn [lseg frees]. by rewrite fn_lookup_insert. }
    erewrite bind_ret.
    2:{ erewrite bind_ret by reflexivity. erewrite bind_ret by (apply set_ptr_run, accessible_base).
        erewrite bind_ret by (apply set_size_run, accessible_base). cbn [mem with_mem]. rewrite fn_lookup_insert. cbn [ptr]. reflexivity. }
    cbn [mem freep os with_mem]. fold s1. erewrite bind_ret by (apply load_run, accessible_base). erewrite bind_ret by reflexivity.
    destruct (malloc_loop_ok s1 [] (nunits nbytes) HI1) as [(s' & E & HI' & Hm & Hs & Hk)|(s' & x & bs' & E & [T1 T2 T3 T4 T5])]; [lia| |].
    + left. exists s'. split_and!; [done|by left| |done|done]. intros x a Hx. by apply elem_of_nil in Hx.
    + right. exists s', x, bs'. split; [done|]. split; try done. intros y a Hy. by apply elem_of_nil in Hy.
Qed.

(** ** What a program sees

    The specification: blocks of units that are there from the call of [malloc] to the
    call of [free], each apart from the others and from their headers, with the values
    that were stored in them. *)

Inductive op : Type :=
| Malloc (nbytes : Z)
| Free (p : Z)
| Put (p : Z) (i : nat) (v : Header)
| Get (p : Z) (i : nat).

Inductive answer : Type := Ptr (p : Z) | Val (v : Header) | Done.

Notation heap := (gmap Z (list Header)) (only parsing).

Definition allowed (h : heap) (o : op) : Prop :=
  match o with
  | Malloc n => 0 ≤ n < 2 ^ 32
  | Free p => is_Some (h !! p)
  | Put p i _ | Get p i => ∃ vs, h !! p = Some vs ∧ (i < length vs)%nat
  end.

Inductive spec (h : heap) : op → answer → heap → Prop :=
| spec_full n : spec h (Malloc n) (Ptr 0) h
| spec_malloc n p vs : 0 < p → n ≤ 16 * Z.of_nat (length vs) →
    (∀ q ws, h !! q = Some ws → q + 16 * Z.of_nat (length ws) ≤ p - 16 ∨ p + 16 * Z.of_nat (length vs) ≤ q - 16) →
    spec h (Malloc n) (Ptr p) (<[p := vs]> h)
| spec_free p : spec h (Free p) Done (delete p h)
| spec_put p i v vs : h !! p = Some vs → spec h (Put p i v) Done (<[p := <[i := v]> vs]> h)
| spec_get p i v vs : h !! p = Some vs → vs !! i = Some v → spec h (Get p i) (Val v) h.

(** The code of an operation; stores and loads are the program's own. *)
Definition run_op (o : op) : M state answer :=
  match o with
  | Malloc n => p ← malloc n; mret (Ptr p)
  | Free p => free p ;; mret Done
  | Put p i v => store (p + 16 * Z.of_nat i) (λ _, v) ;; mret Done
  | Get p i => v ← load (p + 16 * Z.of_nat i); mret (Val v)
  end.

Record shows (s : state) (bs : list block) (h : heap) : Prop := {
  sh_ready : ready s bs;
  sh_block : ∀ p vs, h !! p = Some vs → mk_block (p - 16) (Z.of_nat (length vs) + 1) false ∈ bs;
  sh_vals : ∀ p vs i v, h !! p = Some vs → vs !! i = Some v → mem s (p + 16 * Z.of_nat i) = v;
  sh_all : ∀ x, x ∈ bs → isfree x = false → is_Some (h !! (addr x + 16))
}.

Definition represents (s : state) (h : heap) : Prop := ∃ bs, shows s bs h.

Lemma ready_inv s bs x : ready s bs → x ∈ bs → inv s bs.
Proof. intros [?|(_ & -> & _)] Hx; [done|]. by apply elem_of_nil in Hx. Qed.

Lemma untouched_vals s s' bs h : shows s bs h → untouched s s' bs → ∀ p vs i v, h !! p = Some vs → vs !! i = Some v → mem s' (p + 16 * Z.of_nat i) = v.
Proof.
  intros [S1 S2 S3 S4] Hun p vs i v Hp Hi. rewrite <- (S3 p vs i v Hp Hi). apply (Hun _ _ (S2 p vs Hp) eq_refl). cbn [addr len].
  pose proof (lookup_lt_Some _ _ _ Hi). lia.
Qed.

Lemma malloc_shows s bs h n : shows s bs h → 0 ≤ n < 2 ^ 32 →
  ∃ a s' h', run_op (Malloc n) s = Ret a s' ∧ spec h (Malloc n) a h' ∧ represents s' h'.
Proof.
  intros HS Hn. pose proof HS as [S1 S2 S3 S4].
  destruct (malloc_ok s bs n S1 Hn) as [(s' & E & HR & Hun & _)|(s' & x & bs' & E & [T1 (X1 & X2 & X3) T3 T4 T5])].
  - exists (Ptr 0), s', h. split; [cbn [run_op]; by erewrite bind_ret by exact E|]. split; [constructor|]. exists bs. split; try done.
    by apply (untouched_vals s s' bs).
  - pose proof T1 as [It _ _ _ _ _ _]. destruct (tiles_bound _ _ _ _ It X1) as (B1 & B2 & B3). destruct HL as [L1 L2 L3 L4].
    assert (0 ≤ (n + 15) / 16 ∧ n ≤ 16 * ((n + 15) / 16)) as [Q1 Q2] by (pose proof (Z.div_mod (n + 15) 16); pose proof (Z.mod_pos_bound (n + 15) 16); pose proof (Z.div_pos (n + 15) 16); lia).
    set (k := Z.to_nat (len x - 1)). set (p := addr x + 16). unfold nunits in X3.
    set (vs := (λ i, mem s' (p + 16 * Z.of_nat i)) <$> seq 0 k). assert (length vs = k) as Hk by (unfold vs; by rewrite length_fmap, length_seq).
    assert (h !! p = None) as Hnone.
    { destruct (h !! p) as [ws|] eqn:E'; [|done]. exfalso. pose proof (S2 p ws E') as Hb. apply (T4 _ Hb eq_refl). cbn [addr]. unfold p. lia. }
    exists (Ptr p), s', (<[p := vs]> h). split; [cbn [run_op]; by erewrite bind_ret by exact E|]. split.
    + constructor; [unfold p; lia|rewrite Hk; unfold k; lia|]. intros q ws Hq. rewrite Hk. pose proof (S2 q ws Hq) as Hb.
      destruct (tiles_disjoint _ _ _ _ _ It X1 (proj2 (T3 (mk_block (q - 16) (Z.of_nat (length ws) + 1) false) eq_refl) (or_introl Hb))) as [Ex|[?|?]]; cbn [addr len] in *; [|unfold p, k; lia|unfold p, k; lia].
      exfalso. apply (T4 _ Hb eq_refl). by rewrite Ex.
    + exists bs'. split; [by left| | |].
      * intros q ws [[<- <-]|[Hne Hq]]%lookup_insert_Some; [|apply T3; [done|]; left; auto]. rewrite Hk. unfold p, k.
        replace (mk_block _ _ _) with x; [done|]. destruct x as [xa xl xf]. cbn [addr len isfree] in *. subst xf. f_equal; lia.
      * intros q ws i v [[<- <-]|[Hne Hq]]%lookup_insert_Some Hi; [|by eapply (untouched_vals s s' bs)].
        unfold vs in Hi. rewrite list_lookup_fmap in Hi. destruct (seq 0 k !! i) as [j|] eqn:Hj; [|done]. injection Hi as <-. by apply lookup_seq in Hj as [-> _].
      * intros y Hy Hf. destruct (proj1 (T3 y Hf) Hy) as [Hy1| ->]; [|fold p; rewrite lookup_insert_eq; eauto].
        rewrite lookup_insert_ne; [auto|]. intros Eq. apply (T4 y Hy1 Hf). unfold p in Eq. lia.
Qed.

Lemma free_shows s bs h p : shows s bs h → is_Some (h !! p) → ∃ a s' h', run_op (Free p) s = Ret a s' ∧ spec h (Free p) a h' ∧ represents s' h'.
Proof.
  intros HS [vs Hp]. pose proof HS as [S1 S2 S3 S4]. pose proof (S2 p vs Hp) as Hb. pose proof (ready_inv _ _ _ S1 Hb) as HI. pose proof HI as [It _ _ _ _ _ _].
  destruct (free_ok s bs _ HI Hb eq_refl) as (s' & bs' & E & [F1 F2 F3 F4 F5 F6]). cbn [addr len] in *. replace (p - 16 + 16) with p in E by lia.
  exists Done, s', (delete p h). split; [cbn [run_op]; by erewrite bind_ret by exact E|]. split; [constructor|]. exists bs'. split; [by left| | |].
  - intros q ws [Hne Hq]%lookup_delete_Some. apply F3; [done|]. split; [auto|]. cbn [addr]. lia.
  - intros q ws i v [Hne Hq]%lookup_delete_Some Hi. rewrite <- (S3 q ws i v Hq Hi). pose proof (S2 q ws Hq) as Hbq.
    pose proof (lookup_lt_Some _ _ _ Hi) as Hlt. apply F4.
    + destruct (tiles_disjoint _ _ _ _ _ It Hb Hbq) as [Ex|[?|?]]; cbn [addr len] in *; [injection Ex as Ex _; lia|lia|lia].
    + apply (alloc_not_ring s bs _ _ HI Hbq eq_refl). cbn [addr len]. lia.
  - intros y Hy Hf. apply F3 in Hy as [Hy Hne]; [|done]. rewrite lookup_delete_ne by lia. auto.
Qed.

Lemma access_shows s bs h p i vs : shows s bs h → h !! p = Some vs → (i < length vs)%nat → accessible s (p + 16 * Z.of_nat i) = true.
Proof.
  intros [S1 S2 S3 S4] Hp Hi. pose proof (S2 p vs Hp) as Hb. pose proof (ready_inv _ _ _ S1 Hb) as [It _ _ _ _ _ _].
  destruct (tiles_bound _ _ _ _ It Hb) as (? & ? & ?). cbn [addr len] in *. apply accessible_unit; lia.
Qed.

Lemma put_shows s bs h p i v vs : shows s bs h → h !! p = Some vs → (i < length vs)%nat →
  ∃ a s' h', run_op (Put p i v) s = Ret a s' ∧ spec h (Put p i v) a h' ∧ represents s' h'.
Proof.
  intros HS Hp Hi. pose proof HS as [S1 S2 S3 S4]. pose proof (S2 p vs Hp) as Hb. pose proof (ready_inv _ _ _ S1 Hb) as HI. pose proof HI as [It Is Ib Ir If Im Ilim].
  set (a := p + 16 * Z.of_nat i). pose proof (access_shows s bs h p i vs HS Hp Hi) as Hacc.
  assert (a ∉ base :: frees bs) as Hni by (eapply (alloc_not_ring s bs _ a HI Hb eq_refl); cbn [addr len]; unfold a; lia).
  assert (∀ x, x ∈ bs → a ≠ addr x) as Hnh.
  { intros x Hx E. destruct (tiles_bound _ _ _ _ It Hx) as (? & ? & ?). destruct (tiles_disjoint _ _ _ _ _ It Hb Hx) as [<-|[?|?]]; cbn [addr len] in *; unfold a in E; lia. }
  exists Done, (with_mem a v s), (<[p := <[i := v]> vs]> h). split.
  { cbn [run_op]. erewrite bind_ret by (unfold store; by erewrite bind_ret by (by apply load_run)). done. }
  split; [by constructor|]. exists bs. split.
  - left. split; cbn [mem freep os with_mem]; try done.
    + intros x Hx. rewrite fn_lookup_insert_ne by auto. auto.
    + rewrite fn_lookup_insert_ne by set_solver. done.
    + eapply lseg_ext, Ir. intros k Hk. unfold nx. rewrite fn_lookup_insert_ne; [done|]. by intros <-.
  - intros q ws [[<- <-]|[Hne Hq]]%lookup_insert_Some; [by rewrite length_insert|auto].
  - intros q ws j w Hq Hj. cbn [mem with_mem]. apply lookup_insert_Some in Hq as [[<- <-]|[Hne Hq]].
    + apply list_lookup_insert_Some in Hj as [(<- & -> & _)|[Hne Hj]]; [apply fn_lookup_insert|]. rewrite fn_lookup_insert_ne by (unfold a; lia). eauto.
    + pose proof (S2 q ws Hq) as Hbq. pose proof (lookup_lt_Some _ _ _ Hj) as Hlt. rewrite fn_lookup_insert_ne; [eauto|].
      destruct (tiles_disjoint _ _ _ _ _ It Hb Hbq) as [Ex|[?|?]]; cbn [addr len] in *; [injection Ex as Ex _; lia|unfold a; lia|unfold a; lia].
  - intros x Hx Hf. destruct (decide (addr x + 16 = p)) as [->|Hne]; [rewrite lookup_insert_eq; eauto|]. rewrite lookup_insert_ne by done. auto.
Qed.

Lemma op_shows s h o : represents s h → allowed h o → ∃ a s' h', run_op o s = Ret a s' ∧ spec h o a h' ∧ represents s' h'.
Proof.
  intros [bs HS] Ho. destruct o as [n|p|p i v|p i]; cbn [allowed] in Ho.
  - by eapply malloc_shows.
  - by eapply free_shows.
  - destruct Ho as (vs & Hp & Hi). by eapply put_shows.
  - destruct Ho as (vs & Hp & Hi). destruct (lookup_lt_is_Some_2 _ _ Hi) as [v Hv]. exists (Val v), s, h. split; [|split; [by econstructor|by exists bs]].
    cbn [run_op]. erewrite bind_ret by (by eapply load_run, access_shows). by rewrite (sh_vals _ _ _ HS p vs i v Hp Hv).
Qed.

(** A program chooses its next operation by the answers it has got, the last one first. *)
Section client.
Context (client : list answer → op).

Inductive trace : list answer → heap → Prop :=
| trace_nil : trace [] ∅
| trace_op l h a h' : trace l h → spec h (client l) a h' → trace (a :: l) h'.

(** It only frees and accesses what it has. *)
Definition careful : Prop := ∀ l h, trace l h → allowed h (client l).

Fixpoint run_client (k : nat) (l : list answer) : M state (list answer) :=
  match k with O => mret l | S k => a ← run_op (client l); run_client k (a :: l) end.

Lemma careful_client_ok k : careful → ∀ s l h, trace l h → represents s h →
  ∃ l' s' h', run_client k l s = Ret l' s' ∧ length l' = (length l + k)%nat ∧ trace l' h' ∧ represents s' h'.
Proof.
  intros Hc. induction k as [|k IH]; intros s l h Ht HR; cbn [run_client].
  - exists l, s, h. split_and!; [done|lia|done|done].
  - destruct (op_shows s h (client l) HR (Hc l h Ht)) as (a & s1 & h1 & E & Hs & HR1).
    destruct (IH s1 (a :: l) h1) as (l' & s' & h' & E' & Hl & Ht' & HR'); [by econstructor|done|]. exists l', s', h'. split_and!; try done.
    + by erewrite bind_ret by exact E.
    + rewrite Hl. simpl. lia.
Qed.

End client.

(** Where nothing is allocated the memory is one block. *)
Lemma one_block bs b : tiles lo bs b → merged bs → (∀ x, x ∈ bs → isfree x = true) → bs = [] ∨ ∃ n, bs = [mk_block lo n true] ∧ lo + 16 * n = b.
Proof.
  intros Ht Hm Hf. destruct bs as [|x [|y bs]]; [by left| |].
  - right. destruct x as [xa xl xf]. destruct Ht as (<- & _ & Ht). specialize (Hf _ ltac:(left)). cbn [addr len isfree] in *. subst xf. eauto.
  - exfalso. destruct Hm as [Hm _]. specialize (Hm (Hf x ltac:(set_solver)) y eq_refl). rewrite (Hf y) in Hm by set_solver. done.
Qed.

End umalloc.

#[global] Arguments state : clear implicits.

Lemma represents_start `{Sbrk W} (base lo : Z) (s : state W) : freep s = 0 → brk (os s) = lo → represents base lo s ∅.
Proof.
  intros Hf Hb. exists []. split.
  - by right.
  - intros p vs. by rewrite lookup_empty.
  - intros p vs i v. by rewrite lookup_empty.
  - intros x Hx. by apply elem_of_nil in Hx.
Qed.

(** C17. A program that uses [malloc], [free] and its own blocks, and frees or accesses
    only what it has, gets through any number of operations without a fault, and its
    answers are those of the specification: a block is large enough and apart from every
    other block and its header, and holds what was stored in it until it is freed. *)
Theorem umalloc_client `{Sbrk W} (base lo : Z) (client : list answer → op) (k : nat) (s : state W) :
  layout base lo → freep s = 0 → brk (os s) = lo → careful client →
  ∃ l s' h, run_client base lo client k [] s = Ret l s' ∧ length l = k ∧ trace client l h ∧ represents base lo s' h.
Proof.
  intros HL Hf Hb Hc. apply (careful_client_ok base lo HL client k Hc s [] ∅); [constructor|by apply represents_start].
Qed.

(** Where nothing is held the free list is [base] and one block of all the memory. *)
Lemma represents_one_block `{Sbrk W} (base lo : Z) (s : state W) : layout base lo → represents base lo s ∅ → lo < brk (os s) →
  ∃ n, inv base lo s [mk_block lo n true] ∧ lo + 16 * n = brk (os s).
Proof.
  intros HL (bs & [S1 S2 S3 S4]) Hlt. destruct S1 as [HI|(_ & _ & ?)]; [|lia]. pose proof HI as [It _ _ _ _ Im _].
  destruct (one_block base lo HL bs _ It Im) as [->|(n & -> & E)].
  - intros x Hx. destruct (isfree x) eqn:Ef; [done|]. destruct (S4 x Hx Ef) as [v Hv]. by rewrite lookup_empty in Hv.
  - simpl in It. lia.
  - eauto.
Qed.

(** C30. The allocator joins what is freed: when such a program has freed all its blocks, the
    free list consists of [base] and one block, which is all the memory that was obtained
    from the system, and a request that fits into that memory is served from it. *)
Theorem umalloc_all_free `{Sbrk W} (base lo : Z) (client : list answer → op) (k : nat) (s : state W) :
  layout base lo → freep s = 0 → brk (os s) = lo → careful client →
  ∃ l s' h, run_client base lo client k [] s = Ret l s' ∧ trace client l h ∧ (h = ∅ → lo < brk (os s') →
    ptr (mem s' base) = lo ∧ ptr (mem s' lo) = base ∧ lo + 16 * size (mem s' lo) = brk (os s') ∧
    ∀ nbytes, 0 ≤ nbytes < 2 ^ 32 → 16 * nunits nbytes ≤ brk (os s') - lo →
      ∃ p s'', malloc base lo nbytes s' = Ret p s'' ∧ lo < p).
Proof.
  intros HL Hf Hb Hc. destruct (careful_client_ok base lo HL client k Hc s [] ∅) as (l & s' & h & E & _ & Ht & HR); [constructor|by apply represents_start|].
  exists l, s', h. split_and!; [done|done|]. intros -> Hlt. destruct (represents_one_block base lo s' HL HR Hlt) as (n & HI & En).
  pose proof HI as [It Is Ib Ir If Im Ilim]. pose proof (Is (mk_block lo n true) ltac:(left)) as Hn. cbn [addr len] in Hn.
  destruct Ir as (_ & q & [= <-] & ([= E1] & q2 & [= <-] & [= E2])). split_and!; [done|done|lia|]. intros nbytes Hnb Hfit.
  destruct (malloc_ok base lo HL s' _ nbytes (or_introl HI) Hnb) as [(s'' & _ & _ & _ & Hsm & _)|(s'' & x & bs' & Em & [T1 (X1 & _) _ _ _])].
  - specialize (Hsm (mk_block lo n true) ltac:(left) eq_refl). cbn [len] in Hsm. lia.
  - exists (addr x + 16), s''. split; [done|]. pose proof T1 as [It1 _ _ _ _ _ _]. destruct (tiles_bound _ _ _ _ It1 X1) as (? & ? & ?). lia.
Qed.

(** ** An example: a system that moves the break up to an end *)

Definition move (n : Z) : M Z (option Z) := λ b, if b + n <=? 0x100000 then Ret (Some b) (b + n) else Ret None b.

Lemma move_ok n b : 0 < n → ∃ r b', move n b = Ret r b' ∧ (r = Some b ∧ b' = b + n ∧ b' ≤ 0x100000 ∨ r = None ∧ b' = b).
Proof.
  intros _. unfold move. destruct (Z.leb_spec (b + n) 0x100000); eexists _, _; (split; [done|]); [left; split_and!; [done|done|lia]|by right].
Qed.

#[local] Instance move_sbrk : Sbrk Z := {| sbrk := move; brk := λ b, b; sbrk_limit := 0x100000; sbrk_ok := move_ok |}.

Definition start : state Z := mk_state (λ _, mk_header 0 0) 0 0x3000.

Lemma demo_layout : layout 0x2000 0x3000.
Proof. split; cbn; lia. Qed.

(** A program that stores in a block it got, and frees it. *)
Definition writer (l : list answer) : op :=
  match l with
  | [Ptr p] => if p =? 0 then Malloc 8 else Put p 3 (mk_header 5 7)
  | [Done; Ptr p] => Get p 3
  | [Val _; Done; Ptr p] => Free p
  | _ => Malloc 100
  end.

Lemma writer_careful : careful writer.
Proof.
  intros l h Ht. destruct l as [|a l]; [simpl; lia|]. inversion Ht as [|? h1 ? ? T1 P1]; subst. destruct l as [|b l].
  { inversion T1; subst. inversion P1 as [|? p vs Hp Hn| | |]; subst; simpl; [lia|]. rewrite (proj2 (Z.eqb_neq p 0)) by lia.
    simpl. exists vs. rewrite lookup_insert_eq. split; [done|]. change (writer []) with (Malloc 100) in *. lia. }
  inversion T1 as [|? h2 ? ? T2 P2]; subst. destruct l as [|c l].
  { destruct a, b; simpl; try lia. inversion T2; subst. inversion P2 as [|? p' vs Hp Hn| | |]; subst; simpl in P1; [inversion P1|].
    rewrite (proj2 (Z.eqb_neq p 0)) in P1 by lia. inversion P1 as [| | |? ? ? ws Hw|]; subst. rewrite lookup_insert_eq in Hw. injection Hw as <-.
    rewrite insert_insert_eq. eexists. rewrite lookup_insert_eq. split; [done|]. rewrite length_insert. lia. }
  inversion T2 as [|? h3 ? ? T3 P3]; subst. destruct l as [|d l].
  { destruct a, b, c; simpl; try lia. inversion T3; subst. inversion P3 as [|? p' vs Hp Hn| | |]; subst; simpl in P2; [inversion P2|].
    rewrite (proj2 (Z.eqb_neq p 0)) in P2 by lia. inversion P2; subst. simpl in P1. inversion P1; subst. rewrite lookup_insert_eq. eauto. }
  destruct a, b, c; simpl; lia.
Qed.

Lemma umalloc_client_witness : ∃ l s' h, run_client 0x2000 0x3000 writer 4 [] start = Ret l s' ∧ length l = 4%nat ∧ trace writer l h ∧ represents 0x2000 0x3000 s' h.
Proof. apply umalloc_client; [apply demo_layout|reflexivity|reflexivity|apply writer_careful]. Defined.

Lemma umalloc_all_free_witness : ∃ l s' h, run_client 0x2000 0x3000 writer 4 [] start = Ret l s' ∧ trace writer l h ∧ (h = ∅ → 0x3000 < brk (os s') →
  ptr (mem s' 0x2000) = 0x3000 ∧ ptr (mem s' 0x3000) = 0x2000 ∧ 0x3000 + 16 * size (mem s' 0x3000) = brk (os s') ∧
  ∀ nbytes, 0 ≤ nbytes < 2 ^ 32 → 16 * nunits nbytes ≤ brk (os s') - 0x3000 → ∃ p s'', malloc 0x2000 0x3000 nbytes s' = Ret p s'' ∧ 0x3000 < p).
Proof. apply (umalloc_all_free 0x2000 0x3000 writer 4 start); [apply demo_layout|reflexivity|reflexivity|apply writer_careful]. Defined.

(** The block is freed at the end, and the system was asked for 4096 units. *)
Example writer_run : ∃ s', run_client 0x2000 0x3000 writer 4 [] start = Ret [Done; Val (mk_header 5 7); Done; Ptr 0x12f90] s' ∧ os s' = 0x13000 ∧ mem s' 0x3000 = mk_header 0x2000 4096.
Proof. eexists. vm_compute. done. Qed.
