(* ===== verification/Virtio.v ===== *)
(** * The queues of a virtio device (libs/libvirtio/virtio.c)

    The driver gives buffers to a device through a ring of descriptors in memory that
    both share: [virtio_to_queue] puts a chain of descriptors, or a table of its own
    for them, into the ring of available requests, and [virtio_from_queue] takes a
    finished one from the ring of used requests and makes its descriptors free again.

    The device is the other side of the rings: it may take requests and finish them at
    any time and in any order, as the virtio specification says. *)

From stdpp Require Import base gmap list numbers option.
From Stdlib Require Import Lia ZArith.
From S2P Require Import Prelude Chain.

#[local] Open Scope Z_scope.
#[local] Open Scope yaos_scope.

(** ** Data *)

Definition VRING_DESC_F_NEXT : Z := 1.
Definition VRING_DESC_F_WRITE : Z := 2.
Definition VRING_DESC_F_INDIRECT : Z := 4.
Definition VRING_USED_F_NO_NOTIFY : Z := 1.

Record vring_desc : Type := mk_desc { d_addr : Z; d_len : Z; d_flags : Z; d_next : Z }.
Record addr_size : Type := mk_as { vp_addr : Z; vp_size : Z }.

(** An array is a map from its indices. *)
Record virtio_queue : Type := mk_queue {
  num : Z;
  desc : gmap Z vring_desc;
  avail_idx : Z;
  avail_ring : gmap Z Z;
  used_flags : Z;
  used_idx : Z;
  used_ring : gmap Z (Z * Z);
  free_num : Z;
  free_head : Z;
  free_tail : Z;
  last_used : Z;
  data : gmap Z Z
}.

Record indirect_desc_table : Type := mk_table { in_use : bool; descs : gmap Z vring_desc; paddr : Z }.

(** [notified]: the values written to the notification register, the last one first. *)
Record device : Type := mk_dev {
  queues : gmap Z virtio_queue;
  num_queues : Z;
  threads : Z;
  indirect : list indirect_desc_table;
  notified : list Z
}.

Definition set_free (n h t : Z) (q : virtio_queue) : virtio_queue :=
  mk_queue (num q) (desc q) (avail_idx q) (avail_ring q) (used_flags q) (used_idx q) (used_ring q) n h t (last_used q) (data q).
Definition set_descs (ds : gmap Z vring_desc) (q : virtio_queue) : virtio_queue :=
  mk_queue (num q) ds (avail_idx q) (avail_ring q) (used_flags q) (used_idx q) (used_ring q) (free_num q) (free_head q) (free_tail q) (last_used q) (data q).
Definition set_avail (i : Z) (r : gmap Z Z) (q : virtio_queue) : virtio_queue :=
  mk_queue (num q) (desc q) i r (used_flags q) (used_idx q) (used_ring q) (free_num q) (free_head q) (free_tail q) (last_used q) (data q).
Definition set_used (i : Z) (r : gmap Z (Z * Z)) (q : virtio_queue) : virtio_queue :=
  mk_queue (num q) (desc q) (avail_idx q) (avail_ring q) (used_flags q) i r (free_num q) (free_head q) (free_tail q) (last_used q) (data q).
Definition set_last_used (i : Z) (q : virtio_queue) : virtio_queue :=
  mk_queue (num q) (desc q) (avail_idx q) (avail_ring q) (used_flags q) (used_idx q) (used_ring q) (free_num q) (free_head q) (free_tail q) i (data q).
Definition set_data (m : gmap Z Z) (q : virtio_queue) : virtio_queue :=
  mk_queue (num q) (desc q) (avail_idx q) (avail_ring q) (used_flags q) (used_idx q) (used_ring q) (free_num q) (free_head q) (free_tail q) (last_used q) m.

(** Stores to an element of an array. *)
Definition store {A} (m : gmap Z A) (i : Z) (a : A) : option (gmap Z A) :=
  match m !! i with Some _ => Some (<[i := a]> m) | None => None end.

Definition desc_at (i : Z) : M virtio_queue vring_desc := o ← gets (λ q, desc q !! i); deref o.
Definition put_desc (i : Z) (d : vring_desc) : M virtio_queue unit :=
  o ← gets (λ q, store (desc q) i d);
  m ← deref o;
  modify (set_descs m).
Definition put_avail (i v : Z) : M virtio_queue unit :=
  o ← gets (λ q, store (avail_ring q) i v);
  m ← deref o;
  modify (λ q, set_avail (avail_idx q) m q).
Definition put_data (i v : Z) : M virtio_queue unit :=
  o ← gets (λ q, store (data q) i v);
  m ← deref o;
  modify (set_data m).

Definition queue (qidx : Z) : M device virtio_queue := o ← gets (λ d, queues d !! qidx); deref o.
Definition set_queue (qidx : Z) (q : virtio_queue) (d : device) : device :=
  mk_dev (<[qidx := q]> (queues d)) (num_queues d) (threads d) (indirect d) (notified d).
Definition set_indirect (ts : list indirect_desc_table) (d : device) : device :=
  mk_dev (queues d) (num_queues d) (threads d) ts (notified d).

(** An operation on [dev->queues[qidx]]. *)
Definition on_queue {A} (qidx : Z) (m : M virtio_queue A) : M device A :=
  q ← queue qidx;
  zoom (λ _, q) (set_queue qidx) m.

Definition has (flag : Z) (d : vring_desc) : bool := negb (d_flags d .& flag =? 0).

(** ** Giving a request to the device *)

Definition use_vring_desc (vd : vring_desc) (vp : addr_size) : vring_desc :=
  mk_desc (vp_addr vp .& Z.lnot 1) (u32 (vp_size vp))
    (if vp_addr vp .& 1 =? 0 then VRING_DESC_F_NEXT else VRING_DESC_F_NEXT .| VRING_DESC_F_WRITE) (d_next vd).

Definition set_flags (f : Z) (d : vring_desc) : vring_desc := mk_desc (d_addr d) (d_len d) f (d_next d).
Definition set_next (n : Z) (d : vring_desc) : vring_desc := mk_desc (d_addr d) (d_len d) (d_flags d) n.

(** The descriptor that was written last, and the next free one. *)
Fixpoint direct_loop (bufs : list addr_size) (vd : option Z) (i : Z) : M virtio_queue (option Z * Z) :=
  match bufs with
  | [] => mret (vd, i)
  | b :: bufs =>
      d ← desc_at i;
      ASSERT (has VRING_DESC_F_NEXT d) ;;
      put_desc i (use_vring_desc d b) ;;
      direct_loop bufs (Some i) (d_next d)
  end.

Definition set_direct_descriptors (bufs : list addr_size) : M virtio_queue unit :=
  h ← gets free_head;
  '(vd, i) ← direct_loop bufs None h;
  match vd with
  | None => λ _, AssertFailed
  | Some vd =>
      d ← desc_at vd;
      put_desc vd (set_flags (d_flags d .& Z.lnot VRING_DESC_F_NEXT) d) ;;
      modify (λ q, set_free (u16 (free_num q - Z.of_nat (length bufs))) i (free_tail q) q)
  end.

(** The first table that is not in use. *)
Fixpoint find_table (f : indirect_desc_table → bool) (i : nat) (ts : list indirect_desc_table) : option nat :=
  match ts with [] => None | t :: ts => if f t then Some i else find_table f (S i) ts end.

(** The table is filled from left to right. *)
Fixpoint indirect_loop (bufs : list addr_size) (i : Z) (ds : gmap Z vring_desc) : option (gmap Z vring_desc) :=
  match bufs with
  | [] => Some ds
  | b :: bufs =>
      ivd ← ds !! i;
      indirect_loop bufs (i + 1) (<[i := set_next (u16 (i + 1)) (use_vring_desc ivd b)]> ds)
  end.

Definition set_indirect_descriptors (qidx : Z) (bufs : list addr_size) : M device unit :=
  ts ← gets indirect;
  match find_table (λ t, negb (in_use t)) 0 ts with
  | None => panic
  | Some i =>
      t ← deref (ts !! i);
      q ← queue qidx;
      on_queue qidx (vd ← desc_at (free_head q);
                     put_desc (free_head q)
                       (mk_desc (paddr t) (u32 (Z.of_nat (length bufs) * 16)) VRING_DESC_F_INDIRECT (d_next vd))) ;;
      ds ← deref (indirect_loop bufs 0 (descs t));
      ASSERT (negb (bool_decide (bufs = []))) ;;
      let k := Z.of_nat (length bufs) - 1 in
      ivd ← deref (ds !! k);
      modify (set_indirect (<[i := mk_table true (<[k := set_flags (d_flags ivd .& Z.lnot VRING_DESC_F_NEXT) ivd]> ds) (paddr t)]> ts)) ;;
      on_queue qidx (vd ← desc_at (free_head q);
                     modify (λ q, set_free (u16 (free_num q - 1)) (d_next vd) (free_tail q) q))
  end.

Definition wants_kick (q : virtio_queue) : bool := used_flags q .& VRING_USED_F_NO_NOTIFY =? 0.

Definition kick_queue (qidx : Z) : M device unit :=
  n ← gets num_queues;
  ASSERT ((0 <=? qidx) && (qidx <? n)) ;;
  q ← queue qidx;
  if wants_kick q then modify (λ d, mk_dev (queues d) (num_queues d) (threads d) (indirect d) (qidx :: notified d)) else mret tt.

Definition virtio_to_queue (qidx : Z) (bufs : list addr_size) (dt : Z) : M device Z :=
  n ← gets num_queues;
  ASSERT ((0 <=? qidx) && (qidx <=? n)) ;;
  if dt =? 0 then panic else
  q ← queue qidx;
  let free_first := free_head q in
  let left := free_num q - Z.of_nat (length bufs) in
  th ← gets threads;
  (if left <? th then set_indirect_descriptors qidx bufs else on_queue qidx (set_direct_descriptors bufs)) ;;
  on_queue qidx (q ← gets (λ q, q); put_avail (avail_idx q mod num q) free_first) ;;
  on_queue qidx (put_data free_first dt) ;;
  on_queue qidx (modify (λ q, set_avail (u16 (avail_idx q + 1)) (avail_ring q) q)) ;;
  kick_queue qidx ;;
  mret 0.

(** ** Taking a finished request *)

Definition clear_indirect_table (qidx vd : Z) : M device unit :=
  d ← on_queue qidx (desc_at vd);
  ASSERT (0 <? d_len d) ;;
  ASSERT (has VRING_DESC_F_INDIRECT d) ;;
  on_queue qidx (put_desc vd (mk_desc (d_addr d) 0 (d_flags d .& Z.lnot VRING_DESC_F_INDIRECT) (d_next d))) ;;
  ts ← gets indirect;
  match find_table (λ t, paddr t =? d_addr d) 0 ts with
  | None => panic
  | Some i =>
      t ← deref (ts !! i);
      ASSERT (in_use t) ;;
      modify (set_indirect (<[i := mk_table false (descs t) (paddr t)]> ts))
  end.

(** The loop of [virtio_from_queue]: the last descriptor of the chain, and how many are
    before it. *)
Fixpoint chain_loop (fuel : nat) (qidx idx count : Z) : M device (Z * Z) :=
  vd ← on_queue qidx (desc_at idx);
  if has VRING_DESC_F_NEXT vd then
    match fuel with
    | O => out_of_fuel
    | S fuel =>
        (if has VRING_DESC_F_INDIRECT vd then clear_indirect_table qidx idx else mret tt) ;;
        chain_loop fuel qidx (d_next vd) (count + 1)
    end
  else mret (idx, count).

(** What is done when the last descriptor [idx] of the chain is known: it becomes the tail
    of the free list, which is linked to its head. *)
Definition free_chain (qidx idx count : Z) : M device unit :=
  q ← queue qidx;
  vd ← on_queue qidx (desc_at idx);
  ASSERT (negb (has VRING_DESC_F_NEXT vd)) ;;
  on_queue qidx (put_desc idx (mk_desc (d_addr vd) (d_len vd) VRING_DESC_F_NEXT (free_head q))) ;;
  on_queue qidx (modify (λ q, set_free (u16 (free_num q + count)) (free_head q) idx q)) ;;
  q ← queue qidx;
  ASSERT (free_num q <=? num q).

(** The chain of the used element, from the descriptor [idx] on. *)
Definition recycle (qidx idx : Z) (uel : Z * Z) : M device (option (Z * Z)) :=
  q ← queue qidx;
  '(idx, count) ← chain_loop (Z.to_nat (num q)) qidx idx 0;
  vd ← on_queue qidx (desc_at idx);
  (if has VRING_DESC_F_INDIRECT vd then clear_indirect_table qidx idx else mret tt) ;;
  free_chain qidx idx (count + 1) ;;
  q ← queue qidx;
  dt ← deref (data q !! fst uel);
  on_queue qidx (put_data (fst uel) 0) ;;
  mret (Some (dt, snd uel)).

(** [None] is the result -1. *)
Definition virtio_from_queue (qidx : Z) : M device (option (Z * Z)) :=
  n ← gets num_queues;
  ASSERT ((0 <=? qidx) && (qidx <? n)) ;;
  q ← queue qidx;
  if last_used q =? used_idx q mod num q then mret None else
  uel ← deref (used_ring q !! last_used q);
  on_queue qidx (modify (set_last_used ((last_used q + 1) mod num q))) ;;
  let idx := fst uel mod num q in
  dt ← deref (data q !! idx);
  ASSERT (negb (dt =? 0)) ;;
  tl ← on_queue qidx (desc_at (free_tail q));
  ASSERT (has VRING_DESC_F_NEXT tl) ;;
  on_queue qidx (put_desc (free_tail q) (set_next idx tl)) ;;
  recycle qidx idx uel.

(** ** What the device reads *)

(** A buffer as the device sees it: its address, its length, whether it is written. *)
Definition view (b : addr_size) : Z * Z * bool := (vp_addr b .& Z.lnot 1, u32 (vp_size b), negb (vp_addr b .& 1 =? 0)).
Definition sees (d : vring_desc) : Z * Z * bool := (d_addr d, d_len d, has VRING_DESC_F_WRITE d).

(** The chain of descriptors from [i]. *)
Fixpoint read_chain (fuel : nat) (ds : gmap Z vring_desc) (i : Z) : option (list (Z * Z * bool)) :=
  match fuel with
  | O => None
  | S fuel =>
      d ← ds !! i;
      if has VRING_DESC_F_NEXT d then l ← read_chain fuel ds (d_next d); Some (sees d :: l) else Some [sees d]
  end.

(** A request: a chain, or a table at the address in its descriptor. *)
Definition read_request (ts : list indirect_desc_table) (q : virtio_queue) (h : Z) : option (list (Z * Z * bool)) :=
  d ← desc q !! h;
  if has VRING_DESC_F_INDIRECT d then
    i ← find_table (λ t, paddr t =? d_addr d) 0 ts;
    t ← ts !! i;
    read_chain (Z.to_nat (d_len d / 16)) (descs t) 0
  else read_chain (Z.to_nat (num q)) (desc q) h.

(** ** The state of a queue *)

(** A request: its buffers, the driver's pointer, its descriptors and its table. *)
Record request : Type := mk_request { r_bufs : list addr_size; r_data : Z; r_descs : list Z; r_table : option nat }.

(** The descriptors [ds] hold the buffers [bs], in a chain. *)
Fixpoint holds (m : gmap Z vring_desc) (ds : list Z) (bs : list addr_size) : Prop :=
  match ds, bs with
  | d :: ds, b :: bs =>
      ∃ x, m !! d = Some x ∧ sees x = view b ∧ has VRING_DESC_F_INDIRECT x = false ∧
        match ds with
        | [] => has VRING_DESC_F_NEXT x = false ∧ bs = []
        | d' :: _ => has VRING_DESC_F_NEXT x = true ∧ d_next x = d' ∧ holds m ds bs
        end
  | _, _ => False
  end.

Definition request_ok (ts : list indirect_desc_table) (m : gmap Z vring_desc) (r : request) : Prop :=
  match r_table r with
  | None => holds m (r_descs r) (r_bufs r)
  | Some i =>
      ∃ h t d, r_descs r = [h] ∧ ts !! i = Some t ∧ in_use t = true ∧ m !! h = Some d ∧ d_addr d = paddr t ∧
        d_flags d = VRING_DESC_F_INDIRECT ∧ d_len d = 16 * Z.of_nat (length (r_bufs r)) ∧
        holds (descs t) (seqZ 0 (Z.of_nat (length (r_bufs r)))) (r_bufs r) ∧ (0 < length (r_bufs r))%nat
  end.

Definition all_descs (R : gmap Z request) : list Z := concat ((λ p, r_descs (snd p)) <$> map_to_list R).

Definition nx (m : gmap Z vring_desc) (i : Z) : option (option Z) :=
  d ← m !! i; if has VRING_DESC_F_NEXT d then Some (Some (d_next d)) else None.

(** What the device has: its place in the ring of available requests, and the requests
    it has taken and not finished. *)
Record host : Type := mk_host { h_idx : Z; h_taken : list Z }.

(** [P] are the requests the device has not taken, [C] those it has finished, with the
    length it has written; [fr] are the free descriptors. *)
Record queue_ok (ts : list indirect_desc_table) (q : virtio_queue) (e : host) (R : gmap Z request) (P : list Z) (C : list (Z * Z)) (fr : list Z) : Prop := {
  qo_num : 0 < num q < 2 ^ 16 ∧ (num q | 2 ^ 16);
  qo_free : ∃ x, lseg (nx (desc q)) (Some (free_head q)) fr x;
  qo_tail : list.last fr = Some (free_tail q);
  qo_count : free_num q = Z.of_nat (length fr);
  qo_descs : fr ++ all_descs R ≡ₚ seqZ 0 (num q);
  qo_dom : ∀ i, 0 ≤ i < num q → is_Some (desc q !! i) ∧ is_Some (data q !! i) ∧ is_Some (avail_ring q !! i) ∧ is_Some (used_ring q !! i);
  qo_req : ∀ h r, R !! h = Some r → head (r_descs r) = Some h ∧ data q !! h = Some (r_data r) ∧ r_data r ≠ 0 ∧ request_ok ts (desc q) r;
  qo_part : P ++ h_taken e ++ C.*1 ≡ₚ (map_to_list R).*1;
  qo_avail : 0 ≤ h_idx e < 2 ^ 16 ∧ avail_idx q = (h_idx e + Z.of_nat (length P)) mod 2 ^ 16 ∧
    ∀ j h, P !! j = Some h → avail_ring q !! ((h_idx e + Z.of_nat j) mod num q) = Some h;
  qo_used : 0 ≤ last_used q < num q ∧ 0 ≤ used_idx q < 2 ^ 16 ∧ used_idx q mod num q = (last_used q + Z.of_nat (length C)) mod num q ∧
    ∀ j c, C !! j = Some c → used_ring q !! ((last_used q + Z.of_nat j) mod num q) = Some c
}.

(** ** Facts on chains *)

Lemma sees_use x b : sees (use_vring_desc x b) = view b ∧ has VRING_DESC_F_INDIRECT (use_vring_desc x b) = false ∧
  has VRING_DESC_F_NEXT (use_vring_desc x b) = true.
Proof. unfold sees, view, use_vring_desc, has. cbn [d_addr d_len d_flags]. by destruct (vp_addr b .& 1 =? 0). Qed.

(** The last descriptor of a chain. *)
Definition use_last (x : vring_desc) (b : addr_size) : vring_desc :=
  set_flags (d_flags (use_vring_desc x b) .& Z.lnot VRING_DESC_F_NEXT) (use_vring_desc x b).

Lemma sees_last x b : sees (use_last x b) = view b ∧ has VRING_DESC_F_INDIRECT (use_last x b) = false ∧ has VRING_DESC_F_NEXT (use_last x b) = false.
Proof. unfold sees, view, use_last, use_vring_desc, set_flags, has. cbn [d_addr d_len d_flags]. by destruct (vp_addr b .& 1 =? 0). Qed.

Lemma holds_ext m m' ds bs : holds m ds bs → (∀ d, d ∈ ds → m' !! d = m !! d) → holds m' ds bs.
Proof.
  revert bs. induction ds as [|d ds IH]; intros [|b bs]; [done..|]. cbn [holds]. intros (x & Hx & Hs & Hi & Hn) Hm. exists x.
  rewrite Hm by left. split_and!; [done..|]. destruct ds as [|d' ds]; [done|]. destruct Hn as (? & ? & ?). split_and!; [done..|]. apply IH; [done|]. set_solver.
Qed.

Lemma holds_lookup m ds bs d : holds m ds bs → d ∈ ds → is_Some (m !! d).
Proof.
  revert bs. induction ds as [|c ds IH]; intros [|b bs]; [by intros _ ?%elem_of_nil|by intros _ ?%elem_of_nil|done|].
  cbn [holds]. intros (x & Hx & _ & _ & Hn) [->|Hd]%elem_of_cons; [eauto|]. destruct ds as [|c' ds]; [by apply elem_of_nil in Hd|].
  destruct Hn as (_ & _ & Hn). by eapply IH.
Qed.

Lemma holds_length m ds bs : holds m ds bs → length ds = length bs ∧ (0 < length ds)%nat.
Proof.
  revert bs. induction ds as [|d ds IH]; intros [|b bs]; [done..|]. cbn [holds length]. intros (x & _ & _ & _ & Hn).
  destruct ds as [|d' ds]; [destruct Hn as [_ ->]; split; [done|lia]|]. destruct Hn as (_ & _ & [? ?]%IH). lia.
Qed.

Lemma holds_read m ds bs fuel h : holds m ds bs → head ds = Some h → (length ds ≤ fuel)%nat → read_chain fuel m h = Some (view <$> bs).
Proof.
  revert bs fuel h. induction ds as [|d ds IH]; intros [|b bs] fuel h; [done..|]. cbn [holds head length]. intros (x & Hx & Hs & _ & Hn) [= <-] Hf.
  destruct fuel as [|fuel]; [lia|]. cbn [read_chain]. rewrite Hx. cbn [mbind option_bind]. destruct ds as [|d' ds].
  - destruct Hn as [-> ->]. by rewrite Hs.
  - destruct Hn as (-> & -> & Hn). rewrite (IH bs fuel d' Hn eq_refl) by lia. cbn. by rewrite Hs.
Qed.

(** The chain is filled: every descriptor but the last is linked to the next. *)
Lemma holds_intro m ds bs : length ds = length bs → (0 < length ds)%nat →
  (∀ k d b, ds !! k = Some d → bs !! k = Some b → ∃ x, m !! d = Some (if (S k =? length ds)%nat then use_last x b else use_vring_desc x b) ∧
     ∀ d', ds !! S k = Some d' → d_next x = d') →
  holds m ds bs.
Proof.
  revert bs. induction ds as [|d ds IH]; intros [|b bs] Hl Hp Hk; [simpl in *; lia..|]. cbn [holds]. destruct (Hk 0%nat d b eq_refl eq_refl) as (x & Hx & Hn).
  destruct ds as [|d' ds].
  - simpl in Hx. exists (use_last x b). pose proof (sees_last x b) as (? & ? & ?). split_and!; try done. by destruct bs.
  - change (1 =? length (d :: d' :: ds))%nat with false in Hx. exists (use_vring_desc x b). pose proof (sees_use x b) as (? & ? & ?). split_and!; try done.
    + by apply Hn.
    + apply IH; [simpl in *; lia|simpl; lia|]. intros k e c He Hc. apply (Hk (S k) e c He Hc).
Qed.

(** ** Direct descriptors *)

Lemma desc_at_run q i d : desc q !! i = Some d → desc_at i q = Ret d q.
Proof. intros E. unfold desc_at. erewrite bind_ret by reflexivity. by rewrite E. Qed.

Lemma put_desc_run q i d : is_Some (desc q !! i) → put_desc i d q = Ret tt (set_descs (<[i := d]> (desc q)) q).
Proof. intros [x E]. unfold put_desc, store. erewrite bind_ret by reflexivity. rewrite E. by erewrite bind_ret by reflexivity. Qed.

Lemma nx_Some m i p : nx m i = Some p → ∃ d, m !! i = Some d ∧ has VRING_DESC_F_NEXT d = true ∧ p = Some (d_next d).
Proof. unfold nx. destruct (m !! i) as [d|]; [|done]. cbn. destruct (has VRING_DESC_F_NEXT d) eqn:E; [|done]. intros [= <-]. eauto. Qed.

Lemma set_descs_id q : set_descs (desc q) q = q.
Proof. by destruct q. Qed.

Lemma direct_loop_run bufs : ∀ ds q vd i j, lseg (nx (desc q)) (Some i) ds (Some j) → NoDup ds → length ds = length bufs →
  ∃ m, direct_loop bufs vd i q = Ret (match list.last ds with Some d => Some d | None => vd end, j) (set_descs m q) ∧
    (∀ a, a ∉ ds → m !! a = desc q !! a) ∧
    (∀ k d b, ds !! k = Some d → bufs !! k = Some b → ∃ x, desc q !! d = Some x ∧ m !! d = Some (use_vring_desc x b)).
Proof.
  induction bufs as [|b bufs IH]; intros [|d ds] q vd i j Hs Hnd Hl; try (simpl in Hl; lia).
  - injection Hs as ->. exists (desc q). rewrite set_descs_id. split_and!; [done|done|]. by intros k d b.
  - destruct Hs as ([= ->] & p & (x & Hx & Hf & ->)%nx_Some & Hs). apply list.NoDup_cons in Hnd as [Hni Hnd].
    set (q1 := set_descs (<[d := use_vring_desc x b]> (desc q)) q).
    assert (lseg (nx (desc q1)) (Some (d_next x)) ds (Some j)) as Hs1.
    { eapply lseg_ext, Hs. intros k Hk. unfold nx. cbn [desc q1 set_descs]. by rewrite lookup_insert_ne by (by intros ->). }
    destruct (IH ds q1 (Some d) (d_next x) j Hs1 Hnd ltac:(simpl in Hl; lia)) as (m & E & M1 & M2). exists m. split_and!.
    + cbn [direct_loop]. erewrite bind_ret by (by apply desc_at_run). rewrite Hf. erewrite bind_ret by reflexivity.
      erewrite bind_ret by (apply put_desc_run; eauto). fold q1. rewrite E. do 2 f_equal. destruct ds as [|e ds]; [done|]. rewrite !last_cons. by destruct (list.last ds).
    + intros a Ha. rewrite M1 by set_solver. cbn. by rewrite lookup_insert_ne by set_solver.
    + intros [|k] e c He Hc; simpl in He, Hc; simplify_eq.
      * exists x. split; [done|]. rewrite M1 by done. cbn. by rewrite lookup_insert_eq.
      * destruct (M2 k e c He Hc) as (y & Hy & Hm). exists y. split; [|done]. cbn in Hy. rewrite lookup_insert_ne in Hy; [done|].
        intros ->. apply Hni. by eapply list_elem_of_lookup_2.
Qed.

Lemma lseg_next {K} (f : K → option (option K)) p ks q k a b : lseg f p ks q → ks !! k = Some a → ks !! S k = Some b → f a = Some (Some b).
Proof.
  revert p k. induction ks as [|c ks IH]; intros p k; [done|]. intros (-> & r & Hr & Hs) Ha Hb. destruct k as [|k]; [|by eapply IH].
  simpl in Ha, Hb. simplify_eq. destruct ks; simpl in Hb; simplify_eq. destruct Hs as (-> & _). done.
Qed.

Lemma set_direct_run q bufs ds f fr x : lseg (nx (desc q)) (Some (free_head q)) (ds ++ f :: fr) x → NoDup ds → length ds = length bufs → (0 < length bufs)%nat →
  ∃ m, set_direct_descriptors bufs q = Ret tt (set_free (u16 (free_num q - Z.of_nat (length bufs))) f (free_tail q) (set_descs m q)) ∧
    holds m ds bufs ∧ ∀ a, a ∉ ds → m !! a = desc q !! a.
Proof.
  intros Hs Hnd Hl Hp. apply lseg_app in Hs as (y & Hs & Hf). destruct Hf as (-> & _).
  destruct (direct_loop_run bufs ds q None _ _ Hs Hnd Hl) as (m & E & M1 & M2).
  destruct ds as [|z ds0 _] using rev_ind; [simpl in Hl; lia|]. rewrite last_snoc in E.
  destruct bufs as [|b bufs0 _] using rev_ind; [simpl in Hp; lia|]. rewrite !length_app in Hl. simpl in Hl.
  destruct (M2 (length ds0) z b) as (w & Hw & Hm); [by rewrite lookup_app_r, Nat.sub_diag by lia|rewrite lookup_app_r by lia; by replace (length ds0 - length bufs0)%nat with 0%nat by lia|].
  exists (<[z := use_last w b]> m). split_and!.
  - unfold set_direct_descriptors. erewrite bind_ret by reflexivity. erewrite bind_ret by exact E. cbn beta iota.
    erewrite bind_ret by (by apply desc_at_run). by erewrite bind_ret by (apply put_desc_run; cbn; eauto).
  - apply list.NoDup_app in Hnd as (_ & Hd & _). apply holds_intro; [rewrite !length_app; simpl; lia|rewrite length_app; simpl; lia|].
    intros k d c Hk Hc. destruct (M2 k d c Hk Hc) as (v & Hv & Hmv). exists v. split.
    + pose proof (lookup_lt_Some _ _ _ Hk) as Hlt. rewrite length_app in *. cbn [length] in *. destruct (Nat.eqb_spec (S k) (length ds0 + 1)) as [Ek|Ek].
      * assert (k = length ds0) as -> by lia. rewrite lookup_app_r, Nat.sub_diag in Hk by lia. injection Hk as <-.
        rewrite lookup_app_r in Hc by lia. replace (length ds0 - length bufs0)%nat with 0%nat in Hc by lia. injection Hc as <-.
        rewrite lookup_insert_eq. assert (v = w) as -> by congruence. done.
      * rewrite lookup_app_l in Hk by lia. rewrite lookup_insert_ne; [done|]. intros ->. apply (Hd d); [by eapply list_elem_of_lookup_2|left].
    + intros d' Hd'. pose proof (lseg_next _ _ _ _ _ _ _ Hs Hk Hd') as (v' & Hv' & _ & [= ->])%nx_Some. congruence.
  - intros a Ha. rewrite lookup_insert_ne by set_solver. auto.
Qed.

(** ** Indirect descriptors *)

Lemma find_table_Some f i ts k : find_table f i ts = Some k → (i ≤ k)%nat ∧ ∃ t, ts !! (k - i)%nat = Some t ∧ f t = true.
Proof.
  revert i. induction ts as [|t ts IH]; intros i; [done|]. cbn [find_table]. destruct (f t) eqn:E.
  - intros [= <-]. split; [lia|]. rewrite Nat.sub_diag. eauto.
  - intros (H1 & t' & H2 & H3)%IH. split; [lia|]. exists t'. by replace (k - i)%nat with (S (k - S i)) by lia.
Qed.

Lemma find_table_in f ts k t : (∀ j u, ts !! j = Some u → f u = true → j = k) → ts !! k = Some t → f t = true → find_table f 0 ts = Some k.
Proof.
  intros Hu Hk Hf. destruct (find_table f 0 ts) as [j|] eqn:E.
  - apply find_table_Some in E as (_ & u & Hj & Hfu). rewrite Nat.sub_0_r in Hj. f_equal. eauto.
  - exfalso. clear Hu. revert k Hk E. generalize 0%nat as i. induction ts as [|u ts IH]; intros i k Hk E; [done|]. cbn [find_table] in E.
    destruct (f u) eqn:Efu; [done|]. destruct k as [|k]; simpl in Hk; simplify_eq; [congruence|]. by eapply IH.
Qed.

Lemma indirect_loop_run bufs : ∀ i ds, 0 ≤ i → i + Z.of_nat (length bufs) < 2 ^ 16 → (∀ k, i ≤ k < i + Z.of_nat (length bufs) → is_Some (ds !! k)) →
  ∃ m, indirect_loop bufs i ds = Some m ∧ (∀ k, k < i → m !! k = ds !! k) ∧ (∀ k, is_Some (ds !! k) → is_Some (m !! k)) ∧
    (∀ j b, bufs !! j = Some b → ∃ x, m !! (i + Z.of_nat j) = Some (use_vring_desc x b) ∧ d_next x = i + Z.of_nat j + 1).
Proof.
  induction bufs as [|b bufs IH]; intros i ds Hi Hlt Hd; cbn [indirect_loop]; [by exists ds|]. cbn [length] in *.
  destruct (Hd i) as [x Hx]; [lia|]. rewrite Hx. cbn [mbind option_bind].
  destruct (IH (i + 1) (<[i := set_next (u16 (i + 1)) (use_vring_desc x b)]> ds)) as (m & E & M1 & M3 & M2); [lia|lia| |].
  { intros k Hk. rewrite lookup_insert_ne by lia. apply Hd. lia. }
  exists m. split_and!; [done| | |].
  - intros k Hk. rewrite M1 by lia. by rewrite lookup_insert_ne by lia.
  - intros k Hk. apply M3. destruct (decide (k = i)) as [->|]; [rewrite lookup_insert_eq; eauto|by rewrite lookup_insert_ne].
  - intros [|j] c Hc; simpl in Hc; simplify_eq.
    + exists (set_next (i + 1) x). rewrite Z.add_0_r. split; [|done]. rewrite M1 by lia. rewrite lookup_insert_eq.
      unfold u16. rewrite wrap_id by (unfold in_u; lia). done.
    + destruct (M2 j c Hc) as (y & Hy & Hn). exists y. replace (i + Z.of_nat (S j)) with (i + 1 + Z.of_nat j) by lia. done.
Qed.

Lemma queue_run d qidx q : queues d !! qidx = Some q → queue qidx d = Ret q d.
Proof. intros E. unfold queue. erewrite bind_ret by reflexivity. by rewrite E. Qed.

Lemma on_queue_run {A} d qidx q (m : M virtio_queue A) a q' : queues d !! qidx = Some q → m q = Ret a q' → on_queue qidx m d = Ret a (set_queue qidx q' d).
Proof. intros E Em. unfold on_queue. erewrite bind_ret by (by apply queue_run). by apply zoom_ret. Qed.

Lemma on_queue_read {A} d qidx q (m : M virtio_queue A) a : queues d !! qidx = Some q → m q = Ret a q → on_queue qidx m d = Ret a d.
Proof. intros E Em. rewrite (on_queue_run d qidx q m a q E Em). f_equal. unfold set_queue. rewrite insert_id by done. by destruct d. Qed.

Definition table_ok (t : indirect_desc_table) : Prop := ∀ k, 0 ≤ k < 256 → is_Some (descs t !! k).

Lemma table_filled bufs t : table_ok t → (0 < length bufs ≤ 256)%nat → ∃ m ivd, indirect_loop bufs 0 (descs t) = Some m ∧
  m !! (Z.of_nat (length bufs) - 1) = Some ivd ∧
  let m' := <[Z.of_nat (length bufs) - 1 := set_flags (d_flags ivd .& Z.lnot VRING_DESC_F_NEXT) ivd]> m in
  holds m' (seqZ 0 (Z.of_nat (length bufs))) bufs ∧ table_ok (mk_table true m' (paddr t)).
Proof.
  intros Ht Hl. destruct (indirect_loop_run bufs 0 (descs t)) as (m & E & _ & M3 & M2); [lia|lia|intros; apply Ht; lia|].
  set (n := Z.of_nat (length bufs)). destruct (lookup_lt_is_Some_2 bufs (length bufs - 1)) as [b Hb]; [lia|].
  destruct (M2 _ _ Hb) as (x & Hx & _). replace (0 + Z.of_nat (length bufs - 1)) with (n - 1) in Hx by lia.
  exists m, (use_vring_desc x b). split_and!; [done|done|]. fold n. cbn zeta. split.
  - apply holds_intro; [rewrite length_seqZ; lia|rewrite length_seqZ; lia|]. intros k d c Hd Hc. apply lookup_seqZ in Hd as [-> Hk].
    rewrite length_seqZ. destruct (M2 k c Hc) as (y & Hy & Hn). rewrite Z.add_0_l in *. exists y. split.
    + destruct (Nat.eqb_spec (S k) (Z.to_nat n)) as [Ek|Ek].
      * assert (n - 1 = Z.of_nat k) as En by lia. rewrite En, lookup_insert_eq. rewrite En, Hy in Hx. assert (c = b) as -> by (replace k with (length bufs - 1)%nat in Hc by lia; congruence).
        f_equal. unfold use_last. assert (use_vring_desc y b = use_vring_desc x b) as -> by congruence. done.
      * by rewrite lookup_insert_ne by lia.
    + intros d' [-> _]%lookup_seqZ. lia.
  - intros k Hk. cbn [descs]. destruct (decide (k = n - 1)) as [->|]; [rewrite lookup_insert_eq; eauto|rewrite lookup_insert_ne by done]. apply M3, Ht. lia.
Qed.

Lemma set_indirect_run d qidx q bufs h f i t x : queues d !! qidx = Some q → free_head q = h → desc q !! h = Some x → d_next x = f →
  find_table (λ t, negb (in_use t)) 0 (indirect d) = Some i → indirect d !! i = Some t → table_ok t → (0 < length bufs ≤ 256)%nat →
  ∃ m, let q' := set_free (u16 (free_num q - 1)) f (free_tail q)
         (set_descs (<[h := mk_desc (paddr t) (16 * Z.of_nat (length bufs)) VRING_DESC_F_INDIRECT f]> (desc q)) q) in
    set_indirect_descriptors qidx bufs d = Ret tt (set_queue qidx q' (set_indirect (<[i := mk_table true m (paddr t)]> (indirect d)) d)) ∧
    holds m (seqZ 0 (Z.of_nat (length bufs))) bufs ∧ table_ok (mk_table true m (paddr t)).
Proof.
  intros Eq Eh Ex Ef Efi Et Ht Hl. destruct (table_filled bufs t Ht Hl) as (m & ivd & Em & Ev & Hh & Hok). eexists. split_and!; [|exact Hh|exact Hok].
  unfold set_indirect_descriptors. erewrite bind_ret by reflexivity. rewrite Efi. erewrite bind_ret by (by rewrite Et).
  erewrite bind_ret by (by apply queue_run). rewrite Eh. erewrite bind_ret.
  2:{ eapply on_queue_run; [done|]. erewrite bind_ret by (by apply desc_at_run). apply put_desc_run. eauto. }
  rewrite Em. erewrite bind_ret by reflexivity. rewrite bool_decide_false by (intros ->; simpl in Hl; lia).
  erewrite bind_ret by reflexivity. rewrite Ev. erewrite bind_ret by reflexivity. erewrite bind_ret by reflexivity.
  rewrite (Z.mul_comm _ 16). unfold u32 at 1. rewrite wrap_id by (unfold in_u; lia). rewrite Ef.
  erewrite on_queue_run; [|cbn; by rewrite lookup_insert_eq|by erewrite bind_ret by (apply desc_at_run; cbn; by rewrite lookup_insert_eq)].
  unfold set_queue, set_indirect. cbn. by rewrite insert_insert_eq.
Qed.

(** ** Counting *)

Lemma all_descs_insert R h r : R !! h = None → all_descs (<[h := r]> R) ≡ₚ r_descs r ++ all_descs R.
Proof. intros E. unfold all_descs. by rewrite (map_to_list_insert R h r E). Qed.

Lemma all_descs_delete R h r : R !! h = Some r → all_descs R ≡ₚ r_descs r ++ all_descs (delete h R).
Proof. intros E. rewrite <- (insert_delete_id R h r E) at 1. apply all_descs_insert, lookup_delete_eq. Qed.

Lemma all_descs_elem R d : d ∈ all_descs R ↔ ∃ h r, R !! h = Some r ∧ d ∈ r_descs r.
Proof.
  unfold all_descs. rewrite list_elem_of_In, List.in_concat. setoid_rewrite <- list_elem_of_In. split.
  - intros (l & ([h r] & -> & Hr%elem_of_map_to_list)%list_elem_of_fmap & Hd). eauto.
  - intros (h & r & Hr & Hd). exists (r_descs r). split; [|done]. apply list_elem_of_fmap. exists (h, r). split; [done|]. by apply elem_of_map_to_list.
Qed.

Lemma concat_length (l : list (Z * request)) : (∀ p, p ∈ l → (0 < length (r_descs (snd p)))%nat) → (length l ≤ length (concat ((λ p, r_descs (snd p)) <$> l)))%nat.
Proof.
  induction l as [|p l IH]; intros H; [done|]. cbn [fmap list_fmap concat length]. rewrite length_app. specialize (H p ltac:(left)) as Hp.
  assert (length l ≤ length (concat ((λ p, r_descs (snd p)) <$> l)))%nat by (apply IH; set_solver). lia.
Qed.

Section counts.
Context (ts : list indirect_desc_table) (q : virtio_queue) (e : host) (R : gmap Z request) (P : list Z) (C : list (Z * Z)) (fr : list Z).
Context (HQ : queue_ok ts q e R P C fr).

Lemma counts : Z.of_nat (length fr) + Z.of_nat (length P) + Z.of_nat (length (h_taken e)) + Z.of_nat (length C) ≤ num q.
Proof.
  destruct HQ as [[Hn _] _ _ _ Hd _ Hr Hp _ _]. apply Permutation_length in Hd, Hp. rewrite !length_app, ?length_fmap in *. rewrite length_seqZ in Hd.
  assert (length (map_to_list R) ≤ length (all_descs R))%nat; [|lia].
  apply concat_length. intros [h r] Hin%elem_of_map_to_list. destruct (Hr h r Hin) as (Hh & _). cbn [snd]. destruct (r_descs r); [done|simpl; lia].
Qed.

Lemma free_nonempty : (0 < length fr)%nat.
Proof. destruct HQ as [_ _ Ht _ _ _ _ _ _ _]. destruct fr; [done|simpl; lia]. Qed.

Lemma descs_nodup : NoDup (fr ++ all_descs R).
Proof. destruct HQ as [_ _ _ _ Hd _ _ _ _ _]. rewrite Hd. apply NoDup_seqZ. Qed.

Lemma descs_range d : d ∈ fr ++ all_descs R → 0 ≤ d < num q.
Proof. destruct HQ as [_ _ _ _ Hd _ _ _ _ _]. rewrite Hd, elem_of_seqZ. lia. Qed.

Lemma free_not_request d h r : d ∈ fr → R !! h = Some r → d ∉ r_descs r.
Proof.
  intros Hd Hr Hin. pose proof descs_nodup as (_ & H & _)%list.NoDup_app. apply (H d Hd). apply all_descs_elem. eauto.
Qed.

Lemma request_disjoint h r h' r' d : R !! h = Some r → R !! h' = Some r' → d ∈ r_descs r → d ∈ r_descs r' → h = h'.
Proof.
  intros Hr Hr' Hd Hd'. destruct (decide (h = h')) as [|Hne]; [done|exfalso]. pose proof descs_nodup as (_ & _ & H)%list.NoDup_app.
  rewrite (all_descs_delete R h r Hr) in H. apply list.NoDup_app in H as (_ & H & _). apply (H d Hd). apply all_descs_elem. exists h', r'.
  by rewrite lookup_delete_ne.
Qed.

End counts.

Lemma request_ok_ext ts ts' m m' r : request_ok ts m r → (∀ d, d ∈ r_descs r → m' !! d = m !! d) → (∀ i, r_table r = Some i → ts' !! i = ts !! i) →
  request_ok ts' m' r.
Proof.
  unfold request_ok. destruct (r_table r) as [i|]; intros Hr Hm Ht.
  - destruct Hr as (h & t & d & Eh & Et & Hu & Ed & Ha & Hf & Hl & Hh & Hp). exists h, t, d. rewrite Ht, Hm by (done || rewrite Eh; left). done.
  - by eapply holds_ext.
Qed.

Lemma mod_apart a i j n : 0 ≤ i → i < j → j - i < n → (a + i) mod n ≠ (a + j) mod n.
Proof.
  intros Hi Hij Hn E. assert ((a + j - (a + i)) mod n = 0) as H0 by (rewrite Zminus_mod, E, Z.sub_diag; apply Z.mod_0_l; lia).
  replace (a + j - (a + i)) with (j - i) in H0 by lia. rewrite Z.mod_small in H0 by lia. lia.
Qed.

(** ** A request is added *)

(** The queue with the request of the descriptors [ds], in [m], and the head [h]. *)
Definition posted (q : virtio_queue) (m : gmap Z vring_desc) (n h f dt : Z) : virtio_queue :=
  set_avail (u16 (avail_idx q + 1)) (<[avail_idx q mod num q := h]> (avail_ring q))
    (set_data (<[h := dt]> (data q)) (set_free (free_num q - n) f (free_tail q) (set_descs m q))).

Lemma posted_ok ts ts' q e R P C ds f fr m h r : queue_ok ts q e R P C (ds ++ f :: fr) → head ds = Some h → r_descs r = ds → r_data r ≠ 0 →
  request_ok ts' m r → (∀ a, a ∉ ds → m !! a = desc q !! a) → (∀ a, a ∈ ds → is_Some (m !! a)) →
  (∀ h' r' i, R !! h' = Some r' → r_table r' = Some i → ts' !! i = ts !! i) →
  queue_ok ts' (posted q m (Z.of_nat (length ds)) h f (r_data r)) e (<[h := r]> R) (P ++ [h]) C (f :: fr).
Proof.
  intros HQ Hh Hds Hdt Hr Hm Hmd Hts. pose proof HQ as [[Hn Hn2] (x & Hs) Ht Hc Hd Hdom Hreq Hp (Ha1 & Ha2 & Ha3) Hu].
  pose proof (counts _ _ _ _ _ _ _ HQ) as Hcn. pose proof (descs_nodup _ _ _ _ _ _ _ HQ) as Hnd. rewrite length_app in Hcn. cbn [length] in Hcn.
  assert (h ∈ ds) as Hin by (destruct ds; [done|injection Hh as ->; left]).
  assert (R !! h = None) as HRh.
  { destruct (R !! h) as [r'|] eqn:E; [|done]. exfalso. destruct (Hreq h r' E) as (Hh' & _).
    apply (free_not_request _ _ _ _ _ _ _ HQ h h r'); [set_solver|done|]. destruct (r_descs r'); [done|injection Hh' as ->; left]. }
  assert (∀ a, a ∈ f :: fr → a ∉ ds) as Hfr. { rewrite <- app_assoc in Hnd. apply list.NoDup_app in Hnd as (_ & Hd' & _). intros a Ha Ha'. apply (Hd' a Ha'). set_solver. }
  split; cbn [posted num desc avail_idx avail_ring used_flags used_idx used_ring free_num free_head free_tail last_used data set_avail set_data set_free set_descs]; try done.
  - exists x. apply lseg_app in Hs as (y & _ & Hs). pose proof Hs as (-> & _). eapply lseg_ext, Hs. intros k Hk. unfold nx. by rewrite Hm by auto.
  - rewrite <- Ht, last_app, !last_cons. by destruct (list.last fr).
  - rewrite Hc, length_app. cbn [length]. lia.
  - rewrite all_descs_insert, Hds by done. rewrite <- Hd, (Permutation_app_comm ds (f :: fr)), <- app_assoc. done.
  - intros i Hi. destruct (Hdom i Hi) as (D1 & D2 & D3 & D4). split_and!; [| | |done].
    + destruct (decide (i ∈ ds)); [by apply Hmd|by rewrite Hm].
    + destruct (decide (i = h)) as [->|]; [rewrite lookup_insert_eq; eauto|by rewrite lookup_insert_ne].
    + destruct (decide (i = avail_idx q mod num q)) as [->|]; [rewrite lookup_insert_eq; eauto|by rewrite lookup_insert_ne].
  - intros h' r' [[<- <-]|[Hne Hr']]%lookup_insert_Some.
    + rewrite lookup_insert_eq, Hds. done.
    + destruct (Hreq h' r' Hr') as (R1 & R2 & R3 & R4). rewrite lookup_insert_ne by done. split_and!; try done.
      eapply request_ok_ext; [exact R4| |by intros i; apply (Hts h' r' i)]. intros d Hd'. apply Hm. intros Hd2.
      apply (free_not_request _ _ _ _ _ _ _ HQ d h' r'); [set_solver|done|done].
  - rewrite (map_to_list_insert R h r HRh). cbn [fmap list_fmap fst]. rewrite <- Hp, (Permutation_app_comm P [h]), <- app_assoc. done.
  - rewrite length_app. cbn [length]. split; [done|]. split.
    + unfold u16, wrap. rewrite Ha2, Zplus_mod_idemp_l. f_equal. lia.
    + assert (avail_idx q mod num q = (h_idx e + Z.of_nat (length P)) mod num q) as -> by (rewrite Ha2; by apply Z.mod_mod_divide).
      intros j a Hj. apply lookup_app_Some in Hj as [Hj|[Hj1 Hj2]].
      * pose proof (lookup_lt_Some _ _ _ Hj). rewrite lookup_insert_ne; [auto|]. intros E. symmetry in E. revert E. apply mod_apart; lia.
      * apply list_lookup_singleton_Some in Hj2 as [Hj2 <-]. assert (j = length P) as -> by lia. by rewrite lookup_insert_eq.
Qed.

(** ** The state of the device *)

Record qspec : Type := mk_qspec { q_host : host; q_reqs : gmap Z request; q_pend : list Z; q_comp : list (Z * Z) }.

(** A table in use belongs to one request of one queue. *)
Record dev_ok (d : device) (A : gmap Z qspec) (owner : gmap nat (Z * Z)) : Prop := {
  do_queues : ∀ i, is_Some (queues d !! i) ↔ 0 ≤ i < num_queues d;
  do_specs : ∀ i, is_Some (A !! i) ↔ 0 ≤ i < num_queues d;
  do_ok : ∀ i q a, queues d !! i = Some q → A !! i = Some a →
    ∃ fr, queue_ok (indirect d) q (q_host a) (q_reqs a) (q_pend a) (q_comp a) fr;
  do_tables : ∀ k t, indirect d !! k = Some t → table_ok t ∧ (in_use t = true ↔ is_Some (owner !! k));
  do_paddr : ∀ k k' t t', indirect d !! k = Some t → indirect d !! k' = Some t' → paddr t = paddr t' → k = k';
  do_owner : ∀ k i h, owner !! k = Some (i, h) ↔ ∃ a r, A !! i = Some a ∧ q_reqs a !! h = Some r ∧ r_table r = Some k
}.

Lemma queue_ok_ext ts ts' q e R P C fr : queue_ok ts q e R P C fr → (∀ h r i, R !! h = Some r → r_table r = Some i → ts' !! i = ts !! i) →
  queue_ok ts' q e R P C fr.
Proof.
  intros [H1 H2 H3 H4 H5 H6 H7 H8 H9 H10] Hts. split; try done. intros h r Hr. destruct (H7 h r Hr) as (R1 & R2 & R3 & R4). split_and!; try done.
  eapply request_ok_ext; [exact R4|done|]. intros i Hi. by apply (Hts h r i).
Qed.

(** One queue and its specification change, and the tables it does not share. *)
Lemma dev_ok_update d A owner d' qidx q' a a' owner' fr :
  dev_ok d A owner → A !! qidx = Some a → queues d' = <[qidx := q']> (queues d) → num_queues d' = num_queues d →
  queue_ok (indirect d') q' (q_host a') (q_reqs a') (q_pend a') (q_comp a') fr →
  (∀ k i h, i ≠ qidx → owner !! k = Some (i, h) → indirect d' !! k = indirect d !! k) →
  (∀ k t, indirect d' !! k = Some t → table_ok t ∧ (in_use t = true ↔ is_Some (owner' !! k))) →
  (∀ k t, indirect d' !! k = Some t → ∃ u, indirect d !! k = Some u ∧ paddr u = paddr t) →
  (∀ k i h, owner' !! k = Some (i, h) ↔ ∃ b r, <[qidx := a']> A !! i = Some b ∧ q_reqs b !! h = Some r ∧ r_table r = Some k) →
  dev_ok d' (<[qidx := a']> A) owner'.
Proof.
  intros [D1 D2 D3 D4 D5 D6] Ha Eq En HQ Hts Ht Hp Ho. assert (0 ≤ qidx < num_queues d) as Hq by (apply D2; eauto). split; try done.
  - intros i. rewrite Eq, En. destruct (decide (i = qidx)) as [->|]; [rewrite lookup_insert_eq; split; eauto|by rewrite lookup_insert_ne].
  - intros i. rewrite En. destruct (decide (i = qidx)) as [->|]; [rewrite lookup_insert_eq; split; eauto|by rewrite lookup_insert_ne].
  - intros i q b. rewrite Eq. destruct (decide (i = qidx)) as [->|Hne]; [rewrite !lookup_insert_eq; intros [= <-] [= <-]; eauto|].
    rewrite !lookup_insert_ne by done. intros Hqi Hb. destruct (D3 i q b Hqi Hb) as [fr' HQ']. exists fr'. eapply queue_ok_ext; [exact HQ'|].
    intros h r k Hr Hk. apply (Hts k i h); [done|]. apply D6. eauto.
  - intros k k' t t' Hk Hk' E. destruct (Hp k t Hk) as (u & Hu & Eu), (Hp k' t' Hk') as (u' & Hu' & Eu'). apply (D5 k k' u u' Hu Hu'). congruence.
Qed.

(** ** virtio_to_queue *)

Lemma put_avail_run q i v : is_Some (avail_ring q !! i) → put_avail i v q = Ret tt (set_avail (avail_idx q) (<[i := v]> (avail_ring q)) q).
Proof. intros [x E]. unfold put_avail, store. erewrite bind_ret by reflexivity. rewrite E. by erewrite bind_ret by reflexivity. Qed.

Lemma put_data_run q i v : is_Some (data q !! i) → put_data i v q = Ret tt (set_data (<[i := v]> (data q)) q).
Proof. intros [x E]. unfold put_data, store. erewrite bind_ret by reflexivity. rewrite E. by erewrite bind_ret by reflexivity. Qed.

(** The device after an operation but for the queue and the tables. *)
Definition same_rest (d d' : device) : Prop := num_queues d' = num_queues d ∧ threads d' = threads d.

Lemma post_tail d qidx q m n h f dt : 0 ≤ qidx < num_queues d →
  queues d !! qidx = Some (set_free (free_num q - n) f (free_tail q) (set_descs m q)) →
  is_Some (avail_ring q !! (avail_idx q mod num q)) → is_Some (data q !! h) →
  ∃ d', (on_queue qidx (q ← gets (λ q, q); put_avail (avail_idx q mod num q) h) ;;
         on_queue qidx (put_data h dt) ;;
         on_queue qidx (modify (λ q, set_avail (u16 (avail_idx q + 1)) (avail_ring q) q)) ;;
         kick_queue qidx ;; mret 0) d = Ret 0 d' ∧
    queues d' = <[qidx := posted q m n h f dt]> (queues d) ∧ indirect d' = indirect d ∧ same_rest d d'.
Proof.
  intros Hq Eq Ha Hd.
  set (d3 := set_queue qidx (posted q m n h f dt) d).
  assert (∃ d', kick_queue qidx d3 = Ret tt d' ∧ queues d' = queues d3 ∧ indirect d' = indirect d ∧ same_rest d d') as (d' & Ek & K1 & K2 & K3).
  { unfold kick_queue. erewrite bind_ret by reflexivity. rewrite (proj2 (Z.leb_le _ _)), (proj2 (Z.ltb_lt _ _)) by (cbn; lia). cbn [andb].
    erewrite bind_ret by reflexivity. erewrite bind_ret by (apply queue_run; cbn; apply lookup_insert_eq). destruct (wants_kick _); eexists; done. }
  exists d'. split_and!; try done.
  erewrite bind_ret by (eapply on_queue_run; [exact Eq|]; erewrite bind_ret by reflexivity; by apply put_avail_run).
  erewrite bind_ret by (eapply on_queue_run; [cbn; apply lookup_insert_eq|by apply put_data_run]).
  erewrite bind_ret by (eapply on_queue_run; [cbn; apply lookup_insert_eq|reflexivity]).
  unfold set_queue in *. cbn in *. rewrite !insert_insert_eq. by erewrite bind_ret by exact Ek.
Qed.

(** The request leaves a descriptor free, and there is a table if it needs one. *)
Definition can_post (d : device) (qidx : Z) (bufs : list addr_size) : bool :=
  match queues d !! qidx with
  | None => false
  | Some q =>
      let n := Z.of_nat (length bufs) in
      (0 <? n) &&
      if free_num q - n <? threads d then
        (1 <? free_num q) && (n <=? 256) && bool_decide (is_Some (find_table (λ t, negb (in_use t)) 0 (indirect d)))
      else n <? free_num q
  end.

Lemma head_fresh ts q e R P C fr h : queue_ok ts q e R P C fr → h ∈ fr → R !! h = None.
Proof.
  intros HQ Hin. destruct (R !! h) as [r|] eqn:E; [|done]. exfalso. destruct (qo_req _ _ _ _ _ _ _ HQ h r E) as (Hh & _).
  apply (free_not_request _ _ _ _ _ _ _ HQ h h r); [done|done|]. destruct (r_descs r); [done|injection Hh as ->; left].
Qed.

Definition add_request (a : qspec) (h : Z) (r : request) : qspec := mk_qspec (q_host a) (<[h := r]> (q_reqs a)) (q_pend a ++ [h]) (q_comp a).

Definition add_owner (owner : gmap nat (Z * Z)) (qidx h : Z) (r : request) : gmap nat (Z * Z) :=
  match r_table r with Some k => <[k := (qidx, h)]> owner | None => owner end.

Lemma owner_add d A owner qidx a h r : dev_ok d A owner → A !! qidx = Some a → q_reqs a !! h = None →
  (∀ k, r_table r = Some k → owner !! k = None) →
  ∀ k i h', add_owner owner qidx h r !! k = Some (i, h') ↔
    ∃ b r', <[qidx := add_request a h r]> A !! i = Some b ∧ q_reqs b !! h' = Some r' ∧ r_table r' = Some k.
Proof.
  intros [_ _ _ _ _ D6] Ha Hh Hk k i h'. unfold add_owner.
  assert ((∃ b r', <[qidx := add_request a h r]> A !! i = Some b ∧ q_reqs b !! h' = Some r' ∧ r_table r' = Some k) ↔
    owner !! k = Some (i, h') ∨ (i = qidx ∧ h' = h ∧ r_table r = Some k)) as ->.
  { rewrite D6. destruct (decide (i = qidx)) as [->|Hne].
    - setoid_rewrite lookup_insert_eq. split.
      + intros (b & r' & [= <-] & Hr & Ht). cbn [q_reqs add_request] in Hr. apply lookup_insert_Some in Hr as [[<- <-]|[Hne Hr]]; [by right|]. left. eauto.
      + intros [(b & r' & Hb & Hr & Ht)|(_ & -> & Ht)]; eexists _, _; (split; [reflexivity|]); cbn [q_reqs add_request].
        * rewrite Ha in Hb. injection Hb as <-. rewrite lookup_insert_ne by (intros ->; congruence). done.
        * by rewrite lookup_insert_eq.
    - setoid_rewrite lookup_insert_ne; [|done]. naive_solver. }
  destruct (r_table r) as [k0|]; [|naive_solver]. destruct (decide (k = k0)) as [->|Hne].
  - rewrite lookup_insert_eq. rewrite (Hk k0 eq_refl). naive_solver.
  - rewrite lookup_insert_ne by done. naive_solver.
Qed.

Section post.
Context (d : device) (A : gmap Z qspec) (owner : gmap nat (Z * Z)) (qidx : Z) (a : qspec) (q : virtio_queue) (bufs : list addr_size) (dt : Z) (fr : list Z).
Context (HD : dev_ok d A owner) (Ha : A !! qidx = Some a) (Eq : queues d !! qidx = Some q) (Hdt : dt ≠ 0) (Hb : (0 < length bufs)%nat).
Context (HQ : queue_ok (indirect d) q (q_host a) (q_reqs a) (q_pend a) (q_comp a) fr).

Definition post_goal : Prop := ∃ d' h r owner', virtio_to_queue qidx bufs dt d = Ret 0 d' ∧ q_reqs a !! h = None ∧ r_bufs r = bufs ∧ r_data r = dt ∧
  same_rest d d' ∧ dev_ok d' (<[qidx := add_request a h r]> A) owner'.

Lemma post_start : 0 ≤ qidx < num_queues d ∧ num q ≤ 2 ^ 16 ∧ free_num q = Z.of_nat (length fr) ∧ Z.of_nat (length fr) ≤ num q ∧
  is_Some (avail_ring q !! (avail_idx q mod num q)).
Proof.
  pose proof HQ as [[Hn Hn2] _ _ Hc _ Hdom _ _ _ _]. pose proof (counts _ _ _ _ _ _ _ HQ). split_and!; try lia.
  - apply (do_queues _ _ _ HD). eauto.
  - apply (do_queues _ _ _ HD). eauto.
  - apply Hdom, Z.mod_pos_bound. lia.
Qed.

Lemma post_direct ds f fr' : fr = ds ++ f :: fr' → length ds = length bufs → free_num q - Z.of_nat (length bufs) <? threads d = false → post_goal.
Proof.
  intros Efr Hl Hleft. pose proof post_start as (Hq & Hn & Hc & Hle & Hav). pose proof HQ as HQ0. rewrite Efr in HQ0. pose proof HQ0 as [[Hn1 Hn2] (x & Hs) _ _ _ Hdom _ _ _ _].
  pose proof (descs_nodup _ _ _ _ _ _ _ HQ0) as Hnd. rewrite <- app_assoc in Hnd. apply list.NoDup_app in Hnd as (Hnd & _ & _).
  destruct (set_direct_run q bufs ds f fr' x Hs Hnd Hl Hb) as (m & E & Hh & Hm). destruct ds as [|h ds]; [simpl in Hl; lia|].
  assert (free_head q = h) as Eh by (by destruct Hs as ([= ->] & _)). set (r := mk_request bufs dt (h :: ds) None).
  rewrite Hc, Efr, length_app in *. cbn [length] in *.
  assert (u16 (Z.of_nat (S (length ds) + S (length fr')) - Z.of_nat (length bufs)) = Z.of_nat (S (length ds) + S (length fr')) - Z.of_nat (length bufs)) as Eu.
  { apply wrap_id. unfold in_u. lia. }
  rewrite Eu, <- Hc, <- Hl in E.
  pose proof (posted_ok _ (indirect d) q _ _ _ _ (h :: ds) f fr' m h r HQ0 eq_refl eq_refl Hdt Hh Hm) as HP.
  destruct (post_tail (set_queue qidx (set_free (free_num q - Z.of_nat (S (length ds))) f (free_tail q) (set_descs m q)) d) qidx q m (Z.of_nat (S (length ds))) h f dt)
    as (d' & Et & T1 & T2 & T3); [done|cbn; apply lookup_insert_eq|done| |].
  { destruct (Hdom h) as (_ & ? & _); [|done]. apply (descs_range _ _ _ _ _ _ _ HQ0). left. }
  exists d', h, r, owner. split_and!; try done; [| |].
  - unfold virtio_to_queue. erewrite bind_ret by reflexivity. rewrite (proj2 (Z.leb_le _ _)), (proj2 (Z.leb_le _ _)) by lia. cbn [andb].
    erewrite bind_ret by reflexivity. rewrite (proj2 (Z.eqb_neq _ _)) by done. erewrite bind_ret by (by apply queue_run). erewrite bind_ret by reflexivity.
    rewrite Hc, Hleft. erewrite bind_ret by (eapply on_queue_run; [exact Eq|exact E]). rewrite Eh. exact Et.
  - apply (head_fresh _ _ _ _ _ _ _ _ HQ0). left.
  - assert (indirect d' = indirect d) as Ei by (by rewrite T2). eapply (dev_ok_update d A owner d' qidx _ a); [done|done| |apply T3| | | | |].
    + rewrite T1. cbn. rewrite insert_insert_eq. reflexivity.
    + rewrite Ei. apply HP; [|done]. intros y Hy. by eapply holds_lookup.
    + by rewrite Ei.
    + rewrite Ei. apply HD.
    + rewrite Ei. eauto.
    + apply (owner_add d A owner qidx a h r HD Ha); [|done]. apply (head_fresh _ _ _ _ _ _ _ _ HQ0). left.
Qed.

Lemma post_indirect h f fr' i : fr = h :: f :: fr' → free_num q - Z.of_nat (length bufs) <? threads d = true → (length bufs ≤ 256)%nat →
  find_table (λ t, negb (in_use t)) 0 (indirect d) = Some i → post_goal.
Proof.
  intros Efr Hleft Hl Hi. pose proof post_start as (Hq & Hn & Hc & Hle & Hav). pose proof HQ as HQ0. rewrite Efr in HQ0. pose proof HQ0 as [[Hn1 Hn2] (x & Hs) _ _ _ Hdom _ _ _ _].
  destruct Hs as ([= Eh] & p & (y & Hy & _ & ->)%nx_Some & ([= Ef] & _)). destruct (find_table_Some _ _ _ _ Hi) as (_ & t & Et & Hfree). rewrite Nat.sub_0_r in Et. apply negb_true_iff in Hfree.
  destruct (do_tables _ _ _ HD i t Et) as [Hok Hown]. assert (owner !! i = None) as Ho by (destruct (owner !! i); [rewrite (proj2 Hown) in Hfree by eauto|]; done).
  destruct (set_indirect_run d qidx q bufs h f i t y Eq Eh Hy Ef Hi Et Hok ltac:(lia)) as (m & E & Hh & Hok'). cbv zeta in E. set (r := mk_request bufs dt [h] (Some i)).
  set (ts' := <[i := mk_table true m (paddr t)]> (indirect d)) in *. set (m' := <[h := _]> (desc q)) in E.
  assert (u16 (free_num q - 1) = free_num q - 1) as Eu by (apply wrap_id; unfold in_u; rewrite Hc, Efr in *; cbn [length] in *; lia). rewrite Eu in E.
  pose proof (lookup_lt_Some _ _ _ Et) as Hlt.
  assert (queue_ok ts' (posted q m' 1 h f dt) (q_host a) (<[h := r]> (q_reqs a)) (q_pend a ++ [h]) (q_comp a) (f :: fr')) as HP.
  { apply (posted_ok (indirect d) ts' q _ _ _ _ [h] f fr' m' h r HQ0); try done.
    - exists h, (mk_table true m (paddr t)), (mk_desc (paddr t) (16 * Z.of_nat (length bufs)) VRING_DESC_F_INDIRECT f).
      split_and!; try done; [unfold ts'; by rewrite list_lookup_insert_eq|unfold m'; apply lookup_insert_eq].
    - intros k Hk. unfold m'. by rewrite lookup_insert_ne by set_solver.
    - intros k ->%list_elem_of_singleton. unfold m'. rewrite lookup_insert_eq. eauto.
    - intros h' r' k Hr Hk. unfold ts'. rewrite list_lookup_insert_ne; [done|]. intros <-. rewrite (proj2 (do_owner _ _ _ HD i qidx h')) in Ho by eauto. done. }
  destruct (post_tail (set_queue qidx (set_free (free_num q - 1) f (free_tail q) (set_descs m' q)) (set_indirect ts' d)) qidx q m' 1 h f dt) as (d' & Ed & T1 & T2 & T3);
    [done|cbn; apply lookup_insert_eq|done| |].
  { destruct (Hdom h) as (_ & ? & _); [|done]. apply (descs_range _ _ _ _ _ _ _ HQ0). left. }
  exists d', h, r, (<[i := (qidx, h)]> owner). split_and!; try done.
  - unfold virtio_to_queue. erewrite bind_ret by reflexivity. rewrite (proj2 (Z.leb_le _ _)), (proj2 (Z.leb_le _ _)) by lia. cbn [andb].
    erewrite bind_ret by reflexivity. rewrite (proj2 (Z.eqb_neq _ _)) by done. erewrite bind_ret by (by apply queue_run). erewrite bind_ret by reflexivity.
    rewrite Hleft. erewrite bind_ret by exact E. rewrite Eh. exact Ed.
  - apply (head_fresh _ _ _ _ _ _ _ _ HQ0). left.
  - assert (indirect d' = ts') as Ei by (by rewrite T2). eapply (dev_ok_update d A owner d' qidx _ a); [done|done| |apply T3| | | | |].
    + rewrite T1. cbn. rewrite insert_insert_eq. reflexivity.
    + rewrite Ei. exact HP.
    + intros k j h' Hne Hk. rewrite Ei. unfold ts'. rewrite list_lookup_insert_ne; [done|]. intros <-. congruence.
    + rewrite Ei. intros k u [(<- & <- & _)|[Hne Hk]]%list_lookup_insert_Some; [rewrite lookup_insert_eq; split; [done|]; split; eauto|].
      rewrite lookup_insert_ne by done. by apply HD.
    + rewrite Ei. intros k u [(<- & <- & _)|[Hne Hk]]%list_lookup_insert_Some; eauto.
    + apply (owner_add d A owner qidx a h r HD Ha); [|by intros k [= <-]]. apply (head_fresh _ _ _ _ _ _ _ _ HQ0). left.
Qed.

End post.

Lemma post_ok d A owner qidx a bufs dt : dev_ok d A owner → A !! qidx = Some a → can_post d qidx bufs = true → dt ≠ 0 → post_goal d A qidx a bufs dt.
Proof.
  intros HD Ha Hc Hdt. unfold can_post in Hc. destruct (queues d !! qidx) as [q|] eqn:Eq; [|done]. apply andb_true_iff in Hc as [Hb%Z.ltb_lt Hc].
  destruct (do_ok _ _ _ HD qidx q a Eq Ha) as [fr HQ]. pose proof (qo_count _ _ _ _ _ _ _ HQ) as Hn. destruct (_ <? threads d) eqn:Hl.
  - apply andb_true_iff in Hc as [[H1%Z.ltb_lt H2%Z.leb_le]%andb_true_iff H3%bool_decide_eq_true]. destruct H3 as [i Hi].
    destruct fr as [|h [|f fr]]; [simpl in Hn; lia..|]. eapply (post_indirect d A owner qidx a q bufs dt (h :: f :: fr)); try done; lia.
  - apply Z.ltb_lt in Hc. destruct (drop (length bufs) fr) as [|f fr'] eqn:Ed.
    { apply (f_equal length) in Ed. rewrite length_drop in Ed. simpl in Ed. lia. }
    eapply (post_direct d A owner qidx a q bufs dt fr); try done; [lia|by rewrite <- Ed, take_drop|]. rewrite length_take. lia.
Qed.

(** ** The device takes and finishes requests *)

Lemma holds_split m ds bs : holds m ds bs → ∃ l z x, ds = l ++ [z] ∧ lseg (nx m) (head ds) l (Some z) ∧ m !! z = Some x ∧
  has VRING_DESC_F_NEXT x = false ∧ has VRING_DESC_F_INDIRECT x = false ∧ ∀ d y, d ∈ l → m !! d = Some y → has VRING_DESC_F_INDIRECT y = false.
Proof.
  revert bs. induction ds as [|d ds IH]; intros [|b bs]; [done..|]. cbn [holds head]. intros (x & Hx & _ & Hi & Hn). destruct ds as [|d' ds].
  - destruct Hn as [Hn _]. exists [], d, x. split_and!; try done. by intros ? ? ?%elem_of_nil.
  - destruct Hn as (Hf & Hd & Hn). destruct (IH bs Hn) as (l & z & y & El & Hs & Hy & Hyn & Hyi & Hl). exists (d :: l), z, y. split_and!; try done.
    + by rewrite El.
    + split; [done|]. exists (Some (d_next x)). split; [unfold nx; rewrite Hx; cbn; by rewrite Hf|]. rewrite Hd. exact Hs.
    + intros e w [->|He]%elem_of_cons Hw; [congruence|eauto].
Qed.

(** What the device reads of a request is what was posted. *)
Lemma read_request_ok d A owner qidx a q h r : dev_ok d A owner → A !! qidx = Some a → queues d !! qidx = Some q → q_reqs a !! h = Some r →
  read_request (indirect d) q h = Some (view <$> r_bufs r).
Proof.
  intros HD Ha Eq Hr. destruct (do_ok _ _ _ HD qidx q a Eq Ha) as [fr HQ]. destruct (qo_req _ _ _ _ _ _ _ HQ h r Hr) as (Hh & _ & _ & Hok).
  assert (Z.of_nat (length (r_descs r)) ≤ num q) as Hlen.
  { pose proof HQ as [_ _ _ _ Hd _ _ _ _ _]. rewrite (all_descs_delete _ h r Hr) in Hd. apply Permutation_length in Hd.
    rewrite !length_app, length_seqZ in Hd. destruct (qo_num _ _ _ _ _ _ _ HQ). lia. }
  unfold read_request, request_ok in *. destruct (r_table r) as [i|].
  - destruct Hok as (h' & t & x & Eh & Et & Hu & Ex & Hp & Hf & Hl & Hho & Hpos). rewrite Eh in Hh. injection Hh as ->. rewrite Ex. cbn [mbind option_bind].
    unfold has. rewrite Hf. cbn. rewrite (find_table_in _ _ i t); [|intros j u Hj Hju%Z.eqb_eq; eapply (do_paddr _ _ _ HD); [exact Hj|exact Et|congruence]|done|by apply Z.eqb_eq].
    cbn. rewrite Et. cbn. apply (holds_read _ (seqZ 0 (Z.of_nat (length (r_bufs r))))); [done| |].
    + destruct (Z.of_nat (length (r_bufs r))) eqn:E; [lia| |lia]. rewrite <- E. rewrite seqZ_cons by lia. done.
    + rewrite length_seqZ, Hl. rewrite Z.mul_comm, Z.div_mul by lia. done.
  - destruct (r_descs r) as [|c ds] eqn:Ed; [done|]. injection Hh as ->. pose proof Hok as Hok2. destruct (r_bufs r) as [|b bs] eqn:Eb; [done|]. destruct Hok2 as (x & Hx & _ & Hi & _).
    rewrite Hx. cbn [mbind option_bind]. rewrite Hi. apply (holds_read _ (h :: ds)); [done|done|]. lia.
Qed.

(** The device's side of the rings. *)
Definition host_take (q : virtio_queue) (e : host) : option Z :=
  if avail_idx q =? h_idx e then None else avail_ring q !! (h_idx e mod num q).

Definition host_finish (q : virtio_queue) (h len : Z) : virtio_queue :=
  set_used (u16 (used_idx q + 1)) (<[used_idx q mod num q := (h, len)]> (used_ring q)) q.

Lemma host_take_ok ts q e R P C fr : queue_ok ts q e R P C fr → host_take q e = head P.
Proof.
  intros HQ. pose proof (counts _ _ _ _ _ _ _ HQ) as Hc. pose proof (free_nonempty _ _ _ _ _ _ _ HQ). destruct HQ as [[Hn Hn2] _ _ _ _ _ _ _ (A1 & A2 & A3) _].
  unfold host_take. destruct P as [|h P].
  - cbn [length head] in *. rewrite Z.add_0_r, Z.mod_small in A2 by lia. by rewrite A2, Z.eqb_refl.
  - rewrite (proj2 (Z.eqb_neq _ _)).
    + specialize (A3 0%nat h eq_refl). by rewrite Z.add_0_r in A3.
    + rewrite A2. replace (h_idx e) with ((h_idx e + 0) mod 2 ^ 16) at 2 by (rewrite Z.add_0_r; apply Z.mod_small; lia).
      intros E. symmetry in E. revert E. apply mod_apart; cbn [length] in *; lia.
Qed.

Lemma taken_ok ts q e R h P C fr : queue_ok ts q e R (h :: P) C fr → queue_ok ts q (mk_host (u16 (h_idx e + 1)) (h_taken e ++ [h])) R P C fr.
Proof.
  intros [[Hn Hn2] H2 H3 H4 H5 H6 H7 H8 (A1 & A2 & A3) H10]. split; try done; cbn [h_idx h_taken].
  - rewrite <- H8, <- !app_assoc. cbn [app]. rewrite (Permutation_middle P (h_taken e ++ C.*1) h). f_equiv. apply Permutation_sym, Permutation_middle.
  - split; [unfold u16, wrap; apply Z.mod_pos_bound; lia|]. cbn [length] in *. split.
    + rewrite A2. unfold u16, wrap. rewrite Zplus_mod_idemp_l. f_equal. lia.
    + intros j k Hj. specialize (A3 (S j) k Hj). unfold u16, wrap. rewrite <- (Zplus_mod_idemp_l _ _ (num q)), Z.mod_mod_divide, Zplus_mod_idemp_l by done.
      rewrite <- A3. do 2 f_equal. lia.
Qed.

Lemma finished_ok ts q e R P C fr h len l : queue_ok ts q e R P C fr → h_taken e ≡ₚ h :: l →
  queue_ok ts (host_finish q h len) (mk_host (h_idx e) l) R P (C ++ [(h, len)]) fr.
Proof.
  intros HQ Hl. pose proof (counts _ _ _ _ _ _ _ HQ) as Hc. pose proof (free_nonempty _ _ _ _ _ _ _ HQ). rewrite (Permutation_length Hl) in Hc. cbn [length] in Hc.
  destruct HQ as [[Hn Hn2] H2 H3 H4 H5 H6 H7 H8 H9 (U1 & U2 & U3 & U4)]. unfold host_finish.
  split; cbn [num desc avail_idx avail_ring used_flags used_idx used_ring free_num free_head free_tail last_used data set_used h_idx h_taken]; try done.
  - intros i Hi. destruct (H6 i Hi) as (? & ? & ? & ?). split_and!; try done.
    destruct (decide (i = used_idx q mod num q)) as [->|]; [rewrite lookup_insert_eq; eauto|by rewrite lookup_insert_ne].
  - rewrite <- H8, Hl, fmap_app. cbn [fmap list_fmap fst app]. rewrite (Permutation_app_comm (C.*1) [h]). cbn [app]. f_equiv. apply Permutation_sym, Permutation_middle.
  - split; [done|]. split; [unfold u16, wrap; apply Z.mod_pos_bound; lia|]. rewrite length_app. cbn [length]. split.
    + unfold u16, wrap. rewrite Z.mod_mod_divide by done. rewrite <- Zplus_mod_idemp_l, U3, Zplus_mod_idemp_l. f_equal. lia.
    + rewrite U3. intros j c Hj. apply lookup_app_Some in Hj as [Hj|[Hj1 Hj2]].
      * pose proof (lookup_lt_Some _ _ _ Hj). rewrite lookup_insert_ne; [auto|]. intros E. symmetry in E. revert E. apply mod_apart; lia.
      * apply list_lookup_singleton_Some in Hj2 as [Hj2 <-]. assert (j = length C) as -> by lia. by rewrite lookup_insert_eq.
Qed.

(** ** A finished request is taken from the queue *)

(** The queue when the descriptors of the request [h], the last of which is [z], are free. *)
Definition polled (q : virtio_queue) (m : gmap Z vring_desc) (n h z : Z) : virtio_queue :=
  set_data (<[h := 0]> (data q)) (set_free (free_num q + n) (free_head q) z (set_descs m (set_last_used ((last_used q + 1) mod num q) q))).

Lemma polled_ok ts ts' q e R P h len C fr r m z : queue_ok ts q e R P ((h, len) :: C) fr → R !! h = Some r →
  lseg (nx m) (Some (free_head q)) fr (Some h) → lseg (nx m) (Some h) (r_descs r) (Some (free_head q)) → list.last (r_descs r) = Some z →
  (∀ a, a ∉ fr ++ r_descs r → m !! a = desc q !! a) → (∀ a, a ∈ fr ++ r_descs r → is_Some (m !! a)) →
  (∀ h' r' i, h' ≠ h → R !! h' = Some r' → r_table r' = Some i → ts' !! i = ts !! i) →
  queue_ok ts' (polled q m (Z.of_nat (length (r_descs r))) h z) e (delete h R) P C (fr ++ r_descs r).
Proof.
  intros HQ Hr Hs1 Hs2 Hz Hm Hmd Hts. pose proof HQ as [[Hn Hn2] _ Ht Hc Hd Hdom Hreq Hp Ha (U1 & U2 & U3 & U4)].
  split; cbn [polled num desc avail_idx avail_ring used_flags used_idx used_ring free_num free_head free_tail last_used data set_data set_free set_descs set_last_used]; try done.
  - exists (Some (free_head q)). apply lseg_app. eauto.
  - by rewrite last_app, Hz.
  - rewrite Hc, length_app. lia.
  - rewrite <- Hd, (all_descs_delete R h r Hr), app_assoc. done.
  - intros i Hi. destruct (Hdom i Hi) as (D1 & D2 & D3 & D4). split_and!; try done.
    + destruct (decide (i ∈ fr ++ r_descs r)); [by apply Hmd|by rewrite Hm].
    + destruct (decide (i = h)) as [->|]; [rewrite lookup_insert_eq; eauto|by rewrite lookup_insert_ne].
  - intros h' r' [Hne Hr']%lookup_delete_Some. destruct (Hreq h' r' Hr') as (R1 & R2 & R3 & R4). rewrite lookup_insert_ne by done. split_and!; try done.
    eapply request_ok_ext; [exact R4| |by intros i; apply (Hts h' r' i)]. intros d Hd'. apply Hm. intros [Hd2|Hd2]%elem_of_app.
    + by apply (free_not_request _ _ _ _ _ _ _ HQ d h' r').
    + apply Hne. by eapply (request_disjoint _ _ _ _ _ _ _ HQ h r h' r' d).
  - cbn [fmap list_fmap fst] in Hp. apply (Permutation_cons_inv (a := h)).
    rewrite <- (insert_delete_id R h r Hr) in Hp. rewrite (map_to_list_insert (delete h R) h r) in Hp by apply lookup_delete_eq.
    cbn [fmap list_fmap fst] in Hp. rewrite <- Hp. rewrite !app_assoc. apply Permutation_middle.
  - split; [apply Z.mod_pos_bound; lia|]. split; [done|]. cbn [length] in U3. split.
    + rewrite U3, Zplus_mod_idemp_l. f_equal. lia.
    + intros j c Hj. specialize (U4 (S j) c Hj). rewrite Zplus_mod_idemp_l. rewrite <- U4. do 2 f_equal. lia.
Qed.

(** The tail of the free list is linked to the request. *)
Lemma tail_linked m fh fr x t tl h : lseg (nx m) (Some fh) fr x → list.last fr = Some t → NoDup fr → m !! t = Some tl →
  lseg (nx (<[t := set_next h tl]> m)) (Some fh) fr (Some h) ∧ has VRING_DESC_F_NEXT tl = true.
Proof.
  intros Hs Hl Hnd Ht. destruct fr as [|t' fr _] using rev_ind; [done|]. rewrite last_snoc in Hl. injection Hl as ->.
  apply lseg_snoc in Hs as [Hs (d & Hd & Hn & ->)%nx_Some]. assert (d = tl) as -> by congruence. split; [|done]. apply lseg_snoc. split.
  - eapply lseg_ext, Hs. intros k Hk. unfold nx. rewrite lookup_insert_ne; [done|]. intros <-.
    apply list.NoDup_app in Hnd as (_ & Hd' & _). apply (Hd' _ Hk). left.
  - unfold nx. rewrite lookup_insert_eq. cbn. unfold has in *. cbn [d_flags set_next]. by rewrite Hn.
Qed.

Lemma chain_loop_run d qidx q z x : queues d !! qidx = Some q → desc q !! z = Some x → has VRING_DESC_F_NEXT x = false → ∀ l i fuel count,
  lseg (nx (desc q)) (Some i) l (Some z) → (∀ k y, k ∈ l → desc q !! k = Some y → has VRING_DESC_F_INDIRECT y = false) → (length l ≤ fuel)%nat →
  chain_loop fuel qidx i count d = Ret (z, count + Z.of_nat (length l)) d.
Proof.
  intros Eq Hx Hn. induction l as [|k l IH]; intros i fuel count Hs Hi Hf.
  - injection Hs as ->. rewrite Z.add_0_r. destruct fuel; cbn [chain_loop]; (erewrite bind_ret by (eapply on_queue_read; [done|by apply desc_at_run])); by rewrite Hn.
  - destruct Hs as ([= ->] & p & (y & Hy & Hyn & ->)%nx_Some & Hs). destruct fuel as [|fuel]; [simpl in Hf; lia|]. cbn [chain_loop].
    erewrite bind_ret by (eapply on_queue_read; [done|by apply desc_at_run]). rewrite Hyn, (Hi k y) by (done || left). erewrite bind_ret by reflexivity.
    rewrite IH; [|done|intros; eapply Hi; [by right|done]|simpl in Hf; lia]. do 2 f_equal. cbn [length]. lia.
Qed.

Lemma free_chain_run d qidx q z vd count : queues d !! qidx = Some q → desc q !! z = Some vd → has VRING_DESC_F_NEXT vd = false →
  0 ≤ free_num q + count ≤ num q → num q < 2 ^ 16 →
  free_chain qidx z count d = Ret tt (set_queue qidx
    (set_free (free_num q + count) (free_head q) z (set_descs (<[z := mk_desc (d_addr vd) (d_len vd) VRING_DESC_F_NEXT (free_head q)]> (desc q)) q)) d).
Proof.
  intros Eq Hm Hn Hf Hnum. unfold free_chain. erewrite bind_ret by (by apply queue_run).
  erewrite bind_ret by (eapply on_queue_read; [exact Eq|by apply desc_at_run]). rewrite Hn. erewrite bind_ret by reflexivity.
  erewrite bind_ret by (eapply on_queue_run; [exact Eq|apply put_desc_run; cbn; eauto]).
  erewrite bind_ret by (eapply on_queue_run; [cbn; apply lookup_insert_eq|reflexivity]).
  erewrite bind_ret by (apply queue_run; cbn; apply lookup_insert_eq). cbn [free_num num set_free set_descs].
  unfold u16. rewrite wrap_id by (unfold in_u; lia). rewrite (proj2 (Z.leb_le _ _)) by lia. unfold set_queue. cbn. by rewrite insert_insert_eq.
Qed.

Lemma clear_run d qidx q h x i t : queues d !! qidx = Some q → desc q !! h = Some x → 0 < d_len x → d_flags x = VRING_DESC_F_INDIRECT →
  find_table (λ t, paddr t =? d_addr x) 0 (indirect d) = Some i → indirect d !! i = Some t → in_use t = true →
  clear_indirect_table qidx h d =
    Ret tt (set_indirect (<[i := mk_table false (descs t) (paddr t)]> (indirect d)) (set_queue qidx (set_descs (<[h := mk_desc (d_addr x) 0 0 (d_next x)]> (desc q)) q) d)).
Proof.
  intros Eq Ex Hl Hf Hi Et Hu. unfold clear_indirect_table. erewrite bind_ret by (eapply on_queue_read; [exact Eq|by apply desc_at_run]).
  rewrite (proj2 (Z.ltb_lt _ _)) by lia. erewrite bind_ret by reflexivity. unfold has. rewrite Hf. erewrite bind_ret by reflexivity.
  erewrite bind_ret by (eapply on_queue_run; [exact Eq|apply put_desc_run; eauto]). erewrite bind_ret by reflexivity. cbn [indirect set_queue].
  rewrite Hi. rewrite Et. erewrite bind_ret by reflexivity. rewrite Hu. by erewrite bind_ret by reflexivity.
Qed.

(** The first part of [virtio_from_queue] when there is a finished request. *)
Lemma poll_start d qidx q h len dt tl : 0 ≤ qidx < num_queues d → queues d !! qidx = Some q → last_used q ≠ used_idx q mod num q →
  used_ring q !! last_used q = Some (h, len) → 0 ≤ h < num q → data q !! h = Some dt → dt ≠ 0 → desc q !! free_tail q = Some tl → has VRING_DESC_F_NEXT tl = true →
  virtio_from_queue qidx d =
    recycle qidx h (h, len) (set_queue qidx (set_descs (<[free_tail q := set_next h tl]> (desc q)) (set_last_used ((last_used q + 1) mod num q) q)) d).
Proof.
  intros Hq Eq Hne Hu Hh Hd Hdt Ht Hn. unfold virtio_from_queue. erewrite bind_ret by reflexivity.
  rewrite (proj2 (Z.leb_le _ _)), (proj2 (Z.ltb_lt _ _)) by lia. cbn [andb]. erewrite bind_ret by reflexivity. erewrite bind_ret by (by apply queue_run).
  rewrite (proj2 (Z.eqb_neq _ _)) by done. rewrite Hu. erewrite bind_ret by reflexivity.
  erewrite bind_ret by (eapply on_queue_run; [exact Eq|reflexivity]). cbn [fst snd]. rewrite (Z.mod_small h) by lia. rewrite Hd. erewrite bind_ret by reflexivity.
  rewrite (proj2 (Z.eqb_neq _ _)) by done. erewrite bind_ret by reflexivity.
  erewrite bind_ret by (eapply on_queue_read; [cbn; apply lookup_insert_eq|by apply desc_at_run]). rewrite Hn. erewrite bind_ret by reflexivity.
  erewrite bind_ret by (eapply on_queue_run; [cbn; apply lookup_insert_eq|apply put_desc_run; cbn; eauto]).
  unfold set_queue. cbn. by rewrite insert_insert_eq.
Qed.

(** The rest of it, for a chain and for a table. *)
Lemma recycle_chain d qidx q h len dt l z x : queues d !! qidx = Some q → lseg (nx (desc q)) (Some h) l (Some z) → desc q !! z = Some x →
  has VRING_DESC_F_NEXT x = false → has VRING_DESC_F_INDIRECT x = false → (∀ k y, k ∈ l → desc q !! k = Some y → has VRING_DESC_F_INDIRECT y = false) →
  0 ≤ free_num q → free_num q + Z.of_nat (length l) + 1 ≤ num q → num q < 2 ^ 16 → data q !! h = Some dt →
  recycle qidx h (h, len) d = Ret (Some (dt, len)) (set_queue qidx (set_data (<[h := 0]> (data q)) (set_free (free_num q + (Z.of_nat (length l) + 1)) (free_head q) z
    (set_descs (<[z := mk_desc (d_addr x) (d_len x) VRING_DESC_F_NEXT (free_head q)]> (desc q)) q))) d).
Proof.
  intros Eq Hs Hx Hn Hi Hl Hf0 Hf Hnum Hd. unfold recycle. erewrite bind_ret by (by apply queue_run).
  erewrite bind_ret by (eapply (chain_loop_run d qidx q z x); [done|done|done|done|done|lia]). cbn beta iota. rewrite Z.add_0_l.
  erewrite bind_ret by (eapply on_queue_read; [exact Eq|by apply desc_at_run]). rewrite Hi. erewrite bind_ret by reflexivity.
  erewrite bind_ret by (eapply free_chain_run; [done|done|done|lia|lia]).
  erewrite bind_ret by (apply queue_run; cbn; apply lookup_insert_eq). cbn [data set_free set_descs fst]. rewrite Hd. erewrite bind_ret by reflexivity.
  erewrite bind_ret by (eapply on_queue_run; [cbn; apply lookup_insert_eq|apply put_data_run; cbn; eauto]).
  unfold set_queue. cbn. by rewrite insert_insert_eq.
Qed.

Lemma recycle_table d qidx q h len dt x i t : queues d !! qidx = Some q → desc q !! h = Some x → 0 < d_len x → d_flags x = VRING_DESC_F_INDIRECT →
  find_table (λ t, paddr t =? d_addr x) 0 (indirect d) = Some i → indirect d !! i = Some t → in_use t = true →
  0 ≤ free_num q → free_num q + 1 ≤ num q → num q < 2 ^ 16 → data q !! h = Some dt →
  recycle qidx h (h, len) d = Ret (Some (dt, len)) (set_queue qidx (set_data (<[h := 0]> (data q)) (set_free (free_num q + 1) (free_head q) h
    (set_descs (<[h := mk_desc (d_addr x) 0 VRING_DESC_F_NEXT (free_head q)]> (desc q)) q)))
    (set_indirect (<[i := mk_table false (descs t) (paddr t)]> (indirect d)) d)).
Proof.
  intros Eq Hx Hl Hfl Hi Et Hu Hf0 Hf Hnum Hd. unfold recycle. erewrite bind_ret by (by apply queue_run).
  erewrite bind_ret by (eapply (chain_loop_run d qidx q h x) with (l := []); [done|done|by unfold has; rewrite Hfl|done|by intros ? ? ?%elem_of_nil|simpl; lia]). cbn beta iota.
  erewrite bind_ret by (eapply on_queue_read; [exact Eq|by apply desc_at_run]). unfold has at 1. rewrite Hfl. change (negb (VRING_DESC_F_INDIRECT .& VRING_DESC_F_INDIRECT =? 0)) with true. cbv iota.
  erewrite bind_ret by (by eapply clear_run).
  erewrite bind_ret by (eapply free_chain_run; [cbn; apply lookup_insert_eq|cbn; apply lookup_insert_eq|done|cbn; lia|cbn; lia]).
  erewrite bind_ret by (apply queue_run; cbn; apply lookup_insert_eq). cbn [data set_free set_descs fst]. rewrite Hd. erewrite bind_ret by reflexivity.
  erewrite bind_ret by (eapply on_queue_run; [cbn; apply lookup_insert_eq|apply put_data_run; cbn; eauto]).
  unfold set_queue, set_indirect. cbn. by rewrite !insert_insert_eq.
Qed.

Definition del_request (a : qspec) (h : Z) (C : list (Z * Z)) : qspec := mk_qspec (q_host a) (delete h (q_reqs a)) (q_pend a) C.

Definition del_owner (owner : gmap nat (Z * Z)) (r : request) : gmap nat (Z * Z) :=
  match r_table r with Some k => delete k owner | None => owner end.

Lemma owner_del d A owner qidx a h r C : dev_ok d A owner → A !! qidx = Some a → q_reqs a !! h = Some r →
  ∀ k i h', del_owner owner r !! k = Some (i, h') ↔
    ∃ b r', <[qidx := del_request a h C]> A !! i = Some b ∧ q_reqs b !! h' = Some r' ∧ r_table r' = Some k.
Proof.
  intros [_ _ _ _ _ D6] Ha Hh k i h'. unfold del_owner.
  assert ((∃ b r', <[qidx := del_request a h C]> A !! i = Some b ∧ q_reqs b !! h' = Some r' ∧ r_table r' = Some k) ↔
    owner !! k = Some (i, h') ∧ ¬ (i = qidx ∧ h' = h)) as ->.
  { rewrite D6. destruct (decide (i = qidx)) as [->|Hne].
    - setoid_rewrite lookup_insert_eq. split.
      + intros (b & r' & [= <-] & Hr & Ht). cbn [q_reqs del_request] in Hr. apply lookup_delete_Some in Hr as [Hne Hr]. split; [eauto|]. naive_solver.
      + intros [(b & r' & Hb & Hr & Ht) Hn]. eexists _, _. split; [reflexivity|]. cbn [q_reqs del_request].
        rewrite Ha in Hb. injection Hb as <-. rewrite lookup_delete_ne by naive_solver. done.
    - setoid_rewrite lookup_insert_ne; [|done]. naive_solver. }
  pose proof (proj2 (D6 k qidx h)) as Hk. destruct (r_table r) as [k0|] eqn:Ek.
  - pose proof (proj2 (D6 k0 qidx h) ltac:(eauto)) as Hk0. destruct (decide (k = k0)) as [->|Hne].
    + rewrite lookup_delete_eq. rewrite Hk0. naive_solver.
    + rewrite lookup_delete_ne by done. split; [|naive_solver]. intros Ho. split; [done|]. intros [-> ->]. apply D6 in Ho as (b & r' & Hb & Hr & Ht). congruence.
  - split; [|naive_solver]. intros Ho. split; [done|]. intros [-> ->]. apply D6 in Ho as (b & r' & Hb & Hr & Ht). congruence.
Qed.

Section poll.
Context (d : device) (A : gmap Z qspec) (owner : gmap nat (Z * Z)) (qidx : Z) (a : qspec) (q : virtio_queue) (fr : list Z) (h len : Z) (C : list (Z * Z)) (r : request).
Context (HD : dev_ok d A owner) (Ha : A !! qidx = Some a) (Eq : queues d !! qidx = Some q) (Hr : q_reqs a !! h = Some r).
Context (HQ : queue_ok (indirect d) q (q_host a) (q_reqs a) (q_pend a) ((h, len) :: C) fr).

Definition poll_goal : Prop := ∃ d' owner', virtio_from_queue qidx d = Ret (Some (r_data r, len)) d' ∧ same_rest d d' ∧
  dev_ok d' (<[qidx := del_request a h C]> A) owner'.

(** The queue with the tail of the free list linked to the request. *)
Definition linked (tl : vring_desc) : virtio_queue :=
  set_descs (<[free_tail q := set_next h tl]> (desc q)) (set_last_used ((last_used q + 1) mod num q) q).

Lemma poll_facts : ∃ tl, virtio_from_queue qidx d = recycle qidx h (h, len) (set_queue qidx (linked tl) d) ∧
  lseg (nx (desc (linked tl))) (Some (free_head q)) fr (Some h) ∧ (∀ k, k ∉ fr → desc (linked tl) !! k = desc q !! k) ∧
  (∀ k, k ∈ fr → is_Some (desc (linked tl) !! k)) ∧ 0 ≤ free_num q ∧ free_num q + Z.of_nat (length (r_descs r)) ≤ num q ∧ num q < 2 ^ 16 ∧ data q !! h = Some (r_data r).
Proof.
  pose proof HQ as [[Hn Hn2] (x & Hs) Ht Hc Hd Hdom Hreq Hp Hav (U1 & U2 & U3 & U4)]. destruct (Hreq h r Hr) as (R1 & R2 & R3 & R4).
  pose proof (counts _ _ _ _ _ _ _ HQ) as Hcn. pose proof (free_nonempty _ _ _ _ _ _ _ HQ) as Hne. cbn [length] in Hcn, U3.
  assert (0 ≤ h < num q) as Hh. { apply (descs_range _ _ _ _ _ _ _ HQ), elem_of_app. right. apply all_descs_elem. exists h, r. split; [done|]. destruct (r_descs r); [done|injection R1 as ->; left]. }
  assert (free_tail q ∈ fr) as Htl. { apply last_Some in Ht as [l ->]. set_solver. }
  destruct (Hdom (free_tail q)) as ([tl Etl] & _); [apply (descs_range _ _ _ _ _ _ _ HQ); set_solver|].
  pose proof (descs_nodup _ _ _ _ _ _ _ HQ) as Hnd. pose proof Hnd as (Hndf & _)%list.NoDup_app.
  destruct (tail_linked _ _ _ _ _ _ h Hs Ht Hndf Etl) as [Hs1 Hnx]. exists tl. split_and!; try done; try lia.
  - eapply poll_start; try done; [apply (do_queues _ _ _ HD); eauto| |by specialize (U4 0%nat _ eq_refl); rewrite Z.add_0_r, Z.mod_small in U4].
    rewrite U3. intros E. replace (last_used q) with ((last_used q + 0) mod num q) in E at 1 by (rewrite Z.add_0_r; apply Z.mod_small; lia). revert E. apply mod_apart; lia.
  - intros k Hk. cbn. by rewrite lookup_insert_ne by (by intros <-).
  - intros k Hk. cbn. destruct (decide (k = free_tail q)) as [->|]; [rewrite lookup_insert_eq; eauto|rewrite lookup_insert_ne by done].
    apply Hdom, (descs_range _ _ _ _ _ _ _ HQ). set_solver.
  - rewrite (all_descs_delete _ h r Hr) in Hd. apply Permutation_length in Hd. rewrite !length_app, length_seqZ in Hd. lia.
Qed.

Lemma linked_holds tl : (∀ k, k ∉ fr → desc (linked tl) !! k = desc q !! k) → ∀ k, k ∈ r_descs r → desc (linked tl) !! k = desc q !! k.
Proof. intros Hl k Hk. apply Hl. intros Hf. by apply (free_not_request _ _ _ _ _ _ _ HQ k h r). Qed.

Lemma poll_chain : r_table r = None → poll_goal.
Proof.
  intros Et. destruct poll_facts as (tl & E & Hs1 & Hm & Hmd & F1 & F2 & F3 & F4). pose proof (linked_holds tl Hm) as Hmr.
  destruct (qo_req _ _ _ _ _ _ _ HQ h r Hr) as (R1 & _ & _ & R4). unfold request_ok in R4. rewrite Et in R4. apply (holds_ext _ (desc (linked tl))) in R4; [|done].
  pose proof (λ k, holds_lookup _ _ _ k R4) as Hlk. destruct (holds_split _ _ _ R4) as (l & z & x & El & Hs & Hx & Hxn & Hxi & Hl). rewrite R1 in Hs.
  rewrite El, length_app in F2. cbn [length] in F2.
  pose proof (recycle_chain (set_queue qidx (linked tl) d) qidx (linked tl) h len (r_data r) l z x) as HR. cbn in HR.
  rewrite HR in E; try done; [|apply lookup_insert_eq|lia]. clear HR. set (m3 := <[z := mk_desc _ _ _ (free_head q)]> _) in E.
  assert (polled q m3 (Z.of_nat (length (r_descs r))) h z = set_data (<[h := 0]> (data q)) (set_free (free_num q + (Z.of_nat (length l) + 1)) (free_head q) z (set_descs m3 (linked tl)))) as EP.
  { unfold polled. rewrite El, length_app. cbn [length]. do 2 f_equal. lia. }
  eexists _, (del_owner owner r). split; [exact E|]. split; [done|]. unfold del_owner at 1. rewrite Et.
  eapply (dev_ok_update d A owner _ qidx _ a); [done|done|cbn; rewrite insert_insert_eq; reflexivity|done| | | | |].
  - cbn [indirect set_queue]. rewrite <- EP. apply (polled_ok (indirect d) (indirect d) q _ _ _ h len C fr r m3 z HQ Hr).
    + eapply lseg_ext, Hs1. intros k Hk. unfold nx, m3. rewrite lookup_insert_ne; [done|]. intros <-. apply (free_not_request _ _ _ _ _ _ _ HQ z h r Hk Hr). rewrite El. set_solver.
    + rewrite El. apply lseg_snoc. split; [|unfold nx, m3; by rewrite lookup_insert_eq]. eapply lseg_ext, Hs. intros k Hk. unfold nx, m3. rewrite lookup_insert_ne; [done|].
      intros <-. pose proof (descs_nodup _ _ _ _ _ _ _ HQ) as (_ & _ & Hnd)%list.NoDup_app. rewrite (all_descs_delete _ h r Hr), El in Hnd.
      apply list.NoDup_app in Hnd as ((_ & Hnd & _)%list.NoDup_app & _). apply (Hnd _ Hk). left.
    + rewrite El. apply last_snoc.
    + intros k Hk. unfold m3. rewrite lookup_insert_ne by (intros <-; apply Hk; rewrite El; set_solver). apply Hm. set_solver.
    + intros k Hk. unfold m3. destruct (decide (k = z)) as [->|]; [rewrite lookup_insert_eq; eauto|rewrite lookup_insert_ne by done].
      apply elem_of_app in Hk as [Hk|Hk]; auto.
    + done.
  - done.
  - apply HD.
  - eauto.
  - pose proof (owner_del d A owner qidx a h r C HD Ha Hr) as Ho. unfold del_owner in Ho. rewrite Et in Ho. exact Ho.
Qed.

Lemma poll_table i : r_table r = Some i → poll_goal.
Proof.
  intros Ei. destruct poll_facts as (tl & E & Hs1 & Hm & Hmd & F1 & F2 & F3 & F4). pose proof (linked_holds tl Hm) as Hmr.
  destruct (qo_req _ _ _ _ _ _ _ HQ h r Hr) as (R1 & _ & _ & R4). unfold request_ok in R4. rewrite Ei in R4.
  destruct R4 as (h' & t & x & Ed & Et & Hu & Ex & Hp & Hf & Hl & Hh & Hpos). rewrite Ed in *. injection R1 as ->. cbn [length] in F2.
  assert (desc (linked tl) !! h = Some x) as Ex' by (rewrite Hmr by left; done).
  assert (find_table (λ t, paddr t =? d_addr x) 0 (indirect d) = Some i) as Hfi.
  { apply (find_table_in _ _ i t); [|done|by apply Z.eqb_eq]. intros j u Hj Hju%Z.eqb_eq. eapply (do_paddr _ _ _ HD); [exact Hj|exact Et|congruence]. }
  pose proof (recycle_table (set_queue qidx (linked tl) d) qidx (linked tl) h len (r_data r) x i t) as HR. cbn in HR.
  rewrite HR in E; try done; [|apply lookup_insert_eq|lia]. clear HR. set (m3 := <[h := mk_desc _ _ _ (free_head q)]> _) in E.
  assert (polled q m3 (Z.of_nat (length (r_descs r))) h h = set_data (<[h := 0]> (data q)) (set_free (free_num q + 1) (free_head q) h (set_descs m3 (linked tl)))) as EP by (unfold polled; by rewrite Ed).
  set (ts' := <[i := mk_table false (descs t) (paddr t)]> (indirect d)) in *. pose proof (lookup_lt_Some _ _ _ Et) as Hlt.
  assert (owner !! i = Some (qidx, h)) as Hoi by (apply (do_owner _ _ _ HD); eauto).
  eexists _, (del_owner owner r). split; [exact E|]. split; [done|].
  eapply (dev_ok_update d A owner _ qidx _ a); [done|done|cbn; rewrite insert_insert_eq; reflexivity|done| | | | |].
  - cbn [indirect set_queue set_indirect]. rewrite <- EP. fold ts'.
    assert (Efr : fr ++ [h] = fr ++ r_descs r) by (by rewrite Ed). apply (polled_ok (indirect d) ts' q _ _ _ h len C fr r m3 h HQ Hr).
    + eapply lseg_ext, Hs1. intros k Hk. unfold nx, m3. rewrite lookup_insert_ne; [done|]. intros <-. apply (free_not_request _ _ _ _ _ _ _ HQ h h r Hk Hr). rewrite Ed. left.
    + rewrite Ed. split; [done|]. exists (Some (free_head q)). split; [unfold nx, m3; by rewrite lookup_insert_eq|done].
    + by rewrite Ed.
    + rewrite <- Efr. intros k Hk. unfold m3. rewrite lookup_insert_ne by set_solver. apply Hm. set_solver.
    + rewrite <- Efr. intros k Hk. unfold m3. destruct (decide (k = h)) as [->|]; [rewrite lookup_insert_eq; eauto|rewrite lookup_insert_ne by done]. apply Hmd. set_solver.
    + intros h' r' j Hne Hr' Hj. unfold ts'. rewrite list_lookup_insert_ne; [done|]. intros <-.
      rewrite (proj2 (do_owner _ _ _ HD i qidx h')) in Hoi by eauto. congruence.
  - intros k j h' Hne Hk. cbn [indirect set_queue set_indirect]. fold ts'. unfold ts'. rewrite list_lookup_insert_ne; [done|]. intros <-. congruence.
  - cbn [indirect set_queue set_indirect]. intros k u [(<- & <- & _)|[Hne Hk]]%list_lookup_insert_Some; unfold del_owner; rewrite Ei.
    + rewrite lookup_delete_eq. destruct (do_tables _ _ _ HD i t Et) as [Hok _]. split; [done|]. cbn. split; [done|]. by intros [? ?].
    + rewrite lookup_delete_ne by done. by apply HD.
  - cbn [indirect set_queue set_indirect]. intros k u [(<- & <- & _)|[Hne Hk]]%list_lookup_insert_Some; eauto.
  - by apply (owner_del d A owner qidx a h r C HD).
Qed.

End poll.

Lemma poll_ok d A owner qidx a : dev_ok d A owner → A !! qidx = Some a →
  match q_comp a with
  | [] => virtio_from_queue qidx d = Ret None d
  | (h, len) :: C => ∃ r, q_reqs a !! h = Some r ∧ poll_goal d A qidx a h len C r
  end.
Proof.
  intros HD Ha. destruct (proj2 (do_queues _ _ _ HD qidx)) as [q Eq]; [apply (do_specs _ _ _ HD); eauto|].
  destruct (do_ok _ _ _ HD qidx q a Eq Ha) as [fr HQ]. destruct (q_comp a) as [|[h len] C] eqn:Ec.
  - destruct (qo_used _ _ _ _ _ _ _ HQ) as (U1 & U2 & U3 & _). cbn [length] in U3. rewrite Z.add_0_r, (Z.mod_small (last_used q)) in U3 by lia.
    assert (0 ≤ qidx < num_queues d) by (apply (do_queues _ _ _ HD); eauto). unfold virtio_from_queue. erewrite bind_ret by reflexivity.
    rewrite (proj2 (Z.leb_le _ _)), (proj2 (Z.ltb_lt _ _)) by lia. cbn [andb]. erewrite bind_ret by reflexivity. erewrite bind_ret by (by apply queue_run).
    by rewrite U3, Z.eqb_refl.
  - assert (∃ r, q_reqs a !! h = Some r) as [r Hr].
    { pose proof (qo_part _ _ _ _ _ _ _ HQ) as Hp. assert (h ∈ (map_to_list (q_reqs a)).*1) as Hin by (rewrite <- Hp; set_solver).
      apply list_elem_of_fmap in Hin as ([h' r] & -> & Hin%elem_of_map_to_list). eauto. }
    exists r. split; [done|]. destruct (r_table r) as [i|] eqn:Et; [by eapply poll_table|by eapply poll_chain].
Qed.

(** ** The queues are made *)

Definition zeros {A} (n : Z) (a : A) : gmap Z A := list_to_map ((λ i, (i, a)) <$> seqZ 0 n).

(** The memory of the ring is cleared, and all descriptors are put on the free list. *)
Definition init_phys_queue : M virtio_queue unit :=
  modify (λ q, mk_queue (num q) (zeros (num q) (mk_desc 0 0 0 0)) 0 (zeros (num q) 0) 0 0 (zeros (num q) (0, 0))
                 (free_num q) (free_head q) (free_tail q) (last_used q) (zeros (num q) 0)) ;;
  n ← gets num;
  for_range (Z.to_nat n) 0 (λ i, d ← desc_at (Z.of_nat i);
    put_desc (Z.of_nat i) (mk_desc (d_addr d) (d_len d) VRING_DESC_F_NEXT ((Z.of_nat i + 1) .& (n - 1)))) ;;
  modify (λ q, set_last_used 0 (set_free (num q) 0 (u16 (num q - 1)) q)).

(** [page] is the memory of the table, at the address [pa]. *)
Definition init_indirect_desc_table (page : gmap Z vring_desc) (pa : Z) : indirect_desc_table :=
  mk_table false (zeros ((64 + 64 / 2)) (mk_desc 0 0 0 0) ∪ page) pa.

Lemma zeros_lookup {A} n (a : A) i : zeros n a !! i = if decide (0 ≤ i < n) then Some a else None.
Proof.
  unfold zeros. case_decide as Hi.
  - apply elem_of_list_to_map_1.
    + rewrite <- list_fmap_compose. cbn. rewrite list_fmap_id. apply NoDup_seqZ.
    + apply list_elem_of_fmap. exists i. split; [done|]. rewrite elem_of_seqZ. lia.
  - apply not_elem_of_list_to_map_1. rewrite <- list_fmap_compose. cbn. rewrite list_fmap_id, elem_of_seqZ. lia.
Qed.

Lemma for_range_descs (q : virtio_queue) (f : Z → vring_desc → vring_desc) n : ∀ i q, (∀ k, Z.of_nat i ≤ k < Z.of_nat (i + n) → is_Some (desc q !! k)) →
  ∃ m, for_range n i (λ i, d ← desc_at (Z.of_nat i); put_desc (Z.of_nat i) (f (Z.of_nat i) d)) q = Ret tt (set_descs m q) ∧
    ∀ k, m !! k = if decide (Z.of_nat i ≤ k < Z.of_nat (i + n)) then f k <$> desc q !! k else desc q !! k.
Proof.
  induction n as [|n IH]; intros i q' Hd; cbn [for_range].
  - exists (desc q'). rewrite set_descs_id. split; [done|]. intros k. rewrite decide_False by lia. done.
  - destruct (Hd (Z.of_nat i)) as [x Hx]; [lia|]. set (q1 := set_descs (<[Z.of_nat i := f (Z.of_nat i) x]> (desc q')) q').
    destruct (IH (S i) q1) as (m & E & Hm).
    { intros k Hk. cbn. rewrite lookup_insert_ne by lia. apply Hd. lia. }
    exists m. split.
    + erewrite bind_ret by (erewrite bind_ret by (by apply desc_at_run); apply put_desc_run; eauto). exact E.
    + intros k. rewrite Hm. cbn [desc q1 set_descs]. destruct (decide (k = Z.of_nat i)) as [->|Hne].
      * rewrite decide_False, decide_True by lia. by rewrite lookup_insert_eq, Hx.
      * rewrite lookup_insert_ne by done. do 2 case_decide; lia || done.
Qed.

(** The descriptors are linked in their order. *)
Lemma init_seg m n : (∀ i, 0 ≤ i < n → ∃ d, m !! i = Some d ∧ has VRING_DESC_F_NEXT d = true ∧ d_next d = (i + 1) mod n) → 0 < n → ∀ k i, 0 ≤ i → i + Z.of_nat k = n →
  (0 < k)%nat → lseg (nx m) (Some i) (seqZ i (Z.of_nat k)) (Some 0).
Proof.
  intros Hm Hn. induction k as [|k IH]; intros i Hi Hk Hp; [lia|]. rewrite seqZ_cons by lia. split; [done|].
  destruct (Hm i ltac:(lia)) as (d & Hd & Hf & Hnx). exists (Some (d_next d)). split; [unfold nx; rewrite Hd; cbn; by rewrite Hf|]. rewrite Hnx.
  destruct (decide (k = 0%nat)) as [->|Hk0].
  - replace (i + 1) with n by lia. rewrite Z.mod_same by lia. done.
  - rewrite Z.mod_small by lia. replace (Z.pred (Z.of_nat (S k))) with (Z.of_nat k) by lia. rewrite <- Z.add_1_r. apply IH; lia.
Qed.

Lemma last_seqZ n : 0 < n → list.last (seqZ 0 n) = Some (n - 1).
Proof.
  intros Hn. rewrite last_lookup, length_seqZ. apply lookup_seqZ. lia.
Qed.

Lemma init_queue_ok ts q k : num q = 2 ^ k → 0 ≤ k < 16 →
  ∃ q', init_phys_queue q = Ret tt q' ∧ queue_ok ts q' (mk_host 0 []) ∅ [] [] (seqZ 0 (2 ^ k)).
Proof.
  intros Hn Hk. set (n := 2 ^ k) in *. assert (0 < n < 2 ^ 16) as Hpos by (unfold n; split; [lia|]; apply Z.pow_lt_mono_r; lia).
  set (q0 := mk_queue n (zeros n (mk_desc 0 0 0 0)) 0 (zeros n 0) 0 0 (zeros n (0, 0)) (free_num q) (free_head q) (free_tail q) (last_used q) (zeros n 0)).
  destruct (for_range_descs q0 (λ i d, mk_desc (d_addr d) (d_len d) VRING_DESC_F_NEXT ((i + 1) .& (n - 1))) (Z.to_nat n) 0 q0) as (m & E & Hm).
  { intros i Hi. cbn. rewrite zeros_lookup, decide_True by lia. eauto. }
  assert (∀ i, 0 ≤ i < n → ∃ d, m !! i = Some d ∧ has VRING_DESC_F_NEXT d = true ∧ d_next d = (i + 1) mod n) as Hmd.
  { intros i Hi. rewrite Hm, decide_True by lia. cbn [desc q0]. rewrite zeros_lookup, decide_True by lia. eexists. split; [reflexivity|]. split; [done|]. cbn [d_next].
    unfold n. rewrite <- Z.land_ones by lia. by rewrite Z.ones_equiv, Z.sub_1_r. }
  eexists. split.
  - unfold init_phys_queue. erewrite bind_ret by reflexivity. cbn [num]. erewrite bind_ret by reflexivity. cbn [num]. rewrite Hn. erewrite bind_ret by exact E. reflexivity.
  - split; cbn [num desc avail_idx avail_ring used_flags used_idx used_ring free_num free_head free_tail last_used data set_last_used set_free set_descs q0 h_idx h_taken].
    + split; [lia|]. unfold n. exists (2 ^ (16 - k)). rewrite <- Z.pow_add_r by lia. f_equal. lia.
    + exists (Some 0). pose proof (init_seg m n Hmd ltac:(lia) (Z.to_nat n) 0) as Hs. rewrite Z2Nat.id in Hs by lia. apply Hs; lia.
    + rewrite last_seqZ by lia. unfold u16. rewrite wrap_id by (unfold in_u; lia). done.
    + rewrite length_seqZ. lia.
    + unfold all_descs. rewrite map_to_list_empty. cbn. by rewrite app_nil_r.
    + intros i Hi. destruct (Hmd i Hi) as (d & Hd & _). rewrite !zeros_lookup, !decide_True by lia. split_and!; eauto.
    + intros h r. by rewrite lookup_empty.
    + by rewrite map_to_list_empty.
    + split; [lia|]. split; [done|]. by intros j h.
    + split; [lia|]. split; [lia|]. cbn [length]. split; [done|]. by intros j c.
Qed.

(** *** The layout of a ring *)

(** The addresses of the available and of the used ring, after [num] descriptors at [p];
    the last two bytes of each are for the event index. *)
Definition vring_avail (n p : Z) : Z := p + n * 16.
Definition vring_used (n p align : Z) : Z := (vring_avail n p + 4 + 2 * n + 2 + align - 1) .& Z.lnot (align - 1).
Definition vring_size (n align : Z) : Z := ((16 * n + 2 * (3 + n) + align - 1) .& Z.lnot (align - 1)) + 2 * 3 + 8 * n.

(** The parts are apart and within [vring_size]. *)
Lemma vring_layout n p k : 0 ≤ n → 0 ≤ k → p mod 2 ^ k = 0 →
  p + n * 16 ≤ vring_avail n p ∧ vring_avail n p + 4 + 2 * n + 2 ≤ vring_used n p (2 ^ k) ∧
  vring_used n p (2 ^ k) mod 2 ^ k = 0 ∧ vring_used n p (2 ^ k) + 4 + 8 * n + 2 = p + vring_size n (2 ^ k).
Proof.
  intros Hn Hk Hp. unfold vring_used, vring_size, vring_avail. replace (Z.lnot (2 ^ k - 1)) with (- 2 ^ k) by (unfold Z.lnot; lia). rewrite !land_not_mask by done.
  set (x := p + n * 16 + 4 + 2 * n + 2 + 2 ^ k - 1). set (y := 16 * n + 2 * (3 + n) + 2 ^ k - 1).
  assert (x mod 2 ^ k = y mod 2 ^ k) as E by (replace x with (p + y) by (unfold x, y; lia); rewrite <- Zplus_mod_idemp_l, Hp; done).
  pose proof (Z.mod_pos_bound x (2 ^ k) ltac:(lia)). split_and!; [lia|unfold x in *; lia| |rewrite E; unfold x, y; lia].
  rewrite Zminus_mod_idemp_r, Z.sub_diag. apply Z.mod_0_l. lia.
Qed.

Definition OK : Z := 0.
Definition EINVAL : Z := -22.
Definition ENOMEM : Z := -12.

(** The tables are in the pages [pages], each with the address the device knows it by. *)
Definition init_indirect_desc_tables (pages : list (gmap Z vring_desc * Z)) : M device unit :=
  modify (set_indirect ((λ p, init_indirect_desc_table (fst p) (snd p)) <$> pages)).

Section alloc.
(** The size of a queue in the registers of the device; whether there is memory for a
    queue, and for all of them. *)
Context (conf : Z → Z) (heap : Z → bool) (heap_queues : bool).

Definition empty_queue : virtio_queue := mk_queue 0 ∅ 0 ∅ 0 0 ∅ 0 0 0 0 ∅.
Definition set_num (n : Z) (q : virtio_queue) : virtio_queue :=
  mk_queue n (desc q) (avail_idx q) (avail_ring q) (used_flags q) (used_idx q) (used_ring q) (free_num q) (free_head q) (free_tail q) (last_used q) (data q).

(** The error path frees the queue [i], which has no memory, once for each queue before. *)
Definition free_phys_queues (i r : Z) : M device Z :=
  if i =? 0 then mret r else λ _, AssertFailed.

Fixpoint init_phys_queues (n : nat) (i : Z) : M device Z :=
  match n with
  | O => mret OK
  | S n =>
      let nm := u16 (conf i) in
      on_queue i (modify (set_num nm)) ;;
      if negb (nm .& (nm - 1) =? 0) then free_phys_queues i EINVAL else
      if negb (heap i) then free_phys_queues i ENOMEM else
      ASSERT (8 * nm <? 4096) ;;
      on_queue i init_phys_queue ;;
      init_phys_queues n (i + 1)
  end.

(** The result of a failed initialisation is 1, for [r = init_phys_queues (dev) != OK]. *)
Definition virtio_alloc_queues (n : Z) : M device Z :=
  if (n <? 0) || (256 <? n) then mret EINVAL else
  modify (λ d, mk_dev (if heap_queues then zeros n empty_queue else ∅) n (threads d) (indirect d) (notified d)) ;;
  if negb heap_queues then mret ENOMEM else
  r ← init_phys_queues (Z.to_nat n) 0;
  if negb (r =? OK) then
    modify (λ d, mk_dev ∅ (num_queues d) (threads d) (indirect d) (notified d)) ;; mret 1
  else mret OK.

Lemma init_phys_queues_run d0 n : ∀ i d, (∀ j, i ≤ j < i + Z.of_nat n → ∃ k, conf j = 2 ^ k ∧ 0 ≤ k ≤ 8 ∧ heap j = true) →
  (∀ j, i ≤ j < i + Z.of_nat n → is_Some (queues d !! j)) → num_queues d = num_queues d0 → threads d = threads d0 → indirect d = indirect d0 →
  ∃ d', init_phys_queues n i d = Ret OK d' ∧ num_queues d' = num_queues d0 ∧ threads d' = threads d0 ∧ indirect d' = indirect d0 ∧
    (∀ j, ¬ i ≤ j < i + Z.of_nat n → queues d' !! j = queues d !! j) ∧
    (∀ j, i ≤ j < i + Z.of_nat n → ∃ q fr, queues d' !! j = Some q ∧ queue_ok (indirect d0) q (mk_host 0 []) ∅ [] [] fr).
Proof.
  induction n as [|n IH]; intros i d Hc Hq En Et Ei; cbn [init_phys_queues].
  - exists d. split_and!; try done. intros j Hj. lia.
  - destruct (Hc i) as (k & Ek & Hk & Hh); [lia|]. destruct (Hq i) as [q Eq]; [lia|].
    assert (0 < 2 ^ k ≤ 256) as Hp by (split; [lia|]; change 256 with (2 ^ 8); apply Z.pow_le_mono_r; lia).
    assert (u16 (conf i) = 2 ^ k) as Eu by (rewrite Ek; apply wrap_id; unfold in_u; lia).
    destruct (init_queue_ok (indirect d0) (set_num (2 ^ k) q) k eq_refl) as (q' & Eq' & HQ); [lia|].
    destruct (IH (i + 1) (set_queue i q' d)) as (d' & E & D1 & D2 & D3 & D4 & D5).
    { intros j Hj. apply Hc. lia. } { intros j Hj. cbn. rewrite lookup_insert_ne by lia. apply Hq. lia. } { done. } { done. } { done. }
    exists d'. split_and!; try done.
    + rewrite Eu. erewrite bind_ret by (eapply on_queue_run; [exact Eq|reflexivity]).
      assert (2 ^ k .& (2 ^ k - 1) = 0) as El by (rewrite Z.sub_1_r, <- Z.ones_equiv, Z.land_ones by lia; apply Z.mod_same; lia).
      rewrite El, Hh. cbn [negb Z.eqb]. rewrite (proj2 (Z.ltb_lt _ _)) by lia. erewrite bind_ret by reflexivity.
      erewrite bind_ret by (eapply on_queue_run; [cbn; apply lookup_insert_eq|exact Eq']). unfold set_queue in *. cbn. by rewrite insert_insert_eq.
    + intros j Hj. rewrite D4 by lia. cbn. by rewrite lookup_insert_ne by lia.
    + intros j Hj. destruct (decide (j = i)) as [->|]; [|apply D5; lia]. exists q', (seqZ 0 (2 ^ k)). split; [|done].
      rewrite D4 by lia. cbn. by rewrite lookup_insert_eq.
Qed.

Definition idle : qspec := mk_qspec (mk_host 0 []) ∅ [] [].

Lemma alloc_ok d n : heap_queues = true → 0 ≤ n ≤ 256 → (∀ j, 0 ≤ j < n → ∃ k, conf j = 2 ^ k ∧ 0 ≤ k ≤ 8 ∧ heap j = true) →
  (∀ k t, indirect d !! k = Some t → table_ok t ∧ in_use t = false) →
  (∀ k k' t t', indirect d !! k = Some t → indirect d !! k' = Some t' → paddr t = paddr t' → k = k') →
  ∃ d', virtio_alloc_queues n d = Ret OK d' ∧ num_queues d' = n ∧ dev_ok d' (zeros n idle) ∅.
Proof.
  intros Hh Hn Hc Ht Hp. unfold virtio_alloc_queues. rewrite (proj2 (Z.ltb_ge n 0)), (proj2 (Z.ltb_ge 256 n)) by lia. cbn [orb]. rewrite Hh.
  erewrite bind_ret by reflexivity. cbn [negb]. set (d1 := mk_dev _ _ _ _ _).
  destruct (init_phys_queues_run d1 (Z.to_nat n) 0 d1) as (d' & E & D1 & D2 & D3 & D4 & D5); try done.
  { intros j Hj. apply Hc. lia. } { intros j Hj. cbn. rewrite zeros_lookup, decide_True by lia. eauto. }
  exists d'. split; [by erewrite bind_ret by exact E|]. split; [done|]. split.
  - intros j. rewrite D1. cbn [num_queues d1]. split.
    + intros Hj. destruct (decide (0 ≤ j < n)) as [|Hno]; [done|]. rewrite D4 in Hj by lia. cbn in Hj. rewrite zeros_lookup, decide_False in Hj by done. by destruct Hj.
    + intros Hj. destruct (D5 j) as (q & fr & Eq & _); [lia|]. eauto.
  - intros j. rewrite zeros_lookup, D1. cbn [num_queues d1]. case_decide; split; [done|eauto|by intros [? ?]|done].
  - intros j q a Eq Ha. rewrite zeros_lookup in Ha. case_decide as Hj; [|done]. injection Ha as <-. destruct (D5 j) as (q' & fr & Eq' & HQ); [lia|].
    assert (q' = q) as -> by congruence. exists fr. by rewrite D3.
  - rewrite D3. intros k t Hk. destruct (Ht k t Hk) as [? ->]. rewrite lookup_empty. split; [done|]. split; [done|by intros [? ?]].
  - by rewrite D3.
  - intros k i h. rewrite lookup_empty. split; [done|]. intros (a & r & Ha & Hr & _). rewrite zeros_lookup in Ha. case_decide; [|done]. injection Ha as <-. done.
Qed.

End alloc.

(** ** The driver and the device

    The specification of a queue: the requests with their buffers and the driver's
    pointer, those the device has not taken, those it has taken, and those it has
    finished, each in its order. *)

Record vq : Type := mk_vq { v_reqs : gmap Z (list addr_size * Z); v_pend : list Z; v_taken : list Z; v_comp : list (Z * Z) }.

Inductive event : Type :=
| Post (qidx : Z) (bufs : list addr_size) (dt : Z)
| Take (qidx : Z)
| Finish (qidx h len : Z)
| Poll (qidx : Z).

Inductive answer : Type :=
| Posted
| Took (h : Z) (bufs : list (Z * Z * bool))
| Finished
| Got (dt len : Z)
| Nothing
| Refused.

Definition without (h : Z) (l : list Z) : list Z := filter (λ x, x ≠ h) l.

Inductive spec (A : gmap Z vq) : event → answer → gmap Z vq → Prop :=
| spec_post i bufs dt v h : A !! i = Some v → v_reqs v !! h = None →
    spec A (Post i bufs dt) Posted (<[i := mk_vq (<[h := (bufs, dt)]> (v_reqs v)) (v_pend v ++ [h]) (v_taken v) (v_comp v)]> A)
| spec_take i v h P bufs dt : A !! i = Some v → v_pend v = h :: P → v_reqs v !! h = Some (bufs, dt) →
    spec A (Take i) (Took h (view <$> bufs)) (<[i := mk_vq (v_reqs v) P (v_taken v ++ [h]) (v_comp v)]> A)
| spec_wait i v : A !! i = Some v → v_pend v = [] → spec A (Take i) Nothing A
| spec_finish i v h len : A !! i = Some v → h ∈ v_taken v →
    spec A (Finish i h len) Finished (<[i := mk_vq (v_reqs v) (v_pend v) (without h (v_taken v)) (v_comp v ++ [(h, len)])]> A)
| spec_poll i v h len C bufs dt : A !! i = Some v → v_comp v = (h, len) :: C → v_reqs v !! h = Some (bufs, dt) →
    spec A (Poll i) (Got dt len) (<[i := mk_vq (delete h (v_reqs v)) (v_pend v) (v_taken v) C]> A)
| spec_none i v : A !! i = Some v → v_comp v = [] → spec A (Poll i) Nothing A
| spec_refused_post i bufs dt : spec A (Post i bufs dt) Refused A
| spec_refused_finish i h len : (∀ v, A !! i = Some v → h ∉ v_taken v) → spec A (Finish i h len) Refused A
| spec_no_queue e : (∀ i, e = Take i ∨ e = Poll i → A !! i = None) → (∃ i, e = Take i ∨ e = Poll i) → spec A e Refused A.

Inductive specs : gmap Z vq → list event → list answer → gmap Z vq → Prop :=
| specs_nil A : specs A [] [] A
| specs_cons A e a A' es l A'' : spec A e a A' → specs A' es l A'' → specs A (e :: es) (a :: l) A''.

(** The driver's code and the device, on the memory they share.  The driver posts a
    request only when there is room for it; the device finishes what it has taken. *)
Record system : Type := mk_system { dev : device; hosts : gmap Z host }.

Definition driver {A} (m : M device A) : M system A := zoom dev (λ d s, mk_system d (hosts s)) m.

Definition run_event (e : event) : M system answer :=
  match e with
  | Post i bufs dt =>
      d ← gets dev;
      if can_post d i bufs && negb (dt =? 0) then driver (virtio_to_queue i bufs dt) ;; mret Posted else mret Refused
  | Take i =>
      s ← gets (λ s, s);
      match queues (dev s) !! i, hosts s !! i with
      | Some q, Some e =>
          match host_take q e with
          | None => mret Nothing
          | Some h =>
              bufs ← deref (read_request (indirect (dev s)) q h);
              modify (λ s, mk_system (dev s) (<[i := mk_host (u16 (h_idx e + 1)) (h_taken e ++ [h])]> (hosts s))) ;;
              mret (Took h bufs)
          end
      | _, _ => mret Refused
      end
  | Finish i h len =>
      s ← gets (λ s, s);
      match queues (dev s) !! i, hosts s !! i with
      | Some q, Some e =>
          if bool_decide (h ∈ h_taken e) then
            modify (λ s, mk_system (set_queue i (host_finish q h len) (dev s)) (<[i := mk_host (h_idx e) (without h (h_taken e))]> (hosts s))) ;;
            mret Finished
          else mret Refused
      | _, _ => mret Refused
      end
  | Poll i =>
      s ← gets (λ s, s);
      match queues (dev s) !! i with
      | Some _ =>
          r ← driver (virtio_from_queue i);
          match r with Some (dt, len) => mret (Got dt len) | None => mret Nothing end
      | None => mret Refused
      end
  end.

Fixpoint run_events (es : list event) : M system (list answer) :=
  match es with [] => mret [] | e :: es => a ← run_event e; l ← run_events es; mret (a :: l) end.

Definition erase (a : qspec) : vq := mk_vq ((λ r, (r_bufs r, r_data r)) <$> q_reqs a) (q_pend a) (h_taken (q_host a)) (q_comp a).

Definition implements (s : system) (A : gmap Z vq) : Prop :=
  ∃ B owner, dev_ok (dev s) B owner ∧ hosts s = q_host <$> B ∧ A = erase <$> B.

Lemma without_none h l : h ∉ l → without h l = l.
Proof.
  unfold without. induction l as [|x l IH]; [done|]. intros [Hx Hl]%not_elem_of_cons. rewrite filter_cons, decide_True by auto. f_equal. auto.
Qed.

Lemma without_perm h l : NoDup l → h ∈ l → l ≡ₚ h :: without h l.
Proof.
  intros Hnd (l1 & l2 & ->)%list_elem_of_split. apply list.NoDup_app in Hnd as (N1 & N2 & [N3 N4]%list.NoDup_cons).
  assert (h ∉ l1) as N5 by (intros Hx; apply (N2 h Hx); left).
  unfold without. rewrite list.filter_app, filter_cons, decide_False by auto. rewrite <- Permutation_middle.
  fold (without h l1). fold (without h l2). by rewrite !without_none.
Qed.

Lemma taken_nodup ts q e R P C fr : queue_ok ts q e R P C fr → NoDup (h_taken e).
Proof.
  intros HQ. pose proof (qo_part _ _ _ _ _ _ _ HQ) as Hp. assert (NoDup (P ++ h_taken e ++ C.*1)) as Hnd by (rewrite Hp; apply NoDup_fst_map_to_list).
  apply list.NoDup_app in Hnd as (_ & _ & Hnd). by apply list.NoDup_app in Hnd as (? & _).
Qed.

(** The device changes its own part and the ring of used requests. *)
Lemma host_update d B owner i q q' a e P C fr : dev_ok d B owner → B !! i = Some a → queues d !! i = Some q →
  queue_ok (indirect d) q' e (q_reqs a) P C fr → dev_ok (set_queue i q' d) (<[i := mk_qspec e (q_reqs a) P C]> B) owner.
Proof.
  intros HD Ha Eq HQ. eapply (dev_ok_update d B owner _ i q' a); [done|done|done|done|exact HQ|done|apply HD|eauto|].
  intros k j h. rewrite (do_owner _ _ _ HD k j h). destruct (decide (j = i)) as [->|Hne].
  - rewrite lookup_insert_eq, Ha. naive_solver.
  - by rewrite lookup_insert_ne.
Qed.

Lemma set_queue_id d i q : queues d !! i = Some q → set_queue i q d = d.
Proof. intros E. unfold set_queue. rewrite insert_id by done. by destruct d. Qed.

Section events.
Context (s : system) (B : gmap Z qspec) (owner : gmap nat (Z * Z)) (HD : dev_ok (dev s) B owner) (Hh : hosts s = q_host <$> B).

Definition event_goal (e : event) : Prop := ∃ a s' A', run_event e s = Ret a s' ∧ spec (erase <$> B) e a A' ∧ implements s' A'.

Lemma queue_cases i : (∃ q a fr, queues (dev s) !! i = Some q ∧ B !! i = Some a ∧ hosts s !! i = Some (q_host a) ∧
    queue_ok (indirect (dev s)) q (q_host a) (q_reqs a) (q_pend a) (q_comp a) fr) ∨ (queues (dev s) !! i = None ∧ B !! i = None).
Proof.
  destruct (decide (0 ≤ i < num_queues (dev s))) as [Hi|Hi].
  - left. destruct (proj2 (do_queues _ _ _ HD i) Hi) as [q Eq]. destruct (proj2 (do_specs _ _ _ HD i) Hi) as [a Ha].
    destruct (do_ok _ _ _ HD i q a Eq Ha) as [fr HQ]. exists q, a, fr. split_and!; try done. by rewrite Hh, lookup_fmap, Ha.
  - right. split; [destruct (queues (dev s) !! i) eqn:E|destruct (B !! i) eqn:E]; try done; exfalso; apply Hi;
      [apply (do_queues _ _ _ HD)|apply (do_specs _ _ _ HD)]; eauto.
Qed.

Lemma refused e : run_event e s = Ret Refused s → spec (erase <$> B) e Refused (erase <$> B) → event_goal e.
Proof. intros E Hs. exists Refused, s, (erase <$> B). split_and!; [done|done|]. by exists B, owner. Qed.

Lemma post_event i bufs dt : event_goal (Post i bufs dt).
Proof.
  destruct (can_post (dev s) i bufs && negb (dt =? 0)) eqn:Eg.
  2:{ apply refused; [|constructor]. cbn [run_event]. erewrite bind_ret by reflexivity. by rewrite Eg. }
  pose proof Eg as Eg'. apply andb_true_iff in Eg' as [Hc Hdt%negb_true_iff%Z.eqb_neq]. destruct (queue_cases i) as [(q & a & fr & Eq & Ha & He & HQ)|[E _]].
  2:{ unfold can_post in Hc. by rewrite E in Hc. }
  destruct (post_ok _ _ _ _ _ _ _ HD Ha Hc Hdt) as (d' & h & r & owner' & E & Hf & Hb & Hd & _ & HD'). exists Posted, (mk_system d' (hosts s)). eexists. split_and!.
  - cbn [run_event]. erewrite bind_ret by reflexivity. rewrite Eg. by erewrite bind_ret by (by apply zoom_ret).
  - apply (spec_post _ i bufs dt (erase a) h); [by rewrite lookup_fmap, Ha|]. cbn [v_reqs erase]. by rewrite lookup_fmap, Hf.
  - exists (<[i := add_request a h r]> B), owner'. split_and!; [done| |].
    + rewrite fmap_insert. cbn. rewrite Hh. symmetry. apply insert_id. by rewrite lookup_fmap, Ha.
    + rewrite fmap_insert. f_equal. unfold erase, add_request. cbn. by rewrite fmap_insert, Hb, Hd.
Qed.

Lemma take_event i : event_goal (Take i).
Proof.
  destruct (queue_cases i) as [(q & a & fr & Eq & Ha & He & HQ)|[E Eb]].
  2:{ apply refused; [cbn [run_event]; erewrite bind_ret by reflexivity; by rewrite E|]. apply spec_no_queue; [|eauto].
      intros j [[= <-]|?]; [|done]. by rewrite lookup_fmap, Eb. }
  pose proof (host_take_ok _ _ _ _ _ _ _ HQ) as Ht. destruct (q_pend a) as [|h P] eqn:Ep.
  - exists Nothing, s, (erase <$> B). split_and!; [| |by exists B, owner].
    + cbn [run_event]. erewrite bind_ret by reflexivity. rewrite Eq, He, Ht. done.
    + apply (spec_wait _ i (erase a)); [by rewrite lookup_fmap, Ha|done].
  - assert (∃ r, q_reqs a !! h = Some r) as [r Hr].
    { pose proof (qo_part _ _ _ _ _ _ _ HQ) as Hp. assert (h ∈ (map_to_list (q_reqs a)).*1) as Hin by (rewrite <- Hp; set_solver).
      apply list_elem_of_fmap in Hin as ([h' r] & -> & Hin%elem_of_map_to_list). eauto. }
    eexists (Took h (view <$> r_bufs r)), _, _. split_and!.
    + cbn [run_event]. erewrite bind_ret by reflexivity. rewrite Eq, He, Ht. cbn [head]. rewrite (read_request_ok _ _ _ _ _ _ _ _ HD Ha Eq Hr).
      erewrite bind_ret by reflexivity. by erewrite bind_ret by reflexivity.
    + apply (spec_take _ i (erase a) h P (r_bufs r) (r_data r)); [by rewrite lookup_fmap, Ha|done|]. cbn [v_reqs erase]. by rewrite lookup_fmap, Hr.
    + pose proof (taken_ok _ _ _ _ _ _ _ _ HQ) as HQ'. pose proof (host_update _ _ _ i q q a _ _ _ _ HD Ha Eq HQ') as HD'. rewrite set_queue_id in HD' by done.
      eexists _, owner. split_and!; [exact HD'| |]; rewrite fmap_insert; [by rewrite <- Hh|done].
Qed.

Lemma finish_event i h len : event_goal (Finish i h len).
Proof.
  destruct (queue_cases i) as [(q & a & fr & Eq & Ha & He & HQ)|[E Eb]].
  2:{ apply refused; [cbn [run_event]; erewrite bind_ret by reflexivity; by rewrite E|]. apply spec_refused_finish. intros v. by rewrite lookup_fmap, Eb. }
  destruct (decide (h ∈ h_taken (q_host a))) as [Hin|Hni].
  - eexists Finished, _, _. split_and!.
    + cbn [run_event]. erewrite bind_ret by reflexivity. rewrite Eq, He, bool_decide_true by done. by erewrite bind_ret by reflexivity.
    + apply (spec_finish _ i (erase a) h len); [by rewrite lookup_fmap, Ha|done].
    + pose proof (finished_ok _ _ _ _ _ _ _ h len _ HQ (without_perm h _ (taken_nodup _ _ _ _ _ _ _ HQ) Hin)) as HQ'.
      pose proof (host_update _ _ _ i q _ a _ _ _ _ HD Ha Eq HQ') as HD'. eexists _, owner. split_and!; [exact HD'| |]; rewrite fmap_insert; [by rewrite <- Hh|done].
  - apply refused.
    + cbn [run_event]. erewrite bind_ret by reflexivity. by rewrite Eq, He, bool_decide_false by done.
    + apply spec_refused_finish. intros v. rewrite lookup_fmap, Ha. by intros [= <-].
Qed.

Lemma poll_event i : event_goal (Poll i).
Proof.
  destruct (queue_cases i) as [(q & a & fr & Eq & Ha & He & HQ)|[E Eb]].
  2:{ apply refused; [cbn [run_event]; erewrite bind_ret by reflexivity; by rewrite E|]. apply spec_no_queue; [|eauto].
      intros j [?|[= <-]]; [done|]. by rewrite lookup_fmap, Eb. }
  pose proof (poll_ok _ _ _ _ _ HD Ha) as HP. destruct (q_comp a) as [|[h len] C] eqn:Ec.
  - exists Nothing, s, (erase <$> B). split_and!; [| |by exists B, owner].
    + cbn [run_event]. erewrite bind_ret by reflexivity. rewrite Eq. erewrite bind_ret by (by apply zoom_ret). by destruct s.
    + apply (spec_none _ i (erase a)); [by rewrite lookup_fmap, Ha|done].
  - destruct HP as (r & Hr & d' & owner' & E & _ & HD'). exists (Got (r_data r) len), (mk_system d' (hosts s)). eexists. split_and!.
    + cbn [run_event]. erewrite bind_ret by reflexivity. rewrite Eq. by erewrite bind_ret by (by apply zoom_ret).
    + apply (spec_poll _ i (erase a) h len C (r_bufs r) (r_data r)); [by rewrite lookup_fmap, Ha|done|]. cbn [v_reqs erase]. by rewrite lookup_fmap, Hr.
    + exists (<[i := del_request a h C]> B), owner'. split_and!; [done| |].
      * rewrite fmap_insert. cbn. rewrite Hh. symmetry. apply insert_id. by rewrite lookup_fmap, Ha.
      * rewrite fmap_insert. f_equal. unfold erase, del_request. cbn. by rewrite fmap_delete.
Qed.

End events.

Lemma queue_events_ok es : ∀ s A, implements s A → ∃ l s' A', run_events es s = Ret l s' ∧ specs A es l A' ∧ implements s' A'.
Proof.
  induction es as [|e es IH]; intros s A HI; cbn [run_events]; [exists [], s, A; split_and!; [done|constructor|done]|].
  assert (∃ a s1 A1, run_event e s = Ret a s1 ∧ spec A e a A1 ∧ implements s1 A1) as (a & s1 & A1 & E & Hs & HI1).
  { destruct HI as (B & owner & HD & Hh & ->). destruct e; [by eapply post_event|by eapply take_event|by eapply finish_event|by eapply poll_event]. }
  destruct (IH s1 A1 HI1) as (l & s' & A' & E' & Hs' & HI'). exists (a :: l), s', A'. split_and!; [|by econstructor|done].
  erewrite bind_ret by exact E. by erewrite bind_ret by exact E'.
Qed.

Lemma zeros_fmap {A B} (f : A → B) n a : f <$> zeros n a = zeros n (f a).
Proof. apply map_eq. intros i. rewrite lookup_fmap, !zeros_lookup. by case_decide. Qed.

Lemma init_tables_ok (pages : list (gmap Z vring_desc * Z)) (k : nat) t : (∀ p i, p ∈ pages → 0 ≤ i < 256 → is_Some (fst p !! i)) →
  ((λ p, init_indirect_desc_table (fst p) (snd p)) <$> pages) !! k = Some t → table_ok t ∧ in_use t = false.
Proof.
  intros Hp Hk. rewrite list_lookup_fmap in Hk. destruct (pages !! k) as [p|] eqn:E; [|done]. injection Hk as <-. split; [|done].
  intros i Hi. cbn [descs init_indirect_desc_table]. rewrite lookup_union, zeros_lookup. destruct (Hp p i) as [x Hx]; [by eapply list_elem_of_lookup_2|done|].
  rewrite Hx. case_decide; cbn; eauto.
Qed.


(** Two queues of four descriptors, and one table. *)
Definition demo_page : gmap Z vring_desc := zeros 256 (mk_desc 0 0 0 0).
Definition demo_events : list event :=
  [Post 0 [mk_as 0x1000 10; mk_as 0x2001 20] 7; Post 0 [mk_as 0x3000 5; mk_as 0x4000 6] 8; Take 0; Take 0; Poll 0; Finish 0 2 100; Finish 0 0 30; Poll 0; Poll 0; Poll 1].


(** Its answers. *)
Example demo_answers : ∃ s', (driver (init_indirect_desc_tables [(demo_page, 0x9000)] ;; virtio_alloc_queues (λ _, 4) (λ _, true) true 2) ;; run_events demo_events)
    (mk_system (mk_dev ∅ 0 1 [] []) (zeros 2 (mk_host 0 []))) =
  Ret [Posted; Posted; Took 0 [(0x1000, 10, false); (0x2000, 20, true)]; Took 2 [(0x3000, 5, false); (0x4000, 6, false)]; Nothing; Finished; Finished;
       Got 8 100; Got 7 30; Nothing] s'.
Proof. eexists. vm_compute. reflexivity. Qed.

(** Without a free descriptor the assertion on the tail of the free list fails: the
    requests of a queue of two descriptors with one buffer each, and the first of them
    is finished. *)
Example full_queue_assertion :
  (driver (virtio_alloc_queues (λ _, 2) (λ _, true) true 1 ;; virtio_to_queue 0 [mk_as 0x1000 1] 7 ;; virtio_to_queue 0 [mk_as 0x2000 1] 8) ;;
   modify (λ s, mk_system (match queues (dev s) !! 0 with Some q => set_queue 0 (host_finish q 0 1) (dev s) | None => dev s end) (hosts s)) ;;
   driver (virtio_from_queue 0)) (mk_system (mk_dev ∅ 0 0 [] []) ∅) = AssertFailed.
Proof. vm_compute. reflexivity. Qed.
