(* ===== verification/Boot.v ===== *)
(** * The boot loader (bootloader/bootmain.c)

    The memory is a function from 32-bit addresses to bytes.  The disk is an ATA drive
    behind the ports 0x1F0 - 0x1F7, given by the class [Ata]: its laws are the documented
    reading of one sector with programmed input.  The result of [bootmain] is the
    address it jumps to, or that it returns to bootasm.S.

    [boot_correct]: a kernel image whose multiboot header is in its first 8192 bytes is
    loaded where the header says, its bss is zero, and it is entered at its entry. *)

From Stdlib Require Import Lia ZArith.
From stdpp Require Import base list numbers option fin_maps.
From S2P Require Import Prelude Bitops.

#[local] Open Scope Z_scope.
#[local] Open Scope yaos_scope.

(** The registers of the drive hold what was written last; a command takes [wait] further
    readings of the status; [pending] is the sector the data port will give. *)
Class Ata (W : Type) := {
  outb : Z → Z → W → W;
  inb : Z → W → Z * W;
  insl : Z → Z → W → list Z * W;
  disk : Z → Z;
  reg : W → Z → Z;
  wait : W → nat;
  pending : W → option Z;
  disk_byte k : 0 ≤ disk k < 256;
  outb_reg p v w : 0x1F2 ≤ p ≤ 0x1F6 → reg (outb p v w) = (λ q, if q =? p then u8 v else reg w q);
  outb_read w : reg w 0x1F2 = 1 → reg w 0x1F6 .& 0xF0 = 0xE0 →
    pending (outb 0x1F7 0x20 w) =
    Some (reg w 0x1F3 + 2 ^ 8 * reg w 0x1F4 + 2 ^ 16 * reg w 0x1F5 + 2 ^ 24 * (reg w 0x1F6 .& 0xF));
  inb_status w : let '(v, w') := inb 0x1F7 w in
    reg w' = reg w ∧ pending w' = pending w ∧
    (v .& 0xC0 = 0x40 ∨ v .& 0xC0 ≠ 0x40 ∧ (wait w' < wait w)%nat);
  insl_sector w s : pending w = Some s →
    fst (insl 0x1F0 128 w) = (λ i, disk (512 * s + Z.of_nat i)) <$> seq 0 512
}.

Section bootmain.
Context `{Ata W}.

Record machine : Type := mk_machine { mem : Z → Z; io : W }.

(** ** The code *)

Definition SECTSIZE : Z := 512.

(** The fields of [struct mbheader]. *)
Record mbheader : Type := mk_mbheader {
  magic : Z; flags : Z; checksum : Z; header_addr : Z;
  load_addr : Z; load_end_addr : Z; bss_end_addr : Z; entry_addr : Z }.

(** [*(uint32 * )a] *)
Definition word_at (m : Z → Z) (a : Z) : Z :=
  m (u32 a) + 2 ^ 8 * m (u32 (a + 1)) + 2 ^ 16 * m (u32 (a + 2)) + 2 ^ 24 * m (u32 (a + 3)).

Definition header_at (m : Z → Z) (a : Z) : mbheader :=
  mk_mbheader (word_at m a) (word_at m (a + 4)) (word_at m (a + 8)) (word_at m (a + 12))
    (word_at m (a + 16)) (word_at m (a + 20)) (word_at m (a + 24)) (word_at m (a + 28)).

(** Storing bytes from the address [a] on. *)
Fixpoint store (a : Z) (l : list Z) (m : Z → Z) : Z → Z :=
  match l with
  | [] => m
  | b :: l => store (a + 1) l (λ x, if x =? u32 a then b else m x)
  end.

Definition out (p v : Z) : M machine unit := modify (λ s, mk_machine (mem s) (outb p v (io s))).

Definition status : M machine Z := λ s,
  let '(v, w) := inb 0x1F7 (io s) in Ret v (mk_machine (mem s) w).

(** [while((inb(0x1F7) & 0xC0) != 0x40);] *)
Fixpoint waitdisk_loop (fuel : nat) : M machine unit :=
  match fuel with
  | O => out_of_fuel
  | S fuel => v ← status; if v .& 0xC0 =? 0x40 then mret tt else waitdisk_loop fuel
  end.

Definition waitdisk : M machine unit :=
  n ← gets (λ s, wait (io s));
  waitdisk_loop (S n).

Definition insl_to (p dst cnt : Z) : M machine unit := λ s,
  let '(l, w) := insl p cnt (io s) in Ret tt (mk_machine (store dst l (mem s)) w).

Definition readsect (dst offset : Z) : M machine unit :=
  waitdisk ;;
  out 0x1F2 1 ;;
  out 0x1F3 offset ;;
  out 0x1F4 (offset .>> 8) ;;
  out 0x1F5 (offset .>> 16) ;;
  out 0x1F6 ((offset .>> 24) .| 0xE0) ;;
  out 0x1F7 0x20 ;;
  waitdisk ;;
  insl_to 0x1F0 dst (SECTSIZE / 4).

Fixpoint readseg_loop (fuel : nat) (pa epa offset : Z) : M machine unit :=
  if pa <? epa then
    match fuel with
    | O => out_of_fuel
    | S fuel => readsect pa offset ;; readseg_loop fuel (u32 (pa + SECTSIZE)) epa (u32 (offset + 1))
    end
  else mret tt.

Definition readseg (pa count offset : Z) : M machine unit :=
  let epa := u32 (pa + count) in
  let pa := u32 (pa - offset mod SECTSIZE) in
  let offset := u32 (offset / SECTSIZE + 1) in
  readseg_loop (Z.to_nat (count / SECTSIZE + 2)) pa epa offset.

(** The loop over [x[n]], from [n] on. *)
Fixpoint find_header (todo : nat) (m : Z → Z) (x n : Z) : option Z :=
  match todo with
  | O => None
  | S todo =>
      if (word_at m (x + 4 * n) =? 0x1BADB002) &&
         (u32 (word_at m (x + 4 * n) + word_at m (x + 4 * (n + 1)) + word_at m (x + 4 * (n + 2))) =? 0)
      then Some n
      else find_header todo m x (n + 1)
  end.

Definition stosb (addr data cnt : Z) : M machine unit :=
  modify (λ s, mk_machine (store addr (replicate (Z.to_nat cnt) data) (mem s)) (io s)).

(** [Some a]: the jump to [a]; [None]: the return. *)
Definition bootmain : M machine (option Z) :=
  let x := 0x10000 in
  readseg x 8192 0 ;;
  m ← gets mem;
  match find_header (Z.to_nat (8192 / 4)) m x 0 with
  | None => mret None
  | Some n =>
      hdr ← gets (λ s, header_at (mem s) (x + 4 * n));
      if flags hdr .& 0x10000 =? 0 then mret None
      else if header_addr hdr <? load_addr hdr then mret None
      else if load_end_addr hdr <? load_addr hdr then mret None
      else
        readseg (load_addr hdr) (u32 (load_end_addr hdr - load_addr hdr))
          (u32 (n * 4 - (header_addr hdr - load_addr hdr))) ;;
        hdr ← gets (λ s, header_at (mem s) (x + 4 * n));
        (if load_end_addr hdr <? bss_end_addr hdr
         then stosb (load_end_addr hdr) 0 (u32 (bss_end_addr hdr - load_end_addr hdr))
         else mret tt) ;;
        hdr ← gets (λ s, header_at (mem s) (x + 4 * n));
        mret (Some (entry_addr hdr))
  end.

(** ** Reading *)

(** The kernel on the disk, which starts at sector 1. *)
Definition kernel (k : Z) : Z := disk (SECTSIZE + k).

Lemma store_byte l : ∀ a m x, 0 ≤ a → a + Z.of_nat (length l) ≤ 2 ^ 32 →
  store a l m x = if decide (a ≤ x < a + Z.of_nat (length l)) then nth (Z.to_nat (x - a)) l 0 else m x.
Proof.
  induction l as [|b l IH]; intros a m x Ha Hl; cbn [store length] in *; [by rewrite decide_False by lia|].
  rewrite IH, u32_small by lia. destruct (Z.eqb_spec x a) as [->|Hx].
  - do 2 case_decide; try lia. by rewrite Z.sub_diag.
  - do 2 case_decide; try lia. replace (Z.to_nat (x - a)) with (S (Z.to_nat (x - (a + 1)))) by lia. done.
Qed.

Lemma nth_zeros k n : nth k (replicate n 0) 0 = 0.
Proof. revert k. induction n as [|n IH]; intros [|k]; cbn; auto. Qed.

Lemma waitdisk_loop_run n : ∀ s, (wait (io s) ≤ n)%nat → ∃ w, waitdisk_loop (S n) s = Ret tt (mk_machine (mem s) w) ∧
  reg w = reg (io s) ∧ pending w = pending (io s).
Proof.
  induction n as [|n IH]; intros s Hn; pose proof (inb_status (io s)) as Hi; destruct (inb 0x1F7 (io s)) as [v w] eqn:E;
    destruct Hi as (Hr & Hp & Hv); change (waitdisk_loop ?k) with (v ← status; if v .& 0xC0 =? 0x40 then mret tt else waitdisk_loop (pred k)); cbn [pred];
    erewrite bind_ret by (unfold status; rewrite E; reflexivity).
  - destruct Hv as [-> | [_ ?]]; [|lia]. by exists w.
  - destruct (Z.eqb_spec (v .& 0xC0) 0x40) as [Ev|Ev]; [by exists w|]. destruct Hv as [?|[_ Hw]]; [done|].
    destruct (IH (mk_machine (mem s) w)) as (w' & E' & Hr' & Hp'); [cbn; lia|]. exists w'. cbn [io mem] in *. by rewrite E', Hr', Hp'.
Qed.

Lemma waitdisk_run s : ∃ w, waitdisk s = Ret tt (mk_machine (mem s) w) ∧ reg w = reg (io s) ∧ pending w = pending (io s).
Proof. unfold waitdisk. erewrite bind_ret by reflexivity. by apply waitdisk_loop_run. Qed.

(** The highest byte of the number of a sector, with the bits that select the mode. *)
Lemma drive_bits t : 0 ≤ t < 16 → u8 (t .| 0xE0) .& 0xF0 = 0xE0 ∧ u8 (t .| 0xE0) .& 0xF = t.
Proof.
  intros Ht. assert (t = 0 ∨ t = 1 ∨ t = 2 ∨ t = 3 ∨ t = 4 ∨ t = 5 ∨ t = 6 ∨ t = 7 ∨ t = 8 ∨ t = 9 ∨ t = 10 ∨ t = 11 ∨ t = 12 ∨ t = 13 ∨ t = 14 ∨ t = 15) by lia.
  naive_solver.
Qed.

Lemma sector_bytes off : 0 ≤ off < 2 ^ 28 →
  u8 off + 2 ^ 8 * u8 (off .>> 8) + 2 ^ 16 * u8 (off .>> 16) + 2 ^ 24 * (off .>> 24) = off.
Proof.
  intros Hoff. unfold u8, wrap. rewrite !Z.shiftr_div_pow2 by lia.
  pose proof (Z.div_mod off (2 ^ 8)). pose proof (Z.div_mod (off / 2 ^ 8) (2 ^ 8)). pose proof (Z.div_mod (off / 2 ^ 16) (2 ^ 8)).
  rewrite Z.div_div in * by lia. change (2 ^ 8 * 2 ^ 8) with (2 ^ 16) in *. change (2 ^ 16 * 2 ^ 8) with (2 ^ 24) in *. lia.
Qed.

Lemma readsect_run s dst off : 0 ≤ off < 2 ^ 28 → ∃ w,
  readsect dst off s = Ret tt (mk_machine (store dst ((λ i, disk (512 * off + Z.of_nat i)) <$> seq 0 512) (mem s)) w).
Proof.
  intros Hoff. unfold readsect. destruct (waitdisk_run s) as (w1 & E1 & _). erewrite bind_ret by exact E1.
  do 6 (erewrite bind_ret by reflexivity). cbn [mem io]. set (w2 := outb 0x1F6 _ _).
  assert (0 ≤ off .>> 24 < 16) as Hh.
  { rewrite Z.shiftr_div_pow2 by lia. split; [apply Z.div_pos; lia|apply Z.div_lt_upper_bound; lia]. }
  destruct (drive_bits (off .>> 24) Hh) as [B1 B2].
  assert (pending (outb 0x1F7 0x20 w2) = Some off) as Hp.
  { rewrite outb_read; unfold w2; rewrite !outb_reg by lia; cbn -[wrap Z.add Z.mul Z.land Z.lor Z.shiftr Z.pow u8]; [|done|done].
    rewrite B2. f_equal. by apply sector_bytes. }
  destruct (waitdisk_run (mk_machine (mem s) (outb 0x1F7 0x20 w2))) as (w3 & E3 & _ & Hp3). erewrite bind_ret by exact E3.
  cbn [io mem] in *. rewrite Hp in Hp3. unfold insl_to. cbn [io mem]. pose proof (insl_sector w3 off Hp3) as Hl.
  change (SECTSIZE / 4) with 128. destruct (insl 0x1F0 128 w3) as [l w]. cbn [fst] in Hl. subst l. by exists w.
Qed.

(** The memory with [n] sectors from [sec] on at the address [pa]. *)
Definition loaded (m : Z → Z) (pa n sec : Z) (x : Z) : Z :=
  if decide (pa ≤ x < pa + 512 * n) then disk (512 * sec + (x - pa)) else m x.

Lemma readseg_loop_run n : ∀ fuel pa epa sec s, (n ≤ fuel)%nat → 0 ≤ pa → pa + 512 * (Z.of_nat n - 1) < epa ≤ pa + 512 * Z.of_nat n →
  pa + 512 * Z.of_nat n < 2 ^ 32 → 0 ≤ sec → sec + Z.of_nat n ≤ 2 ^ 28 →
  ∃ s', readseg_loop fuel pa epa sec s = Ret tt s' ∧ ∀ x, mem s' x = loaded (mem s) pa (Z.of_nat n) sec x.
Proof.
  induction n as [|n IH]; intros fuel pa epa sec s Hf Hpa He Hhi Hs Hsec.
  - exists s. split; [|intros x; unfold loaded; by rewrite decide_False by lia]. destruct fuel; cbn [readseg_loop]; by rewrite (proj2 (Z.ltb_ge _ _)) by lia.
  - destruct fuel as [|fuel]; [lia|]. cbn [readseg_loop]. rewrite (proj2 (Z.ltb_lt _ _)) by lia.
    destruct (readsect_run s pa sec) as [w E]; [lia|]. erewrite bind_ret by exact E. unfold SECTSIZE.
    rewrite !u32_small by lia. set (s1 := mk_machine _ w).
    destruct (IH fuel (pa + 512) epa (sec + 1) s1) as (s' & E' & Hm); [lia..|]. exists s'. split; [done|].
    intros x. rewrite Hm. unfold loaded. cbn [s1 mem]. rewrite store_byte by (rewrite ?length_fmap, ?length_seq; lia).
    rewrite length_fmap, length_seq. repeat case_decide; try lia; [f_equal; lia|].
    rewrite (nth_indep _ 0 (disk (512 * sec + Z.of_nat 0))) by (rewrite length_map, length_seq; lia).
    rewrite (map_nth (λ i, disk (512 * sec + Z.of_nat i))). rewrite seq_nth by lia. f_equal. lia.
Qed.

Lemma readseg_run s pa count off : 0 ≤ off < 2 ^ 32 → off mod 512 ≤ pa → 0 ≤ count → pa + count + 512 ≤ 2 ^ 32 →
  ∃ s' e, readseg pa count off s = Ret tt s' ∧ pa + count ≤ e < pa + count + 512 ∧ (e - (pa - off mod 512)) mod 512 = 0 ∧
    ∀ x, mem s' x = if decide (pa - off mod 512 ≤ x < e) then kernel (off + (x - pa)) else mem s x.
Proof.
  intros Hoff Hpa Hc Hhi. pose proof (Z.mod_pos_bound off 512 ltac:(lia)) as Hm. pose proof (Z.div_mod off 512 ltac:(lia)) as Hd.
  assert (0 ≤ off / 512 < 2 ^ 23) as Hq by (split; [apply Z.div_pos; lia|apply Z.div_lt_upper_bound; lia]).
  set (n := (count + off mod 512 + 511) / 512). pose proof (Z.div_mod (count + off mod 512 + 511) 512 ltac:(lia)) as Hn. fold n in Hn.
  pose proof (Z.mod_pos_bound (count + off mod 512 + 511) 512 ltac:(lia)) as Hn2.
  assert (0 ≤ n ≤ count / 512 + 2) as Hn0 by (split; [apply Z.div_pos; lia|pose proof (Z.div_mod count 512); pose proof (Z.mod_pos_bound count 512); lia]).
  unfold readseg, SECTSIZE. rewrite !u32_small by lia.
  destruct (readseg_loop_run (Z.to_nat n) (Z.to_nat (count / 512 + 2)) (pa - off mod 512) (pa + count) (off / 512 + 1) s) as (s' & E & Hs); [lia..|].
  exists s', (pa - off mod 512 + 512 * n). split_and!; [done|lia|lia|rewrite Z.add_simpl_l, Z.mul_comm; apply Z.mod_mul; lia|]. intros x. rewrite Hs. unfold loaded, kernel, SECTSIZE.
  rewrite Z2Nat.id by lia. case_decide; [|done]. f_equal. lia.
Qed.

(** ** The image *)

Definition kword (k : Z) : Z := kernel k + 2 ^ 8 * kernel (k + 1) + 2 ^ 16 * kernel (k + 2) + 2 ^ 24 * kernel (k + 3).

Definition kheader (k : Z) : mbheader :=
  mk_mbheader (kword k) (kword (k + 4)) (kword (k + 8)) (kword (k + 12))
    (kword (k + 16)) (kword (k + 20)) (kword (k + 24)) (kword (k + 28)).

(** Where the byte at [load_addr] is in the image. *)
Definition image_offset (n : Z) : Z := 4 * n - (header_addr (kheader (4 * n)) - load_addr (kheader (4 * n))).

(** The first header of the image is its word [n], and describes an image that is loaded
    above the area the header is searched in. *)
Record bootable (n : Z) : Prop := {
  b_pos : 0 ≤ n ∧ 4 * n + 32 ≤ 8192;
  b_magic : magic (kheader (4 * n)) = 0x1BADB002;
  b_sum : u32 (magic (kheader (4 * n)) + flags (kheader (4 * n)) + checksum (kheader (4 * n))) = 0;
  b_first m : 0 ≤ m < n → kword (4 * m) = 0x1BADB002 → u32 (kword (4 * m) + kword (4 * m + 4) + kword (4 * m + 8)) ≠ 0;
  b_flags : flags (kheader (4 * n)) .& 0x10000 ≠ 0;
  b_load : load_addr (kheader (4 * n)) ≤ header_addr (kheader (4 * n)) ∧ load_addr (kheader (4 * n)) ≤ load_end_addr (kheader (4 * n));
  b_offset : 0 ≤ image_offset n;
  b_room : 0x12000 + image_offset n mod 512 ≤ load_addr (kheader (4 * n)) ∧ load_end_addr (kheader (4 * n)) + 512 ≤ 2 ^ 32
}.

Lemma kword_range k : 0 ≤ kword k < 2 ^ 32.
Proof. unfold kword, kernel. pose proof (disk_byte (SECTSIZE + k)). pose proof (disk_byte (SECTSIZE + (k + 1))). pose proof (disk_byte (SECTSIZE + (k + 2))). pose proof (disk_byte (SECTSIZE + (k + 3))). lia. Qed.

(** The first 8192 bytes of the image are in the scratch area. *)
Definition scratch (m : Z → Z) : Prop := ∀ x, 0x10000 ≤ x < 0x12000 → m x = kernel (x - 0x10000).

Lemma scratch_word m k : scratch m → 0 ≤ k → k + 4 ≤ 8192 → word_at m (0x10000 + k) = kword k.
Proof.
  intros Hm Hk1 Hk2. unfold word_at, kword. rewrite !u32_small by lia. rewrite !Hm by lia.
  repeat f_equal; lia.
Qed.

Lemma scratch_header m k : scratch m → 0 ≤ k → k + 32 ≤ 8192 → header_at m (0x10000 + k) = kheader k.
Proof.
  intros Hm Hk1 Hk2. unfold header_at, kheader. rewrite <- !Z.add_assoc. by rewrite !scratch_word by (done || lia).
Qed.

Lemma find_header_run m n todo : scratch m → bootable n → ∀ i, 0 ≤ i ≤ n → n < i + Z.of_nat todo → find_header todo m 0x10000 i = Some n.
Proof.
  intros Hm [Bp Bm Bs Bf _ _ _ _]. induction todo as [|todo IH]; intros i Hi Ht; [lia|]. cbn [find_header].
  rewrite !scratch_word by (done || lia). replace (4 * (i + 1)) with (4 * i + 4) by lia. replace (4 * (i + 2)) with (4 * i + 8) by lia.
  destruct (decide (i = n)) as [->|Hn].
  - cbn [kheader magic flags checksum] in Bm, Bs. by rewrite Bm in *; rewrite Bs.
  - destruct (Z.eqb_spec (kword (4 * i)) 0x1BADB002) as [Em|Em]; [|by apply IH; lia].
    cbn [andb]. rewrite (proj2 (Z.eqb_neq _ _)) by (apply Bf; [lia|done]). apply IH; lia.
Qed.

Lemma bootmain_run s n : bootable n → let hdr := kheader (4 * n) in
  ∃ s' e, bootmain s = Ret (Some (entry_addr hdr)) s' ∧ load_end_addr hdr ≤ e < load_end_addr hdr + 512 ∧
    ∀ x, mem s' x =
      if decide (load_end_addr hdr ≤ x < bss_end_addr hdr) then 0
      else if decide (load_addr hdr - image_offset n mod 512 ≤ x < e) then kernel (image_offset n + (x - load_addr hdr))
      else if decide (0x10000 ≤ x < 0x12000) then kernel (x - 0x10000)
      else mem s x.
Proof.
  intros HB hdr. pose proof HB as [Bp Bm Bs Bf Bfl Bl Bo Br]. fold hdr in Bfl, Bl, Br. unfold bootmain.
  destruct (readseg_run s 0x10000 8192 0) as (s1 & e1 & E1 & He1 & Hd1 & Hm1); [by vm_compute..|]. erewrite bind_ret by exact E1. erewrite bind_ret by reflexivity.
  change (0 mod 512) with 0 in *. rewrite Z.sub_0_r in *. assert (e1 = 0x12000) as -> by (apply Z.mod_divide in Hd1 as [k Hk]; lia).
  assert (scratch (mem s1)) as HS1 by (intros x Hx; rewrite Hm1, decide_True by lia; done).
  change (8192 / 4) with 2048. rewrite (find_header_run _ n) by (done || lia). erewrite bind_ret by reflexivity. rewrite scratch_header by (done || lia). fold hdr.
  pose proof (kword_range (4 * n + 20)) as Rle. pose proof (kword_range (4 * n + 24)) as Rbe. pose proof (kword_range (4 * n + 12)) as Rh.
  pose proof (kword_range (4 * n + 16)) as Rl.
  change (kword (4 * n + 20)) with (load_end_addr hdr) in Rle. change (kword (4 * n + 24)) with (bss_end_addr hdr) in Rbe.
  change (kword (4 * n + 12)) with (header_addr hdr) in Rh. change (kword (4 * n + 16)) with (load_addr hdr) in Rl.
  rewrite (proj2 (Z.eqb_neq _ _)), (proj2 (Z.ltb_ge _ _)), (proj2 (Z.ltb_ge _ _)) by (done || lia).
  assert (image_offset n = n * 4 - (header_addr hdr - load_addr hdr)) as Eo by (unfold image_offset; fold hdr; lia). rewrite <- Eo.
  rewrite !u32_small by lia. pose proof (Z.mod_pos_bound (image_offset n) 512 ltac:(lia)).
  destruct (readseg_run s1 (load_addr hdr) (load_end_addr hdr - load_addr hdr) (image_offset n)) as (s2 & e2 & E2 & He2 & _ & Hm2); [lia..|].
  erewrite bind_ret by exact E2. erewrite bind_ret by reflexivity.
  assert (scratch (mem s2)) as HS2 by (intros x Hx; rewrite Hm2, decide_False by lia; by apply HS1).
  rewrite scratch_header by (done || lia). fold hdr.
  set (s3 := if load_end_addr hdr <? bss_end_addr hdr
             then mk_machine (store (load_end_addr hdr) (replicate (Z.to_nat (bss_end_addr hdr - load_end_addr hdr)) 0) (mem s2)) (io s2) else s2).
  assert (∀ x, mem s3 x = if decide (load_end_addr hdr ≤ x < bss_end_addr hdr) then 0 else mem s2 x) as Hm3.
  { intros x. unfold s3. destruct (Z.ltb_spec (load_end_addr hdr) (bss_end_addr hdr)); [|by rewrite decide_False by lia].
    cbn [mem]. rewrite store_byte by (rewrite ?length_replicate; lia). rewrite length_replicate. repeat case_decide; try lia. apply nth_zeros. }
  assert (scratch (mem s3)) as HS3 by (intros x Hx; rewrite Hm3, decide_False by lia; by apply HS2).
  exists s3, e2. split_and!; [|lia|lia|].
  - erewrite bind_ret; [erewrite bind_ret by reflexivity; rewrite scratch_header by (done || lia); reflexivity|].
    unfold s3. destruct (load_end_addr hdr <? bss_end_addr hdr) eqn:Eb; [|done]. apply Z.ltb_lt in Eb. unfold stosb. by rewrite u32_small by lia.
  - intros x. rewrite Hm3, Hm2, Hm1. repeat case_decide; try done; lia.
Qed.

End bootmain.


(** Without the magic number in the first 8192 bytes the loader returns. *)
Lemma boot_no_header `{Ata W} (s : machine) : (∀ m, 0 ≤ m < 2048 → kword (4 * m) ≠ 0x1BADB002) → ∃ s', bootmain s = Ret None s'.
Proof.
  intros HN. unfold bootmain. destruct (readseg_run s 0x10000 8192 0) as (s1 & e1 & E1 & He1 & Hd1 & Hm1); [by vm_compute..|].
  exists s1. erewrite bind_ret by exact E1. erewrite bind_ret by reflexivity. change (0 mod 512) with 0 in *.
  assert (scratch (mem s1)) as HS1 by (intros x Hx; rewrite Hm1, decide_True by lia; done).
  assert (∀ todo i, 0 ≤ i → i + Z.of_nat todo ≤ 2048 → find_header todo (mem s1) 0x10000 i = None) as Hf.
  { induction todo as [|todo IH]; intros i Hi Ht; [done|]. cbn [find_header]. rewrite (scratch_word _ (4 * i)) by (done || lia).
    rewrite (proj2 (Z.eqb_neq (kword _) _)) by (apply HN; lia). apply IH; lia. }
  change (8192 / 4) with 2048. by rewrite Hf by lia.
Qed.

(** ** An example: a drive that is busy for two readings, and an image of one sector *)

Record drive : Type := mk_drive { regs : Z → Z; busy : nat; asked : option Z }.

Definition demo_header : list Z :=
  [0; 0; 0; 0;  0x02; 0xB0; 0xAD; 0x1B;  0; 0; 1; 0;  0xFE; 0x4F; 0x51; 0xE4;  4; 0; 0x10; 0;
   0; 0; 0x10; 0;  0; 2; 0x10; 0;  0; 3; 0x10; 0;  0x24; 0; 0x10; 0;  0x90; 0xF4].

Definition demo_disk (k : Z) : Z := if k <? 512 then 0 else nth (Z.to_nat (k - 512)) demo_header 0.

Lemma demo_disk_byte k : 0 ≤ demo_disk k < 256.
Proof.
  unfold demo_disk. destruct (k <? 512); [lia|]. set (i := Z.to_nat (k - 512)). destruct (Nat.lt_ge_cases i (length demo_header)) as [Hi|Hi].
  - assert (Forall (λ b, 0 ≤ b < 256) demo_header) as HF by (repeat constructor; lia). rewrite Forall_forall in HF. apply HF, list_elem_of_In, nth_In. done.
  - rewrite nth_overflow by done. lia.
Qed.

Definition demo_outb (p v : Z) (w : drive) : drive :=
  if p =? 0x1F7 then mk_drive (regs w) 2 (Some (regs w 0x1F3 + 2 ^ 8 * regs w 0x1F4 + 2 ^ 16 * regs w 0x1F5 + 2 ^ 24 * (regs w 0x1F6 .& 0xF)))
  else mk_drive (λ q, if q =? p then u8 v else regs w q) (busy w) (asked w).

Definition demo_inb (p : Z) (w : drive) : Z * drive :=
  match busy w with O => (0x50, w) | S n => (0xD0, mk_drive (regs w) n (asked w)) end.

Definition demo_insl (p n : Z) (w : drive) : list Z * drive :=
  (match asked w with Some s => (λ i, demo_disk (512 * s + Z.of_nat i)) <$> seq 0 512 | None => [] end, w).

#[local] Program Instance drive_ata : Ata drive := {|
  outb := demo_outb; inb := demo_inb; insl := demo_insl; disk := demo_disk; reg := regs; wait := busy; pending := asked;
  disk_byte := demo_disk_byte |}.
Next Obligation. intros p v w Hp. unfold demo_outb. by rewrite (proj2 (Z.eqb_neq p 0x1F7)) by lia. Qed.
Next Obligation. intros w _ _. done. Qed.
Next Obligation.
  intros w. unfold demo_inb. destruct (busy w) as [|n] eqn:E; (split_and!; [done|done|]); [by left|right; split; [done|cbn; lia]].
Qed.
Next Obligation. intros w s E. unfold demo_insl. by rewrite E. Qed.

Lemma demo_bootable : bootable 1.
Proof.
  split; [lia|reflexivity|reflexivity| |by vm_compute|split; by vm_compute|by vm_compute|split; by vm_compute].
  intros m Hm. assert (m = 0) as -> by lia. by vm_compute.
Qed.

