(* ===== verification/Mboot.v ===== *)
(** * Dividing the physical memory at boot time (arch/x86_64/multiboot.c)

    The boot loader describes the memory by a table of ranges.  [init_e820] gives the usable
    ones, without what is reserved, to the heap and to the allocator of pages, and
    remembers the pages of the others, which [init_page_map] maps for devices.  The
    heap, the pages and the page tables are those of Kheap.v, Phymem.v and Pgtable.v.

    A record of the table is reached through a function from addresses, and the walk
    from one to the next is the code's.  The stack pointer saved in the_cpu and the
    messages are left out. *)

From Stdlib Require Import Lia ZArith.
From stdpp Require Import base gmap list numbers option.
From S2P Require Import Prelude Holes Pages Bitops Phymem Kheap Pgtable.

#[local] Open Scope Z_scope.
#[local] Open Scope yaos_scope.

Module Mboot.

(** ** The code *)

Definition IOAPIC_BASE : Z := 0xFEC00000.
Definition MAX_IO_REMAPS : nat := 2000.
Definition MAX_REVERSE : nat := 10.

Record memory_map : Type := mk_mmap {
  m_size : Z; base_addr_low : Z; base_addr_high : Z; length_low : Z; length_high : Z; m_type : Z }.

(** The static variables: the first [remaped] entries of [io_remap_pages], the first
    [reversed_nr] ones of [revmem], and the page tables with the allocators. *)
Record mboot : Type := mk_mboot {
  pt : ptstate (kheap phymem);
  io_remap_pages : list Z;
  revmem : list (Z * Z);
  max_reverse_addr : Z;
  kernel_start : Z;
  kernel_end : Z;
  max_phy_mem_addr : Z
}.

Definition set_pt (p : ptstate (kheap phymem)) (s : mboot) : mboot :=
  mk_mboot p (io_remap_pages s) (revmem s) (max_reverse_addr s) (kernel_start s) (kernel_end s) (max_phy_mem_addr s).
Definition set_io (l : list Z) (s : mboot) : mboot :=
  mk_mboot (pt s) l (revmem s) (max_reverse_addr s) (kernel_start s) (kernel_end s) (max_phy_mem_addr s).
Definition set_rev (l : list (Z * Z)) (m : Z) (s : mboot) : mboot :=
  mk_mboot (pt s) (io_remap_pages s) l m (kernel_start s) (kernel_end s) (max_phy_mem_addr s).
Definition set_kernel (a b : Z) (s : mboot) : mboot :=
  mk_mboot (pt s) (io_remap_pages s) (revmem s) (max_reverse_addr s) a b (max_phy_mem_addr s).

Definition heap (s : mboot) : kheap phymem := mem (pt s).
Definition set_heap (h : kheap phymem) (s : mboot) : mboot := set_pt (mk_pt (frames (pt s)) (cr3 (pt s)) h) s.

Definition on_pt {A} (m : M (ptstate (kheap phymem)) A) : M mboot A := zoom pt set_pt m.
Definition on_heap {A} (m : M (kheap phymem) A) : M mboot A := zoom heap set_heap m.
Definition on_phys {A} (m : M phymem A) : M (kheap phymem) A := zoom phys (λ t s, mk_kheap (h4k s) (hsmall s) t) m.

(** [bss_end] is the field of the multiboot header at 0x100000. *)
Definition init_bss (bss_end : Z) : M mboot unit :=
  let init_heap_size := 0x10000 in
  on_heap (free_kheap_4k bss_end init_heap_size) ;;
  modify (set_kernel 0x100000 (u64 (bss_end + init_heap_size))).

Definition add_map (pg : Z) : M mboot unit :=
  let pg := s32 pg in
  l ← gets io_remap_pages;
  if bool_decide (pg ∈ l) then mret tt
  else if bool_decide (MAX_IO_REMAPS ≤ length l)%nat then panic
  else modify (set_io (l ++ [pg])).

(** The loop of [on_iomem] over whole pages. *)
Fixpoint iomem_loop (fuel : nat) (addr size : Z) : M mboot unit :=
  if PAGE_SIZE <=? size then
    match fuel with
    | O => out_of_fuel
    | S fuel =>
        add_map (addr / PAGE_SIZE + 1) ;;
        iomem_loop fuel (u64 (addr + PAGE_SIZE)) (u64 (size - PAGE_SIZE))
    end
  else if size =? 0 then mret tt
  else add_map (addr / PAGE_SIZE + 1).

(** The recursive call is for an address at the start of a page. *)
Definition on_iomem (addr size : Z) : M mboot unit :=
  let low := addr .& (PAGE_SIZE - 1) in
  if addr =? 0 then mret tt
  else if negb (low =? 0) then
    let lowsize := PAGE_SIZE - low in
    if size <=? lowsize then add_map (u64 (addr + PAGE_SIZE - 1) / PAGE_SIZE)
    else
      add_map (u64 (addr + PAGE_SIZE - 1) / PAGE_SIZE) ;;
      let addr := u64 (addr + lowsize) in
      if addr =? 0 then mret tt
      else iomem_loop (Z.to_nat (size / PAGE_SIZE)) addr (u64 (size - lowsize))
  else iomem_loop (Z.to_nat (size / PAGE_SIZE)) addr size.

Definition add_reverse (addr size : Z) : M mboot unit :=
  l ← gets revmem;
  if bool_decide (MAX_REVERSE ≤ length l)%nat then panic
  else
    m ← gets max_reverse_addr;
    modify (set_rev (l ++ [(addr, size)]) (if m <? u64 (addr + size) then u64 (addr + size) else m)).

(** [if (addr + size < __max_phy_mem_addr) free_kheap_4k (addr, size);] *)
Definition give_4k (addr size : Z) : M mboot unit :=
  max ← gets max_phy_mem_addr;
  if u64 (addr + size) <? max then on_heap (free_kheap_4k addr size) else mret tt.

Fixpoint on_mem_loop (fuel : nat) (addr size : Z) : M mboot unit :=
  match fuel with
  | O => out_of_fuel
  | S fuel =>
      let low4k := addr .& 0xfff in
      if negb (low4k =? 0) then
        let low4ksize := 0x1000 - low4k in
        max ← gets max_phy_mem_addr;
        (if (size <=? low4ksize) && (u64 (addr + size) <? max) then on_heap (free_kheap_small addr size) else mret tt) ;;
        on_heap (free_kheap_small addr low4ksize) ;;
        on_mem_loop fuel (u64 (addr + low4ksize)) (u64 (size - low4ksize))
      else
        let size := size .& -0x1000 in
        if size =? 0 then mret tt
        else if size <? PAGE_SIZE then give_4k addr size
        else
          let low := addr .& (PAGE_SIZE - 1) in
          if negb (low =? 0) then
            let lowsize := PAGE_SIZE - low in
            if size <=? lowsize then give_4k addr size
            else
              give_4k addr lowsize ;;
              on_mem_loop fuel (u64 (addr + lowsize)) (u64 (size - lowsize))
          else
            let npg := size / PAGE_SIZE in
            on_heap (on_phys (free_phy_pages addr (npg * PAGE_SIZE))) ;;
            let rest := size .& (PAGE_SIZE - 1) in
            if rest =? 0 then mret tt else give_4k (u64 (addr + npg * PAGE_SIZE)) rest
  end.

(** A call with an address in a 4 KiB page calls itself with the next one, and that with
    the next page of 2 MiB. *)
Definition on_mem (addr size : Z) : M mboot unit := on_mem_loop 3 addr size.

Definition give (addr size : Z) (ismem : bool) : M mboot unit :=
  if ismem then on_mem addr size else on_iomem addr size.

(** The loop of [deal_reverse] over the reserved ranges; [again] is the recursive call. *)
Fixpoint reverse_loop (again : Z → Z → M mboot unit) (addr size : Z) (ismem : bool) (l : list (Z * Z)) : M mboot unit :=
  match l with
  | [] => give addr size ismem
  | (rev_start, rev_size) :: l =>
      let rev_end := u64 (rev_start + rev_size) in
      if rev_end <=? addr then reverse_loop again addr size ismem l
      else if u64 (addr + size) <=? rev_start then reverse_loop again addr size ismem l
      else if (rev_start <=? addr) && (u64 (addr + size) <=? rev_end) then mret tt
      else if rev_start <=? addr then again rev_end (u64 (size + addr - rev_end))
      else
        ASSERT (addr <=? rev_start) ;;
        again addr (u64 (rev_start - addr)) ;;
        again (u64 (rev_start + size)) (u64 (size + addr - rev_start))
  end.

Fixpoint deal_reverse (fuel : nat) (addr size : Z) (ismem : bool) : M mboot unit :=
  match fuel with
  | O => out_of_fuel
  | S fuel =>
      m ← gets max_reverse_addr;
      if m <? addr then give addr size ismem
      else
        l ← gets revmem;
        reverse_loop (λ addr size, deal_reverse fuel addr size ismem) addr size ismem l
  end.

(** [(high << 32) + low] *)
Definition wide (high low : Z) : Z := u64 (u64 (high .<< 32) + low).

(** The loop over the table from [p] to [e]. *)
Fixpoint e820_loop (fuel : nat) (at_ : Z → memory_map) (p e minaddr : Z) : M mboot unit :=
  if p <? e then
    match fuel with
    | O => out_of_fuel
    | S fuel =>
        let mmap := at_ p in
        let addr := wide (base_addr_high mmap) (base_addr_low mmap) in
        let msize := wide (length_high mmap) (length_low mmap) in
        let minaddr := if addr <? minaddr then addr else minaddr in
        let maxaddr := 0 in
        let addr := if (minaddr <? addr) && (u64 (addr + msize) <? maxaddr) then maxaddr else addr in
        n ← gets (λ s, length (revmem s));
        deal_reverse (2 * n + 1) addr msize (m_type mmap =? 1) ;;
        e820_loop fuel at_ (u64 (p + m_size mmap + 4)) e minaddr
    end
  else mret tt.

(** Each record moves the walk by four bytes at least. *)
Definition e820_fuel (size : Z) : nat := S (Z.to_nat (size / 4)).

Definition init_e820 (at_ : Z → memory_map) (pe820 e820map_size : Z) : M mboot unit :=
  add_reverse 0 0x10000 ;;
  s ← gets kernel_start;
  e ← gets kernel_end;
  add_reverse s (u64 (e - s)) ;;
  add_map (IOAPIC_BASE / PAGE_SIZE + 1) ;;
  e820_loop (e820_fuel e820map_size) at_ pe820 (pe820 + e820map_size) (2 ^ 64 - 1).

Section page_map.
Context {H : Type} `{MemSource H} (st : statics).

Definition IO_FLAGS : Z := PTE_P .| PTE_W .| PTE_PWT .| PTE_PCD .| PTE_PS.

(** [if (OK != map_page_p2v (addr, addr + IO_MEM_BASE, ...)) panic (...);] *)
Definition map_io (addr : Z) : M (ptstate H) unit :=
  r ← map_page_p2v st addr (u64 (addr + IO_MEM_BASE)) IO_FLAGS;
  match r with OK => mret tt | E_NOMEM => panic end.

(** The loop over the noted pages, whose numbers start at 1. *)
Fixpoint remap_loop (l : list Z) : M (ptstate H) unit :=
  match l with
  | [] => mret tt
  | pg :: l =>
      (if 0 <? u64 pg then map_io (u64 ((u64 pg - 1) * PAGE_SIZE)) else mret tt) ;;
      remap_loop l
  end.

(** [for (haddr = lastend; haddr + PAGE_SIZE < addr; haddr += PAGE_SIZE)] *)
Fixpoint hole_loop (fuel : nat) (haddr addr : Z) : M (ptstate H) unit :=
  if u64 (haddr + PAGE_SIZE) <? addr then
    match fuel with
    | O => out_of_fuel
    | S fuel => map_io haddr ;; hole_loop fuel (u64 (haddr + PAGE_SIZE)) addr
    end
  else mret tt.

End page_map.

Definition remap_iomem (st : statics) : M mboot unit :=
  l ← gets io_remap_pages;
  on_pt (remap_loop st l).

(** A gap of the table, from [lastend] to [addr]. *)
Definition map_gap (st : statics) (lastend addr : Z) : M mboot unit :=
  n ← gets (λ s, length (revmem s));
  let fuel := (2 * n + 1)%nat in
  if u64 (addr - lastend) <? PAGE_SIZE then deal_reverse fuel lastend (u64 (addr - lastend)) false
  else
    let low := lastend .& (PAGE_SIZE - 1) in
    lastend ← (if negb (low =? 0) then
                 deal_reverse fuel lastend (PAGE_SIZE - low) false ;;
                 mret (u64 (lastend + PAGE_SIZE) .& u64 (Z.lnot (PAGE_SIZE - 1)))
               else mret lastend);
    on_pt (hole_loop st (Z.to_nat (addr / PAGE_SIZE)) lastend addr).

Fixpoint page_map_loop (fuel : nat) (st : statics) (at_ : Z → memory_map) (p e lastend : Z) : M mboot unit :=
  if p <? e then
    match fuel with
    | O => out_of_fuel
    | S fuel =>
        let mmap := at_ p in
        let addr := wide (base_addr_high mmap) (base_addr_low mmap) in
        let msize := wide (length_high mmap) (length_low mmap) in
        (if lastend <? addr then map_gap st lastend addr else mret tt) ;;
        page_map_loop fuel st at_ (u64 (p + m_size mmap + 4)) e (u64 (addr + msize))
    end
  else mret tt.

Definition init_page_map (st : statics) (at_ : Z → memory_map) (pe820 e820map_size : Z) : M mboot unit :=
  add_reverse 0 0x10000 ;;
  s ← gets kernel_start;
  e ← gets kernel_end;
  add_reverse s (u64 (e - s)) ;;
  page_map_loop (e820_fuel e820map_size) st at_ pe820 (pe820 + e820map_size) 0 ;;
  remap_iomem st.

(** The loop of [init_bootload]: __max_phy_addr and __max_phy_mem_addr. *)
Fixpoint bootload_loop (fuel : nat) (at_ : Z → memory_map) (p e maxaddr maxmemaddr : Z) : option (Z * Z) :=
  if p <? e then
    match fuel with
    | O => None
    | S fuel =>
        let mmap := at_ p in
        let addr := wide (base_addr_high mmap) (base_addr_low mmap) in
        let msize := wide (length_high mmap) (length_low mmap) in
        let maxaddr := if maxaddr <? u64 (addr + msize) then u64 (addr + msize) else maxaddr in
        let maxmemaddr :=
          if m_type mmap =? 1 then if maxmemaddr <? u64 (addr + msize) then u64 (addr + msize) else maxmemaddr
          else maxmemaddr in
        bootload_loop fuel at_ (u64 (p + m_size mmap + 4)) e maxaddr maxmemaddr
    end
  else Some (maxaddr, maxmemaddr).

(** ** Giving memory to the allocators

    Nothing is taken from the allocators meanwhile; the pages are seen through an interface
    whose allocation never gives one. *)

Lemma boot_free_page s a : phymem_ok s → phys_free s a → page_addr a.
Proof.
  intros Hok [Hal Hf]. pose proof (bit_at_range _ _ Hf). pose proof (ok_below _ Hok _ Hf).
  assert (PAGE_SIZE * (a / PAGE_SIZE) = a) as Ea by (unfold aligned, PAGE_SIZE in *; pose proof (Z.div_mod a 0x200000); lia).
  pose proof (ok_addr _ Hok). split_and!; [|change (2 ^ 52) with (0x200000 * 2 ^ 31) in *; unfold PAGE_SIZE in *; lia|done].
  destruct (decide (a / PAGE_SIZE = 0)) as [E|]; [|unfold PAGE_SIZE in *; lia]. destruct (ok_zero _ Hok). by rewrite <- E.
Qed.

Lemma boot_alloc_ok (s : phymem) : phymem_ok s → ∃ a s', (mret 0 : M phymem Z) s = Ret a s' ∧ phymem_ok s' ∧
  ((a = 0 ∧ ∀ x, phys_free s' x ↔ phys_free s x) ∨ (phys_free s a ∧ ∀ x, phys_free s' x ↔ phys_free s x ∧ x ≠ a)).
Proof. intros Hok. exists 0, s. split_and!; [done|done|]. by left. Qed.

Definition boot_pages : PageSource phymem := {|
  pg_alloc := mret 0; pg_inv := phymem_ok; pg_free := phys_free; pg_free_page := boot_free_page; pg_alloc_ok := boot_alloc_ok |}.
#[local] Existing Instance boot_pages | 0.

(** The heap is well-formed and has [k] descriptors left. *)
Definition ready (k : nat) (h : kheap phymem) : Prop := ∃ hs n hsm m, kheap_ok h hs n hsm m ∧ (k ≤ n)%nat.

Record grown (k : nat) (h : kheap phymem) (P : Z → Prop) (h' : kheap phymem) : Prop := {
  gr_ready : ready k h';
  gr_free x : heap_free h' x ↔ heap_free h x ∨ P x;
  gr_max : max_phy_addr (phys h') = max_phy_addr (phys h)
}.

Lemma ready_le k j h : (j ≤ k)%nat → ready k h → ready j h.
Proof. intros Hj (hs & n & hsm & m & Hk & Hn). exists hs, n, hsm, m. split; [done|lia]. Qed.

Lemma grown_refl k h P : ready k h → (∀ x, ¬ P x) → grown k h P h.
Proof. intros Hr HP. split; [done| |done]. intros x. specialize (HP x). tauto. Qed.

Lemma grown_trans k j h P h1 Q h2 : grown k h P h1 → grown j h1 Q h2 → grown j h (λ x, P x ∨ Q x) h2.
Proof. intros [R1 F1 M1] [R2 F2 M2]. split; [done| |congruence]. intros x. rewrite F2, F1. tauto. Qed.

Lemma grown_ext k j h P Q h' : grown k h P h' → (j ≤ k)%nat → (∀ x, P x ↔ Q x) → grown j h Q h'.
Proof. intros [R F Mx] Hj HPQ. split; [by eapply ready_le|intros x; by rewrite F, HPQ|done]. Qed.

Lemma give_4k_heap k h a z : ready (S k) h → 0 < a → 0 < z → a + z < 2 ^ 64 → aligned 0x1000 a → aligned 0x1000 z →
  (∀ x, a ≤ x < a + z → ¬ heap_free h x) → ∃ h', free_kheap_4k a z h = Ret tt h' ∧ grown k h (λ x, a ≤ x < a + z) h'.
Proof.
  intros (hs & n & hsm & m & Hok & Hn) Ha Hz Haz Haa Hza Hnew.
  pose proof (free_kheap_4k_run h hs n hsm m a z Hok Ha Hz Haz Haa Hza) as HF. destruct n as [|n]; [lia|].
  destruct HF as (h' & hs' & E & Hok' & Hb).
  { intros x Hx. rewrite <- (heap_free_iff _ _ _ _ _ _ Hok). by apply Hnew. }
  exists h'. split; [done|]. split; [exists hs', n, hsm, m; split; [done|lia]| |].
  - intros x. rewrite (heap_free_iff _ _ _ _ _ _ Hok'), (heap_free_iff _ _ _ _ _ _ Hok). apply Hb.
  - unfold free_kheap_4k, on_4k, zoom in E. destruct (free_hole 0xfff a z (h4k h)); try done. by injection E as _ <-.
Qed.

Lemma page_in a x : aligned PAGE_SIZE a → a ≤ x < a + PAGE_SIZE ↔ x / PAGE_SIZE = a / PAGE_SIZE.
Proof. unfold aligned, PAGE_SIZE. intros Ha. pose proof (Z.div_mod a 0x200000). pose proof (Z.div_mod x 0x200000). pose proof (Z.mod_pos_bound x 0x200000). lia. Qed.

(** The bytes of free pages. *)
Lemma free_byte_page (h : kheap phymem) hs x : free_byte h hs x ↔ covers hs x ∨ free_page (phys h) (x / PAGE_SIZE).
Proof.
  unfold free_byte. apply or_iff_compat_l. split.
  - intros (a & [Ha Hf] & Hx). apply page_in in Hx; [|done]. by rewrite Hx.
  - intros Hf. exists (PAGE_SIZE * (x / PAGE_SIZE)). cbn. unfold phys_free. rewrite Z.mul_comm, Z.div_mul by done. split_and!; [apply aligned_mul|done| |].
    + pose proof (Z.div_mod x PAGE_SIZE ltac:(done)). pose proof (Z.mod_pos_bound x PAGE_SIZE ltac:(done)). lia.
    + pose proof (Z.div_mod x PAGE_SIZE ltac:(done)). pose proof (Z.mod_pos_bound x PAGE_SIZE ltac:(done)). lia.
Qed.

Lemma give_pages k h a z : ready k h → 0 < a → 0 < z → aligned PAGE_SIZE a → aligned PAGE_SIZE z → a + z ≤ max_phy_addr (phys h) →
  (∀ x, a ≤ x < a + z → ¬ heap_free h x) → ∃ h', on_phys (free_phy_pages a z) h = Ret tt h' ∧ grown k h (λ x, a ≤ x < a + z) h'.
Proof.
  intros (hs & n & hsm & m & Hok & Hn) Ha Hz Haa Hza Hmax Hnew. pose proof Hok as [Hl [[Hp Hrok Hal Hph Hap] Hs Hsok Hpos Hsep Hfr]].
  destruct (free_phy_pages_correct (phys h) a z Hph) as (t & E & Ht & Htm & Htf & _); [lia|lia|done|done|done|lia|].
  set (h' := mk_kheap (h4k h) (hsmall h) t). exists h'. split; [by unfold on_phys, zoom; rewrite E|].
  assert (∀ x, a / PAGE_SIZE ≤ x / PAGE_SIZE < a / PAGE_SIZE + Z.of_nat (Z.to_nat (z / PAGE_SIZE)) ↔ a ≤ x < a + z) as Hin.
  { intros x. unfold aligned, PAGE_SIZE in *. pose proof (Z.div_mod a 0x200000). pose proof (Z.div_mod z 0x200000). pose proof (Z.div_mod x 0x200000).
    pose proof (Z.mod_pos_bound x 0x200000). lia. }
  assert (∀ x, free_byte h' hs x ↔ free_byte h hs x ∨ a ≤ x < a + z) as Hb.
  { intros x. rewrite !free_byte_page. cbn [h' phys]. rewrite Htf, Hin. tauto. }
  assert (∀ x, a ≤ x < a + z → ¬ kfree_byte h hs hsm x) as Hnew' by (intros x Hx; rewrite <- (heap_free_iff _ _ _ _ _ _ Hok); by apply Hnew).
  assert (kheap_ok h' hs n hsm m) as Hok'.
  { split; [done|]. split; [|done..|].
    - split; [done..|]. intros b [Hba Hb']. cbn in Hb'. apply Htf in Hb' as [Hb'|Hb']; [by apply Hap|].
      apply list.Forall_forall. intros r Hr. pose proof Hrok as [Hr1 _]. rewrite list.Forall_forall in Hr1. destruct (Hr1 r Hr) as (_ & Hr2 & _).
      apply disjoint_bytes; [done|done|]. intros x Hx1 Hx2. apply (Hnew' x); [|right; left; by exists r].
      apply Hin. cbn [fst snd] in Hx1. apply page_in in Hx1; [|done]. by rewrite Hx1.
    - intros x Hx Hf. apply Hb in Hf as [Hf|Hf]; [by apply (Hfr x)|]. apply (Hnew' x Hf). by left. }
  split; [by exists hs, n, hsm, m| |done]. intros x. rewrite (heap_free_iff _ _ _ _ _ _ Hok'), (heap_free_iff _ _ _ _ _ _ Hok).
  unfold kfree_byte. rewrite Hb. tauto.
Qed.

(** ** on_mem *)

(** The bytes [on_mem] gives away: 4 KiB pages, and at the end of the memory only the
    2 MiB pages. *)
Definition handed (max addr size x : Z) : Prop :=
  let e := addr + (size - size mod 0x1000) in
  addr ≤ x < e ∧ (e < max ∨ PAGE_SIZE ≤ e - addr ∧ x < PAGE_SIZE * (e / PAGE_SIZE)).

(** What a call needs of the range. *)
Record range_fits (s : mboot) (addr size : Z) : Prop := {
  rf_pos : 0 < addr ∧ 0 < size;
  rf_al : aligned 0x1000 addr;
  rf_mem : addr + size ≤ max_phy_mem_addr s;
  rf_max : addr + size ≤ max_phy_addr (phys (heap s));
  rf_top : max_phy_mem_addr s ≤ 2 ^ 52;
  rf_new x : addr ≤ x < addr + size → ¬ heap_free (heap s) x
}.

Lemma give_4k_run k s a z : ready (S k) (heap s) → range_fits s a z → aligned 0x1000 z →
  ∃ h', give_4k a z s = Ret tt (set_heap h' s) ∧ grown k (heap s) (λ x, a ≤ x < a + z ∧ a + z < max_phy_mem_addr s) h'.
Proof.
  intros Hr [[Fa Fz] Fal Fm _ Ft Fn] Hz. unfold give_4k. erewrite bind_ret by reflexivity. rewrite u64_id by (unfold in_u; lia).
  destruct (Z.ltb_spec (a + z) (max_phy_mem_addr s)) as [Hlt|Hge].
  - destruct (give_4k_heap k (heap s) a z Hr) as (h' & E & HG); try done; [lia|]. exists h'. split; [by apply zoom_ret|]. eapply grown_ext; [done|done|]. intros x. tauto.
  - exists (heap s). split; [by destruct s as [[] ? ? ? ? ? ?]|]. apply grown_refl; [eapply ready_le; [|done]; lia|]. intros x Hx. lia.
Qed.

Lemma land_page x : x .& (PAGE_SIZE - 1) = x mod PAGE_SIZE.
Proof. change PAGE_SIZE with (2 ^ 21). by rewrite land_mask. Qed.

(** A later part of the range, after the part before it was given away. *)
Lemma range_fits_rest k s a z P h b : range_fits s a z → grown k (heap s) P h → (∀ x, P x → x < b) → a ≤ b < a + z → aligned 0x1000 b →
  range_fits (set_heap h s) b (a + z - b).
Proof.
  intros [[Fa Fz] Fal Fm Fx Ft Fn] [_ HF HM] HP Hb Hbal. split; cbn; [lia|done|lia|rewrite HM; lia|done|].
  intros x Hx [Hx'|Hx']%HF; [by apply (Fn x); [lia|]|]. specialize (HP x Hx'). lia.
Qed.

Lemma range_fits_part s a z z' : range_fits s a z → 0 < z' ≤ z → range_fits s a z'.
Proof. intros [[Fa Fz] Fal Fm Fx Ft Fn] Hz. split; try done; try lia. intros x Hx. apply Fn. lia. Qed.

Lemma on_mem_pages k f s a z : ready (S k) (heap s) → range_fits s a z → aligned PAGE_SIZE a → aligned 0x1000 z →
  ∃ h', on_mem_loop (S f) a z s = Ret tt (set_heap h' s) ∧ grown k (heap s) (handed (max_phy_mem_addr s) a z) h'.
Proof.
  intros Hr HF Hpa Hz. pose proof HF as [[Fa Fz] Fal Fm Fx Ft Fn]. cbn [on_mem_loop]. rewrite (mask_4k _ Fal). cbn [Z.eqb negb].
  change (z .& -0x1000) with (base_of z). rewrite base_of_spec. unfold aligned in Hz. rewrite Hz, Z.sub_0_r.
  rewrite (proj2 (Z.eqb_neq z 0)) by lia. unfold handed. rewrite Hz, Z.sub_0_r. destruct (Z.ltb_spec z PAGE_SIZE) as [Hs|Hs].
  - destruct (give_4k_run k s a z Hr HF Hz) as (h' & E & HG). exists h'. split; [done|]. eapply grown_ext; [done|done|]. intros x. cbn. lia.
  - rewrite land_page. unfold aligned in Hpa. rewrite Hpa. cbn [Z.eqb negb]. rewrite land_page.
    pose proof (Z.div_mod z PAGE_SIZE ltac:(done)) as Hdm. pose proof (Z.mod_pos_bound z PAGE_SIZE ltac:(done)) as Hmb.
    pose proof (Z.div_mod a PAGE_SIZE ltac:(done)) as Hda.
    set (n := z / PAGE_SIZE) in *. assert (PAGE_SIZE * ((a + z) / PAGE_SIZE) = a + n * PAGE_SIZE) as Ee.
    { replace (a + z) with (z + (a / PAGE_SIZE) * PAGE_SIZE) by lia. rewrite Z.div_add by done. fold n. lia. }
    assert (0 < n * PAGE_SIZE) by (unfold PAGE_SIZE in *; lia).
    destruct (give_pages (S k) (heap s) a (n * PAGE_SIZE)) as (h1 & E1 & HG1); [done|lia|lia|done|apply aligned_mul|lia|intros x Hx; apply Fn; lia|].
    erewrite bind_ret by (apply zoom_ret; exact E1). destruct (Z.eqb_spec (z mod PAGE_SIZE) 0) as [Er|Er].
    + exists h1. split; [done|]. eapply grown_ext; [done|lia|]. intros x. cbn. lia.
    + rewrite u64_id by (unfold in_u; lia). assert (aligned 0x1000 (n * PAGE_SIZE)) as Hn4 by (apply page_4k_aligned, aligned_mul).
      destruct (give_4k_run k (set_heap h1 s) (a + n * PAGE_SIZE) (z mod PAGE_SIZE)) as (h2 & E2 & HG2).
      * apply HG1.
      * replace (z mod PAGE_SIZE) with (a + z - (a + n * PAGE_SIZE)) by lia. eapply range_fits_rest; [done|done|cbn; lia|lia|by apply aligned_add].
      * replace (z mod PAGE_SIZE) with (z - n * PAGE_SIZE) by lia. by apply aligned_sub.
      * exists h2. split; [done|]. eapply grown_ext; [by eapply grown_trans|done|]. intros x. cbn. lia.
Qed.

Lemma on_mem_run k s a z : ready (S (S k)) (heap s) → range_fits s a z →
  ∃ h', on_mem a z s = Ret tt (set_heap h' s) ∧ grown k (heap s) (handed (max_phy_mem_addr s) a z) h'.
Proof.
  intros Hr HF. pose proof HF as [[Fa Fz] Fal Fm Fx Ft Fn]. unfold on_mem.
  pose proof (Z.mod_pos_bound z 0x1000 ltac:(lia)) as Hzm. pose proof (Z.mod_le z 0x1000 ltac:(lia) ltac:(lia)). set (z' := z - z mod 0x1000) in *.
  assert (aligned 0x1000 z') as Hz' by (unfold z'; rewrite <- base_of_spec; apply base_of_aligned).
  assert (handed (max_phy_mem_addr s) a z = handed (max_phy_mem_addr s) a z') as ->.
  { unfold handed. unfold aligned in Hz'. rewrite Hz', Z.sub_0_r. done. }
  assert (∀ f, on_mem_loop (S f) a z s = on_mem_loop (S f) a z' s) as ->.
  { intros f. cbn [on_mem_loop]. rewrite (mask_4k _ Fal). cbn [Z.eqb negb]. change (?x .& -0x1000) with (base_of x). rewrite (base_of_spec z'), base_of_spec.
    unfold aligned in Hz'. by rewrite Hz', Z.sub_0_r. }
  destruct (decide (z' = 0)) as [E0|Hn0].
  { exists (heap s). rewrite E0. split; [|apply grown_refl; [eapply ready_le; [|done]; lia|intros x Hx; unfold handed in Hx; rewrite Z.mod_0_l in Hx by lia; cbv zeta in Hx; lia]].
    cbn [on_mem_loop]. rewrite (mask_4k _ Fal). cbn. by destruct s as [[] ? ? ? ? ? ?]. }
  assert (range_fits s a z') as HF' by (eapply range_fits_part; [done|lia]).
  pose proof (Z.mod_pos_bound a PAGE_SIZE ltac:(done)) as Hma. pose proof (Z.div_mod a PAGE_SIZE ltac:(done)) as Hda.
  destruct (decide (a mod PAGE_SIZE = 0)) as [Hal|Hnal].
  { destruct (on_mem_pages (S k) 2 s a z' Hr HF' Hal Hz') as (h' & E & HG). exists h'. split; [done|]. eapply grown_ext; [done|lia|done]. }
  remember 2%nat as g eqn:Eg. cbn [on_mem_loop]. rewrite (mask_4k _ Fal). cbn [Z.eqb negb]. change (?x .& -0x1000) with (base_of x). rewrite base_of_spec.
  pose proof Hz' as Ez'. unfold aligned in Ez'. rewrite Ez', Z.sub_0_r. rewrite (proj2 (Z.eqb_neq z' 0)) by done.
  destruct (Z.ltb_spec z' PAGE_SIZE) as [Hs|Hs].
  { destruct (give_4k_run (S k) s a z' Hr HF' Hz') as (h' & E & HG). exists h'. split; [done|]. eapply grown_ext; [done|lia|]. intros x. unfold handed. rewrite Ez', Z.sub_0_r. cbn. lia. }
  rewrite land_page. rewrite (proj2 (Z.eqb_neq _ 0)) by done. cbn [negb]. set (l := PAGE_SIZE - a mod PAGE_SIZE).
  rewrite (proj2 (Z.leb_gt z' l)) by lia.
  assert (aligned PAGE_SIZE (a + l)) as Hl by (unfold l; replace (a + (PAGE_SIZE - a mod PAGE_SIZE)) with ((a / PAGE_SIZE + 1) * PAGE_SIZE) by lia; apply aligned_mul).
  assert (aligned 0x1000 l) as Hl4 by (replace l with (a + l - a) by lia; apply aligned_sub; [by apply page_4k_aligned|done]).
  destruct (give_4k_run (S k) s a l Hr) as (h1 & E1 & HG1); [eapply range_fits_part; [done|lia]|done|].
  erewrite bind_ret by exact E1. rewrite !u64_id by (unfold in_u; lia). rewrite Eg.
  destruct (on_mem_pages k 1 (set_heap h1 s) (a + l) (z' - l)) as (h2 & E2 & HG2); [apply HG1| |done|by apply aligned_sub|].
  { replace (z' - l) with (a + z' - (a + l)) by lia. eapply range_fits_rest; [done|done|cbn; lia|lia|by apply page_4k_aligned]. }
  exists h2. split; [exact E2|]. eapply grown_ext; [by eapply grown_trans|done|]. intros x. unfold handed. pose proof (aligned_sub _ _ _ Hz' Hl4) as Ezl. unfold aligned in Ezl.
  rewrite Ezl, Ez', !Z.sub_0_r. cbn. replace (a + l + (z' - l)) with (a + z') by lia.
  pose proof (Z.div_mod (a + z') PAGE_SIZE ltac:(done)) as He. pose proof (Z.mod_pos_bound (a + z') PAGE_SIZE ltac:(done)) as Hem.
  assert (PAGE_SIZE * (a / PAGE_SIZE + 1) ≤ PAGE_SIZE * ((a + z') / PAGE_SIZE)) by (apply Z.mul_le_mono_nonneg_l; [done|]; apply Z.div_le_lower_bound; [done|lia]).
  unfold PAGE_SIZE in *. lia.
Qed.

(** ** on_iomem *)

(** The numbers, from 1, of the pages that a range touches, and how many there are. *)
Definition io_pages (addr size pg : Z) : Prop := addr / PAGE_SIZE + 1 ≤ pg ≤ (addr + size - 1) / PAGE_SIZE + 1.
Definition nr_io_pages (addr size : Z) : nat := Z.to_nat ((addr + size - 1) / PAGE_SIZE - addr / PAGE_SIZE + 1).

(** The list of pages after those of [P], at most [n], were added. *)
Definition io_added (s : mboot) (P : Z → Prop) (n : nat) (l : list Z) : Prop :=
  (∀ q, q ∈ l ↔ q ∈ io_remap_pages s ∨ P q) ∧ (length l ≤ length (io_remap_pages s) + n)%nat.

Lemma add_map_run s pg : 0 ≤ pg < 2 ^ 31 → (length (io_remap_pages s) < MAX_IO_REMAPS)%nat →
  ∃ l, add_map pg s = Ret tt (set_io l s) ∧ io_added s (λ q, q = pg) 1 l.
Proof.
  intros Hp Hl. unfold add_map. rewrite s32_id by lia. erewrite bind_ret by reflexivity. case_bool_decide as Hin.
  - exists (io_remap_pages s). split; [by destruct s|]. split; [|lia]. intros q. split; [by left|]. by intros [?| ->].
  - rewrite bool_decide_false by lia. eexists. split; [done|]. split; [|rewrite length_app; simpl; lia].
    intros q. rewrite elem_of_app, list_elem_of_singleton. done.
Qed.

Lemma io_added_trans s P n l Q m l' : io_added s P n l → io_added (set_io l s) Q m l' → io_added s (λ q, P q ∨ Q q) (n + m) l'.
Proof. intros [A1 A2] [B1 B2]. cbn in *. split; [|lia]. intros q. rewrite B1, A1. tauto. Qed.

Lemma io_added_ext s P n l Q m : io_added s P n l → (n ≤ m)%nat → (∀ q, P q ↔ Q q) → io_added s Q m l.
Proof. intros [A1 A2] Hn HPQ. split; [|lia]. intros q. by rewrite A1, HPQ. Qed.

Lemma page_number x : 0 ≤ x < 2 ^ 51 → 0 ≤ x / PAGE_SIZE < 2 ^ 30.
Proof. intros Hx. split; [apply Z.div_pos; [lia|done]|apply Z.div_lt_upper_bound; [done|]]. unfold PAGE_SIZE. lia. Qed.

Lemma iomem_loop_run n : ∀ s a z, 0 ≤ a → 0 ≤ z → a + z < 2 ^ 51 → aligned PAGE_SIZE a → z / PAGE_SIZE ≤ Z.of_nat n →
  (length (io_remap_pages s) + nr_io_pages a z ≤ MAX_IO_REMAPS)%nat →
  ∃ l, iomem_loop n a z s = Ret tt (set_io l s) ∧ io_added s (io_pages a z) (nr_io_pages a z) l.
Proof.
  induction n as [|n IH]; intros s a z Ha Hz Haz Hal Hn Hl; cbn [iomem_loop];
    pose proof (Z.div_mod z PAGE_SIZE ltac:(done)) as Hdz; pose proof (Z.mod_pos_bound z PAGE_SIZE ltac:(done)) as Hmz;
    pose proof (Z.div_mod a PAGE_SIZE ltac:(done)) as Hda; unfold aligned in Hal; rewrite Hal in Hda;
    pose proof (Z.div_mod (a + z - 1) PAGE_SIZE ltac:(done)) as Hde; pose proof (Z.mod_pos_bound (a + z - 1) PAGE_SIZE ltac:(done)) as Hme;
    pose proof (page_number a ltac:(lia)) as Hpn.
  all: destruct (Z.leb_spec PAGE_SIZE z) as [Hle|Hgt]; [try (unfold PAGE_SIZE in *; lia)|].
  1, 3: destruct (Z.eqb_spec z 0) as [->|Hz0];
    [exists (io_remap_pages s); split; [by destruct s|]; split; [|lia]; intros q; unfold io_pages; rewrite Z.add_0_r in *; split; [by left|]; intros [?|?]; [done|unfold PAGE_SIZE in *; lia]|];
    (destruct (add_map_run s (a / PAGE_SIZE + 1)) as (l & E & HA); [lia|unfold nr_io_pages in Hl; unfold PAGE_SIZE in *; lia|]);
    exists l; split; [done|]; (eapply io_added_ext; [done|unfold nr_io_pages; unfold PAGE_SIZE in *; lia|]); intros q; unfold io_pages, PAGE_SIZE in *; lia.
  destruct (add_map_run s (a / PAGE_SIZE + 1)) as (l & E & HA); [lia|unfold nr_io_pages in Hl; unfold PAGE_SIZE in *; lia|].
  erewrite bind_ret by exact E. rewrite !u64_id by (unfold in_u, PAGE_SIZE in *; lia).
  assert ((a + PAGE_SIZE) / PAGE_SIZE = a / PAGE_SIZE + 1) as Ed by (rewrite <- (Z.mul_1_l PAGE_SIZE) at 1; by rewrite Z.div_add).
  assert (nr_io_pages a z = S (nr_io_pages (a + PAGE_SIZE) (z - PAGE_SIZE))) as En.
  { unfold nr_io_pages. rewrite Ed. replace (a + PAGE_SIZE + (z - PAGE_SIZE) - 1) with (a + z - 1) by lia. unfold PAGE_SIZE in *. lia. }
  destruct (IH (set_io l s) (a + PAGE_SIZE) (z - PAGE_SIZE)) as (l' & E' & HA').
  - unfold PAGE_SIZE. lia.
  - lia.
  - lia.
  - apply aligned_add; [done|]. by unfold aligned, PAGE_SIZE.
  - replace (z - PAGE_SIZE) with (z + (-1) * PAGE_SIZE) by lia. rewrite Z.div_add by done. lia.
  - destruct HA as [_ HA]. cbn in *. lia.
  - exists l'. split; [done|]. eapply io_added_ext; [by eapply io_added_trans|lia|]. intros q. unfold io_pages. rewrite Ed.
    replace (a + PAGE_SIZE + (z - PAGE_SIZE) - 1) with (a + z - 1) by lia. unfold PAGE_SIZE in *. lia.
Qed.

Lemma on_iomem_run s a z : 0 < a → 0 < z → a + z < 2 ^ 51 → (length (io_remap_pages s) + nr_io_pages a z ≤ MAX_IO_REMAPS)%nat →
  ∃ l, on_iomem a z s = Ret tt (set_io l s) ∧ io_added s (io_pages a z) (nr_io_pages a z) l.
Proof.
  intros Ha Hz Haz Hl. unfold on_iomem. rewrite (proj2 (Z.eqb_neq a 0)) by lia. rewrite land_page.
  pose proof (Z.div_mod a PAGE_SIZE ltac:(done)) as Hda. pose proof (Z.mod_pos_bound a PAGE_SIZE ltac:(done)) as Hma.
  pose proof (Z.div_mod (a + z - 1) PAGE_SIZE ltac:(done)) as Hde. pose proof (Z.mod_pos_bound (a + z - 1) PAGE_SIZE ltac:(done)) as Hme.
  pose proof (page_number a ltac:(lia)) as Hpn. destruct (Z.eqb_spec (a mod PAGE_SIZE) 0) as [Hal|Hal]; cbn [negb].
  { apply iomem_loop_run; [lia..|done| |done]. rewrite Z2Nat.id; [lia|]. apply Z.div_pos; [lia|done]. }
  set (l := PAGE_SIZE - a mod PAGE_SIZE). rewrite u64_id by (unfold in_u, PAGE_SIZE; lia).
  assert ((a + PAGE_SIZE - 1) / PAGE_SIZE = a / PAGE_SIZE + 1) as ->.
  { symmetry. apply (Z.div_unique _ _ _ (a mod PAGE_SIZE - 1)); lia. }
  destruct (add_map_run s (a / PAGE_SIZE + 1)) as (l1 & E1 & HA1); [lia|unfold nr_io_pages in Hl; unfold PAGE_SIZE in *; lia|].
  destruct (Z.leb_spec z l) as [Hle|Hgt].
  { exists l1. split; [done|]. eapply io_added_ext; [done|unfold nr_io_pages; unfold PAGE_SIZE in *; lia|]. intros q. unfold io_pages. unfold l, PAGE_SIZE in *. lia. }
  erewrite bind_ret by exact E1. rewrite !u64_id by (unfold in_u, l, PAGE_SIZE in *; lia). rewrite (proj2 (Z.eqb_neq _ 0)) by lia.
  assert ((a + l) / PAGE_SIZE = a / PAGE_SIZE + 1) as Ed by (symmetry; apply (Z.div_unique _ _ _ 0); unfold l; lia).
  assert (nr_io_pages a z = S (nr_io_pages (a + l) (z - l))) as En.
  { unfold nr_io_pages. rewrite Ed. replace (a + l + (z - l) - 1) with (a + z - 1) by lia. unfold l, PAGE_SIZE in *. lia. }
  destruct (iomem_loop_run (Z.to_nat (z / PAGE_SIZE)) (set_io l1 s) (a + l) (z - l)) as (l2 & E2 & HA2).
  - lia.
  - lia.
  - lia.
  - unfold aligned. unfold l. replace (a + (PAGE_SIZE - a mod PAGE_SIZE)) with ((a / PAGE_SIZE + 1) * PAGE_SIZE) by lia. by apply Z.mod_mul.
  - rewrite Z2Nat.id by (apply Z.div_pos; [lia|done]). apply Z.div_le_mono; [done|lia].
  - destruct HA1 as [_ HA1]. cbn in *. lia.
  - exists l2. split; [done|]. eapply io_added_ext; [by eapply io_added_trans|lia|]. intros q. unfold io_pages. rewrite Ed.
    replace (a + l + (z - l) - 1) with (a + z - 1) by lia. unfold l, PAGE_SIZE in *. lia.
Qed.

(** ** deal_reverse *)

Definition reserved (l : list (Z * Z)) (x : Z) : Prop := ∃ r, r ∈ l ∧ r.1 ≤ x < r.1 + r.2.

(** The part of the range from [b] on is not reserved, and what is before it is. *)
Definition remains (l : list (Z * Z)) (a z b : Z) : Prop :=
  a ≤ b < a + z ∧ (∀ x, a ≤ x < b → reserved l x) ∧ (∀ x, b ≤ x < a + z → ¬ reserved l x).

Record revs_ok (s : mboot) : Prop := {
  rv_pos r : r ∈ revmem s → 0 ≤ r.1 ∧ 0 ≤ r.2 ∧ r.1 + r.2 < 2 ^ 63;
  rv_max r : r ∈ revmem s → r.1 + r.2 ≤ max_reverse_addr s
}.

(** No reserved range starts inside of the range. *)
Definition no_start (l : list (Z * Z)) (a z : Z) : Prop := ∀ r, r ∈ l → ¬ a < r.1 < a + z.

(** What is left of a range is given away, or the range is reserved. *)
Definition dealt (s : mboot) (a z : Z) (ismem : bool) (r : outcome mboot unit) : Prop :=
  (∃ b, remains (revmem s) a z b ∧ r = give b (a + z - b) ismem s) ∨
  (∀ x, a ≤ x < a + z → reserved (revmem s) x) ∧ r = Ret tt s.

Lemma dealt_all s a z ismem : 0 < z → (∀ x, a ≤ x < a + z → ¬ reserved (revmem s) x) → dealt s a z ismem (give a z ismem s).
Proof. intros Hz Hn. left. exists a. split; [split_and!; [lia|lia|lia|done]|]. by replace (a + z - a) with z by lia. Qed.

Lemma dealt_cut s a z ismem c r : a ≤ c < a + z → (∀ x, a ≤ x < c → reserved (revmem s) x) → dealt s c (a + z - c) ismem r → dealt s a z ismem r.
Proof.
  intros Hc Hr [(b & (B1 & B2 & B3) & ->)|[Hall ->]].
  - left. exists b. split; [|f_equal; lia]. split_and!; [lia|lia| |intros x Hx; apply B3; lia].
    intros x Hx. destruct (decide (x < c)); [apply Hr|apply B2]; lia.
  - right. split; [|done]. intros x Hx. destruct (decide (x < c)); [apply Hr|apply Hall]; lia.
Qed.

(** The reserved ranges that end behind [a]. *)
Definition behind (a : Z) (l : list (Z * Z)) : nat := length (filter (λ r, a < r.1 + r.2) l).

Lemma behind_lt a c r l : r ∈ l → a < r.1 + r.2 → r.1 + r.2 ≤ c → a ≤ c → (behind c l < behind a l)%nat.
Proof.
  intros Hr Ha Hc Hac. unfold behind. revert Hr. induction l as [|q l IH]; [by intros ?%elem_of_nil|]. intros [->|Hr]%elem_of_cons; rewrite !filter_cons.
  - do 2 case_decide; try lia. cbn [length]. apply le_n_S. clear IH. induction l as [|p l IH]; [done|]. rewrite !filter_cons. repeat case_decide; cbn; lia.
  - specialize (IH Hr). repeat case_decide; cbn; lia.
Qed.

Lemma reverse_loop_run again s a z ismem l0 : revs_ok s → 0 ≤ a → 0 < z → a + z < 2 ^ 63 → no_start (revmem s) a z →
  (∀ r, r ∈ revmem s → r.1 ≤ a → a < r.1 + r.2 → r.1 + r.2 < a + z →
     dealt s (r.1 + r.2) (a + z - (r.1 + r.2)) ismem (again (r.1 + r.2) (a + z - (r.1 + r.2)) s)) →
  ∀ l, revmem s = l0 ++ l → (∀ x, a ≤ x < a + z → ¬ reserved l0 x) → dealt s a z ismem (reverse_loop again a z ismem l s).
Proof.
  intros HR Ha Hz Haz Hns Hag l. revert l0. induction l as [|[p n] l IH]; intros l0 El H0; cbn [reverse_loop].
  { rewrite app_nil_r in El. apply dealt_all; [done|]. by rewrite El. }
  assert ((p, n) ∈ revmem s) as Hin by (rewrite El; set_solver). destruct (rv_pos s HR _ Hin) as (R1 & R2 & R3). cbn [fst snd] in *.
  rewrite !u64_id by (unfold in_u; lia). specialize (Hns _ Hin). cbn in Hns. specialize (Hag _ Hin). cbn in Hag.
  assert (¬ (p < a + z ∧ a < p + n) → dealt s a z ismem (reverse_loop again a z ismem l s)) as Hskip.
  { intros Hno. apply (IH (l0 ++ [(p, n)])); [by rewrite <- app_assoc|]. intros x Hx (r & [Hr| ->%list_elem_of_singleton]%elem_of_app & Hxr); [by apply (H0 x Hx); exists r|]. cbn in Hxr. lia. }
  destruct (Z.leb_spec (p + n) a); [apply Hskip; lia|]. destruct (Z.leb_spec (a + z) p); [apply Hskip; lia|].
  assert (p ≤ a) as Hpa by lia. rewrite (proj2 (Z.leb_le p a)) by lia. cbn [andb].
  assert (∀ x, a ≤ x < p + n → reserved (revmem s) x) as Hres by (intros x Hx; exists (p, n); split; [done|cbn; lia]).
  destruct (Z.leb_spec (a + z) (p + n)).
  - right. split; [|done]. intros x Hx. apply Hres. lia.
  - rewrite u64_id by (unfold in_u; lia). replace (z + a - (p + n)) with (a + z - (p + n)) by lia. eapply dealt_cut; [|exact Hres|apply Hag; lia]. lia.
Qed.

Lemma deal_reverse_run ismem s : revs_ok s → ∀ fuel a z, 0 ≤ a → 0 < z → a + z < 2 ^ 63 → no_start (revmem s) a z →
  (behind a (revmem s) < fuel)%nat → dealt s a z ismem (deal_reverse fuel a z ismem s).
Proof.
  intros HR. induction fuel as [|fuel IH]; intros a z Ha Hz Haz Hns Hf; [lia|]. cbn [deal_reverse]. erewrite bind_ret by reflexivity.
  destruct (Z.ltb_spec (max_reverse_addr s) a) as [Hm|Hm].
  { apply dealt_all; [done|]. intros x Hx (r & Hr & Hxr). pose proof (rv_max s HR r Hr). lia. }
  erewrite bind_ret by reflexivity. apply (reverse_loop_run _ s a z ismem []); try done; [|by intros x _ (r & ?%elem_of_nil & _)].
  intros r Hr H1 H2 H3. apply IH; [lia|lia|lia| |].
  - intros q Hq. specialize (Hns q Hq). lia.
  - pose proof (behind_lt a (r.1 + r.2) r (revmem s) Hr H2 ltac:(lia) ltac:(lia)). lia.
Qed.

(** ** The table *)

Definition m_addr (m : memory_map) : Z := base_addr_high m * 2 ^ 32 + base_addr_low m.
Definition m_len (m : memory_map) : Z := length_high m * 2 ^ 32 + length_low m.
Definition is_mem (m : memory_map) : bool := m_type m =? 1.

(** [l] are the records from [p] to [e]. *)
Fixpoint table (at_ : Z → memory_map) (p e : Z) (l : list memory_map) : Prop :=
  match l with
  | [] => e ≤ p
  | m :: l => p < e ∧ at_ p = m ∧ 0 ≤ m_size m < 2 ^ 32 ∧ table at_ (p + m_size m + 4) e l
  end.

(** The bytes of a usable range that are given away, and the pages of another. *)
Definition usable (rev : list (Z * Z)) (max : Z) (m : memory_map) (x : Z) : Prop :=
  is_mem m = true ∧ ∃ b, remains rev (m_addr m) (m_len m) b ∧ handed max b (m_addr m + m_len m - b) x.
Definition device (rev : list (Z * Z)) (m : memory_map) (pg : Z) : Prop :=
  is_mem m = false ∧ ∃ b, remains rev (m_addr m) (m_len m) b ∧ io_pages b (m_addr m + m_len m - b) pg.

Record map_ok (rev : list (Z * Z)) (max top : Z) (m : memory_map) : Prop := {
  mo_u32 : in_u 32 (base_addr_high m) ∧ in_u 32 (base_addr_low m) ∧ in_u 32 (length_high m) ∧ in_u 32 (length_low m);
  mo_len : 0 < m_len m;
  mo_top : m_addr m + m_len m < 2 ^ 51;
  mo_start : no_start rev (m_addr m) (m_len m);
  mo_mem : is_mem m = true → aligned 0x1000 (m_addr m) ∧ m_addr m + m_len m ≤ max ∧ m_addr m + m_len m ≤ top
}.

Definition nr_mem (l : list memory_map) : nat := length (filter (λ m, is_mem m = true) l).
Fixpoint nr_dev (l : list memory_map) : nat :=
  match l with [] => 0 | m :: l => (if is_mem m then 0 else nr_io_pages (m_addr m) (m_len m)) + nr_dev l end.

Definition apart (m m' : memory_map) : Prop :=
  is_mem m = true → is_mem m' = true → m_addr m + m_len m ≤ m_addr m' ∨ m_addr m' + m_len m' ≤ m_addr m.

Lemma remains_at rev a z b : remains rev a z b → b = a ∨ ∃ r, r ∈ rev ∧ b = r.1 + r.2.
Proof.
  intros (Hb & Hr & Hn). destruct (decide (b = a)) as [?|Hne]; [by left|]. right. destruct (Hr (b - 1) ltac:(lia)) as (r & Hin & Hx).
  exists r. split; [done|]. destruct (decide (b < r.1 + r.2)); [|lia]. exfalso. apply (Hn b); [lia|]. exists r. split; [done|lia].
Qed.

Lemma remains_unique rev a z b b' : remains rev a z b → remains rev a z b' → b = b'.
Proof.
  intros (H1 & H2 & H3) (K1 & K2 & K3). destruct (decide (b < b')); [|destruct (decide (b' < b)); [|lia]].
  - exfalso. apply (H3 b); [lia|]. apply K2. lia.
  - exfalso. apply (K3 b'); [lia|]. apply H2. lia.
Qed.

Lemma handed_in max b z x : handed max b z x → b ≤ x < b + z.
Proof. unfold handed. pose proof (Z.mod_pos_bound z 0x1000). lia. Qed.

(** What is given away is memory that is not reserved. *)
Lemma usable_sound rev max m x : usable rev max m x → m_addr m ≤ x < m_addr m + m_len m ∧ ¬ reserved rev x.
Proof. intros (_ & b & (B1 & B2 & B3) & Hx%handed_in). split; [lia|]. apply B3. lia. Qed.

Lemma nr_io_pages_le a z b : a ≤ b < a + z → (nr_io_pages b (a + z - b) ≤ nr_io_pages a z)%nat.
Proof.
  intros Hb. unfold nr_io_pages. replace (b + (a + z - b) - 1) with (a + z - 1) by lia.
  pose proof (Z.div_le_mono a b PAGE_SIZE ltac:(done) ltac:(lia)). lia.
Qed.

(** What one record does. *)
Definition one_done (s : mboot) (k : nat) (m : memory_map) (h' : kheap phymem) (l' : list Z) : Prop :=
  grown k (heap s) (usable (revmem s) (max_phy_mem_addr s) m) h' ∧
  io_added s (device (revmem s) m) (if is_mem m then 0 else nr_io_pages (m_addr m) (m_len m)) l'.

Record revs_good (s : mboot) : Prop := {
  rg_ok : revs_ok s;
  rg_zero : reserved (revmem s) 0;
  rg_al r : r ∈ revmem s → aligned 0x1000 (r.1 + r.2);
  rg_max : max_phy_mem_addr s ≤ 2 ^ 52
}.

Lemma one_run k s m fuel : revs_good s → map_ok (revmem s) (max_phy_mem_addr s) (max_phy_addr (phys (heap s))) m → ready (if is_mem m then S (S k) else k) (heap s) →
  (is_mem m = true → ∀ x, m_addr m ≤ x < m_addr m + m_len m → ¬ reserved (revmem s) x → ¬ heap_free (heap s) x) →
  (is_mem m = false → (length (io_remap_pages s) + nr_io_pages (m_addr m) (m_len m) ≤ MAX_IO_REMAPS)%nat) → (length (revmem s) < fuel)%nat →
  ∃ h' l', deal_reverse fuel (m_addr m) (m_len m) (is_mem m) s = Ret tt (set_io l' (set_heap h' s)) ∧ one_done s k m h' l'.
Proof.
  intros [HR Hz Hal Hmx] [Mu Ml Mt Ms Mm] Hk Hnew Hio Hf. assert (0 ≤ m_addr m) as Ha0 by (unfold m_addr, in_u in *; lia).
  assert (set_io (io_remap_pages s) (set_heap (heap s) s) = s) as Es by (by destruct s as [[] ? ? ? ? ? ?]).
  destruct (deal_reverse_run (is_mem m) s HR fuel (m_addr m) (m_len m)) as [(b & Hb & ->)|[Hall ->]]; [done|done|lia|done| | |].
  { unfold behind. pose proof (length_filter (λ r : Z * Z, m_addr m < r.1 + r.2) (revmem s)). lia. }
  - assert (0 < b) as Hb0.
    { destruct Hb as (Hb & _ & Hn). destruct (decide (b = 0)) as [->|]; [|lia]. exfalso. apply (Hn 0); [lia|done]. }
    pose proof Hb as (B1 & B2 & B3). assert (∀ b', remains (revmem s) (m_addr m) (m_len m) b' ↔ b' = b) as Hu.
    { intros b'. split; [intros Hb'; by eapply remains_unique|by intros ->]. }
    unfold one_done, usable, device, give. destruct (is_mem m) eqn:Em.
    + destruct (Mm eq_refl) as (M1 & M2 & M3).
      destruct (on_mem_run k s b (m_addr m + m_len m - b) Hk) as (h' & E & HG).
      { split; [lia| |lia|lia|done|intros x Hx; apply Hnew; [done|lia|apply B3; lia]]. destruct (remains_at _ _ _ _ Hb) as [->|(r & Hr & ->)]; [done|by apply Hal]. }
      exists h', (io_remap_pages s). split; [by rewrite E|]. split.
      * eapply grown_ext; [done|done|]. intros x. split; [intros Hx; split; [done|]; by exists b|]. intros (_ & b' & ->%Hu & Hx). done.
      * split; [|lia]. intros q. split; [by left|]. intros [?|[? _]]; done.
    + destruct (on_iomem_run s b (m_addr m + m_len m - b)) as (l' & E & HA); [done|lia|lia|pose proof (nr_io_pages_le (m_addr m) (m_len m) b B1); specialize (Hio eq_refl); lia|].
      exists (heap s), l'. split; [rewrite E; by destruct s as [[] ? ? ? ? ? ?]|]. split; [apply grown_refl; [done|by intros x [? _]]|].
      eapply io_added_ext; [done|by apply nr_io_pages_le|]. intros q. split; [intros Hq; split; [done|]; by exists b|]. intros (_ & b' & ->%Hu & Hq). done.
  - exists (heap s), (io_remap_pages s). split; [by rewrite Es|].
    assert (∀ b, ¬ remains (revmem s) (m_addr m) (m_len m) b) as Hno by (intros b (B1 & _ & B3); apply (B3 b); [lia|apply Hall; lia]).
    split.
    + apply grown_refl; [eapply ready_le; [|done]; destruct (is_mem m); lia|]. intros x (_ & b & Hb & _). by apply (Hno b).
    + split; [|lia]. intros q. split; [by left|]. intros [?|(_ & b & Hb & _)]; [done|]. by destruct (Hno b).
Qed.

Fixpoint separate (l : list memory_map) : Prop :=
  match l with [] => True | m :: l => Forall (apart m) l ∧ separate l end.

Lemma wide_id h l : in_u 32 h → in_u 32 l → wide h l = h * 2 ^ 32 + l.
Proof. unfold in_u, wide. intros Hh Hl. rewrite Z.shiftl_mul_pow2 by lia. rewrite (u64_id (h * 2 ^ 32)), u64_id by (unfold in_u; lia). done. Qed.

Lemma table_length at_ p e l : table at_ p e l → l = [] ∨ 4 * (Z.of_nat (length l) - 1) < e - p.
Proof.
  revert p. induction l as [|m l IH]; intros p Ht; [by left|]. right. destruct Ht as (Hp & _ & Hm & Ht). destruct (IH _ Ht) as [->|Hl]; cbn [length]; lia.
Qed.

Section e820.
Context (at_ : Z → memory_map) (rev : list (Z * Z)) (max top : Z).

(** What the records [l] need of the state. *)
Record pending (s : mboot) (k : nat) (l : list memory_map) : Prop := {
  pe_good : revs_good s;
  pe_rev : revmem s = rev;
  pe_max : max_phy_mem_addr s = max;
  pe_top : max_phy_addr (phys (heap s)) = top;
  pe_ok : Forall (map_ok rev max top) l;
  pe_sep : separate l;
  pe_ready : ready (2 * nr_mem l + k) (heap s);
  pe_new m x : m ∈ l → is_mem m = true → m_addr m ≤ x < m_addr m + m_len m → ¬ reserved rev x → ¬ heap_free (heap s) x;
  pe_io : (length (io_remap_pages s) + nr_dev l ≤ MAX_IO_REMAPS)%nat
}.

Lemma pending_step s k m l fuel : pending s k (m :: l) → (length rev < fuel)%nat → ∃ h' l',
  deal_reverse fuel (m_addr m) (m_len m) (is_mem m) s = Ret tt (set_io l' (set_heap h' s)) ∧
  grown (2 * nr_mem l + k) (heap s) (usable rev max m) h' ∧ io_added s (device rev m) (if is_mem m then 0 else nr_io_pages (m_addr m) (m_len m)) l' ∧
  pending (set_io l' (set_heap h' s)) k l.
Proof.
  intros [Pg Pr Pm Pt Po Ps Pk Pn Pi] Hf. apply list.Forall_cons in Po as [Pom Po]. destruct Ps as [Psm Ps]. cbn [nr_dev] in Pi.
  assert ((if is_mem m then S (S (2 * nr_mem l + k)) else (2 * nr_mem l + k)) = 2 * nr_mem (m :: l) + k)%nat as Ek.
  { unfold nr_mem. rewrite filter_cons. destruct (is_mem m); [rewrite decide_True by done|rewrite decide_False by done]; cbn [length]; lia. }
  destruct (one_run (2 * nr_mem l + k) s m fuel) as (h' & l' & E & HG & HA); [done|by rewrite Pr, Pm, Pt|by rewrite Ek| | |by rewrite Pr|].
  { rewrite Pr. intros Hm x. apply Pn; [left|done]. }
  { intros Hm. rewrite Hm in Pi. lia. }
  rewrite Pr, Pm in HG. rewrite Pr in HA. exists h', l'. do 3 (split; [done|]). pose proof HG as [G1 G2 G3].
  split; cbn; try done; [| by rewrite G3| |].
  - destruct Pg as [[R1 R2] Rz Ral Rmx]. split; cbn; done.
  - intros m' x Hm' Hmm Hx Hr [Hx'|Hx']%G2; [by eapply (Pn m'); [right| | | |]|]. pose proof (proj1 Hx') as Hmem. apply usable_sound in Hx' as [Hx' _].
    rewrite list.Forall_forall in Psm. destruct (Psm m' Hm' Hmem Hmm); lia.
  - destruct HA as [_ HA]. lia.
Qed.

Lemma e820_loop_run e l : ∀ fuel p minaddr s k, 0 ≤ p → e < 2 ^ 62 → table at_ p e l → (length l ≤ fuel)%nat → pending s k l → ∃ h' l',
  e820_loop fuel at_ p e minaddr s = Ret tt (set_io l' (set_heap h' s)) ∧
  grown k (heap s) (λ x, ∃ m, m ∈ l ∧ usable rev max m x) h' ∧ io_added s (λ q, ∃ m, m ∈ l ∧ device rev m q) (nr_dev l) l'.
Proof.
  induction l as [|m l IH]; intros fuel p minaddr s k Hp He Ht Hf HP.
  - exists (heap s), (io_remap_pages s). split_and!.
    + assert (set_io (io_remap_pages s) (set_heap (heap s) s) = s) as -> by (by destruct s as [[] ? ? ? ? ? ?]). cbn in Ht. destruct fuel; cbn [e820_loop]; by rewrite (proj2 (Z.ltb_ge p e)).
    + apply grown_refl; [apply HP|]. by intros x (m & ?%elem_of_nil & _).
    + split; [|lia]. intros q. split; [by left|]. by intros [?|(m & ?%elem_of_nil & _)].
  - destruct Ht as (Hpe & Hat & Hm & Ht). destruct fuel as [|fuel]; [cbn in Hf; lia|]. cbn [e820_loop]. rewrite (proj2 (Z.ltb_lt p e)) by done. rewrite Hat.
    pose proof (pe_ok _ _ _ HP) as Po. apply list.Forall_cons in Po as [[(U1 & U2 & U3 & U4) Ml Mt _ _] _].
    rewrite !wide_id by done. fold (m_addr m) (m_len m). fold (is_mem m).
    assert (0 ≤ m_addr m) by (unfold m_addr, in_u in *; lia).
    rewrite (proj2 (Z.ltb_ge (u64 (m_addr m + m_len m)) 0)), andb_false_r by (rewrite u64_id; unfold in_u; lia). erewrite bind_ret by reflexivity.
    destruct (pending_step s k m l (2 * length (revmem s) + 1) HP) as (h1 & l1 & E1 & HG1 & HA1 & HP1); [rewrite (pe_rev _ _ _ HP); lia|].
    erewrite bind_ret by exact E1. rewrite u64_id by (unfold in_u; lia).
    destruct (IH fuel (p + m_size m + 4) (if m_addr m <? minaddr then m_addr m else minaddr) _ k ltac:(lia) He Ht ltac:(cbn in Hf; lia) HP1) as (h2 & l2 & E2 & HG2 & HA2).
    exists h2, l2. split_and!; [done| |].
    + eapply grown_ext; [by eapply grown_trans|done|]. intros x. setoid_rewrite elem_of_cons. naive_solver.
    + eapply io_added_ext; [eapply io_added_trans; [exact HA1|exact HA2]|done|]. intros q. setoid_rewrite elem_of_cons. naive_solver.
Qed.

End e820.

(** ** init_e820 *)

Definition boot_reserved (s : mboot) : list (Z * Z) := [(0, 0x10000); (kernel_start s, kernel_end s - kernel_start s)].

(** The state before [init_e820], and the table [l]. *)
Record e820_fits (s : mboot) (k : nat) (at_ : Z → memory_map) (p size : Z) (l : list memory_map) : Prop := {
  ef_rev : revmem s = [] ∧ max_reverse_addr s = 0;
  ef_kernel : 0 ≤ kernel_start s ≤ kernel_end s ∧ kernel_end s < 2 ^ 52 ∧ aligned 0x1000 (kernel_end s);
  ef_max : max_phy_mem_addr s ≤ 2 ^ 52;
  ef_table : 0 ≤ p ∧ 0 ≤ size ∧ p + size < 2 ^ 62 ∧ table at_ p (p + size) l;
  ef_ok : Forall (map_ok (boot_reserved s) (max_phy_mem_addr s) (max_phy_addr (phys (heap s)))) l;
  ef_sep : separate l;
  ef_ready : ready (2 * nr_mem l + k) (heap s);
  ef_new m x : m ∈ l → is_mem m = true → m_addr m ≤ x < m_addr m + m_len m → ¬ reserved (boot_reserved s) x → ¬ heap_free (heap s) x;
  ef_io : (length (io_remap_pages s) + 1 + nr_dev l ≤ MAX_IO_REMAPS)%nat
}.


(** ** The pages of devices *)

Section remap.
Context {H : Type} `{MemSource H} (st : statics).

Definition in_io_page (l : list Z) (v : Z) : Prop :=
  ∃ pg, pg ∈ l ∧ 0 < pg ∧ IO_MEM_BASE + (pg - 1) * PAGE_SIZE ≤ v < IO_MEM_BASE + pg * PAGE_SIZE.

#[local] Instance in_io_page_dec l v : Decision (in_io_page l v).
Proof.
  destruct (decide (Exists (λ pg, 0 < pg ∧ IO_MEM_BASE + (pg - 1) * PAGE_SIZE ≤ v < IO_MEM_BASE + pg * PAGE_SIZE) l)) as [Hd|Hd];
    rewrite list.Exists_exists in Hd; [by left|by right].
Defined.

Lemma map_io_run (s : ptstate H) a : pt_ok st s → aligned PAGE_SIZE a → 0 ≤ a → a + PAGE_SIZE ≤ 2 ^ 35 →
  match map_io st a s with
  | Ret _ s' => pt_ok st s' ∧ ∀ v, canonical v →
      mmu st s' v = if decide (IO_MEM_BASE + a ≤ v < IO_MEM_BASE + a + PAGE_SIZE) then Some (v - IO_MEM_BASE) else mmu st s v
  | Panicked => True
  | _ => False
  end.
Proof.
  intros Hok Hal Ha Hm. unfold map_io. rewrite u64_id by (unfold in_u, IO_MEM_BASE, PAGE_SIZE in *; lia).
  pose proof (map_page_spec st s a (a + IO_MEM_BASE) IO_FLAGS Hok (page_4k_aligned _ Hal) ltac:(done)) as HM.
  unfold mbind, M_bind. destruct (map_page_p2v st a (a + IO_MEM_BASE) IO_FLAGS s) as [[] s1| | | | |]; try done.
  destruct HM as (Hok1 & _ & HM). split; [done|]. intros v Hv. rewrite HM.
  assert (slot v = slot (a + IO_MEM_BASE) ↔ IO_MEM_BASE + a ≤ v < IO_MEM_BASE + a + PAGE_SIZE) as Hs.
  { rewrite slot_io by (done || (unfold IO_MEM_BASE, PAGE_SIZE in *; lia)). rewrite <- page_in by (apply aligned_add; done). lia. }
  destruct (decide (slot v = slot (a + IO_MEM_BASE))) as [Hd|Hd].
  - pose proof (proj1 Hs Hd) as Hr. rewrite decide_True by done. unfold leaf. rewrite flag_bit0 by done. change (Z.testbit IO_FLAGS 0) with true. cbn iota.
    rewrite phys_of_entry by (done || (unfold PAGE_SIZE in *; lia)). f_equal.
    apply slot_io in Hd; [|done|unfold IO_MEM_BASE, PAGE_SIZE in *; lia].
    apply page_of in Hd; [lia|by apply aligned_add].
  - rewrite decide_False by tauto. done.
Qed.

(** Every noted page is mapped, uncached, at IO_MEM_BASE above its address, and no other
    translation changes. *)
Lemma remap_loop_run l : ∀ s : ptstate H, pt_ok st s → Forall (λ pg, 0 ≤ pg ≤ 2 ^ 14) l →
  match remap_loop st l s with
  | Ret _ s' => pt_ok st s' ∧ ∀ v, canonical v →
      (in_io_page l v → mmu st s' v = Some (v - IO_MEM_BASE)) ∧ (¬ in_io_page l v → mmu st s' v = mmu st s v)
  | Panicked => True
  | _ => False
  end.
Proof.
  induction l as [|pg l IH]; intros s Hok HF; cbn [remap_loop].
  { split; [done|]. intros v _. split; [|done]. by intros (pg & ?%elem_of_nil & _). }
  apply list.Forall_cons in HF as [Hpg HF]. rewrite u64_id by (unfold in_u; lia). unfold mbind, M_bind. destruct (Z.ltb_spec 0 pg) as [Hp|Hp].
  - rewrite u64_id by (unfold in_u, PAGE_SIZE in *; lia). pose proof (map_io_run s ((pg - 1) * PAGE_SIZE) Hok (aligned_mul _ _) ltac:(unfold PAGE_SIZE; lia) ltac:(unfold PAGE_SIZE; lia)) as HM.
    destruct (map_io st ((pg - 1) * PAGE_SIZE) s) as [[] s1| | | | |]; try done. destruct HM as [Hok1 HM]. specialize (IH s1 Hok1 HF).
    destruct (remap_loop st l s1) as [[] s2| | | | |]; try done. destruct IH as [Hok2 IH]. split; [done|]. intros v Hv. destruct (IH v Hv) as [I1 I2]. specialize (HM v Hv). split.
    + intros (q & [->|Hq]%elem_of_cons & Hq0 & Hqv); [|apply I1; by exists q].
      destruct (decide (in_io_page l v)) as [Hd|Hd]; [by apply I1|]. rewrite I2, HM by done. rewrite decide_True by lia. done.
    + intros Hn. assert (¬ in_io_page l v) as Hn' by (intros (q & Hq & Hr); apply Hn; exists q; split; [by right|done]). rewrite I2, HM by done.
      rewrite decide_False; [done|]. intros Hr. apply Hn. exists pg. split; [left|lia].
  - change ((mret () : M (ptstate H) unit) s) with (Ret (S := ptstate H) () s). specialize (IH s Hok HF). cbn iota.
    destruct (remap_loop st l s) as [[] s2| | | | |]; try done. destruct IH as [Hok2 IH]. split; [done|]. intros v Hv. destruct (IH v Hv) as [I1 I2]. split.
    + intros (q & [->|Hq]%elem_of_cons & Hq0 & Hqv); [lia|apply I1; by exists q].
    + intros Hn. apply I2. intros (q & Hq & Hr). apply Hn. exists q. split; [by right|done].
Qed.

End remap.

(** ** The end of the memory *)

(** [b] is the largest end of the records that satisfy [P], or [a]. *)
Definition top_of (a b : Z) (P : memory_map → bool) (l : list memory_map) : Prop :=
  a ≤ b ∧ (∀ m, m ∈ l → P m = true → m_addr m + m_len m ≤ b) ∧ (b = a ∨ ∃ m, m ∈ l ∧ P m = true ∧ b = m_addr m + m_len m).

Lemma top_of_cons a b (P : memory_map → bool) m l :
  top_of (if P m then if a <? m_addr m + m_len m then m_addr m + m_len m else a else a) b P l → top_of a b P (m :: l).
Proof.
  intros (H1 & H2 & H3). destruct (P m) eqn:Em; [destruct (Z.ltb_spec a (m_addr m + m_len m))|].
  all: split_and!; [lia| |].
  all: try (intros m' [->|Hm]%elem_of_cons HP; [lia || congruence|by apply H2]).
  all: destruct H3 as [->|(m' & Hm' & HP & ->)]; [|right; exists m'; split_and!; [by right|done|done]].
  - right. exists m. split_and!; [left|done|done].
  - by left.
  - by left.
Qed.

(** The limits that [init_bootload] finds are those of the table. *)
Lemma bootload_loop_run at_ e l : ∀ fuel p a b, 0 ≤ p → e < 2 ^ 62 → table at_ p e l → (length l ≤ fuel)%nat →
  Forall (λ m, in_u 32 (base_addr_high m) ∧ in_u 32 (base_addr_low m) ∧ in_u 32 (length_high m) ∧ in_u 32 (length_low m) ∧ m_addr m + m_len m < 2 ^ 64) l →
  ∃ a' b', bootload_loop fuel at_ p e a b = Some (a', b') ∧ top_of a a' (λ _, true) l ∧ top_of b b' is_mem l.
Proof.
  induction l as [|m l IH]; intros fuel p a b Hp He Ht Hf HF.
  - exists a, b. cbn in Ht. split; [destruct fuel; cbn [bootload_loop]; by rewrite (proj2 (Z.ltb_ge p e))|]. split; (split_and!; [done|by intros m ?%elem_of_nil|by left]).
  - destruct Ht as (Hpe & Hat & Hm & Ht). destruct fuel as [|fuel]; [cbn in Hf; lia|]. apply list.Forall_cons in HF as [(U1 & U2 & U3 & U4 & Hlt) HF].
    cbn [bootload_loop]. rewrite (proj2 (Z.ltb_lt p e)) by done. rewrite Hat, !wide_id by done. fold (m_addr m) (m_len m). fold (is_mem m).
    rewrite (u64_id (m_addr m + m_len m)) by (unfold in_u, m_addr, m_len in *; lia). rewrite u64_id by (unfold in_u; lia).
    edestruct (IH fuel (p + m_size m + 4)) as (a' & b' & E & Ha & Hb); [lia|done|done|cbn in Hf; lia|done|]. exists a', b'. split; [exact E|].
    split; by apply top_of_cons.
Qed.

(** ** An example: 16 MiB with a kernel of 2 MiB, and the BIOS area *)

Definition demo_map (p : Z) : memory_map :=
  if p =? 0x5000 then mk_mmap 20 0 0 0x9f000 0 1
  else if p =? 0x5018 then mk_mmap 20 0xf0000 0 0x10000 0 2
  else mk_mmap 20 0x100000 0 0xf00000 0 1.

Definition demo_table : list memory_map := [demo_map 0x5000; demo_map 0x5018; demo_map 0x5030].

Definition demo_phys : phymem := mk_phymem 0x1000000 [0] 0 0 0 8 0.

Definition demo_heap : kheap phymem := match init_kheap (zero_kheap demo_phys) with Ret _ s => s | _ => zero_kheap demo_phys end.

Definition demo_boot : mboot := mk_mboot (mk_pt ∅ 0 demo_heap) [] [] 0 0x100000 0x300000 0x1000000.

Lemma demo_phys_ok : phymem_ok demo_phys.
Proof.
  destruct (init_phy_mem_ok (mk_phymem 0x1000000 [] 0 0 0 0 0)) as (s & E & Hok & _); [cbn; lia|]. by injection E as <-.
Qed.

Lemma demo_ready : ready 10 (heap demo_boot) ∧ ∀ x, ¬ heap_free (heap demo_boot) x.
Proof.
  destruct (init_kheap_run (H := boot_pages) demo_phys demo_phys_ok) as (s & E & Es & Hs).
  assert (demo_heap = s) as Ed by (unfold demo_heap; by rewrite E). change (heap demo_boot) with demo_heap. rewrite Ed.
  split; [exists [], MAX_HEAP_HOLE, [], MAX_SMALL_HOLE; split; [exact Hs|reflexivity]|].
  intros x. rewrite (heap_free_iff _ _ _ _ _ _ Hs). intros [(? & ?%elem_of_nil & _)|[(? & ?%elem_of_nil & _)|(a & [_ Ha] & _)]]; [done|done|].
  rewrite Es in Ha. unfold free_page in Ha. pose proof (bit_at_range _ _ Ha) as Hr. cbn in Hr. revert Ha.
  apply (zero_prefix demo_phys 1); [|lia]. intros i Hi. by assert (i = 0%nat) as -> by lia.
Qed.

Lemma demo_fits : e820_fits demo_boot 6 demo_map 0x5000 0x48 demo_table.
Proof.
  destruct demo_ready as [Hr Hn]. split.
  - done.
  - by vm_compute.
  - by vm_compute.
  - split_and!; try by vm_compute.
  - apply list.Forall_cons; split; [|apply list.Forall_cons; split; [|apply list.Forall_cons; split; [|constructor]]].
    all: split; [by vm_compute|by vm_compute|by vm_compute| |by vm_compute].
    all: intros r [->|[->|Hnil%elem_of_nil]%elem_of_cons]%elem_of_cons; [vm_compute; intros [H1 H2]; congruence|vm_compute; intros [H1 H2]; congruence|destruct Hnil].
  - cbn. repeat (constructor || split); by vm_compute.
  - exact Hr.
  - intros m x _ _ _ _. apply Hn.
  - apply Nat.leb_le; vm_compute; reflexivity.
Qed.


(** The bytes above 0x400000 are pages, those below a range of the heap. *)
Example demo_usable x : 0x300000 ≤ x < 0x1000000 → usable (boot_reserved demo_boot) 0x1000000 (demo_map 0x5030) x.
Proof.
  intros Hx. split; [done|]. exists 0x300000. change (m_addr (demo_map 0x5030)) with 0x100000. change (m_len (demo_map 0x5030)) with 0xf00000. split.
  - split; [lia|]. split.
    + intros y Hy. exists (0x100000, 0x200000). split; [right; left|cbn; lia].
    + intros y Hy (r & [->|[->|Hr%elem_of_nil]%elem_of_cons]%elem_of_cons & Hyr); cbn in *; [lia|lia|done].
  - unfold handed. change (0x100000 + 0xf00000 - 0x300000) with 0xd00000. change (0xd00000 mod 0x1000) with 0. change ((0x300000 + (0xd00000 - 0)) / PAGE_SIZE) with 8. unfold PAGE_SIZE. lia.
Qed.

(** A reserved range inside of a usable one, [0x200000, 0x800000): what follows it is not
    given away, and pages behind the end of the range are. *)
Example deal_reverse_inside : remains [(0x400000, 0x100000)] 0x500000 0x300000 0x500000 ∧
  ∃ s', deal_reverse 3 0x200000 0x600000 true (set_rev [(0x400000, 0x100000)] 0x500000 demo_boot) = Ret tt s' ∧
    free_page (phys (heap s')) 1 ∧ ¬ free_page (phys (heap s')) 3 ∧ free_page (phys (heap s')) 5.
Proof.
  split.
  - split; [lia|]. split; [lia|]. intros x Hx (r & ->%list_elem_of_singleton & Hr). cbn in Hr. lia.
  - eexists. split; [vm_compute; reflexivity|]. split_and!; by vm_compute.
Qed.

End Mboot.
