(* ===== verification/Pci.v ===== *)
(** * PCI devices (arch/x86_64/include/asm/pci.h, arch/x86_64/pci.c, libs/libpci)

    The configuration space is reached through the ports 0xcf8 and 0xcfc, as the class
    [Bridge] describes it: a register is selected by its address and then read or written;
    a write changes the writable bits of a register that has no other effect.  The
    registers of MSI-X tables are memory, a function from addresses to 32-bit words. *)

From Stdlib Require Import Lia ZArith.
From stdpp Require Import base list numbers option.
From S2P Require Import Prelude Bitops.

#[local] Open Scope Z_scope.
#[local] Open Scope yaos_scope.

(** A register: bus, slot, function, and an offset that is a multiple of four. *)
Definition reg : Type := Z * Z * Z * Z.

Definition reg_ok (r : reg) : Prop :=
  let '(b, s, f, o) := r in 0 ≤ b < 256 ∧ 0 ≤ s < 32 ∧ 0 ≤ f < 8 ∧ 0 ≤ o < 256 ∧ o mod 4 = 0.

(** The value of CONFIG_ADDRESS that selects a register. *)
Definition select (r : reg) : Z := let '(b, s, f, o) := r in 2 ^ 31 + b * 2 ^ 16 + s * 2 ^ 11 + f * 2 ^ 8 + o.

(** A register after a write of [v] to its bits [mask]. *)
Definition written (old mask v : Z) : Z := (old .& Z.lnot mask) .| (v .& mask).

(** [plain r]: a 32-bit write of the register only sets its writable bits; [plainw r k]: so
    does a 16-bit write of its half at [k]. *)
Class Bridge (W : Type) := {
  outl : Z → Z → W → W;
  outw : Z → Z → W → W;
  outb : Z → Z → W → W;
  inl : Z → W → Z;
  inw : Z → W → Z;
  inb : Z → W → Z;
  address : W → Z;
  space : W → reg → Z;
  wmask : reg → Z;
  plain : reg → Prop;
  plainw : reg → Z → Prop;
  space_u32 w r : 0 ≤ space w r < 2 ^ 32;
  outl_address v w : address (outl v 0xcf8 w) = v;
  outl_space v w q : space (outl v 0xcf8 w) q = space w q;
  inl_data w r : reg_ok r → address w = select r → inl 0xcfc w = space w r;
  inw_data w r k : reg_ok r → address w = select r → k = 0 ∨ k = 2 →
    inw (0xcfc + k) w = (space w r .>> (8 * k)) .& 0xffff;
  inb_data w r k : reg_ok r → address w = select r → 0 ≤ k < 4 →
    inb (0xcfc + k) w = (space w r .>> (8 * k)) .& 0xff;
  outl_data w r v q : reg_ok r → plain r → address w = select r → 0 ≤ v < 2 ^ 32 →
    space (outl v 0xcfc w) q = if decide (q = r) then written (space w r) (wmask r) v else space w q;
  outw_data w r v k q : reg_ok r → plainw r k → address w = select r → k = 0 ∨ k = 2 → 0 ≤ v < 2 ^ 16 →
    space (outw v (0xcfc + k) w) q =
    if decide (q = r) then written (space w r) (wmask r .& (0xffff .<< (8 * k))) (v .<< (8 * k)) else space w q
}.

Section pci.
Context `{Bridge W}.

(** ** asm/pci.h *)

Definition build_config_address (bus slot func offset : Z) : Z :=
  (bus .<< 16) .| (slot .<< 11) .| (func .<< 8) .| (offset .& Z.lnot 3).

Definition prepare_pci_config_access (bus slot func offset : Z) : M W unit :=
  modify (outl (0x80000000 .| build_config_address bus slot func offset) 0xcf8).

Definition read_pci_config (bus slot func offset : Z) : M W Z :=
  prepare_pci_config_access bus slot func offset ;;
  gets (inl 0xcfc).

Definition read_pci_config_word (bus slot func offset : Z) : M W Z :=
  prepare_pci_config_access bus slot func offset ;;
  gets (inw (0xcfc + offset .& 2)).

Definition read_pci_config_byte (bus slot func offset : Z) : M W Z :=
  prepare_pci_config_access bus slot func offset ;;
  gets (inb (0xcfc + offset .& 3)).

Definition write_pci_config (bus slot func offset val : Z) : M W unit :=
  prepare_pci_config_access bus slot func offset ;;
  modify (outl val 0xcfc).

Definition write_pci_config_word (bus slot func offset val : Z) : M W unit :=
  prepare_pci_config_access bus slot func offset ;;
  modify (outw val (0xcfc + offset .& 2)).

Definition write_pci_config_byte (bus slot func offset val : Z) : M W unit :=
  prepare_pci_config_access bus slot func offset ;;
  modify (outb val (0xcfc + offset .& 3)).

Definition arch_add_pci_bar (val : Z) : Z := val.

(** ** Devices *)

Record pci_bar : Type := mk_bar {
  b_dev : bool; b_pos : Z; addr_lo : Z; addr_hi : Z; addr_64 : Z; addr_size : Z; addr_mmio : Z;
  is_mmio : bool; is_64 : bool; is_prefetchable : bool }.

Definition no_bar : pci_bar := mk_bar false 0 0 0 0 0 0 false false false.

(** The place of a device on the bus. *)
Record bdf : Type := mk_bdf { d_bus : Z; d_slot : Z; d_func : Z }.

Definition pci_readb (p : bdf) (off : Z) : M W Z := read_pci_config_byte (d_bus p) (d_slot p) (d_func p) (u8 off).
Definition pci_readw (p : bdf) (off : Z) : M W Z := read_pci_config_word (d_bus p) (d_slot p) (d_func p) (u8 off).
Definition pci_readl (p : bdf) (off : Z) : M W Z := read_pci_config (d_bus p) (d_slot p) (d_func p) (u8 off).
Definition pci_writew (p : bdf) (off v : Z) : M W unit := write_pci_config_word (d_bus p) (d_slot p) (d_func p) (u8 off) (u16 v).
Definition pci_writeb (p : bdf) (off v : Z) : M W unit := write_pci_config_byte (d_bus p) (d_slot p) (d_func p) (u8 off) (u8 v).
Definition pci_writel (p : bdf) (off v : Z) : M W unit := write_pci_config (d_bus p) (d_slot p) (d_func p) (u8 off) (u32 v).

(** ** pci_function.c *)

Definition PIO_MASK : Z := 0xFFFFFFFC.
Definition MEM_MASK : Z := 0xFFFFFFF0.

Definition pci_bar_read_size (p : bdf) (b : pci_bar) : M W Z :=
  lo_orig ← pci_readl p (b_pos b);
  pci_writel p (b_pos b) 0xFFFFFFFF ;;
  lo ← pci_readl p (b_pos b);
  pci_writel p (b_pos b) lo_orig ;;
  let lo := if negb (is_mmio b) then lo .& PIO_MASK else lo .& MEM_MASK in
  hi ← (if is_64 b then
          hi_orig ← pci_readl p (b_pos b + 4);
          pci_writel p (b_pos b + 4) 0xFFFFFFFF ;;
          hi ← pci_readl p (b_pos b + 4);
          pci_writel p (b_pos b + 4) hi_orig ;;
          mret hi
        else mret 0xFFFFFFFF);
  let bits := (hi .<< 32) .| lo in
  mret (u64 (u64 (Z.lnot bits) + 1)).

(** The flags of a memory bar are set, those of another one keep their values. *)
Definition pci_bar_init (p : bdf) (b : pci_bar) (pos : Z) : M W pci_bar :=
  val ← pci_readl p pos;
  let mmio := val .& 1 =? 0 in
  let b := mk_bar true (u8 pos) (addr_lo b) (addr_hi b) (addr_64 b) (addr_size b) (addr_mmio b) mmio
             (if mmio then val .& 6 =? 4 else is_64 b) (if mmio then val .& 8 =? 8 else is_prefetchable b) in
  size ← pci_bar_read_size p b;
  let val := arch_add_pci_bar val in
  let lo := if is_mmio b then val .& MEM_MASK else val .& PIO_MASK in
  hi ← (if is_mmio b && is_64 b then pci_readl p (pos + 4) else mret (addr_hi b));
  mret (mk_bar true (u8 pos) lo hi ((hi .<< 32) .| lo) size (addr_mmio b) (is_mmio b) (is_64 b) (is_prefetchable b)).

(** ** pci_device.c *)

Definition pci_get_command (p : bdf) : M W Z := pci_readw p 4.
Definition pci_set_command (p : bdf) (command : Z) : M W unit := pci_writew p 4 command.
Definition pci_get_status (p : bdf) : M W Z := pci_readw p 6.
(** Writes the command register. *)
Definition pci_set_status (p : bdf) (status : Z) : M W unit := pci_writew p 4 status.

Definition pci_get_bus_master (p : bdf) : M W bool :=
  command ← pci_get_command p;
  mret (negb (command .& 4 =? 0)).

Definition set_pci_bus_master (p : bdf) (master : bool) : M W unit :=
  command ← pci_get_command p;
  pci_set_command p (if master then command .| 4 else command .& Z.lnot 4).

Definition set_pci_bars_enable (p : bdf) (mem io : bool) : M W unit :=
  command ← pci_get_command p;
  let command := if mem then command .| 2 else command in
  let command := if io then command .| 1 else command in
  pci_set_command p command.

Definition pci_disable_intx (p : bdf) : M W unit :=
  command ← pci_get_command p;
  pci_set_command p (command .| 0x400).

Definition pci_enable_intx (p : bdf) : M W unit :=
  command ← pci_get_command p;
  pci_set_command p (command .& Z.lnot 0x400).

Definition pci_get_interrupt_line (p : bdf) : M W Z := pci_readb p 0x3C.

(** The list of capabilities from [off] on, after [ctr] of them. *)
Fixpoint capability_loop (fuel : nat) (p : bdf) (cap_id off ctr : Z) : M W Z :=
  if off =? 0 then mret 0xFF
  else
    match fuel with
    | O => out_of_fuel
    | S fuel =>
        capability ← pci_readb p (off + 0);
        if capability =? cap_id then mret off
        else
          let ctr := u8 (ctr + 1) in
          if 0xF0 <? ctr then mret 0xFF
          else
            off ← pci_readb p (off + 1);
            capability_loop fuel p cap_id off ctr
    end.

Definition find_capability (p : bdf) (cap_id : Z) : M W Z :=
  off ← pci_readb p 0x34;
  capability_loop 241 p cap_id off 0.

(** *** Parsing a device *)

Record pcicfg_msix : Type := mk_msix {
  msix_ctrl : Z; msix_msgnum : Z; msix_location : Z; msix_table_bar : Z; msix_pba_bar : Z;
  msix_table_offset : Z; msix_pba_offset : Z }.

Record pcicfg_msi : Type := mk_msi {
  msi_location : Z; msi_ctrl : Z; msi_msgnum : Z; is_64_address : bool; is_vector_mask : bool }.

Record ids : Type := mk_ids {
  _revision_id : Z; _header_type : Z; _base_class_code : Z; _sub_class_code : Z;
  _programming_interface : Z; _device_id : Z; _vendor_id : Z }.

(** [struct pci_device]; the flags _have_msix and _have_msi with the capability they guard. *)
Record pci_device : Type := mk_dev {
  place : bdf; d_ids : ids; have_msix : bool; _msix : pcicfg_msix; msix_enabled : bool;
  have_msi : bool; _msi : pcicfg_msi; bars : list pci_bar; subsystem_vid : Z; subsystem_id : Z }.

Definition parse_pci_msix (d : pci_device) (off : Z) : M W (pci_device * bool) :=
  ctrl ← pci_readw (place d) (off + 2);
  table ← pci_readl (place d) (off + 4);
  pba ← pci_readl (place d) (off + 8);
  mret (mk_dev (place d) (d_ids d) true
          (mk_msix ctrl (u16 ((ctrl .& 0x07FF) + 1)) off (u8 (table .& 7)) (u8 (pba .& 7))
             (table .& u32 (Z.lnot 7)) (pba .& u32 (Z.lnot 7)))
          (msix_enabled d) (have_msi d) (_msi d) (bars d) (subsystem_vid d) (subsystem_id d), true).

Definition parse_pci_msi (d : pci_device) (off : Z) : M W (pci_device * bool) :=
  ctrl ← pci_readw (place d) (off + 2);
  mret (mk_dev (place d) (d_ids d) (have_msix d) (_msix d) (msix_enabled d) true
          (mk_msi off ctrl 1 (negb (ctrl .& (1 .<< 7) =? 0)) (negb (ctrl .& (1 .<< 8) =? 0)))
          (bars d) (subsystem_vid d) (subsystem_id d), true).

Definition parse_pci_capabilities (d : pci_device) : M W (pci_device * bool) :=
  off ← find_capability (place d) 0x11;
  if negb (off =? 0xFF) then parse_pci_msix d off
  else
    off ← find_capability (place d) 0x05;
    if negb (off =? 0xFF) then parse_pci_msi d off else mret (d, true).

Definition parse_pci_config (d : pci_device) : M W (pci_device * bool) :=
  let p := place d in
  did ← pci_readw p 0x02;
  vid ← pci_readw p 0x00;
  rev ← pci_readb p 0x08;
  hdr ← pci_readb p 0x0E;
  base ← pci_readb p 0x0B;
  sub ← pci_readb p 0x0A;
  prog ← pci_readb p 0x09;
  parse_pci_capabilities
    (mk_dev p (mk_ids rev hdr base sub prog did vid) (have_msix d) (_msix d) (msix_enabled d)
       (have_msi d) (_msi d) (bars d) (subsystem_vid d) (subsystem_id d)).

Definition clear_dev (b : pci_bar) : pci_bar :=
  mk_bar false (b_pos b) (addr_lo b) (addr_hi b) (addr_64 b) (addr_size b) (addr_mmio b)
    (is_mmio b) (is_64 b) (is_prefetchable b).

Definition set_bars (d : pci_device) (bs : list pci_bar) : pci_device :=
  mk_dev (place d) (d_ids d) (have_msix d) (_msix d) (msix_enabled d) (have_msi d) (_msi d) bs
    (subsystem_vid d) (subsystem_id d).

(** The loop over the base address registers from [pos] on. *)
Fixpoint bars_loop (fuel : nat) (p : bdf) (pos idx : Z) (bs : list pci_bar) : M W (list pci_bar) :=
  if negb (pos <=? 0x24) then mret bs
  else
    match fuel with
    | O => out_of_fuel
    | S fuel =>
        bar_v ← pci_readl p pos;
        if bar_v =? 0 then bars_loop fuel p (u32 (pos + 4)) (idx + 1) bs
        else
          ASSERT (idx <=? 7) ;;
          b ← deref (bs !! Z.to_nat (idx - 1));
          b ← pci_bar_init p b pos;
          let bs := <[Z.to_nat (idx - 1) := b]> bs in
          if is_64 b then bars_loop fuel p (u32 (pos + 8)) (idx + 2) bs
          else bars_loop fuel p (u32 (pos + 4)) (idx + 1) bs
    end.

(** The loop that clears _dev runs over seven bars: the seventh one is the eight bytes of
    _subsystem_vid, _subsystem_id and the padding behind them. *)
Definition pci_device_parse_config (d : pci_device) : M W (pci_device * bool) :=
  '(d, _) ← parse_pci_config
    (mk_dev (place d) (d_ids d) (have_msix d) (_msix d) (msix_enabled d) (have_msi d) (_msi d)
       (clear_dev <$> bars d) 0 0);
  vid ← pci_readw (place d) 0x2C;
  sid ← pci_readw (place d) 0x2E;
  set_pci_bars_enable (place d) true true ;;
  bs ← bars_loop 6 (place d) 0x10 1 (bars d);
  mret (mk_dev (place d) (d_ids d) (have_msix d) (_msix d) (msix_enabled d) (have_msi d) (_msi d)
          bs vid sid, true).

(** ** arch/x86_64/pci.c *)

Record pci_bsf : Type := mk_bsf { vid : Z; did : Z; at_ : bdf }.

Definition MAX_PCI : nat := 128.

(** One step of the scan; [found] is the part of the table in use. *)
Definition scan_function (b s f : Z) (found : list pci_bsf) : M W (list pci_bsf) :=
  v ← read_pci_config_word b s f 0;
  d ← read_pci_config_word b s f 2;
  if negb (v =? 0xffff) then
    if Nat.ltb (length found) MAX_PCI then mret (found ++ [mk_bsf v d (mk_bdf b s f)]) else fault
  else mret found.

(** [for (int i = lo; i < lo + n; i++)] with the table threaded through. *)
Fixpoint scan_loop (n : nat) (i : Z) (body : Z → list pci_bsf → M W (list pci_bsf)) (found : list pci_bsf) :
  M W (list pci_bsf) :=
  match n with
  | O => mret found
  | S n => found ← body i found; scan_loop n (i + 1) body found
  end.

Definition init_pci : M W (list pci_bsf) :=
  scan_loop 255 0 (λ b, scan_loop 31 0 (λ s, scan_loop 7 0 (λ f, scan_function b s f))) [].

Definition find_pci (table : list pci_bsf) (d : pci_device) : pci_device * bool :=
  match list_find (λ e, vid e = _vendor_id (d_ids d) ∧ did e = _device_id (d_ids d)) table with
  | Some (_, e) =>
      (mk_dev (at_ e) (d_ids d) (have_msix d) (_msix d) (msix_enabled d) (have_msi d) (_msi d)
         (bars d) (subsystem_vid d) (subsystem_id d), true)
  | None => (d, false)
  end.

(** ** Configuration space *)

Definition at_reg (p : bdf) (o : Z) : reg := (d_bus p, d_slot p, d_func p, o).

Definition bdf_ok (p : bdf) : Prop := 0 ≤ d_bus p < 256 ∧ 0 ≤ d_slot p < 32 ∧ 0 ≤ d_func p < 8.

(** The configuration spaces of two states are the same. *)
Definition same (w w' : W) : Prop := ∀ q, space w' q = space w q.

Lemma same_trans w w' w'' : same w w' → same w' w'' → same w w''.
Proof. intros H1 H2 q. by rewrite H2, H1. Qed.

Lemma lor_add k a f : 0 ≤ k → a mod 2 ^ k = 0 → 0 ≤ f < 2 ^ k → a .| f = a + f.
Proof.
  intros Hk Ha Hf. assert (a .& f = 0) as E.
  { rewrite <- (Z.mod_small f (2 ^ k)) by done. rewrite <- Z.land_ones, Z.land_assoc by done.
    rewrite (Z.land_comm a f), <- Z.land_assoc, Z.land_ones, Ha by done. apply Z.land_0_r. }
  rewrite <- Z.lxor_lor by done. symmetry. by apply Z.add_nocarry_lxor.
Qed.

Lemma select_build p o k : bdf_ok p → 0 ≤ o → o + k < 256 → o mod 4 = 0 → 0 ≤ k < 4 →
  0x80000000 .| build_config_address (d_bus p) (d_slot p) (d_func p) (o + k) = select (at_reg p o).
Proof.
  destruct p as [b s f]. unfold bdf_ok. simpl. intros (Hb & Hs & Hf) Ho Hk Hm Hk4.
  unfold build_config_address. rewrite !Z.shiftl_mul_pow2 by lia.
  change (Z.lnot 3) with (- 2 ^ 2). rewrite land_not_mask by lia.
  assert ((o + k) mod 2 ^ 2 = k) as -> by (change (2 ^ 2) with 4; rewrite Zplus_mod, Hm, Z.add_0_l, Z.mod_mod, Z.mod_small by lia; done).
  replace (o + k - k) with o by lia.
  assert (∀ x n, 0 ≤ n → (x * 2 ^ n) mod 2 ^ n = 0) as Hmul by (intros; apply Z.mod_mul; lia).
  rewrite (lor_add 16 (b * 2 ^ 16) (s * 2 ^ 11)) by (apply Hmul; lia) || lia.
  rewrite (lor_add 11 _ (f * 2 ^ 8)); [|lia|rewrite <- (Hmul (b * 2 ^ 5 + s) 11) by lia; f_equal; lia|lia].
  rewrite (lor_add 8 _ o); [|lia|rewrite <- (Hmul (b * 2 ^ 8 + s * 2 ^ 3 + f) 8) by lia; f_equal; lia|lia].
  rewrite Z.lor_comm, Z.lor_comm, (lor_add 31 0x80000000) by (done || lia). lia.
Qed.

Lemma prepare_run p o k w : bdf_ok p → 0 ≤ o → o + k < 256 → o mod 4 = 0 → 0 ≤ k < 4 →
  ∃ w', prepare_pci_config_access (d_bus p) (d_slot p) (d_func p) (u8 (o + k)) w = Ret tt w' ∧
        address w' = select (at_reg p o) ∧ same w w'.
Proof.
  intros Hp Ho Hk Hm Hk4. assert (u8 (o + k) = o + k) as -> by (unfold u8; apply wrap_id; unfold in_u; lia).
  unfold prepare_pci_config_access. eexists. split; [reflexivity|].
  rewrite select_build by done. split; [apply outl_address|]. intros q. apply outl_space.
Qed.

Lemma reg_ok_at p o : bdf_ok p → 0 ≤ o < 256 → o mod 4 = 0 → reg_ok (at_reg p o).
Proof. intros (? & ? & ?) ? ?. done. Qed.

Lemma readl_run p o w : bdf_ok p → 0 ≤ o < 256 → o mod 4 = 0 →
  ∃ w', pci_readl p o w = Ret (space w (at_reg p o)) w' ∧ same w w'.
Proof.
  intros Hp Ho Hm. destruct (prepare_run p o 0 w) as (w' & E & Ha & Hs); try (done || lia).
  rewrite Z.add_0_r in E. exists w'. split; [|done]. unfold pci_readl, read_pci_config.
  rewrite (bind_ret _ _ _ _ _ E). unfold gets. by rewrite (inl_data w' (at_reg p o)), Hs by (done || by apply reg_ok_at).
Qed.

Lemma writel_run p o v w : bdf_ok p → 0 ≤ o < 256 → o mod 4 = 0 → plain (at_reg p o) → 0 ≤ v < 2 ^ 32 →
  ∃ w', pci_writel p o v w = Ret tt w' ∧
    ∀ q, space w' q = if decide (q = at_reg p o) then written (space w q) (wmask q) v else space w q.
Proof.
  intros Hp Ho Hm Hpl Hv. destruct (prepare_run p o 0 w) as (w' & E & Ha & Hs); try (done || lia).
  rewrite Z.add_0_r in E. unfold pci_writel, write_pci_config. eexists. split.
  { rewrite (bind_ret _ _ _ _ _ E). rewrite u32_small by done. reflexivity. }
  intros q. rewrite (outl_data w' (at_reg p o)) by (done || by apply reg_ok_at).
  case_decide; [subst|]; by rewrite !Hs.
Qed.

(** The byte and the word at an offset. *)
Definition byte_of (w : W) (p : bdf) (o : Z) : Z := (space w (at_reg p (o - o mod 4)) .>> (8 * (o mod 4))) .& 0xff.
Definition half_of (w : W) (p : bdf) (o : Z) : Z := (space w (at_reg p (o - o mod 4)) .>> (8 * (o mod 4))) .& 0xffff.

Lemma byte_same w w' p o : same w w' → byte_of w' p o = byte_of w p o.
Proof. intros Hs. unfold byte_of. by rewrite Hs. Qed.

Lemma split4 o : 0 ≤ o < 256 → 0 ≤ o - o mod 4 ∧ (o - o mod 4) mod 4 = 0 ∧ 0 ≤ o mod 4 < 4.
Proof.
  intros Ho. pose proof (Z.mod_pos_bound o 4). pose proof (Z.div_mod o 4).
  split; [pose proof (Z.mod_le o 4); lia|]. split; [|lia].
  replace (o - o mod 4) with (o / 4 * 4) by lia. by apply Z.mod_mul.
Qed.

Lemma readb_run p o w : bdf_ok p → 0 ≤ o < 256 →
  ∃ w', pci_readb p o w = Ret (byte_of w p o) w' ∧ same w w'.
Proof.
  intros Hp Ho. destruct (split4 o Ho) as (H0 & Hm & Hk).
  destruct (prepare_run p (o - o mod 4) (o mod 4) w) as (w' & E & Ha & Hs); try (done || lia).
  replace (o - o mod 4 + o mod 4) with o in E by lia. exists w'. split; [|done].
  unfold pci_readb, read_pci_config_byte. rewrite (bind_ret _ _ _ _ _ E). unfold gets.
  assert (u8 o = o) as -> by (unfold u8; apply wrap_id; unfold in_u; lia).
  change 3 with (2 ^ 2 - 1). rewrite land_mask by lia. change (2 ^ 2) with 4.
  rewrite (inb_data w' (at_reg p (o - o mod 4))) by (done || apply reg_ok_at; done || lia). by rewrite Hs.
Qed.

Lemma readw_run p o w : bdf_ok p → 0 ≤ o < 256 → o mod 2 = 0 →
  ∃ w', pci_readw p o w = Ret (half_of w p o) w' ∧ same w w'.
Proof.
  intros Hp Ho H2. destruct (split4 o Ho) as (H0 & Hm & Hk).
  assert (o .& 2 = o mod 4 ∧ (o mod 4 = 0 ∨ o mod 4 = 2)) as [E2 Hk2].
  { assert (o mod 4 = 0 ∨ o mod 4 = 2) as Ho4 by (pose proof (Z.div_mod o 4); pose proof (Z.div_mod o 2); lia).
    split; [|done]. replace (o .& 2) with ((o mod 4) .& 2); [by destruct Ho4 as [-> | ->]|].
    change 4 with (2 ^ 2). rewrite <- Z.land_ones, <- Z.land_assoc by lia. done. }
  destruct (prepare_run p (o - o mod 4) (o mod 4) w) as (w' & E & Ha & Hs); try (done || lia).
  replace (o - o mod 4 + o mod 4) with o in E by lia. exists w'. split; [|done].
  unfold pci_readw, read_pci_config_word. rewrite (bind_ret _ _ _ _ _ E). unfold gets.
  assert (u8 o = o) as -> by (unfold u8; apply wrap_id; unfold in_u; lia). rewrite E2.
  rewrite (inw_data w' (at_reg p (o - o mod 4))) by (done || apply reg_ok_at; done || lia). by rewrite Hs.
Qed.

(** ** Base address registers *)

Lemma land_high j x : 0 ≤ j ≤ 32 → 0 ≤ x < 2 ^ 32 → x .& (2 ^ 32 - 2 ^ j) = x - x mod 2 ^ j.
Proof.
  intros Hj Hx. assert (0 < 2 ^ j ≤ 2 ^ 32) by (split; [lia|apply Z.pow_le_mono_r; lia]).
  assert (2 ^ 32 - 2 ^ j = (- 2 ^ j) .& (2 ^ 32 - 1)) as ->.
  { rewrite land_mask by lia. symmetry. rewrite <- (Z.mod_add _ 1), Z.mod_small by lia. lia. }
  rewrite Z.land_assoc, land_not_mask, land_mask by lia. apply Z.mod_small.
  pose proof (Z.mod_pos_bound x (2 ^ j)). pose proof (Z.mod_le x (2 ^ j)). lia.
Qed.

Lemma land_low j x : 0 ≤ j ≤ 32 → 0 ≤ x < 2 ^ 32 → x .& Z.lnot (2 ^ 32 - 2 ^ j) = x mod 2 ^ j.
Proof.
  intros Hj Hx. assert (0 < 2 ^ j ≤ 2 ^ 32) by (split; [lia|apply Z.pow_le_mono_r; lia]).
  rewrite <- (Z.mod_small x (2 ^ 32)) at 1 by done.
  rewrite <- land_mask, <- Z.land_assoc by lia. rewrite (Z.land_comm (2 ^ 32 - 1)), land_mask by lia.
  unfold Z.lnot. replace (Z.pred (- (2 ^ 32 - 2 ^ j))) with (2 ^ j - 1 + (-1) * 2 ^ 32) by lia.
  rewrite Z.mod_add, (Z.mod_small (2 ^ j - 1)) by lia. apply land_mask. lia.
Qed.

(** A register whose bits from [j] on are writable. *)
Lemma written_high j old v : 0 ≤ j ≤ 32 → 0 ≤ old < 2 ^ 32 → 0 ≤ v < 2 ^ 32 →
  written old (2 ^ 32 - 2 ^ j) v = v - v mod 2 ^ j + old mod 2 ^ j.
Proof.
  intros Hj Ho Hv. unfold written. rewrite land_high, land_low, Z.lor_comm by done.
  apply (lor_add j); [lia| |apply Z.mod_pos_bound; lia].
  pose proof (Z.div_mod v (2 ^ j)). replace (v - v mod 2 ^ j) with (v / 2 ^ j * 2 ^ j) by lia.
  apply Z.mod_mul. lia.
Qed.

Lemma ones_high j : 0 ≤ j ≤ 32 → 0xFFFFFFFF - 0xFFFFFFFF mod 2 ^ j = 2 ^ 32 - 2 ^ j.
Proof.
  intros Hj. rewrite <- land_high by lia. change 0xFFFFFFFF with (2 ^ 32 - 1).
  rewrite Z.land_comm, land_mask by lia. apply Z.mod_small.
  assert (0 < 2 ^ j ≤ 2 ^ 32) by (split; [lia|apply Z.pow_le_mono_r; lia]). lia.
Qed.

(** Writing ones to a register, reading it and writing back what was there. *)
Lemma probe_run p o j w :
  bdf_ok p → 0 ≤ o < 256 → o mod 4 = 0 → plain (at_reg p o) → 0 ≤ j ≤ 32 → wmask (at_reg p o) = 2 ^ 32 - 2 ^ j →
  ∃ w1 w2 w3 w4, same w w4 ∧
    pci_readl p o w = Ret (space w (at_reg p o)) w1 ∧ pci_writel p o 0xFFFFFFFF w1 = Ret tt w2 ∧
    pci_readl p o w2 = Ret (2 ^ 32 - 2 ^ j + space w (at_reg p o) mod 2 ^ j) w3 ∧
    pci_writel p o (space w (at_reg p o)) w3 = Ret tt w4.
Proof.
  intros Hp Ho Hm Hpl Hj Hw. set (r := at_reg p o) in *. pose proof (space_u32 w r) as Hv.
  assert (0 < 2 ^ j ≤ 2 ^ 32) as Hpow by (split; [lia|apply Z.pow_le_mono_r; lia]).
  destruct (readl_run p o w) as (w1 & E1 & S1); [done..|].
  destruct (writel_run p o 0xFFFFFFFF w1) as (w2 & E2 & S2); [done..|].
  destruct (readl_run p o w2) as (w3 & E3 & S3); [done..|].
  destruct (writel_run p o (space w r) w3) as (w4 & E4 & S4); [done..|].
  assert (space w2 r = 2 ^ 32 - 2 ^ j + space w r mod 2 ^ j) as Er.
  { rewrite S2. rewrite decide_True by done. rewrite Hw, S1, written_high, ones_high by (done || lia). done. }
  exists w1, w2, w3, w4. split.
  - intros q. rewrite S4. case_decide as Hq; [|rewrite S3, S2, decide_False, S1; done].
    rewrite Hq. fold r. rewrite Hw, S3, Er. pose proof (Z.mod_pos_bound (space w r) (2 ^ j) ltac:(lia)).
    rewrite written_high by lia. rewrite Zplus_mod.
    assert ((2 ^ 32 - 2 ^ j) mod 2 ^ j = 0) as ->.
    { replace (2 ^ 32 - 2 ^ j) with ((2 ^ (32 - j) - 1) * 2 ^ j); [apply Z.mod_mul; lia|].
      rewrite Z.mul_sub_distr_r, <- Z.pow_add_r by lia. replace (32 - j + j) with 32 by lia. lia. }
    rewrite Z.add_0_l, !Z.mod_mod by lia. lia.
  - fold r in E3. rewrite Er in E3. done.
Qed.

Lemma neg_bits k : 0 ≤ k ≤ 63 → u64 (u64 (Z.lnot (2 ^ 64 - 2 ^ k)) + 1) = 2 ^ k.
Proof.
  intros Hk. assert (0 < 2 ^ k ≤ 2 ^ 63) by (split; [lia|apply Z.pow_le_mono_r; lia]).
  unfold Z.lnot. replace (Z.pred (- (2 ^ 64 - 2 ^ k))) with (2 ^ k - 1 + (-1) * 2 ^ 64) by lia.
  assert (u64 (2 ^ k - 1 + -1 * 2 ^ 64) = 2 ^ k - 1) as ->.
  { unfold u64, wrap. rewrite Z.mod_add by lia. apply Z.mod_small. lia. }
  replace (2 ^ k - 1 + 1) with (2 ^ k) by lia. apply u64_id. unfold in_u. lia.
Qed.

(** The size of a bar: the bits of the pair of registers from [k] on are writable. *)
Lemma read_size_run p b k w (t := space w (at_reg p (b_pos b)) mod 2 ^ Z.min k 32) :
  bdf_ok p → 0 ≤ b_pos b < 252 → b_pos b mod 4 = 0 →
  (if is_mmio b then 4 ≤ k ∧ t < 16 else 2 ≤ k ∧ t < 4) → k ≤ (if is_64 b then 63 else 32) →
  plain (at_reg p (b_pos b)) → wmask (at_reg p (b_pos b)) = 2 ^ 32 - 2 ^ Z.min k 32 →
  (is_64 b = true → plain (at_reg p (b_pos b + 4)) ∧
     wmask (at_reg p (b_pos b + 4)) = 2 ^ 32 - 2 ^ Z.max (k - 32) 0 ∧
     space w (at_reg p (b_pos b + 4)) mod 2 ^ Z.max (k - 32) 0 = 0) →
  ∃ w', pci_bar_read_size p b w = Ret (2 ^ k) w' ∧ same w w'.
Proof.
  intros Hp Ho Hm Ht Hk Hpl Hw H64. assert (2 ≤ k ≤ 63) as Hk2 by (destruct (is_mmio b), (is_64 b); lia).
  set (j := Z.min k 32) in *. assert (0 < 2 ^ j ≤ 2 ^ 32) by (split; [lia|apply Z.pow_le_mono_r; lia]).
  pose proof (Z.mod_pos_bound (space w (at_reg p (b_pos b))) (2 ^ j) ltac:(lia)) as Hr. fold t in Hr.
  set (m := if is_mmio b then 4 else 2). assert (2 ≤ m ≤ j ∧ t < 2 ^ m) as [Hmj Htm] by (subst m; destruct (is_mmio b); lia).
  assert ((2 ^ 32 - 2 ^ j + t) - (2 ^ 32 - 2 ^ j + t) mod 2 ^ m = 2 ^ 32 - 2 ^ j) as Elo.
  { replace (2 ^ 32 - 2 ^ j) with ((2 ^ (32 - m) - 2 ^ (j - m)) * 2 ^ m)
      by (rewrite Z.mul_sub_distr_r, <- !Z.pow_add_r by lia; f_equal; f_equal; lia).
    rewrite Z.add_comm, Z.mod_add, Z.mod_small by lia. lia. }
  assert ((if negb (is_mmio b) then (2 ^ 32 - 2 ^ j + t) .& PIO_MASK else (2 ^ 32 - 2 ^ j + t) .& MEM_MASK) =
          2 ^ 32 - 2 ^ j) as Emask.
  { rewrite <- Elo at 3. unfold m. destruct (is_mmio b); simpl;
      [change MEM_MASK with (2 ^ 32 - 2 ^ 4)|change PIO_MASK with (2 ^ 32 - 2 ^ 2)]; apply land_high; lia. }
  unfold pci_bar_read_size.
  destruct (probe_run p (b_pos b) j w) as (w1 & w2 & w3 & w4 & S4 & E1 & E2 & E3 & E4); [done|lia|done..|lia|done|].
  rewrite (bind_ret _ _ _ _ _ E1), (bind_ret _ _ _ _ _ E2), (bind_ret _ _ _ _ _ E3), (bind_ret _ _ _ _ _ E4).
  fold t. cbn zeta. rewrite Emask.
  assert (∀ h, 0 ≤ h → (h .<< 32) .| (2 ^ 32 - 2 ^ j) = h * 2 ^ 32 + (2 ^ 32 - 2 ^ j)) as Elor.
  { intros h Hh. rewrite Z.shiftl_mul_pow2 by lia. apply (lor_add 32); [lia|apply Z.mod_mul; lia|lia]. }
  destruct (is_64 b) eqn:E64.
  - destruct (H64 eq_refl) as (Hpl2 & Hw2 & Hz). set (j2 := Z.max (k - 32) 0) in *.
    assert ((b_pos b + 4) mod 4 = 0) by (rewrite Zplus_mod, Hm; done).
    assert (0 < 2 ^ j2 ≤ 2 ^ 32) by (split; [lia|apply Z.pow_le_mono_r; lia]).
    destruct (probe_run p (b_pos b + 4) j2 w4) as (v1 & v2 & v3 & v4 & T4 & F1 & F2 & F3 & F4); [done|lia|done..|lia|done|].
    exists v4. split; [|by eapply same_trans].
    rewrite bind_assoc, (bind_ret _ _ _ _ _ F1), bind_assoc, (bind_ret _ _ _ _ _ F2), bind_assoc,
      (bind_ret _ _ _ _ _ F3), bind_assoc, (bind_ret _ _ _ _ _ F4).
    unfold mbind, M_bind, mret, M_ret. rewrite S4, Hz, Elor by lia.
    replace ((2 ^ 32 - 2 ^ j2 + 0) * 2 ^ 32 + (2 ^ 32 - 2 ^ j)) with (2 ^ 64 - 2 ^ k); [by rewrite neg_bits by lia|].
    unfold j, j2. destruct (decide (k ≤ 32)).
    + replace (Z.max (k - 32) 0) with 0 by lia. rewrite Z.min_l by lia. lia.
    + rewrite Z.max_l, Z.min_r by lia. assert (2 ^ k = 2 ^ (k - 32) * 2 ^ 32) as -> by (rewrite <- Z.pow_add_r by lia; f_equal; lia). lia.
  - exists w4. split; [|done]. unfold mbind, M_bind, mret, M_ret. rewrite Elor by lia.
    replace (0xFFFFFFFF * 2 ^ 32 + (2 ^ 32 - 2 ^ j)) with (2 ^ 64 - 2 ^ j) by lia.
    rewrite neg_bits by lia. f_equal. f_equal. lia.
Qed.

(** What is behind the base address registers of a device: a range of [2 ^ k] ports or bytes
    at [base]. *)
Inductive desc : Type :=
| Unused
| Io (base k : Z)
| Mem32 (base k : Z) (pf : bool)
| Mem64 (base k : Z) (pf : bool).

#[local] Instance desc_eq_dec : EqDecision desc.
Proof. solve_decision. Defined.

Definition shape (w : W) (p : bdf) (o : Z) (d : desc) : Prop :=
  let r := at_reg p o in let r' := at_reg p (o + 4) in
  match d with
  | Unused => space w r = 0
  | Io base k => plain r ∧ wmask r = 2 ^ 32 - 2 ^ k ∧ 2 ≤ k ≤ 31 ∧ base mod 2 ^ k = 0 ∧ 0 ≤ base ∧ space w r = base + 1
  | Mem32 base k pf =>
      plain r ∧ wmask r = 2 ^ 32 - 2 ^ k ∧ 4 ≤ k ≤ 31 ∧ base mod 2 ^ k = 0 ∧ 0 < base ∧ space w r = base + 8 * Z.b2z pf
  | Mem64 base k pf =>
      plain r ∧ wmask r = 2 ^ 32 - 2 ^ Z.min k 32 ∧ plain r' ∧ wmask r' = 2 ^ 32 - 2 ^ Z.max (k - 32) 0 ∧
      4 ≤ k ≤ 63 ∧ base mod 2 ^ k = 0 ∧ 0 ≤ base ∧
      space w r = base mod 2 ^ 32 + (4 + 8 * Z.b2z pf) ∧ space w r' = base / 2 ^ 32
  end.

Definition width (d : desc) : Z := match d with Mem64 _ _ _ => 8 | _ => 4 end.

(** The registers from [o] to the sixth one, as a list of ranges. *)
Fixpoint shapes (w : W) (p : bdf) (o : Z) (ds : list desc) : Prop :=
  match ds with
  | [] => o = 0x28
  | d :: ds => o + width d ≤ 0x28 ∧ shape w p o d ∧ shapes w p (o + width d) ds
  end.

(** The entries of the driver's table for a range. *)
Definition bars_of (o : Z) (d : desc) : list pci_bar :=
  match d with
  | Unused => [no_bar]
  | Io base k => [mk_bar true o base 0 base (2 ^ k) 0 false false false]
  | Mem32 base k pf => [mk_bar true o base 0 base (2 ^ k) 0 true false pf]
  | Mem64 base k pf => [mk_bar true o (base mod 2 ^ 32) (base / 2 ^ 32) base (2 ^ k) 0 true true pf; no_bar]
  end.

Fixpoint all_bars (o : Z) (ds : list desc) : list pci_bar :=
  match ds with [] => [] | d :: ds => bars_of o d ++ all_bars (o + width d) ds end.

Lemma shape_same w w' p o d : same w w' → shape w p o d → shape w' p o d.
Proof. intros Hs. destruct d; simpl; by rewrite ?Hs. Qed.

Lemma shapes_same w w' p o ds : same w w' → shapes w p o ds → shapes w' p o ds.
Proof.
  intros Hs. revert o. induction ds as [|d ds IH]; intros o; simpl; [done|].
  intros (? & ? & ?). split; [done|]. split; [by eapply shape_same|by apply IH].
Qed.

Lemma land_below n m x y : 0 ≤ n → 0 ≤ m < 2 ^ n → x mod 2 ^ n = 0 → (x + y) .& m = y .& m.
Proof.
  intros Hn Hm Hx. rewrite <- (Z.mod_small m (2 ^ n)) by done.
  rewrite <- !Z.land_ones, !(Z.land_comm m), !Z.land_assoc, !Z.land_ones by done.
  by rewrite Zplus_mod, Hx, Z.add_0_l, Z.mod_mod by lia.
Qed.

Lemma mod_pow2_down n k x : 0 ≤ n ≤ k → x mod 2 ^ k = 0 → x mod 2 ^ n = 0.
Proof.
  intros Hn Hx. pose proof (Z.div_mod x (2 ^ k) ltac:(lia)) as E. rewrite Hx, Z.add_0_r in E. rewrite E.
  replace k with (k - n + n) at 1 by lia. rewrite Z.pow_add_r by lia.
  replace (2 ^ (k - n) * 2 ^ n * (x / 2 ^ k)) with (2 ^ (k - n) * (x / 2 ^ k) * 2 ^ n) by lia. apply Z.mod_mul. lia.
Qed.

(** The low bits of a register are its type, the others its address. *)
Lemma type_bits n k base t : 0 ≤ n ≤ k → base mod 2 ^ k = 0 → 0 ≤ t < 2 ^ n → (base + t) mod 2 ^ k = t.
Proof.
  intros Hn Hb Ht. assert (2 ^ n ≤ 2 ^ k) by (apply Z.pow_le_mono_r; lia).
  rewrite Zplus_mod, Hb, Z.add_0_l, Z.mod_mod, Z.mod_small by lia. done.
Qed.

Lemma addr_bits n base t : 0 ≤ n ≤ 32 → base mod 2 ^ n = 0 → 0 ≤ t < 2 ^ n → 0 ≤ base + t < 2 ^ 32 →
  (base + t) .& (2 ^ 32 - 2 ^ n) = base.
Proof. intros Hn Hb Ht Hr. rewrite land_high, (type_bits n n) by (done || lia). lia. Qed.

Lemma init_io p o base k w (d := Io base k) : bdf_ok p → 0x10 ≤ o ≤ 0x24 → o mod 4 = 0 → shape w p o d →
  ∃ b w', pci_bar_init p no_bar o w = Ret b w' ∧ same w w' ∧
    bars_of o d = b :: (if is_64 b then [no_bar] else []) ∧ is_64 b = bool_decide (width d = 8).
Proof.
  intros Hp Ho Hm Hs. assert (u8 o = o) as E8 by (unfold u8; apply wrap_id; unfold in_u; lia).
  destruct (readl_run p o w) as (w1 & E1 & S1); [done|lia|done|].
  pose proof (space_u32 w (at_reg p o)) as Hv. unfold pci_bar_init. rewrite (bind_ret _ _ _ _ _ E1).
  destruct Hs as (Hpl & Hw & Hk & Hb & H0 & Es). rewrite Es in *.
  pose proof (mod_pow2_down 2 k base ltac:(lia) Hb) as Hb2.
  rewrite (land_below 2 1) by (done || lia). cbn -[Z.pow Z.land Z.lor Z.modulo pci_bar_read_size]. rewrite E8.
  edestruct (read_size_run p (mk_bar true o 0 0 0 0 0 false false false) k w1) as (w2 & E2 & S2);
    [done|simpl; lia|done| |simpl; lia|done|by rewrite Z.min_l by lia|done|].
  { simpl. rewrite Z.min_l, S1, Es, (type_bits 2) by (done || lia). lia. }
  rewrite (bind_ret _ _ _ _ _ E2). eexists _, w2. split; [reflexivity|]. split; [by eapply same_trans|].
  unfold arch_add_pci_bar. change PIO_MASK with (2 ^ 32 - 2 ^ 2). rewrite addr_bits by (done || lia). done.
Qed.

Lemma init_mem32 p o base k pf w (d := Mem32 base k pf) : bdf_ok p → 0x10 ≤ o ≤ 0x24 → o mod 4 = 0 → shape w p o d →
  ∃ b w', pci_bar_init p no_bar o w = Ret b w' ∧ same w w' ∧
    bars_of o d = b :: (if is_64 b then [no_bar] else []) ∧ is_64 b = bool_decide (width d = 8).
Proof.
  intros Hp Ho Hm Hs. assert (u8 o = o) as E8 by (unfold u8; apply wrap_id; unfold in_u; lia).
  destruct (readl_run p o w) as (w1 & E1 & S1); [done|lia|done|].
  pose proof (space_u32 w (at_reg p o)) as Hv. unfold pci_bar_init. rewrite (bind_ret _ _ _ _ _ E1).
  destruct Hs as (Hpl & Hw & Hk & Hb & H0 & Es). rewrite Es in *.
  pose proof (mod_pow2_down 4 k base ltac:(lia) Hb) as Hb4.
  rewrite !(land_below 4) by (done || lia).
  assert (E : (8 * Z.b2z pf) .& 1 =? 0 = true ∧ (8 * Z.b2z pf) .& 6 =? 4 = false ∧ (8 * Z.b2z pf) .& 8 =? 8 = pf) by by destruct pf.
  destruct E as (-> & -> & ->). cbn -[Z.pow Z.land Z.lor Z.modulo Z.mul pci_bar_read_size]. rewrite E8.
  assert (0 ≤ 8 * Z.b2z pf < 2 ^ 4) as Ht by (destruct pf; simpl; lia).
  edestruct (read_size_run p (mk_bar true o 0 0 0 0 0 true false pf) k w1) as (w2 & E2 & S2);
    [done|simpl; lia|done| |simpl; lia|done|by rewrite Z.min_l by lia|done|].
  { cbn -[Z.pow Z.mul]. rewrite Z.min_l, S1, Es, (type_bits 4) by (done || lia). lia. }
  rewrite (bind_ret _ _ _ _ _ E2). eexists _, w2. split; [reflexivity|]. split; [by eapply same_trans|].
  unfold arch_add_pci_bar. change MEM_MASK with (2 ^ 32 - 2 ^ 4). rewrite addr_bits by (done || lia). done.
Qed.

Lemma init_mem64 p o base k pf w (d := Mem64 base k pf) : bdf_ok p → 0x10 ≤ o ≤ 0x24 → o mod 4 = 0 → shape w p o d →
  ∃ b w', pci_bar_init p no_bar o w = Ret b w' ∧ same w w' ∧
    bars_of o d = b :: (if is_64 b then [no_bar] else []) ∧ is_64 b = bool_decide (width d = 8).
Proof.
  intros Hp Ho Hm Hs. assert (u8 o = o) as E8 by (unfold u8; apply wrap_id; unfold in_u; lia).
  destruct (readl_run p o w) as (w1 & E1 & S1); [done|lia|done|].
  pose proof (space_u32 w (at_reg p o)) as Hv. unfold pci_bar_init. rewrite (bind_ret _ _ _ _ _ E1).
  destruct Hs as (Hpl & Hw & Hpl2 & Hw2 & Hk & Hb & H0 & Es & Es2). rewrite Es in *.
  assert ((base mod 2 ^ 32) mod 2 ^ Z.min k 32 = 0) as Hlo.
  { pose proof (mod_pow2_down (Z.min k 32) k base ltac:(lia) Hb).
    rewrite <- Znumtheory.Zmod_div_mod; [done|lia|lia|]. exists (2 ^ (32 - Z.min k 32)).
    rewrite <- Z.pow_add_r by lia. f_equal. lia. }
  pose proof (mod_pow2_down 4 (Z.min k 32) _ ltac:(lia) Hlo) as Hb4.
  assert ((base / 2 ^ 32) mod 2 ^ Z.max (k - 32) 0 = 0) as Hhi.
  { destruct (decide (k ≤ 32)); [rewrite Z.max_r by lia; apply Z.mod_1_r|]. rewrite Z.max_l by lia.
    pose proof (Z.div_mod base (2 ^ k) ltac:(lia)) as E. rewrite Hb, Z.add_0_r in E. rewrite E.
    replace (2 ^ k * (base / 2 ^ k)) with (base / 2 ^ k * 2 ^ (k - 32) * 2 ^ 32); [rewrite Z.div_mul by lia; apply Z.mod_mul; lia|].
    rewrite <- Z.mul_assoc, <- Z.pow_add_r by lia. replace (k - 32 + 32) with k by lia. lia. }
  set (t := 4 + 8 * Z.b2z pf) in *. rewrite !(land_below 4) by (done || lia).
  assert (E : t .& 1 =? 0 = true ∧ t .& 6 =? 4 = true ∧ t .& 8 =? 8 = pf) by by destruct pf.
  destruct E as (-> & -> & ->). cbn -[Z.pow Z.land Z.lor Z.modulo Z.div Z.mul pci_bar_read_size]. rewrite E8.
  assert (0 ≤ t < 2 ^ 4) as Ht by (unfold t; destruct pf; simpl; lia).
  edestruct (read_size_run p (mk_bar true o 0 0 0 0 0 true true pf) k w1) as (w2 & E2 & S2);
    [done|simpl; lia|done| |simpl; lia|done|done|cbn [b_pos is_64]; by rewrite S1, Es2|].
  { cbn -[Z.pow Z.mul]. rewrite S1, Es, (type_bits 4) by (done || lia). lia. }
  rewrite (bind_ret _ _ _ _ _ E2).
  destruct (readl_run p (o + 4) w2) as (w3 & E3 & S3); [done|lia|by rewrite Zplus_mod, Hm|].
  rewrite (bind_ret _ _ _ _ _ E3). eexists _, w3. split; [reflexivity|].
  split; [eapply same_trans; [eassumption|by eapply same_trans]|].
  unfold arch_add_pci_bar. change MEM_MASK with (2 ^ 32 - 2 ^ 4). rewrite addr_bits by (done || lia).
  rewrite S2, S1, Es2. split; [|done]. cbn -[Z.pow Z.lor Z.modulo Z.div Z.shiftl]. repeat f_equal.
  rewrite Z.shiftl_mul_pow2, (lor_add 32) by first [lia | by apply Z.mod_mul | by apply Z.mod_pos_bound].
  pose proof (Z.div_mod base (2 ^ 32) ltac:(lia)). lia.
Qed.

Lemma bar_init_run p o d w : bdf_ok p → 0x10 ≤ o ≤ 0x24 → o mod 4 = 0 → shape w p o d → d ≠ Unused →
  ∃ b w', pci_bar_init p no_bar o w = Ret b w' ∧ same w w' ∧
    bars_of o d = b :: (if is_64 b then [no_bar] else []) ∧ is_64 b = bool_decide (width d = 8).
Proof. intros. destruct d; [done|by apply init_io|by apply init_mem32|by apply init_mem64]. Qed.

Lemma len_bars_of o d : Z.of_nat (length (bars_of o d)) * 4 = width d.
Proof. by destruct d. Qed.

Lemma shape_zero w p o d : shape w p o d → space w (at_reg p o) = 0 ↔ d = Unused.
Proof.
  pose proof (space_u32 w (at_reg p o)). destruct d as [|base k|base k pf|base k pf]; simpl; intros Hs; [done|..].
  - split; [lia|done].
  - split; [destruct pf; simpl in *; lia|done].
  - pose proof (Z.mod_pos_bound base (2 ^ 32)). split; [destruct pf; simpl in *; lia|done].
Qed.

(** One turn of the loop: the entries of one range. *)
Lemma bars_step fuel p d pre w (n := length pre) (o := 0x10 + 4 * Z.of_nat n) :
  bdf_ok p → o + width d ≤ 0x28 → shape w p o d →
  ∃ w', bars_loop (S fuel) p o (Z.of_nat n + 1) (pre ++ replicate (6 - n) no_bar) w =
        bars_loop fuel p (u32 (o + width d)) (Z.of_nat n + 1 + width d / 4)
          ((pre ++ bars_of o d) ++ replicate (6 - (n + length (bars_of o d))) no_bar) w' ∧ same w w'.
Proof.
  intros Hp Hw Hd. pose proof (len_bars_of o d) as Hlen. assert (4 ≤ width d ≤ 8) by (destruct d; simpl; lia).
  assert (o mod 4 = 0) as Hm.
  { unfold o. replace (0x10 + 4 * Z.of_nat n) with ((4 + Z.of_nat n) * 4) by lia. by apply Z.mod_mul. }
  destruct (readl_run p o w) as (w1 & E1 & S1); [done|lia|done|].
  assert (∀ A (x y : A), (if negb (o <=? 0x24) then x else y) = y) as Eg by (intros; by rewrite (proj2 (Z.leb_le o 0x24)) by lia).
  assert ((6 - n)%nat = S (5 - n)) as En by lia.
  unfold bars_loop at 1. fold bars_loop. rewrite Eg, (bind_ret _ _ _ _ _ E1).
  destruct (decide (d = Unused)) as [->|Hu].
  { rewrite (proj2 (shape_zero w p o Unused Hd)) by done. exists w1. split; [|done].
    assert (pre ++ replicate (6 - n) no_bar = (pre ++ [no_bar]) ++ replicate (6 - (n + 1)) no_bar) as ->; [|done].
    rewrite <- app_assoc, En. replace (6 - (n + 1))%nat with (5 - n)%nat by lia. done. }
  destruct (Z.eqb_spec (space w (at_reg p o)) 0) as [E0|_]; [by apply (shape_zero w p o d Hd) in E0|].
  rewrite (proj2 (Z.leb_le (Z.of_nat n + 1) 7)) by lia.
  replace (Z.to_nat (Z.of_nat n + 1 - 1)) with n by lia.
  assert ((pre ++ replicate (6 - n) no_bar) !! n = Some no_bar) as El by (rewrite lookup_app_r, En by (unfold n; lia); unfold n; by rewrite Nat.sub_diag).
  rewrite El. destruct (bar_init_run p o d w1) as (b & w2 & E2 & S2 & Eb & Ew); [done|lia|done|by eapply shape_same|done|].
  unfold ASSERT, deref. unfold mbind at 1, M_bind at 1. rewrite (bind_ret (mret no_bar) _ w1 no_bar w1) by done.
  rewrite (bind_ret _ _ _ _ _ E2). exists w2. split; [|by eapply same_trans].
  assert (<[n := b]> (pre ++ replicate (6 - n) no_bar) = pre ++ b :: replicate (5 - n) no_bar) as ->
    by (rewrite En, insert_app_r_alt by (unfold n; lia); unfold n; by rewrite Nat.sub_diag).
  rewrite Eb in Hlen |- *. rewrite Ew in *. case_bool_decide as Hw8; simpl in Hlen.
  - rewrite Hw8, <- app_assoc. replace (5 - n)%nat with (S (6 - (n + 2))) by lia. done.
  - replace (width d) with 4 by lia. rewrite <- app_assoc. replace (5 - n)%nat with (6 - (n + 1))%nat by lia. done.
Qed.

Lemma bars_loop_run fuel p ds pre w : bdf_ok p → (length pre ≤ 6)%nat → (length ds ≤ fuel)%nat →
  shapes w p (0x10 + 4 * Z.of_nat (length pre)) ds →
  ∃ w', bars_loop fuel p (0x10 + 4 * Z.of_nat (length pre)) (Z.of_nat (length pre) + 1)
          (pre ++ replicate (6 - length pre) no_bar) w =
        Ret (pre ++ all_bars (0x10 + 4 * Z.of_nat (length pre)) ds) w' ∧ same w w'.
Proof.
  intros Hp. revert pre ds w. induction fuel as [|fuel IH]; intros pre [|d ds] w Hl Hf Hs; try (simpl in Hf; lia).
  1, 2: simpl in Hs; assert (length pre = 6%nat) as E by lia; exists w; rewrite E; by rewrite !app_nil_r.
  destruct Hs as (Hw & Hd & Hs). destruct (bars_step fuel p d pre w Hp Hw Hd) as (w1 & E1 & S1). rewrite E1.
  set (o := 0x10 + 4 * Z.of_nat (length pre)) in *. pose proof (len_bars_of o d).
  assert (4 ≤ width d ≤ 8) by (destruct d; simpl; lia).
  assert (0x10 + 4 * Z.of_nat (length (pre ++ bars_of o d)) = o + width d) as Eo by (rewrite length_app; lia).
  destruct (IH (pre ++ bars_of o d) ds w1) as (w' & E & S'); [rewrite length_app; lia|simpl in Hf; lia|rewrite Eo; by eapply shapes_same|].
  exists w'. split; [|by eapply same_trans]. rewrite Eo in E. simpl all_bars. rewrite app_assoc, <- E, u32_small by lia.
  rewrite length_app. f_equal. replace (width d) with (Z.of_nat (length (bars_of o d)) * 4) by lia. rewrite Z.div_mul by lia. lia.
Qed.

(** ** Capabilities *)

Definition cap_id_at (w : W) (p : bdf) (o : Z) : Z := byte_of w p o.
Definition cap_next (w : W) (p : bdf) (o : Z) : Z := byte_of w p (u8 (o + 1)).

(** The capabilities from [o] on are [l]. *)
Inductive cap_list (w : W) (p : bdf) : Z → list Z → Prop :=
| cap_end : cap_list w p 0 []
| cap_cons o l : o ≠ 0 → cap_list w p (cap_next w p o) l → cap_list w p o (o :: l).

Lemma byte_range w p o : 0 ≤ byte_of w p o < 256.
Proof. unfold byte_of. change 0xff with (2 ^ 8 - 1). rewrite land_mask by lia. by apply Z.mod_pos_bound. Qed.

Lemma cap_list_same w w' p o l : same w w' → cap_list w p o l → cap_list w' p o l.
Proof.
  intros Hs. induction 1 as [|o l Ho _ IH]; [constructor|]. constructor; [done|].
  unfold cap_next in *. by rewrite (byte_same w w').
Qed.

Lemma readb_u8 p o w : bdf_ok p → ∃ w', pci_readb p o w = Ret (byte_of w p (u8 o)) w' ∧ same w w'.
Proof.
  intros Hp. assert (0 ≤ u8 o < 256) as Ho by (unfold u8, wrap; by apply Z.mod_pos_bound).
  destruct (readb_run p (u8 o) w Hp Ho) as (w' & E & S). exists w'. split; [|done]. rewrite <- E.
  unfold pci_readb. f_equal. unfold u8, wrap. by rewrite Z.mod_mod.
Qed.

(** The entry of the list with a given identifier, or 0xFF. *)
Definition cap_find (w : W) (p : bdf) (c : Z) (l : list Z) : Z :=
  match list_find (λ o, cap_id_at w p o = c) l with Some (_, o) => o | None => 0xFF end.

Lemma cap_find_cons w p c o l :
  cap_find w p c (o :: l) = if decide (cap_id_at w p o = c) then o else cap_find w p c l.
Proof.
  unfold cap_find. simpl. case_decide; [done|]. by destruct (list_find _ l) as [[? ?]|].
Qed.

Lemma cap_find_same w w' p c l : same w w' → cap_find w' p c l = cap_find w p c l.
Proof.
  intros Hs. induction l as [|o l IH]; [done|]. rewrite !cap_find_cons, IH. unfold cap_id_at.
  by rewrite (byte_same w w').
Qed.

(** The loop ends whatever the registers hold, a circular list included. *)
Lemma capability_loop_run fuel p c o ctr w : bdf_ok p → 0 ≤ o < 256 → 0 ≤ ctr → 0 < Z.of_nat fuel → Z.of_nat fuel + ctr = 241 →
  ∃ r w', capability_loop fuel p c o ctr w = Ret r w' ∧ same w w' ∧
    (r ≠ 0xFF → cap_id_at w p r = c) ∧
    (∀ l, cap_list w p o l → (length l ≤ fuel)%nat → r = cap_find w p c l).
Proof.
  intros Hp. revert o ctr w. induction fuel as [|fuel IH]; intros o ctr w Ho Hc H0 Hf; [lia|]. simpl.
  destruct (Z.eqb_spec o 0) as [->|Hn].
  { exists 0xFF, w. split; [done|]. split; [done|]. split; [done|]. intros l Hl _. inversion Hl; subst; done. }
  destruct (readb_u8 p (o + 0) w Hp) as (w1 & E1 & S1). rewrite (bind_ret _ _ _ _ _ E1).
  rewrite Z.add_0_r. assert (u8 o = o) as -> by (unfold u8; apply wrap_id; unfold in_u; lia).
  destruct (Z.eqb_spec (byte_of w p o) c) as [Hid|Hid].
  { exists o, w1. split; [done|]. split; [done|]. split; [done|]. intros l Hl _. inversion Hl; subst; [done|].
    rewrite cap_find_cons. by rewrite decide_True. }
  assert (u8 (ctr + 1) = ctr + 1) as -> by (unfold u8; apply wrap_id; unfold in_u; lia).
  destruct (Z.ltb_spec 0xF0 (ctr + 1)).
  { exists 0xFF, w1. split; [done|]. split; [done|]. split; [done|]. intros l Hl Hlen.
    inversion Hl as [|? l' Hne Hl']; subst; [done|]. rewrite cap_find_cons, decide_False by done.
    simpl in Hlen. assert (length l' = 0%nat) as El by lia. by destruct l'. }
  destruct (readb_u8 p (o + 1) w1 Hp) as (w2 & E2 & S2). rewrite (bind_ret _ _ _ _ _ E2).
  pose proof (same_trans _ _ _ S1 S2) as S12.
  destruct (IH (byte_of w1 p (u8 (o + 1))) (ctr + 1) w2) as (r & w3 & E3 & S3 & Hr & HL);
    [apply byte_range|lia|lia|lia|]. rewrite E3. exists r, w3. split; [done|].
  split; [by eapply same_trans|]. split; [intros Hr'; rewrite <- (Hr Hr'); unfold cap_id_at; symmetry; by apply byte_same|].
  intros l Hl Hlen. inversion Hl as [|? l' Hne Hl']; subst; [done|].
  rewrite cap_find_cons, decide_False by done. rewrite <- (cap_find_same w w2) by done.
  apply HL; [|simpl in Hlen; lia]. rewrite (byte_same w w1) by done. by eapply cap_list_same.
Qed.

Lemma find_capability_run p c w : bdf_ok p →
  ∃ r w', find_capability p c w = Ret r w' ∧ same w w' ∧ (r ≠ 0xFF → cap_id_at w p r = c) ∧
    ∀ l, cap_list w p (byte_of w p 0x34) l → (length l ≤ 241)%nat → r = cap_find w p c l.
Proof.
  intros Hp. unfold find_capability. destruct (readb_run p 0x34 w Hp ltac:(lia)) as (w1 & E1 & S1).
  rewrite (bind_ret _ _ _ _ _ E1).
  destruct (capability_loop_run 241 p c (byte_of w p 0x34) 0 w1) as (r & w2 & E2 & S2 & Hr & HL);
    [done|apply byte_range|lia..|]. exists r, w2. split; [done|]. split; [by eapply same_trans|].
  split; [intros Hr'; rewrite <- (Hr Hr'); unfold cap_id_at; symmetry; by apply byte_same|].
  intros l Hl Hlen. rewrite <- (cap_find_same w w1) by done. apply HL; [by eapply cap_list_same|done].
Qed.

(** ** Parsing a device *)

Lemma half_same w w' p o : same w w' → half_of w' p o = half_of w p o.
Proof. intros Hs. unfold half_of. by rewrite Hs. Qed.

Lemma half_range w p o : 0 ≤ half_of w p o < 2 ^ 16.
Proof. unfold half_of. change 0xffff with (2 ^ 16 - 1). rewrite land_mask by lia. by apply Z.mod_pos_bound. Qed.

Definition ids_of (w : W) (p : bdf) : ids :=
  mk_ids (byte_of w p 0x08) (byte_of w p 0x0E) (byte_of w p 0x0B) (byte_of w p 0x0A) (byte_of w p 0x09)
    (half_of w p 0x02) (half_of w p 0x00).

(** The MSI-X capability at [o]: the vectors are one more than the low 11 bits of the control
    word, the table and the pending bits are a bar and an offset in it. *)
Definition msix_of (w : W) (p : bdf) (o : Z) : pcicfg_msix :=
  let ctrl := half_of w p (o + 2) in
  let table := space w (at_reg p (o + 4)) in let pba := space w (at_reg p (o + 8)) in
  mk_msix ctrl (ctrl mod 2 ^ 11 + 1) o (table mod 8) (pba mod 8) (table - table mod 8) (pba - pba mod 8).

Definition msi_of (w : W) (p : bdf) (o : Z) : pcicfg_msi :=
  let ctrl := half_of w p (o + 2) in mk_msi o ctrl 1 (Z.testbit ctrl 7) (Z.testbit ctrl 8).

(** The device with its capabilities: MSI-X, and MSI only where there is no MSI-X. *)
Definition with_caps (w : W) (d : pci_device) (l : list Z) : pci_device :=
  let x := cap_find w (place d) 0x11 l in let m := cap_find w (place d) 0x05 l in
  if decide (x ≠ 0xFF) then
    mk_dev (place d) (d_ids d) true (msix_of w (place d) x) (msix_enabled d) (have_msi d) (_msi d) (bars d)
      (subsystem_vid d) (subsystem_id d)
  else if decide (m ≠ 0xFF) then
    mk_dev (place d) (d_ids d) (have_msix d) (_msix d) (msix_enabled d) true (msi_of w (place d) m) (bars d)
      (subsystem_vid d) (subsystem_id d)
  else d.

(** A capability is in the upper part of the space and aligned to four bytes. *)
Definition cap_ok (o : Z) : Prop := 0x40 ≤ o ≤ 0xF4 ∧ o mod 4 = 0.

Lemma cap_find_ok w p c l : Forall cap_ok l → cap_find w p c l ≠ 0xFF → cap_ok (cap_find w p c l).
Proof.
  intros HF Hne. induction HF as [|o l Ho HF IH]; [done|]. rewrite cap_find_cons in *. case_decide; [done|]. by apply IH.
Qed.

Lemma add_mod4 o k : o mod 4 = 0 → k mod 4 = 0 → (o + k) mod 4 = 0.
Proof. intros Ho Hk. by rewrite Zplus_mod, Ho, Hk. Qed.

Lemma land_clear3 v : 0 ≤ v < 2 ^ 32 → v .& u32 (Z.lnot 7) = v - v mod 8.
Proof. intros Hv. change (u32 (Z.lnot 7)) with (2 ^ 32 - 2 ^ 3). rewrite land_high by lia. done. Qed.

Lemma flag_testbit v n : 0 ≤ n → negb (v .& (1 .<< n) =? 0) = Z.testbit v n.
Proof.
  intros Hn. rewrite Z.shiftl_1_l. destruct (Z.testbit v n) eqn:E.
  - destruct (Z.eqb_spec (v .& 2 ^ n) 0) as [E0|]; [|done]. apply (f_equal (λ x, Z.testbit x n)) in E0.
    by rewrite Z.land_spec, E, Z.pow2_bits_true, Z.bits_0 in E0.
  - assert (v .& 2 ^ n = 0) as ->; [|done]. apply Z.bits_inj'. intros i Hi. rewrite Z.land_spec, Z.bits_0.
    destruct (decide (i = n)) as [->|]; [by rewrite E|]. by rewrite Z.pow2_bits_false, andb_false_r.
Qed.

Lemma parse_msix_run d o w : bdf_ok (place d) → cap_ok o →
  ∃ w', parse_pci_msix d o w =
    Ret (mk_dev (place d) (d_ids d) true (msix_of w (place d) o) (msix_enabled d) (have_msi d) (_msi d) (bars d)
           (subsystem_vid d) (subsystem_id d), true) w' ∧ same w w'.
Proof.
  intros Hp [Ho Hm]. unfold parse_pci_msix.
  destruct (readw_run (place d) (o + 2) w) as (w1 & E1 & S1);
    [done|lia|pose proof (Z.div_mod o 4); replace (o + 2) with ((o / 4 * 2 + 1) * 2) by lia; by apply Z.mod_mul|].
  destruct (readl_run (place d) (o + 4) w1) as (w2 & E2 & S2); [done|lia|by apply add_mod4|].
  destruct (readl_run (place d) (o + 8) w2) as (w3 & E3 & S3); [done|lia|by apply add_mod4|].
  rewrite (bind_ret _ _ _ _ _ E1), (bind_ret _ _ _ _ _ E2), (bind_ret _ _ _ _ _ E3). exists w3.
  split; [|eapply same_trans; [eassumption|by eapply same_trans]].
  unfold mret, M_ret, msix_of. pose proof (space_u32 w (at_reg (place d) (o + 4))) as HT.
  pose proof (space_u32 w (at_reg (place d) (o + 8))) as HB. rewrite S2, !S1.
  rewrite !land_clear3 by done. change 0x07FF with (2 ^ 11 - 1). change 7 with (2 ^ 3 - 1).
  rewrite !land_mask by lia. change (2 ^ 3) with 8.
  assert (∀ x, u8 (x mod 8) = x mod 8) as E8 by (intros x; pose proof (Z.mod_pos_bound x 8); unfold u8; apply wrap_id; unfold in_u; lia).
  rewrite !E8. pose proof (Z.mod_pos_bound (half_of w (place d) (o + 2)) (2 ^ 11)).
  assert (u16 (half_of w (place d) (o + 2) mod 2 ^ 11 + 1) = half_of w (place d) (o + 2) mod 2 ^ 11 + 1) as ->
    by (unfold u16; apply wrap_id; unfold in_u; lia). done.
Qed.

Lemma parse_msi_run d o w : bdf_ok (place d) → cap_ok o →
  ∃ w', parse_pci_msi d o w =
    Ret (mk_dev (place d) (d_ids d) (have_msix d) (_msix d) (msix_enabled d) true (msi_of w (place d) o) (bars d)
           (subsystem_vid d) (subsystem_id d), true) w' ∧ same w w'.
Proof.
  intros Hp [Ho Hm]. unfold parse_pci_msi.
  destruct (readw_run (place d) (o + 2) w) as (w1 & E1 & S1);
    [done|lia|pose proof (Z.div_mod o 4); replace (o + 2) with ((o / 4 * 2 + 1) * 2) by lia; by apply Z.mod_mul|].
  rewrite (bind_ret _ _ _ _ _ E1). exists w1. split; [|done]. by rewrite !flag_testbit by lia.
Qed.

Lemma parse_caps_run d l w : bdf_ok (place d) →
  cap_list w (place d) (byte_of w (place d) 0x34) l → (length l ≤ 241)%nat → Forall cap_ok l →
  ∃ w', parse_pci_capabilities d w = Ret (with_caps w d l, true) w' ∧ same w w'.
Proof.
  intros Hp Hl Hlen HF. unfold parse_pci_capabilities, with_caps.
  destruct (find_capability_run (place d) 0x11 w Hp) as (r & w1 & E1 & S1 & _ & HL).
  rewrite (bind_ret _ _ _ _ _ E1). rewrite (HL l Hl Hlen). clear HL E1.
  destruct (Z.eqb_spec (cap_find w (place d) 0x11 l) 0xFF) as [E|E]; simpl.
  - rewrite decide_False by (intros Hn; by apply Hn).
    destruct (find_capability_run (place d) 0x05 w1 Hp) as (r2 & w2 & E2 & S2 & _ & HL).
    rewrite (bind_ret _ _ _ _ _ E2). rewrite (HL l), (cap_find_same w w1) by (done || rewrite ?(byte_same w w1) by done; by eapply cap_list_same).
    pose proof (same_trans _ _ _ S1 S2) as S12. clear HL E2.
    destruct (Z.eqb_spec (cap_find w (place d) 0x05 l) 0xFF) as [Em|Em]; simpl.
    + rewrite decide_False by (intros Hn; by apply Hn). by exists w2.
    + rewrite decide_True by done. destruct (parse_msi_run d (cap_find w (place d) 0x05 l) w2) as (w3 & E3 & S3); [done|by apply cap_find_ok|].
      exists w3. split; [|by eapply same_trans]. rewrite E3. unfold msi_of. by rewrite (half_same w w2).
  - rewrite decide_True by done. destruct (parse_msix_run d (cap_find w (place d) 0x11 l) w1) as (w3 & E3 & S3); [done|by apply cap_find_ok|].
    exists w3. split; [|by eapply same_trans]. rewrite E3. unfold msix_of. by rewrite (half_same w w1), !S1.
Qed.

(** ** The command register *)

Definition command_reg (p : bdf) : reg := at_reg p 4.

(** Bits of the command register that can be written are set, nothing else changes; the
    status in the upper half is not written. *)
Definition command_set (p : bdf) (c : Z) (w w' : W) : Prop :=
  ∀ q, space w' q = if decide (q = command_reg p) then space w q .| c else space w q.

Lemma written_or old m c : 0 ≤ c < 2 ^ 16 → m .& c = c → written old (m .& 0xffff) ((old .& 0xffff) .| c) = old .| c.
Proof.
  intros Hc Hm. change 0xffff with (Z.ones 16). unfold written. apply Z.bits_inj'. intros i Hi.
  apply (f_equal (λ x, Z.testbit x i)) in Hm. rewrite Z.land_spec in Hm.
  rewrite !Z.lor_spec, !Z.land_spec, !Z.lor_spec, Z.lnot_spec, !Z.land_spec by lia.
  destruct (decide (i < 16)).
  - rewrite Z.ones_spec_low by lia. destruct (Z.testbit old i), (Z.testbit m i), (Z.testbit c i); done.
  - rewrite Z.ones_spec_high by lia.
    assert (Z.testbit c i = false) as -> by (rewrite <- (Z.mod_small c (2 ^ 16)) by lia; apply Z.mod_pow2_bits_high; lia).
    destruct (Z.testbit old i), (Z.testbit m i); done.
Qed.

(** Writing the half at [k] of a register. *)
Lemma writew_run p o k v w : bdf_ok p → 0 ≤ o → o + k < 256 → o mod 4 = 0 → k = 0 ∨ k = 2 →
  plainw (at_reg p o) k → 0 ≤ v < 2 ^ 16 →
  ∃ w', pci_writew p (o + k) v w = Ret tt w' ∧
    ∀ q, space w' q = if decide (q = at_reg p o)
                      then written (space w q) (wmask q .& (0xffff .<< (8 * k))) (v .<< (8 * k)) else space w q.
Proof.
  intros Hp Ho Hk Hm Hk2 Hpl Hv.
  destruct (prepare_run p o k w Hp Ho Hk Hm ltac:(lia)) as (w2 & E2 & Ha & S2).
  unfold pci_writew, write_pci_config_word. eexists. split; [rewrite (bind_ret _ _ _ _ _ E2); reflexivity|].
  assert (u16 v = v) as -> by (unfold u16; apply wrap_id; done).
  assert (u8 (o + k) .& 2 = k) as ->.
  { assert (u8 (o + k) = o + k) as -> by (unfold u8; apply wrap_id; unfold in_u; lia).
    rewrite (land_below 2 2) by (done || lia). by destruct Hk2 as [-> | ->]. }
  intros q. rewrite (outw_data w2 (at_reg p o)) by (done || apply reg_ok_at; done || lia).
  case_decide as Hq; [|by rewrite S2]. by rewrite Hq, S2.
Qed.

Lemma command_or_run p c w : bdf_ok p → plainw (command_reg p) 0 → 0 ≤ c < 2 ^ 16 → wmask (command_reg p) .& c = c →
  ∃ w', (command ← pci_get_command p; pci_set_command p (command .| c)) w = Ret tt w' ∧ command_set p c w w'.
Proof.
  intros Hp Hpl Hc Hm. unfold pci_get_command, pci_set_command.
  destruct (readw_run p 4 w Hp ltac:(lia) ltac:(done)) as (w1 & E1 & S1). rewrite (bind_ret _ _ _ _ _ E1).
  pose proof (half_range w p 4) as Hh. set (v := half_of w p 4 .| c).
  assert (0 ≤ v < 2 ^ 16) as Hv.
  { assert (in_u 16 v); [|done]. apply in_u_bits; [lia|apply Z.lor_nonneg; lia|]. intros i Hi. unfold v. rewrite Z.lor_spec.
    rewrite <- (Z.mod_small (half_of w p 4) (2 ^ 16)), <- (Z.mod_small c (2 ^ 16)) by lia.
    by rewrite !Z.mod_pow2_bits_high by lia. }
  destruct (writew_run p 4 0 v w1) as (w2 & E2 & S2); [done|lia|lia|done|by left|done|done|].
  exists w2. split; [exact E2|]. intros q. rewrite S2. unfold command_reg. case_decide as Hq; [|by rewrite S1].
  rewrite Hq, S1. change (8 * 0) with 0. rewrite !Z.shiftl_0_r.
  unfold v, half_of. change (4 mod 4) with 0. change (8 * 0) with 0. change (4 - 0) with 4. rewrite Z.shiftr_0_r.
  by apply written_or.
Qed.

(** Writing a value that differs from the half only in writable bits: the half is the value. *)
Lemma written_half old m k v i : 0 ≤ k → 0 ≤ i → 0 ≤ v < 2 ^ 16 →
  (∀ j, 0 ≤ j < 16 → Z.testbit m (j + 8 * k) = false → Z.testbit v j = Z.testbit old (j + 8 * k)) →
  Z.testbit (written old (m .& (0xffff .<< (8 * k))) (v .<< (8 * k))) i =
  if decide (8 * k ≤ i < 8 * k + 16) then Z.testbit v (i - 8 * k) else Z.testbit old i.
Proof.
  intros Hk Hi Hv Hm. change 0xffff with (Z.ones 16). unfold written.
  rewrite Z.lor_spec, !Z.land_spec, Z.lnot_spec, Z.land_spec, !Z.shiftl_spec by lia. case_decide as Hd.
  - rewrite Z.ones_spec_low by lia. specialize (Hm (i - 8 * k) ltac:(lia)). replace (i - 8 * k + 8 * k) with i in Hm by lia.
    destruct (Z.testbit m i); simpl; [by rewrite andb_false_r, andb_true_r|]. rewrite Hm by done. by rewrite andb_true_r, andb_false_r, orb_false_r.
  - assert (Z.testbit (Z.ones 16) (i - 8 * k) = false) as ->.
    { destruct (decide (i < 8 * k)); [apply Z.testbit_neg_r; lia|apply Z.ones_spec_high; lia]. }
    by rewrite andb_false_r, andb_true_r, andb_false_r, orb_false_r.
Qed.

Lemma bars_enable_run p w : bdf_ok p → plainw (command_reg p) 0 → wmask (command_reg p) .& 3 = 3 →
  ∃ w', set_pci_bars_enable p true true w = Ret tt w' ∧ command_set p 3 w w'.
Proof.
  intros Hp Hpl Hm. destruct (command_or_run p 3 w Hp Hpl ltac:(lia) Hm) as (w' & E & S). exists w'. split; [|done].
  rewrite <- E. unfold set_pci_bars_enable, mbind, M_bind. destruct (pci_get_command p w); try done. by rewrite <- Z.lor_assoc.
Qed.

Lemma shapes_command p c w w' o ds : command_set p c w w' → 0x10 ≤ o → shapes w p o ds → shapes w' p o ds.
Proof.
  intros Hs. revert o. induction ds as [|d ds IH]; intros o Ho; simpl; [done|]. intros (Hw & Hd & Hr).
  assert (∀ x, 0x10 ≤ x → space w' (at_reg p x) = space w (at_reg p x)) as E.
  { intros x Hx. rewrite Hs. apply decide_False. unfold command_reg, at_reg. intros Hq. injection Hq. lia. }
  split; [done|]. split; [|apply IH; [destruct d; simpl; lia|done]].
  destruct d; simpl in *; by rewrite ?E by lia.
Qed.

Lemma parse_config_run d l w : bdf_ok (place d) →
  cap_list w (place d) (byte_of w (place d) 0x34) l → (length l ≤ 241)%nat → Forall cap_ok l →
  ∃ w', parse_pci_config d w =
    Ret (with_caps w (mk_dev (place d) (ids_of w (place d)) (have_msix d) (_msix d) (msix_enabled d) (have_msi d)
                        (_msi d) (bars d) (subsystem_vid d) (subsystem_id d)) l, true) w' ∧ same w w'.
Proof.
  intros Hp Hl Hlen HF. unfold parse_pci_config. set (p := place d) in *.
  destruct (readw_run p 0x02 w Hp ltac:(lia) ltac:(done)) as (w1 & E1 & S1).
  destruct (readw_run p 0x00 w1 Hp ltac:(lia) ltac:(done)) as (w2 & E2 & S2).
  destruct (readb_run p 0x08 w2 Hp ltac:(lia)) as (w3 & E3 & S3).
  destruct (readb_run p 0x0E w3 Hp ltac:(lia)) as (w4 & E4 & S4).
  destruct (readb_run p 0x0B w4 Hp ltac:(lia)) as (w5 & E5 & S5).
  destruct (readb_run p 0x0A w5 Hp ltac:(lia)) as (w6 & E6 & S6).
  destruct (readb_run p 0x09 w6 Hp ltac:(lia)) as (w7 & E7 & S7).
  pose proof (same_trans _ _ _ S1 S2) as T2. pose proof (same_trans _ _ _ T2 S3) as T3.
  pose proof (same_trans _ _ _ T3 S4) as T4. pose proof (same_trans _ _ _ T4 S5) as T5.
  pose proof (same_trans _ _ _ T5 S6) as T6. pose proof (same_trans _ _ _ T6 S7) as T7.
  cbn zeta. rewrite (bind_ret _ _ _ _ _ E1), (bind_ret _ _ _ _ _ E2), (bind_ret _ _ _ _ _ E3), (bind_ret _ _ _ _ _ E4),
    (bind_ret _ _ _ _ _ E5), (bind_ret _ _ _ _ _ E6), (bind_ret _ _ _ _ _ E7).
  rewrite (half_same _ _ _ _ S1), (byte_same _ _ _ _ T2), (byte_same _ _ _ _ T3), (byte_same _ _ _ _ T4),
    (byte_same _ _ _ _ T5), (byte_same _ _ _ _ T6).
  edestruct (parse_caps_run (mk_dev p (ids_of w p) (have_msix d) (_msix d) (msix_enabled d) (have_msi d)
     (_msi d) (bars d) (subsystem_vid d) (subsystem_id d)) l w7) as (w8 & E8 & S8);
    [done|cbn [place]; rewrite (byte_same _ _ _ _ T7); by eapply cap_list_same|done|done|].
  exists w8. split; [|by eapply same_trans]. unfold ids_of in E8. rewrite E8. unfold with_caps. cbn [place].
  rewrite !(cap_find_same _ _ _ _ _ T7). unfold msix_of, msi_of. by rewrite !(half_same _ _ _ _ T7), !T7.
Qed.

Lemma shapes_len w p o ds : shapes w p o ds → o + 4 * Z.of_nat (length ds) ≤ 0x28.
Proof.
  revert o. induction ds as [|d ds IH]; intros o; simpl; [lia|]. intros (_ & _ & Hs). apply IH in Hs.
  assert (4 ≤ width d) by (destruct d; simpl; lia). lia.
Qed.

Lemma with_caps_fields w d l (d' := with_caps w d l) :
  place d' = place d ∧ d_ids d' = d_ids d ∧ bars d' = bars d ∧
  (let x := cap_find w (place d) 0x11 l in let m := cap_find w (place d) 0x05 l in
   (x ≠ 0xFF → have_msix d' = true ∧ _msix d' = msix_of w (place d) x) ∧
   (x = 0xFF → have_msix d' = have_msix d) ∧
   (x = 0xFF → m ≠ 0xFF → have_msi d' = true ∧ _msi d' = msi_of w (place d) m)).
Proof. unfold d', with_caps. repeat case_decide; simpl; naive_solver. Qed.

(** C7. Parsing a device whose structure is zero: every range behind its registers is in the
    table with its address, kind and size, MSI-X or MSI is found, and the configuration space
    is as before, but for memory and port accesses being enabled. *)
Theorem parse_device_correct d ds l w (p := place d) :
  bdf_ok p → bars d = replicate 6 no_bar → shapes w p 0x10 ds →
  cap_list w p (byte_of w p 0x34) l → (length l ≤ 241)%nat → Forall cap_ok l →
  plainw (command_reg p) 0 → wmask (command_reg p) .& 3 = 3 →
  ∃ d' w', pci_device_parse_config d w = Ret (d', true) w' ∧ command_set p 3 w w' ∧
    place d' = p ∧ d_ids d' = ids_of w p ∧ bars d' = all_bars 0x10 ds ∧
    subsystem_vid d' = half_of w p 0x2C ∧ subsystem_id d' = half_of w p 0x2E ∧
    let x := cap_find w p 0x11 l in let m := cap_find w p 0x05 l in
    (x ≠ 0xFF → have_msix d' = true ∧ _msix d' = msix_of w p x) ∧
    (x = 0xFF → have_msix d' = have_msix d) ∧
    (x = 0xFF → m ≠ 0xFF → have_msi d' = true ∧ _msi d' = msi_of w p m).
Proof.
  intros Hp Hb Hs Hl Hlen HF Hpl Hm. unfold pci_device_parse_config. rewrite Hb.
  set (d0 := mk_dev _ _ _ _ _ _ _ _ _ _). destruct (parse_config_run d0 l w) as (w1 & E1 & S1); [done..|].
  rewrite (bind_ret _ _ _ _ _ E1). clear E1.
  match goal with |- context [with_caps w ?x l] =>
    destruct (with_caps_fields w x l) as (F1 & F2 & F3 & F4); set (d1 := with_caps w x l) in * end.
  cbn [place d_ids bars have_msix] in F1, F2, F3, F4. change (place d0) with p in *. rewrite F1.
  destruct (readw_run p 0x2C w1 Hp ltac:(lia) ltac:(done)) as (w2 & E2 & S2).
  destruct (readw_run p 0x2E w2 Hp ltac:(lia) ltac:(done)) as (w3 & E3 & S3).
  pose proof (same_trans _ _ _ S1 S2) as T2. pose proof (same_trans _ _ _ T2 S3) as T3.
  destruct (bars_enable_run p w3 Hp Hpl Hm) as (w4 & E4 & C4).
  pose proof (shapes_len _ _ _ _ Hs) as HL.
  assert (shapes w4 p 0x10 ds) as Hs4 by (eapply shapes_command; [done|lia|by eapply shapes_same]).
  destruct (bars_loop_run 6 p ds [] w4 Hp ltac:(simpl; lia) ltac:(lia) Hs4) as (w5 & E5 & S5).
  rewrite (bind_ret _ _ _ _ _ E2), (bind_ret _ _ _ _ _ E3), (bind_ret _ _ _ _ _ E4), F3.
  change (bars d0) with (replicate 6 no_bar). rewrite (bind_ret _ _ _ _ _ E5).
  eexists _, w5. split; [reflexivity|]. split; [intros q; rewrite S5, C4; case_decide; by rewrite T3|].
  cbn [place d_ids bars have_msix have_msi _msix _msi subsystem_vid subsystem_id].
  rewrite (half_same _ _ _ _ S1), (half_same _ _ _ _ T2). done.
Qed.

(** ** The scan of the busses *)

Definition present (w : W) (p : bdf) : Prop := half_of w p 0 ≠ 0xffff.

#[local] Instance present_dec w p : Decision (present w p).
Proof. unfold present. apply _. Defined.

Definition entry (w : W) (p : bdf) : pci_bsf := mk_bsf (half_of w p 0) (half_of w p 2) p.

(** The functions the scan looks at, in its order. *)
Definition functions : list bdf :=
  b ← seqZ 0 255; s ← seqZ 0 31; f ← seqZ 0 7; [mk_bdf b s f].

(** [m] appends [l] to the table, or runs over its end. *)
Definition scans (w : W) (m : list pci_bsf → M W (list pci_bsf)) (l : list pci_bsf) : Prop :=
  ∀ found w0, (length found ≤ MAX_PCI)%nat → same w w0 →
    if decide (length (found ++ l) ≤ MAX_PCI)%nat then ∃ w', m found w0 = Ret (found ++ l) w' ∧ same w w'
    else m found w0 = Faulted.

Definition entries (w : W) (ps : list bdf) : list pci_bsf := entry w <$> filter (present w) ps.

Lemma entries_bind {A} w (f : A → list bdf) (xs : list A) : entries w (xs ≫= f) = xs ≫= (λ x, entries w (f x)).
Proof.
  unfold entries. induction xs as [|x xs IH]; [done|]. rewrite !bind_cons, list.filter_app, fmap_app. by rewrite IH.
Qed.

Lemma scan_run w b s f : 0 ≤ b < 256 → 0 ≤ s < 32 → 0 ≤ f < 8 → scans w (scan_function b s f) (entries w [mk_bdf b s f]).
Proof.
  intros Hb Hs Hf found w0 Hlen S0. assert (bdf_ok (mk_bdf b s f)) as Hp by done.
  destruct (readw_run (mk_bdf b s f) 0 w0 Hp ltac:(lia) ltac:(done)) as (w1 & E1 & S1).
  destruct (readw_run (mk_bdf b s f) 2 w1 Hp ltac:(lia) ltac:(done)) as (w2 & E2 & S2).
  change (pci_readw (mk_bdf b s f) 0) with (read_pci_config_word b s f 0) in E1.
  change (pci_readw (mk_bdf b s f) 2) with (read_pci_config_word b s f 2) in E2.
  pose proof (same_trans _ _ _ S0 S1) as T1. pose proof (same_trans _ _ _ T1 S2) as T2.
  unfold scan_function. rewrite (bind_ret _ _ _ _ _ E1), (bind_ret _ _ _ _ _ E2).
  rewrite (half_same _ _ _ _ T1), (half_same _ _ _ _ S0). unfold entries. rewrite filter_cons, filter_nil.
  destruct (Z.eqb_spec (half_of w (mk_bdf b s f) 0) 0xffff) as [E|E]; simpl.
  - rewrite (decide_False (P := present w _)) by (intros Hn; by apply Hn). simpl. rewrite app_nil_r, decide_True by done. by exists w2.
  - rewrite (decide_True (P := present w _)) by done. simpl. rewrite length_app. simpl.
    destruct (Nat.ltb_spec (length found) MAX_PCI); [rewrite decide_True by lia; by exists w2|by rewrite decide_False by lia].
Qed.

Lemma scan_loop_run w n i body (L : Z → list pci_bsf) :
  (∀ k, i ≤ k < i + Z.of_nat n → scans w (body k) (L k)) → scans w (scan_loop n i body) (seqZ i (Z.of_nat n) ≫= L).
Proof.
  revert i. induction n as [|n IH]; intros i HB found w0 Hlen S0.
  { simpl. rewrite app_nil_r, decide_True by done. by exists w0. }
  rewrite seqZ_cons, bind_cons by lia. replace (Z.pred (Z.of_nat (S n))) with (Z.of_nat n) by lia. simpl scan_loop.
  pose proof (HB i ltac:(lia) found w0 Hlen S0) as H1. rewrite app_assoc, length_app.
  destruct (decide (length (found ++ L i) ≤ MAX_PCI)%nat) as [Hl|Hl].
  - destruct H1 as (w1 & E1 & S1). rewrite (bind_ret _ _ _ _ _ E1).
    pose proof (IH (i + 1) ltac:(intros; apply HB; lia) (found ++ L i) w1 Hl S1) as H2. rewrite length_app in H2. done.
  - rewrite decide_False by lia. unfold mbind, M_bind. by rewrite H1.
Qed.

Lemma elem_of_entries w e ps : e ∈ entries w ps ↔ ∃ p, e = entry w p ∧ p ∈ ps ∧ present w p.
Proof. unfold entries. rewrite list_elem_of_fmap. setoid_rewrite list_elem_of_filter. naive_solver. Qed.

Lemma init_scans w : scans w (scan_loop 255 0 (λ b, scan_loop 31 0 (λ s, scan_loop 7 0 (λ f, scan_function b s f)))) (entries w functions).
Proof.
  unfold functions. rewrite entries_bind. apply (scan_loop_run w 255). intros b Hb.
  rewrite entries_bind. apply (scan_loop_run w 31). intros s Hs.
  rewrite entries_bind. apply (scan_loop_run w 7). intros f Hf. apply scan_run; lia.
Qed.


End pci.

(** ** An example

    A bridge with one device at 0:3.0: a network card with a range of ports, one of memory
    below 4 GiB, a prefetchable one above it, and an MSI-X capability. *)

Definition demo_regs (o : Z) : Z :=
  match o with
  | 0x00 => 0x10001af4 | 0x04 => 0x00100000 | 0x08 => 0x02000000 | 0x0c => 0
  | 0x10 => 0xc001 | 0x14 => 0xfebd1000 | 0x18 => 0x0000000c | 0x1c => 0x8
  | 0x20 => 0 | 0x24 => 0 | 0x2c => 0x00011af4 | 0x34 => 0x98
  | 0x98 => 0x00024011 | 0x9c => 0x1 | 0xa0 => 0x801 | 0x40 => 0x00800005
  | _ => 0
  end.

Definition demo_space (r : reg) : Z :=
  let '(b, s, f, o) := r in if bool_decide ((b, s, f) = (0, 3, 0)) then demo_regs o else 0xffffffff.

Definition demo_mask (r : reg) : Z :=
  let '(_, _, _, o) := r in
  match o with
  | 0x04 => 0x407 | 0x10 => 2 ^ 32 - 2 ^ 5 | 0x14 => 2 ^ 32 - 2 ^ 12 | 0x18 => 2 ^ 32 - 2 ^ 14 | 0x1c => 2 ^ 32 - 2 ^ 0
  | 0x98 => 0xc0000000 | _ => 0
  end.

Definition demo_decode (a : Z) : reg := ((a / 2 ^ 16) mod 256, (a / 2 ^ 11) mod 32, (a / 2 ^ 8) mod 8, a mod 256).

Definition demo_get (w : Z * (reg → Z)) (r : reg) : Z := u32 (w.2 r).

Definition demo_put (w : Z * (reg → Z)) (mask v : Z) : Z * (reg → Z) :=
  (w.1, λ q, if decide (q = demo_decode w.1) then written (demo_get w q) mask v else w.2 q).

Lemma demo_decode_select r : reg_ok r → demo_decode (select r) = r.
Proof.
  destruct r as [[[b s] f] o]. intros (Hb & Hs & Hf & Ho & _). unfold demo_decode, select.
  set (a := 2 ^ 31 + b * 2 ^ 16 + s * 2 ^ 11 + f * 2 ^ 8 + o).
  assert (a / 2 ^ 16 = 2 ^ 15 + b) as -> by (symmetry; apply (Z.div_unique _ _ _ (s * 2 ^ 11 + f * 2 ^ 8 + o)); unfold a; lia).
  assert (a / 2 ^ 11 = 2 ^ 20 + b * 2 ^ 5 + s) as -> by (symmetry; apply (Z.div_unique _ _ _ (f * 2 ^ 8 + o)); unfold a; lia).
  assert (a / 2 ^ 8 = 2 ^ 23 + b * 2 ^ 8 + s * 2 ^ 3 + f) as -> by (symmetry; apply (Z.div_unique _ _ _ o); unfold a; lia).
  assert (a mod 256 = o) as -> by (symmetry; apply (Z.mod_unique _ _ (2 ^ 23 + b * 2 ^ 8 + s * 2 ^ 3 + f)); unfold a; lia).
  rewrite <- (Z.mod_unique (2 ^ 15 + b) 256 (2 ^ 7) b) by lia.
  rewrite <- (Z.mod_unique (2 ^ 20 + b * 2 ^ 5 + s) 32 (2 ^ 15 + b) s) by lia.
  by rewrite <- (Z.mod_unique (2 ^ 23 + b * 2 ^ 8 + s * 2 ^ 3 + f) 8 (2 ^ 20 + b * 2 ^ 5 + s) f) by lia.
Qed.

Lemma written_u32 old mask v : 0 ≤ old < 2 ^ 32 → 0 ≤ mask < 2 ^ 32 → 0 ≤ v → u32 (written old mask v) = written old mask v.
Proof.
  intros Ho Hm Hv. assert (in_u 32 (written old mask v)) as Hu; [|unfold u32; by apply wrap_id].
  assert (∀ x i, 0 ≤ x < 2 ^ 32 → 32 ≤ i → Z.testbit x i = false) as Hb.
  { intros x i Hx Hi. rewrite <- (Z.mod_small x (2 ^ 32)) by lia. apply Z.mod_pow2_bits_high. lia. }
  unfold written. apply in_u_bits; [lia|apply Z.lor_nonneg; rewrite !Z.land_nonneg; lia|].
  intros i Hi. by rewrite Z.lor_spec, !Z.land_spec, (Hb old), (Hb mask), andb_false_r by lia.
Qed.

Lemma demo_mask_u32 r : 0 ≤ demo_mask r < 2 ^ 32.
Proof. destruct r as [[[b s] f] o]. unfold demo_mask. repeat case_match; lia. Qed.

Lemma demo_put_get w r mask v q : reg_ok r → w.1 = select r → 0 ≤ mask < 2 ^ 32 → 0 ≤ v →
  demo_get (demo_put w mask v) q = if decide (q = r) then written (demo_get w r) mask v else demo_get w q.
Proof.
  intros Hr Ha Hm Hv. unfold demo_get at 1, demo_put. simpl. rewrite Ha, demo_decode_select by done.
  case_decide as Hq; [|done]. rewrite Hq. apply written_u32; [|done|done]. unfold demo_get, u32, wrap. by apply Z.mod_pos_bound.
Qed.

#[export] Program Instance demo_bridge : Bridge (Z * (reg → Z)) := {|
  outl v port w := if port =? 0xcf8 then (v, w.2) else demo_put w (demo_mask (demo_decode w.1)) v;
  outw v port w := let k := 8 * (port - 0xcfc) in
    demo_put w (demo_mask (demo_decode w.1) .& (0xffff .<< k)) (v .<< k);
  outb v port w := let k := 8 * (port - 0xcfc) in
    demo_put w (demo_mask (demo_decode w.1) .& (0xff .<< k)) (v .<< k);
  inl _ w := demo_get w (demo_decode w.1);
  inw port w := (demo_get w (demo_decode w.1) .>> (8 * (port - 0xcfc))) .& 0xffff;
  inb port w := (demo_get w (demo_decode w.1) .>> (8 * (port - 0xcfc))) .& 0xff;
  address := fst;
  space := demo_get;
  wmask := demo_mask;
  plain _ := True;
  plainw _ _ := True
|}.
Next Obligation. intros w r. simpl. unfold demo_get, u32, wrap. by apply Z.mod_pos_bound. Qed.
Next Obligation. done. Qed.
Next Obligation. done. Qed.
Next Obligation. intros w r Hr Ha. simpl in *. by rewrite Ha, demo_decode_select. Qed.
Next Obligation.
  intros w r k Hr Ha Hk. cbn [address] in *. rewrite Ha, demo_decode_select by done.
  by replace (0xcfc + k - 0xcfc) with k by lia.
Qed.
Next Obligation.
  intros w r k Hr Ha Hk. cbn [address] in *. rewrite Ha, demo_decode_select by done.
  by replace (0xcfc + k - 0xcfc) with k by lia.
Qed.
Next Obligation.
  intros w r v q Hr _ Ha Hv. cbv beta. change (0xcfc =? 0xcf8) with false. cbv iota. rewrite Ha, demo_decode_select by done.
  apply demo_put_get; [done|done|apply demo_mask_u32|lia].
Qed.
Next Obligation.
  intros w r v k q Hr _ Ha Hk Hv. cbn [address] in *. rewrite Ha, demo_decode_select by done.
  replace (0xcfc + k - 0xcfc) with k by lia. apply demo_put_get; [done|done| |apply Z.shiftl_nonneg; lia].
  pose proof (demo_mask_u32 r). split; [apply Z.land_nonneg; lia|].
  assert (in_u 32 (demo_mask r .& (0xffff .<< (8 * k)))) as [_ ?]; [|done].
  apply in_u_bits; [lia|apply Z.land_nonneg; lia|]. intros i Hi. rewrite Z.land_spec.
  by rewrite <- (Z.mod_small (demo_mask r) (2 ^ 32)), Z.mod_pow2_bits_high by lia.
Qed.

Definition demo_bus : Z * (reg → Z) := (0, demo_space).

Definition demo_device : pci_device :=
  mk_dev (mk_bdf 0 3 0) (mk_ids 0 0 0 0 0 0x1000 0x1af4) false (mk_msix 0 0 0 0 0 0 0) false false
    (mk_msi 0 0 0 false false) (replicate 6 no_bar) 0 0.

Lemma parse_device_correct_witness : ∃ d' w',
  pci_device_parse_config demo_device demo_bus = Ret (d', true) w' ∧
  bars d' = all_bars 0x10 [Io 0xc000 5; Mem32 0xfebd1000 12 false; Mem64 0x800000000 14 true; Unused; Unused] ∧
  have_msix d' = true ∧ msix_msgnum (_msix d') = 3.
Proof.
  destruct (parse_device_correct demo_device
    [Io 0xc000 5; Mem32 0xfebd1000 12 false; Mem64 0x800000000 14 true; Unused; Unused] [0x98; 0x40] demo_bus)
    as (d' & w' & E & _ & _ & _ & Hb & _ & _ & Hx & _).
  - vm_compute. intuition congruence.
  - reflexivity.
  - vm_compute. intuition congruence.
  - change (byte_of demo_bus (place demo_device) 0x34) with 0x98. constructor; [done|].
    change (cap_next demo_bus (place demo_device) 0x98) with 0x40. constructor; [done|]. 
    change (cap_next demo_bus (place demo_device) 0x40) with 0. constructor.
  - simpl. lia.
  - repeat constructor; vm_compute; congruence.
  - exact I.
  - reflexivity.
  - exists d', w'. split; [exact E|]. split; [exact Hb|].
    destruct Hx as [Hm Em]; [vm_compute; congruence|]. split; [exact Hm|]. rewrite Em. reflexivity.
Defined.

Lemma demo_entries : entries demo_bus functions = [mk_bsf 0x1af4 0x1000 (mk_bdf 0 3 0)].
Proof. vm_compute. reflexivity. Qed.


(** Functions the scan does not look at: the last bus, the last slot of a bus and the last
    function of a slot. *)
Lemma functions_in b s f : mk_bdf b s f ∈ functions ↔ 0 ≤ b < 255 ∧ 0 ≤ s < 31 ∧ 0 ≤ f < 7.
Proof.
  unfold functions. rewrite list_elem_of_bind. setoid_rewrite list_elem_of_bind. setoid_rewrite list_elem_of_bind.
  setoid_rewrite elem_of_seqZ. setoid_rewrite list_elem_of_singleton. split.
  - intros (? & (? & (? & [= -> -> ->] & ?) & ?) & ?). lia.
  - intros (? & ? & ?). exists b. split; [|lia]. exists s. split; [|lia]. exists f. split; [done|lia].
Qed.
