(* ===== verification/Msix.v ===== *)
(** * MSI-X tables (libs/libpci/pci_device.c, include/drivers/pci_function.h)

    A driver maps the bar that holds the table of a device, masks its entries and switches
    MSI-X on.  The configuration space is that of Pci.v, the mapping is ioremap_nocache of
    Pgtable.v, and the words of the table are a function of virtual addresses. *)

From Stdlib Require Import Lia ZArith.
From stdpp Require Import base gmap list numbers option.
From S2P Require Import Prelude Holes Pages Bitops Phymem Kheap Pgtable Pci.

#[local] Open Scope Z_scope.
#[local] Open Scope yaos_scope.

Section msix.
Context `{Bridge W} {K : Type} `{MemSource K} (st : statics).

(** The state: the bus, the structure of the device, the page tables, and memory by
    32-bit words. *)
Record sys : Type := mk_sys { s_bus : W; s_dev : pci_device; s_pt : ptstate K; s_mem : Z → Z }.

Definition on_bus {A} (m : M W A) : M sys A := zoom s_bus (λ w s, mk_sys w (s_dev s) (s_pt s) (s_mem s)) m.
Definition on_tables {A} (m : M (ptstate K) A) : M sys A := zoom s_pt (λ t s, mk_sys (s_bus s) (s_dev s) t (s_mem s)) m.
Definition set_dev (d : pci_device) : M sys unit := modify (λ s, mk_sys (s_bus s) d (s_pt s) (s_mem s)).

(** ** The code *)

Definition mmio_getl (a : Z) : M sys Z := gets (λ s, s_mem s a).
Definition mmio_setl (a v : Z) : M sys unit :=
  modify (λ s, mk_sys (s_bus s) (s_dev s) (s_pt s) (λ x, if x =? a then v else s_mem s x)).
(** Two words, the lower one first. *)
Definition mmio_setq (a v : Z) : M sys unit :=
  mmio_setl a (v mod 2 ^ 32) ;; mmio_setl (a + 4) (v / 2 ^ 32).

(** The index of the bar, [None] for a null pointer. *)
Definition pci_get_bar (n : Z) : M sys (option pci_bar) :=
  ASSERT (n <=? 6) ;;
  d ← gets s_dev;
  b ← deref (bars d !! Z.to_nat (n - 1));
  mret (if b_dev b then Some b else None).

Definition msix_get_table : M sys Z :=
  d ← gets s_dev;
  b ← pci_get_bar (msix_table_bar (_msix d) + 1);
  match b with
  | None => mret 0
  | Some b => mret (u64 (addr_mmio b + msix_table_offset (_msix d)))
  end.

Definition msix_get_control : M sys Z :=
  d ← gets s_dev; on_bus (pci_readw (place d) (msix_location (_msix d) + 2)).
Definition msix_set_control (ctrl : Z) : M sys unit :=
  d ← gets s_dev; on_bus (pci_writew (place d) (msix_location (_msix d) + 2) ctrl).

Definition msix_change_entry (f : Z → Z) (entry_id : Z) : M sys bool :=
  d ← gets s_dev;
  if negb (have_msix d) then mret false
  else if msix_msgnum (_msix d) <=? entry_id then mret false
  else
    table ← msix_get_table;
    let ctrl := u64 (u64 (table + entry_id * 16) + 12) in
    ctrl_data ← mmio_getl ctrl;
    mmio_setl ctrl (f ctrl_data) ;;
    mret true.

Definition msix_mask_entry : Z → M sys bool := msix_change_entry (λ c, c .| 1).
Definition msix_unmask_entry : Z → M sys bool := msix_change_entry (λ c, c .& u32 (Z.lnot 1)).

Definition msix_unmask_all : M sys unit :=
  d ← gets s_dev;
  if negb (have_msix d) then mret tt
  else ctrl ← msix_get_control; msix_set_control (ctrl .& Z.lnot 0x4000).

Definition map_bar (a : Z) (b : pci_bar) : pci_bar :=
  mk_bar (b_dev b) (b_pos b) (addr_lo b) (addr_hi b) (addr_64 b) (addr_size b) a (is_mmio b) (is_64 b) (is_prefetchable b).

(** [fuel] bounds the pages of the mapping. *)
Definition pci_bar_map (fuel : nat) (i : nat) (b : pci_bar) : M sys unit :=
  if is_mmio b then
    a ← on_tables (ioremap_nocache st fuel (addr_64 b) (addr_size b));
    d ← gets s_dev;
    set_dev (set_bars d (<[i := map_bar a b]> (bars d)))
  else mret tt.

Fixpoint mask_loop (n : nat) (i : Z) : M sys unit :=
  match n with O => mret tt | S n => msix_mask_entry i ;; mask_loop n (i + 1) end.

Definition set_enabled (d : pci_device) : pci_device :=
  mk_dev (place d) (d_ids d) (have_msix d) (_msix d) true (have_msi d) (_msi d) (bars d) (subsystem_vid d) (subsystem_id d).

Definition pci_msix_enable (fuel : nat) : M sys unit :=
  d ← gets s_dev;
  if negb (have_msix d) then mret tt
  else
    b ← pci_get_bar (msix_table_bar (_msix d) + 1);
    match b with
    | None => mret tt
    | Some b =>
        pci_bar_map fuel (Z.to_nat (msix_table_bar (_msix d))) b ;;
        on_bus (pci_disable_intx (place d)) ;;
        ctrl ← msix_get_control;
        msix_set_control (ctrl .| 0x8000 .| 0x4000) ;;
        ctrl ← msix_get_control;
        mask_loop (Z.to_nat (msix_msgnum (_msix d))) 0 ;;
        msix_set_control (ctrl .& Z.lnot 0x4000) ;;
        d ← gets s_dev;
        set_dev (set_enabled d)
    end.

Definition pci_msix_write_entry (entry addr data : Z) : M sys bool :=
  d ← gets s_dev;
  if negb (have_msix d) then mret false
  else if msix_msgnum (_msix d) <=? entry then mret false
  else
    table ← msix_get_table;
    let entryaddr := u64 (table + entry * 16) in
    mmio_setq entryaddr addr ;;
    mmio_setl (u64 (entryaddr + 8)) data ;;
    mret true.

(** ** The table *)

(** The table of the device is in a mapped bar, at [t]. *)
Definition table_at (d : pci_device) (t : Z) : Prop :=
  have_msix d = true ∧ 0 ≤ msix_table_bar (_msix d) < 6 ∧ 0 ≤ t ∧ t + 16 * msix_msgnum (_msix d) ≤ 2 ^ 64 ∧
  0 < msix_msgnum (_msix d) ∧
  ∃ b, bars d !! Z.to_nat (msix_table_bar (_msix d)) = Some b ∧ b_dev b = true ∧
       addr_mmio b + msix_table_offset (_msix d) = t.

Lemma get_bar_run (s : sys) n b : 0 ≤ n < 6 → bars (s_dev s) !! Z.to_nat n = Some b →
  pci_get_bar (n + 1) s = Ret (if b_dev b then Some b else None) s.
Proof.
  intros Hn Hb. unfold pci_get_bar, mbind, M_bind, ASSERT, gets. rewrite (proj2 (Z.leb_le (n + 1) 6)) by lia.
  replace (Z.to_nat (n + 1 - 1)) with (Z.to_nat n) by lia. by rewrite Hb.
Qed.

Lemma table_run (s : sys) t : table_at (s_dev s) t → msix_get_table s = Ret t s.
Proof.
  intros (_ & Hn & Ht & Hm & Hg & b & Hb & Hd & Et). unfold msix_get_table. unfold mbind at 1, M_bind at 1, gets.
  rewrite (bind_ret _ _ _ _ _ (get_bar_run s _ b Hn Hb)), Hd. unfold mret, M_ret. rewrite Et, u64_id; [done|unfold in_u; lia].
Qed.

(** The word that controls entry [i]. *)
Definition ctrl_of (t i : Z) : Z := t + 16 * i + 12.

Lemma change_entry_run f (s : sys) t i : table_at (s_dev s) t → 0 ≤ i < msix_msgnum (_msix (s_dev s)) →
  msix_change_entry f i s =
  Ret true (mk_sys (s_bus s) (s_dev s) (s_pt s) (λ x, if x =? ctrl_of t i then f (s_mem s (ctrl_of t i)) else s_mem s x)).
Proof.
  intros Ht Hi. pose proof (table_run s t Ht) as E. destruct Ht as (Hx & Hn & H1 & H2 & _ & _).
  unfold msix_change_entry. unfold mbind at 1, M_bind at 1, gets. rewrite Hx. cbn [negb]. cbv iota.
  rewrite (proj2 (Z.leb_gt _ _)) by lia. rewrite (bind_ret _ _ _ _ _ E). cbn zeta.
  rewrite (u64_id (t + i * 16)) by (unfold in_u; lia). rewrite u64_id by (unfold in_u; lia).
  replace (t + i * 16 + 12) with (ctrl_of t i) by (unfold ctrl_of; lia). done.
Qed.

(** Entries [i] to [i + n - 1] are masked, no other word changes. *)
Definition masked (t i : Z) (n : nat) (m m' : Z → Z) : Prop :=
  (∀ k, i ≤ k < i + Z.of_nat n → m' (ctrl_of t k) = m (ctrl_of t k) .| 1) ∧
  (∀ x, (∀ k, i ≤ k < i + Z.of_nat n → x ≠ ctrl_of t k) → m' x = m x).

Lemma mask_loop_run n (s : sys) t i : table_at (s_dev s) t → 0 ≤ i → i + Z.of_nat n ≤ msix_msgnum (_msix (s_dev s)) →
  ∃ m', mask_loop n i s = Ret tt (mk_sys (s_bus s) (s_dev s) (s_pt s) m') ∧ masked t i n (s_mem s) m'.
Proof.
  revert s i. induction n as [|n IH]; intros s i Ht Hi Hn.
  { exists (s_mem s). split; [by destruct s|]. split; [lia|done]. }
  simpl. unfold msix_mask_entry. rewrite (bind_ret _ _ _ _ _ (change_entry_run _ s t i Ht ltac:(lia))).
  set (m1 := λ x, if x =? _ then _ else _).
  destruct (IH (mk_sys (s_bus s) (s_dev s) (s_pt s) m1) (i + 1)) as (m' & E & HM & HO); [done|lia|simpl; lia|].
  simpl in E, HM, HO. exists m'. split; [done|]. split.
  - intros k Hk. destruct (decide (k = i)) as [->|].
    + rewrite HO by (unfold ctrl_of; lia). unfold m1. by rewrite Z.eqb_refl.
    + rewrite HM by lia. unfold m1. by rewrite (proj2 (Z.eqb_neq _ _)) by (unfold ctrl_of; lia).
  - intros x Hx. rewrite HO by (intros; apply Hx; lia). unfold m1.
    by rewrite (proj2 (Z.eqb_neq _ _)) by (apply Hx; lia).
Qed.

(** ** The control word *)

Lemma get_control_run (s : sys) (p := place (s_dev s)) (o := msix_location (_msix (s_dev s))) :
  bdf_ok p → cap_ok o →
  ∃ w', msix_get_control s = Ret (half_of (s_bus s) p (o + 2)) (mk_sys w' (s_dev s) (s_pt s) (s_mem s)) ∧
        same (s_bus s) w'.
Proof.
  intros Hp [Ho Hm]. destruct (readw_run p (o + 2) (s_bus s)) as (w' & E & S);
    [done|lia|pose proof (Z.div_mod o 4); replace (o + 2) with ((o / 4 * 2 + 1) * 2) by lia; by apply Z.mod_mul|].
  exists w'. split; [|done]. unfold msix_get_control. unfold mbind at 1, M_bind at 1, gets. unfold on_bus.
  by rewrite (zoom_ret _ _ _ _ _ _ E).
Qed.

(** The control word is [v], the rest of the space is as before. *)
Definition control_is (p : bdf) (o v : Z) (w w' : W) : Prop :=
  (∀ q, q ≠ at_reg p o → space w' q = space w q) ∧
  ∀ i, 0 ≤ i → Z.testbit (space w' (at_reg p o)) i =
    if decide (16 ≤ i < 32) then Z.testbit v (i - 16) else Z.testbit (space w (at_reg p o)) i.

Lemma half_bits w p o j : o mod 4 = 0 → 0 ≤ j < 16 →
  Z.testbit (half_of w p (o + 2)) j = Z.testbit (space w (at_reg p o)) (j + 16).
Proof.
  intros Hm Hj. unfold half_of. assert ((o + 2) mod 4 = 2) as -> by (by rewrite Zplus_mod, Hm).
  replace (o + 2 - 2) with o by lia. change 0xffff with (Z.ones 16).
  rewrite Z.land_spec, Z.ones_spec_low, andb_true_r, Z.shiftr_spec by lia. done.
Qed.

Lemma set_control_run (s : sys) v (p := place (s_dev s)) (o := msix_location (_msix (s_dev s))) :
  bdf_ok p → cap_ok o → plainw (at_reg p o) 2 → 0 ≤ v < 2 ^ 16 →
  (∀ j, 0 ≤ j < 16 → Z.testbit (wmask (at_reg p o)) (j + 16) = false →
     Z.testbit v j = Z.testbit (space (s_bus s) (at_reg p o)) (j + 16)) →
  ∃ w', msix_set_control v s = Ret tt (mk_sys w' (s_dev s) (s_pt s) (s_mem s)) ∧ control_is p o v (s_bus s) w'.
Proof.
  intros Hp [Ho Hm] Hpl Hv Hw. destruct (writew_run p o 2 v (s_bus s)) as (w' & E & S); [done|lia|lia|done|by right|done|done|].
  exists w'. split; [unfold msix_set_control; unfold mbind at 1, M_bind at 1, gets; unfold on_bus; by rewrite (zoom_ret _ _ _ _ _ _ E)|].
  split; [intros q Hq; by rewrite S, decide_False|].
  intros i Hi. rewrite S, decide_True, written_half by (done || lia). done.
Qed.

Lemma or_and_range a b c : 0 ≤ a < 2 ^ 16 → 0 ≤ b < 2 ^ 16 → 0 ≤ (a .| b) .& Z.lnot c < 2 ^ 16.
Proof.
  intros Ha Hb. assert (in_u 16 ((a .| b) .& Z.lnot c)); [|done].
  apply in_u_bits; [lia|apply Z.land_nonneg; left; apply Z.lor_nonneg; lia|].
  intros i Hi. rewrite Z.land_spec, Z.lor_spec.
  rewrite <- (Z.mod_small a (2 ^ 16)), <- (Z.mod_small b (2 ^ 16)) by lia. by rewrite !Z.mod_pow2_bits_high by lia.
Qed.

(** Bits 14 and 15 of the control word are the function mask and the enable bit. *)
Lemma bits_c000 c j : 0 ≤ j → Z.testbit (c .| 0x8000 .| 0x4000) j = Z.testbit c j || bool_decide (j = 15 ∨ j = 14).
Proof.
  intros Hj. rewrite !Z.lor_spec. change 0x8000 with (2 ^ 15). change 0x4000 with (2 ^ 14).
  rewrite !Z.pow2_bits_eqb by lia. rewrite <- orb_assoc. f_equal.
  destruct (Z.eqb_spec 15 j), (Z.eqb_spec 14 j); case_bool_decide; simpl; lia || done.
Qed.

Lemma bits_4000 c j : 0 ≤ j → Z.testbit (c .& Z.lnot 0x4000) j = Z.testbit c j && bool_decide (j ≠ 14).
Proof.
  intros Hj. rewrite Z.land_spec, Z.lnot_spec by lia. change 0x4000 with (2 ^ 14). rewrite Z.pow2_bits_eqb by lia.
  destruct (Z.eqb_spec 14 j); case_bool_decide; simpl; lia || done.
Qed.

Definition writable_ctrl (p : bdf) (o : Z) : Prop :=
  plainw (at_reg p o) 2 ∧ Z.testbit (wmask (at_reg p o)) 30 = true ∧ Z.testbit (wmask (at_reg p o)) 31 = true.

(** MSI-X is enabled and not masked as a whole. *)
Definition switched_on (p : bdf) (o : Z) (w w' : W) : Prop :=
  (∀ q, q ≠ at_reg p o → space w' q = space w q) ∧
  ∀ i, 0 ≤ i → Z.testbit (space w' (at_reg p o)) i =
    if decide (i = 31) then true else if decide (i = 30) then false else Z.testbit (space w (at_reg p o)) i.

(** From the reading of the control word to its last writing. *)
Lemma msix_switch_run (s : sys) t n (p := place (s_dev s)) (o := msix_location (_msix (s_dev s))) :
  bdf_ok p → cap_ok o → writable_ctrl p o → table_at (s_dev s) t → Z.of_nat n = msix_msgnum (_msix (s_dev s)) →
  ∃ w' m', (ctrl ← msix_get_control; msix_set_control (ctrl .| 0x8000 .| 0x4000) ;;
            ctrl ← msix_get_control; mask_loop n 0 ;; msix_set_control (ctrl .& Z.lnot 0x4000)) s =
           Ret tt (mk_sys w' (s_dev s) (s_pt s) m') ∧
    switched_on p o (s_bus s) w' ∧ masked t 0 n (s_mem s) m'.
Proof.
  intros Hp Ho (Hpl & H30 & H31) Ht Hn. pose proof Ho as [Ho1 Ho4].
  destruct (get_control_run s Hp Ho) as (w1 & E1 & S1). rewrite (bind_ret _ _ _ _ _ E1). fold p o.
  pose proof (half_range (s_bus s) p (o + 2)) as Hc. set (c := half_of (s_bus s) p (o + 2)) in *.
  assert (∀ j, 0 ≤ j < 16 → Z.testbit (wmask (at_reg p o)) (j + 16) = false → j ≠ 15 ∧ j ≠ 14) as Hj.
  { intros j Hj1 Hj2. split; intros ->; [change (15 + 16) with 31 in Hj2|change (14 + 16) with 30 in Hj2]; congruence. }
  assert (0 ≤ c .| 0x8000 .| 0x4000 < 2 ^ 16) as Hv.
  { rewrite <- Z.lor_assoc. pose proof (or_and_range c (0x8000 .| 0x4000) 0 Hc ltac:(done)) as HR.
    change (Z.lnot 0) with (-1) in HR. by rewrite Z.land_m1_r in HR. }
  destruct (set_control_run (mk_sys w1 (s_dev s) (s_pt s) (s_mem s)) (c .| 0x8000 .| 0x4000)) as (w2 & E2 & O2 & B2); [done..| |].
  { simpl. intros j Hj1 Hj2. destruct (Hj j Hj1 Hj2). rewrite bits_c000, bool_decide_eq_false_2, orb_false_r by lia.
    unfold c. rewrite half_bits by done. by rewrite S1. }
  rewrite (bind_ret _ _ _ _ _ E2). cbn [s_bus s_dev s_pt s_mem] in *. fold p o in O2, B2.
  destruct (get_control_run (mk_sys w2 (s_dev s) (s_pt s) (s_mem s))) as (w3 & E3 & S3); [done..|].
  rewrite (bind_ret _ _ _ _ _ E3). cbn [s_bus s_dev s_pt s_mem] in *. fold p o.
  destruct (mask_loop_run n (mk_sys w3 (s_dev s) (s_pt s) (s_mem s)) t 0 Ht ltac:(lia) ltac:(simpl; lia)) as (m' & E4 & HM).
  rewrite (bind_ret _ _ _ _ _ E4). cbn [s_bus s_dev s_pt s_mem] in *.
  assert (∀ j, 0 ≤ j < 16 → Z.testbit (half_of w2 p (o + 2)) j = Z.testbit c j || bool_decide (j = 15 ∨ j = 14)) as Hc2.
  { intros j Hj1. rewrite half_bits, B2, decide_True by (done || lia). replace (j + 16 - 16) with j by lia. apply bits_c000. lia. }
  pose proof (half_range w2 p (o + 2)) as Hr2. set (c2 := half_of w2 p (o + 2)) in *.
  destruct (set_control_run (mk_sys w3 (s_dev s) (s_pt s) m') (c2 .& Z.lnot 0x4000)) as (w4 & E5 & O5 & B5); [done..| | |].
  { pose proof (or_and_range c2 0 0x4000 Hr2 ltac:(lia)) as HR. by rewrite Z.lor_0_r in HR. }
  { cbn [s_bus s_dev]. fold p o. intros j Hj1 Hj2. destruct (Hj j Hj1 Hj2).
    rewrite bits_4000, bool_decide_eq_true_2, andb_true_r by lia. unfold c2. rewrite half_bits by done. by rewrite S3. }
  cbn [s_bus s_dev s_pt s_mem] in *. fold p o in O5, B5. exists w4, m'. split; [exact E5|]. split; [|done].
  split; [intros q Hq; by rewrite O5, S3, O2, S1|]. intros i Hi. rewrite B5 by done. case_decide as Hd.
  - rewrite bits_4000, Hc2 by lia. unfold c. rewrite half_bits by lia || done. replace (i - 16 + 16) with i by lia.
    case_decide; [rewrite !bool_decide_eq_true_2 by lia; by rewrite orb_true_r|].
    case_decide; [rewrite (bool_decide_eq_false_2 (i - 16 ≠ 14)) by lia; by rewrite andb_false_r|].
    rewrite bool_decide_eq_false_2, bool_decide_eq_true_2 by lia. by rewrite orb_false_r, andb_true_r.
  - rewrite S3, B2, decide_False, S1 by lia. by rewrite !decide_False by lia.
Qed.

Lemma regroup {S A B} (g : M S A) (h k : A → M S unit) (l : M S unit) (r : M S B) s :
  (a ← g; h a ;; b ← g; l ;; k b ;; r) s = ((a ← g; h a ;; b ← g; l ;; k b) ≫= λ _, r) s.
Proof.
  unfold mbind, M_bind. destruct (g s) as [a s1| | | | |]; try done. destruct (h a s1) as [[] s2| | | | |]; try done.
  destruct (g s2) as [b s3| | | | |]; try done. by destruct (l s3) as [[] s4| | | | |].
Qed.

Lemma disable_intx_run p w : bdf_ok p → plainw (command_reg p) 0 → wmask (command_reg p) .& 0x400 = 0x400 →
  ∃ w', pci_disable_intx p w = Ret tt w' ∧ command_set p 0x400 w w'.
Proof. intros Hp Hpl Hm. by apply command_or_run. Qed.

(** A device with an MSI-X capability whose table lies in a memory bar the kernel can map. *)
Definition can_msix (fuel : nat) (d : pci_device) (b : pci_bar) : Prop :=
  let x := _msix d in
  have_msix d = true ∧ 0 ≤ msix_table_bar x < 6 ∧ bars d !! Z.to_nat (msix_table_bar x) = Some b ∧
  b_dev b = true ∧ is_mmio b = true ∧ 0 ≤ addr_64 b ∧ addr_64 b + addr_size b + 2 * PAGE_SIZE < 2 ^ 35 ∧
  addr_size b + PAGE_SIZE < Z.of_nat fuel * PAGE_SIZE ∧
  0 < msix_msgnum x ∧ 0 ≤ msix_table_offset x ∧ msix_table_offset x + 16 * msix_msgnum x ≤ addr_size b ∧
  bdf_ok (place d) ∧ cap_ok (msix_location x) ∧ writable_ctrl (place d) (msix_location x) ∧
  plainw (command_reg (place d)) 0 ∧ wmask (command_reg (place d)) .& 0x400 = 0x400.


End msix.

(** ** An example: the card of Pci.v, on the page tables of Pgtable.v *)

Definition demo_bars : list pci_bar :=
  all_bars 0x10 [Io 0xc000 5; Mem32 0xfebd1000 12 false; Mem64 0x800000000 14 true; Unused; Unused].

Definition demo_parsed : pci_device :=
  mk_dev (mk_bdf 0 3 0) (mk_ids 0 0 2 0 0 0x1000 0x1af4) true (msix_of demo_bus (mk_bdf 0 3 0) 0x98) false false
    (mk_msi 0 0 0 false false) demo_bars 0x1af4 1.

Definition demo_sys : sys := mk_sys demo_bus demo_parsed boot_pt (λ _, 0).

Lemma demo_can_msix :
  can_msix 3 demo_parsed (mk_bar true 0x14 0xfebd1000 0 0xfebd1000 0x1000 0 true false false).
Proof. vm_compute. intuition congruence. Qed.

