(* ===== verification/Altern.v ===== *)
(** * Patching instructions at boot time (arch/x86_64/alternative.c)

    A table names instructions of the kernel and their replacements.  [apply_alternatives]
    copies each replacement over its instruction, corrects relative jumps and calls for
    their new place and fills up with instructions that do nothing.  Memory is a
    function from addresses to bytes.  The messages and the flag of the interrupts,
    which is saved and restored around each copy, are left out. *)

From Stdlib Require Import Lia ZArith.
From stdpp Require Import base list numbers option.
From S2P Require Import Prelude.

#[local] Open Scope Z_scope.
#[local] Open Scope yaos_scope.

(** ** The code *)

Definition ASM_NOP_MAX : Z := 8.
Definition MAX_PATCH_LEN : Z := 254.
Definition NCAPINTS : Z := 13.
Definition NBUGINTS : Z := 1.

Record alt_instr : Type := mk_alt {
  instr_offset : Z; repl_offset : Z; cpuid : Z; instrlen : Z; replacementlen : Z; padlen : Z }.

(** P6_NOP1 to P6_NOP8 *)
Definition p6_nops (n : Z) : list Z :=
  match n with
  | 1 => [0x90]
  | 2 => [0x66; 0x90]
  | 3 => [0x0f; 0x1f; 0x00]
  | 4 => [0x0f; 0x1f; 0x40; 0]
  | 5 => [0x0f; 0x1f; 0x44; 0x00; 0]
  | 6 => [0x66; 0x0f; 0x1f; 0x44; 0x00; 0]
  | 7 => [0x0f; 0x1f; 0x80; 0; 0; 0; 0]
  | 8 => [0x0f; 0x1f; 0x84; 0x00; 0; 0; 0; 0]
  | _ => []
  end.

(** The bytes add_nops writes. *)
Fixpoint add_nops (fuel : nat) (len : Z) : list Z :=
  match fuel with
  | O => []
  | S fuel =>
      if 0 <? len then
        let noplen := if ASM_NOP_MAX <? len then ASM_NOP_MAX else len in
        p6_nops noplen ++ add_nops fuel (len - noplen)
      else []
  end.

Definition nops (len : Z) : list Z := add_nops (Z.to_nat len) len.

Definition is_jmp (opcode : Z) : bool := (opcode =? 0xeb) || (opcode =? 0xe9).

(** [*(s32 * )(insnbuf + 1)], read and written. *)
Definition get_dspl (buf : list Z) : Z :=
  match buf with
  | _ :: b0 :: b1 :: b2 :: b3 :: _ => s32 (b0 + 2 ^ 8 * b1 + 2 ^ 16 * b2 + 2 ^ 24 * b3)
  | _ => 0
  end.

Definition bytes_of (n : Z) : list Z := [u8 n; u8 (n .>> 8); u8 (n .>> 16); u8 (n .>> 24)].

Definition put_dspl (n : Z) (buf : list Z) : list Z := take 1 buf ++ bytes_of n ++ drop 5 buf.

Definition recompute_jump (a : alt_instr) (orig_insn repl_insn : Z) (insnbuf : list Z) : list Z :=
  if negb (replacementlen a =? 5) then insnbuf
  else
    let o_dspl := get_dspl insnbuf in
    let next_rip := repl_insn + replacementlen a in
    let tgt_rip := next_rip + o_dspl in
    let n_dspl := s32 (tgt_rip - orig_insn) in
    let two := [0xeb; u8 (n_dspl - 2)] ++ nops 3 in
    let five := 0xe9 :: bytes_of (n_dspl - 5) in
    if 0 <=? tgt_rip - orig_insn then
      if n_dspl - 2 <=? 127 then two else five
    else
      if (n_dspl - 2) .& 0xff =? n_dspl - 2 then two else five.

Definition load (m : Z → Z) (a n : Z) : list Z := (λ i, m (a + Z.of_nat i)) <$> seq 0 (Z.to_nat n).

Definition text_poke_early (addr : Z) (opcode : list Z) (m : Z → Z) : Z → Z := λ x,
  if decide (addr ≤ x < addr + Z.of_nat (length opcode)) then default 0 (opcode !! Z.to_nat (x - addr)) else m x.

(** The body of the loop, for the entry [a] at the address [p]; insnbuf has MAX_PATCH_LEN
    bytes. *)
Definition apply_one (p : Z) (a : alt_instr) : M (Z → Z) unit :=
  let instr := p + instr_offset a in
  let replacement := p + 4 + repl_offset a in
  ASSERT (negb (MAX_PATCH_LEN <? instrlen a)) ;;
  ASSERT (negb ((NCAPINTS + NBUGINTS) * 32 <=? cpuid a)) ;;
  if MAX_PATCH_LEN <? replacementlen a then fault
  else
    insnbuf ← gets (λ m, load m replacement (replacementlen a));
    let insnbuf :=
      if bool_decide (insnbuf !! 0%nat = Some 0xe8) && (replacementlen a =? 5)
      then put_dspl (s32 (get_dspl insnbuf + (replacement - instr))) insnbuf else insnbuf in
    first ← gets (λ m, m replacement);
    let insnbuf :=
      if negb (replacementlen a =? 0) && is_jmp first then recompute_jump a instr replacement insnbuf else insnbuf in
    let insnbuf :=
      if replacementlen a <? instrlen a then insnbuf ++ nops (instrlen a - replacementlen a) else insnbuf in
    modify (text_poke_early instr insnbuf).

Fixpoint apply_alternatives (p : Z) (l : list alt_instr) : M (Z → Z) unit :=
  match l with
  | [] => mret tt
  | a :: l => apply_one p a ;; apply_alternatives (p + 16) l
  end.

(** ** What the bytes mean *)

(** A near jump or call at [a]: whether it is a call, its target, and the bytes behind it. *)
Definition branch (a : Z) (l : list Z) : option (bool * Z * list Z) :=
  match l with
  | op :: l' =>
      if op =? 0xeb then match l' with d :: r => Some (false, a + 2 + signed 8 d, r) | [] => None end
      else if (op =? 0xe9) || (op =? 0xe8) then
        match l' with
        | _ :: _ :: _ :: _ :: r => Some (op =? 0xe8, a + 5 + get_dspl l, r)
        | _ => None
        end
      else None
  | [] => None
  end.

(** A sequence of instructions that do nothing. *)
Definition nop_seq (l : list Z) : Prop :=
  ∃ ns, Forall (λ n, 1 ≤ n ≤ ASM_NOP_MAX) ns ∧ l = ns ≫= p6_nops.

Lemma nop_seq_nil : nop_seq [].
Proof. by exists []. Qed.

Lemma nop_seq_app l k : nop_seq l → nop_seq k → nop_seq (l ++ k).
Proof.
  intros (ns & Hn & ->) (ks & Hk & ->). exists (ns ++ ks). split; [by apply Forall_app|]. by rewrite bind_app.
Qed.

Lemma p6_nops_len n : 1 ≤ n ≤ ASM_NOP_MAX → Z.of_nat (length (p6_nops n)) = n.
Proof.
  unfold ASM_NOP_MAX. intros Hn.
  assert (n = 1 ∨ n = 2 ∨ n = 3 ∨ n = 4 ∨ n = 5 ∨ n = 6 ∨ n = 7 ∨ n = 8) as Hc by lia.
  by destruct Hc as [->|[->|[->|[->|[->|[->|[->| ->]]]]]]].
Qed.

Lemma add_nops_spec fuel len : 0 ≤ len ≤ Z.of_nat fuel →
  nop_seq (add_nops fuel len) ∧ Z.of_nat (length (add_nops fuel len)) = len.
Proof.
  revert len. induction fuel as [|fuel IH]; intros len Hl; simpl; [split; [apply nop_seq_nil|simpl; lia]|].
  destruct (Z.ltb_spec 0 len) as [Hp|]; [|split; [apply nop_seq_nil|simpl; lia]].
  set (n := if ASM_NOP_MAX <? len then ASM_NOP_MAX else len).
  assert (1 ≤ n ≤ ASM_NOP_MAX ∧ n ≤ len) as [Hn Hnl] by (unfold n, ASM_NOP_MAX; destruct (Z.ltb_spec 8 len); lia).
  destruct (IH (len - n) ltac:(lia)) as [H1 H2]. split.
  - apply nop_seq_app; [|done]. exists [n]. split; [by apply list.Forall_singleton|]. by rewrite bind_cons, app_nil_r.
  - rewrite length_app, Nat2Z.inj_add, p6_nops_len, H2 by done. lia.
Qed.

Lemma nops_spec len : 0 ≤ len → nop_seq (nops len) ∧ Z.of_nat (length (nops len)) = len.
Proof. intros Hl. apply add_nops_spec. lia. Qed.

Lemma dword_bytes n : - 2 ^ 31 ≤ n < 2 ^ 31 →
  s32 (u8 n + 2 ^ 8 * u8 (n .>> 8) + 2 ^ 16 * u8 (n .>> 16) + 2 ^ 24 * u8 (n .>> 24)) = n.
Proof.
  intros Hn. unfold u8, wrap. rewrite !Z.shiftr_div_pow2 by lia.
  assert (n mod 2 ^ 8 + 2 ^ 8 * ((n / 2 ^ 8) mod 2 ^ 8) + 2 ^ 16 * ((n / 2 ^ 16) mod 2 ^ 8) +
          2 ^ 24 * ((n / 2 ^ 24) mod 2 ^ 8) = n mod 2 ^ 32) as ->.
  { change (2 ^ 32) with (2 ^ 8 * (2 ^ 8 * (2 ^ 8 * 2 ^ 8))). rewrite !Z.rem_mul_r by lia.
    rewrite !Z.div_div by lia. change (2 ^ 8 * 2 ^ 8) with (2 ^ 16). change (2 ^ 16 * 2 ^ 8) with (2 ^ 24).
    change (2 ^ 8 * 2 ^ 16) with (2 ^ 24). lia. }
  rewrite <- (s32_id n) at 2 by done. unfold s32, signed, wrap. by rewrite Z.mod_mod by lia.
Qed.

Lemma get_put_dspl n op b0 b1 b2 b3 r : - 2 ^ 31 ≤ n < 2 ^ 31 →
  put_dspl n (op :: b0 :: b1 :: b2 :: b3 :: r) = op :: bytes_of n ++ r ∧ get_dspl (op :: bytes_of n ++ r) = n.
Proof. intros Hn. split; [done|]. simpl. by apply dword_bytes. Qed.

(** The jump in its new place, with the same target. *)
Lemma recompute_jump_spec a orig repl b0 b1 b2 b3 (buf := [0xe9; b0; b1; b2; b3]) :
  replacementlen a = 5 → - 2 ^ 31 + 5 ≤ repl + 5 + get_dspl buf - orig < 2 ^ 31 →
  length (recompute_jump a orig repl buf) = 5%nat ∧
  ∃ r, (∀ k, branch orig (recompute_jump a orig repl buf ++ k) = Some (false, repl + 5 + get_dspl buf, r ++ k)) ∧ nop_seq r.
Proof.
  intros Hl Ht. unfold recompute_jump. rewrite Hl. change (negb (5 =? 5)) with false. cbv iota zeta.
  set (t := repl + 5 + get_dspl buf) in *. rewrite s32_id by lia.
  assert (∀ n, n = t - orig → length (0xe9 :: bytes_of (n - 5)) = 5%nat ∧
     ∃ r, (∀ k, branch orig ((0xe9 :: bytes_of (n - 5)) ++ k) = Some (false, t, r ++ k)) ∧ nop_seq r) as Five.
  { intros n ->. split; [done|]. exists []. split; [|apply nop_seq_nil]. intros k.
    change (branch orig ((0xe9 :: bytes_of (t - orig - 5)) ++ k)) with
      (Some (false, orig + 5 + get_dspl (0xe9 :: bytes_of (t - orig - 5) ++ k), k)).
    assert (get_dspl (0xe9 :: bytes_of (t - orig - 5) ++ k) = t - orig - 5) as -> by (simpl; apply dword_bytes; lia).
    do 3 f_equal. lia. }
  destruct (Z.leb_spec 0 (t - orig)).
  - destruct (Z.leb_spec (t - orig - 2) 127); [|by apply Five]. split; [done|]. exists (nops 3).
    split; [|apply nops_spec; lia]. intros k.
    change (branch orig _) with (Some (false, orig + 2 + signed 8 (u8 (t - orig - 2)), nops 3 ++ k)).
    do 3 f_equal. unfold u8, signed, wrap. rewrite Z.mod_mod by lia. pose proof (signed_id 8 (t - orig - 2)) as E.
    unfold signed, wrap in E. rewrite E by lia. lia.
  - destruct (Z.eqb_spec ((t - orig - 2) .& 0xff) (t - orig - 2)) as [E|]; [|by apply Five].
    change 0xff with (2 ^ 8 - 1) in E. rewrite land_mask in E by lia. pose proof (Z.mod_pos_bound (t - orig - 2) (2 ^ 8)). lia.
Qed.

(** ** One entry *)

Definition instr_at (p : Z) (a : alt_instr) : Z := p + instr_offset a.
Definition repl_at (p : Z) (a : alt_instr) : Z := p + 4 + repl_offset a.
Definition size_of (a : alt_instr) : Z := Z.max (instrlen a) (replacementlen a).

(** The bytes that are overwritten. *)
Definition covers (p : Z) (a : alt_instr) (x : Z) : Prop := instr_at p a ≤ x < instr_at p a + size_of a.

Definition old_code (m : Z → Z) (p : Z) (a : alt_instr) : list Z := load m (repl_at p a) (replacementlen a).

(** The replacement is one jump or call of five bytes. *)
Definition far_branch (m : Z → Z) (p : Z) (a : alt_instr) : Prop :=
  replacementlen a = 5 ∧ (m (repl_at p a) = 0xe9 ∨ m (repl_at p a) = 0xe8).

#[local] Instance far_branch_dec m p a : Decision (far_branch m p a).
Proof. unfold far_branch. apply _. Defined.

(** An entry the assembler makes: lengths that fit in the buffer, a known feature, no short
    jump with more bytes behind it, and a target in reach of the new place. *)
Definition alt_ok (m : Z → Z) (p : Z) (a : alt_instr) : Prop :=
  0 ≤ instrlen a ≤ MAX_PATCH_LEN ∧ 0 ≤ replacementlen a ≤ MAX_PATCH_LEN ∧ 0 ≤ cpuid a < (NCAPINTS + NBUGINTS) * 32 ∧
  ¬ (replacementlen a = 5 ∧ m (repl_at p a) = 0xeb) ∧
  (far_branch m p a → - 2 ^ 31 + 5 ≤ repl_at p a + 5 + get_dspl (old_code m p a) - instr_at p a < 2 ^ 31).

(** In [m'] the instruction does what its replacement does in [m]: it goes where that one goes,
    or it is that one, and what follows does nothing. *)
Definition replaced (m : Z → Z) (p : Z) (a : alt_instr) (m' : Z → Z) : Prop :=
  let old := old_code m p a in let new := load m' (instr_at p a) (size_of a) in
  ∃ r, nop_seq r ∧
    if decide (far_branch m p a) then
      branch (instr_at p a) new = Some (m (repl_at p a) =? 0xe8, repl_at p a + 5 + get_dspl old, r)
    else new = old ++ r.

Lemma load_ext m m' a n : (∀ x, a ≤ x < a + n → m' x = m x) → load m' a n = load m a n.
Proof.
  intros Hx. unfold load. apply list_fmap_ext. intros i k Hk. apply lookup_seq in Hk as [-> Hk]. apply Hx. lia.
Qed.

Lemma load_len m a n : 0 ≤ n → Z.of_nat (length (load m a n)) = n.
Proof. intros Hn. unfold load. rewrite length_fmap, length_seq. lia. Qed.

Lemma load_poke a l m : load (text_poke_early a l m) a (Z.of_nat (length l)) = l.
Proof.
  unfold load. rewrite Nat2Z.id. apply list_eq. intros i. rewrite list_lookup_fmap.
  destruct (decide (i < length l)%nat) as [Hi|Hi].
  - rewrite lookup_seq_lt by done. simpl. unfold text_poke_early. rewrite decide_True by lia.
    replace (Z.to_nat (a + Z.of_nat i - a)) with i by lia.
    destruct (lookup_lt_is_Some_2 l i Hi) as [x ->]. done.
  - rewrite lookup_seq_ge by lia. symmetry. apply lookup_ge_None. lia.
Qed.

Lemma load5 m a : load m a 5 = [m a; m (a + 1); m (a + 2); m (a + 3); m (a + 4)].
Proof. unfold load. simpl. by rewrite Z.add_0_r. Qed.

(** The buffer before it is filled up. *)
Lemma buffer_spec m p a (i := instr_at p a) (r := repl_at p a) (old := old_code m p a) :
  alt_ok m p a →
  let buf := if bool_decide (old !! 0%nat = Some 0xe8) && (replacementlen a =? 5)
             then put_dspl (s32 (get_dspl old + (r - i))) old else old in
  let buf := if negb (replacementlen a =? 0) && is_jmp (m r) then recompute_jump a i r buf else buf in
  Z.of_nat (length buf) = replacementlen a ∧
  if decide (far_branch m p a) then
    ∃ t, nop_seq t ∧ ∀ k, branch i (buf ++ k) = Some (m r =? 0xe8, r + 5 + get_dspl old, t ++ k)
  else buf = old.
Proof.
  intros (Hi & Hr & _ & Hs & Ht). fold i r old in Ht, Hs |- *. cbv zeta. pose proof (load_len m r (replacementlen a) ltac:(lia)) as Hlen.
  destruct (Z.eqb_spec (replacementlen a) 5) as [E5|N5].
  - assert (old = [m r; m (r + 1); m (r + 2); m (r + 3); m (r + 4)]) as Eo by (unfold old, old_code; rewrite E5; apply load5).
    rewrite E5, andb_true_r. simpl (negb _ && _).
    destruct (decide (far_branch m p a)) as [Hf|Hf].
    + specialize (Ht Hf). destruct Hf as [_ [E|E]]; fold r in E; rewrite E in *; rewrite Eo in *.
      * rewrite bool_decide_eq_false_2 by done. change (is_jmp 0xe9) with true. cbv iota.
        destruct (recompute_jump_spec a i r (m (r + 1)) (m (r + 2)) (m (r + 3)) (m (r + 4)) E5 Ht) as (L & t & B & N).
        split; [by rewrite L|]. exists t. by split.
      * rewrite bool_decide_eq_true_2 by done. change (is_jmp 0xe8) with false. cbv iota.
        set (d := get_dspl _) in *. rewrite s32_id by lia.
        destruct (get_put_dspl (d + (r - i)) 0xe8 (m (r + 1)) (m (r + 2)) (m (r + 3)) (m (r + 4)) [] ltac:(lia)) as [-> _].
        split; [done|]. exists []. split; [apply nop_seq_nil|]. intros k.
        change (branch i _) with (Some (true, i + 5 + get_dspl (0xe8 :: bytes_of (d + (r - i)) ++ k), k)).
        assert (get_dspl (0xe8 :: bytes_of (d + (r - i)) ++ k) = d + (r - i)) as -> by (simpl; apply dword_bytes; lia).
        do 3 f_equal. lia.
    + assert (m r ≠ 0xe9 ∧ m r ≠ 0xe8 ∧ m r ≠ 0xeb) as (N1 & N2 & N3) by (split; [|split]; intros E; first [apply Hf; split; [done|tauto]|by apply Hs]).
      rewrite bool_decide_eq_false_2 by (rewrite Eo; simpl; congruence). unfold is_jmp.
      rewrite (proj2 (Z.eqb_neq _ _) N1), (proj2 (Z.eqb_neq _ _) N3). rewrite Eo. done.
  - rewrite andb_false_r, decide_False by (intros [? _]; done).
    assert (recompute_jump a i r old = old) as -> by (unfold recompute_jump; by rewrite (proj2 (Z.eqb_neq _ _) N5)).
    destruct (_ && _); done.
Qed.

Lemma apply_one_run m p a : alt_ok m p a →
  ∃ m', apply_one p a m = Ret tt m' ∧ replaced m p a m' ∧ ∀ x, ¬ covers p a x → m' x = m x.
Proof.
  intros Hok. pose proof (buffer_spec m p a Hok) as HB. cbv zeta in HB. pose proof Hok as (Hi & Hr & Hc & _).
  unfold apply_one. rewrite (proj2 (Z.ltb_ge MAX_PATCH_LEN (instrlen a))) by lia.
  rewrite (proj2 (Z.leb_gt _ (cpuid a))) by lia. rewrite (proj2 (Z.ltb_ge MAX_PATCH_LEN (replacementlen a))) by lia.
  unfold mbind, M_bind, ASSERT, gets, modify. cbn [negb]. cbv iota.
  fold (instr_at p a) (repl_at p a). fold (old_code m p a).
  set (buf := if negb (replacementlen a =? 0) && _ then _ else _) in *. destruct HB as [HL HB].
  set (pad := if replacementlen a <? instrlen a then nops (instrlen a - replacementlen a) else []).
  assert (nop_seq pad ∧ Z.of_nat (length pad) = size_of a - replacementlen a) as [Hp1 Hp2].
  { unfold pad, size_of. destruct (Z.ltb_spec (replacementlen a) (instrlen a)).
    - destruct (nops_spec (instrlen a - replacementlen a)) as [? ->]; [lia|]. split; [done|lia].
    - split; [apply nop_seq_nil|simpl; lia]. }
  assert ((if replacementlen a <? instrlen a then buf ++ nops (instrlen a - replacementlen a) else buf) = buf ++ pad) as ->
    by (unfold pad; destruct (_ <? _); by rewrite ?app_nil_r).
  assert (Z.of_nat (length (buf ++ pad)) = size_of a) as Hs by (rewrite length_app; lia).
  eexists. split; [reflexivity|]. split.
  - unfold replaced. cbv zeta. rewrite <- Hs, load_poke. case_decide.
    + destruct HB as (t & Hn & HB). exists (t ++ pad). split; [by apply nop_seq_app|apply HB].
    + exists pad. split; [done|]. by rewrite HB.
  - intros x Hx. unfold text_poke_early. rewrite decide_False; [done|]. rewrite Hs. done.
Qed.

(** ** The table *)

(** The table at [p]: an entry overwrites no instruction and no replacement of a later one. *)
Fixpoint table_ok (m : Z → Z) (p : Z) (l : list alt_instr) : Prop :=
  match l with
  | [] => True
  | a :: l =>
      alt_ok m p a ∧ table_ok m (p + 16) l ∧
      ∀ i b x, l !! i = Some b → let q := p + 16 + 16 * Z.of_nat i in
        covers p a x → ¬ covers q b x ∧ ¬ repl_at q b ≤ x < repl_at q b + replacementlen b
  end.

Lemma far_branch_ext m m' p a : (∀ x, repl_at p a ≤ x < repl_at p a + replacementlen a → m' x = m x) →
  far_branch m' p a ↔ far_branch m p a.
Proof.
  intros Hx. unfold far_branch. destruct (decide (replacementlen a = 5)) as [E|]; [|tauto]. rewrite Hx by lia. done.
Qed.

Lemma alt_ok_ext m m' p a : (∀ x, repl_at p a ≤ x < repl_at p a + replacementlen a → m' x = m x) →
  alt_ok m p a → alt_ok m' p a.
Proof.
  intros Hx (H1 & H2 & H3 & H4 & H5). do 3 (split; [done|]). split.
  - intros [E1 E2]. apply H4. by rewrite <- Hx by lia.
  - rewrite far_branch_ext by done. intros Hf. unfold old_code in *. rewrite (load_ext m) by done. by apply H5.
Qed.

Lemma table_ok_ext m m' p l :
  (∀ i b x, l !! i = Some b → let q := p + 16 * Z.of_nat i in repl_at q b ≤ x < repl_at q b + replacementlen b → m' x = m x) →
  table_ok m p l → table_ok m' p l.
Proof.
  revert p. induction l as [|a l IH]; intros p Hx; simpl; [done|]. intros (Ha & Hl & Hd). split; [|split; [|done]].
  - eapply alt_ok_ext; [|done]. intros x Hr. apply (Hx 0%nat a); [done|]. by rewrite Z.add_0_r.
  - apply IH; [|done]. intros i b x Hi q Hr. apply (Hx (S i) b); [done|].
    by replace (p + 16 * Z.of_nat (S i)) with q by (unfold q; lia).
Qed.

Lemma replaced_ext m1 m p a m' : alt_ok m p a →
  (∀ x, repl_at p a ≤ x < repl_at p a + replacementlen a → m1 x = m x) → replaced m1 p a m' → replaced m p a m'.
Proof.
  intros (_ & Hl & _) Hx (r & Hr & HB). exists r. split; [done|]. unfold old_code in *. rewrite (load_ext m m1) in HB by done.
  pose proof (far_branch_ext m m1 p a Hx) as E. repeat case_decide; try tauto.
  unfold far_branch in *. by rewrite Hx in HB by lia.
Qed.

Lemma replaced_keep m p a m1 m' : (∀ x, covers p a x → m' x = m1 x) → replaced m p a m1 → replaced m p a m'.
Proof. intros Hx (r & Hr & HB). exists r. split; [done|]. by rewrite (load_ext m1 m') by done. Qed.


(** A jump that becomes short, and an instruction that is filled up. *)
Definition demo_text : Z → Z := λ x,
  if x =? 0x2000 then 0xe9 else if x =? 0x2001 then 0x4b else if x =? 0x2002 then 0xf0 else
  if (x =? 0x2003) || (x =? 0x2004) then 0xff else if x =? 0x2005 then 0xc3 else 0.

Definition demo_alts : list alt_instr := [mk_alt 0x0 0xffc 1 7 5 0; mk_alt 0x20 0xff1 2 3 1 0].

Lemma demo_alts_ok : table_ok demo_text 0x1000 demo_alts.
Proof.
  split; [|split; [split; [|split; [done|intros i b x Hi; discriminate Hi]]|]].
  1, 2: unfold alt_ok, far_branch, MAX_PATCH_LEN, NCAPINTS, NBUGINTS; cbn [instrlen replacementlen cpuid];
    do 3 (split; [lia|]); split; [intros [? E]; vm_compute in E; congruence|intros [? _]].
  - change (get_dspl (old_code demo_text 0x1000 (mk_alt 0x0 0xffc 1 7 5 0))) with (-4021). unfold repl_at, instr_at. simpl. lia.
  - lia.
  - intros [|i] b x Hi; [injection Hi as <-|discriminate Hi].
    unfold covers, size_of, instr_at, repl_at. cbn [instr_offset repl_offset instrlen replacementlen]. lia.
Qed.

