(* ===== verification/Acpi.v ===== *)
(** * The ACPI tables (arch/x86_64/acpi.c)

    The kernel finds the processors and the I/O APIC in the tables of the firmware.  Memory
    is a function from physical addresses to bytes, which the code only reads, through the
    window of IO2V; the
    comparison of signatures is that of two lists of bytes.  init_cpu is represented by the
    list of its calls, of which nr_cpu is the length.  The messages are left out. *)

From Stdlib Require Import Lia ZArith.
From stdpp Require Import base list numbers option.
From S2P Require Import Prelude Pgtable.

#[local] Open Scope Z_scope.
#[local] Open Scope yaos_scope.

Record acpi : Type := mk_acpi { cpus : list Z; ioapicid : Z; ismp : Z; lapic_base : Z }.

Section acpi.
Context (m : Z → Z).

(** ** The code *)

Definition IO2V (addr : Z) : Z := u64 (addr + IO_MEM_BASE).

Definition bytes (a : Z) (n : nat) : list Z := (λ i, m (a + Z.of_nat i)) <$> seq 0 n.
Definition word32 (a : Z) : Z := m a + 2 ^ 8 * m (a + 1) + 2 ^ 16 * m (a + 2) + 2 ^ 24 * m (a + 3).

Definition SIG_RDSP : list Z := [0x52; 0x53; 0x44; 0x20; 0x50; 0x54; 0x52; 0x20].
Definition SIG_MADT : list Z := [0x41; 0x50; 0x49; 0x43].

(** [sum & 0xff] of the first 20 bytes. *)
Definition checksum (p : Z) : Z := u32 (foldr Z.add 0 (bytes p 20)) .& 0xff.

(** [0] is the null pointer. *)
Fixpoint scan_rdsp (fuel : nat) (p len : Z) : option Z :=
  if len <? 36 then Some 0
  else
    match fuel with
    | O => None
    | S fuel =>
        if bool_decide (bytes p 8 = SIG_RDSP) && (checksum p =? 0) then Some p
        else scan_rdsp fuel (p + 4) (u32 (len - 4))
    end.

(** [None] would be a loop that does not end. *)
Definition find_rdsp : option Z :=
  let pa := (m 0x40E + 2 ^ 8 * m 0x40F) .<< 4 in
  rdsp ← (if pa =? 0 then Some 0 else scan_rdsp 256 pa 1024);
  if rdsp =? 0 then scan_rdsp 32768 0xE0000 0x20000 else Some rdsp.

Definition init_cpu (apicid : Z) : M acpi unit :=
  modify (λ s, mk_acpi (cpus s ++ [apicid]) (ioapicid s) (ismp s) (lapic_base s)).

Definition set_ioapic (i : Z) : M acpi unit := modify (λ s, mk_acpi (cpus s) i (ismp s) (lapic_base s)).

(** The record at [p], of [len] bytes; [n] is nioapic. *)
Definition madt_record (p len n : Z) : M acpi Z :=
  if m p =? 0 then
    if len <? 8 then mret n
    else if word32 (p + 4) .& 1 =? 0 then mret n
    else init_cpu (m (p + 3)) ;; mret n
  else if m p =? 1 then
    if len <? 12 then mret n
    else (if negb (n =? 0) then mret tt else set_ioapic (m (p + 2))) ;; mret (u32 (n + 1))
  else mret n.

Fixpoint madt_loop (fuel : nat) (p e n : Z) : M acpi unit :=
  if negb (p <? e) then mret tt
  else if e - p <? 2 then mret tt
  else
    let len := m (p + 1) in
    if e - p <? len then mret tt
    else
      match fuel with
      | O => out_of_fuel
      | S fuel => n ← madt_record p len n; madt_loop fuel (p + len) e n
      end.

Definition acpi_config_smp (fuel : nat) (madt : Z) : M acpi Z :=
  if madt =? 0 then mret (-1)
  else
    let len := word32 (madt + 4) in
    if len <? 44 then mret (-1)
    else
      let lapic_addr := word32 (madt + 36) in
      madt_loop fuel (madt + 44) (madt + 44 + len - 44) 0 ;;
      nr_cpu ← gets (λ s, Z.of_nat (length (cpus s)));
      if negb (nr_cpu =? 0) then
        modify (λ s, mk_acpi (cpus s) (ioapicid s) 1 (IO2V lapic_addr)) ;; mret 0
      else mret (-1).

(** The loop over the [count] entries of the table at [rsdt] from [n] on. *)
Fixpoint find_madt (count : nat) (rsdt n madt : Z) : Z :=
  match count with
  | O => madt
  | S count =>
      let hdr := word32 (rsdt + 36 + 4 * n) in
      find_madt count rsdt (n + 1) (if bool_decide (bytes hdr 4 = SIG_MADT) then hdr else madt)
  end.

(** A null pointer is read at once. *)
Definition init_acpi (fuel : nat) : M acpi Z :=
  rdsp ← deref find_rdsp;
  if rdsp =? 0 then fault
  else
    let rsdt := word32 (rdsp + 16) in
    let count := u32 ((u64 (word32 (rsdt + 4) - 36)) / 4) in
    acpi_config_smp fuel (find_madt (Z.to_nat count) rsdt 0 0).

(** ** The search for the root pointer *)

Definition is_rdsp (p : Z) : Prop := bytes p 8 = SIG_RDSP ∧ checksum p = 0.

(** The first place among [base], [base + 4], ... *)
Definition first_rdsp (base : Z) (n : Z) (r : Z) : Prop :=
  (∃ k, 0 ≤ k < n ∧ r = base + 4 * k ∧ is_rdsp r ∧ ∀ j, 0 ≤ j < k → ¬ is_rdsp (base + 4 * j)) ∨
  (r = 0 ∧ ∀ j, 0 ≤ j < n → ¬ is_rdsp (base + 4 * j)).

Lemma scan_rdsp_run fuel p len : 32 ≤ len < 2 ^ 32 → len mod 4 = 0 → len / 4 ≤ Z.of_nat fuel + 8 →
  ∃ r, scan_rdsp fuel p len = Some r ∧ first_rdsp p (len / 4 - 8) r.
Proof.
  revert p len. induction fuel as [|fuel IH]; intros p len Hl Hm Hf; pose proof (Z.div_mod len 4); simpl.
  - rewrite (proj2 (Z.ltb_lt _ _)) by lia. exists 0. split; [done|]. right. split; [done|lia].
  - destruct (Z.ltb_spec len 36). { exists 0. split; [done|]. right. split; [done|lia]. }
    destruct (bool_decide _ && _) eqn:Ec.
    + apply andb_true_iff in Ec as [E1 E2]. exists p. split; [done|]. left. exists 0. split; [lia|].
      split; [lia|]. split; [split; [by apply bool_decide_eq_true in E1|by apply Z.eqb_eq in E2]|lia].
    + assert (¬ is_rdsp p) as Hn.
      { intros [E1 E2]. by rewrite bool_decide_eq_true_2, E2 in Ec. }
      rewrite u32_small by lia.
      assert ((len - 4) mod 4 = 0 ∧ (len - 4) / 4 = len / 4 - 1) as [Hm' Hd'].
      { replace (len - 4) with (len + (-1) * 4) by lia. rewrite Z.mod_add, Z.div_add by lia. done. }
      destruct (IH (p + 4) (len - 4)) as (r & E & HR); [lia|done|lia|]. exists r. split; [done|].
      assert (∀ k, (∀ j, 0 ≤ j < k → ¬ is_rdsp (p + 4 + 4 * j)) → ∀ j, 0 ≤ j < k + 1 → ¬ is_rdsp (p + 4 * j)) as Hj.
      { intros k Hk j Hj. destruct (decide (j = 0)) as [->|]; [by rewrite Z.add_0_r|].
        replace (p + 4 * j) with (p + 4 + 4 * (j - 1)) by lia. apply Hk. lia. }
      destruct HR as [(k & Hk & -> & Hr & Hb)|[-> Hb]].
      * left. exists (k + 1). split; [lia|]. split; [lia|]. split; [done|]. by apply Hj.
      * right. split; [done|]. intros j Hjr. apply (Hj _ Hb). lia.
Qed.

(** ** The records *)

(** The table from [p] on is the records [bs], each with its length in its second byte. *)
Fixpoint laid (p : Z) (bs : list (list Z)) : Prop :=
  match bs with
  | [] => True
  | b :: bs =>
      bytes p (length b) = b ∧ (2 ≤ length b)%nat ∧ b !! 1%nat = Some (Z.of_nat (length b)) ∧
      laid (p + Z.of_nat (length b)) bs
  end.

Definition size_of (bs : list (list Z)) : Z := foldr (λ b n, Z.of_nat (length b) + n) 0 bs.

(** The identifier of a processor that is enabled, and of an I/O APIC. *)
Definition lapic_of (b : list Z) : option Z :=
  match b with
  | t :: _ :: _ :: i :: f0 :: _ :: _ :: _ :: _ => if (t =? 0) && Z.odd f0 then Some i else None
  | _ => None
  end.

Definition ioapic_of (b : list Z) : option Z :=
  match b with
  | t :: _ :: i :: _ :: _ :: _ :: _ :: _ :: _ :: _ :: _ :: _ :: _ => if t =? 1 then Some i else None
  | _ => None
  end.

Lemma bytes_lookup p b i : bytes p (length b) = b → (i < length b)%nat → b !! i = Some (m (p + Z.of_nat i)).
Proof. intros E Hi. rewrite <- E. unfold bytes. by rewrite list_lookup_fmap, lookup_seq_lt. Qed.

Lemma flag_odd p : word32 p .& 1 =? 0 = negb (Z.odd (m p)).
Proof.
  change 1 with (2 ^ 1 - 1). rewrite land_mask by lia. unfold word32. change (2 ^ 1) with 2.
  replace (m p + 2 ^ 8 * m (p + 1) + 2 ^ 16 * m (p + 2) + 2 ^ 24 * m (p + 3)) with
    (m p + (2 ^ 7 * m (p + 1) + 2 ^ 15 * m (p + 2) + 2 ^ 23 * m (p + 3)) * 2) by lia.
  rewrite Z.mod_add, Zmod_odd by lia. by destruct (Z.odd (m p)).
Qed.

Definition add_record (b : list Z) (n : Z) (s : acpi) : acpi :=
  mk_acpi (cpus s ++ option_list (lapic_of b))
    (if n =? 0 then default (ioapicid s) (ioapic_of b) else ioapicid s) (ismp s) (lapic_base s).

Definition next_n (b : list Z) (n : Z) : Z := match ioapic_of b with Some _ => u32 (n + 1) | None => n end.

Lemma record_run p b n s : bytes p (length b) = b → (2 ≤ length b)%nat →
  madt_record p (Z.of_nat (length b)) n s = Ret (next_n b n) (add_record b n s).
Proof.
  intros Eb Hl. pose proof (λ i, bytes_lookup p b i Eb) as Hb.
  assert (m p = default 0 (b !! 0%nat)) as E0 by (rewrite (Hb 0%nat) by lia; by rewrite Z.add_0_r).
  unfold madt_record, add_record, next_n. destruct s as [cs io mp lb]. cbn [cpus ioapicid ismp lapic_base].
  destruct (Z.eqb_spec (m p) 0) as [E|N0].
  - assert (ioapic_of b = None) as ->.
    { unfold ioapic_of. do 12 (destruct b as [|? b]; [done|]). simpl in E0. by rewrite <- E0, E. }
    destruct (Z.ltb_spec (Z.of_nat (length b)) 8).
    + assert (lapic_of b = None) as -> by (do 8 (destruct b as [|? b]; [done|]); simpl in *; lia).
      rewrite app_nil_r. by destruct (n =? 0).
    + rewrite flag_odd. pose proof (Hb 3%nat ltac:(lia)) as H3. pose proof (Hb 4%nat ltac:(lia)) as H4.
      change (Z.of_nat 3) with 3 in H3. change (Z.of_nat 4) with 4 in H4.
      assert (lapic_of b = if Z.odd (m (p + 4)) then Some (m (p + 3)) else None) as ->.
      { do 8 (destruct b as [|? b]; [simpl in *; lia|]). simpl in E0, H3, H4. simpl. injection H3 as ->. injection H4 as ->.
        by rewrite <- E0, E. }
      destruct (Z.odd (m (p + 4))); cbn; [|rewrite app_nil_r]; by destruct (n =? 0).
  - assert (lapic_of b = None) as ->.
    { unfold lapic_of. do 8 (destruct b as [|? b]; [done|]). simpl in E0. rewrite <- E0. by rewrite (proj2 (Z.eqb_neq _ _) N0). }
    cbn [option_list]. rewrite app_nil_r. destruct (Z.eqb_spec (m p) 1) as [E|N1].
    + destruct (Z.ltb_spec (Z.of_nat (length b)) 12).
      * assert (ioapic_of b = None) as -> by (do 12 (destruct b as [|? b]; [done|]); simpl in *; lia). by destruct (n =? 0).
      * pose proof (Hb 2%nat ltac:(lia)) as H2. change (Z.of_nat 2) with 2 in H2.
        assert (ioapic_of b = Some (m (p + 2))) as ->.
        { do 12 (destruct b as [|? b]; [simpl in *; lia|]). simpl in E0, H2. injection H2 as ->. simpl. by rewrite <- E0, E. }
        by destruct (n =? 0).
    + assert (ioapic_of b = None) as ->.
      { unfold ioapic_of. do 12 (destruct b as [|? b]; [done|]). simpl in E0. rewrite <- E0. by rewrite (proj2 (Z.eqb_neq _ _) N1). }
      by destruct (n =? 0).
Qed.

Lemma madt_loop_run fuel p bs n s : laid p bs → (length bs ≤ fuel)%nat → 0 ≤ n → n + Z.of_nat (length bs) < 2 ^ 32 →
  madt_loop fuel p (p + size_of bs) n s =
  Ret tt (mk_acpi (cpus s ++ omap lapic_of bs)
            (if n =? 0 then default (ioapicid s) (head (omap ioapic_of bs)) else ioapicid s) (ismp s) (lapic_base s)).
Proof.
  revert fuel p n s. induction bs as [|b bs IH]; intros fuel p n s Hl Hf Hn Hb.
  { destruct s. cbn [size_of foldr]. rewrite Z.add_0_r, app_nil_r.
    destruct fuel; simpl; rewrite Z.ltb_irrefl; simpl; by destruct (n =? 0). }
  destruct Hl as (Eb & H2 & H1 & Hl). destruct fuel as [|fuel]; [simpl in Hf; lia|].
  pose proof (bytes_lookup p b 1 Eb ltac:(lia)) as E1. rewrite H1 in E1. injection E1 as E1. change (Z.of_nat 1) with 1 in E1.
  assert (0 ≤ size_of bs) by (clear; induction bs; simpl; lia).
  cbn [madt_loop size_of foldr]. fold (size_of bs). rewrite <- E1.
  rewrite (proj2 (Z.ltb_lt p _)) by lia. rewrite (proj2 (Z.ltb_ge _ 2)) by lia. rewrite (proj2 (Z.ltb_ge _ (Z.of_nat (length b)))) by lia.
  cbn [negb]. cbv iota zeta. rewrite (bind_ret _ _ _ _ _ (record_run p b n s Eb H2)).
  replace (p + (Z.of_nat (length b) + size_of bs)) with (p + Z.of_nat (length b) + size_of bs) by lia.
  simpl in Hf, Hb. assert (next_n b n = match ioapic_of b with Some _ => n + 1 | None => n end) as En.
  { unfold next_n. destruct (ioapic_of b); [|done]. apply u32_small. lia. }
  rewrite IH by (done || rewrite ?En; destruct (ioapic_of b); lia). unfold add_record. cbn [cpus ioapicid ismp lapic_base].
  simpl omap. rewrite En. f_equal. f_equal.
  - rewrite <- app_assoc. by destruct (lapic_of b).
  - destruct (ioapic_of b); simpl; [rewrite (proj2 (Z.eqb_neq (n + 1) 0)) by lia|]; by destruct (n =? 0).
Qed.

(** A record whose length is given as 0 keeps the loop at its place. *)
Lemma madt_loop_stuck fuel p e n s : p + 2 ≤ e → m (p + 1) = 0 → madt_loop fuel p e n s = NoFuel.
Proof.
  intros He E. revert n s. induction fuel as [|fuel IH]; intros n s; simpl; rewrite E;
    rewrite (proj2 (Z.ltb_lt p e)), (proj2 (Z.ltb_ge _ 2)), (proj2 (Z.ltb_ge _ 0)) by lia; [done|].
  cbn [negb]. cbv iota. assert (madt_record p 0 n s = Ret n s) as Er.
  { unfold madt_record. by destruct (m p =? 0), (m p =? 1). }
  rewrite (bind_ret _ _ _ _ _ Er), Z.add_0_r. apply IH.
Qed.

(** ** The whole *)

Definition ebda : Z := 16 * (m 0x40E + 2 ^ 8 * m 0x40F).

(** The root pointer is looked for in the first KiB of the extended BIOS data, then below 1 MiB. *)
Lemma find_rdsp_run : ∃ r, find_rdsp = Some r ∧
  (first_rdsp ebda 248 r ∧ ebda ≠ 0 ∧ r ≠ 0 ∨
   (ebda = 0 ∨ first_rdsp ebda 248 0) ∧ first_rdsp 0xE0000 32760 r).
Proof.
  unfold find_rdsp. assert ((m 0x40E + 2 ^ 8 * m 0x40F) .<< 4 = ebda) as -> by (rewrite Z.shiftl_mul_pow2 by lia; unfold ebda; lia).
  destruct (scan_rdsp_run 32768 0xE0000 0x20000) as (r2 & E2 & H2); [lia|done|by vm_compute|].
  cbv zeta. destruct (Z.eqb_spec ebda 0) as [E|N].
  - exists r2. split; [exact E2|]. right. split; [by left|exact H2].
  - destruct (scan_rdsp_run 256 ebda 1024) as (r & E & HR); [lia|done|by vm_compute|]. rewrite E. cbn [mbind option_bind].
    destruct (Z.eqb_spec r 0) as [->|Nr].
    + exists r2. split; [exact E2|]. right. split; [right; exact HR|exact H2].
    + exists r. split; [done|]. left. by split.
Qed.

(** The last entry with the signature. *)
Definition madt_of (ts : list Z) : option Z := head (reverse (filter (λ t, bytes t 4 = SIG_MADT) ts)).

Lemma find_madt_run ts rsdt n madt : (∀ i t, ts !! i = Some t → word32 (rsdt + 36 + 4 * (n + Z.of_nat i)) = t) →
  find_madt (length ts) rsdt n madt = default madt (madt_of ts).
Proof.
  revert n madt. induction ts as [|t ts IH]; intros n madt Ht; [done|]. cbn [length find_madt].
  pose proof (Ht 0%nat t eq_refl) as E. change (Z.of_nat 0) with 0 in E. rewrite Z.add_0_r in E. rewrite E.
  rewrite IH by (intros i x Hx; rewrite <- (Ht (S i) x Hx); f_equal; lia).
  unfold madt_of. rewrite filter_cons. case_decide as Hd.
  - rewrite bool_decide_eq_true_2, reverse_cons by done. by destruct (reverse _).
  - by rewrite bool_decide_eq_false_2.
Qed.

(** C12. With a root pointer, a table of tables [ts] and in it a table of records [bs], the
    processors are the enabled ones of the records, in their order, and the I/O APIC is the
    first one. *)
Theorem init_acpi_correct fuel r ts madt bs s (rsdt := word32 (r + 16)) :
  find_rdsp = Some r → r ≠ 0 →
  word32 (rsdt + 4) = 36 + 4 * Z.of_nat (length ts) → 36 + 4 * Z.of_nat (length ts) < 2 ^ 32 →
  (∀ i t, ts !! i = Some t → word32 (rsdt + 36 + 4 * Z.of_nat i) = t) →
  madt_of ts = Some madt → madt ≠ 0 → word32 (madt + 4) = 44 + size_of bs → laid (madt + 44) bs →
  (length bs ≤ fuel)%nat → Z.of_nat (length bs) < 2 ^ 32 →
  let cs := cpus s ++ omap lapic_of bs in let io := default (ioapicid s) (head (omap ioapic_of bs)) in
  init_acpi fuel s =
  if decide (cs = []) then Ret (-1) (mk_acpi cs io (ismp s) (lapic_base s))
  else Ret 0 (mk_acpi cs io 1 (IO2V (word32 (madt + 36)))).
Proof.
  intros Er Hr El Hlen Ht Em Hm Es Hl Hf Hb cs io. unfold init_acpi. rewrite Er.
  unfold mbind at 1, M_bind at 1, deref, mret at 1, M_ret at 1. rewrite (proj2 (Z.eqb_neq r 0)) by done. cbv zeta. fold rsdt.
  rewrite El. replace (36 + 4 * Z.of_nat (length ts) - 36) with (Z.of_nat (length ts) * 4) by lia.
  rewrite u64_id by (unfold in_u; lia). rewrite Z.div_mul, u32_small, Nat2Z.id by lia.
  rewrite find_madt_run by done. rewrite Em. change (default 0 (Some madt)) with madt. unfold acpi_config_smp. rewrite (proj2 (Z.eqb_neq madt 0)) by done.
  cbv zeta. rewrite Es. assert (0 ≤ size_of bs) by (clear; induction bs; simpl; lia).
  rewrite (proj2 (Z.ltb_ge _ 44)) by lia.
  replace (madt + 44 + (44 + size_of bs) - 44) with (madt + 44 + size_of bs) by lia.
  rewrite (bind_ret _ _ _ _ _ (madt_loop_run fuel _ bs 0 s Hl Hf ltac:(lia) ltac:(lia))). fold cs.
  change (0 =? 0) with true. cbv iota. fold io. unfold mbind, M_bind, gets. cbn [cpus]. case_decide as Hc.
  - by rewrite Hc.
  - destruct cs as [|c l]; [done|]. by cbn.
Qed.

End acpi.

(** ** An example: two enabled processors, one disabled, and an I/O APIC *)

Definition demo_records : list (list Z) :=
  [[0; 8; 0; 0; 1; 0; 0; 0]; [0; 8; 1; 2; 1; 0; 0; 0]; [1; 12; 5; 0; 0; 0; 0xc0; 0xfe; 0; 0; 0; 0]; [0; 8; 2; 4; 0; 0; 0; 0]].

Definition put (a : Z) (l : list Z) (m : Z → Z) : Z → Z :=
  λ x, if decide (a ≤ x < a + Z.of_nat (length l)) then default 0 (l !! Z.to_nat (x - a)) else m x.

(** The pointer at 0xE0040, the root table at 0x1000, the table of the processors at 0x2000. *)
Definition demo_firmware : Z → Z :=
  put 0xE0040 (SIG_RDSP ++ [0xd1; 0; 0; 0; 0; 0; 0; 0; 0; 0x10; 0; 0])
    (put 0x1004 [44; 0; 0; 0] (put 0x1024 [0; 0x30; 0; 0; 0; 0x20; 0; 0]
       (put 0x2000 (SIG_MADT ++ [80; 0; 0; 0]) (put 0x2024 [0; 0; 0xe0; 0xfe] (put 0x202c (concat demo_records) (λ _, 0)))))).

Lemma init_acpi_correct_witness :
  init_acpi demo_firmware 4 (mk_acpi [] 0 0 0) = Ret 0 (mk_acpi [0; 2] 5 1 (IO2V 0xfee00000)).
Proof.
  rewrite (init_acpi_correct demo_firmware 4 0xE0040 [0x3000; 0x2000] 0x2000 demo_records).
  - vm_compute. reflexivity.
  - vm_compute. reflexivity.
  - discriminate.
  - vm_compute. reflexivity.
  - simpl. lia.
  - intros [|[|i]] t Ht; [injection Ht as <-|injection Ht as <-|discriminate Ht]; vm_compute; reflexivity.
  - vm_compute. reflexivity.
  - discriminate.
  - vm_compute. reflexivity.
  - vm_compute. intuition lia.
  - simpl. lia.
  - simpl. lia.
Defined.
