(* ===== verification/Modload.v ===== *)
(** * Loading modules (kernel/module.c)

    The handlers of the modules are not part of this file: a handler is a function of the
    state [X] of the rest of the kernel, named by the number [hid] of its entry.  It answers 0 for a module that is
    loaded, -1 for one that is to be asked again, and anything else for one that is
    given up for this round.  On the first processor all entries of the table are asked in their order,
    and those that are not loaded are asked again, in at most nine more rounds. *)

From Stdlib Require Import Lia ZArith.
From stdpp Require Import base list numbers option.
From S2P Require Import Prelude.

#[local] Open Scope Z_scope.

Definition MOD_ERR_OK : Z := 0.
Definition MOD_ERR_NEXTLOOP : Z := -1.
Definition MOD_BPLOAD : Z := 0.
Definition MOD_APLOAD : Z := 1.
Definition MAX_MODULE_NR : nat := 256.

(** An entry of the table: whether it has a name, and its handler. *)
Record moduledata : Type := mk_moduledata { has_name : bool; evhand : option nat }.

(** An entry of [all]: the handler, and whether the status is MODULE_LOADED. *)
Definition module : Type := nat * bool.

Section modload.
Context {X : Type} (handler : nat → Z → M X Z).

(** ** The code *)

(** The loop over the table; [all] is the part of the array in use. *)
Fixpoint register_loop (ps : list moduledata) (all : list module) (found : bool) : M X (list module * bool) :=
  match ps with
  | [] => mret (all, found)
  | p :: ps =>
      match evhand p with
      | Some h =>
          if negb (has_name p) then register_loop ps all found
          else if negb (Nat.ltb (length all) MAX_MODULE_NR) then fault
          else
            ret ← handler h MOD_BPLOAD;
            register_loop ps (all ++ [(h, ret =? MOD_ERR_OK)]) (found || (ret =? MOD_ERR_NEXTLOOP))
      | None => register_loop ps all found
      end
  end.

(** One round over the modules that are not loaded. *)
Fixpoint retry_round (ms : list module) : M X (list module * bool) :=
  match ms with
  | [] => mret ([], false)
  | (h, true) :: ms => '(ms, f) ← retry_round ms; mret ((h, true) :: ms, f)
  | (h, false) :: ms =>
      ret ← handler h MOD_BPLOAD;
      '(ms, f) ← retry_round ms;
      mret ((h, ret =? MOD_ERR_OK) :: ms, (ret =? MOD_ERR_NEXTLOOP) || f)
  end.

(** [while (found && --times)] *)
Fixpoint retry_loop (times : nat) (ms : list module) (found : bool) : M X (list module * bool) :=
  if negb found then mret (ms, found)
  else
    match times with
    | S ((S _) as times) => '(ms, found) ← retry_round ms; retry_loop times ms found
    | _ => mret (ms, found)
    end.

(** The array and whether the last round left a module that asks to be called again. *)
Definition init_module (ps : list moduledata) : M X (list module * bool) :=
  '(all, found) ← register_loop ps [] false;
  retry_loop 10 all found.

(** On another processor, the modules loaded on the first one; the second flag is the status
    on this processor. *)
Fixpoint ap_round (ms : list (module * bool)) : M X (list (module * bool) * bool) :=
  match ms with
  | [] => mret ([], false)
  | ((h, true), false) :: ms =>
      ret ← handler h MOD_APLOAD;
      '(ms, f) ← ap_round ms;
      mret (((h, true), ret =? MOD_ERR_OK) :: ms, (ret =? MOD_ERR_NEXTLOOP) || f)
  | e :: ms => '(ms, f) ← ap_round ms; mret (e :: ms, f)
  end.

Fixpoint ap_loop (times : nat) (ms : list (module * bool)) (found : bool) : M X (list (module * bool) * bool) :=
  if negb found then mret (ms, found)
  else
    match times with
    | S ((S _) as times) => '(ms, found) ← ap_round ms; ap_loop times ms found
    | _ => mret (ms, found)
    end.

Definition init_module_ap (ms : list (module * bool)) : M X (list (module * bool) * bool) :=
  '(ms, found) ← ap_round ms;
  ap_loop 10 ms found.

(** ** Modules that wait for others *)

(** The handlers of the entries with a name. *)
Definition handlers (ps : list moduledata) : list nat :=
  omap (λ p, if has_name p then evhand p else None) ps.

Lemma register_is_round ps all found x : (length all + length (handlers ps) ≤ MAX_MODULE_NR)%nat →
  register_loop ps all found x =
  ('(ms, f) ← retry_round ((λ h, (h, false)) <$> handlers ps); mret (all ++ ms, found || f)) x.
Proof.
  revert all found x. induction ps as [|[nm [h|]] ps IH]; intros all found x Hl.
  - unfold mbind, M_bind, mret, M_ret. cbn. unfold mret, M_ret. by rewrite app_nil_r, orb_false_r.
  - destruct nm; cbn [register_loop evhand has_name negb handlers omap list_omap] in *; [|by apply IH].
    fold (handlers ps) in *. simpl in Hl. rewrite (proj2 (Nat.ltb_lt _ _)) by lia. cbn [negb fmap list_fmap retry_round].
    unfold mbind, M_bind in *. destruct (handler h MOD_BPLOAD x) as [r x1| | | | |]; try done.
    rewrite IH by (rewrite length_app; simpl; lia).
    destruct (retry_round _ x1) as [[ms f] x2| | | | |]; try done. cbn. by rewrite <- app_assoc, orb_assoc.
  - destruct nm; by apply IH.
Qed.

(** [loaded x k]: the module [k] works in the state [x]; [deps k]: the modules it needs.  A handler
    loads its module when these work, and asks to be called again otherwise. *)
Context (loaded : X → nat → Prop) (deps : nat → list nat) (rank : nat → nat).

Definition waits (h : nat) : Prop := ∀ x,
  (∃ x', handler h MOD_BPLOAD x = Ret MOD_ERR_OK x' ∧ loaded x' h ∧ ∀ k, loaded x k → loaded x' k) ∨
  (handler h MOD_BPLOAD x = Ret MOD_ERR_NEXTLOOP x ∧ ∃ d, d ∈ deps h ∧ ¬ loaded x d).

(** The state of the array: what is marked is loaded, and so is everything of a rank below [r]. *)
Definition progress (r : nat) (x : X) (ms : list module) : Prop :=
  ∀ h b, (h, b) ∈ ms → (b = true → loaded x h) ∧ ((rank h < r)%nat → b = true).

Lemma progress_cons r x h b ms : progress r x ((h, b) :: ms) ↔
  ((b = true → loaded x h) ∧ ((rank h < r)%nat → b = true)) ∧ progress r x ms.
Proof. unfold progress. setoid_rewrite elem_of_cons. naive_solver. Qed.

Lemma round_run r ms x :
  (∀ h, h ∈ ms.*1 → waits h ∧ ∀ d, d ∈ deps h → (rank d < rank h)%nat ∧ ((rank d < r)%nat → loaded x d)) → progress r x ms →
  ∃ ms' f x', retry_round ms x = Ret (ms', f) x' ∧ ms'.*1 = ms.*1 ∧ (∀ k, loaded x k → loaded x' k) ∧
    progress (S r) x' ms' ∧ (f = false ↔ Forall (λ e, e.2 = true) ms').
Proof.
  revert x. induction ms as [|[h b] ms IH]; intros x Hw Hp.
  { exists [], false, x. do 3 (split; [done|]). split; [intros ? ? []%elem_of_nil|by split]. }
  apply progress_cons in Hp as [[Hb Hr] Hp].
  destruct (Hw h ltac:(by apply elem_of_cons; left)) as [Hwh Hd].
  assert (∀ x1, (∀ k, loaded x k → loaded x1 k) → ∃ ms' f x', retry_round ms x1 = Ret (ms', f) x' ∧ ms'.*1 = ms.*1 ∧
    (∀ k, loaded x1 k → loaded x' k) ∧ progress (S r) x' ms' ∧ (f = false ↔ Forall (λ e, e.2 = true) ms')) as Next.
  { intros x1 Hm. apply IH.
    - intros k Hk. destruct (Hw k ltac:(by apply elem_of_cons; right)) as [? HD]. split; [done|].
      intros d Hdk. destruct (HD d Hdk). auto.
    - intros k c Hk. destruct (Hp k c Hk). auto. }
  destruct b; cbn [retry_round].
  - destruct (Next x) as (ms' & f & x' & E & E1 & Hm & HP & Hf); [done|]. rewrite (bind_ret _ _ _ _ _ E).
    exists ((h, true) :: ms'), f, x'. split; [done|]. split; [cbn; by rewrite E1|]. split; [done|].
    split; [apply progress_cons; split; [split; [intros _; by apply Hm, Hb|done]|done]|]. rewrite list.Forall_cons. cbn. tauto.
  - destruct (Hwh x) as [(x1 & E0 & Hl1 & Hm1)|(E0 & d & Hdd & Hnd)]; rewrite (bind_ret _ _ _ _ _ E0).
    + destruct (Next x1 Hm1) as (ms' & f & x' & E & E1 & Hm & HP & Hf). rewrite (bind_ret _ _ _ _ _ E).
      exists ((h, true) :: ms'), f, x'. split; [done|]. split; [cbn; by rewrite E1|]. split; [auto|].
      split; [apply progress_cons; split; [split; [intros _; by apply Hm|done]|done]|]. rewrite list.Forall_cons. cbn. tauto.
    + destruct (Next x) as (ms' & f & x' & E & E1 & Hm & HP & Hf); [done|]. rewrite (bind_ret _ _ _ _ _ E).
      exists ((h, false) :: ms'), true, x'. split; [done|]. split; [cbn; by rewrite E1|]. split; [done|].
      split; [|rewrite list.Forall_cons; cbn; by split; [|intros [? _]]]. apply progress_cons. split; [|done]. split; [done|]. intros Hrk.
      destruct (Hd d Hdd) as [H1 H2]. exfalso. apply Hnd, H2. lia.
Qed.

(** The modules of a table: their handlers wait for modules of the table of a lower rank. *)
Definition layered (hs : list nat) : Prop :=
  ∀ h, h ∈ hs → waits h ∧ ∀ d, d ∈ deps h → d ∈ hs ∧ (rank d < rank h)%nat.

Lemma round_progress r ms x : layered ms.*1 → progress r x ms →
  ∃ ms' f x', retry_round ms x = Ret (ms', f) x' ∧ ms'.*1 = ms.*1 ∧ progress (S r) x' ms' ∧
    (f = false ↔ Forall (λ e, e.2 = true) ms').
Proof.
  intros Hl Hp. destruct (round_run r ms x) as (ms' & f & x' & E & E1 & _ & HP & Hf); [|done|by exists ms', f, x'].
  intros h Hh. destruct (Hl h Hh) as [Hw HD]. split; [done|]. intros d Hd. destruct (HD d Hd) as [Hin Hrk]. split; [done|].
  intros Hr. apply list_elem_of_fmap in Hin as ([k b] & -> & Hk). destruct (Hp k b Hk). auto.
Qed.

Lemma progress_all r x ms : progress r x ms → (∀ h, h ∈ ms.*1 → (rank h < r)%nat) → Forall (λ e, e.2 = true) ms.
Proof.
  intros Hp Hr. apply list.Forall_forall. intros [h b] Hh. apply (Hp h b Hh), Hr. by apply (list_elem_of_fmap_2 fst _ (h, b)).
Qed.

Lemma retry_loop_run times r ms f x : layered ms.*1 → progress (S r) x ms → (f = false ↔ Forall (λ e, e.2 = true) ms) →
  (∀ h, h ∈ ms.*1 → (rank h < r + times)%nat) →
  ∃ ms' x', retry_loop times ms f x = Ret (ms', false) x' ∧ ms'.*1 = ms.*1 ∧ ∀ h b, (h, b) ∈ ms' → b = true ∧ loaded x' h.
Proof.
  intros Hl. revert r ms f x Hl. induction times as [|times IH]; intros r ms f x Hl Hp Hf Hr; destruct f; simpl.
  1: exfalso; assert (true = false); [|done]; apply Hf; eapply progress_all; [done|]; intros h Hh; specialize (Hr h Hh); lia.
  1, 3: exists ms, x; do 2 (split; [done|]); intros h b Hh; assert (b = true) as ->
    by (apply (proj1 (list.Forall_forall _ _) (proj1 Hf eq_refl) (h, b) Hh)); split; [done|by apply (Hp h true Hh)].
  destruct times as [|times].
  - exfalso. assert (true = false); [|done]. apply Hf. eapply progress_all; [done|]. intros h Hh. specialize (Hr h Hh). lia.
  - destruct (round_progress (S r) ms x Hl Hp) as (ms1 & f1 & x1 & E & E1 & HP & Hf1). rewrite (bind_ret _ _ _ _ _ E).
    destruct (IH (S r) ms1 f1 x1) as (ms' & x' & E' & E2 & HA); [by rewrite E1|done|done|rewrite E1; intros h Hh; specialize (Hr h Hh); lia|].
    exists ms', x'. split; [exact E'|]. split; [congruence|done].
Qed.

(** C11. Modules that need others are all loaded, whatever their order in the table, when no
    chain of needs is longer than the ten rounds. *)
Theorem init_module_correct ps x : layered (handlers ps) → (length (handlers ps) ≤ MAX_MODULE_NR)%nat →
  (∀ h, h ∈ handlers ps → (rank h < 10)%nat) →
  ∃ ms x', init_module ps x = Ret (ms, false) x' ∧ ms.*1 = handlers ps ∧ ∀ h b, (h, b) ∈ ms → b = true ∧ loaded x' h.
Proof.
  intros Hl Hn Hr. unfold init_module. set (ms0 := (λ h, (h, false)) <$> handlers ps).
  assert (ms0.*1 = handlers ps) as E0 by (unfold ms0; rewrite <- list_fmap_compose; by apply list_fmap_id).
  destruct (round_progress 0 ms0 x) as (ms1 & f1 & x1 & E & E1 & HP & Hf).
  { by rewrite E0. }
  { intros h b Hh. apply list_elem_of_fmap in Hh as (k & [= -> ->] & _). split; [done|lia]. }
  assert (register_loop ps [] false x = Ret (ms1, f1) x1) as ER.
  { rewrite register_is_round by (simpl; lia). fold ms0. by rewrite (bind_ret _ _ _ _ _ E). }
  rewrite (bind_ret _ _ _ _ _ ER).
  destruct (retry_loop_run 10 0 ms1 f1 x1) as (ms' & x' & E' & E2 & HA); [by rewrite E1, E0|done|done|by rewrite E1, E0|].
  exists ms', x'. split; [exact E'|]. split; [congruence|done].
Qed.

End modload.

(** ** An example: three modules in the wrong order *)

(** The state is the list of the loaded modules; module [k] needs module [k + 1]. *)
Definition demo_deps (k : nat) : list nat := match k with 0 => [1%nat] | 1 => [2%nat] | _ => [] end%nat.

Definition demo_handler (k : nat) (ev : Z) : M (list nat) Z := λ x,
  if forallb (λ d, bool_decide (d ∈ x)) (demo_deps k) then Ret MOD_ERR_OK (k :: x) else Ret MOD_ERR_NEXTLOOP x.

Definition demo_table : list moduledata :=
  [mk_moduledata true (Some 0%nat); mk_moduledata false (Some 7%nat); mk_moduledata true (Some 1%nat);
   mk_moduledata true None; mk_moduledata true (Some 2%nat)].

Lemma demo_layered : layered demo_handler (λ x k, k ∈ x) demo_deps (λ k, 2 - k)%nat (handlers demo_table).
Proof.
  change (handlers demo_table) with [0; 1; 2]%nat. intros h Hh. split.
  - intros x. unfold demo_handler. destruct (forallb _ _) eqn:E.
    + left. exists (h :: x). split; [done|]. split; [by apply elem_of_cons; left|]. intros k Hk. by apply elem_of_cons; right.
    + right. split; [done|]. apply not_true_iff_false in E.
      destruct (decide (Exists (λ d, d ∉ x) (demo_deps h))) as [Hx|Hx].
      * apply list.Exists_exists in Hx as (d & ? & ?). eauto.
      * exfalso. apply E. apply forallb_forall. intros d Hd. apply bool_decide_eq_true.
        destruct (decide (d ∈ x)) as [|Hn]; [done|]. exfalso. apply Hx, list.Exists_exists. exists d. split; [by apply list_elem_of_In|done].
  - intros d Hd. repeat (apply elem_of_cons in Hh as [->|Hh]); [..|by apply elem_of_nil in Hh];
      simpl in Hd; repeat (apply elem_of_cons in Hd as [->|Hd]); try (by apply elem_of_nil in Hd); split; try lia; repeat first [by apply elem_of_cons; left | apply elem_of_cons; right].
Qed.

Lemma init_module_correct_witness : ∃ ms x',
  init_module demo_handler demo_table [] = Ret (ms, false) x' ∧ ms.*1 = [0; 1; 2]%nat ∧ ∀ h b, (h, b) ∈ ms → b = true ∧ h ∈ x'.
Proof.
  apply (init_module_correct demo_handler (λ x k, k ∈ x) demo_deps (λ k, 2 - k)%nat demo_table []).
  - exact demo_layered.
  - apply Nat.leb_le. reflexivity.
  - intros h _. lia.
Defined.
