(* ===== verification/Dlist.v ===== *)
(** * Doubly linked lists (include/yaos/list.h, libs/list/list_debug.c)

    Nodes live in a memory of [struct list_head]s, and every operation writes the
    fields the code writes, in its order.  [dlist h head xs] says that the ring
    through [head] holds the nodes [xs]; the theorems relate the operations to
    the list operations they stand for. *)

From Stdlib Require Import Lia ZArith.
From stdpp Require Import base gmap list numbers option.
From S2P Require Import Prelude.

#[local] Open Scope Z_scope.

Record list_head : Type := Node { next : Z; prev : Z }.

Notation heap := (gmap Z list_head).

(** Field accesses; a pointer to no node faults. *)
Definition get_next (a : Z) : M heap Z := λ h,
  match h !! a with Some n => Ret (next n) h | None => Faulted end.
Definition get_prev (a : Z) : M heap Z := λ h,
  match h !! a with Some n => Ret (prev n) h | None => Faulted end.

Definition put_next (a v : Z) (h : heap) : heap := alter (λ n, Node v (prev n)) a h.
Definition put_prev (a v : Z) (h : heap) : heap := alter (λ n, Node (next n) v) a h.

Definition set_next (a v : Z) : M heap unit := λ h,
  match h !! a with Some _ => Ret tt (put_next a v h) | None => Faulted end.
Definition set_prev (a v : Z) : M heap unit := λ h,
  match h !! a with Some _ => Ret tt (put_prev a v h) | None => Faulted end.

Definition LIST_POISON1 : Z := 0x100100.
Definition LIST_POISON2 : Z := 0x200200.

(** ** The operations *)

Definition INIT_LIST_HEAD (list : Z) : M heap unit :=
  set_next list list ;; set_prev list list.

Definition __list_add (new prev next : Z) : M heap unit :=
  set_prev next new ;;
  set_next new next ;;
  set_prev new prev ;;
  set_next prev new.

Definition list_add (new head : Z) : M heap unit :=
  n ← get_next head; __list_add new head n.

Definition list_add_tail (new head : Z) : M heap unit :=
  p ← get_prev head; __list_add new p head.

Definition __list_del (prev next : Z) : M heap unit :=
  set_prev next prev ;; set_next prev next.

Definition __list_del_entry (entry : Z) : M heap unit :=
  p ← get_prev entry; n ← get_next entry; __list_del p n.

Definition list_del (entry : Z) : M heap unit :=
  p ← get_prev entry;
  n ← get_next entry;
  __list_del p n ;;
  set_next entry LIST_POISON1 ;;
  set_prev entry LIST_POISON2.

Definition list_replace (old new : Z) : M heap unit :=
  n ← get_next old;
  set_next new n ;;
  n ← get_next new;
  set_prev n new ;;
  p ← get_prev old;
  set_prev new p ;;
  p ← get_prev new;
  set_next p new.

Definition list_replace_init (old new : Z) : M heap unit :=
  list_replace old new ;; INIT_LIST_HEAD old.

Definition list_del_init (entry : Z) : M heap unit :=
  __list_del_entry entry ;; INIT_LIST_HEAD entry.

Definition list_move (list head : Z) : M heap unit :=
  __list_del_entry list ;; list_add list head.

Definition list_move_tail (list head : Z) : M heap unit :=
  __list_del_entry list ;; list_add_tail list head.

Definition list_is_last (list head : Z) : M heap bool :=
  n ← get_next list; mret (n =? head).

Definition list_empty (head : Z) : M heap bool :=
  n ← get_next head; mret (n =? head).

Definition list_empty_careful (head : Z) : M heap bool :=
  n ← get_next head;
  if n =? head then p ← get_prev head; mret (n =? p) else mret false.

Definition list_rotate_left (head : Z) : M heap unit :=
  e ← list_empty head;
  if negb e then first ← get_next head; list_move_tail first head else mret tt.

Definition list_is_singular (head : Z) : M heap bool :=
  e ← list_empty head;
  if negb e then n ← get_next head; p ← get_prev head; mret (n =? p) else mret false.

Definition __list_cut_position (list head entry : Z) : M heap unit :=
  new_first ← get_next entry;
  n ← get_next head;
  set_next list n ;;
  n ← get_next list;
  set_prev n list ;;
  set_prev list entry ;;
  set_next entry list ;;
  set_next head new_first ;;
  set_prev new_first head.

Definition list_cut_position (list head entry : Z) : M heap unit :=
  e ← list_empty head;
  if (e : bool) then mret tt else
  s ← list_is_singular head;
  n ← get_next head;
  if s && (negb (n =? entry) && negb (head =? entry)) then mret tt else
  if entry =? head then INIT_LIST_HEAD list else __list_cut_position list head entry.

Definition __list_splice (list prev next : Z) : M heap unit :=
  first ← get_next list;
  last ← get_prev list;
  set_prev first prev ;;
  set_next prev first ;;
  set_next last next ;;
  set_prev next last.

Definition list_splice (list head : Z) : M heap unit :=
  e ← list_empty list;
  if negb e then n ← get_next head; __list_splice list head n else mret tt.

Definition list_splice_tail (list head : Z) : M heap unit :=
  e ← list_empty list;
  if negb e then p ← get_prev head; __list_splice list p head else mret tt.

Definition list_splice_init (list head : Z) : M heap unit :=
  e ← list_empty list;
  if negb e then n ← get_next head; __list_splice list head n ;; INIT_LIST_HEAD list else mret tt.

Definition list_splice_tail_init (list head : Z) : M heap unit :=
  e ← list_empty list;
  if negb e then p ← get_prev head; __list_splice list p head ;; INIT_LIST_HEAD list else mret tt.

(** [list_for_each] and [list_for_each_prev]: the nodes visited from [pos] on. *)
Fixpoint list_for_each (fuel : nat) (pos head : Z) : M heap (list Z) :=
  match fuel with
  | O => out_of_fuel
  | S fuel =>
      if pos =? head then mret [] else
      n ← get_next pos;
      rest ← list_for_each fuel n head;
      mret (pos :: rest)
  end.

Fixpoint list_for_each_prev (fuel : nat) (pos head : Z) : M heap (list Z) :=
  match fuel with
  | O => out_of_fuel
  | S fuel =>
      if pos =? head then mret [] else
      p ← get_prev pos;
      rest ← list_for_each_prev fuel p head;
      mret (pos :: rest)
  end.

(** ** The checking versions (list_debug.c)

    [WARN] prints and returns its condition; the state only records that it did. *)
Module debug.

Definition WARN (c : bool) : M (heap * bool) bool := λ '(h, w), Ret c (h, w || c).

(** The operations on the nodes, in a state with the warning flag. *)
Definition nodes {A} (m : M heap A) : M (heap * bool) A := zoom fst (λ h s, (h, s.2)) m.

Definition __list_add (new prev next : Z) : M (heap * bool) unit :=
  np ← nodes (get_prev next);
  WARN (negb (np =? prev)) ;;
  pn ← nodes (get_next prev);
  WARN (negb (pn =? next)) ;;
  WARN ((new =? prev) || (new =? next)) ;;
  nodes (set_prev next new) ;;
  nodes (set_next new next) ;;
  nodes (set_prev new prev) ;;
  nodes (set_next prev new).

Definition __list_del_entry (entry : Z) : M (heap * bool) unit :=
  p ← nodes (get_prev entry);
  n ← nodes (get_next entry);
  w ← WARN (n =? LIST_POISON1);
  if (w : bool) then mret tt else
  w ← WARN (p =? LIST_POISON2);
  if (w : bool) then mret tt else
  pn ← nodes (get_next p);
  w ← WARN (negb (pn =? entry));
  if (w : bool) then mret tt else
  np ← nodes (get_prev n);
  w ← WARN (negb (np =? entry));
  if (w : bool) then mret tt else
  nodes (__list_del p n).

Definition list_del (entry : Z) : M (heap * bool) unit :=
  __list_del_entry entry ;;
  nodes (set_next entry LIST_POISON1) ;;
  nodes (set_prev entry LIST_POISON2).

End debug.

(** ** Fields of the memory *)

Definition nextOf (h : heap) (a : Z) : option Z := next <$> h !! a.
Definition prevOf (h : heap) (a : Z) : option Z := prev <$> h !! a.
Definition live (h : heap) (a : Z) : Prop := is_Some (h !! a).

Lemma nextOf_put_next h a v x :
  nextOf (put_next a v h) x = if decide (x = a) then (λ _, v) <$> h !! a else nextOf h x.
Proof.
  unfold nextOf, put_next. destruct (decide (x = a)) as [->|].
  - rewrite lookup_alter_eq. by destruct (h !! a).
  - by rewrite lookup_alter_ne by done.
Qed.

Lemma prevOf_put_next h a v x : prevOf (put_next a v h) x = prevOf h x.
Proof.
  unfold prevOf, put_next. destruct (decide (x = a)) as [->|].
  - rewrite lookup_alter_eq. by destruct (h !! a).
  - by rewrite lookup_alter_ne by done.
Qed.

Lemma prevOf_put_prev h a v x :
  prevOf (put_prev a v h) x = if decide (x = a) then (λ _, v) <$> h !! a else prevOf h x.
Proof.
  unfold prevOf, put_prev. destruct (decide (x = a)) as [->|].
  - rewrite lookup_alter_eq. by destruct (h !! a).
  - by rewrite lookup_alter_ne by done.
Qed.

Lemma nextOf_put_prev h a v x : nextOf (put_prev a v h) x = nextOf h x.
Proof.
  unfold nextOf, put_prev. destruct (decide (x = a)) as [->|].
  - rewrite lookup_alter_eq. by destruct (h !! a).
  - by rewrite lookup_alter_ne by done.
Qed.

Lemma live_put_next h a v x : live (put_next a v h) x ↔ live h x.
Proof. unfold live, put_next. by rewrite lookup_alter_is_Some. Qed.
Lemma live_put_prev h a v x : live (put_prev a v h) x ↔ live h x.
Proof. unfold live, put_prev. by rewrite lookup_alter_is_Some. Qed.

Lemma nextOf_live h a v : nextOf h a = Some v → live h a.
Proof. unfold nextOf, live. destruct (h !! a); [eauto|done]. Qed.
Lemma prevOf_live h a v : prevOf h a = Some v → live h a.
Proof. unfold prevOf, live. destruct (h !! a); [eauto|done]. Qed.

Lemma live_const h a (v : Z) : live h a → (λ _, v) <$> h !! a = Some v.
Proof. intros [n ->]. done. Qed.

Lemma get_next_run h a v : nextOf h a = Some v → get_next a h = Ret v h.
Proof. unfold nextOf, get_next. destruct (h !! a); simpl; [|done]. by intros [= ->]. Qed.
Lemma get_prev_run h a v : prevOf h a = Some v → get_prev a h = Ret v h.
Proof. unfold prevOf, get_prev. destruct (h !! a); simpl; [|done]. by intros [= ->]. Qed.
Lemma set_next_run h a v : live h a → set_next a v h = Ret tt (put_next a v h).
Proof. intros [n E]. unfold set_next. by rewrite E. Qed.
Lemma set_prev_run h a v : live h a → set_prev a v h = Ret tt (put_prev a v h).
Proof. intros [n E]. unfold set_prev. by rewrite E. Qed.

#[export] Hint Resolve nextOf_live prevOf_live : yaos.

Lemma live_put_next_2 h a v x : live h x → live (put_next a v h) x.
Proof. by rewrite live_put_next. Qed.
Lemma live_put_prev_2 h a v x : live h x → live (put_prev a v h) x.
Proof. by rewrite live_put_prev. Qed.

#[export] Hint Resolve live_put_next_2 live_put_prev_2 : yaos.

(** Evaluates the fields of a memory with writes pending. *)
Ltac fields :=
  repeat first
    [ rewrite nextOf_put_prev | rewrite prevOf_put_next
    | rewrite nextOf_put_next | rewrite prevOf_put_prev ];
  repeat rewrite live_const by eauto 10 with yaos.

(** Executes the field access at the head of a program. *)
Ltac dstep :=
  match goal with
  | |- context [mbind _ (set_next ?a ?v) ?h] =>
      rewrite (bind_ret _ _ _ _ _ (set_next_run h a v ltac:(eauto 10 with yaos)))
  | |- context [mbind _ (set_prev ?a ?v) ?h] =>
      rewrite (bind_ret _ _ _ _ _ (set_prev_run h a v ltac:(eauto 10 with yaos)))
  | |- context [set_next ?a ?v ?h] => rewrite (set_next_run h a v) by eauto 10 with yaos
  | |- context [set_prev ?a ?v ?h] => rewrite (set_prev_run h a v) by eauto 10 with yaos
  | H : nextOf ?h ?a = Some ?v |- context [mbind _ (get_next ?a) ?h] =>
      rewrite (bind_ret _ _ _ _ _ (get_next_run h a v H))
  | H : prevOf ?h ?a = Some ?v |- context [mbind _ (get_prev ?a) ?h] =>
      rewrite (bind_ret _ _ _ _ _ (get_prev_run h a v H))
  end.

(** ** Rings *)

Definition link (h : heap) (a b : Z) : Prop := nextOf h a = Some b ∧ prevOf h b = Some a.

(** Every node of the sequence is linked to the one after it. *)
Fixpoint linked (h : heap) (l : list Z) : Prop :=
  match l with
  | a :: (b :: _) as l' => link h a b ∧ linked h l'
  | _ => True
  end.

(** The ring through [head] with the nodes [xs]. *)
Record dlist (h : heap) (head : Z) (xs : list Z) : Prop := {
  dl_nodup : NoDup (head :: xs);
  dl_linked : linked h (head :: xs ++ [head])
}.

(** The neighbours of a position: the last node before it and the first after. *)
Definition before (head : Z) (ls : list Z) : Z := default head (list.last ls).
Definition after (head : Z) (rs : list Z) : Z := default head (list.head rs).

Lemma linked_app h l1 x l2 : linked h (l1 ++ x :: l2) ↔ linked h (l1 ++ [x]) ∧ linked h (x :: l2).
Proof.
  induction l1 as [|a l1 IH]; simpl; [tauto|]. destruct l1 as [|b l1]; simpl in *; [tauto|].
  rewrite IH. tauto.
Qed.

(** The fields a sequence depends on: [next] of all but the last, [prev] of all
    but the first. *)
Lemma linked_frame h h' l :
  linked h l → (∀ y, y ∈ removelast l → nextOf h' y = nextOf h y) →
  (∀ y, y ∈ tail l → prevOf h' y = prevOf h y) → linked h' l.
Proof.
  induction l as [|a l IH]; [done|]. destruct l as [|b l]; [done|]. intros [[Hn Hp] Hl] HN HP.
  cbn [linked]. split.
  - split; [rewrite HN|rewrite HP]; try done; simpl; by apply elem_of_cons; left.
  - apply IH; [done| |].
    + intros y Hy. apply HN. simpl in *. by apply elem_of_cons; right.
    + intros y Hy. apply HP. simpl in *. by apply elem_of_cons; right.
Qed.

Lemma linked_live h l x : linked h l → (2 ≤ length l)%nat → x ∈ l → live h x.
Proof.
  induction l as [|a l IH]; simpl; [lia|]. destruct l as [|b l]; simpl; [lia|]. intros [[Hn Hp] Hl] _.
  intros [->|Hx]%elem_of_cons; [eauto with yaos|]. apply elem_of_cons in Hx as [->|Hx]; [eauto with yaos|].
  apply IH; [done| |by apply elem_of_cons; right]. destruct l; [by apply not_elem_of_nil in Hx|simpl; lia].
Qed.

Lemma before_split head ls : ∃ l1, head :: ls = l1 ++ [before head ls].
Proof.
  unfold before. destruct ls as [|x ls _] using rev_ind; [by exists []|].
  exists (head :: ls). rewrite list.last_snoc. done.
Qed.

Lemma after_split head rs : ∃ l2, rs ++ [head] = after head rs :: l2.
Proof. destruct rs as [|x rs]; [by exists []|]. by exists (rs ++ [head]). Qed.

Lemma removelast_snoc {A} (l : list A) x : removelast (l ++ [x]) = l.
Proof. apply removelast_last. Qed.

(** Replacing the nodes [mid] of a ring by [mid'], when only the links around and
    inside them change. *)
Lemma ring_edit h h' head ls mid mid' rs :
  dlist h head (ls ++ mid ++ rs) → NoDup (head :: ls ++ mid' ++ rs) →
  (∀ y, y ∈ head :: ls ++ rs → y ≠ before head ls → nextOf h' y = nextOf h y) →
  (∀ y, y ∈ head :: ls ++ rs → y ≠ after head rs → prevOf h' y = prevOf h y) →
  linked h' (before head ls :: mid' ++ [after head rs]) →
  dlist h' head (ls ++ mid' ++ rs).
Proof.
  intros [Hnd Hl] Hnd' HN HP Hmid. split; [done|].
  destruct (before_split head ls) as (l1 & E1), (after_split head rs) as (l2 & E2).
  assert (∀ m, head :: (ls ++ m ++ rs) ++ [head] =
            l1 ++ before head ls :: m ++ after head rs :: l2) as Ec.
  { intros m. rewrite <- !app_assoc, E2, app_comm_cons, E1, <- app_assoc. done. }
  rewrite Ec in *. rewrite linked_app in *. destruct Hl as [Hl1 Hl2].
  assert (linked h (after head rs :: l2)) as Hl3.
  { rewrite app_comm_cons, linked_app in Hl2. apply Hl2. }
  assert (before head ls ∉ l1 ++ rs) as Hb.
  { rewrite app_comm_cons, E1, <- app_assoc in Hnd. simpl in Hnd.
    apply list.NoDup_app in Hnd as (_ & H1 & [H2 _]%list.NoDup_cons). rewrite elem_of_app.
    intros [H|H]; [apply (H1 _ H); by apply elem_of_cons; left|]. apply H2, elem_of_app. by right. }
  assert (after head rs ∉ ls ++ l2) as Ha.
  { assert (NoDup (ls ++ mid ++ after head rs :: l2)) as Hnd2.
    { rewrite <- E2, !app_assoc, <- Permutation_cons_append, <- app_assoc. done. }
    rewrite app_assoc in Hnd2. apply list.NoDup_app in Hnd2 as (_ & H1 & [H2 _]%list.NoDup_cons).
    rewrite elem_of_app. intros [H|H]; [|done].
    apply (H1 (after head rs)); [apply elem_of_app; by left|by apply elem_of_cons; left]. }
  assert (∀ y, y ∈ l1 ++ rs → nextOf h' y = nextOf h y) as HN'.
  { intros y Hy. apply HN; [|by intros ->]. rewrite app_comm_cons, E1.
    apply elem_of_app in Hy as [Hy|Hy]; apply elem_of_app; [left; apply elem_of_app; by left|by right]. }
  assert (∀ y, y ∈ ls ++ l2 → prevOf h' y = prevOf h y) as HP'.
  { intros y Hy. apply HP; [|by intros ->]. apply elem_of_app in Hy as [Hy|Hy].
    - apply elem_of_cons. right. apply elem_of_app. by left.
    - assert (y ∈ rs ++ [head]) as Hy' by (rewrite E2; by apply elem_of_cons; right).
      rewrite elem_of_app, list_elem_of_singleton in Hy'. rewrite elem_of_cons, elem_of_app. tauto. }
  split; [|rewrite app_comm_cons, linked_app; split].
  - eapply linked_frame; [exact Hl1| |].
    + intros y Hy. rewrite removelast_snoc in Hy. apply HN', elem_of_app. by left.
    + intros y Hy. rewrite <- E1 in Hy. apply HP', elem_of_app. by left.
  - by rewrite <- app_comm_cons.
  - eapply linked_frame; [exact Hl3| |].
    + intros y Hy. rewrite <- E2, removelast_snoc in Hy. apply HN', elem_of_app. by right.
    + intros y Hy. apply HP', elem_of_app. by right.
Qed.

(** The link at a position, and that the nodes of a ring exist. *)
Lemma ring_link h head ls rs :
  dlist h head (ls ++ rs) → link h (before head ls) (after head rs).
Proof.
  intros [_ Hl]. destruct (before_split head ls) as (l1 & E1), (after_split head rs) as (l2 & E2).
  rewrite <- app_assoc, E2, app_comm_cons, E1, <- app_assoc in Hl. simpl in Hl.
  rewrite linked_app in Hl. apply Hl.
Qed.

Lemma ring_live h head xs x : dlist h head xs → x ∈ head :: xs → live h x.
Proof.
  intros [_ Hl] Hx. eapply linked_live; [exact Hl|simpl; rewrite length_app; simpl; lia|].
  rewrite app_comm_cons. apply elem_of_app. by left.
Qed.

Lemma before_elem head ls : before head ls ∈ head :: ls.
Proof. destruct (before_split head ls) as (l1 & ->). apply elem_of_app. right. by apply elem_of_cons; left. Qed.

Lemma after_elem head rs : after head rs ∈ head :: rs.
Proof. destruct rs; simpl; [by apply elem_of_cons; left|]. apply elem_of_cons. right. by apply elem_of_cons; left. Qed.

(** ** What the operations do

    [changes xs h h']: only nodes of [xs] are written, and none is created. *)
Definition changes (xs : list Z) (h h' : heap) : Prop :=
  (∀ y, live h' y ↔ live h y) ∧ ∀ y, y ∉ xs → h' !! y = h !! y.

Lemma changes_put_next xs h h' a v : a ∈ xs → changes xs h h' → changes xs h (put_next a v h').
Proof.
  intros Ha [Hl Hy]. split; [intros y; by rewrite live_put_next|]. intros y Hn. unfold put_next.
  rewrite lookup_alter_ne by (by intros ->). by apply Hy.
Qed.

Lemma changes_put_prev xs h h' a v : a ∈ xs → changes xs h h' → changes xs h (put_prev a v h').
Proof.
  intros Ha [Hl Hy]. split; [intros y; by rewrite live_put_prev|]. intros y Hn. unfold put_prev.
  rewrite lookup_alter_ne by (by intros ->). by apply Hy.
Qed.

Lemma changes_refl xs h : changes xs h h.
Proof. by split. Qed.

Lemma changes_trans xs h h' h'' : changes xs h h' → changes xs h' h'' → changes xs h h''.
Proof.
  intros [Hl Hy] [Hl' Hy']. split; [intros y; by rewrite Hl', Hl|]. intros y Hn. by rewrite Hy', Hy.
Qed.

Lemma changes_sub xs ys h h' : xs ⊆ ys → changes xs h h' → changes ys h h'.
Proof. intros Hs [Hl Hy]. split; [done|]. intros y Hn. apply Hy. intros Hx. by apply Hn, Hs. Qed.

(** A ring none of whose nodes is written stays as it is. *)
Lemma changes_dlist xs h h' head ys :
  changes xs h h' → (∀ y, y ∈ head :: ys → y ∉ xs) → dlist h head ys → dlist h' head ys.
Proof.
  intros [_ Hy] Hd [Hnd Hl]. split; [done|]. eapply linked_frame; [exact Hl| |]; intros y Hin;
    unfold nextOf, prevOf; rewrite Hy; try done; apply Hd.
  - rewrite app_comm_cons, removelast_snoc in Hin. done.
  - simpl in Hin. rewrite elem_of_app, list_elem_of_singleton in Hin. apply elem_of_cons. tauto.
Qed.

#[local] Ltac changed :=
  repeat first [apply changes_put_next | apply changes_put_prev | apply changes_refl];
  rewrite ?elem_of_cons; auto 10.

#[local] Ltac decides := repeat (case_decide; simplify_eq); try done.

Lemma nodup_insert (head new : Z) ls rs :
  NoDup (head :: ls ++ rs) → new ∉ head :: ls ++ rs → NoDup (head :: ls ++ new :: rs).
Proof.
  intros Hnd Hn. rewrite <- (Permutation_middle ls rs new), Permutation_swap. by apply list.NoDup_cons.
Qed.

Lemma list_add_between h head ls rs new :
  dlist h head (ls ++ rs) → new ∉ head :: ls ++ rs → live h new →
  ∃ h', __list_add new (before head ls) (after head rs) h = Ret tt h' ∧
    dlist h' head (ls ++ new :: rs) ∧ changes [new; before head ls; after head rs] h h'.
Proof.
  intros Hd Hnew Hlive. pose proof (ring_link _ _ _ _ Hd) as [Hn Hp].
  pose proof (before_elem head ls) as Hb. pose proof (after_elem head rs) as Ha.
  set (p := before head ls) in *. set (n := after head rs) in *.
  assert (new ≠ p ∧ new ≠ n) as [Hnp Hnn].
  { rewrite elem_of_cons, elem_of_app in Hnew. apply elem_of_cons in Hb, Ha. naive_solver. }
  unfold __list_add. do 4 dstep. eexists. split; [done|]. split; [|changed].
  apply (ring_edit h _ head ls [] [new] rs); [done| | | |].
  - apply nodup_insert; [apply Hd|done].
  - intros y Hy Hyp. fields. decides.
  - intros y Hy Hyp. fields. decides.
  - cbn [app linked]. unfold link. fields. decides.
Qed.

Lemma ring_around h head ls e rs :
  dlist h head (ls ++ e :: rs) →
  prevOf h e = Some (before head ls) ∧ nextOf h e = Some (after head rs).
Proof.
  intros Hd. split; [apply (ring_link _ _ _ _ Hd)|].
  replace (ls ++ e :: rs) with ((ls ++ [e]) ++ rs) in Hd by (by rewrite <- app_assoc).
  apply ring_link in Hd as [Hn _]. unfold before in Hn. by rewrite list.last_snoc in Hn.
Qed.

Lemma ring_nodes h head ls e rs :
  dlist h head (ls ++ e :: rs) → e ∉ head :: ls ++ rs ∧ NoDup (head :: ls ++ rs) ∧ live h e ∧
  live h (before head ls) ∧ live h (after head rs) ∧ e ≠ before head ls ∧ e ≠ after head rs.
Proof.
  intros Hd. pose proof (dl_nodup _ _ _ Hd) as Hnd.
  rewrite <- Permutation_middle, Permutation_swap in Hnd. apply list.NoDup_cons in Hnd as [He Hnd].
  pose proof (before_elem head ls) as Hb. pose proof (after_elem head rs) as Ha.
  assert (before head ls ∈ head :: ls ++ rs ∧ after head rs ∈ head :: ls ++ rs) as [Hb' Ha'].
  { rewrite !elem_of_cons, !elem_of_app in *. tauto. }
  assert (∀ x, x ∈ head :: ls ++ rs → live h x) as Hl.
  { intros x Hx. eapply ring_live; [exact Hd|]. rewrite !elem_of_cons, !elem_of_app, !elem_of_cons in *. tauto. }
  split_and!; try done; auto; try (by intros ->).
  eapply ring_live; [exact Hd|]. rewrite elem_of_cons, elem_of_app, elem_of_cons. auto.
Qed.

Lemma list_del_between h head ls e rs :
  dlist h head (ls ++ e :: rs) →
  ∃ h', __list_del_entry e h = Ret tt h' ∧
    __list_del (before head ls) (after head rs) h = Ret tt h' ∧
    dlist h' head (ls ++ rs) ∧ changes [before head ls; after head rs] h h'.
Proof.
  intros Hd. pose proof (ring_around _ _ _ _ _ Hd) as [Hp Hn].
  destruct (ring_nodes _ _ _ _ _ Hd) as (He & Hnd & Hle & Hlb & Hla & Hep & Hen).
  set (p := before head ls) in *. set (n := after head rs) in *.
  unfold __list_del_entry. do 2 dstep. unfold __list_del. do 2 dstep.
  eexists. split; [done|]. split; [done|]. split; [|changed].
  apply (ring_edit h _ head ls [e] [] rs); [done|done| | |].
  - intros y Hy Hyp. fields. decides.
  - intros y Hy Hyp. fields. decides.
  - cbn [app linked]. unfold link. fields. decides.
Qed.

Lemma changes_fields xs h h' y :
  changes xs h h' → y ∉ xs → nextOf h' y = nextOf h y ∧ prevOf h' y = prevOf h y.
Proof. intros [_ H] Hy. unfold nextOf, prevOf. by rewrite H. Qed.

Lemma list_del_run h head ls e rs :
  dlist h head (ls ++ e :: rs) →
  ∃ h', list_del e h = Ret tt h' ∧ dlist h' head (ls ++ rs) ∧
    h' !! e = Some (Node LIST_POISON1 LIST_POISON2) ∧
    changes [e; before head ls; after head rs] h h'.
Proof.
  intros Hd. destruct (list_del_between _ _ _ _ _ Hd) as (h1 & _ & E & Hd1 & Hc).
  pose proof (ring_around _ _ _ _ _ Hd) as [Hp Hn].
  destruct (ring_nodes _ _ _ _ _ Hd) as (He & _ & Hle & _ & _ & Hep & Hen).
  unfold list_del. do 2 dstep. rewrite (bind_ret _ _ _ _ _ E).
  assert (live h1 e) as Hl1 by (by apply Hc). do 2 dstep. eexists. split; [done|].
  assert (changes [e; before head ls; after head rs] h h1) as Hc1.
  { eapply changes_sub; [|exact Hc]. intros x Hx. by apply elem_of_cons; right. }
  split_and!.
  - eapply (changes_dlist [e] h1); [|intros y Hy; rewrite list_elem_of_singleton; by intros ->|done].
    apply changes_put_prev, changes_put_next, changes_refl; by apply elem_of_cons; left.
  - destruct Hl1 as [nd End]. unfold put_prev, put_next. by rewrite !lookup_alter_eq, End.
  - apply changes_put_prev, changes_put_next; try done; by apply elem_of_cons; left.
Qed.

Lemma init_run h x : live h x →
  ∃ h', INIT_LIST_HEAD x h = Ret tt h' ∧ dlist h' x [] ∧ changes [x] h h'.
Proof.
  intros Hl. unfold INIT_LIST_HEAD. do 2 dstep. eexists. split; [done|]. split.
  - split; [apply list.NoDup_cons; split; [apply not_elem_of_nil|by apply NoDup_nil_2]|].
    cbn [app linked]. unfold link. fields. decides.
  - apply changes_put_prev, changes_put_next, changes_refl; by apply elem_of_cons; left.
Qed.

Lemma three_elems (a b c : Z) l : a ∈ l → b ∈ l → c ∈ l → [a; b; c] ⊆ l.
Proof.
  intros Ha Hb Hc y. rewrite !elem_of_cons. intros [->|[->|[->|H]]]; try done. by apply not_elem_of_nil in H.
Qed.

Lemma list_add_run h head xs new :
  dlist h head xs → new ∉ head :: xs → live h new →
  ∃ h', list_add new head h = Ret tt h' ∧ dlist h' head (new :: xs) ∧ changes (new :: head :: xs) h h'.
Proof.
  intros Hd Hn Hl. destruct (list_add_between h head [] xs new Hd Hn Hl) as (h' & E & Hd' & Hc).
  unfold list_add. pose proof (ring_link h head [] xs Hd) as [Hnx _].
  rewrite (bind_ret _ _ _ _ _ (get_next_run _ _ _ Hnx)). exists h'. split; [done|]. split; [done|].
  eapply changes_sub; [|exact Hc]. apply three_elems.
  - by apply elem_of_cons; left.
  - apply elem_of_cons; right. by apply elem_of_cons; left.
  - apply elem_of_cons; right. apply after_elem.
Qed.

Lemma list_add_tail_run h head xs new :
  dlist h head xs → new ∉ head :: xs → live h new →
  ∃ h', list_add_tail new head h = Ret tt h' ∧ dlist h' head (xs ++ [new]) ∧
    changes (new :: head :: xs) h h'.
Proof.
  intros Hd Hn Hl. rewrite <- (app_nil_r xs) in Hd, Hn.
  destruct (list_add_between h head xs [] new Hd Hn Hl) as (h' & E & Hd' & Hc).
  unfold list_add_tail. pose proof (ring_link h head xs [] Hd) as [_ Hpv].
  rewrite (bind_ret _ _ _ _ _ (get_prev_run _ _ _ Hpv)). exists h'. split; [done|]. split; [done|].
  eapply changes_sub; [|exact Hc]. apply three_elems.
  - by apply elem_of_cons; left.
  - apply elem_of_cons; right. apply before_elem.
  - apply elem_of_cons; right. by apply elem_of_cons; left.
Qed.

(** Taking a node out of a ring, for the operations that put it back. *)
Lemma del_entry_run h head ls e rs :
  dlist h head (ls ++ e :: rs) →
  ∃ h', __list_del_entry e h = Ret tt h' ∧ dlist h' head (ls ++ rs) ∧ live h' e ∧ e ∉ head :: ls ++ rs ∧
    changes (head :: ls ++ e :: rs) h h'.
Proof.
  intros Hd. destruct (list_del_between _ _ _ _ _ Hd) as (h' & E & _ & Hd' & Hc).
  destruct (ring_nodes _ _ _ _ _ Hd) as (He & _ & Hle & _).
  exists h'. split_and!; try done; [by apply Hc|]. eapply changes_sub; [|exact Hc].
  intros y Hy. pose proof (before_elem head ls) as Hb. pose proof (after_elem head rs) as Ha.
  rewrite !elem_of_cons in *. rewrite elem_of_app, elem_of_cons.
  destruct Hy as [->|[->|Hy]]; [tauto|tauto|by apply not_elem_of_nil in Hy].
Qed.

Lemma list_move_run h head ls e rs :
  dlist h head (ls ++ e :: rs) →
  ∃ h', list_move e head h = Ret tt h' ∧ dlist h' head (e :: ls ++ rs) ∧ changes (head :: ls ++ e :: rs) h h'.
Proof.
  intros Hd. destruct (del_entry_run _ _ _ _ _ Hd) as (h1 & E1 & Hd1 & Hl1 & He & Hc1).
  destruct (list_add_run _ _ _ _ Hd1 He Hl1) as (h2 & E2 & Hd2 & Hc2).
  exists h2. unfold list_move. rewrite (bind_ret _ _ _ _ _ E1). split_and!; try done.
  eapply changes_trans; [exact Hc1|]. eapply changes_sub; [|exact Hc2]. intros y.
  rewrite !elem_of_cons, !elem_of_app, !elem_of_cons. tauto.
Qed.

Lemma list_move_tail_run h head ls e rs :
  dlist h head (ls ++ e :: rs) →
  ∃ h', list_move_tail e head h = Ret tt h' ∧ dlist h' head ((ls ++ rs) ++ [e]) ∧
    changes (head :: ls ++ e :: rs) h h'.
Proof.
  intros Hd. destruct (del_entry_run _ _ _ _ _ Hd) as (h1 & E1 & Hd1 & Hl1 & He & Hc1).
  destruct (list_add_tail_run _ _ _ _ Hd1 He Hl1) as (h2 & E2 & Hd2 & Hc2).
  exists h2. unfold list_move_tail. rewrite (bind_ret _ _ _ _ _ E1). split_and!; try done.
  eapply changes_trans; [exact Hc1|]. eapply changes_sub; [|exact Hc2]. intros y.
  rewrite !elem_of_cons, !elem_of_app, !elem_of_cons. tauto.
Qed.

(** The tests. *)
Lemma after_head head xs : NoDup (head :: xs) → after head xs = head ↔ xs = [].
Proof.
  destruct xs as [|x xs]; simpl; [done|]. intros [Hn _]%list.NoDup_cons. split; [|done].
  intros E. unfold after in E. simpl in E. subst. destruct Hn. by apply elem_of_cons; left.
Qed.

Lemma list_empty_run h head xs :
  dlist h head xs → list_empty head h = Ret (bool_decide (xs = [])) h.
Proof.
  intros Hd. unfold list_empty. pose proof (ring_link h head [] xs Hd) as [Hn _].
  rewrite (bind_ret _ _ _ _ _ (get_next_run _ _ _ Hn)). unfold mret, M_ret. f_equal.
  pose proof (after_head head xs (dl_nodup _ _ _ Hd)) as Ha.
  destruct (Z.eqb_spec (after head xs) head), (bool_decide_reflect (xs = [])); tauto.
Qed.

Lemma list_is_singular_run h head xs :
  dlist h head xs → list_is_singular head h = Ret (bool_decide (length xs = 1%nat)) h.
Proof.
  intros Hd. unfold list_is_singular. rewrite (bind_ret _ _ _ _ _ (list_empty_run _ _ _ Hd)).
  pose proof (ring_link h head [] xs Hd) as [Hn _].
  pose proof Hd as Hd'. rewrite <- (app_nil_r xs) in Hd'. pose proof (ring_link h head xs [] Hd') as [_ Hp].
  destruct xs as [|x xs]; [done|].
  rewrite bool_decide_eq_false_2 by done. cbn [negb].
  rewrite (bind_ret _ _ _ _ _ (get_next_run _ _ _ Hn)), (bind_ret _ _ _ _ _ (get_prev_run _ _ _ Hp)).
  unfold mret, M_ret. f_equal. change (after head (x :: xs)) with x. unfold before.
  pose proof (dl_nodup _ _ _ Hd) as [_ [Hx Hnd]%list.NoDup_cons]%list.NoDup_cons.
  destruct xs as [|y ys _] using rev_ind; [by rewrite Z.eqb_refl|].
  rewrite app_comm_cons, list.last_snoc. simpl.
  rewrite bool_decide_eq_false_2 by (rewrite length_app; simpl; lia). apply Z.eqb_neq. intros ->.
  destruct Hx. apply elem_of_app. right. by apply elem_of_cons; left.
Qed.

(** [list_rotate_left] moves the first node to the end. *)
Definition rotate_left (xs : list Z) : list Z := match xs with [] => [] | x :: xs => xs ++ [x] end.

Lemma list_rotate_left_run h head xs :
  dlist h head xs →
  ∃ h', list_rotate_left head h = Ret tt h' ∧ dlist h' head (rotate_left xs) ∧ changes (head :: xs) h h'.
Proof.
  intros Hd. unfold list_rotate_left. rewrite (bind_ret _ _ _ _ _ (list_empty_run _ _ _ Hd)).
  destruct xs as [|x xs]; [exists h; split_and!; auto using changes_refl|].
  rewrite bool_decide_eq_false_2 by done. cbn [negb].
  pose proof (ring_link h head [] (x :: xs) Hd) as [Hn _].
  rewrite (bind_ret _ _ _ _ _ (get_next_run _ _ _ Hn)). apply (list_move_tail_run h head [] x xs Hd).
Qed.

(** ** Joining and cutting rings *)

(** The nodes [ys] between two other ends. *)
Lemma linked_between h h' a b p n ys :
  linked h (a :: ys ++ [b]) → ys ≠ [] →
  (∀ y, y ∈ removelast ys → nextOf h' y = nextOf h y) → (∀ y, y ∈ tail ys → prevOf h' y = prevOf h y) →
  link h' p (after b ys) → link h' (before a ys) n → linked h' (p :: ys ++ [n]).
Proof.
  intros Hl Hne HN HP Hf Hb. destruct ys as [|y1 ys]; [done|].
  assert (linked h' (y1 :: ys)) as Hin.
  { eapply (linked_frame h); [|done|done]. destruct Hl as [_ Hl].
    change (linked h ((y1 :: ys) ++ [b])) in Hl.
    destruct (before_split y1 ys) as (l1 & E). rewrite E, <- app_assoc in Hl. simpl in Hl.
    rewrite linked_app in Hl. rewrite E. apply Hl. }
  cbn [app]. split; [exact Hf|]. destruct (before_split y1 ys) as (l1 & E).
  assert (before a (y1 :: ys) = before y1 ys) as Eb.
  { unfold before. rewrite list.last_cons. by destruct (list.last ys). }
  rewrite app_comm_cons, E, <- app_assoc. simpl. apply linked_app. rewrite <- E. split; [done|].
  cbn [linked]. rewrite Eb in Hb. done.
Qed.

Lemma ends_of (a : Z) ys : NoDup ys → ys ≠ [] →
  before a ys ∈ ys ∧ before a ys ∉ removelast ys ∧ after a ys ∈ ys ∧ after a ys ∉ tail ys ∧
  (∀ y, y ∈ removelast ys → y ∈ ys) ∧ (∀ y, y ∈ tail ys → y ∈ ys).
Proof.
  intros Hnd Hne. assert (after a ys ∈ ys ∧ after a ys ∉ tail ys ∧ ∀ y, y ∈ tail ys → y ∈ ys) as (? & ? & ?).
  { destruct ys as [|y ys]; [done|]. apply list.NoDup_cons in Hnd as [Hy _].
    split_and!; [by apply elem_of_cons; left|done|]. intros z Hz. by apply elem_of_cons; right. }
  destruct ys as [|y ys _] using rev_ind; [done|].
  unfold before. rewrite list.last_snoc, removelast_snoc. simpl.
  apply list.NoDup_app in Hnd as (_ & Hn & _). split_and!; try done.
  - apply elem_of_app. right. by apply elem_of_cons; left.
  - intros Hy. apply (Hn y Hy). by apply elem_of_cons; left.
  - intros z Hz. apply elem_of_app. by left.
Qed.

Definition apart (xs ys : list Z) : Prop := ∀ y, y ∈ xs → y ∉ ys.

Lemma list_splice_between h list ys head ls rs :
  dlist h list ys → ys ≠ [] → dlist h head (ls ++ rs) → apart (list :: ys) (head :: ls ++ rs) →
  ∃ h', __list_splice list (before head ls) (after head rs) h = Ret tt h' ∧
    dlist h' head (ls ++ ys ++ rs) ∧ changes (ys ++ [before head ls; after head rs]) h h'.
Proof.
  intros Hl Hne Hd Hap. pose proof (ring_link h list [] ys Hl) as [Hf _].
  pose proof Hl as Hl'. rewrite <- (app_nil_r ys) in Hl'. pose proof (ring_link h list ys [] Hl') as [_ Hp].
  change (before list []) with list in Hf. change (after list []) with list in Hp.
  pose proof (dl_nodup _ _ _ Hl) as [_ Hnd]%list.NoDup_cons.
  destruct (ends_of list ys Hnd Hne) as (Hb1 & Hb2 & Ha1 & Ha2 & Hr & Ht).
  assert (before head ls ∈ head :: ls ++ rs ∧ after head rs ∈ head :: ls ++ rs) as [HB HA].
  { pose proof (before_elem head ls). pose proof (after_elem head rs).
    rewrite !elem_of_cons, !elem_of_app in *. tauto. }
  assert (∀ y, y ∈ ys → y ≠ before head ls ∧ y ≠ after head rs) as Hys.
  { intros y Hy. assert (y ∉ head :: ls ++ rs) as Hn by (apply Hap; by apply elem_of_cons; right).
    split; intros ->; done. }
  assert (∀ y, y ∈ ys → live h y) as Hlv.
  { intros y Hy. eapply ring_live; [exact Hl|]. by apply elem_of_cons; right. }
  pose proof (Hlv _ Hb1) as Hlb. pose proof (Hlv _ Ha1) as Hla.
  pose proof (ring_live _ _ _ _ Hd HB) as HlB. pose proof (ring_live _ _ _ _ Hd HA) as HlA.
  destruct (Hys _ Hb1), (Hys _ Ha1).
  set (p := before head ls) in *. set (n := after head rs) in *.
  set (f := after list ys) in *. set (l := before list ys) in *.
  unfold __list_splice. do 2 dstep. do 4 dstep. eexists. split; [done|]. split.
  - apply (ring_edit h _ head ls [] ys rs); [done| | | |].
    + pose proof (dl_nodup _ _ _ Hd) as Hnd1. rewrite app_assoc, (Permutation_app_comm ls ys), <- app_assoc.
      rewrite (Permutation_middle ys (ls ++ rs) head). apply list.NoDup_app. split_and!; try done.
      intros y Hy. apply Hap. by apply elem_of_cons; right.
    + intros y Hy Hyp. fields. decides. exfalso. by apply (Hap l); [apply elem_of_cons; right|].
    + intros y Hy Hyp. fields. decides. exfalso. by apply (Hap f); [apply elem_of_cons; right|].
    + eapply (linked_between h _ list list); [apply Hl|done| | | |].
      * intros y Hy. destruct (Hys y (Hr y Hy)). fields. decides.
      * intros y Hy. destruct (Hys y (Ht y Hy)). fields. decides.
      * fold f. unfold link. fields. decides.
      * fold l. unfold link. fields. decides.
  - apply changes_put_prev; [rewrite elem_of_app, !elem_of_cons; auto|].
    apply changes_put_next; [rewrite elem_of_app; auto|].
    apply changes_put_next; [rewrite elem_of_app, !elem_of_cons; auto|].
    apply changes_put_prev; [rewrite elem_of_app; auto|]. apply changes_refl.
Qed.

(** The two places a list is spliced in, with the test for an empty list. *)
Lemma splice_at h list ys head ls rs :
  dlist h list ys → dlist h head (ls ++ rs) → apart (list :: ys) (head :: ls ++ rs) →
  (if bool_decide (ys = []) then ls ++ rs = ls ++ ys ++ rs else True) ∧
  (ys ≠ [] → ∃ h', __list_splice list (before head ls) (after head rs) h = Ret tt h' ∧
    dlist h' head (ls ++ ys ++ rs) ∧ changes (ys ++ head :: ls ++ rs) h h').
Proof.
  intros Hl Hd Hap. split; [by destruct (bool_decide_reflect (ys = [])) as [->|]|]. intros Hne.
  destruct (list_splice_between _ _ _ _ _ _ Hl Hne Hd Hap) as (h' & E & Hd' & Hc).
  exists h'. split_and!; try done. eapply changes_sub; [|exact Hc]. intros y.
  pose proof (before_elem head ls). pose proof (after_elem head rs).
  rewrite !elem_of_app, !elem_of_cons, !elem_of_app in *. intros [?|[->|[->|Hy]]]; [tauto..|].
  by apply not_elem_of_nil in Hy.
Qed.

Definition at_head (init : bool) : Z → Z → M heap unit :=
  if init then list_splice_init else list_splice.
Definition at_tail (init : bool) : Z → Z → M heap unit :=
  if init then list_splice_tail_init else list_splice_tail.

(** Splicing, and re-initialising the list that was emptied. *)
Lemma splice_run h list ys head xs (tl init : bool) :
  dlist h list ys → dlist h head xs → apart (list :: ys) (head :: xs) →
  ∃ h', (if tl then at_tail init list head else at_head init list head) h = Ret tt h' ∧
    dlist h' head (if tl then xs ++ ys else ys ++ xs) ∧ (init = true → dlist h' list []).
Proof.
  intros Hl Hd Hap. pose proof (list_empty_run _ _ _ Hl) as Ee.
  assert (ys = [] → ∃ h', Ret tt h = Ret tt h' ∧
    dlist h' head (if tl then xs ++ ys else ys ++ xs) ∧ (init = true → dlist h' list [])) as Hnil.
  { intros ->. exists h. rewrite app_nil_r. by destruct tl. }
  assert (∀ zs h', dlist h' head zs → live h' list → list ∉ head :: zs →
    ∃ h2, INIT_LIST_HEAD list h' = Ret tt h2 ∧ dlist h2 head zs ∧ dlist h2 list []) as Hinit.
  { intros zs h' Hz Hlv Hn. destruct (init_run h' list Hlv) as (h2 & E2 & Hd2 & Hc2).
    exists h2. split_and!; try done. eapply changes_dlist; [exact Hc2| |done].
    intros y Hy. rewrite list_elem_of_singleton. by intros ->. }
  assert (list ∉ head :: xs) as Hnl by (apply Hap; by apply elem_of_cons; left).
  assert (list ∉ ys) as Hny by (pose proof (dl_nodup _ _ _ Hl) as [H _]%list.NoDup_cons; done).
  assert (live h list) as Hlv by (eapply ring_live; [exact Hl|by apply elem_of_cons; left]).
  destruct (decide (ys = [])) as [E0|Hne].
  { destruct tl, init; simpl; unfold list_splice, list_splice_tail, list_splice_init, list_splice_tail_init;
      rewrite (bind_ret _ _ _ _ _ Ee), bool_decide_eq_true_2 by done; by apply Hnil. }
  rewrite bool_decide_eq_false_2 in Ee by done. destruct tl.
  - rewrite <- (app_nil_r xs) in Hd, Hap. pose proof (ring_link h head xs [] Hd) as [_ Hp].
    destruct (splice_at _ _ _ _ _ _ Hl Hd Hap) as [_ HS].
    destruct (HS Hne) as (h1 & E1 & Hd1 & Hc1). rewrite app_nil_r in Hd1.
    destruct (Hinit (xs ++ ys) h1 Hd1) as (h2 & E2 & ? & ?);
      [by apply Hc1|rewrite elem_of_cons, elem_of_app; rewrite elem_of_cons in Hnl; tauto|].
    destruct init; simpl; unfold list_splice_tail, list_splice_tail_init;
      rewrite (bind_ret _ _ _ _ _ Ee); cbn [negb]; rewrite (bind_ret _ _ _ _ _ (get_prev_run _ _ _ Hp)).
    + rewrite (bind_ret _ _ _ _ _ E1). by exists h2.
    + by exists h1.
  - pose proof (ring_link h head [] xs Hd) as [Hn _].
    destruct (splice_at h list ys head [] xs Hl Hd Hap) as [_ HS].
    destruct (HS Hne) as (h1 & E1 & Hd1 & Hc1). cbn [app] in Hd1.
    destruct (Hinit (ys ++ xs) h1 Hd1) as (h2 & E2 & ? & ?);
      [by apply Hc1|rewrite elem_of_cons, elem_of_app; rewrite elem_of_cons in Hnl; tauto|].
    destruct init; simpl; unfold list_splice, list_splice_init;
      rewrite (bind_ret _ _ _ _ _ Ee); cbn [negb]; rewrite (bind_ret _ _ _ _ _ (get_next_run _ _ _ Hn)).
    + rewrite (bind_ret _ _ _ _ _ E1). by exists h2.
    + by exists h1.
Qed.

(** The guards of [list_cut_position] let a node of the list through. *)
Lemma cut_guards h list head xs e rs :
  dlist h head (xs ++ e :: rs) →
  list_cut_position list head e h = __list_cut_position list head e h.
Proof.
  intros Hd. destruct (ring_nodes _ _ _ _ _ Hd) as (He & _).
  pose proof (ring_link h head [] (xs ++ e :: rs) Hd) as [Hhn _].
  unfold list_cut_position. rewrite (bind_ret _ _ _ _ _ (list_empty_run _ _ _ Hd)).
  rewrite bool_decide_eq_false_2 by (by destruct xs).
  rewrite (bind_ret _ _ _ _ _ (list_is_singular_run _ _ _ Hd)), (bind_ret _ _ _ _ _ (get_next_run _ _ _ Hhn)).
  rewrite (proj2 (Z.eqb_neq e head)) by (intros ->; apply He; by apply elem_of_cons; left).
  destruct (bool_decide_reflect (length (xs ++ e :: rs) = 1%nat)) as [E1|]; [|done].
  assert (after head (xs ++ e :: rs) = e) as ->; [|by rewrite Z.eqb_refl].
  rewrite length_app in E1. destruct xs; simpl in E1; [done|lia].
Qed.

(** A ring split in two at [ys]: who the ends are and that they differ. *)
Lemma cut_ends h head ys rs :
  dlist h head (ys ++ rs) → ys ≠ [] →
  let e := before head ys in let f := after head ys in let nf := after head rs in
  nextOf h head = Some f ∧ nextOf h e = Some nf ∧ NoDup ys ∧ NoDup (head :: rs) ∧ apart ys (head :: rs) ∧
  e ≠ head ∧ f ≠ head ∧ f ≠ nf ∧ e ≠ nf ∧ (∀ x, x ∈ [head; e; f; nf] → live h x).
Proof.
  intros Hd Hne e f nf. pose proof (dl_nodup _ _ _ Hd) as Hnd.
  rewrite (Permutation_middle ys rs head) in Hnd. apply list.NoDup_app in Hnd as (Hndy & Hap & Hndr).
  destruct (ends_of head ys Hndy Hne) as (He & _ & Hf & _).
  assert (nf ∈ head :: rs) as Hnf by apply after_elem.
  pose proof (ring_link h head ys rs Hd) as [Hen _].
  pose proof (ring_link h head [] (ys ++ rs) Hd) as [Hhn _].
  assert (after head (ys ++ rs) = f) as Ef by (unfold f, after; by destruct ys). rewrite Ef in Hhn.
  assert (∀ y z, y ∈ ys → z ∈ head :: rs → y ≠ z) as Hyz by (intros y z Hy Hz ->; by apply (Hap z)).
  assert (head ∈ head :: rs) by (by apply elem_of_cons; left).
  split_and!; try done; auto.
  intros x Hx. eapply ring_live; [exact Hd|].
  assert (x ∈ ys ∨ x ∈ head :: rs) as Hc.
  { rewrite !elem_of_cons in Hx. destruct Hx as [->|[->|[->|[->|Hx]]]]; auto. by apply not_elem_of_nil in Hx. }
  rewrite !elem_of_cons, elem_of_app in *. tauto.
Qed.

Lemma list_cut_run h list head xs e rs :
  dlist h head (xs ++ e :: rs) → live h list → list ∉ head :: xs ++ e :: rs →
  ∃ h', list_cut_position list head e h = Ret tt h' ∧ dlist h' list (xs ++ [e]) ∧ dlist h' head rs.
Proof.
  intros Hd Hll Hln. rewrite (cut_guards _ _ _ _ _ _ Hd).
  assert (xs ++ e :: rs = (xs ++ [e]) ++ rs) as Ey by (by rewrite <- app_assoc). rewrite Ey in *.
  assert (before head (xs ++ [e]) = e) as Eb by (unfold before; by rewrite list.last_snoc).
  assert (xs ++ [e] ≠ []) as Hne by (by destruct xs).
  set (ys := xs ++ [e]) in *. clearbody ys.
  destruct (cut_ends h head ys rs Hd Hne) as (Hhn & Hen & Hndy & Hndr & Hap & ? & ? & ? & ? & Hlive).
  destruct (ends_of head ys Hndy Hne) as (Hb1 & Hb2 & Ha1 & Ha2 & Hr & Ht).
  rewrite Eb in *. set (f := after head ys) in *. set (nf := after head rs) in *.
  assert (list ∉ ys ∧ list ∉ head :: rs) as [Hly Hlr].
  { rewrite elem_of_cons, elem_of_app in Hln. rewrite elem_of_cons. tauto. }
  assert (list ≠ head ∧ list ≠ nf ∧ list ≠ f ∧ list ≠ e) as (? & ? & ? & ?).
  { pose proof (after_elem head rs). split_and!; intros ->; try done. by apply Hlr, elem_of_cons; left. }
  pose proof (Hlive head ltac:(rewrite !elem_of_cons; auto)). pose proof (Hlive e ltac:(rewrite !elem_of_cons; auto)).
  pose proof (Hlive f ltac:(rewrite !elem_of_cons; auto)). pose proof (Hlive nf ltac:(rewrite !elem_of_cons; auto 6)).
  unfold __list_cut_position. do 3 dstep.
  assert (nextOf (put_next list f h) list = Some f) as Hlf by (fields; decides).
  dstep. do 5 dstep. eexists. split; [done|]. split.
  - split; [by apply list.NoDup_cons|]. eapply (linked_between h _ head nf); [|done| | | |].
    + pose proof (dl_linked _ _ _ Hd) as Hl. destruct (after_split head rs) as (l2 & El2).
      rewrite <- app_assoc, El2, app_comm_cons, linked_app, <- app_comm_cons in Hl. apply Hl.
    + intros y Hy. assert (y ≠ list ∧ y ≠ e ∧ y ≠ head) as (? & ? & ?);
        [|fields; decides]. split_and!; intros ->; [by apply Hly, Hr|done|].
      apply (Hap head); [by apply Hr|by apply elem_of_cons; left].
    + intros y Hy. assert (y ≠ list ∧ y ≠ f ∧ y ≠ nf) as (? & ? & ?);
        [|fields; decides]. split_and!; intros ->; [by apply Hly, Ht|done|].
      apply (Hap nf); [by apply Ht|apply after_elem].
    + assert (after nf ys = f) as -> by (unfold f, after; by destruct ys). unfold link. fields. decides.
    + rewrite Eb. unfold link. fields. decides.
  - apply (ring_edit h _ head [] ys [] rs); [done|done| | |].
    + intros y Hy Hyp. change (before head []) with head in Hyp.
      assert (y ≠ list ∧ y ≠ e) as (? & ?); [|fields; decides]. split; intros ->; [done|by apply (Hap e)].
    + intros y Hy Hyp. fold nf in Hyp.
      assert (y ≠ list ∧ y ≠ f) as (? & ?); [|fields; decides]. split; intros ->; [done|by apply (Hap f)].
    + cbn [app linked]. change (before head []) with head. fold nf. unfold link. fields. decides.
Qed.

Lemma list_replace_run h head ls old rs new :
  dlist h head (ls ++ old :: rs) → new ∉ head :: ls ++ old :: rs → live h new →
  ∃ h', list_replace old new h = Ret tt h' ∧ dlist h' head (ls ++ new :: rs) ∧
    changes [new; before head ls; after head rs] h h'.
Proof.
  intros Hd Hnew Hl. pose proof (ring_around _ _ _ _ _ Hd) as [Hp Hn].
  destruct (ring_nodes _ _ _ _ _ Hd) as (He & Hnd & Hle & Hlb & Hla & Hep & Hen).
  assert (new ∉ head :: ls ++ rs ∧ new ≠ old) as [Hnew' Hno].
  { rewrite elem_of_cons, elem_of_app, elem_of_cons in Hnew. rewrite elem_of_cons, elem_of_app. tauto. }
  assert (new ≠ before head ls ∧ new ≠ after head rs) as [? ?].
  { pose proof (before_elem head ls) as Hb. pose proof (after_elem head rs) as Ha.
    rewrite !elem_of_cons, !elem_of_app in *. split; intros E; rewrite <- E in *; tauto. }
  set (p := before head ls) in *. set (n := after head rs) in *.
  unfold list_replace. do 2 dstep.
  assert (nextOf (put_next new n h) new = Some n) as H1 by (fields; decides). do 2 dstep.
  assert (prevOf (put_prev n new (put_next new n h)) old = Some p) as H2 by (fields; decides). do 2 dstep.
  assert (prevOf (put_prev new p (put_prev n new (put_next new n h))) new = Some p) as H3 by (fields; decides).
  do 2 dstep. eexists. split; [done|]. split; [|changed].
  apply (ring_edit h _ head ls [old] [new] rs); [done|by apply nodup_insert| | |].
  - intros y Hy Hyp. assert (y ≠ new) by (by intros ->). fields. decides.
  - intros y Hy Hyp. assert (y ≠ new) by (by intros ->). fields. decides.
  - cbn [app linked]. fold p n. unfold link. fields. decides.
Qed.

(** ** Walking a ring *)

Lemma for_each_run h head rs : ∀ ls fuel,
  dlist h head (ls ++ rs) → (length rs < fuel)%nat →
  list_for_each fuel (after head rs) head h = Ret rs h.
Proof.
  induction rs as [|x rs IH]; intros ls [|fuel] Hd Hf; simpl in Hf; try lia; cbn [list_for_each].
  { change (after head []) with head. by rewrite Z.eqb_refl. }
  change (after head (x :: rs)) with x. destruct (ring_nodes _ _ _ _ _ Hd) as (Hx & _).
  rewrite (proj2 (Z.eqb_neq x head)) by (intros ->; apply Hx; by apply elem_of_cons; left).
  pose proof (ring_around _ _ _ _ _ Hd) as [_ Hn]. dstep.
  rewrite (bind_ret _ _ _ _ _ (IH (ls ++ [x]) fuel ltac:(by rewrite <- app_assoc) ltac:(lia))). done.
Qed.

Lemma for_each_prev_run h head ls : ∀ rs fuel,
  dlist h head (ls ++ rs) → (length ls < fuel)%nat →
  list_for_each_prev fuel (before head ls) head h = Ret (reverse ls) h.
Proof.
  induction ls as [|x ls IH] using rev_ind; intros rs [|fuel] Hd Hf;
    rewrite ?length_app in Hf; simpl in Hf; try lia; cbn [list_for_each_prev].
  { change (before head []) with head. by rewrite Z.eqb_refl. }
  assert (before head (ls ++ [x]) = x) as -> by (unfold before; by rewrite list.last_snoc).
  rewrite <- app_assoc in Hd. simpl in Hd. destruct (ring_nodes _ _ _ _ _ Hd) as (Hx & _).
  rewrite (proj2 (Z.eqb_neq x head)) by (intros ->; apply Hx; by apply elem_of_cons; left).
  pose proof (ring_around _ _ _ _ _ Hd) as [Hp _]. dstep.
  rewrite (bind_ret _ _ _ _ _ (IH (x :: rs) fuel Hd ltac:(lia))). by rewrite reverse_snoc.
Qed.

(** ** A list object and its operations

    One ring with its operations, against the list of its nodes; the nodes not in
    the ring exist and can be added. *)
Inductive op : Type :=
| OAdd (x : Z) | OAddTail (x : Z) | ODel (x : Z) | ODelInit (x : Z)
| OMove (x : Z) | OMoveTail (x : Z) | ORotate | OReplace (old new : Z).

Definition run_op (head : Z) (o : op) : M heap unit :=
  match o with
  | OAdd x => list_add x head
  | OAddTail x => list_add_tail x head
  | ODel x => list_del x
  | ODelInit x => list_del_init x
  | OMove x => list_move x head
  | OMoveTail x => list_move_tail x head
  | ORotate => list_rotate_left head
  | OReplace old new => list_replace old new
  end.

Definition remove_node (x : Z) (xs : list Z) : list Z := filter (λ y, y ≠ x) xs.

(** What the operation means for the list of nodes. *)
Definition spec_op (o : op) (xs : list Z) : list Z :=
  match o with
  | OAdd x => x :: xs
  | OAddTail x => xs ++ [x]
  | ODel x | ODelInit x => remove_node x xs
  | OMove x => x :: remove_node x xs
  | OMoveTail x => remove_node x xs ++ [x]
  | ORotate => rotate_left xs
  | OReplace old new => (λ y, if decide (y = old) then new else y) <$> xs
  end.

(** A node is added only when it is not in the list, and the others must be. *)
Definition op_ok (head : Z) (nodes xs : list Z) (o : op) : Prop :=
  match o with
  | OAdd x | OAddTail x => x ∈ nodes ∧ x ∉ xs
  | ODel x | ODelInit x | OMove x | OMoveTail x => x ∈ xs
  | ORotate => True
  | OReplace old new => old ∈ xs ∧ new ∈ nodes ∧ new ∉ xs
  end.

Lemma remove_none (x : Z) (l : list Z) : x ∉ l → filter (λ y, y ≠ x) l = l.
Proof.
  induction l as [|y l IH]; [done|]. intros [Hy Hl]%not_elem_of_cons.
  rewrite filter_cons_True by congruence. by rewrite IH.
Qed.

Lemma remove_split (x : Z) ls rs : x ∉ ls ++ rs → remove_node x (ls ++ x :: rs) = ls ++ rs.
Proof.
  intros Hn. unfold remove_node. rewrite list.filter_app, filter_cons_False by (intros H; by apply H).
  rewrite elem_of_app in Hn. rewrite !remove_none by tauto. done.
Qed.

Lemma replace_split (x z : Z) ls rs : x ∉ ls ++ rs →
  ((λ y, if decide (y = x) then z else y) <$> ls ++ x :: rs) = ls ++ z :: rs.
Proof.
  intros Hn. rewrite elem_of_app in Hn. rewrite fmap_app, fmap_cons. rewrite decide_True by done.
  assert (∀ l : list Z, x ∉ l → ((λ y, if decide (y = x) then z else y) <$> l) = l) as H.
  { intros l Hl. rewrite <- (list_fmap_id l) at 2. apply list.list_fmap_ext. intros i y Hy.
    apply list_elem_of_lookup_2 in Hy. destruct (decide (y = x)); [by subst|done]. }
  rewrite !H by tauto. done.
Qed.

Lemma list_del_init_run h head ls e rs :
  dlist h head (ls ++ e :: rs) →
  ∃ h', list_del_init e h = Ret tt h' ∧ dlist h' head (ls ++ rs) ∧ dlist h' e [] ∧
    changes (head :: ls ++ e :: rs) h h'.
Proof.
  intros Hd. destruct (del_entry_run _ _ _ _ _ Hd) as (h1 & E1 & Hd1 & Hl1 & He & Hc1).
  destruct (init_run h1 e Hl1) as (h2 & E2 & Hd2 & Hc2). exists h2. unfold list_del_init.
  rewrite (bind_ret _ _ _ _ _ E1). split_and!; try done.
  - eapply changes_dlist; [exact Hc2| |done]. intros y Hy. rewrite list_elem_of_singleton. by intros ->.
  - eapply changes_trans; [exact Hc1|]. eapply changes_sub; [|exact Hc2]. intros y.
    rewrite list_elem_of_singleton. intros ->. rewrite elem_of_cons, elem_of_app, elem_of_cons. auto.
Qed.

Definition all_live (h : heap) (nodes : list Z) : Prop := ∀ x, x ∈ nodes → live h x.

Lemma live_keep h h' xs nodes : all_live h nodes → changes xs h h' → all_live h' nodes.
Proof. intros Hl [Hc _] x Hx. by apply Hc, Hl. Qed.

(** One operation. *)
Lemma op_sim h head nodes xs o :
  dlist h head xs → all_live h nodes → head ∉ nodes → op_ok head nodes xs o →
  ∃ h', run_op head o h = Ret tt h' ∧ dlist h' head (spec_op o xs) ∧ all_live h' nodes.
Proof.
  intros Hd Hl Hh Ho.
  assert (∀ x, x ∈ xs → ∃ ls rs, xs = ls ++ x :: rs ∧ x ∉ ls ++ rs) as Hsplit.
  { intros x Hx. apply list_elem_of_split in Hx as (ls & rs & ->). exists ls, rs. split; [done|].
    destruct (ring_nodes _ _ _ _ _ Hd) as (Hn & _). rewrite elem_of_cons in Hn. tauto. }
  assert (∀ x, x ∈ nodes → x ∉ xs → x ∉ head :: xs) as Hnew.
  { intros x Hx Hn. rewrite elem_of_cons. intros [->|?]; done. }
  destruct o as [x|x|x|x|x|x| |x y]; simpl in *.
  - destruct Ho. destruct (list_add_run h head xs x) as (h' & ? & ? & ?); eauto using live_keep.
  - destruct Ho. destruct (list_add_tail_run h head xs x) as (h' & ? & ? & ?); eauto using live_keep.
  - destruct (Hsplit x Ho) as (ls & rs & -> & Hn). rewrite remove_split by done.
    destruct (list_del_run _ _ _ _ _ Hd) as (h' & ? & ? & _ & ?); eauto using live_keep.
  - destruct (Hsplit x Ho) as (ls & rs & -> & Hn). rewrite remove_split by done.
    destruct (list_del_init_run _ _ _ _ _ Hd) as (h' & ? & ? & _ & ?); eauto using live_keep.
  - destruct (Hsplit x Ho) as (ls & rs & -> & Hn). rewrite remove_split by done.
    destruct (list_move_run _ _ _ _ _ Hd) as (h' & ? & ? & ?); eauto using live_keep.
  - destruct (Hsplit x Ho) as (ls & rs & -> & Hn). rewrite remove_split by done.
    destruct (list_move_tail_run _ _ _ _ _ Hd) as (h' & ? & ? & ?); eauto using live_keep.
  - destruct (list_rotate_left_run _ _ _ Hd) as (h' & ? & ? & ?); eauto using live_keep.
  - destruct Ho as (Hx & Hy & Hyn). destruct (Hsplit x Hx) as (ls & rs & -> & Hn).
    rewrite replace_split by done.
    destruct (list_replace_run h head ls x rs y) as (h' & ? & ? & ?); eauto using live_keep.
Qed.

(** A sequence of operations. *)
Fixpoint run_ops (head : Z) (os : list op) : M heap unit :=
  match os with [] => mret tt | o :: os => run_op head o ;; run_ops head os end.

Fixpoint ops_ok (head : Z) (nodes xs : list Z) (os : list op) : Prop :=
  match os with
  | [] => True
  | o :: os => op_ok head nodes xs o ∧ ops_ok head nodes (spec_op o xs) os
  end.

Lemma ops_sim head nodes os : ∀ h xs,
  dlist h head xs → all_live h nodes → head ∉ nodes → ops_ok head nodes xs os →
  ∃ h', run_ops head os h = Ret tt h' ∧ dlist h' head (foldl (λ xs o, spec_op o xs) xs os).
Proof.
  induction os as [|o os IH]; intros h xs Hd Hl Hh Ho; simpl in *; [eauto|]. destruct Ho as [Ho Hos].
  destruct (op_sim h head nodes xs o) as (h1 & E1 & Hd1 & Hl1); [done..|].
  rewrite (bind_ret _ _ _ _ _ E1). by apply IH.
Qed.

(** ** Properties *)

(** C22. The list operations refine lists: any sequence of [list_add],
    [list_add_tail], [list_del], [list_del_init], [list_move], [list_move_tail],
    [list_rotate_left] and [list_replace] on a ring runs without a fault and leaves
    the ring that the same operations give on the list of its nodes; walking it
    forwards with [list_for_each] visits exactly those nodes, and backwards the
    reverse. *)
Theorem list_ops_refine h head nodes xs os :
  dlist h head xs → all_live h nodes → head ∉ nodes → ops_ok head nodes xs os →
  ∃ h' ys, run_ops head os h = Ret tt h' ∧ ys = foldl (λ xs o, spec_op o xs) xs os ∧ dlist h' head ys ∧
    (∀ fuel, (length ys < fuel)%nat →
       (n ← get_next head; list_for_each fuel n head) h' = Ret ys h' ∧
       (p ← get_prev head; list_for_each_prev fuel p head) h' = Ret (reverse ys) h') ∧
    list_empty head h' = Ret (bool_decide (ys = [])) h'.
Proof.
  intros Hd Hl Hh Ho. destruct (ops_sim head nodes os h xs Hd Hl Hh Ho) as (h' & E & Hd').
  exists h', (foldl (λ xs o, spec_op o xs) xs os). set (ys := foldl _ _ _) in *. split_and!; try done.
  - intros fuel Hf. pose proof Hd' as Hd2. rewrite <- (app_nil_r ys) in Hd2.
    destruct (ring_link h' head [] ys Hd') as [Hn _], (ring_link h' head ys [] Hd2) as [_ Hp].
    rewrite (bind_ret _ _ _ _ _ (get_next_run _ _ _ Hn)), (bind_ret _ _ _ _ _ (get_prev_run _ _ _ Hp)).
    split; [by apply (for_each_run h' head ys [])|by apply (for_each_prev_run h' head ys [])].
  - by apply list_empty_run.
Qed.

(** Decides a closed statement. *)
#[local] Ltac by_compute := refine (bool_decide_unpack _ _); vm_compute; exact I.

(** Four nodes of their own, head 1000. *)
Definition sample_nodes : heap :=
  list_to_map ((λ a, (a, Node a a)) <$> [1000; 16; 32; 48]).

Lemma sample_ring : dlist sample_nodes 1000 [].
Proof.
  split; [apply list.NoDup_cons; split; [apply not_elem_of_nil|by apply NoDup_nil_2]|].
  cbn [app linked]. by vm_compute.
Qed.

Lemma list_ops_refine_witness :
  ∃ h', run_ops 1000 [OAdd 16; OAddTail 32; OAdd 48; ORotate; OMove 32; ODel 16] sample_nodes = Ret tt h' ∧
    dlist h' 1000 [32; 48].
Proof.
  destruct (list_ops_refine sample_nodes 1000 [16; 32; 48] []
              [OAdd 16; OAddTail 32; OAdd 48; ORotate; OMove 32; ODel 16] sample_ring)
    as (h' & ys & E & Ey & Hd & _).
  - intros x. rewrite !elem_of_cons. intros [->|[->|[->|H]]]; [by eexists..|by apply not_elem_of_nil in H].
  - by_compute.
  - cbn [ops_ok op_ok]. split_and!; by_compute.
  - exists h'. split; [exact E|]. vm_compute in Ey. rewrite Ey in Hd. exact Hd.
Defined.

(** Splicing joins two rings: [list_splice] puts the nodes of the first list
    before those of the second, [list_splice_tail] after them, and the [_init]
    versions leave the first list empty. *)
Theorem list_splice_correct h list ys head xs (tl init : bool) :
  dlist h list ys → dlist h head xs → apart (list :: ys) (head :: xs) →
  ∃ h', (match tl, init with
         | false, false => list_splice | false, true => list_splice_init
         | true, false => list_splice_tail | true, true => list_splice_tail_init
         end) list head h = Ret tt h' ∧
    dlist h' head (if tl then xs ++ ys else ys ++ xs) ∧ (init = true → dlist h' list []).
Proof.
  intros Hl Hd Hap. destruct (splice_run h list ys head xs tl init Hl Hd Hap) as (h' & E & HR).
  exists h'. split; [|done]. by destruct tl, init.
Qed.

(** 1000 with 16 and 2000 with 32. *)
Definition sample_two : heap :=
  list_to_map [(1000, Node 16 16); (16, Node 1000 1000); (2000, Node 32 32); (32, Node 2000 2000); (48, Node 0 0)].

Lemma sample_two_rings : dlist sample_two 1000 [16] ∧ dlist sample_two 2000 [32].
Proof.
  split; (split; [by_compute|]); cbn [app linked];
    split_and!; by vm_compute.
Qed.

Lemma list_splice_correct_witness :
  ∃ h', list_splice_tail_init 2000 1000 sample_two = Ret tt h' ∧ dlist h' 1000 [16; 32] ∧ dlist h' 2000 [].
Proof.
  destruct sample_two_rings as [H1 H2].
  destruct (list_splice_correct sample_two 2000 [32] 1000 [16] true true H2 H1) as (h' & E & Hd & Hi).
  - intros y. rewrite !elem_of_cons. intros [->|[->|H]]; [by_compute..|by apply not_elem_of_nil in H].
  - exists h'. split; [exact E|]. split; [exact Hd|]. exact (Hi eq_refl).
Defined.

(** [list_cut_position] moves the nodes up to and including the given one from
    a list to another head and leaves the rest. *)
Theorem list_cut_position_correct h list head xs e rs :
  dlist h head (xs ++ e :: rs) → live h list → list ∉ head :: xs ++ e :: rs →
  ∃ h', list_cut_position list head e h = Ret tt h' ∧ dlist h' list (xs ++ [e]) ∧ dlist h' head rs.
Proof. apply list_cut_run. Qed.

Lemma list_cut_position_correct_witness :
  ∃ h', list_cut_position 48 1000 16 sample_two = Ret tt h' ∧ dlist h' 48 [16] ∧ dlist h' 1000 [].
Proof.
  apply (list_cut_position_correct sample_two 48 1000 [] 16 []); [apply sample_two_rings|by eexists|].
  by_compute.
Defined.

(** ** The checking versions do the same *)

Lemma nodes_ret {A} (m : M heap A) h w a h' : m h = Ret a h' → debug.nodes m (h, w) = Ret a (h', w).
Proof. intros E. unfold debug.nodes, zoom. simpl. by rewrite E. Qed.

Lemma WARN_false h w : debug.WARN false (h, w) = Ret false (h, w).
Proof. unfold debug.WARN. by rewrite orb_false_r. Qed.

(** The addresses of nodes of a ring are not the poison values. *)
Definition unpoisoned (xs : list Z) : Prop := LIST_POISON1 ∉ xs ∧ LIST_POISON2 ∉ xs.

Lemma debug_add_run h w head ls rs new :
  dlist h head (ls ++ rs) → new ∉ head :: ls ++ rs → live h new →
  ∃ h', __list_add new (before head ls) (after head rs) h = Ret tt h' ∧
    debug.__list_add new (before head ls) (after head rs) (h, w) = Ret tt (h', w).
Proof.
  intros Hd Hnew Hl. pose proof (ring_link _ _ _ _ Hd) as [Hn Hp].
  destruct (list_add_between _ _ _ _ _ Hd Hnew Hl) as (h' & E & _). exists h'. split; [done|].
  pose proof (before_elem head ls) as Hb. pose proof (after_elem head rs) as Ha.
  assert (new ≠ before head ls ∧ new ≠ after head rs) as [Hnp Hnn].
  { rewrite elem_of_cons, elem_of_app in Hnew. apply elem_of_cons in Hb, Ha. naive_solver. }
  unfold debug.__list_add.
  rewrite (bind_ret _ _ _ _ _ (nodes_ret _ _ w _ _ (get_prev_run _ _ _ Hp))), Z.eqb_refl. cbn [negb].
  rewrite (bind_ret _ _ _ _ _ (WARN_false h w)).
  rewrite (bind_ret _ _ _ _ _ (nodes_ret _ _ w _ _ (get_next_run _ _ _ Hn))), Z.eqb_refl. cbn [negb].
  rewrite (bind_ret _ _ _ _ _ (WARN_false h w)).
  rewrite (proj2 (Z.eqb_neq _ _) Hnp), (proj2 (Z.eqb_neq _ _) Hnn). cbn [orb].
  rewrite (bind_ret _ _ _ _ _ (WARN_false h w)).
  unfold __list_add in E.
  apply bind_inv in E as ([] & h1 & E1 & E). rewrite (bind_ret _ _ _ _ _ (nodes_ret _ _ w _ _ E1)).
  apply bind_inv in E as ([] & h2 & E2 & E). rewrite (bind_ret _ _ _ _ _ (nodes_ret _ _ w _ _ E2)).
  apply bind_inv in E as ([] & h3 & E3 & E). rewrite (bind_ret _ _ _ _ _ (nodes_ret _ _ w _ _ E3)).
  by apply nodes_ret.
Qed.

Lemma debug_del_run h w head ls e rs :
  dlist h head (ls ++ e :: rs) → unpoisoned (head :: ls ++ e :: rs) →
  ∃ h', list_del e h = Ret tt h' ∧ debug.list_del e (h, w) = Ret tt (h', w).
Proof.
  intros Hd [Hu1 Hu2]. destruct (list_del_run _ _ _ _ _ Hd) as (h' & E & _). exists h'. split; [done|].
  pose proof (ring_around _ _ _ _ _ Hd) as [Hp Hn].
  pose proof (ring_link h head ls (e :: rs) Hd) as [Hpn _]. change (after head (e :: rs)) with e in Hpn.
  assert (prevOf h (after head rs) = Some e) as Hnp.
  { replace (ls ++ e :: rs) with ((ls ++ [e]) ++ rs) in Hd by (by rewrite <- app_assoc).
    apply ring_link in Hd as [_ H]. unfold before in H. by rewrite list.last_snoc in H. }
  assert (after head rs ≠ LIST_POISON1 ∧ before head ls ≠ LIST_POISON2) as [Ha Hb].
  { pose proof (before_elem head ls) as HB. pose proof (after_elem head rs) as HA.
    split; intros Ex; [apply Hu1; rewrite <- Ex|apply Hu2; rewrite <- Ex];
      rewrite elem_of_cons, elem_of_app, elem_of_cons; rewrite elem_of_cons in HA, HB; tauto. }
  unfold debug.list_del, debug.__list_del_entry. rewrite bind_assoc.
  rewrite (bind_ret _ _ _ _ _ (nodes_ret _ _ w _ _ (get_prev_run _ _ _ Hp))), bind_assoc.
  rewrite (bind_ret _ _ _ _ _ (nodes_ret _ _ w _ _ (get_next_run _ _ _ Hn))), bind_assoc.
  rewrite (proj2 (Z.eqb_neq _ _) Ha), (bind_ret _ _ _ _ _ (WARN_false h w)), bind_assoc.
  rewrite (proj2 (Z.eqb_neq _ _) Hb), (bind_ret _ _ _ _ _ (WARN_false h w)), bind_assoc.
  rewrite (bind_ret _ _ _ _ _ (nodes_ret _ _ w _ _ (get_next_run _ _ _ Hpn))), bind_assoc, Z.eqb_refl. cbn [negb].
  rewrite (bind_ret _ _ _ _ _ (WARN_false h w)), bind_assoc.
  rewrite (bind_ret _ _ _ _ _ (nodes_ret _ _ w _ _ (get_prev_run _ _ _ Hnp))), bind_assoc, Z.eqb_refl. cbn [negb].
  rewrite (bind_ret _ _ _ _ _ (WARN_false h w)).
  unfold list_del in E. rewrite (bind_ret _ _ _ _ _ (get_prev_run _ _ _ Hp)), (bind_ret _ _ _ _ _ (get_next_run _ _ _ Hn)) in E.
  apply bind_inv in E as ([] & h1 & E1 & E). rewrite (bind_ret _ _ _ _ _ (nodes_ret _ _ w _ _ E1)).
  apply bind_inv in E as ([] & h2 & E2 & E). rewrite (bind_ret _ _ _ _ _ (nodes_ret _ _ w _ _ E2)).
  by apply nodes_ret.
Qed.

(** The checking [__list_add] and [list_del] of list_debug.c do on a well-formed
    list exactly what the inline versions do, without a warning; deleting a node
    twice is caught: the second [list_del] warns and leaves every other node. *)
Theorem list_debug_agrees h head ls e rs new :
  dlist h head (ls ++ e :: rs) → unpoisoned (head :: ls ++ e :: rs) →
  new ∉ head :: ls ++ e :: rs → live h new →
  (∃ h', __list_add new (before head ls) e h = Ret tt h' ∧
         debug.__list_add new (before head ls) e (h, false) = Ret tt (h', false)) ∧
  (∃ h', list_del e h = Ret tt h' ∧ debug.list_del e (h, false) = Ret tt (h', false) ∧
         debug.list_del e (h', false) = Ret tt (h', true)).
Proof.
  intros Hd Hu Hnew Hl. split; [exact (debug_add_run h false head ls (e :: rs) new Hd Hnew Hl)|].
  destruct (debug_del_run h false head ls e rs Hd Hu) as (h' & E & E'). exists h'. split_and!; try done.
  destruct (list_del_run _ _ _ _ _ Hd) as (h1 & E1 & _ & Hpo & _). rewrite E in E1. simplify_eq.
  assert (nextOf h1 e = Some LIST_POISON1 ∧ prevOf h1 e = Some LIST_POISON2) as [Hn Hp].
  { unfold nextOf, prevOf. by rewrite Hpo. }
  unfold debug.list_del, debug.__list_del_entry. rewrite bind_assoc.
  rewrite (bind_ret _ _ _ _ _ (nodes_ret _ _ false _ _ (get_prev_run _ _ _ Hp))), bind_assoc.
  rewrite (bind_ret _ _ _ _ _ (nodes_ret _ _ false _ _ (get_next_run _ _ _ Hn))), bind_assoc, Z.eqb_refl.
  assert (debug.WARN true (h1, false) = Ret true (h1, true)) as Ew by done.
  rewrite (bind_ret _ _ _ _ _ Ew). cbv iota beta. erewrite bind_ret by reflexivity.
  assert (live h1 e) as Hle by (eexists; exact Hpo).
  assert (put_next e LIST_POISON1 h1 = h1 ∧ put_prev e LIST_POISON2 h1 = h1) as [Ep1 Ep2].
  { split; apply map_eq; intros y; unfold put_next, put_prev; destruct (decide (y = e)) as [->|];
      rewrite ?lookup_alter_eq, ?lookup_alter_ne, ?Hpo by done; done. }
  rewrite (bind_ret _ _ _ _ _ (nodes_ret _ _ true _ _ (set_next_run h1 e LIST_POISON1 Hle))), Ep1.
  rewrite (nodes_ret _ _ true _ _ (set_prev_run h1 e LIST_POISON2 Hle)), Ep2. done.
Qed.

Lemma list_debug_agrees_witness :
  ∃ h', list_del 16 sample_two = Ret tt h' ∧ debug.list_del 16 (sample_two, false) = Ret tt (h', false) ∧
        debug.list_del 16 (h', false) = Ret tt (h', true).
Proof.
  refine (proj2 (list_debug_agrees sample_two 1000 [] 16 [] 48 (proj1 sample_two_rings) _ _ _)).
  - split; by_compute.
  - by_compute.
  - by eexists.
Defined.
