(* ===== verification/Llist.v ===== *)
(** * The lock-less list (include/yaos/llist.h, libs/list/llist.c)

    Threads that run [llist_add_batch], [llist_del_first] and [llist_del_all] on
    one list, interleaved at their accesses to shared memory.  Under the locking
    the header file asks for, every execution is one of a sequential stack whose
    operations take effect at the successful [cmpxchg] or [xchg]. *)

From Stdlib Require Import Lia ZArith.
From stdpp Require Import base gmap list numbers option.
From S2P Require Import Prelude.

#[local] Open Scope Z_scope.

(** [head->first], 0 for NULL, and the [next] field of every node. *)
Record shared : Type := Shared { first : Z; nxt : gmap Z Z }.

(** What a thread is doing.  A batch is the list of its nodes: [new_first] is the
    first, [new_last] the last. *)
Inductive thread : Type :=
| Idle
| AddRead (b : list Z)              (* about to read [head->first] *)
| AddWrite (b : list Z) (f : Z)     (* has read it; about to write [new_last->next] *)
| AddCas (b : list Z) (f : Z)       (* about to [cmpxchg] *)
| DelRead                           (* about to read [head->first] *)
| DelNext (entry : Z)               (* at the top of the loop *)
| DelCas (old_entry next : Z)       (* about to [cmpxchg] *)
| AllXchg.                          (* about to [xchg] *)

(** An operation takes effect, with the value it will return. *)
Inductive event : Type :=
| EvAdd (b : list Z) (was_empty : bool)
| EvFirst (r : Z)
| EvAll (r : Z).

Definition new_first (b : list Z) : Z := hd 0 b.
Definition new_last (b : list Z) : Z := List.last b 0.

(** ** The code, one shared access at a time *)

Definition llist_add_batch_step (s : shared) (t : thread) : option (shared * thread * option event) :=
  match t with
  | AddRead b => Some (s, AddWrite b (first s), None)
  | AddWrite b f => Some (Shared (first s) (<[new_last b := f]> (nxt s)), AddCas b f, None)
  | AddCas b f =>
      if first s =? f
      then Some (Shared (new_first b) (nxt s), Idle, Some (EvAdd b (f =? 0)))
      else Some (s, AddRead b, None)
  | _ => None
  end.

(** The value of [head->first] just read is NULL: the function will return it. *)
Definition saw (entry : Z) : option event := if entry =? 0 then Some (EvFirst 0) else None.

Definition llist_del_first_step (s : shared) (t : thread) : option (shared * thread * option event) :=
  match t with
  | DelRead => Some (s, DelNext (first s), saw (first s))
  | DelNext entry =>
      if entry =? 0 then Some (s, Idle, None) else
      match nxt s !! entry with
      | Some next => Some (s, DelCas entry next, None)
      | None => None
      end
  | DelCas old_entry next =>
      if first s =? old_entry
      then Some (Shared next (nxt s), Idle, Some (EvFirst old_entry))
      else Some (s, DelNext (first s), saw (first s))
  | _ => None
  end.

Definition llist_del_all_step (s : shared) (t : thread) : option (shared * thread * option event) :=
  match t with
  | AllXchg => Some (Shared 0 (nxt s), Idle, Some (EvAll (first s)))
  | _ => None
  end.

Definition tstep (s : shared) (t : thread) : option (shared * thread * option event) :=
  match t with
  | Idle => None
  | AddRead _ | AddWrite _ _ | AddCas _ _ => llist_add_batch_step s t
  | DelRead | DelNext _ | DelCas _ _ => llist_del_first_step s t
  | AllXchg => llist_del_all_step s t
  end.

(** ** Chains *)

(** The nodes [l] from the pointer [p] to NULL. *)
Fixpoint lchain (nx : gmap Z Z) (p : Z) (l : list Z) : Prop :=
  match l with
  | [] => p = 0
  | x :: l => p = x ∧ x ≠ 0 ∧ ∃ q, nx !! x = Some q ∧ lchain nx q l
  end.

(** The nodes of a batch are linked in order; the last one points anywhere. *)
Fixpoint lpath (nx : gmap Z Z) (b : list Z) : Prop :=
  match b with
  | x :: (y :: _) as b' => nx !! x = Some y ∧ lpath nx b'
  | _ => True
  end.

(** A caller links the nodes of its batch. *)
Fixpoint link_batch (b : list Z) (nx : gmap Z Z) : gmap Z Z :=
  match b with
  | x :: (y :: _) as b' => <[x := y]> (link_batch b' nx)
  | _ => nx
  end.

(** ** The system: threads and the nodes nobody uses *)

Record conf : Type := Conf { mem : shared; threads : list thread; pool : list Z }.

Definition in_del (t : thread) : Prop :=
  match t with DelRead | DelNext _ | DelCas _ _ => True | _ => False end.
Definition in_all (t : thread) : Prop := match t with AllXchg => True | _ => False end.

(** The nodes an event gives back to its caller. *)
Definition released (s : shared) (ev : option event) (rel : list Z) : Prop :=
  match ev with
  | Some (EvFirst r) => rel = if r =? 0 then [] else [r]
  | Some (EvAll r) => lchain (nxt s) r rel
  | _ => rel = []
  end.

(** One step: a thread runs, or starts an operation.  Unused nodes can be added,
    [llist_del_first] starts only when no other thread deletes, and
    [llist_del_all] only when none is in [llist_del_first], as the table in
    llist.h requires. *)
Inductive step : conf → option event → conf → Prop :=
| step_run s ths pl i t s' t' ev rel :
    ths !! i = Some t → tstep s t = Some (s', t', ev) → released s ev rel →
    step (Conf s ths pl) ev (Conf s' (<[i := t']> ths) (rel ++ pl))
| step_add s ths pl i b pl' :
    ths !! i = Some Idle → b ≠ [] → pl ≡ₚ b ++ pl' →
    step (Conf s ths pl) None (Conf (Shared (first s) (link_batch b (nxt s))) (<[i := AddRead b]> ths) pl')
| step_del s ths pl i :
    ths !! i = Some Idle → (∀ t, t ∈ ths → ¬ in_del t ∧ ¬ in_all t) →
    step (Conf s ths pl) None (Conf s (<[i := DelRead]> ths) pl)
| step_all s ths pl i :
    ths !! i = Some Idle → (∀ t, t ∈ ths → ¬ in_del t) →
    step (Conf s ths pl) None (Conf s (<[i := AllXchg]> ths) pl).

(** Executions with their trace of events. *)
Inductive execution : conf → list event → conf → Prop :=
| exec_nil c : execution c [] c
| exec_step c tr c' ev c'' :
    execution c tr c' → step c' ev c'' → execution c (tr ++ option_list ev) c''.

(** ** The sequential stack *)

(** The operation on the list of nodes, or [None] when the value returned is not
    the one a sequential stack returns. *)
Definition spec_event (e : event) (L : list Z) : option (list Z) :=
  match e with
  | EvAdd b was_empty => if decide (was_empty = bool_decide (L = [])) then Some (b ++ L) else None
  | EvFirst r =>
      match L with
      | [] => if r =? 0 then Some [] else None
      | x :: L => if r =? x then Some L else None
      end
  | EvAll r => if r =? hd 0 L then Some [] else None
  end.

Fixpoint spec_events (es : list event) (L : list Z) : option (list Z) :=
  match es with
  | [] => Some L
  | e :: es => match spec_event e L with Some L => spec_events es L | None => None end
  end.

(** ** The invariant *)

Definition batch (t : thread) : list Z :=
  match t with AddRead b | AddWrite b _ | AddCas b _ => b | _ => [] end.

Definition owned (ths : list thread) : list Z := concat (batch <$> ths).

(** What a thread knows: its batch is linked; [llist_del_first] has seen a node
    that is still in the list, and its successor. *)
Definition thread_ok (nx : gmap Z Z) (L : list Z) (t : thread) : Prop :=
  match t with
  | AddRead b | AddWrite b _ => b ≠ [] ∧ lpath nx b
  | AddCas b f => b ≠ [] ∧ lpath nx b ∧ nx !! new_last b = Some f
  | DelNext e => e = 0 ∨ e ∈ L
  | DelCas o n => o ∈ L ∧ nx !! o = Some n
  | _ => True
  end.

Record inv (c : conf) (L : list Z) : Prop := {
  inv_chain : lchain (nxt (mem c)) (first (mem c)) L;
  inv_nodup : NoDup (0 :: L ++ pool c ++ owned (threads c));
  inv_dom : ∀ x, x ∈ L ++ pool c ++ owned (threads c) → is_Some (nxt (mem c) !! x);
  inv_threads : ∀ i t, threads c !! i = Some t → thread_ok (nxt (mem c)) L t;
  inv_excl : ∀ i j t t', threads c !! i = Some t → threads c !! j = Some t' → i ≠ j →
    in_del t → ¬ in_del t' ∧ ¬ in_all t'
}.

Lemma lchain_frame nx nx' p l : lchain nx p l → (∀ x, x ∈ l → nx' !! x = nx !! x) → lchain nx' p l.
Proof.
  revert p. induction l as [|x l IH]; intros p; simpl; [done|].
  intros (-> & Hx & q & Hq & Hl) H. split_and!; try done. exists q.
  rewrite H by (by apply elem_of_cons; left). split; [done|]. apply IH; [done|].
  intros y Hy. apply H. by apply elem_of_cons; right.
Qed.

Lemma lpath_frame nx nx' b : lpath nx b → (∀ x, x ∈ b → nx' !! x = nx !! x) → lpath nx' b.
Proof.
  induction b as [|x b IH]; [done|]. destruct b as [|y b]; [done|]. intros [Hx Hb] H. split.
  - rewrite H by (by apply elem_of_cons; left). done.
  - apply IH; [done|]. intros z Hz. apply H. by apply elem_of_cons; right.
Qed.

Lemma new_last_elem b : b ≠ [] → new_last b ∈ b.
Proof.
  intros Hb. destruct b as [|x b]; [done|]. unfold new_last. clear Hb. revert x.
  induction b as [|w l IH]; intros z; [by apply elem_of_cons; left|].
  change (List.last (z :: w :: l) 0) with (List.last (w :: l) 0). apply elem_of_cons. by right.
Qed.

(** Writing the last node of a batch leaves its links. *)
Lemma lpath_last nx b f : lpath nx b → NoDup b → lpath (<[new_last b := f]> nx) b.
Proof.
  induction b as [|x b IH]; [done|]. destruct b as [|y b]; [done|]. intros [Hx Hb] [Hn Hnd]%list.NoDup_cons.
  split.
  - rewrite lookup_insert_ne; [done|]. intros E. apply Hn. rewrite <- E.
    change (new_last (x :: y :: b)) with (new_last (y :: b)). by apply new_last_elem.
  - by apply IH.
Qed.

(** A linked batch whose last node points to a chain is a chain. *)
Lemma lchain_push nx b f L :
  b ≠ [] → 0 ∉ b → lpath nx b → nx !! new_last b = Some f → lchain nx f L →
  lchain nx (new_first b) (b ++ L).
Proof.
  intros Hb H0 Hp Hl HL. destruct b as [|x b]; [done|]. clear Hb. revert x H0 Hp Hl.
  induction b as [|y b IH]; intros x H0 Hp Hl; unfold new_first; simpl.
  - split_and!; [done|intros ->; apply H0; by apply elem_of_cons; left|]. eauto.
  - destruct Hp as [Hx Hp]. apply not_elem_of_cons in H0 as [Hx0 H0].
    split_and!; [done|done|]. exists y. split; [done|]. apply (IH y H0 Hp Hl).
Qed.

Lemma link_batch_path b nx : NoDup b → lpath (link_batch b nx) b.
Proof.
  induction b as [|x b IH]; [done|]. destruct b as [|y b]; [done|]. intros [Hn Hnd]%list.NoDup_cons.
  split.
  - change (link_batch (x :: y :: b) nx) with (<[x := y]> (link_batch (y :: b) nx)).
    by rewrite lookup_insert_eq.
  - eapply lpath_frame; [by apply IH|]. intros z Hz.
    change (link_batch (x :: y :: b) nx) with (<[x := y]> (link_batch (y :: b) nx)).
    rewrite lookup_insert_ne; [done|]. by intros ->.
Qed.

Lemma link_batch_other b nx x : x ∉ b → link_batch b nx !! x = nx !! x.
Proof.
  induction b as [|y b IH]; [done|]. destruct b as [|z b]; [done|]. intros [Hy Hn]%not_elem_of_cons.
  change (link_batch (y :: z :: b) nx) with (<[y := z]> (link_batch (z :: b) nx)).
  rewrite lookup_insert_ne by done. by apply IH.
Qed.

Lemma link_batch_dom b nx x : is_Some (nx !! x) → is_Some (link_batch b nx !! x).
Proof.
  intros Hx. induction b as [|y b IH]; [done|]. destruct b as [|z b]; [done|].
  change (link_batch (y :: z :: b) nx) with (<[y := z]> (link_batch (z :: b) nx)).
  rewrite lookup_insert_is_Some'. by right.
Qed.

(** The batches of the threads, one thread apart. *)
Lemma owned_split ths i t :
  ths !! i = Some t → ∃ rest, owned ths ≡ₚ batch t ++ rest ∧
    (∀ t', owned (<[i := t']> ths) ≡ₚ batch t' ++ rest) ∧
    ∀ j t', j ≠ i → ths !! j = Some t' → ∀ x, x ∈ batch t' → x ∈ rest.
Proof.
  intros Hi. apply list_elem_of_split_length in Hi as (l1 & l2 & -> & ->).
  exists (owned l1 ++ owned l2). unfold owned. split; [|split].
  - rewrite fmap_app, concat_app. simpl. by rewrite Permutation_app_swap_app.
  - intros t'. rewrite insert_app_r_alt by lia. rewrite Nat.sub_diag. simpl.
    rewrite fmap_app, concat_app. simpl. by rewrite Permutation_app_swap_app.
  - intros j t' Hj Ht' x Hx. rewrite <- concat_app, <- fmap_app. apply list_elem_of_In, in_concat.
    exists (batch t'). split; [|by apply list_elem_of_In].
    apply list_elem_of_In, list_elem_of_fmap. exists t'. split; [done|]. apply elem_of_app.
    destruct (decide (j < length l1)%nat).
    + left. rewrite lookup_app_l in Ht' by lia. by eapply list_elem_of_lookup_2.
    + right. rewrite lookup_app_r in Ht' by lia. destruct (j - length l1)%nat eqn:E; [lia|].
      simpl in Ht'. by eapply list_elem_of_lookup_2.
Qed.

(** What another thread knows survives a change that leaves its nodes and the list. *)
Lemma thread_ok_frame nx nx' L L' t :
  thread_ok nx L t → (∀ x, x ∈ batch t → nx' !! x = nx !! x) →
  (in_del t → (∀ x, x ∈ L → x ∈ L' ∧ nx' !! x = nx !! x)) → thread_ok nx' L' t.
Proof.
  intros Ht Hb HL. destruct t as [|b|b f|b f| |e|o n|]; simpl in *; try done.
  - destruct Ht. split; [done|]. by eapply lpath_frame.
  - destruct Ht. split; [done|]. by eapply lpath_frame.
  - destruct Ht as (? & ? & ?). split_and!; [done|by eapply lpath_frame|].
    rewrite Hb; [done|by apply new_last_elem].
  - destruct Ht as [?|He]; [by left|right]. by apply HL.
  - destruct Ht as [Ho Hn]. destruct (HL I o Ho) as [? ->]. done.
Qed.

(** ** Preservation *)

(** A step of thread [i]: nodes only move between the list, the pool and its
    batch, and the nodes of the others are not written. *)
Lemma inv_update s ths pl L i t s' t' pl' L' :
  inv (Conf s ths pl) L → ths !! i = Some t →
  lchain (nxt s') (first s') L' →
  L' ++ pl' ++ batch t' ≡ₚ L ++ pl ++ batch t →
  (∀ x, is_Some (nxt s !! x) → is_Some (nxt s' !! x)) →
  (∀ x, x ∉ pl → x ∉ batch t → nxt s' !! x = nxt s !! x) →
  thread_ok (nxt s') L' t' →
  (∀ j u, j ≠ i → ths !! j = Some u → in_del u → ∀ x, x ∈ L → x ∈ L') →
  (∀ j u, j ≠ i → ths !! j = Some u →
     (in_del t' → ¬ in_del u ∧ ¬ in_all u) ∧ (in_all t' → ¬ in_del u)) →
  inv (Conf s' (<[i := t']> ths) pl') L'.
Proof.
  intros [Hch Hnd Hdom Hthr Hex] Hi Hch' Hperm Hd Hsame Ht' Hsub Hex'. simpl in *.
  destruct (owned_split ths i t Hi) as (rest & Ho & Ho' & Hrest).
  assert (L' ++ pl' ++ owned (<[i := t']> ths) ≡ₚ L ++ pl ++ owned ths) as Hall.
  { rewrite Ho, Ho', (app_assoc pl), (app_assoc pl'), (app_assoc L), (app_assoc L'). by rewrite Hperm. }
  rewrite Ho in Hnd.
  assert (∀ x, x ∈ rest ∨ x ∈ L → x ∉ pl ∧ x ∉ batch t) as Hout.
  { apply list.NoDup_cons in Hnd as [_ Hnd]. apply list.NoDup_app in Hnd as (_ & HL & Hnd).
    apply list.NoDup_app in Hnd as (_ & Hp & Hnd). apply list.NoDup_app in Hnd as (_ & Hb & _).
    intros x Hx. split; intros Hin.
    - destruct Hx as [Hx|Hx]; [apply (Hp x Hin)|apply (HL x Hx)]; rewrite ?elem_of_app; tauto.
    - destruct Hx as [Hx|Hx]; [by apply (Hb x Hin)|apply (HL x Hx)]; rewrite !elem_of_app; tauto. }
  split; simpl.
  - done.
  - rewrite Hall, Ho. done.
  - intros x Hx. rewrite Hall in Hx. by apply Hd, Hdom.
  - intros j u Hj. destruct (decide (j = i)) as [->|Hne].
    + rewrite list_lookup_insert_eq in Hj by (by eapply lookup_lt_Some). by simplify_eq.
    + rewrite list_lookup_insert_ne in Hj by done. eapply thread_ok_frame; [by eapply Hthr| |].
      * intros x Hx. apply Hsame; apply Hout; left; by eapply Hrest.
      * intros Hu x Hx. split; [by eapply Hsub|]. apply Hsame; apply Hout; by right.
  - intros j k u v Hj Hk Hne Hu. destruct (decide (j = i)) as [->|Hji].
    + rewrite list_lookup_insert_eq in Hj by (by eapply lookup_lt_Some). simplify_eq.
      rewrite list_lookup_insert_ne in Hk by done. by eapply Hex'.
    + rewrite list_lookup_insert_ne in Hj by done. destruct (decide (k = i)) as [->|Hki].
      * rewrite list_lookup_insert_eq in Hk by (by eapply lookup_lt_Some). simplify_eq.
        destruct (Hex' j u Hji Hj) as [H1 H2]. split; intros H; [by apply (proj1 (H1 H))|by apply (H2 H)].
      * rewrite list_lookup_insert_ne in Hk by done. by eapply (Hex j k).
Qed.

Lemma lchain_head nx p L : lchain nx p L → p = hd 0 L.
Proof. destruct L; simpl; naive_solver. Qed.

Lemma lchain_zero nx L : lchain nx 0 L → L = [].
Proof. destruct L; simpl; [done|]. intros (<- & ? & _). done. Qed.

(** Between steps no thread but the one running enters a deletion. *)
Lemma excl_same c L i t t' :
  inv c L → threads c !! i = Some t → (in_del t' → in_del t) → (in_all t' → in_all t) →
  ∀ j u, j ≠ i → threads c !! j = Some u →
    (in_del t' → ¬ in_del u ∧ ¬ in_all u) ∧ (in_all t' → ¬ in_del u).
Proof.
  intros Hinv Hi Hd Ha j u Hj Hu. split; intros H.
  - apply (inv_excl _ _ Hinv i j t u); auto.
  - intros Hu'. apply (inv_excl _ _ Hinv j i u t) in Hu'; auto. by apply Hu', Ha.
Qed.

Definition effect (ev : option event) (L L' : list Z) : Prop :=
  match ev with None => L' = L | Some e => spec_event e L = Some L' end.

Lemma add_preserved s ths pl L i t s' t' ev rel :
  inv (Conf s ths pl) L → ths !! i = Some t → llist_add_batch_step s t = Some (s', t', ev) →
  released s ev rel → ∃ L', effect ev L L' ∧ inv (Conf s' (<[i := t']> ths) (rel ++ pl)) L'.
Proof.
  intros Hinv Hi Hst Hrel. pose proof (inv_threads _ _ Hinv i t Hi) as Ht. pose proof (inv_chain _ _ Hinv) as Hch.
  pose proof (excl_same _ _ i t t' Hinv Hi) as Hex. simpl in *.
  assert (NoDup (batch t) ∧ 0 ∉ batch t ∧ ∀ x, x ∈ L → x ∉ batch t) as (Hndb & H0 & HLb).
  { pose proof (inv_nodup _ _ Hinv) as Hnd. simpl in Hnd. destruct (owned_split ths i t Hi) as (rest & Ho & _).
    rewrite Ho in Hnd. apply list.NoDup_cons in Hnd as [Hz Hnd]. rewrite !elem_of_app in Hz.
    apply list.NoDup_app in Hnd as (_ & HL & Hnd). apply list.NoDup_app in Hnd as (_ & _ & Hnd).
    apply list.NoDup_app in Hnd as (Hb & _). split_and!; [done|tauto|].
    intros x Hx Hb'. apply (HL x Hx). rewrite !elem_of_app. tauto. }
  destruct t as [|b|b f|b f| |e|o n|]; simpl in Hst; try done.
  - simplify_eq. simpl in Hrel. subst rel. exists L. split; [done|].
    by eapply inv_update; eauto; simpl; auto.
  - simplify_eq. simpl in Hrel. subst rel. exists L. split; [done|]. destruct Ht as [Hb Hp].
    pose proof (new_last_elem b Hb) as Hlast.
    eapply inv_update; eauto; simpl; auto.
    + eapply lchain_frame; [done|]. intros x Hx. apply lookup_insert_ne. intros <-. by apply (HLb _ Hx).
    + intros x Hx. apply lookup_insert_is_Some'. by right.
    + intros x _ Hx. apply lookup_insert_ne. by intros <-.
    + split_and!; [done|by apply lpath_last|apply lookup_insert_eq].
  - destruct Ht as (Hb & Hp & Hl). destruct (Z.eqb_spec (first s) f) as [E|E]; simplify_eq; simpl in Hrel; subst rel.
    + exists (b ++ L). split.
      * simpl. rewrite decide_True; [done|]. pose proof (lchain_head _ _ _ Hch) as Eh.
        destruct (bool_decide_reflect (L = [])) as [->|HL]; [by rewrite Eh|].
        destruct L as [|x L]; [done|]. simpl in Hch. destruct Hch as (-> & Hx & _). by apply Z.eqb_neq.
      * eapply inv_update; eauto; simpl; auto.
        -- by eapply lchain_push.
        -- rewrite app_nil_r, <- app_assoc. rewrite (Permutation_app_comm b), <- app_assoc. done.
        -- intros j u _ _ _ x Hx. apply elem_of_app. by right.
    + exists L. split; [done|]. by eapply inv_update; eauto; simpl; auto.
Qed.

Lemma del_preserved s ths pl L i t s' t' ev rel :
  inv (Conf s ths pl) L → ths !! i = Some t → llist_del_first_step s t = Some (s', t', ev) →
  released s ev rel → ∃ L', effect ev L L' ∧ inv (Conf s' (<[i := t']> ths) (rel ++ pl)) L'.
Proof.
  intros Hinv Hi Hst Hrel. pose proof (inv_threads _ _ Hinv i t Hi) as Ht. pose proof (inv_chain _ _ Hinv) as Hch.
  pose proof (excl_same _ _ i t t' Hinv Hi) as Hex. simpl in *.
  assert (∀ r, r = first s → thread_ok (nxt s) L (DelNext r) ∧
            (effect (saw r) L L ∧ ∀ rel, released s (saw r) rel → rel = [])) as Hsaw.
  { intros r ->. pose proof (lchain_head _ _ _ Hch) as Eh. unfold saw. simpl.
    destruct (Z.eqb_spec (first s) 0) as [E0|E0]; simpl.
    - split_and!; [by left| |done]. rewrite E0 in Hch. by rewrite (lchain_zero _ _ Hch).
    - split_and!; [right|done|done]. destruct L; simpl in *; [lia|]. rewrite Eh. by apply elem_of_cons; left. }
  destruct t as [|b|b f|b f| |e|o n|]; simpl in Hst; try done.
  - simplify_eq. destruct (Hsaw (first s') eq_refl) as (Ht' & He & Hr). rewrite (Hr _ Hrel).
    exists L. split; [done|]. eapply inv_update; eauto; simpl; auto.
  - destruct (Z.eqb_spec e 0) as [->|He].
    + simplify_eq. simpl in Hrel. subst rel. exists L. split; [done|]. eapply inv_update; eauto; simpl; auto.
    + destruct (nxt s !! e) as [q|] eqn:Eq; simplify_eq. simpl in Hrel. subst rel. exists L. split; [done|].
      eapply inv_update; eauto; simpl; auto. split; [|done]. by destruct Ht.
  - destruct Ht as [Ho Hn]. destruct (Z.eqb_spec (first s) o) as [E|E]; simplify_eq.
    + destruct L as [|x L]; [by apply not_elem_of_nil in Ho|]. simpl in Hch.
      destruct Hch as (Ex & Hx & q & Hq & Hch). rewrite Ex in *. simplify_eq. simpl in Hrel.
      rewrite (proj2 (Z.eqb_neq _ _) Hx) in Hrel. subst rel. exists L. split; [simpl; by rewrite Z.eqb_refl|].
      eapply inv_update; eauto; simpl; auto.
      * rewrite !app_nil_r. by rewrite Permutation_middle.
      * intros j u Hj Hu Hdel. destruct (inv_excl _ _ Hinv j i u _ Hu Hi Hj Hdel) as [H _]. by destruct H.
    + destruct (Hsaw (first s') eq_refl) as (Ht' & He & Hr). rewrite (Hr _ Hrel).
      exists L. split; [done|]. eapply inv_update; eauto; simpl; auto.
Qed.

Lemma lchain_functional nx l l' : ∀ p, lchain nx p l → lchain nx p l' → l = l'.
Proof.
  revert l'. induction l as [|x l IH]; intros [|y l'] p; simpl; try done.
  - intros -> (<- & ? & _). done.
  - intros (-> & ? & _) ->. done.
  - intros (-> & _ & q & Hq & Hl) (-> & _ & q' & Hq' & Hl'). simplify_eq. f_equal. by eapply IH.
Qed.

Lemma all_preserved s ths pl L i t s' t' ev rel :
  inv (Conf s ths pl) L → ths !! i = Some t → llist_del_all_step s t = Some (s', t', ev) →
  released s ev rel → ∃ L', effect ev L L' ∧ inv (Conf s' (<[i := t']> ths) (rel ++ pl)) L'.
Proof.
  intros Hinv Hi Hst Hrel. pose proof (inv_chain _ _ Hinv) as Hch.
  pose proof (excl_same _ _ i t AllXchg Hinv Hi) as Hex. simpl in *.
  destruct t as [|b|b f|b f| |e|o n|]; simpl in Hst; try done. simplify_eq. simpl in Hrel.
  rewrite (lchain_functional _ _ _ _ Hrel Hch). exists []. split.
  - simpl. by rewrite <- (lchain_head _ _ _ Hch), Z.eqb_refl.
  - eapply inv_update; eauto; simpl; auto.
    + by rewrite !app_nil_r.
    + intros j u Hj Hu Hdel. by destruct (proj2 (Hex id id j u Hj Hu) I).
Qed.

(** Every step keeps the invariant and has the effect its event announces. *)
Lemma step_preserved c ev c' L :
  inv c L → step c ev c' → ∃ L', effect ev L L' ∧ inv c' L'.
Proof.
  intros Hinv Hst. destruct Hst as [s ths pl i t s' t' ev rel Hi Ht Hrel|s ths pl i b pl' Hi Hb Hpl
    |s ths pl i Hi Hno|s ths pl i Hi Hno].
  - destruct t; simpl in Ht; try done; eauto using add_preserved, del_preserved, all_preserved.
  - exists L. split; [done|].
    assert (NoDup b ∧ ∀ x, x ∈ L → x ∉ b) as [Hnb HLb].
    { pose proof (inv_nodup _ _ Hinv) as [_ Hnd]%list.NoDup_cons. simpl in Hnd. rewrite Hpl in Hnd.
      apply list.NoDup_app in Hnd as (_ & HL & Hnd). rewrite <- app_assoc in Hnd.
      apply list.NoDup_app in Hnd as (Hnd & _). split; [done|]. intros x Hx Hxb. apply (HL x Hx).
      rewrite !elem_of_app. tauto. }
    eapply inv_update; eauto; simpl; auto.
    + eapply lchain_frame; [apply Hinv|]. intros x Hx. by apply link_batch_other, HLb.
    + rewrite app_nil_r, Hpl. by rewrite (Permutation_app_comm pl' b).
    + intros x. apply link_batch_dom.
    + intros x Hx _. apply link_batch_other. intros Hxb. apply Hx. rewrite Hpl. apply elem_of_app. by left.
    + split; [done|]. by apply link_batch_path.
  - exists L. split; [done|]. eapply inv_update; eauto; simpl; auto; [apply Hinv|].
    intros j u _ Hu. apply list_elem_of_lookup_2 in Hu. split; [auto|done].
  - exists L. split; [done|]. eapply inv_update; eauto; simpl; auto; [apply Hinv|].
    intros j u _ Hu. apply list_elem_of_lookup_2 in Hu. split; [done|auto].
Qed.

Lemma spec_events_app tr1 tr2 L :
  spec_events (tr1 ++ tr2) L =
  match spec_events tr1 L with Some L' => spec_events tr2 L' | None => None end.
Proof. revert L. induction tr1 as [|e tr1 IH]; intros L; simpl; [done|]. destruct (spec_event e L); auto. Qed.

Lemma execution_inv c tr c' L :
  inv c L → execution c tr c' → ∃ L', spec_events tr L = Some L' ∧ inv c' L'.
Proof.
  intros Hinv. induction 1 as [c|c tr c' ev c'' _ IH Hst]; [by exists L|].
  destruct (IH Hinv) as (L1 & E1 & Hinv1). destruct (step_preserved _ _ _ _ Hinv1 Hst) as (L2 & E2 & Hinv2).
  exists L2. split; [|done]. rewrite spec_events_app, E1. destruct ev as [e|]; simpl in *; [by rewrite E2|by subst].
Qed.

(** A thread in the middle of an operation can always go on. *)
Lemma inv_progress c L i t :
  inv c L → threads c !! i = Some t → t ≠ Idle → is_Some (tstep (mem c) t).
Proof.
  intros Hinv Hi Hne. pose proof (inv_threads _ _ Hinv i t Hi) as Ht.
  destruct t as [|b|b f|b f| |e|o n|]; simpl in *; eauto; try done.
  - destruct (_ =? _); eauto.
  - destruct (Z.eqb_spec e 0); [eauto|]. destruct Ht as [?|He]; [done|].
    destruct (inv_dom _ _ Hinv e) as [q Hq]; [apply elem_of_app; by left|]. rewrite Hq. eauto.
  - destruct (_ =? _); eauto.
Qed.

(** An empty list and idle threads, with the nodes [pl] to add. *)
Definition initial (nx : gmap Z Z) (n : nat) (pl : list Z) : conf :=
  Conf (Shared 0 nx) (replicate n Idle) pl.

Lemma initial_inv nx n pl :
  NoDup (0 :: pl) → (∀ x, x ∈ pl → is_Some (nx !! x)) → inv (initial nx n pl) [].
Proof.
  intros Hnd Hd. assert (owned (replicate n Idle) = []) as Ho by (induction n; simpl; auto).
  split; simpl; rewrite ?Ho, ?app_nil_r; try done.
  - intros i t Ht. by apply lookup_replicate in Ht as [-> _].
  - intros i j t t' Ht _ _ Hdel. by apply lookup_replicate in Ht as [-> _].
Qed.

(** ** llist_reverse_order *)

Fixpoint llist_reverse_order (fuel : nat) (head new_head : Z) : M (gmap Z Z) Z :=
  match fuel with
  | O => out_of_fuel
  | S fuel =>
      if head =? 0 then mret new_head else
      λ nx, match nx !! head with
            | Some next => llist_reverse_order fuel next head (<[head := new_head]> nx)
            | None => Faulted
            end
  end.

Lemma reverse_run l : ∀ fuel nx p q r,
  lchain nx p l → lchain nx q r → NoDup (l ++ r) → (length l < fuel)%nat →
  ∃ p' nx', llist_reverse_order fuel p q nx = Ret p' nx' ∧ lchain nx' p' (reverse l ++ r) ∧
    ∀ x, x ∉ l → nx' !! x = nx !! x.
Proof.
  induction l as [|x l IH]; intros [|fuel] nx p q r Hp Hq Hnd Hf; simpl in Hf; try lia; simpl in Hp.
  - subst p. cbn [llist_reverse_order]. exists q, nx. by split_and!.
  - destruct Hp as (-> & Hx & q' & Hq' & Hp). cbn [llist_reverse_order].
    rewrite (proj2 (Z.eqb_neq x 0)) by done. rewrite Hq'.
    apply list.NoDup_cons in Hnd as [Hn Hnd]. rewrite elem_of_app in Hn.
    destruct (IH fuel (<[x := q]> nx) q' x (x :: r)) as (p' & nx' & E & Hc & Hsame).
    + eapply lchain_frame; [done|]. intros y Hy. apply lookup_insert_ne. intros ->. tauto.
    + simpl. split_and!; try done. exists q. rewrite lookup_insert_eq. split; [done|].
      eapply lchain_frame; [done|]. intros y Hy. apply lookup_insert_ne. intros ->. tauto.
    + rewrite <- Permutation_middle. apply list.NoDup_cons. rewrite elem_of_app. split; [tauto|done].
    + lia.
    + exists p', nx'. split; [done|]. rewrite reverse_cons, <- app_assoc. split; [done|].
      intros y Hy. apply not_elem_of_cons in Hy as [Hyx Hyl]. rewrite Hsame by done. by apply lookup_insert_ne.
Qed.

(** ** Properties *)


(** One thread adds node 8 to the empty list while another is about to delete. *)
Definition sample_links : gmap Z Z := {[ 8 := 0 ]}.

Lemma sample_execution :
  execution (initial sample_links 2 [8]) [EvAdd [8] true]
    (Conf (Shared 8 {[ 8 := 0 ]}) [Idle; DelRead] []).
Proof.
  assert (execution (initial sample_links 2 [8]) []
            (Conf (Shared 0 sample_links) [AddRead [8]; Idle] [])) as H1.
  { eapply (exec_step _ [] _ None); [apply exec_nil|].
    apply (step_add (Shared 0 sample_links) [Idle; Idle] [8] 0 [8] []); done. }
  assert (execution (initial sample_links 2 [8]) []
            (Conf (Shared 0 sample_links) [AddRead [8]; DelRead] [])) as H2.
  { eapply (exec_step _ [] _ None); [exact H1|].
    apply (step_del (Shared 0 sample_links) [AddRead [8]; Idle] [] 1); [done|].
    intros t. rewrite !elem_of_cons. intros [->|[->|H]]; [naive_solver..|by apply not_elem_of_nil in H]. }
  assert (execution (initial sample_links 2 [8]) []
            (Conf (Shared 0 sample_links) [AddWrite [8] 0; DelRead] [])) as H3.
  { eapply (exec_step _ [] _ None); [exact H2|].
    by apply (step_run _ [AddRead [8]; DelRead] [] 0 (AddRead [8]) _ _ None []). }
  assert (execution (initial sample_links 2 [8]) []
            (Conf (Shared 0 {[ 8 := 0 ]}) [AddCas [8] 0; DelRead] [])) as H4.
  { eapply (exec_step _ [] _ None); [exact H3|].
    by apply (step_run (Shared 0 sample_links) [AddWrite [8] 0; DelRead] [] 0 (AddWrite [8] 0)
               (Shared 0 {[ 8 := 0 ]}) (AddCas [8] 0) None []). }
  eapply (exec_step _ [] _ (Some (EvAdd [8] true))); [exact H4|].
  by apply (step_run (Shared 0 {[ 8 := 0 ]}) [AddCas [8] 0; DelRead] [] 0 (AddCas [8] 0)
             (Shared 8 {[ 8 := 0 ]}) Idle (Some (EvAdd [8] true)) []).
Qed.


(** [llist_reverse_order] reverses a chain in place and writes no other node. *)
Theorem llist_reverse_order_correct nx p l fuel :
  lchain nx p l → NoDup l → (length l < fuel)%nat →
  ∃ p' nx', llist_reverse_order fuel p 0 nx = Ret p' nx' ∧ lchain nx' p' (reverse l) ∧
    ∀ x, x ∉ l → nx' !! x = nx !! x.
Proof.
  intros Hc Hnd Hf. destruct (reverse_run l fuel nx p 0 [] Hc) as (p' & nx' & E & Hc' & Hs);
    [done|by rewrite app_nil_r|done|]. rewrite app_nil_r in Hc'. by exists p', nx'.
Qed.

Lemma llist_reverse_order_correct_witness :
  ∃ p' nx', llist_reverse_order 5 8 0 (<[8 := 16]> {[ 16 := 0 ]}) = Ret p' nx' ∧ lchain nx' p' [16; 8].
Proof.
  destruct (llist_reverse_order_correct (<[8 := 16]> {[ 16 := 0 ]}) 8 [8; 16] 5) as (p' & nx' & E & Hc & _).
  - simpl. split_and!; [done|done|]. exists 16. split; [done|]. split_and!; [done|done|]. by exists 0.
  - by apply (bool_decide_unpack _).
  - simpl. lia.
  - exists p', nx'. split; [exact E|exact Hc].
Defined.
