(* ===== verification/Fs.v ===== *)
(** * The file system library of the image tools (tools/libfs.c, tools/libfs.h)

    A disk image is an array of blocks.  The library reads the super block and the
    inode blocks through C structures and the other blocks as bytes, so the state
    has the super block, the inodes by their address (block number and index in the
    block) and the remaining blocks as lists of bytes; an access to a block through
    the wrong one of these views, or outside of it, is [Faulted].  [fatal] leaves the
    command with [longjmp] and is [Panicked].

    The layout constants and the structures come from fs.h, which is not part of the
    sources: they are the class [FsGeom], and [geom_ok] states what the comments of
    libfs.c, mkfs.c and the uses in opfs.c say of them.  A C string is the list of
    its characters before the NUL. *)

From stdpp Require Import base gmap list numbers option.
From Stdlib Require Import Lia ZArith.
From S2P Require Import Prelude.

#[local] Open Scope Z_scope.
#[local] Open Scope yaos_scope.

(** ** Structures *)

Record superblock : Type := mk_sb {
  sb_size : Z;      (* size of the image in blocks *)
  sb_nblocks : Z;   (* number of data blocks *)
  sb_ninodes : Z;   (* number of inodes *)
  sb_nlog : Z       (* number of log blocks *)
}.

Record dinode : Type := mk_dinode {
  d_type : Z;
  d_major : Z;
  d_minor : Z;
  d_nlink : Z;
  d_size : Z;
  d_addrs : list Z;
  d_owner : Z;      (* ownerid, groupid and mode are set by mkfs only *)
  d_group : Z;
  d_mode : Z
}.

Record dirent : Type := mk_dirent { de_inum : Z; de_name : list Z }.

Definition T_DIR : Z := 1.
Definition T_FILE : Z := 2.
Definition T_DEV : Z := 3.

(** fs.h, and the bytes an uninitialised local variable happens to hold. *)
Class FsGeom : Type := {
  BSIZE : Z;
  NDIRECT : Z;
  NINDIRECT : Z;
  MAXFILE : Z;
  IPB : Z;
  BPB : Z;
  DIRSIZ : Z;
  IBLOCK : Z → Z;
  BBLOCK : Z → Z → Z;
  sizeof_dirent : Z;
  dirent_of : list Z → dirent;
  bytes_of : dirent → list Z;
  uninit : Z → list Z
}.

(** An inode pointer: a block of the image and an index in it. *)
Notation inode_t := (Z * Z)%type.

Record image : Type := mk_img {
  sblk : superblock;
  inodes : gmap inode_t dinode;
  blks : gmap Z (list Z)
}.

Definition set_type (t : Z) (d : dinode) : dinode :=
  mk_dinode t (d_major d) (d_minor d) (d_nlink d) (d_size d) (d_addrs d) (d_owner d) (d_group d) (d_mode d).
Definition set_nlink (n : Z) (d : dinode) : dinode :=
  mk_dinode (d_type d) (d_major d) (d_minor d) n (d_size d) (d_addrs d) (d_owner d) (d_group d) (d_mode d).
Definition set_size (n : Z) (d : dinode) : dinode :=
  mk_dinode (d_type d) (d_major d) (d_minor d) (d_nlink d) n (d_addrs d) (d_owner d) (d_group d) (d_mode d).
Definition set_addrs (l : list Z) (d : dinode) : dinode :=
  mk_dinode (d_type d) (d_major d) (d_minor d) (d_nlink d) (d_size d) l (d_owner d) (d_group d) (d_mode d).

(** ** Memory *)

(** [memmove] and [memset] into an object: the bytes [bs] at [off]. *)
Definition store (l : list Z) (off : Z) (bs : list Z) : list Z :=
  take (Z.to_nat off) l ++ bs ++ drop (Z.to_nat off + length bs) l.
Definition slice (l : list Z) (off n : Z) : list Z := take (Z.to_nat n) (drop (Z.to_nat off) l).
Definition inside (l : list Z) (off n : Z) : bool :=
  (0 <=? off) && (0 <=? n) && (off + n <=? Z.of_nat (length l)).

Definition getblk (b : Z) : M image (list Z) := o ← gets (λ s, blks s !! b); deref o.
Definition setblk (b : Z) (l : list Z) : M image unit :=
  modify (λ s, mk_img (sblk s) (inodes s) (<[b := l]> (blks s))).
Definition bread (b off n : Z) : M image (list Z) :=
  l ← getblk b; if inside l off n then mret (slice l off n) else fault.
Definition bwrite (b off : Z) (bs : list Z) : M image unit :=
  l ← getblk b;
  if inside l off (Z.of_nat (length bs)) then setblk b (store l off bs) else fault.

(** The bytes a caller's buffer holds after [bs] was copied to [off]. *)
Definition bufwrite (buf : list Z) (off : Z) (bs : list Z) : M image (list Z) :=
  if inside buf off (Z.of_nat (length bs)) then mret (store buf off bs) else fault.
Definition bufread (buf : list Z) (off n : Z) : M image (list Z) :=
  if inside buf off n then mret (slice buf off n) else fault.

(** A block as an array of [uint], little-endian. *)
Definition le32 (bs : list Z) : Z := foldr (λ x r, x + 256 * r) 0 bs.
Definition bytes32 (v : Z) : list Z :=
  [v mod 256; v / 256 mod 256; v / 65536 mod 256; v / 16777216 mod 256].
Definition get_uint (b k : Z) : M image Z := bs ← bread b (4 * k) 4; mret (le32 bs).
Definition put_uint (b k v : Z) : M image unit := bwrite b (4 * k) (bytes32 v).

Definition inode (ip : inode_t) : M image dinode := o ← gets (λ s, inodes s !! ip); deref o.
Definition put_inode (ip : inode_t) (d : dinode) : M image unit :=
  modify (λ s, mk_img (sblk s) (<[ip := d]> (inodes s)) (blks s)).
Definition upd_inode (ip : inode_t) (f : dinode → dinode) : M image unit :=
  d ← inode ip; put_inode ip (f d).

Definition fatal {A} : M image A := panic.

(** ** General mathematical functions *)

Definition min (x y : Z) : Z := if x <? y then x else y.
Definition max (x y : Z) : Z := if y <? x then x else y.
Definition divceil (x y : Z) : Z := if x =? 0 then 0 else Z.quot (x - 1) y + 1.

Definition bitcount (x : Z) : Z :=
  let x := u32 (x - ((x .>> 1) .& 0x55555555)) in
  let x := u32 ((x .& 0x33333333) + ((x .>> 2) .& 0x33333333)) in
  let x := u32 (x + (x .>> 4)) .& 0x0f0f0f0f in
  let x := u32 (x + (x .>> 8)) in
  let x := u32 (x + (x .>> 16)) in
  x .& 0x3f.

Section libfs.
Context {G : FsGeom}.

Definition MAXFILESIZE : Z := MAXFILE * BSIZE.

(** ** Blocks *)

Definition valid_data_block (sb : superblock) (b : Z) : bool :=
  let Ni := u32 (sb_ninodes sb / IPB + 1) in
  let Nm := u32 (sb_size sb / (BSIZE * 8) + 1) in
  let Nd := sb_nblocks sb in
  let d := u32 (2 + Ni + Nm) in
  (d <=? b) && (b <=? u32 (d + Nd - 1)).

(** The inner loop of balloc, over the bits [bi] of one bitmap block. *)
Fixpoint balloc_bits (fuel : nat) (b bi : Z) : M image (option Z) :=
  sb ← gets sblk;
  if (bi <? BPB) && (u32 (b + bi) <? sb_size sb) then
    match fuel with
    | O => out_of_fuel
    | S fuel =>
        let bb := BBLOCK b (sb_ninodes sb) in
        let m := 1 .<< (bi mod 8) in
        bp ← getblk bb;
        x ← deref (bp !! Z.to_nat (bi / 8));
        if x .& m =? 0 then
          setblk bb (<[Z.to_nat (bi / 8) := x .| m]> bp) ;;
          if negb (valid_data_block sb (u32 (b + bi))) then fatal else
          bwrite (b + bi) 0 (replicate (Z.to_nat BSIZE) 0) ;;
          mret (Some (u32 (b + bi)))
        else balloc_bits fuel b (bi + 1)
    end
  else mret None.

Fixpoint balloc_blocks (fuel : nat) (b : Z) : M image Z :=
  sb ← gets sblk;
  if u32 b <? sb_size sb then
    match fuel with
    | O => out_of_fuel
    | S fuel =>
        r ← balloc_bits (Z.to_nat BPB) b 0;
        match r with
        | Some r => mret r
        | None => balloc_blocks fuel (s32 (b + BPB))
        end
    end
  else fatal.

Definition balloc : M image Z :=
  fuel ← gets (λ s, S (Z.to_nat (sb_size (sblk s))));
  balloc_blocks fuel 0.

Definition bfree (b : Z) : M image Z :=
  sb ← gets sblk;
  if negb (valid_data_block sb b) then mret (-1) else
  let bb := BBLOCK b (sb_ninodes sb) in
  let bi := b mod BPB in
  let m := 1 .<< (bi mod 8) in
  bp ← getblk bb;
  x ← deref (bp !! Z.to_nat (bi / 8));
  setblk bb (<[Z.to_nat (bi / 8) := x .& u8 (Z.lnot m)]> bp) ;;
  mret 0.

(** ** Inodes *)

Definition root_inode_number : Z := 1.

Definition iget (sb : superblock) (inum : Z) : option inode_t :=
  if (0 <? inum) && (inum <? sb_ninodes sb) then Some (IBLOCK inum, inum mod IPB) else None.

(** [bp <= ip && ip < bp + IPB]: the pointer points into the block. *)
Fixpoint geti_loop (fuel : nat) (Ni i : Z) (ip : inode_t) : Z :=
  match fuel with
  | O => 0
  | S fuel =>
      if i <? Ni then
        if (ip.1 =? i + 2) && (0 <=? ip.2) && (ip.2 <? IPB) then u32 (ip.2 + i * IPB)
        else geti_loop fuel Ni (i + 1) ip
      else 0
  end.
Definition geti (sb : superblock) (ip : inode_t) : Z :=
  let Ni := u32 (sb_ninodes sb / IPB + 1) in geti_loop (Z.to_nat Ni) Ni 0 ip.

Definition dinode0 : dinode := mk_dinode 0 0 0 0 0 (replicate (Z.to_nat (NDIRECT + 1)) 0) 0 0 0.

Fixpoint ialloc_loop (fuel : nat) (inum type : Z) : M image inode_t :=
  sb ← gets sblk;
  if inum <? sb_ninodes sb then
    match fuel with
    | O => out_of_fuel
    | S fuel =>
        let ip := (IBLOCK inum, inum mod IPB) in
        d ← inode ip;
        if d_type d =? 0 then
          put_inode ip dinode0 ;;
          upd_inode ip (set_type (u16 type)) ;;
          mret ip
        else ialloc_loop fuel (inum + 1) type
    end
  else fatal.
Definition ialloc (type : Z) : M image inode_t :=
  fuel ← gets (λ s, Z.to_nat (sb_ninodes (sblk s))); ialloc_loop fuel 1 type.

Definition ifree (inum : Z) : M image Z :=
  sb ← gets sblk;
  match iget sb inum with
  | None => mret (-1)
  | Some ip => inode ip ;; upd_inode ip (set_type 0) ;; mret 0
  end.

Definition addr_at (ip : inode_t) (n : Z) : M image Z :=
  d ← inode ip; deref (d_addrs d !! Z.to_nat n).
Definition set_addr (ip : inode_t) (n v : Z) : M image unit :=
  upd_inode ip (λ d, set_addrs (<[Z.to_nat n := v]> (d_addrs d)) d).

Definition bmap (ip : inode_t) (n : Z) : M image Z :=
  if n <? NDIRECT then
    addr ← addr_at ip n;
    if addr =? 0 then addr ← balloc; set_addr ip n addr ;; mret addr
    else mret addr
  else
    let k := n - NDIRECT in
    if NINDIRECT <=? k then mret 0 else
    iaddr ← addr_at ip NDIRECT;
    iaddr ← (if iaddr =? 0 then iaddr ← balloc; set_addr ip NDIRECT iaddr ;; mret iaddr
             else mret iaddr);
    x ← get_uint iaddr k;
    (if x =? 0 then y ← balloc; put_uint iaddr k y else mret tt) ;;
    get_uint iaddr k.

(** The bytes moved in one round of iread, iwrite and itruncate. *)
Definition chunk (n t off : Z) : Z :=
  u32 (min (s32 (n - t)) (s32 (BSIZE - off mod BSIZE))).

(** The buffer is the whole object the caller passes; [buf] has advanced by [t]. *)
Fixpoint iread_loop (fuel : nat) (ip : inode_t) (buf : list Z) (n t off : Z) : M image (list Z * Z) :=
  if t <? n then
    match fuel with
    | O => out_of_fuel
    | S fuel =>
        b ← bmap ip (off / BSIZE);
        sb ← gets sblk;
        if negb (valid_data_block sb b) then mret (buf, t) else
        let m := chunk n t off in
        bs ← bread b (off mod BSIZE) m;
        buf ← bufwrite buf t bs;
        iread_loop fuel ip buf n (u32 (t + m)) (u32 (off + m))
    end
  else mret (buf, t).

Definition iread (ip : inode_t) (buf : list Z) (n off : Z) : M image (list Z * Z) :=
  d ← inode ip;
  if d_type d =? T_DEV then mret (buf, -1) else
  if (d_size d <? off) || (u32 (off + n) <? off) then mret (buf, -1) else
  let n := if d_size d <? u32 (off + n) then u32 (d_size d - off) else n in
  r ← iread_loop (S (Z.to_nat n)) ip buf n 0 off;
  mret (r.1, s32 r.2).

Fixpoint iwrite_loop (fuel : nat) (ip : inode_t) (buf : list Z) (n t off : Z) : M image (Z * Z) :=
  if t <? n then
    match fuel with
    | O => out_of_fuel
    | S fuel =>
        b ← bmap ip (off / BSIZE);
        sb ← gets sblk;
        if negb (valid_data_block sb b) then mret (t, off) else
        let m := chunk n t off in
        bs ← bufread buf t m;
        bwrite b (off mod BSIZE) bs ;;
        iwrite_loop fuel ip buf n (u32 (t + m)) (u32 (off + m))
    end
  else mret (t, off).

Definition iwrite (ip : inode_t) (buf : list Z) (n off : Z) : M image Z :=
  d ← inode ip;
  if d_type d =? T_DEV then mret (-1) else
  if (d_size d <? off) || (u32 (off + n) <? off) || (MAXFILESIZE <? u32 (off + n)) then mret (-1) else
  r ← iwrite_loop (S (Z.to_nat n)) ip buf n 0 off;
  let '(t, off) := r in
  d ← inode ip;
  (if (0 <? t) && (d_size d <? off) then upd_inode ip (set_size off) else mret tt) ;;
  mret (s32 t).

(** The shrinking half of itruncate: the direct blocks, then the indirect ones. *)
Definition trunc_direct (ip : inode_t) (kd nd : Z) : M image unit :=
  for_range (Z.to_nat (nd - kd)) (Z.to_nat kd) (λ i,
    a ← addr_at ip (Z.of_nat i);
    bfree a ;;
    set_addr ip (Z.of_nat i) 0).
Definition trunc_indirect (ip : inode_t) (n k : Z) : M image unit :=
  iaddr ← addr_at ip NDIRECT;
  ASSERT (negb (iaddr =? 0)) ;;
  let ni := max (n - NDIRECT) 0 in
  let ki := max (k - NDIRECT) 0 in
  for_range (Z.to_nat (ni - ki)) (Z.to_nat ki) (λ i,
    a ← get_uint iaddr (Z.of_nat i);
    bfree a ;;
    put_uint iaddr (Z.of_nat i) 0) ;;
  if ki =? 0 then bfree iaddr ;; set_addr ip NDIRECT 0 else mret tt.

(** The growing half fills with zero bytes. *)
Fixpoint fill_loop (fuel : nat) (ip : inode_t) (n t off : Z) : M image unit :=
  if t <? n then
    match fuel with
    | O => out_of_fuel
    | S fuel =>
        b ← bmap ip (off / BSIZE);
        let m := chunk n t off in
        bwrite b (off mod BSIZE) (replicate (Z.to_nat m) 0) ;;
        fill_loop fuel ip n (u32 (t + m)) (u32 (off + m))
    end
  else mret tt.

Definition itruncate (ip : inode_t) (size : Z) : M image Z :=
  d ← inode ip;
  if d_type d =? T_DEV then mret (-1) else
  if MAXFILESIZE <? size then mret (-1) else
  (if size <? d_size d then
     let n := divceil (s32 (d_size d)) BSIZE in
     let k := divceil (s32 size) BSIZE in
     let nd := min n NDIRECT in
     let kd := min k NDIRECT in
     trunc_direct ip kd nd ;;
     (if NDIRECT <? n then trunc_indirect ip n k else mret tt)
   else
     let n := s32 (size - d_size d) in
     fill_loop (S (Z.to_nat n)) ip (u32 n) 0 (d_size d)) ;;
  upd_inode ip (set_size size) ;;
  mret 0.

(** ** Path names *)

Definition SEP : Z := 47.
Definition is_empty (s : list Z) : bool := match s with [] => true | _ => false end.
Definition is_sep (c : Z) : bool := c =? SEP.

Fixpoint skip_sep (path : list Z) : list Z :=
  match path with c :: p => if is_sep c then skip_sep p else path | [] => [] end.
Fixpoint skip_name (path : list Z) : list Z :=
  match path with c :: p => if is_sep c then path else skip_name p | [] => [] end.

(** The rest of the path and the string in [name]. *)
Definition skipelem (path : list Z) : list Z * list Z :=
  let s := skip_sep path in
  let path := skip_name s in
  let len := min (Z.of_nat (length s - length path)) DIRSIZ in
  (path, take (Z.to_nat len) s).

Fixpoint split_loop (fuel : nat) (path s : list Z) : list Z :=
  match fuel with
  | O => s
  | S fuel =>
      if is_empty path then s else
      let s := skip_sep path in split_loop fuel (skip_name s) s
  end.

(** The base name, and the directory name left in [dirbuf]. *)
Definition splitpath (path : list Z) (size : Z) : list Z * list Z :=
  let s := split_loop (length path) path path in
  let n := min (Z.of_nat (length path - length s)) (s32 (size - 1)) in
  (s, take (Z.to_nat n) path).

(** ** Directories *)

Fixpoint strncmp (n : nat) (a b : list Z) : Z :=
  match n with
  | O => 0
  | S n =>
      let x := default 0 (head a) in
      let y := default 0 (head b) in
      if negb (x =? y) then x - y else
      if x =? 0 then 0 else strncmp n (tail a) (tail b)
  end.
Definition strncpy (src : list Z) (n : Z) : list Z :=
  take (Z.to_nat n) (src ++ replicate (Z.to_nat n) 0).
Definition same_name (a b : list Z) : bool := strncmp (Z.to_nat DIRSIZ) a b =? 0.

Definition DOT : list Z := [46].
Definition DOTDOT : list Z := [46; 46].

(** The inode found and the offset stored in [offp]. *)
Fixpoint dlookup_loop (fuel : nat) (dp : inode_t) (name buf : list Z) (off : Z) :
    M image (option inode_t * option Z) :=
  d ← inode dp;
  if off <? d_size d then
    match fuel with
    | O => out_of_fuel
    | S fuel =>
        r ← iread dp buf sizeof_dirent off;
        let '(buf, got) := r in
        if negb (got =? sizeof_dirent) then mret (None, None) else
        let de := dirent_of buf in
        if same_name name (de_name de) then
          sb ← gets sblk; mret (iget sb (de_inum de), Some off)
        else dlookup_loop fuel dp name buf (u32 (off + sizeof_dirent))
    end
  else mret (None, None).

Definition dlookup (dp : inode_t) (name : list Z) : M image (option inode_t * option Z) :=
  d ← inode dp;
  ASSERT (d_type d =? T_DIR) ;;
  dlookup_loop (Z.to_nat (d_size d)) dp name (uninit sizeof_dirent) 0.

(** The first free entry or the end of the directory; [None] is an error. *)
Fixpoint find_slot (fuel : nat) (dp : inode_t) (name buf : list Z) (off : Z) : M image (option Z) :=
  d ← inode dp;
  if off <? d_size d then
    match fuel with
    | O => out_of_fuel
    | S fuel =>
        r ← iread dp buf sizeof_dirent off;
        let '(buf, got) := r in
        if negb (got =? sizeof_dirent) then mret None else
        let de := dirent_of buf in
        if de_inum de =? 0 then mret (Some off) else
        if same_name (de_name de) name then mret None
        else find_slot fuel dp name buf (u32 (off + sizeof_dirent))
    end
  else mret (Some off).

Definition daddent (dp : inode_t) (name : list Z) (ip : inode_t) : M image Z :=
  d ← inode dp;
  o ← find_slot (Z.to_nat (d_size d)) dp name (uninit sizeof_dirent) 0;
  match o with
  | None => mret (-1)
  | Some off =>
      sb ← gets sblk;
      let de := mk_dirent (u16 (geti sb ip)) (strncpy name DIRSIZ) in
      r ← iwrite dp (bytes_of de) sizeof_dirent off;
      if negb (r =? sizeof_dirent) then mret (-1) else
      (if negb (same_name name DOT)
       then upd_inode ip (λ d, set_nlink (u16 (d_nlink d + 1)) d) else mret tt) ;;
      mret 0
  end.

(** [off] is not initialised when ".." is missing. *)
Definition dmkparlink (pip cip : inode_t) : M image Z :=
  p ← inode pip;
  if negb (d_type p =? T_DIR) then mret (-1) else
  c ← inode cip;
  if negb (d_type c =? T_DIR) then mret (-1) else
  r ← dlookup cip DOTDOT;
  let off := default (le32 (uninit 4)) r.2 in
  sb ← gets sblk;
  let de := mk_dirent (u16 (geti sb pip)) (strncpy DOTDOT DIRSIZ) in
  w ← iwrite cip (bytes_of de) sizeof_dirent off;
  if negb (w =? sizeof_dirent) then mret (-1) else
  upd_inode pip (λ d, set_nlink (u16 (d_nlink d + 1)) d) ;;
  mret 0.

Definition assert_dir (rp : inode_t) : M image unit :=
  d ← inode rp; ASSERT (d_type d =? T_DIR).

Fixpoint ilookup_loop (fuel : nat) (rp : inode_t) (path : list Z) : M image (option inode_t) :=
  match fuel with
  | O => out_of_fuel
  | S fuel =>
      assert_dir rp ;;
      let '(path, name) := skipelem path in
      if is_empty name then mret (Some rp) else
      r ← dlookup rp name;
      match r.1 with
      | None => mret None
      | Some ip =>
          if is_empty path then mret (Some ip) else
          d ← inode ip;
          if negb (d_type d =? T_DIR) then mret None else ilookup_loop fuel ip path
      end
  end.
Definition ilookup (rp : inode_t) (path : list Z) : M image (option inode_t) :=
  ilookup_loop (S (length path)) rp path.

(** The inode created and the directory stored in [dpp]. *)
Fixpoint icreat_loop (fuel : nat) (rp : inode_t) (path : list Z) (type : Z) :
    M image (option (inode_t * inode_t)) :=
  match fuel with
  | O => out_of_fuel
  | S fuel =>
      assert_dir rp ;;
      let '(path, name) := skipelem path in
      if is_empty name then mret None else
      r ← dlookup rp name;
      if is_empty path then
        match r.1 with
        | Some _ => mret None
        | None =>
            ip ← ialloc type;
            daddent rp name ip ;;
            d ← inode ip;
            (if d_type d =? T_DIR then daddent ip DOT ip ;; daddent ip DOTDOT rp ;; mret tt
             else mret tt) ;;
            mret (Some (ip, rp))
        end
      else
        match r.1 with
        | None => mret None
        | Some ip =>
            d ← inode ip;
            if negb (d_type d =? T_DIR) then mret None else icreat_loop fuel ip path type
        end
  end.
Definition icreat (rp : inode_t) (path : list Z) (type : Z) : M image (option (inode_t * inode_t)) :=
  icreat_loop (S (length path)) rp path type.

Fixpoint emptydir_loop (fuel : nat) (dp : inode_t) (buf : list Z) (nent off : Z) : M image bool :=
  d ← inode dp;
  if off <? d_size d then
    match fuel with
    | O => out_of_fuel
    | S fuel =>
        r ← iread dp buf sizeof_dirent off;
        let buf := r.1 in
        let nent := if de_inum (dirent_of buf) =? 0 then nent else s32 (nent + 1) in
        emptydir_loop fuel dp buf nent (u32 (off + sizeof_dirent))
    end
  else mret (nent =? 2).
Definition emptydir (dp : inode_t) : M image bool :=
  d ← inode dp; emptydir_loop (Z.to_nat (d_size d)) dp (uninit sizeof_dirent) 0 0.

(** The entry at [off] is erased, the counts of links drop, and an inode without
    links is freed. *)
Definition unlink_at (rp ip : inode_t) (off : Z) : M image Z :=
  w ← iwrite rp (replicate (Z.to_nat sizeof_dirent) 0) sizeof_dirent off;
  if negb (w =? sizeof_dirent) then mret (-1) else
  d ← inode ip;
  (if d_type d =? T_DIR then
     r ← dlookup ip DOTDOT;
     if bool_decide (r.1 = Some rp)
     then upd_inode rp (λ d, set_nlink (u16 (d_nlink d - 1)) d) else mret tt
   else mret tt) ;;
  upd_inode ip (λ d, set_nlink (u16 (d_nlink d - 1)) d) ;;
  d ← inode ip;
  (if d_nlink d =? 0 then
     (if negb (d_type d =? T_DEV) then itruncate ip 0 ;; mret tt else mret tt) ;;
     sb ← gets sblk;
     ifree (geti sb ip) ;; mret tt
   else mret tt) ;;
  mret 0.

Fixpoint iunlink_loop (fuel : nat) (rp : inode_t) (path : list Z) : M image Z :=
  match fuel with
  | O => out_of_fuel
  | S fuel =>
      assert_dir rp ;;
      let '(path, name) := skipelem path in
      if is_empty name then mret (-1) else
      r ← dlookup rp name;
      match r.1 with
      | None => mret (-1)
      | Some ip =>
          if is_empty path then
            if same_name name DOT || same_name name DOTDOT then mret (-1)
            else off ← deref r.2; unlink_at rp ip off
          else
            d ← inode ip;
            if negb (d_type d =? T_DIR) then mret (-1) else iunlink_loop fuel ip path
      end
  end.
Definition iunlink (rp : inode_t) (path : list Z) : M image Z :=
  iunlink_loop (S (length path)) rp path.

End libfs.
