(* ===== verification/FsBlocks.v ===== *)
(** * The block bitmap and the inode table of an image (tools/libfs.c)

    What is assumed of fs.h and of an image, the bitmap as a set of used blocks, and
    the correctness of balloc, bfree, iget, geti and ialloc. *)

From stdpp Require Import base gmap list numbers option.
From Stdlib Require Import Lia ZArith.
From S2P Require Import Prelude Fs.

#[local] Open Scope Z_scope.
#[local] Open Scope yaos_scope.

(** What the comments at the head of libfs.c say of fs.h: the order of the areas, the
    number of inode and bitmap blocks; NINDIRECT is BSIZE / sizeof (uint) in opfs.c,
    and mkfs.c asserts that directory entries fill a block. *)
Record geom_ok {G : FsGeom} : Prop := {
  g_ndirect : 0 < NDIRECT;
  g_ipb : 0 < IPB;
  g_bsize : 0 < BSIZE;
  g_words : BSIZE mod 4 = 0;
  g_nindirect : NINDIRECT = BSIZE / 4;
  g_maxfile : MAXFILE = NDIRECT + NINDIRECT;
  g_maxsize : MAXFILE * BSIZE < 2 ^ 31;
  g_bpb : BPB = BSIZE * 8;
  g_iblock : ∀ i, IBLOCK i = 2 + i / IPB;
  g_bblock : ∀ b n, BBLOCK b n = 2 + (n / IPB + 1) + b / BPB;
  g_dirent : 0 < sizeof_dirent;
  g_fill : BSIZE mod sizeof_dirent = 0;
  g_uninit : ∀ n, length (uninit n) = Z.to_nat n
}.
Arguments geom_ok : clear implicits.

Section blocks.
Context {G : FsGeom}.

(** The first data block. *)
Definition data_start (sb : superblock) : Z :=
  2 + (sb_ninodes sb / IPB + 1) + (sb_size sb / (BSIZE * 8) + 1).

Definition is_data (sb : superblock) (b : Z) : Prop :=
  data_start sb ≤ b < data_start sb + sb_nblocks sb.

(** The areas of the image exist and the counters of the code do not overflow. *)
Record layout (img : image) : Prop := {
  l_ninodes : 0 ≤ sb_ninodes (sblk img) ≤ 2 ^ 16;
  l_nblocks : 0 ≤ sb_nblocks (sblk img);
  l_fits : data_start (sblk img) + sb_nblocks (sblk img) ≤ sb_size (sblk img);
  l_size : sb_size (sblk img) + BPB ≤ 2 ^ 31;
  l_iaddr : ∀ p d, inodes img !! p = Some d → length (d_addrs d) = Z.to_nat (NDIRECT + 1);
  l_table : ∀ inum, 0 ≤ inum < sb_ninodes (sblk img) →
    is_Some (inodes img !! (IBLOCK inum, inum mod IPB));
  l_bitmap : ∀ b, 0 ≤ b < sb_size (sblk img) → ∃ l,
    blks img !! BBLOCK b (sb_ninodes (sblk img)) = Some l ∧ length l = Z.to_nat BSIZE;
  l_data : ∀ b, is_data (sblk img) b → ∃ l, blks img !! b = Some l ∧ length l = Z.to_nat BSIZE
}.

(** The bit of a block. *)
Definition used (img : image) (b : Z) : bool :=
  match blks img !! BBLOCK b (sb_ninodes (sblk img)) with
  | Some l => match l !! Z.to_nat (b mod BPB / 8) with
              | Some x => Z.testbit x (b mod BPB mod 8)
              | None => false
              end
  | None => false
  end.

(** [img'] is [img] with the block [b] marked as used, or as free, and the contents of
    data blocks as [f] says. *)
Record marked (img img' : image) (b : Z) (v : bool) (f : Z → option (list Z)) : Prop := {
  mk_sblk : sblk img' = sblk img;
  mk_inodes : inodes img' = inodes img;
  mk_used : ∀ x, 0 ≤ x < sb_size (sblk img) → used img' x = if x =? b then v else used img x;
  mk_data : ∀ x, is_data (sblk img) x → blks img' !! x = f x;
  mk_layout : layout img'
}.

Definition zero_block : list Z := replicate (Z.to_nat BSIZE) 0.
Definition allocated (img : image) (b : Z) (img' : image) : Prop :=
  marked img img' b true (λ x, if x =? b then Some zero_block else blks img !! x).
Definition released (img : image) (b : Z) (img' : image) : Prop :=
  marked img img' b false (λ x, blks img !! x).

Context (HG : geom_ok G).

(** ** Helpers *)

Lemma bpb_pos : 0 < BPB.
Proof. rewrite (g_bpb HG). pose proof (g_bsize HG). lia. Qed.

Lemma data_start_pos sb : 0 ≤ sb_ninodes sb → 0 ≤ sb_size sb → 4 ≤ data_start sb.
Proof.
  intros. unfold data_start. pose proof (g_ipb HG). pose proof (g_bsize HG).
  assert (0 ≤ sb_ninodes sb / IPB) by (apply Z.div_pos; lia).
  assert (0 ≤ sb_size sb / (BSIZE * 8)) by (apply Z.div_pos; lia). lia.
Qed.

Lemma size_nonneg img : layout img → 0 ≤ sb_size (sblk img).
Proof.
  intros HL. pose proof (l_fits _ HL) as Hf. pose proof (l_nblocks _ HL).
  destruct (decide (0 ≤ sb_size (sblk img))); [done|].
  exfalso. revert Hf. unfold data_start. pose proof (g_ipb HG). pose proof (g_bsize HG). pose proof (l_ninodes _ HL).
  assert (0 ≤ sb_ninodes (sblk img) / IPB) by (apply Z.div_pos; lia).
  assert (sb_size (sblk img) ≤ sb_size (sblk img) / (BSIZE * 8)); [|lia].
  apply Z.div_le_lower_bound; nia.
Qed.

Lemma u32_id x : 0 ≤ x < 2 ^ 31 → u32 x = x.
Proof. intros. apply wrap_id. unfold in_u. lia. Qed.

Lemma valid_data_block_spec img b :
  layout img → valid_data_block (sblk img) b = true ↔ is_data (sblk img) b.
Proof.
  intros HL. pose proof (size_nonneg _ HL). pose proof (l_ninodes _ HL). pose proof (l_nblocks _ HL).
  pose proof (l_fits _ HL) as Hf. pose proof (l_size _ HL). pose proof bpb_pos.
  pose proof (data_start_pos (sblk img)). unfold valid_data_block, is_data, data_start in *.
  set (a := sb_ninodes (sblk img) / IPB) in *. set (c := sb_size (sblk img) / (BSIZE * 8)) in *.
  assert (0 ≤ a) by (apply Z.div_pos; [lia|apply (g_ipb HG)]).
  assert (0 ≤ c) by (apply Z.div_pos; pose proof (g_bsize HG); lia).
  rewrite (u32_id (a + 1)), (u32_id (c + 1)), (u32_id (2 + _ + _)), u32_id by lia.
  rewrite andb_true_iff, !Z.leb_le. lia.
Qed.

(** The bitmap lies in front of the data blocks. *)
Lemma bitmap_not_data img x :
  layout img → 0 ≤ x < sb_size (sblk img) → ¬ is_data (sblk img) (BBLOCK x (sb_ninodes (sblk img))).
Proof.
  intros HL Hx [Hd _]. rewrite (g_bblock HG) in Hd. unfold data_start in Hd. rewrite (g_bpb HG) in Hd.
  assert (x / (BSIZE * 8) ≤ sb_size (sblk img) / (BSIZE * 8)); [|lia].
  apply Z.div_le_mono; pose proof (g_bsize HG); lia.
Qed.

Lemma data_in_image img b : layout img → is_data (sblk img) b → 0 < b < sb_size (sblk img).
Proof.
  intros HL [H1 H2]. pose proof (l_fits _ HL). pose proof (data_start_pos (sblk img)).
  pose proof (size_nonneg _ HL). pose proof (l_ninodes _ HL). lia.
Qed.

(** ** Changing one bit *)

Definition put_bit (img : image) (b v : Z) : image :=
  let bb := BBLOCK b (sb_ninodes (sblk img)) in
  mk_img (sblk img) (inodes img)
    (<[bb := <[Z.to_nat (b mod BPB / 8) := v]> (default [] (blks img !! bb))]> (blks img)).

Lemma bit_index b : (Z.to_nat (b mod BPB / 8) < Z.to_nat BSIZE)%nat ∧ 0 ≤ b mod BPB mod 8 < 8.
Proof.
  pose proof (Z.mod_pos_bound b BPB bpb_pos) as H. rewrite (g_bpb HG) in *.
  assert (0 ≤ b mod (BSIZE * 8) / 8 < BSIZE) by (split; [apply Z.div_pos; lia|apply Z.div_lt_upper_bound; lia]).
  split; [lia|]. by apply Z.mod_pos_bound.
Qed.

(** Two blocks have the same bit only when they are equal. *)
Lemma bit_inj b c : 0 ≤ b → 0 ≤ c →
  b / BPB = c / BPB → b mod BPB / 8 = c mod BPB / 8 → b mod BPB mod 8 = c mod BPB mod 8 → b = c.
Proof.
  intros ?? H1 H2 H3. assert (b mod BPB = c mod BPB) as H4
    by (rewrite (Z.div_mod (b mod BPB) 8), (Z.div_mod (c mod BPB) 8), H2, H3; lia).
  pose proof bpb_pos. rewrite (Z.div_mod b BPB), (Z.div_mod c BPB), H1, H4 by lia. done.
Qed.

Lemma bitmap_byte img b : layout img → 0 ≤ b < sb_size (sblk img) → ∃ l x,
  blks img !! BBLOCK b (sb_ninodes (sblk img)) = Some l ∧ length l = Z.to_nat BSIZE ∧
  l !! Z.to_nat (b mod BPB / 8) = Some x ∧ used img b = Z.testbit x (b mod BPB mod 8).
Proof.
  intros HL Hb. destruct (l_bitmap _ HL b Hb) as (l & El & Hl). destruct (bit_index b) as [Hi _].
  destruct (lookup_lt_is_Some_2 l (Z.to_nat (b mod BPB / 8))) as [x Ex]; [lia|].
  exists l, x. unfold used. by rewrite El, Ex.
Qed.

Lemma put_bit_layout img b v : layout img → 0 ≤ b < sb_size (sblk img) → layout (put_bit img b v).
Proof.
  intros HL Hb. destruct (bitmap_byte _ _ HL Hb) as (l & x & El & Hl & _).
  pose proof (bitmap_not_data _ _ HL Hb) as Hn.
  destruct HL as [H1 H2 H3 H4 H5 H6 H7 H8]. split; try done; unfold put_bit; simpl.
  - intros c Hc. destruct (decide (BBLOCK b (sb_ninodes (sblk img)) = BBLOCK c (sb_ninodes (sblk img)))) as [E|E].
    + rewrite E, lookup_insert_eq, <- E, El. simpl. eexists; split; [done|]. by rewrite length_insert.
    + rewrite lookup_insert_ne by done. auto.
  - intros c Hc. rewrite lookup_insert_ne by congruence. auto.
Qed.

Lemma put_bit_used img b v c : layout img → 0 ≤ b < sb_size (sblk img) → 0 ≤ c →
  (∀ j, 0 ≤ j < 8 → j ≠ b mod BPB mod 8 →
     Z.testbit v j = Z.testbit (default 0 (default [] (blks img !! BBLOCK b (sb_ninodes (sblk img)))
                                  !! Z.to_nat (b mod BPB / 8))) j) →
  used (put_bit img b v) c = if c =? b then Z.testbit v (b mod BPB mod 8) else used img c.
Proof.
  intros HL Hb Hc Hv. destruct (bitmap_byte _ _ HL Hb) as (l & x & El & Hl & Ex & _).
  unfold used, put_bit. simpl. destruct (bit_index b) as [Hi _], (bit_index c) as [Hi' Hj].
  rewrite El in *. simpl in *. rewrite Ex in Hv. simpl in Hv.
  destruct (Z.eqb_spec c b) as [->|Hne].
  - rewrite lookup_insert_eq. rewrite list_lookup_insert_eq by lia. done.
  - destruct (decide (BBLOCK b (sb_ninodes (sblk img)) = BBLOCK c (sb_ninodes (sblk img)))) as [E|E].
    + rewrite E, lookup_insert_eq. rewrite E in El. rewrite El.
      destruct (decide (Z.to_nat (b mod BPB / 8) = Z.to_nat (c mod BPB / 8))) as [E'|E'].
      * rewrite E', list_lookup_insert_eq by lia. rewrite <- E', Ex. apply Hv; [done|].
        intros Ej. apply Hne, bit_inj; [done|lia| |  |done].
        -- rewrite !(g_bblock HG) in E. lia.
        -- pose proof (Z.mod_pos_bound b BPB bpb_pos). pose proof (Z.mod_pos_bound c BPB bpb_pos).
           apply Z2Nat.inj in E'; [done|apply Z.div_pos; lia..].
      * by rewrite list_lookup_insert_ne.
    + by rewrite lookup_insert_ne.
Qed.

Lemma put_bit_data img b v c : layout img → 0 ≤ b < sb_size (sblk img) → is_data (sblk img) c →
  blks (put_bit img b v) !! c = blks img !! c.
Proof.
  intros HL Hb Hc. pose proof (bitmap_not_data _ _ HL Hb). unfold put_bit. simpl.
  rewrite lookup_insert_ne by congruence. done.
Qed.

(** ** bfree *)

Lemma testbit_mask i j : 0 ≤ i < 8 → 0 ≤ j < 8 → Z.testbit (1 .<< i) j = (j =? i).
Proof. intros. rewrite Z.shiftl_1_l, Z.pow2_bits_eqb by lia. apply Z.eqb_sym. Qed.

Lemma testbit_u8 x j : 0 ≤ j < 8 → Z.testbit (u8 x) j = Z.testbit x j.
Proof. intros. apply Z.mod_pow2_bits_low. lia. Qed.

Lemma bfree_run img b : layout img → is_data (sblk img) b → ∃ img',
  bfree b img = Ret 0 img' ∧ released img b img'.
Proof.
  intros HL Hb. pose proof (data_in_image _ _ HL Hb) as Hin.
  destruct (bitmap_byte img b HL) as (l & x & El & Hl & Ex & _); [lia|].
  exists (put_bit img b (x .& u8 (Z.lnot (1 .<< (b mod BPB mod 8))))).
  destruct (bit_index b) as [_ Hj]. split.
  - unfold bfree. erewrite bind_ret by reflexivity.
    rewrite (proj2 (valid_data_block_spec img b HL) Hb). cbn [negb].
    unfold getblk. rewrite bind_assoc. erewrite bind_ret by reflexivity. rewrite El.
    erewrite bind_ret by reflexivity. rewrite Ex. unfold put_bit. rewrite El. reflexivity.
  - split; try done.
    + intros c Hc. rewrite put_bit_used; [|done|lia|lia|].
      * by rewrite Z.land_spec, testbit_u8, Z.lnot_spec, testbit_mask, Z.eqb_refl, andb_false_r by lia.
      * intros j Hj' Hne. rewrite El. simpl. rewrite Ex. simpl.
        rewrite Z.land_spec, testbit_u8, Z.lnot_spec, testbit_mask by lia.
        rewrite (proj2 (Z.eqb_neq _ _) Hne). apply andb_true_r.
    + intros c Hc. apply put_bit_data; [done|lia|done].
    + apply put_bit_layout; [done|lia].
Qed.

Lemma bfree_invalid img b : layout img → ¬ is_data (sblk img) b → bfree b img = Ret (-1) img.
Proof.
  intros HL Hb. unfold bfree. erewrite bind_ret by reflexivity.
  destruct (valid_data_block (sblk img) b) eqn:E; [|done].
  apply valid_data_block_spec in E; tauto.
Qed.

(** ** balloc *)

Lemma land_mask_zero x i : 0 ≤ i → (x .& (1 .<< i) =? 0) = negb (Z.testbit x i).
Proof.
  intros Hi. rewrite Z.shiftl_1_l. destruct (Z.testbit x i) eqn:E.
  - apply Z.eqb_neq. intros H. apply (f_equal (λ z, Z.testbit z i)) in H.
    by rewrite Z.land_spec, Z.pow2_bits_true, E, Z.bits_0 in H by done.
  - apply Z.eqb_eq, Z.bits_inj'. intros j Hj. rewrite Z.land_spec, Z.pow2_bits_eqb, Z.bits_0 by done.
    destruct (Z.eqb_spec i j) as [->|]; [by rewrite E|apply andb_false_r].
Qed.

Lemma bwrite_run img b off bs l :
  blks img !! b = Some l → inside l off (Z.of_nat (length bs)) = true →
  bwrite b off bs img = Ret tt (mk_img (sblk img) (inodes img) (<[b := store l off bs]> (blks img))).
Proof.
  intros El Hin. unfold bwrite, getblk. rewrite bind_assoc. erewrite bind_ret by reflexivity.
  rewrite El. erewrite bind_ret by reflexivity. by rewrite Hin.
Qed.

Lemma store_all l bs : length bs = length l → store l 0 bs = bs.
Proof. intros E. unfold store. simpl. by rewrite E, drop_all, app_nil_r. Qed.

(** Taking the first free bit [x]. *)
Lemma take_bit img x l v :
  layout img → is_data (sblk img) x →
  blks img !! BBLOCK x (sb_ninodes (sblk img)) = Some l → l !! Z.to_nat (x mod BPB / 8) = Some v →
  ∃ img', bwrite x 0 (replicate (Z.to_nat BSIZE) 0) (put_bit img x (v .| (1 .<< (x mod BPB mod 8)))) = Ret tt img' ∧
    allocated img x img'.
Proof.
  intros HL Hd El Ev. pose proof (data_in_image _ _ HL Hd) as Hin. set (w := v .| _).
  assert (layout (put_bit img x w)) as HL' by (apply put_bit_layout; [done|lia]).
  destruct (l_data _ HL' x Hd) as (lx & Ex & Hlx). destruct (bit_index x) as [_ Hj].
  pose proof (g_bsize HG) as HB.
  erewrite bwrite_run; [|exact Ex|].
  2:{ unfold inside. rewrite length_replicate, Hlx. rewrite !andb_true_iff, !Z.leb_le. lia. }
  eexists; split; [done|]. rewrite store_all by (by rewrite length_replicate). unfold put_bit at 1 2. cbn [sblk inodes].
  assert (∀ c, 0 ≤ c < sb_size (sblk img) → BBLOCK c (sb_ninodes (sblk img)) ≠ x) as Hne
    by (intros c Hc Ec; apply (bitmap_not_data img c HL Hc); by rewrite Ec).
  split; try done.
  - intros c Hc. transitivity (used (put_bit img x w) c).
    + unfold used. cbn [sblk blks]. rewrite lookup_insert_ne by (apply not_eq_sym, Hne; lia). done.
    + rewrite put_bit_used; [|done|lia|lia|].
      * unfold w. by rewrite Z.lor_spec, testbit_mask, Z.eqb_refl, orb_true_r by lia.
      * intros j Hj' Hnj. rewrite El. simpl. rewrite Ev. simpl. unfold w.
        rewrite Z.lor_spec, testbit_mask by lia. rewrite (proj2 (Z.eqb_neq _ _) Hnj). apply orb_false_r.
  - intros c Hc. cbn [blks]. destruct (Z.eqb_spec c x) as [->|].
    + by rewrite lookup_insert_eq.
    + rewrite lookup_insert_ne by done. apply put_bit_data; [done|lia|done].
  - destruct HL' as [H1 H2 H3 H4 H5 H6 H7 H8]. split; try done; cbn [sblk blks].
    + intros c Hc. rewrite lookup_insert_ne by (apply not_eq_sym, Hne; done). by apply H7.
    + intros c Hc. destruct (decide (c = x)) as [->|].
      * rewrite lookup_insert_eq. eexists; split; [done|]. by rewrite length_replicate.
      * rewrite lookup_insert_ne by done. by apply H8.
Qed.

(** What the search gives when [x] is the first free bit: the block, or a fatal error
    when that bit is not the bit of a data block. *)
Definition balloc_at {A} (f : Z → A) (img : image) (x : Z) (r : outcome image A) : Prop :=
  if decide (is_data (sblk img) x) then ∃ img', r = Ret (f x) img' ∧ allocated img x img'
  else r = Panicked.

Lemma bit_place b bi n : b mod BPB = 0 → 0 ≤ bi < BPB →
  (b + bi) mod BPB = bi ∧ BBLOCK b n = BBLOCK (b + bi) n.
Proof.
  intros Hb Hbi. apply Z.div_exact in Hb; [|lia]. split.
  - rewrite Hb, Z.add_comm, Z.mul_comm, Z.mod_add, Z.mod_small by lia. done.
  - rewrite !(g_bblock HG). f_equal. rewrite Hb at 2.
    rewrite Z.add_comm, Z.mul_comm, Z.div_add, (Z.div_small bi) by lia. lia.
Qed.

(** One round of the inner loop. *)
Lemma balloc_bit_step img b bi fuel :
  layout img → b mod BPB = 0 → 0 ≤ bi < BPB → 0 ≤ b → b + bi < sb_size (sblk img) → ∃ l v,
  blks img !! BBLOCK (b + bi) (sb_ninodes (sblk img)) = Some l ∧
  l !! Z.to_nat ((b + bi) mod BPB / 8) = Some v ∧
  balloc_bits (S fuel) b bi img =
    if used img (b + bi) then balloc_bits fuel b (bi + 1) img else
    (if negb (valid_data_block (sblk img) (b + bi)) then fatal else
     bwrite (b + bi) 0 (replicate (Z.to_nat BSIZE) 0) ;; mret (Some (b + bi)))
    (put_bit img (b + bi) (v .| (1 .<< ((b + bi) mod BPB mod 8)))).
Proof.
  intros HL Hb Hbi H0 Hs. pose proof (l_size _ HL). pose proof bpb_pos.
  destruct (bit_place b bi (sb_ninodes (sblk img)) Hb Hbi) as [Em EB].
  destruct (bitmap_byte img (b + bi) HL) as (l & v & El & Hl & Ev & Eu); [lia|].
  exists l, v. split_and!; [done..|]. cbn [balloc_bits].
  erewrite bind_ret by reflexivity. rewrite (u32_id (b + bi)) by lia.
  rewrite (proj2 (Z.ltb_lt bi BPB)), (proj2 (Z.ltb_lt (b + bi) _)) by lia. cbn [andb].
  unfold getblk. rewrite bind_assoc. erewrite bind_ret by reflexivity. rewrite EB, El.
  erewrite bind_ret by reflexivity. rewrite Em in *. rewrite Ev. erewrite bind_ret by reflexivity.
  rewrite land_mask_zero by (apply Z.mod_pos_bound; lia). rewrite <- Eu.
  destruct (used img (b + bi)); [done|]. unfold put_bit. rewrite Em, El. reflexivity.
Qed.

Lemma balloc_bit_found img b bi fuel :
  layout img → b mod BPB = 0 → 0 ≤ bi < BPB → 0 ≤ b → b + bi < sb_size (sblk img) →
  used img (b + bi) = false → balloc_at Some img (b + bi) (balloc_bits (S fuel) b bi img).
Proof.
  intros HL Hb Hbi H0 Hs Hu.
  destruct (balloc_bit_step img b bi fuel HL Hb Hbi H0 Hs) as (l & v & El & Ev & ->). rewrite Hu.
  unfold balloc_at. destruct (decide (is_data (sblk img) (b + bi))) as [Hd|Hd].
  - rewrite (proj2 (valid_data_block_spec img _ HL) Hd). cbn [negb].
    destruct (take_bit img (b + bi) l v HL Hd El Ev) as (img' & Er & Ha).
    exists img'. by erewrite bind_ret by exact Er.
  - destruct (valid_data_block (sblk img) (b + bi)) eqn:Ed; [|done].
    by apply valid_data_block_spec in Ed.
Qed.

(** [x] is the first free bit from [a] on, or there is none below the end of the image. *)
Definition first_free (img : image) (a x : Z) : Prop :=
  a ≤ x ≤ sb_size (sblk img) ∧ (∀ y, a ≤ y < x → used img y = true) ∧
  (x < sb_size (sblk img) → used img x = false).

Lemma first_free_exists img a : 0 ≤ a ≤ sb_size (sblk img) → ∃ x, first_free img a x.
Proof.
  intros Ha. remember (Z.to_nat (sb_size (sblk img) - a)) as n eqn:En. revert a Ha En.
  induction n as [|n IH]; intros a Ha En.
  - exists a. repeat split; lia || (intros; lia).
  - destruct (used img a) eqn:E.
    + destruct (IH (a + 1)) as (x & Hx & Hu & Hf); [lia|lia|]. exists x. split; [lia|]. split; [|done].
      intros y Hy. destruct (decide (y = a)) as [->|]; [done|]. apply Hu. lia.
    + exists a. split; [lia|]. split; [intros; lia|done].
Qed.

Lemma first_free_later img a a' x : first_free img a x → a ≤ a' ≤ x → first_free img a' x.
Proof. intros (H1 & H2 & H3) Ha. split; [lia|]. split; [|done]. intros; apply H2; lia. Qed.

Lemma balloc_bits_run img b bi x fuel :
  layout img → b mod BPB = 0 → 0 ≤ b → 0 ≤ bi ≤ BPB → first_free img (b + bi) x →
  (Z.to_nat (BPB - bi) ≤ fuel)%nat →
  if decide (x < sb_size (sblk img) ∧ x < b + BPB) then balloc_at Some img x (balloc_bits fuel b bi img)
  else balloc_bits fuel b bi img = Ret None img.
Proof.
  intros HL Hb H0 Hbi Hx Hf. pose proof (l_size _ HL). pose proof bpb_pos.
  remember (Z.to_nat (BPB - bi)) as n eqn:En. revert bi fuel Hbi Hx Hf En.
  induction n as [|n IH]; intros bi fuel Hbi Hx Hf En.
  - assert (bi = BPB) as -> by lia. destruct Hx as (Hx & _).
    destruct (decide _); [lia|]. destruct fuel; simpl; erewrite bind_ret by reflexivity; by rewrite Z.ltb_irrefl.
  - destruct fuel as [|fuel]; [lia|].
    destruct (decide (b + bi < sb_size (sblk img))) as [Hlt|Hge].
    + destruct (decide (x = b + bi)) as [->|Hne].
      * destruct (decide _); [|lia]. apply balloc_bit_found; auto; [lia|]. by apply Hx.
      * destruct (balloc_bit_step img b bi fuel) as (l & v & _ & _ & ->); [done|done|lia|done|done|].
        destruct Hx as (Hx & Hu & Hfr). rewrite Hu by lia. apply IH; [lia| |lia|lia].
        rewrite Z.add_assoc. split; [lia|]. split; [|done]. intros; apply Hu; lia.
    + destruct Hx as (Hx & _). destruct (decide _); [lia|]. simpl. erewrite bind_ret by reflexivity.
      rewrite (u32_id (b + bi)) by lia. rewrite (proj2 (Z.ltb_ge (b + bi) _)) by lia. by rewrite andb_false_r.
Qed.

Lemma balloc_blocks_run img b x fuel :
  layout img → b mod BPB = 0 → 0 ≤ b < sb_size (sblk img) + BPB → first_free img (Z.min b (sb_size (sblk img))) x →
  (Z.to_nat (sb_size (sblk img) - b) < fuel)%nat →
  if decide (x < sb_size (sblk img)) then balloc_at id img x (balloc_blocks fuel b img)
  else balloc_blocks fuel b img = Panicked.
Proof.
  intros HL. pose proof (l_size _ HL). pose proof bpb_pos.
  revert b. induction fuel as [|fuel IH]; intros b Hb Hr Hx Hf; [lia|].
  cbn [balloc_blocks]. erewrite bind_ret by reflexivity. rewrite (u32_id b) by lia.
  destruct (Z.ltb_spec b (sb_size (sblk img))).
  - rewrite Z.min_l in Hx by lia.
    pose proof (balloc_bits_run img b 0 x (Z.to_nat BPB) HL Hb) as Hbits. rewrite Z.add_0_r in Hbits.
    specialize (Hbits ltac:(lia) ltac:(lia) Hx ltac:(lia)).
    destruct (decide (x < sb_size (sblk img) ∧ x < b + BPB)) as [[Hxs Hxb]|Hno].
    + rewrite decide_True by done. unfold balloc_at in *. destruct (decide (is_data _ _)).
      * destruct Hbits as (img' & E & Ha). exists img'. by erewrite bind_ret by exact E.
      * unfold mbind, M_bind. by rewrite Hbits.
    + erewrite bind_ret by exact Hbits. destruct Hx as (Hx & Hu & Hfree).
      rewrite s32_id by lia. apply IH; [|lia| |lia].
      * rewrite <- (Z.mul_1_l BPB) at 1. by rewrite Z.mod_add by lia.
      * split; [lia|]. split; [|done]. intros; apply Hu; lia.
  - destruct Hx as (Hx & _). rewrite decide_False by lia. done.
Qed.

(** balloc takes the block of the first clear bit, and fails when there is none or it is
    not the bit of a data block. *)
Lemma balloc_run img x : layout img → first_free img 0 x →
  if decide (x < sb_size (sblk img)) then balloc_at id img x (balloc img) else balloc img = Panicked.
Proof.
  intros HL Hx. unfold balloc. pose proof (size_nonneg _ HL). pose proof bpb_pos.
  erewrite bind_ret by reflexivity.
  apply balloc_blocks_run; [done|by apply Z.mod_0_l; lia|lia| |lia]. by rewrite Z.min_l by lia.
Qed.

(** ** Free blocks

    balloc stops the program when it finds no free block.  [runs k m s Q]: [m] returns
    and [Q] holds of the result, provided that [k] blocks are free; it then takes at
    most [k] blocks.  An operation that takes no block always returns. *)

(** The blocks in front of the data blocks are marked, as mkfs does. *)
Definition boot_ok (img : image) : Prop := ∀ b, 0 ≤ b < data_start (sblk img) → used img b = true.

Definition nfree (img : image) : nat :=
  length (filter (λ b, used img b = false) (seqZ (data_start (sblk img)) (sb_nblocks (sblk img)))).

Definition room (img : image) (k : nat) : Prop := k = 0%nat ∨ boot_ok img ∧ (k ≤ nfree img)%nat.
Definition spent (img : image) (k : nat) (img' : image) : Prop :=
  boot_ok img → boot_ok img' ∧ (nfree img ≤ nfree img' + k)%nat.

Definition runs {A} (k : nat) (m : M image A) (img : image) (Q : A → image → Prop) : Prop :=
  match m img with Ret a img' => Q a img' ∧ spent img k img' | Panicked => ¬ room img k | _ => False end.

Lemma spent_refl img k : spent img k img.
Proof. intros H. split; [done|lia]. Qed.

Lemma spent_mono img k1 k2 img' : (k1 ≤ k2)%nat → spent img k1 img' → spent img k2 img'.
Proof. intros Hk H Hb. destruct (H Hb). split; [done|lia]. Qed.

Lemma spent_trans img1 k1 img2 k2 img3 : spent img1 k1 img2 → spent img2 k2 img3 → spent img1 (k1 + k2) img3.
Proof. intros H1 H2 Hb. destruct (H1 Hb) as [Hb2 ?]. destruct (H2 Hb2). split; [done|lia]. Qed.

Lemma runs_ret {A} k (m : M image A) img a img' Q : m img = Ret a img' → spent img 0 img' → Q a img' → runs k m img Q.
Proof. unfold runs. intros -> Hs HQ. split; [done|]. eapply spent_mono; [|done]. lia. Qed.

Lemma runs_seq {A B} k1 k2 k (m : M image A) (f : A → M image B) img P Q :
  (k1 + k2 ≤ k)%nat → runs k1 m img P → (∀ a img', P a img' → runs k2 (f a) img' Q) → runs k (m ≫= f) img Q.
Proof.
  unfold runs, mbind, M_bind. intros Hk Hm Hf. destruct (m img) as [a img'| | | | |]; try done.
  - destruct Hm as [HP Hs]. specialize (Hf a img' HP). destruct (f a img') as [b i2| | | | |]; try done.
    + destruct Hf as [HQ Hs2]. split; [done|]. eapply spent_mono; [exact Hk|]. by eapply spent_trans.
    + intros [->|[Hb Hn]]; apply Hf; [left; lia|]. destruct (Hs Hb). right. split; [done|lia].
  - intros [->|[Hb Hn]]; apply Hm; [left; lia|]. right. split; [done|lia].
Qed.

Lemma runs_after {A B} k (m : M image A) (f : A → M image B) img P Q :
  runs 0 m img P → (∀ a img', P a img' → runs k (f a) img' Q) → runs k (m ≫= f) img Q.
Proof. by apply runs_seq. Qed.

Lemma runs_before {A B} k (m : M image A) (f : A → M image B) img P Q :
  runs k m img P → (∀ a img', P a img' → runs 0 (f a) img' Q) → runs k (m ≫= f) img Q.
Proof. apply runs_seq. lia. Qed.

Lemma runs_mono {A} k1 k2 (m : M image A) img (P Q : A → image → Prop) :
  (k1 ≤ k2)%nat → runs k1 m img P → (∀ a img', P a img' → Q a img') → runs k2 m img Q.
Proof.
  unfold runs. intros Hk Hm HPQ. destruct (m img); try done.
  - destruct Hm as [HP Hs]. split; [auto|]. by eapply spent_mono.
  - intros [->|[Hb Hn]]; apply Hm; [left; lia|right; split; [done|lia]].
Qed.

Lemma runs_step {A B} k (m : M image A) (f : A → M image B) img a img' Q :
  m img = Ret a img' → spent img 0 img' → runs k (f a) img' Q → runs k (m ≫= f) img Q.
Proof. intros E Hs Hf. eapply (runs_seq 0 k _ _ _ _ (λ b i, b = a ∧ i = img')); [lia|by eapply runs_ret|]. by intros b i [-> ->]. Qed.

Lemma runs_read {A B} k (m : M image A) (f : A → M image B) img a Q :
  m img = Ret a img → runs k (f a) img Q → runs k (m ≫= f) img Q.
Proof. intros E. apply runs_step; [done|apply spent_refl]. Qed.

(** With room, the operation returns. *)
Lemma runs_returns {A} k (m : M image A) img Q : runs k m img Q → room img k → ∃ a img', m img = Ret a img' ∧ Q a img'.
Proof. unfold runs. destruct (m img); intros H Hr; try done. destruct H. eauto. Qed.

(** Images with the same bitmap. *)
Lemma spent_used img img' : layout img → sblk img' = sblk img →
  (∀ x, 0 ≤ x < sb_size (sblk img) → used img' x = used img x) → spent img 0 img'.
Proof.
  intros HL Es Hu Hb. pose proof (l_fits _ HL). pose proof (l_nblocks _ HL). pose proof (size_nonneg _ HL).
  pose proof (data_start_pos (sblk img) ltac:(pose proof (l_ninodes _ HL); lia) ltac:(done)). split.
  - intros b. rewrite Es. intros Hx. rewrite Hu by lia. by apply Hb.
  - unfold nfree. rewrite Es. apply Nat.eq_le_incl. rewrite Nat.add_0_r. f_equal.
    assert (∀ l : list Z, (∀ x, x ∈ l → 0 ≤ x < sb_size (sblk img)) →
      filter (λ b, used img b = false) l = filter (λ b, used img' b = false) l) as H3.
    { induction l as [|x l IH]; intros Hl; [done|]. rewrite !filter_cons, Hu, IH by set_solver. done. }
    apply H3. intros x Hx%elem_of_seqZ. lia.
Qed.

Lemma spent_blks img img' : sblk img' = sblk img → blks img' = blks img → spent img 0 img'.
Proof.
  intros Es Eb Hbo. assert (∀ x, used img' x = used img x) as Hu by (intros x; unfold used; by rewrite Es, Eb).
  split; [intros b; rewrite Es, Hu; apply Hbo|]. unfold nfree. rewrite Es. apply Nat.eq_le_incl. rewrite Nat.add_0_r. f_equal.
  apply list_filter_iff. intros x. by rewrite Hu.
Qed.

Lemma allocated_spent img b img' : layout img → is_data (sblk img) b → used img b = false → allocated img b img' → spent img 1 img'.
Proof.
  intros HL Hd Hu HA Hb. pose proof (l_fits _ HL). pose proof (l_nblocks _ HL). pose proof (size_nonneg _ HL).
  pose proof (data_start_pos (sblk img) ltac:(pose proof (l_ninodes _ HL); lia) ltac:(done)).
  pose proof HA as [Es _ Hus _ _]. unfold is_data in Hd. split.
  - intros x. rewrite Es. intros Hx. rewrite Hus by lia. destruct (x =? b); [done|by apply Hb].
  - unfold nfree. rewrite Es.
    assert (∀ l : list Z, NoDup l → (∀ x, x ∈ l → 0 ≤ x < sb_size (sblk img)) →
      (length (filter (λ b, used img b = false) l) ≤ length (filter (λ b, used img' b = false) l) +
       (if decide (b ∈ l) then 1 else 0))%nat) as H3.
    { induction l as [|x l IH]; intros Hnd Hl; [simpl; lia|]. apply list.NoDup_cons in Hnd as [Hx Hnd].
      specialize (IH Hnd ltac:(set_solver)). rewrite !filter_cons, Hus by set_solver.
      destruct (Z.eqb_spec x b) as [->|Hne].
      - rewrite (decide_True _ _ Hu), (decide_False _ _ (Bool.diff_true_false)). rewrite decide_True by set_solver.
        rewrite decide_False in IH by done. simpl. lia.
      - destruct (decide (b ∈ l)); [rewrite (decide_True _ _ (P := b ∈ x :: l)) by set_solver|rewrite (decide_False _ _ (P := b ∈ x :: l)) by set_solver];
          destruct (decide (used img x = false)); simpl; lia. }
    etrans; [apply H3; [apply NoDup_seqZ|intros x Hx%elem_of_seqZ; lia]|]. destruct (decide _); lia.
Qed.

Lemma released_spent img b img' : layout img → is_data (sblk img) b → released img b img' → spent img 0 img'.
Proof.
  intros HL Hd [Es _ Hus _ _] Hb. pose proof (l_fits _ HL). pose proof (l_nblocks _ HL). pose proof (size_nonneg _ HL).
  pose proof (data_start_pos (sblk img) ltac:(pose proof (l_ninodes _ HL); lia) ltac:(done)). unfold is_data in Hd. split.
  - intros x. rewrite Es. intros Hx. rewrite Hus by lia. rewrite (proj2 (Z.eqb_neq x b)) by lia. by apply Hb.
  - unfold nfree. rewrite Es, Nat.add_0_r.
    assert (∀ l : list Z, (∀ x, x ∈ l → 0 ≤ x < sb_size (sblk img)) →
      (length (filter (λ b, used img b = false) l) ≤ length (filter (λ b, used img' b = false) l))%nat) as H3.
    { induction l as [|x l IH]; intros Hl; [done|]. specialize (IH ltac:(set_solver)). rewrite !filter_cons, Hus by set_solver.
      destruct (x =? b); repeat destruct (decide _); simpl; done || lia. }
    apply H3. intros x Hx%elem_of_seqZ. lia.
Qed.

Lemma balloc_runs img : layout img →
  runs 1 balloc img (λ b img', is_data (sblk img) b ∧ used img b = false ∧ allocated img b img').
Proof.
  intros HL. pose proof (size_nonneg _ HL). destruct (first_free_exists img 0) as [x Hx]; [lia|].
  pose proof (balloc_run img x HL Hx) as E. pose proof (l_fits _ HL). destruct Hx as (Hx & Hall & Hfree).
  assert (is_data (sblk img) x ∨ ¬ room img 1) as [Hd|Hr].
  { destruct (decide (is_data (sblk img) x)) as [|Hnd]; [by left|right]. intros [?|[Hb Hn]]; [done|].
    unfold nfree in Hn. destruct (filter _ _) as [|y l] eqn:Ef; [simpl in Hn; lia|].
    assert (y ∈ filter (λ b, used img b = false) (seqZ (data_start (sblk img)) (sb_nblocks (sblk img)))) as Hy by (rewrite Ef; left).
    apply list_elem_of_filter in Hy as [Hy1 Hy2%elem_of_seqZ].
    assert (¬ y < x) by (intros Hlt; pose proof (data_start_pos (sblk img) ltac:(pose proof (l_ninodes _ HL); lia) ltac:(done));
      rewrite Hall in Hy1 by lia; done).
    assert (¬ x < data_start (sblk img)) by (intros Hlt; specialize (Hfree ltac:(lia)); by rewrite Hb in Hfree by lia).
    unfold is_data in Hnd. lia. }
  - unfold is_data in Hd. rewrite decide_True in E by lia. unfold balloc_at in E. rewrite decide_True in E by done.
    destruct E as (img' & E & Ha). unfold runs. rewrite E. assert (used img x = false) by (apply Hfree; lia).
    split; [done|]. by eapply allocated_spent.
  - unfold runs. destruct (decide (x < sb_size (sblk img))); [|by rewrite E]. unfold balloc_at in E.
    destruct (decide (is_data (sblk img) x)) as [Hd|]; [|by rewrite E].
    destruct E as (img' & E & Ha). rewrite E. split; [split_and!; auto|]. apply (allocated_spent img x); auto.
Qed.

(** ** The inode table *)

Definition inode_ptr (inum : Z) : inode_t := (IBLOCK inum, inum mod IPB).
Definition is_inum (sb : superblock) (inum : Z) : Prop := 0 < inum < sb_ninodes sb.

Lemma iget_spec sb inum :
  iget sb inum = if decide (is_inum sb inum) then Some (inode_ptr inum) else None.
Proof.
  unfold iget, is_inum, inode_ptr. destruct (decide _).
  - by rewrite (proj2 (Z.ltb_lt 0 inum)), (proj2 (Z.ltb_lt inum _)) by lia.
  - destruct (Z.ltb_spec 0 inum), (Z.ltb_spec inum (sb_ninodes sb)); done || lia.
Qed.

Lemma inode_ptr_inj i j : inode_ptr i = inode_ptr j → i = j.
Proof.
  unfold inode_ptr. rewrite !(g_iblock HG). intros [= H1 H2]. pose proof (g_ipb HG).
  rewrite (Z.div_mod i IPB), (Z.div_mod j IPB), H2 by lia. nia.
Qed.

Lemma geti_loop_run fuel Ni i inum :
  0 ≤ inum < 2 ^ 31 → i ≤ inum / IPB < Ni → (Z.to_nat (inum / IPB - i) < fuel)%nat →
  geti_loop fuel Ni i (inode_ptr inum) = inum.
Proof.
  intros Hn. pose proof (g_ipb HG). pose proof (Z.mod_pos_bound inum IPB (g_ipb HG)).
  revert i. induction fuel as [|fuel IH]; intros i Hi Hf; [lia|]. cbn [geti_loop].
  rewrite (proj2 (Z.ltb_lt i Ni)) by lia. unfold inode_ptr at 1 2 3. cbn [fst snd]. rewrite (g_iblock HG).
  rewrite (proj2 (Z.leb_le 0 _)), (proj2 (Z.ltb_lt _ IPB)) by lia. rewrite !andb_true_r.
  destruct (Z.eqb_spec (2 + inum / IPB) (i + 2)) as [E|E].
  - assert (i = inum / IPB) as -> by lia. unfold inode_ptr. cbn [snd].
    replace (inum mod IPB + inum / IPB * IPB) with inum by (rewrite (Z.div_mod inum IPB) at 1; lia).
    apply u32_id. lia.
  - apply IH; lia.
Qed.

(** geti undoes iget. *)
Lemma geti_ptr img inum : layout img → is_inum (sblk img) inum → geti (sblk img) (inode_ptr inum) = inum.
Proof.
  intros HL Hi. unfold is_inum in Hi. pose proof (l_ninodes _ HL). pose proof (g_ipb HG).
  assert (inum / IPB ≤ sb_ninodes (sblk img) / IPB) by (apply Z.div_le_mono; lia).
  assert (0 ≤ inum / IPB) by (apply Z.div_pos; lia).
  assert (sb_ninodes (sblk img) / IPB ≤ sb_ninodes (sblk img)) by (apply Z.div_le_upper_bound; nia).
  unfold geti. rewrite (u32_id (_ + 1)) by lia. apply geti_loop_run; lia.
Qed.

Lemma inode_run img p d : inodes img !! p = Some d → inode p img = Ret d img.
Proof. intros E. unfold inode. erewrite bind_ret by reflexivity. by rewrite E. Qed.

Definition with_inode (img : image) (p : inode_t) (d : dinode) : image :=
  mk_img (sblk img) (<[p := d]> (inodes img)) (blks img).

Lemma upd_inode_run img p d f : inodes img !! p = Some d →
  upd_inode p f img = Ret tt (with_inode img p (f d)).
Proof. intros E. unfold upd_inode. by erewrite bind_ret by (by apply inode_run). Qed.

Lemma with_inode_twice img p d e : with_inode (with_inode img p d) p e = with_inode img p e.
Proof. unfold with_inode. simpl. by rewrite insert_insert_eq. Qed.

Lemma with_inode_layout img p d e : layout img → inodes img !! p = Some e →
  length (d_addrs d) = Z.to_nat (NDIRECT + 1) → layout (with_inode img p d).
Proof.
  intros [H1 H2 H3 H4 H5 H6 H7 H8] He Hd. split; try done; unfold with_inode; cbn [inodes sblk].
  - intros q f. destruct (decide (p = q)) as [->|]; [rewrite lookup_insert_eq|rewrite lookup_insert_ne by done]; [|eauto].
    by intros [= <-].
  - intros i Hi. destruct (decide (p = inode_ptr i)) as [->|].
    + rewrite lookup_insert_eq. eauto.
    + rewrite lookup_insert_ne by done. auto.
Qed.

(** ialloc takes a free inode and clears it. *)
(** Some inode is free. *)
Definition free_inode (img : image) (inum : Z) : Prop :=
  is_inum (sblk img) inum ∧ ∃ d, inodes img !! inode_ptr inum = Some d ∧ d_type d = 0.

(** ialloc takes a free inode when there is one. *)
Lemma ialloc_runs img type i : layout img → free_inode img i →
  runs 0 (ialloc type) img (λ ip img', ∃ inum d, is_inum (sblk img) inum ∧ ip = inode_ptr inum ∧
    inodes img !! ip = Some d ∧ d_type d = 0 ∧ img' = with_inode img ip (set_type (u16 type) dinode0)).
Proof.
  intros HL [Hi (di & Edi & Hdi)]. unfold ialloc. eapply runs_read; [reflexivity|].
  assert (∀ fuel inum, 0 < inum ≤ i → (Z.to_nat (sb_ninodes (sblk img) - inum) ≤ fuel)%nat →
    runs 0 (ialloc_loop fuel inum type) img (λ ip img', ∃ inum d, is_inum (sblk img) inum ∧ ip = inode_ptr inum ∧
    inodes img !! ip = Some d ∧ d_type d = 0 ∧ img' = with_inode img ip (set_type (u16 type) dinode0))) as H;
    [|apply H; unfold is_inum in Hi; lia]. unfold is_inum in Hi.
  induction fuel as [|fuel IH]; intros inum Hin Hf; cbn [ialloc_loop];
    (eapply runs_read; [reflexivity|]); (destruct (Z.ltb_spec inum (sb_ninodes (sblk img))); [|lia]); [lia|].
  destruct (l_table _ HL inum) as [d Ed]; [lia|]. fold (inode_ptr inum) in *.
  eapply runs_read; [by apply inode_run|]. destruct (Z.eqb_spec (d_type d) 0) as [|Hd].
  - eapply runs_step; [reflexivity|by apply spent_blks|]. eapply runs_step; [apply upd_inode_run, lookup_insert_eq|by apply spent_blks|].
    eapply runs_ret; [reflexivity|apply spent_refl|]. exists inum, d. unfold is_inum. split_and!; try done; try lia.
    apply with_inode_twice.
  - apply IH; [|lia]. destruct (decide (inum = i)) as [->|]; [congruence|lia].
Qed.

(** ** The allocator *)

Lemma nfree_pos img : (0 < nfree img)%nat ↔ ∃ b, is_data (sblk img) b ∧ used img b = false.
Proof.
  unfold nfree. split.
  - intros H. destruct (filter _ _) as [|b l] eqn:E; [simpl in H; lia|]. exists b.
    assert (b ∈ filter (λ b, used img b = false) (seqZ (data_start (sblk img)) (sb_nblocks (sblk img)))) as Hb by (rewrite E; left).
    apply list_elem_of_filter in Hb as [Hb Hs%elem_of_seqZ]. done.
  - intros (b & Hd & Hu). destruct (filter _ _) as [|x l] eqn:E; [|simpl; lia]. exfalso.
    eapply (not_elem_of_nil b). rewrite <- E. apply list_elem_of_filter. split; [done|]. by apply elem_of_seqZ.
Qed.

(** balloc gives the free data block with the smallest number, zeroed and marked as used,
    and changes nothing else; it stops the program exactly when no data block is free. *)
Theorem balloc_correct img : layout img → boot_ok img →
  if decide (0 < nfree img)%nat then
    ∃ b img', balloc img = Ret b img' ∧ is_data (sblk img) b ∧ used img b = false ∧
      (∀ x, 0 ≤ x < b → used img x = true) ∧ allocated img b img' ∧ (nfree img ≤ S (nfree img'))%nat
  else balloc img = Panicked.
Proof.
  intros HL Hb. pose proof (size_nonneg _ HL). destruct (first_free_exists img 0) as [x Hx]; [lia|].
  pose proof (balloc_run img x HL Hx) as E. pose proof (balloc_runs img HL) as Hr. pose proof Hx as (_ & Hall & Hfree).
  destruct (decide (0 < nfree img)%nat) as [Hn|Hn].
  - destruct (runs_returns _ _ _ _ Hr) as (b & img' & Eb & Hd & Hu & HA); [right; split; [done|lia]|].
    exists b, img'. split_and!; try done.
    + rewrite Eb in E. destruct (decide (x < _)); [|done]. unfold balloc_at in E. destruct (decide (is_data _ _)); [|done].
      destruct E as (i2 & [= -> ->] & _). done.
    + unfold runs in Hr. rewrite Eb in Hr. destruct Hr as [_ Hs]. destruct (Hs Hb). lia.
  - destruct (decide (x < sb_size (sblk img))); [|done]. unfold balloc_at in E. destruct (decide (is_data _ _)); [|done].
    destruct Hn. apply nfree_pos. eauto.
Qed.

End blocks.
