(* ===== verification/FsFile.v ===== *)
(** * Files of an image (tools/libfs.c)

    A file is a list of blocks: the direct entries of its inode, then the entries of
    its indirect block.  [rep img F] says that the image [img] stores the lists of
    blocks [F]: every entry is a data block marked in the bitmap, no two entries share
    a block and no block is lost.  iread, iwrite and itruncate are correct for the
    contents of files read off the image by [content]. *)

From stdpp Require Import base gmap list numbers option.
From Stdlib Require Import Lia ZArith.
From S2P Require Import Prelude Fs FsBlocks.

#[local] Open Scope Z_scope.
#[local] Open Scope yaos_scope.

(** ** Parts of lists *)

Lemma inside_spec l off n : inside l off n = true ↔ 0 ≤ off ∧ 0 ≤ n ∧ off + n ≤ Z.of_nat (length l).
Proof. unfold inside. rewrite !andb_true_iff, !Z.leb_le. tauto. Qed.

Lemma length_store l off bs : inside l off (Z.of_nat (length bs)) = true → length (store l off bs) = length l.
Proof. rewrite inside_spec. intros. unfold store. rewrite !length_app, length_take, length_drop. lia. Qed.

Lemma length_slice l off n : inside l off n = true → length (slice l off n) = Z.to_nat n.
Proof. rewrite inside_spec. intros. unfold slice. rewrite length_take, length_drop. lia. Qed.

Lemma slice_lookup l off n i : 0 ≤ off → (i < Z.to_nat n)%nat → slice l off n !! i = l !! (Z.to_nat off + i)%nat.
Proof. intros. unfold slice. by rewrite lookup_take_lt, lookup_drop by done. Qed.

(** The byte at [i] of [store l off bs]. *)
Lemma store_lookup l off bs i : 0 ≤ off ≤ Z.of_nat (length l) →
  store l off bs !! i =
    if decide (Z.to_nat off ≤ i < Z.to_nat off + length bs)%nat then bs !! (i - Z.to_nat off)%nat else l !! i.
Proof.
  intros Ho. unfold store. destruct (decide (i < Z.to_nat off)%nat).
  - rewrite lookup_app_l by (rewrite length_take; lia). rewrite lookup_take_lt by lia. by rewrite decide_False by lia.
  - rewrite lookup_app_r by (rewrite length_take; lia). rewrite length_take.
    replace (i - Z.to_nat off `min` length l)%nat with (i - Z.to_nat off)%nat by lia.
    destruct (decide (i < Z.to_nat off + length bs)%nat).
    + rewrite lookup_app_l by lia. by rewrite decide_True by lia.
    + rewrite lookup_app_r, lookup_drop by lia. rewrite decide_False by lia. f_equal. lia.
Qed.

Lemma slice_store_same l off bs : inside l off (Z.of_nat (length bs)) = true →
  slice (store l off bs) off (Z.of_nat (length bs)) = bs.
Proof.
  rewrite inside_spec. intros Hi. apply list_eq. intros i.
  destruct (decide (i < length bs)%nat).
  - rewrite slice_lookup, store_lookup, decide_True by lia. f_equal. lia.
  - rewrite !lookup_ge_None_2; [done|lia|]. rewrite length_slice; [lia|].
    apply inside_spec. rewrite length_store; [lia|]. by apply inside_spec.
Qed.

Lemma slice_store_other l off bs off' n : 0 ≤ off ≤ Z.of_nat (length l) → 0 ≤ off' →
  off' + n ≤ off ∨ off + Z.of_nat (length bs) ≤ off' →
  slice (store l off bs) off' n = slice l off' n.
Proof.
  intros Ho Ho' Hd. apply list_eq. intros i. destruct (decide (i < Z.to_nat n)%nat).
  - rewrite !slice_lookup, store_lookup, decide_False by lia. done.
  - unfold slice. by rewrite !lookup_take_ge by lia.
Qed.

Lemma slice_plus l off m m' : 0 ≤ off → 0 ≤ m → 0 ≤ m' →
  slice l off (m + m') = slice l off m ++ slice l (off + m) m'.
Proof.
  intros. unfold slice. rewrite !Z2Nat.inj_add by lia. rewrite <- drop_drop, <- take_take_drop. done.
Qed.

Lemma store_app l l' off bs : 0 ≤ off → off + Z.of_nat (length bs) ≤ Z.of_nat (length l) →
  store (l ++ l') off bs = store l off bs ++ l'.
Proof.
  intros. unfold store. rewrite take_app_le, drop_app_le by lia. by rewrite <- !app_assoc.
Qed.

Lemma store_app_r l l' off bs : 0 ≤ off →
  store (l ++ l') (Z.of_nat (length l) + off) bs = l ++ store l' off bs.
Proof.
  intros. unfold store. rewrite take_app_ge, drop_app_ge by lia. rewrite <- app_assoc.
  replace (Z.to_nat (Z.of_nat (length l) + off) - length l)%nat with (Z.to_nat off) by lia.
  by replace (Z.to_nat (Z.of_nat (length l) + off) + length bs - length l)%nat with (Z.to_nat off + length bs)%nat by lia.
Qed.

Lemma store_store l off a b : 0 ≤ off → off + Z.of_nat (length a) + Z.of_nat (length b) ≤ Z.of_nat (length l) →
  store (store l off a) (off + Z.of_nat (length a)) b = store l off (a ++ b).
Proof.
  intros Ho Hl. apply list_eq. intros i.
  assert (inside l off (Z.of_nat (length a)) = true) as Hi by (apply inside_spec; lia).
  rewrite !store_lookup by (rewrite ?length_store by done; lia). rewrite length_app.
  repeat case_decide; try lia; try done.
  - rewrite lookup_app_r by lia. f_equal. lia.
  - rewrite lookup_app_l by lia. done.
Qed.

Lemma store_nil l off : store l off [] = l.
Proof. unfold store. simpl. rewrite Nat.add_0_r. apply take_drop. Qed.

(** ** Lists of equal blocks *)

Section concat.
Context (B : nat).

Lemma length_blocks (ls : list (list Z)) : Forall (λ l, length l = B) ls → length (concat ls) = (length ls * B)%nat.
Proof. induction 1 as [|l ls Hl _ IH]; [done|]. simpl. rewrite length_app. lia. Qed.

Lemma split_blocks (ls : list (list Z)) k l : Forall (λ l, length l = B) ls → ls !! k = Some l → ∃ l1 l2,
  concat ls = l1 ++ l ++ l2 ∧ length l1 = (k * B)%nat ∧ ∀ l', concat (<[k := l']> ls) = l1 ++ l' ++ l2.
Proof.
  intros HF Hk. exists (concat (take k ls)), (concat (drop (S k) ls)). pose proof (lookup_lt_Some _ _ _ Hk).
  split_and!.
  - rewrite <- (take_drop_middle ls k l Hk) at 1. by rewrite concat_app.
  - rewrite length_blocks by (by apply Forall_take). rewrite length_take. lia.
  - intros l'. rewrite insert_take_drop by done. by rewrite concat_app.
Qed.

Lemma slice_blocks ls k l o m : Forall (λ l, length l = B) ls → ls !! k = Some l →
  0 ≤ o → 0 ≤ m → o + m ≤ Z.of_nat B →
  slice (concat ls) (Z.of_nat (k * B) + o) m = slice l o m.
Proof.
  intros HF Hk Ho Hm Hom. destruct (split_blocks ls k l HF Hk) as (l1 & l2 & -> & Hl1 & _).
  assert (length l = B) as Hl by (by eapply list.Forall_lookup_1 in HF).
  unfold slice. rewrite drop_app_ge by lia. rewrite drop_app_le by lia. rewrite take_app_le by (rewrite length_drop; lia).
  do 2 f_equal. lia.
Qed.

Lemma store_blocks ls k l o bs : Forall (λ l, length l = B) ls → ls !! k = Some l →
  0 ≤ o → o + Z.of_nat (length bs) ≤ Z.of_nat B →
  concat (<[k := store l o bs]> ls) = store (concat ls) (Z.of_nat (k * B) + o) bs.
Proof.
  intros HF Hk Ho Hom. destruct (split_blocks ls k l HF Hk) as (l1 & l2 & -> & Hl1 & ->).
  assert (length l = B) as Hl by (by eapply list.Forall_lookup_1 in HF).
  rewrite <- Hl1, store_app_r, store_app by lia. done.
Qed.
End concat.

(** ** Entries of a block of numbers *)

Lemma le32_bytes32 v : 0 ≤ v < 2 ^ 32 → le32 (bytes32 v) = v.
Proof.
  intros Hv. cbn [le32 bytes32 foldr]. change 65536 with (256 * 256). change 16777216 with (256 * 256 * 256).
  rewrite <- !Z.div_div by lia. set (a := v / 256). set (b := a / 256). set (c := b / 256).
  assert (c < 256) by (unfold c, b, a; rewrite !Z.div_div by lia; apply Z.div_lt_upper_bound; lia).
  assert (0 ≤ c) by (unfold c, b, a; rewrite !Z.div_div by lia; apply Z.div_pos; lia).
  rewrite (Z.mod_small c) by lia.
  pose proof (Z.div_mod v 256). pose proof (Z.div_mod a 256). pose proof (Z.div_mod b 256).
  fold a in H1. fold b in H2. fold c in H3. lia.
Qed.

Lemma le32_zero n : le32 (replicate n 0) = 0.
Proof. induction n as [|n IH]; [done|]. unfold le32 in *. cbn [replicate foldr]. rewrite IH. lia. Qed.

Definition uint_at (l : list Z) (k : Z) : Z := le32 (slice l (4 * k) 4).

Lemma uint_at_store_same l k v :
  0 ≤ k → 4 * k + 4 ≤ Z.of_nat (length l) → 0 ≤ v < 2 ^ 32 → uint_at (store l (4 * k) (bytes32 v)) k = v.
Proof.
  intros. unfold uint_at. change 4 with (Z.of_nat (length (bytes32 v))) at 3.
  rewrite slice_store_same; [by apply le32_bytes32|]. apply inside_spec. simpl. lia.
Qed.

Lemma uint_at_store_other l k v j :
  0 ≤ k → 4 * k + 4 ≤ Z.of_nat (length l) → 0 ≤ j → j ≠ k → uint_at (store l (4 * k) (bytes32 v)) j = uint_at l j.
Proof. intros. unfold uint_at. rewrite slice_store_other; [done|lia|lia|]. simpl. lia. Qed.

Lemma uint_at_zero n k : uint_at (replicate n 0) k = 0.
Proof. unfold uint_at, slice. rewrite drop_replicate, take_replicate. apply le32_zero. Qed.

Section file.
Context {G : FsGeom} (HG : geom_ok G).

(** ** The entries of the inodes *)

Inductive slot : Type :=
| Data (p : inode_t) (k : Z)   (* the k-th block of a file *)
| Ind (p : inode_t).           (* its indirect block *)

#[export] Instance slot_eq_dec : EqDecision slot.
Proof. solve_decision. Defined.

Definition slot_ok (s : slot) : Prop := match s with Data _ k => 0 ≤ k < MAXFILE | Ind _ => True end.

Definition addr_of (img : image) (p : inode_t) (n : Z) : Z :=
  match inodes img !! p with Some d => default 0 (d_addrs d !! Z.to_nat n) | None => 0 end.

(** The block number an entry holds, 0 when there is none. *)
Definition val (img : image) (s : slot) : Z :=
  match s with
  | Ind p => addr_of img p NDIRECT
  | Data p k =>
      if k <? NDIRECT then addr_of img p k else
      let ia := addr_of img p NDIRECT in
      if ia =? 0 then 0 else uint_at (default [] (blks img !! ia)) (k - NDIRECT)
  end.

(** Every entry in use is a data block marked in the bitmap, and every marked data
    block belongs to exactly one entry. *)
Record slots_ok (img : image) : Prop := {
  s_layout : layout img;
  s_slot : ∀ s, slot_ok s → val img s ≠ 0 → is_data (sblk img) (val img s) ∧ used img (val img s) = true;
  s_inj : ∀ s t, slot_ok s → slot_ok t → val img s ≠ 0 → val img s = val img t → s = t;
  s_owned : ∀ x, is_data (sblk img) x → used img x = true → ∃ s, slot_ok s ∧ val img s = x
}.

(** The entries of the files are the blocks [F], without holes. *)
Record blocks_are (img : image) (F : inode_t → list (list Z)) : Prop := {
  b_len : ∀ p, is_Some (inodes img !! p) → Z.of_nat (length (F p)) ≤ MAXFILE;
  b_data : ∀ p k l, is_Some (inodes img !! p) → 0 ≤ k → F p !! Z.to_nat k = Some l →
    val img (Data p k) ≠ 0 ∧ blks img !! val img (Data p k) = Some l;
  b_hole : ∀ p k, is_Some (inodes img !! p) → 0 ≤ k < MAXFILE → F p !! Z.to_nat k = None → val img (Data p k) = 0;
  b_ind : ∀ p, is_Some (inodes img !! p) → NDIRECT < Z.of_nat (length (F p)) → val img (Ind p) ≠ 0
}.

Definition rep (img : image) (F : inode_t → list (list Z)) : Prop := slots_ok img ∧ blocks_are img F.

(** What the operations on blocks keep of an inode. *)
Definition meta (d : dinode) : dinode := set_addrs [] d.
Record same_meta (img img' : image) : Prop := {
  sm_sblk : sblk img' = sblk img;
  sm_inode : ∀ p, meta <$> inodes img' !! p = meta <$> inodes img !! p
}.

Lemma same_meta_refl img : same_meta img img.
Proof. done. Qed.

Lemma same_meta_trans img1 img2 img3 : same_meta img1 img2 → same_meta img2 img3 → same_meta img1 img3.
Proof. intros [H1 H2] [H3 H4]. split; [congruence|]. intros p. by rewrite H4. Qed.

Lemma same_meta_some img img' p : same_meta img img' → is_Some (inodes img' !! p) ↔ is_Some (inodes img !! p).
Proof. intros [_ H]. specialize (H p). by destruct (inodes img !! p), (inodes img' !! p). Qed.

(** ** Changing one entry *)

Lemma data_nonzero img x : layout img → is_data (sblk img) x → x ≠ 0.
Proof. intros HL Hx. pose proof (data_in_image HG _ _ HL Hx). lia. Qed.

(** A free block put into an empty entry. *)
Lemma slots_link img img' s b :
  slots_ok img → layout img' → sblk img' = sblk img → slot_ok s → val img s = 0 →
  is_data (sblk img) b → used img b = false →
  (∀ x, is_data (sblk img) x → used img' x = if x =? b then true else used img x) →
  val img' s = b → (∀ t, slot_ok t → t ≠ s → val img' t = val img t) → slots_ok img'.
Proof.
  intros [HL Hs Hi Ho] HL' Esb Hok Hz Hb Hu Hu' Es Et.
  assert (b ≠ 0) as Hb0 by (by apply (data_nonzero img)).
  assert (∀ t, slot_ok t → val img t ≠ b) as Hnb.
  { intros t Ht E. destruct (Hs t Ht) as [_ H]; [congruence|]. congruence. }
  split; [done|..]; rewrite ?Esb.
  - intros t Ht. destruct (decide (t = s)) as [->|Hne].
    + intros _. rewrite Es, Hu', Z.eqb_refl by done. done.
    + rewrite Et by done. intros Hv. destruct (Hs t Ht Hv) as [Hd Hut].
      rewrite Hu', (proj2 (Z.eqb_neq _ _) (Hnb t Ht)) by done. done.
  - intros t1 t2 Ht1 Ht2. destruct (decide (t1 = s)) as [->|H1], (decide (t2 = s)) as [->|H2].
    + done.
    + rewrite Es, Et by done. intros _ E. by destruct (Hnb t2).
    + rewrite Es, Et by done. intros _ E. by destruct (Hnb t1).
    + rewrite !Et by done. by apply Hi.
  - intros x Hx. rewrite Hu' by done. destruct (Z.eqb_spec x b) as [->|]; [eauto|].
    intros Hux. destruct (Ho x Hx Hux) as (t & Ht & <-). exists t. split; [done|]. apply Et; [done|].
    intros ->. by apply (data_nonzero img) in Hx.
Qed.

(** A block freed and its entry cleared. *)
Lemma slots_unlink img img' s :
  slots_ok img → layout img' → sblk img' = sblk img → slot_ok s → val img s ≠ 0 →
  (∀ x, is_data (sblk img) x → used img' x = if x =? val img s then false else used img x) →
  val img' s = 0 → (∀ t, slot_ok t → t ≠ s → val img' t = val img t) → slots_ok img'.
Proof.
  intros [HL Hs Hi Ho] HL' Esb Hok Hz Hu' Es Et. split; [done|..]; rewrite ?Esb.
  - intros t Ht. destruct (decide (t = s)) as [->|Hne]; [done|].
    rewrite Et by done. intros Hv. destruct (Hs t Ht Hv) as [Hd Hut]. split; [done|].
    rewrite Hu' by done. destruct (Z.eqb_spec (val img t) (val img s)) as [E|]; [|done].
    by apply Hi in E.
  - intros t1 t2 Ht1 Ht2. destruct (decide (t1 = s)) as [->|H1]; [done|].
    destruct (decide (t2 = s)) as [->|H2]; [rewrite Es; congruence|]. rewrite !Et by done. by apply Hi.
  - intros x Hx. rewrite Hu' by done. destruct (Z.eqb_spec x (val img s)) as [->|Hne]; [done|].
    intros Hux. destruct (Ho x Hx Hux) as (t & Ht & <-). exists t. split; [done|]. apply Et; [done|congruence].
Qed.

Lemma slots_same img img' :
  slots_ok img → layout img' → sblk img' = sblk img →
  (∀ x, is_data (sblk img) x → used img' x = used img x) →
  (∀ t, slot_ok t → val img' t = val img t) → slots_ok img'.
Proof.
  intros [HL Hs Hi Ho] HL' Esb Hu' Et. split; [done|..]; rewrite ?Esb.
  - intros t Ht. rewrite Et by done. intros Hv. destruct (Hs t Ht Hv). by rewrite Hu'.
  - intros t1 t2 Ht1 Ht2. rewrite !Et by done. by apply Hi.
  - intros x Hx. rewrite Hu' by done. intros Hux. destruct (Ho x Hx Hux) as (t & Ht & <-).
    exists t. split; [done|]. by apply Et.
Qed.

(** ** How the entries depend on the image *)

Lemma val_ext img img' :
  inodes img' = inodes img →
  (∀ p, val img (Ind p) ≠ 0 → blks img' !! val img (Ind p) = blks img !! val img (Ind p)) →
  ∀ t, val img' t = val img t.
Proof.
  intros Ei Eb [p k|p]; simpl; unfold addr_of in *; rewrite Ei; [|done].
  destruct (k <? NDIRECT); [done|]. destruct (Z.eqb_spec (addr_of img p NDIRECT) 0) as [E|E];
    unfold addr_of in E; [by rewrite (proj2 (Z.eqb_eq _ _) E)|].
  rewrite (proj2 (Z.eqb_neq _ _) E). specialize (Eb p). simpl in Eb. unfold addr_of in Eb. by rewrite Eb.
Qed.

Lemma val_exists img t : val img t ≠ 0 → match t with Data p _ | Ind p => is_Some (inodes img !! p) end.
Proof.
  destruct t as [p k|p]; simpl; unfold addr_of; destruct (inodes img !! p) eqn:E; simpl; eauto; try done.
  by destruct (k <? NDIRECT).
Qed.

Definition with_addr (img : image) (p : inode_t) (n v : Z) : image :=
  match inodes img !! p with
  | Some d => with_inode img p (set_addrs (<[Z.to_nat n := v]> (d_addrs d)) d)
  | None => img
  end.

Lemma set_addr_run img p d n v : inodes img !! p = Some d →
  set_addr p n v img = Ret tt (with_addr img p n v).
Proof. intros E. unfold set_addr, with_addr. rewrite E. by rewrite (upd_inode_run img p d _ E). Qed.

Lemma addr_of_with_addr img p d n v q m :
  layout img → inodes img !! p = Some d → 0 ≤ n ≤ NDIRECT → 0 ≤ m →
  addr_of (with_addr img p n v) q m = if decide (q = p ∧ m = n) then v else addr_of img q m.
Proof.
  intros HL Ed Hn Hm. unfold with_addr, addr_of. rewrite Ed. cbn [inodes with_inode].
  destruct (decide (q = p)) as [->|Hne].
  - rewrite lookup_insert_eq, Ed. cbn [d_addrs set_addrs]. pose proof (l_iaddr _ HL _ _ Ed) as Hl.
    destruct (decide _) as [[_ ->]|Hne].
    + by rewrite list_lookup_insert_eq by lia.
    + rewrite list_lookup_insert_ne; [done|]. intros E. apply Hne. split; [done|lia].
  - rewrite lookup_insert_ne by done. by rewrite decide_False by tauto.
Qed.

Lemma with_addr_frame img p n v : layout img →
  layout (with_addr img p n v) ∧ same_meta img (with_addr img p n v) ∧
  blks (with_addr img p n v) = blks img ∧ (∀ x, used (with_addr img p n v) x = used img x).
Proof.
  intros HL. unfold with_addr. destruct (inodes img !! p) as [d|] eqn:Ed; [|done].
  split_and!; [| |done..].
  - eapply with_inode_layout; [done..|]. cbn [d_addrs set_addrs]. rewrite length_insert. by eapply l_iaddr.
  - split; [done|]. intros q. unfold with_inode. cbn [inodes].
    destruct (decide (p = q)) as [->|]; [|by rewrite lookup_insert_ne]. by rewrite lookup_insert_eq, Ed.
Qed.

Lemma with_addr_spent img p n v : spent img 0 (with_addr img p n v).
Proof. apply spent_blks; unfold with_addr; by destruct (inodes img !! p). Qed.

(** Taking a block leaves every entry as it is. *)
Lemma allocated_val img b img' : slots_ok img → used img b = false → allocated img b img' →
  ∀ t, val img' t = val img t.
Proof.
  intros HS Hu HA. apply val_ext; [apply (mk_inodes _ _ _ _ _ HA)|]. intros p Hp.
  destruct (s_slot _ HS (Ind p) I Hp) as [Hd Hut]. rewrite (mk_data _ _ _ _ _ HA) by done.
  destruct (Z.eqb_spec (val img (Ind p)) b); [congruence|done].
Qed.

Lemma used_no_slot img b t : slots_ok img → is_data (sblk img) b → used img b = false → slot_ok t → val img t ≠ b.
Proof.
  intros HS Hd Hu Ht E. destruct (s_slot _ HS t Ht) as [_ H]; [|congruence].
  rewrite E. by apply (data_nonzero img); [apply HS|].
Qed.

(** ** Adding a block to a file *)

Definition upd {A} (F : inode_t → A) (p : inode_t) (x : A) : inode_t → A :=
  λ q, if decide (q = p) then x else F q.

Lemma upd_eq {A} (F : inode_t → A) p x : upd F p x p = x.
Proof. unfold upd. by rewrite decide_True. Qed.
Lemma upd_ne {A} (F : inode_t → A) p x q : q ≠ p → upd F p x q = F q.
Proof. intros. unfold upd. by rewrite decide_False. Qed.

Lemma blocks_append img img' F p b lb :
  slots_ok img → blocks_are img F → same_meta img img' →
  Z.of_nat (length (F p)) < MAXFILE → b ≠ 0 → used img b = false → is_data (sblk img) b →
  val img' (Data p (Z.of_nat (length (F p)))) = b → blks img' !! b = Some lb →
  (∀ t, slot_ok t → t ≠ Data p (Z.of_nat (length (F p))) → val img t ≠ 0 → val img' t = val img t) →
  (∀ q k, 0 ≤ k < MAXFILE → Data q k ≠ Data p (Z.of_nat (length (F p))) → val img (Data q k) = 0 →
     val img' (Data q k) = 0) →
  (∀ x, is_data (sblk img) x → x ≠ b → (∀ q, val img (Ind q) ≠ x) → blks img' !! x = blks img !! x) →
  (NDIRECT ≤ Z.of_nat (length (F p)) → val img' (Ind p) ≠ 0) →
  blocks_are img' (upd F p (F p ++ [lb])).
Proof.
  intros HS HB Hm Hlen Hb Hu Hd Es Eb Et Ez Ex Hind. split.
  - intros q Hq. apply (same_meta_some _ _ _ Hm) in Hq. destruct (decide (q = p)) as [->|].
    + rewrite upd_eq, length_app. simpl. lia.
    + rewrite upd_ne by done. by apply HB.
  - intros q k l Hq Hk Hl. apply (same_meta_some _ _ _ Hm) in Hq.
    destruct (decide (Data q k = Data p (Z.of_nat (length (F p))))) as [E|Hne].
    + injection E as -> ->. rewrite upd_eq, Nat2Z.id, list_lookup_middle in Hl by done. injection Hl as <-. by rewrite Es.
    + assert (F q !! Z.to_nat k = Some l) as Hl'.
      { destruct (decide (q = p)) as [->|]; [rewrite upd_eq in Hl|by rewrite upd_ne in Hl].
        apply lookup_snoc_Some in Hl as [[? ?]|[E <-]]; [done|]. destruct Hne. f_equal. lia. }
      destruct (b_data _ _ HB q k l Hq Hk Hl') as [Hv Hbl].
      assert (slot_ok (Data q k)) as Hok.
      { simpl. apply lookup_lt_Some in Hl'. pose proof (b_len _ _ HB q Hq). lia. }
      rewrite Et by done. split; [done|]. rewrite Ex; [done|..].
      * by apply (s_slot _ HS).
      * by apply used_no_slot.
      * intros r E. apply (s_inj _ HS) in E; [done..|]. congruence.
  - intros q k Hq Hk Hl. apply (same_meta_some _ _ _ Hm) in Hq.
    apply Ez; [done| |].
    + intros E. injection E as -> ->. by rewrite upd_eq, Nat2Z.id, list_lookup_middle in Hl.
    + apply (b_hole _ _ HB); [done..|]. destruct (decide (q = p)) as [->|]; [rewrite upd_eq in Hl|by rewrite upd_ne in Hl].
      apply lookup_ge_None in Hl. rewrite length_app in Hl. simpl in Hl. apply lookup_ge_None. lia.
  - intros q Hq Hl. apply (same_meta_some _ _ _ Hm) in Hq. destruct (decide (q = p)) as [->|].
    + apply Hind. rewrite upd_eq, length_app in Hl. simpl in Hl. lia.
    + rewrite upd_ne in Hl by done. rewrite Et; [by apply (b_ind _ _ HB)|done|done|by apply (b_ind _ _ HB)].
Qed.

Lemma val_direct img p d n v t :
  layout img → inodes img !! p = Some d → 0 ≤ n < NDIRECT → slot_ok t →
  val (with_addr img p n v) t = if decide (t = Data p n) then v else val img t.
Proof.
  intros HL Ed Hn Ht. pose proof (g_ndirect HG). destruct (with_addr_frame img p n v HL) as (_ & _ & Eb & _).
  assert (∀ q m, 0 ≤ m → addr_of (with_addr img p n v) q m = if decide (q = p ∧ m = n) then v else addr_of img q m) as Ea
    by (intros; eapply addr_of_with_addr; eauto; lia).
  destruct t as [q k|q]; simpl in *.
  - destruct (Z.ltb_spec k NDIRECT).
    + rewrite Ea by lia. destruct (decide (q = p ∧ k = n)) as [[-> ->]|Hne]; [by rewrite decide_True|].
      rewrite decide_False; [done|]. intros [= -> ->]. tauto.
    + rewrite decide_False by (intros [= -> ->]; lia). rewrite Ea, decide_False, Eb by lia. done.
  - rewrite Ea, decide_False by lia. done.
Qed.

(** A new indirect block is empty, so the entries behind it stay 0. *)
Lemma val_new_ind img p d v t :
  layout img → inodes img !! p = Some d → slot_ok t → t ≠ Ind p →
  (∀ k, NDIRECT ≤ k < MAXFILE → val img (Data p k) = 0) →
  v = 0 ∨ blks img !! v = Some zero_block →
  val (with_addr img p NDIRECT v) t = val img t.
Proof.
  intros HL Ed Ht Hne Hz Hv. pose proof (g_ndirect HG).
  destruct (with_addr_frame img p NDIRECT v HL) as (_ & _ & Eb & _).
  assert (∀ q m, 0 ≤ m → addr_of (with_addr img p NDIRECT v) q m =
    if decide (q = p ∧ m = NDIRECT) then v else addr_of img q m) as Ea
    by (intros; eapply addr_of_with_addr; eauto; lia).
  destruct t as [q k|q]; simpl in *.
  - destruct (Z.ltb_spec k NDIRECT); [by rewrite Ea, decide_False by lia|].
    rewrite Ea, Eb by lia. destruct (decide (q = p ∧ NDIRECT = NDIRECT)) as [[-> _]|]; [|done].
    specialize (Hz k ltac:(lia)). rewrite (proj2 (Z.ltb_ge k NDIRECT)) in Hz by done. rewrite Hz.
    destruct Hv as [->|Ev]; [done|]; rewrite Ev. destruct (v =? 0); [done|]. apply uint_at_zero.
  - rewrite Ea, decide_False by (try intros [-> _]; by try lia). done.
Qed.

Definition with_uint (img : image) (ia k v : Z) : image :=
  mk_img (sblk img) (inodes img)
    (<[ia := store (default [] (blks img !! ia)) (4 * k) (bytes32 v)]> (blks img)).

Lemma uint_room k (l : list Z) : 0 ≤ k < NINDIRECT → length l = Z.to_nat BSIZE → 4 * k + 4 ≤ Z.of_nat (length l).
Proof.
  intros Hk Hl. rewrite (g_nindirect HG) in Hk. pose proof (g_bsize HG). pose proof (g_words HG).
  pose proof (Z.div_mod BSIZE 4). lia.
Qed.

Lemma get_uint_run img ia k l : blks img !! ia = Some l → length l = Z.to_nat BSIZE → 0 ≤ k < NINDIRECT →
  get_uint ia k img = Ret (uint_at l k) img.
Proof.
  intros El Hl Hk. pose proof (uint_room _ _ Hk Hl). unfold get_uint, bread, getblk.
  rewrite !bind_assoc. erewrite bind_ret by reflexivity. rewrite El. erewrite bind_ret by reflexivity.
  rewrite (proj2 (inside_spec l (4 * k) 4)) by lia. reflexivity.
Qed.

Lemma put_uint_run img ia k v l : blks img !! ia = Some l → length l = Z.to_nat BSIZE → 0 ≤ k < NINDIRECT →
  put_uint ia k v img = Ret tt (with_uint img ia k v).
Proof.
  intros El Hl Hk. pose proof (uint_room _ _ Hk Hl). unfold put_uint, with_uint. rewrite El.
  apply bwrite_run; [done|]. apply inside_spec. simpl. lia.
Qed.

(** Writing a data block. *)
Lemma put_block_frame img b l : layout img → is_data (sblk img) b → length l = Z.to_nat BSIZE →
  let img' := mk_img (sblk img) (inodes img) (<[b := l]> (blks img)) in
  layout img' ∧ ∀ x, 0 ≤ x < sb_size (sblk img) → used img' x = used img x.
Proof.
  intros HL Hb Hl img'. assert (∀ c, 0 ≤ c < sb_size (sblk img) → b ≠ BBLOCK c (sb_ninodes (sblk img))) as Hne
    by (intros c Hc ->; by apply (bitmap_not_data HG img c HL)).
  split.
  - destruct HL as [H1 H2 H3 H4 H5 H6 H7 H8]. split; try done; cbn [sblk blks img'].
    + intros c Hc. rewrite lookup_insert_ne by auto. auto.
    + intros c Hc. destruct (decide (b = c)) as [->|]; [rewrite lookup_insert_eq|rewrite lookup_insert_ne by done]; eauto.
  - intros x Hx. unfold used, img'. cbn [sblk blks]. rewrite lookup_insert_ne; [done|]. by apply Hne.
Qed.

Lemma put_block_data img b l : layout img → is_data (sblk img) b → length l = Z.to_nat BSIZE →
  let img' := mk_img (sblk img) (inodes img) (<[b := l]> (blks img)) in
  layout img' ∧ (∀ x, is_data (sblk img) x → used img' x = used img x) ∧ spent img 0 img'.
Proof.
  intros HL Hb Hl img'. destruct (put_block_frame img b l HL Hb Hl) as [HL' Hu]. fold img' in HL', Hu.
  split_and!; [done| |by apply (spent_used HG)]. intros x Hx. apply Hu. pose proof (data_in_image HG _ _ HL Hx). lia.
Qed.

Lemma val_uint img p k v t :
  slots_ok img → val img (Ind p) ≠ 0 → 0 ≤ k < NINDIRECT → 0 ≤ v < 2 ^ 32 → slot_ok t →
  val (with_uint img (val img (Ind p)) k v) t = if decide (t = Data p (NDIRECT + k)) then v else val img t.
Proof.
  intros HS Hia Hk Hv Ht. pose proof (g_ndirect HG).
  destruct (s_slot _ HS (Ind p) I Hia) as [Hd _]. destruct (l_data _ (s_layout _ HS) _ Hd) as (l & El & Hl).
  pose proof (uint_room _ _ Hk Hl) as Hr.
  destruct t as [q j|q]; [|done]. cbn [slot_ok] in Ht.
  destruct (decide (Data q j = Data p (NDIRECT + k))) as [[= -> ->]|Hne]; simpl.
  - rewrite (proj2 (Z.ltb_ge _ _)) by lia. unfold addr_of. cbn [inodes with_uint].
    change (match inodes img !! p with Some d => default 0 (d_addrs d !! Z.to_nat NDIRECT) | None => 0 end)
      with (val img (Ind p)). rewrite (proj2 (Z.eqb_neq _ _) Hia). unfold with_uint. cbn [blks].
    rewrite lookup_insert_eq. cbn [from_option]; unfold id. rewrite El. cbn [default].
    replace (NDIRECT + k - NDIRECT) with k by lia. by apply uint_at_store_same; [lia..|].
  - destruct (Z.ltb_spec j NDIRECT); [done|]. change (addr_of (with_uint img (addr_of img p NDIRECT) k v) q NDIRECT)
      with (addr_of img q NDIRECT). destruct (Z.eqb_spec (addr_of img q NDIRECT) 0); [done|].
    unfold with_uint. cbn [blks]. destruct (decide (addr_of img p NDIRECT = addr_of img q NDIRECT)) as [E|E].
    + rewrite E, lookup_insert_eq. cbn [from_option]; unfold id. apply uint_at_store_other.
      * lia.
      * rewrite <- E. simpl in El. rewrite El. done.
      * lia.
      * intros Ej. assert (Ind p = Ind q) as [= ->] by (by apply (s_inj _ HS)). apply Hne. f_equal. lia.
    + by rewrite lookup_insert_ne.
Qed.

(** What taking the block [b] leaves. *)
Record took (img : image) (b : Z) (img' : image) : Prop := {
  tk_layout : layout img';
  tk_sblk : sblk img' = sblk img;
  tk_inodes : inodes img' = inodes img;
  tk_val : ∀ t, val img' t = val img t;
  tk_used : ∀ x, is_data (sblk img) x → used img' x = if x =? b then true else used img x;
  tk_zero : blks img' !! b = Some zero_block;
  tk_data : ∀ x, is_data (sblk img) x → x ≠ b → blks img' !! x = blks img !! x
}.

Lemma balloc_took img : slots_ok img →
  runs 1 balloc img (λ b img', is_data (sblk img) b ∧ used img b = false ∧ took img b img').
Proof.
  intros HS. eapply runs_mono; [done|apply (balloc_runs HG), HS|]. intros b i1 (Hd & Hu & HA). split_and!; [done..|].
  pose proof HA as [H1 H2 H3 H4 H5]. split; try done.
  - by eapply allocated_val.
  - intros x Hx. apply H3. pose proof (data_in_image HG _ _ (s_layout _ HS) Hx). lia.
  - by rewrite H4, Z.eqb_refl.
  - intros x Hx Hne. by rewrite H4, (proj2 (Z.eqb_neq _ _) Hne).
Qed.

Definition appended (img : image) (F : inode_t → list (list Z)) (p : inode_t) (img' : image) : Prop :=
  rep img' (upd F p (F p ++ [zero_block])) ∧ same_meta img img' ∧
  ∀ q, q ≠ p ∨ Z.of_nat (length (F p)) < NDIRECT → val img' (Ind q) = val img (Ind q).

Lemma link_direct img F p d b i1 :
  rep img F → inodes img !! p = Some d → Z.of_nat (length (F p)) < NDIRECT →
  is_data (sblk img) b → used img b = false → took img b i1 →
  let i2 := with_addr i1 p (Z.of_nat (length (F p))) b in
  appended img F p i2 ∧ val i2 (Data p (Z.of_nat (length (F p)))) = b.
Proof.
  intros [HS HB] Ed Hn Hd Hu [HL1 Esb Ei Ev Eu Ezero Eb] i2. set (n := Z.of_nat (length (F p))) in *.
  assert (is_Some (inodes img !! p)) as Hp by eauto.
  assert (0 ≤ n < MAXFILE) as HnM by (rewrite (g_maxfile HG), (g_nindirect HG); pose proof (g_bsize HG);
    assert (0 ≤ BSIZE / 4) by (apply Z.div_pos; lia); lia).
  assert (inodes i1 !! p = Some d) as Ed1 by (by rewrite Ei).
  assert (∀ t, slot_ok t → val i2 t = if decide (t = Data p n) then b else val img t) as Ev2.
  { intros t Ht. unfold i2. rewrite (val_direct i1 p d) by (done || lia). by rewrite Ev. }
  destruct (with_addr_frame i1 p n b HL1) as (HL2 & Hm & Ebk & Hus). fold i2 in HL2, Hm, Ebk, Hus.
  assert (same_meta img i2) as Hm2 by (split; [by rewrite (sm_sblk _ _ Hm)|intros q; by rewrite (sm_inode _ _ Hm), Ei]).
  assert (val img (Data p n) = 0) as Hz.
  { apply (b_hole _ _ HB); [done..|]. apply lookup_ge_None. lia. }
  split; [|rewrite Ev2 by done; by rewrite decide_True].
  split_and!; [split|done|intros q _; by rewrite Ev2, decide_False by done].
  - eapply (slots_link img i2 (Data p n) b); try done.
    + apply Hm2.
    + intros x Hx. by rewrite Hus, Eu.
    + by rewrite Ev2, decide_True.
    + intros t Ht Hne. by rewrite Ev2, decide_False.
  - eapply (blocks_append img i2 F p b); try done.
    + lia.
    + by apply (data_nonzero img); [apply HS|].
    + by rewrite Ev2, decide_True.
    + by rewrite Ebk.
    + intros t Ht Hne _. by rewrite Ev2, decide_False.
    + intros q k Hk Hne E. by rewrite Ev2, decide_False.
    + intros x Hx Hne _. by rewrite Ebk, Eb.
    + lia.
Qed.

Lemma link_ind img F p d b i1 :
  rep img F → inodes img !! p = Some d → val img (Ind p) = 0 →
  is_data (sblk img) b → used img b = false → took img b i1 →
  let i2 := with_addr i1 p NDIRECT b in
  rep i2 F ∧ same_meta img i2 ∧ val i2 (Ind p) = b ∧ ∀ q, q ≠ p → val i2 (Ind q) = val img (Ind q).
Proof.
  intros [HS HB] Ed Hz Hd Hu [HL1 Esb Ei Ev Eu Ezero Eb] i2. pose proof (g_ndirect HG).
  assert (is_Some (inodes img !! p)) as Hp by eauto.
  assert (inodes i1 !! p = Some d) as Ed1 by (by rewrite Ei).
  assert (∀ k, NDIRECT ≤ k < MAXFILE → val img (Data p k) = 0) as Hzk.
  { intros k Hk. apply (b_hole _ _ HB); [done|lia|]. apply lookup_ge_None.
    destruct (decide (NDIRECT < Z.of_nat (length (F p)))) as [Hl|]; [by apply (b_ind _ _ HB) in Hl|lia]. }
  assert (∀ t, slot_ok t → t ≠ Ind p → val i2 t = val img t) as Ev2.
  { intros t Ht Hne. unfold i2. rewrite (val_new_ind i1 p d); try done; [|by right].
    intros k Hk. rewrite Ev. auto. }
  assert (val i2 (Ind p) = b) as Evi.
  { simpl. unfold i2. rewrite (addr_of_with_addr i1 p d), decide_True by (done || lia). done. }
  destruct (with_addr_frame i1 p NDIRECT b HL1) as (HL2 & Hm & Ebk & Hus). fold i2 in HL2, Hm, Ebk, Hus.
  assert (same_meta img i2) as Hm2 by (split; [by rewrite (sm_sblk _ _ Hm)|intros q; by rewrite (sm_inode _ _ Hm), Ei]).
  split_and!; [split|done|done|intros q Hq; apply Ev2; [done|congruence]].
  - eapply (slots_link img i2 (Ind p) b); try done.
    + apply Hm2.
    + intros x Hx. by rewrite Hus, Eu.
  - split.
    + intros q Hq. apply HB. by apply (same_meta_some _ _ _ Hm2).
    + intros q k l Hq Hk Hl. apply (same_meta_some _ _ _ Hm2) in Hq.
      destruct (b_data _ _ HB q k l Hq Hk Hl) as [Hv Hbl].
      assert (slot_ok (Data q k)) as Hok.
      { simpl. apply lookup_lt_Some in Hl. pose proof (b_len _ _ HB q Hq). lia. }
      rewrite Ev2 by done. split; [done|]. rewrite Ebk, Eb; [done|by apply (s_slot _ HS)|by apply used_no_slot].
    + intros q k Hq Hk Hl. apply (same_meta_some _ _ _ Hm2) in Hq. rewrite Ev2 by done. by apply (b_hole _ _ HB).
    + intros q Hq Hl. apply (same_meta_some _ _ _ Hm2) in Hq. destruct (decide (q = p)) as [->|Hne].
      * rewrite Evi. by apply (data_nonzero img); [apply HS|].
      * rewrite Ev2 by (done || congruence). by apply (b_ind _ _ HB).
Qed.

Lemma link_indirect img F p d b i1 :
  rep img F → inodes img !! p = Some d → val img (Ind p) ≠ 0 →
  NDIRECT ≤ Z.of_nat (length (F p)) < MAXFILE →
  is_data (sblk img) b → used img b = false → took img b i1 →
  let i2 := with_uint i1 (val img (Ind p)) (Z.of_nat (length (F p)) - NDIRECT) b in
  appended img F p i2 ∧ val i2 (Data p (Z.of_nat (length (F p)))) = b ∧ spent i1 0 i2.
Proof.
  intros [HS HB] Ed Hia Hn Hd Hu HT i2. pose proof HT as [HL1 Esb Ei Ev Eu Ezero Eb].
  set (n := Z.of_nat (length (F p))) in *. pose proof (g_maxfile HG) as HM.
  assert (is_Some (inodes img !! p)) as Hp by eauto.
  destruct (s_slot _ HS (Ind p) I Hia) as [Hdi Hui].
  assert (val img (Ind p) ≠ b) as Hib by congruence.
  assert (0 ≤ b < 2 ^ 32) as Hb32.
  { pose proof (data_in_image HG _ _ (s_layout _ HS) Hd). pose proof (l_size _ (s_layout _ HS)).
    pose proof (bpb_pos HG). lia. }
  destruct (l_data _ (s_layout _ HS) _ Hdi) as (li & Eli & Hli).
  assert (∀ t, slot_ok t → val i2 t = if decide (t = Data p n) then b else val img t) as Ev2.
  { intros t Ht. transitivity (val (with_uint img (val img (Ind p)) (n - NDIRECT) b) t).
    - apply val_ext; [done|]. intros q Hq.
      assert (val (with_uint img (val img (Ind p)) (n - NDIRECT) b) (Ind q) = val img (Ind q)) as Eq by done.
      rewrite Eq in *. destruct (s_slot _ HS (Ind q) I Hq) as [Hdq Huq].
      unfold i2, with_uint. cbn [blks]. rewrite Eb, Eli by (done || congruence).
      destruct (decide (val img (Ind p) = val img (Ind q))) as [->|]; [by rewrite !lookup_insert_eq|].
      rewrite !lookup_insert_ne by done. apply Eb; [done|congruence].
    - rewrite val_uint by (done || lia). by replace (NDIRECT + (n - NDIRECT)) with n by lia. }
  assert (∃ l2, i2 = mk_img (sblk i1) (inodes i1) (<[val img (Ind p) := l2]> (blks i1)) ∧ length l2 = Z.to_nat BSIZE)
    as (l2 & E2 & Hl2).
  { eexists. split; [done|]. rewrite Eb, Eli by done. rewrite length_store; [done|].
    apply inside_spec. cbn [from_option]. unfold id. pose proof (uint_room (n - NDIRECT) li). simpl. lia. }
  destruct (put_block_data i1 (val img (Ind p)) l2 HL1) as (HL2 & Hus & Hsp); [by rewrite Esb|done|].
  rewrite <- E2 in HL2, Hus, Hsp.
  assert (same_meta img i2) as Hm2 by (rewrite E2; split; [done|intros q; cbn [inodes]; by rewrite Ei]).
  assert (val img (Data p n) = 0) as Hz.
  { apply (b_hole _ _ HB); [done|pose proof (g_ndirect HG); lia|]. apply lookup_ge_None. lia. }
  assert (slot_ok (Data p n)) as Hok by (simpl; pose proof (g_ndirect HG); lia).
  split_and!; [|rewrite Ev2 by done; by rewrite decide_True|done].
  split_and!; [split|done|intros q _; by rewrite Ev2, decide_False by done].
  - eapply (slots_link img i2 (Data p n) b); try done.
    + intros x Hx. rewrite Hus by (by rewrite Esb). by apply Eu.
    + by rewrite Ev2, decide_True.
    + intros t Ht Hne. by rewrite Ev2, decide_False.
  - eapply (blocks_append img i2 F p b); try done.
    + lia.
    + by apply (data_nonzero img); [apply HS|].
    + by rewrite Ev2, decide_True.
    + rewrite E2. cbn [blks]. rewrite lookup_insert_ne by done. done.
    + intros t Ht Hne _. by rewrite Ev2, decide_False.
    + intros q k Hk Hne E. by rewrite Ev2, decide_False.
    + intros x Hx Hne Hnx. rewrite E2. cbn [blks]. rewrite lookup_insert_ne by done. by apply Eb.
    + intros _. by rewrite Ev2, decide_False.
Qed.

(** ** bmap *)

Lemma addr_at_run img p d n : layout img → inodes img !! p = Some d → 0 ≤ n ≤ NDIRECT →
  addr_at p n img = Ret (addr_of img p n) img.
Proof.
  intros HL Ed Hn. unfold addr_at, addr_of. erewrite bind_ret by (by apply inode_run). rewrite Ed.
  pose proof (l_iaddr _ HL _ _ Ed). destruct (lookup_lt_is_Some_2 (d_addrs d) (Z.to_nat n)) as [x Ex]; [lia|].
  by rewrite Ex.
Qed.

Lemma slot_range img F p k l : rep img F → is_Some (inodes img !! p) → 0 ≤ k → F p !! Z.to_nat k = Some l →
  slot_ok (Data p k) ∧ length l = Z.to_nat BSIZE ∧ is_data (sblk img) (val img (Data p k)) ∧
  blks img !! val img (Data p k) = Some l.
Proof.
  intros [HS HB] Hp Hk Hl. destruct (b_data _ _ HB p k l Hp Hk Hl) as [Hv Hbl].
  assert (slot_ok (Data p k)) as Hok by (simpl; apply lookup_lt_Some in Hl; pose proof (b_len _ _ HB p Hp); lia).
  destruct (s_slot _ HS _ Hok Hv) as [Hd _]. split_and!; try done.
  destruct (l_data _ (s_layout _ HS) _ Hd) as (l' & E & Hl'). congruence.
Qed.

(** The entry behind the direct ones. *)
Lemma ind_entry img p k : slots_ok img → val img (Ind p) ≠ 0 → NDIRECT ≤ k < MAXFILE →
  get_uint (val img (Ind p)) (k - NDIRECT) img = Ret (val img (Data p k)) img.
Proof.
  intros HS Hia Hk. destruct (s_slot _ HS (Ind p) I Hia) as [Hd _].
  destruct (l_data _ (s_layout _ HS) _ Hd) as (l & El & Hl). pose proof (g_maxfile HG).
  erewrite get_uint_run by (done || lia). f_equal. cbn [val]. rewrite (proj2 (Z.ltb_ge k NDIRECT)) by lia.
  cbn [val] in Hia, El. by rewrite (proj2 (Z.eqb_neq _ _) Hia), El.
Qed.

Lemma bmap_have img F p d n l :
  rep img F → inodes img !! p = Some d → 0 ≤ n → F p !! Z.to_nat n = Some l →
  bmap p n img = Ret (val img (Data p n)) img.
Proof.
  intros HR Ed Hn Hl. pose proof HR as [HS HB]. pose proof (s_layout _ HS) as HL. pose proof (g_ndirect HG).
  pose proof (g_maxfile HG). assert (is_Some (inodes img !! p)) as Hp by eauto.
  destruct (b_data _ _ HB p n l Hp Hn Hl) as [Hv _].
  destruct (slot_range img F p n l HR Hp Hn Hl) as (Hok & _). cbn [slot_ok] in Hok.
  unfold bmap. destruct (Z.ltb_spec n NDIRECT) as [Hlt|Hge].
  - erewrite bind_ret by (eapply addr_at_run; eauto; lia). cbn [val] in *.
    rewrite (proj2 (Z.ltb_lt n NDIRECT)) in * by done. by rewrite (proj2 (Z.eqb_neq _ _) Hv).
  - rewrite (proj2 (Z.leb_gt NINDIRECT (n - NDIRECT))) by lia.
    assert (val img (Ind p) ≠ 0) as Hia by (apply (b_ind _ _ HB); [done|apply lookup_lt_Some in Hl; lia]).
    erewrite bind_ret by (eapply addr_at_run; eauto; lia). change (addr_of img p NDIRECT) with (val img (Ind p)).
    rewrite (proj2 (Z.eqb_neq _ _) Hia). erewrite bind_ret by reflexivity.
    erewrite bind_ret by (apply ind_entry; [done|done|lia]). rewrite (proj2 (Z.eqb_neq _ _) Hv).
    erewrite bind_ret by reflexivity. by apply ind_entry; [..|lia].
Qed.

Lemma bmap_new img F p d :
  rep img F → inodes img !! p = Some d → Z.of_nat (length (F p)) < MAXFILE →
  runs 2 (bmap p (Z.of_nat (length (F p)))) img (λ b img',
    appended img F p img' ∧ b = val img' (Data p (Z.of_nat (length (F p))))).
Proof.
  intros HR Ed Hn. pose proof HR as [HS HB]. pose proof (s_layout _ HS) as HL. pose proof (g_ndirect HG).
  pose proof (g_maxfile HG). assert (is_Some (inodes img !! p)) as Hp by eauto. set (n := Z.of_nat (length (F p))) in *.
  assert (val img (Data p n) = 0) as Hz by (apply (b_hole _ _ HB); [done|lia|apply lookup_ge_None; lia]).
  unfold bmap. destruct (Z.ltb_spec n NDIRECT) as [Hlt|Hge].
  - eapply runs_read; [eapply addr_at_run; eauto; lia|]. cbn [val] in Hz.
    rewrite (proj2 (Z.ltb_lt n NDIRECT)) in Hz by done. rewrite Hz. cbn [Z.eqb].
    eapply (runs_seq 1 1); [done|by apply balloc_took|]. intros b i1 (Hd & Hu & HT).
    destruct (link_direct img F p d b i1 HR Ed Hlt Hd Hu HT) as [HA HV].
    eapply runs_step; [eapply set_addr_run; by rewrite (tk_inodes _ _ _ HT)|by apply with_addr_spent|].
    eapply runs_ret; [reflexivity|apply spent_refl|]. by split.
  - rewrite (proj2 (Z.leb_gt NINDIRECT (n - NDIRECT))) by lia.
    eapply runs_read; [eapply addr_at_run; eauto; lia|]. change (addr_of img p NDIRECT) with (val img (Ind p)).
    apply (runs_seq 1 1 _ _ _ _ (λ ia i2, rep i2 F ∧ same_meta img i2 ∧
        val i2 (Ind p) = ia ∧ ia ≠ 0 ∧ ∀ q, q ≠ p → val i2 (Ind q) = val img (Ind q))); [done| |].
    + destruct (Z.eqb_spec (val img (Ind p)) 0) as [E|E]; [|by eapply runs_ret; [done|apply spent_refl|]].
      eapply (runs_seq 1 0); [done|by apply balloc_took|]. intros b i1 (Hd & Hu & HT).
      destruct (link_ind img F p d b i1 HR Ed E Hd Hu HT) as (HR2 & Hm & HV & Hq).
      eapply runs_step; [eapply set_addr_run; by rewrite (tk_inodes _ _ _ HT)|by apply with_addr_spent|].
      eapply runs_ret; [reflexivity|apply spent_refl|]. split_and!; try done. by apply (data_nonzero img).
    + intros ia i2 (HR2 & Hm & <- & Hia & Hq). pose proof HR2 as [HS2 HB2].
      assert (∃ d2, inodes i2 !! p = Some d2) as [d2 Ed2] by (by apply (same_meta_some _ _ _ Hm)).
      eapply runs_read; [apply ind_entry; auto; lia|].
      replace (val i2 (Data p n)) with 0 by (symmetry; apply (b_hole _ _ HB2); [eauto|lia|apply lookup_ge_None; lia]).
      cbn [Z.eqb]. eapply (runs_seq 1 0 _ _ _ _ (λ _ i4, appended i2 F p i4 ∧ val i4 (Ind p) = val i2 (Ind p))); [done| |].
      * eapply (runs_seq 1 0); [done|by apply balloc_took|]. intros b i3 (Hd & Hu & HT).
        destruct (link_indirect i2 F p d2 b i3 HR2 Ed2 Hia) as (HA & HV & Hsp); [lia|done..|].
        assert (∃ l, blks i3 !! val i2 (Ind p) = Some l ∧ length l = Z.to_nat BSIZE) as (l & El & Hl).
        { apply (l_data _ (tk_layout _ _ _ HT)). rewrite (tk_sblk _ _ _ HT). by apply (s_slot _ HS2 (Ind p)). }
        eapply runs_ret; [eapply put_uint_run; eauto; lia|done|]. split; [done|]. apply (tk_val _ _ _ HT (Ind p)).
      * intros _ i4 [(HR4 & Hm4 & Hq4) E4].
        eapply runs_ret; [rewrite <- E4; apply ind_entry; [apply HR4|by rewrite E4|lia]|apply spent_refl|].
        split; [|done]. split_and!; [done|by eapply same_meta_trans|].
        intros q [Hne|?]; [|lia]. rewrite Hq4 by auto. by apply Hq.
Qed.

(** bmap gives the block of the file, adding an empty one at its end when it is missing. *)
Lemma bmap_spec img F p d n :
  rep img F → inodes img !! p = Some d → 0 ≤ n ≤ Z.of_nat (length (F p)) → n < MAXFILE →
  runs (if decide (n < Z.of_nat (length (F p))) then 0 else 2) (bmap p n) img (λ b img', ∃ F',
    F' = (if decide (n < Z.of_nat (length (F p))) then F else upd F p (F p ++ [zero_block])) ∧
    rep img' F' ∧ same_meta img img' ∧ b = val img' (Data p n) ∧
    ∀ q, q ≠ p ∨ n < NDIRECT ∨ n < Z.of_nat (length (F p)) → val img' (Ind q) = val img (Ind q)).
Proof.
  intros HR Ed Hn HM. destruct (decide (n < Z.of_nat (length (F p)))).
  - destruct (lookup_lt_is_Some_2 (F p) (Z.to_nat n)) as [lb Hlb]; [lia|].
    eapply runs_ret; [eapply bmap_have; eauto; lia|apply spent_refl|]. exists F. split_and!; done || apply same_meta_refl.
  - assert (n = Z.of_nat (length (F p))) as -> by lia. eapply runs_mono; [done|by eapply bmap_new|].
    intros b i' [(? & ? & Hq) ?]. eexists. split_and!; [done..|]. intros q Hc. apply Hq. lia || tauto.
Qed.

(** ** Writing into a block of a file *)

Lemma write_block img F p k l l' :
  rep img F → is_Some (inodes img !! p) → 0 ≤ k → F p !! Z.to_nat k = Some l → length l' = Z.to_nat BSIZE →
  let img' := mk_img (sblk img) (inodes img) (<[val img (Data p k) := l']> (blks img)) in
  rep img' (upd F p (<[Z.to_nat k := l']> (F p))) ∧ same_meta img img' ∧ (∀ t, val img' t = val img t) ∧ spent img 0 img'.
Proof.
  intros HR Hp Hk Hl Hl' img'. destruct (slot_range img F p k l HR Hp Hk Hl) as (Hok & _ & Hd & _).
  pose proof HR as [HS HB]. destruct (b_data _ _ HB p k l Hp Hk Hl) as [Hv _].
  destruct (put_block_data img _ l' (s_layout _ HS) Hd Hl') as (HL' & Hu' & Hsp).
  assert (∀ t, val img' t = val img t) as Ev.
  { apply val_ext; [done|]. intros q Hq. unfold img'. cbn [blks]. rewrite lookup_insert_ne; [done|].
    intros E. by apply (s_inj _ HS) in E. }
  split_and!; [split|done..].
  - apply (slots_same img); auto.
  - assert (∀ q, length (upd F p (<[Z.to_nat k:=l']> (F p)) q) = length (F q)) as Hlen.
    { intros q. destruct (decide (q = p)) as [->|]; [by rewrite upd_eq, length_insert|by rewrite upd_ne]. }
    split.
    + intros q Hq. rewrite Hlen. by apply HB.
    + intros q j m Hq Hj Hm. rewrite Ev. destruct (decide (q = p ∧ j = k)) as [[-> ->]|Hne].
      * rewrite upd_eq, list_lookup_insert_eq in Hm by (by eapply lookup_lt_Some). split; [done|].
        unfold img'. cbn [blks]. by rewrite lookup_insert_eq.
      * assert (F q !! Z.to_nat j = Some m) as Hm'.
        { destruct (decide (q = p)) as [->|]; [rewrite upd_eq in Hm|by rewrite upd_ne in Hm].
          rewrite list_lookup_insert_ne in Hm; [done|]. intros E. apply Hne. split; [done|lia]. }
        destruct (b_data _ _ HB q j m Hq Hj Hm') as [Hvj Hbj]. split; [done|].
        unfold img'. cbn [blks]. rewrite lookup_insert_ne; [done|]. intros E.
        destruct (slot_range img F q j m HR Hq Hj Hm') as (Hokj & _).
        apply (s_inj _ HS) in E; [|done..]. injection E as -> ->. tauto.
    + intros q j Hq Hj Hm. rewrite Ev. apply (b_hole _ _ HB); [done..|].
      apply lookup_ge_None in Hm. rewrite Hlen in Hm. by apply lookup_ge_None.
    + intros q Hq Hn. rewrite Ev. rewrite Hlen in Hn. by apply (b_ind _ _ HB).
Qed.

End file.
