(* ===== verification/FsRw.v ===== *)
(** * Reading, writing and truncating files of an image (tools/libfs.c)

    [content img p] is the file of the inode [p] read off the image; [fs_ok] is the
    invariant of an image.  iread returns the bytes asked for and changes nothing,
    iwrite and itruncate change the contents of the one file as on a list of bytes,
    and no other file. *)

From stdpp Require Import base gmap list numbers option.
From Stdlib Require Import Lia ZArith.
From S2P Require Import Prelude Fs FsBlocks FsFile.

#[local] Open Scope Z_scope.
#[local] Open Scope yaos_scope.

Section rw.
Context {G : FsGeom} (HG : geom_ok G).

(** ** Numbers of blocks and chunks *)

Lemma divceil_bounds x : 0 ≤ x → 0 ≤ divceil x BSIZE ∧ (divceil x BSIZE - 1) * BSIZE < x ≤ divceil x BSIZE * BSIZE.
Proof.
  intros Hx. unfold divceil. pose proof (g_bsize HG). destruct (Z.eqb_spec x 0) as [->|]; [lia|].
  rewrite Z.quot_div_nonneg by lia. pose proof (Z.div_mod (x - 1) BSIZE). pose proof (Z.mod_pos_bound (x - 1) BSIZE (g_bsize HG)).
  assert (0 ≤ (x - 1) / BSIZE) by (apply Z.div_pos; lia). nia.
Qed.

Lemma divceil_unique x c : 0 ≤ x → (c - 1) * BSIZE < x ≤ c * BSIZE → divceil x BSIZE = c.
Proof. intros Hx Hc. pose proof (divceil_bounds x Hx). pose proof (g_bsize HG). nia. Qed.

Lemma divceil_mono x y : 0 ≤ x ≤ y → divceil x BSIZE ≤ divceil y BSIZE.
Proof.
  intros Hx. pose proof (divceil_bounds x ltac:(lia)). pose proof (divceil_bounds y ltac:(lia)).
  pose proof (g_bsize HG). nia.
Qed.

Lemma divceil_max x : 0 ≤ x ≤ MAXFILESIZE → divceil x BSIZE ≤ MAXFILE.
Proof.
  intros Hx. pose proof (divceil_bounds x ltac:(lia)). pose proof (g_bsize HG). unfold MAXFILESIZE in Hx. nia.
Qed.

Lemma divceil_room x a : 0 ≤ x → x ≤ Z.max a (divceil x BSIZE) * BSIZE.
Proof. intros Hx. pose proof (divceil_bounds x Hx). pose proof (g_bsize HG). nia. Qed.

Lemma off_split off : 0 ≤ off → 0 ≤ off / BSIZE ∧ 0 ≤ off mod BSIZE < BSIZE ∧
  Z.of_nat (Z.to_nat (off / BSIZE) * Z.to_nat BSIZE) + off mod BSIZE = off.
Proof.
  intros Ho. pose proof (g_bsize HG). assert (0 ≤ off / BSIZE) by (apply Z.div_pos; lia).
  pose proof (Z.mod_pos_bound off BSIZE (g_bsize HG)). pose proof (Z.div_mod off BSIZE).
  split_and!; lia.
Qed.

Lemma bsize_31 : BSIZE < 2 ^ 31.
Proof.
  pose proof (g_maxsize HG) as HM. pose proof (g_maxfile HG). pose proof (g_ndirect HG). pose proof (g_nindirect HG). pose proof (g_bsize HG).
  assert (0 ≤ BSIZE / 4) by (apply Z.div_pos; lia). nia.
Qed.

Lemma chunk_spec n t off : 0 ≤ t < n → n < 2 ^ 31 → 0 ≤ off →
  chunk n t off = Z.min (n - t) (BSIZE - off mod BSIZE) ∧ 0 < chunk n t off ∧ off mod BSIZE + chunk n t off ≤ BSIZE ∧
  t + chunk n t off ≤ n.
Proof.
  intros Ht Hn Ho. destruct (off_split off Ho) as (_ & Hm & _). pose proof bsize_31 as HB.
  assert (chunk n t off = Z.min (n - t) (BSIZE - off mod BSIZE)) as E.
  { unfold chunk. rewrite !s32_id by lia. unfold min. destruct (Z.ltb_spec (n - t) (BSIZE - off mod BSIZE)); rewrite u32_id by lia; lia. }
  rewrite E. lia.
Qed.

(** ** One write *)

Lemma rep_ext img F F' : (∀ q, F' q = F q) → rep img F → rep img F'.
Proof.
  intros E [HS [H1 H2 H3 H4]]. split; [done|]. split; intros p; rewrite E; eauto.
Qed.

Lemma upd_upd {A} (F : inode_t → A) p a b q : upd (upd F p a) p b q = upd F p b q.
Proof. unfold upd. by destruct (decide (q = p)). Qed.

Lemma rep_blocks img F p : rep img F → is_Some (inodes img !! p) → Forall (λ l, length l = Z.to_nat BSIZE) (F p).
Proof.
  intros HR Hp. apply list.Forall_lookup_2. intros i l Hl. rewrite <- (Nat2Z.id i) in Hl.
  by apply (slot_range img F p (Z.of_nat i) l HR Hp) in Hl as (_ & ? & _); [|lia].
Qed.

(** [bs] was written at [off] of the file [p], which grew by empty blocks as needed. *)
Definition wrote (img : image) (F : inode_t → list (list Z)) (p : inode_t) (off : Z) (bs : list Z)
    (ls : list (list Z)) (img' : image) : Prop :=
  rep img' (upd F p ls) ∧ same_meta img img' ∧
  Z.of_nat (length ls) = Z.max (Z.of_nat (length (F p))) (divceil (off + Z.of_nat (length bs)) BSIZE) ∧
  (∀ q, q ≠ p ∨ Z.of_nat (length ls) ≤ NDIRECT → val img' (Ind q) = val img (Ind q)) ∧
  ∃ z, off + Z.of_nat (length bs) ≤ Z.of_nat (length (concat (F p) ++ replicate z 0)) ∧
    concat ls = store (concat (F p) ++ replicate z 0) off bs.

Lemma wrote_nil img F p off : rep img F → is_Some (inodes img !! p) → 0 ≤ off ≤ Z.of_nat (length (F p)) * BSIZE → wrote img F p off [] (F p) img.
Proof.
  intros HR Hp Ho. split_and!; [|apply same_meta_refl| |done|].
  - eapply rep_ext; [|done]. intros q. unfold upd. by destruct (decide (q = p)) as [->|].
  - simpl. rewrite Z.add_0_r. pose proof (divceil_bounds off ltac:(lia)). pose proof (g_bsize HG). nia.
  - exists 0%nat. rewrite app_nil_r, store_nil. split; [|done].
    rewrite (length_blocks (Z.to_nat BSIZE)) by (by apply (rep_blocks img)). pose proof (g_bsize HG). simpl. lia.
Qed.

Lemma file_wrote_trans img F p off a b la lb i1 i2 :
  0 ≤ off → wrote img F p off a la i1 → wrote i1 (upd F p la) p (off + Z.of_nat (length a)) b lb i2 →
  wrote img F p off (a ++ b) lb i2.
Proof.
  intros Ho (HR1 & Hm1 & Hl1 & Hq1 & z1 & Hz1 & E1) (HR2 & Hm2 & Hl2 & Hq2 & z2 & Hz2 & E2).
  rewrite upd_eq in Hl2, Hz2, E2.
  assert (length (concat la) = length (concat (F p) ++ replicate z1 0)) as Hlen
    by (rewrite E1; apply length_store, inside_spec; lia).
  split_and!.
  - eapply rep_ext; [|exact HR2]. intros q. by rewrite upd_upd.
  - by eapply same_meta_trans.
  - rewrite Hl2, Hl1, length_app.
    pose proof (divceil_mono (off + Z.of_nat (length a)) (off + Z.of_nat (length a) + Z.of_nat (length b)) ltac:(lia)).
    rewrite Nat2Z.inj_add, Z.add_assoc. lia.
  - intros q Hq. rewrite Hq2, Hq1; [done|destruct Hq; [by left|right; lia]|done].
  - exists (z1 + z2)%nat. rewrite replicate_add, app_assoc. rewrite length_app, Hlen in Hz2.
    rewrite !(length_app _ (replicate z2 0)), (length_app a b). split; [lia|].
    rewrite E2, E1, <- store_app by lia. apply store_store; [done|]. rewrite (length_app _ (replicate z2 0)). lia.
Qed.

(** Two blocks are enough for each block the file grows by to reach [e] bytes. *)
Definition grow (len : nat) (e : Z) : nat := 2 * (Z.to_nat (divceil e BSIZE) - len).

Lemma grow_step len len' off m e : 0 ≤ off ≤ Z.of_nat len * BSIZE → 0 < m → off mod BSIZE + m ≤ BSIZE → off + m ≤ e →
  Z.of_nat len' = Z.max (Z.of_nat len) (divceil (off + m) BSIZE) →
  ((if decide (off / BSIZE < Z.of_nat len)%Z then 0 else 2) + grow len' e ≤ grow len e)%nat.
Proof.
  intros Ho Hm Hc He Hl. unfold grow. destruct (decide _) as [|Hge]; [lia|]. destruct (off_split off ltac:(lia)) as (Hq & Hr & Eoff).
  pose proof (g_bsize HG). assert (off / BSIZE = Z.of_nat len) as Eq by nia.
  assert (divceil (off + m) BSIZE = Z.of_nat len + 1) as Ed by (apply divceil_unique; nia).
  pose proof (divceil_mono (off + m) e ltac:(lia)). lia.
Qed.

(** The block that is at [off], found or added, and the bytes written into it. *)
Lemma wrote_block img F p off bs i1 F1 :
  0 ≤ off ≤ Z.of_nat (length (F p)) * BSIZE → 0 < Z.of_nat (length bs) → off mod BSIZE + Z.of_nat (length bs) ≤ BSIZE →
  F1 = (if decide (off / BSIZE < Z.of_nat (length (F p))) then F else upd F p (F p ++ [zero_block])) →
  rep i1 F1 → same_meta img i1 → is_Some (inodes i1 !! p) →
  (∀ q, q ≠ p ∨ off / BSIZE < NDIRECT ∨ off / BSIZE < Z.of_nat (length (F p)) → val i1 (Ind q) = val img (Ind q)) →
  let b := val i1 (Data p (off / BSIZE)) in ∃ l, is_data (sblk i1) b ∧ used i1 b = true ∧ blks i1 !! b = Some l ∧
    length l = Z.to_nat BSIZE ∧
    let i2 := mk_img (sblk i1) (inodes i1) (<[b := store l (off mod BSIZE) bs]> (blks i1)) in
    spent i1 0 i2 ∧ ∃ ls, wrote img F p off bs ls i2.
Proof.
  intros Ho Hb1 Hb2 EF HR1 Hm1 Hp1 Hq1 b. destruct (off_split off ltac:(lia)) as (Hq & Hr & Eoff). pose proof (g_bsize HG).
  assert (off / BSIZE ≤ Z.of_nat (length (F p))) as Hle by (apply Z.div_le_upper_bound; lia).
  assert (∃ z, F1 p = F p ++ replicate z zero_block ∧ (∀ q, q ≠ p → F1 q = F q) ∧
    Z.of_nat (length (F1 p)) = Z.max (Z.of_nat (length (F p))) (off / BSIZE + 1)) as (z & Ez & Eq & Hl1).
  { rewrite EF. destruct (decide _).
    - exists 0%nat. rewrite app_nil_r. split_and!; [done..|]. lia.
    - exists 1%nat. rewrite upd_eq. split_and!; [done|intros; by rewrite upd_ne|]. rewrite length_app. simpl. lia. }
  destruct (lookup_lt_is_Some_2 (F1 p) (Z.to_nat (off / BSIZE))) as [l Hl]; [lia|].
  destruct (slot_range i1 F1 p _ l HR1 Hp1 Hq Hl) as (Hok & Hlen & Hd & Hbl).
  destruct (b_data _ _ (proj2 HR1) p _ l Hp1 Hq Hl) as [Hv _].
  assert (inside l (off mod BSIZE) (Z.of_nat (length bs)) = true) as Hin by (apply inside_spec; lia).
  set (l' := store l (off mod BSIZE) bs).
  destruct (write_block HG i1 F1 p _ l l' HR1 Hp1 Hq Hl) as (HR2 & Hm2 & Hv2 & Hsp); [by unfold l'; rewrite length_store|].
  destruct (s_slot _ (proj1 HR1) _ Hok Hv) as [_ Hus].
  exists l. split_and!; [done..|]. split; [exact Hsp|]. exists (<[Z.to_nat (off / BSIZE) := l']> (F1 p)). split_and!.
  - eapply rep_ext; [|exact HR2]. intros q. unfold upd. destruct (decide (q = p)); [done|]. by rewrite Eq.
  - by eapply same_meta_trans.
  - rewrite length_insert, Hl1. f_equal. symmetry. apply divceil_unique; nia.
  - intros q Hc. rewrite Hv2. apply Hq1. rewrite length_insert in Hc. destruct Hc; [by left|right; left; lia].
  - pose proof (rep_blocks i1 F1 p HR1 Hp1) as HF1. exists (z * Z.to_nat BSIZE)%nat.
    assert (concat (F1 p) = concat (F p) ++ replicate (z * Z.to_nat BSIZE) 0) as Ec.
    { rewrite Ez, concat_app. f_equal. clear. induction z as [|z IH]; [done|]. simpl. by rewrite IH, replicate_add. }
    rewrite <- Ec. split.
    + rewrite (length_blocks (Z.to_nat BSIZE)) by done. nia.
    + unfold l'. rewrite (store_blocks (Z.to_nat BSIZE)) by (done || lia). f_equal. lia.
Qed.

(** bmap and the copy into the block. *)
Lemma write_step img F p d off bs :
  rep img F → inodes img !! p = Some d → 0 ≤ off ≤ Z.of_nat (length (F p)) * BSIZE → off / BSIZE < MAXFILE →
  0 < Z.of_nat (length bs) → off mod BSIZE + Z.of_nat (length bs) ≤ BSIZE →
  runs (if decide (off / BSIZE < Z.of_nat (length (F p))) then 0 else 2) (bmap p (off / BSIZE)) img (λ b i1,
    layout i1 ∧ is_data (sblk i1) b ∧
    runs 0 (bwrite b (off mod BSIZE) bs) i1 (λ _ i2, ∃ ls, wrote img F p off bs ls i2)).
Proof.
  intros HR Ed Ho HM Hb1 Hb2. destruct (off_split off ltac:(lia)) as (Hq & Hr & Eoff). pose proof (g_bsize HG).
  assert (off / BSIZE ≤ Z.of_nat (length (F p))) as Hle by (apply Z.div_le_upper_bound; lia).
  eapply runs_mono; [done|eapply (bmap_spec HG); eauto; lia|]. intros b i1 (F1 & EF & HR1 & Hm1 & -> & Hq1).
  assert (is_Some (inodes i1 !! p)) as Hp1 by (apply (same_meta_some _ _ _ Hm1); eauto).
  destruct (wrote_block img F p off bs i1 F1) as (l & Hd & _ & Hbl & Hlen & Hsp & Hw); try done.
  split_and!; [apply HR1|done|]. eapply runs_ret; [|exact Hsp|exact Hw]. apply bwrite_run; [done|]. apply inside_spec. lia.
Qed.

(** ** The loops *)

Lemma off_block off : 0 ≤ off < MAXFILESIZE → off / BSIZE < MAXFILE.
Proof. intros Ho. unfold MAXFILESIZE in Ho. apply Z.div_lt_upper_bound; [apply (g_bsize HG)|lia]. Qed.

Lemma bread_run img b off n l : blks img !! b = Some l → inside l off n = true →
  bread b off n img = Ret (slice l off n) img.
Proof.
  intros El Hin. unfold bread, getblk. rewrite bind_assoc. erewrite bind_ret by reflexivity. rewrite El.
  erewrite bind_ret by reflexivity. by rewrite Hin.
Qed.

Lemma iread_loop_run img F p d fuel buf n t off :
  rep img F → inodes img !! p = Some d → 0 ≤ t ≤ n → n ≤ Z.of_nat (length buf) → n < 2 ^ 31 → 0 ≤ off →
  off + (n - t) ≤ Z.of_nat (length (F p)) * BSIZE → (Z.to_nat (n - t) < fuel)%nat →
  iread_loop fuel p buf n t off img = Ret (store buf t (slice (concat (F p)) off (n - t)), n) img.
Proof.
  intros HR Ed. assert (is_Some (inodes img !! p)) as Hp by eauto. pose proof (rep_blocks img F p HR Hp) as HF.
  pose proof (g_bsize HG). assert (Z.of_nat (length (F p)) * BSIZE < 2 ^ 31) as HM.
  { pose proof (b_len _ _ (proj2 HR) p Hp). pose proof (g_maxsize HG). nia. }
  revert buf t off. induction fuel as [|fuel IH]; intros buf t off Ht Hb Hn Ho Hoff Hf; [lia|].
  cbn [iread_loop]. destruct (Z.ltb_spec t n).
  - destruct (chunk_spec n t off) as (Ec & Hc1 & Hc2 & Hc3); [lia..|]. destruct (off_split off Ho) as (Hq & Hr & Eoff).
    set (m := chunk n t off) in *.
    assert (off / BSIZE < Z.of_nat (length (F p))) as Hlt by (apply Z.div_lt_upper_bound; lia).
    destruct (lookup_lt_is_Some_2 (F p) (Z.to_nat (off / BSIZE))) as [l Hl]; [lia|].
    destruct (slot_range img F p _ l HR Hp Hq Hl) as (_ & Hlen & Hd & Hbl).
    erewrite bind_ret by (eapply (bmap_have HG); eauto). erewrite bind_ret by reflexivity.
    rewrite (proj2 (valid_data_block_spec HG img _ (s_layout _ (proj1 HR))) Hd). cbn [negb].
    assert (inside l (off mod BSIZE) m = true) as Hin by (apply inside_spec; lia).
    erewrite bind_ret by (by apply bread_run). pose proof (length_slice _ _ _ Hin) as Hls.
    assert (inside buf t (Z.of_nat (length (slice l (off mod BSIZE) m))) = true) as Hib by (apply inside_spec; lia).
    unfold bufwrite. rewrite Hib. erewrite bind_ret by reflexivity. rewrite !u32_id by lia.
    rewrite IH by (rewrite ?length_store by done; lia). do 2 f_equal.
    assert (slice (concat (F p)) off (n - t) = slice (concat (F p)) off m ++ slice (concat (F p)) (off + m) (n - (t + m)))
      as -> by (rewrite <- slice_plus by lia; f_equal; lia).
    rewrite <- (slice_blocks (Z.to_nat BSIZE) (F p) _ l (off mod BSIZE) m HF Hl) in * by lia. rewrite Eoff in *.
    rewrite <- store_store; [do 2 f_equal; lia|lia|].
    rewrite Hls, length_slice; [lia|]. apply inside_spec. rewrite (length_blocks _ _ HF). lia.
  - assert (n = t) as -> by lia. rewrite Z.sub_diag. unfold slice. simpl. by rewrite store_nil.
Qed.

Lemma iwrite_loop_runs img F p d fuel buf n t off :
  rep img F → inodes img !! p = Some d → 0 ≤ t ≤ n → n < 2 ^ 31 → n ≤ Z.of_nat (length buf) →
  0 ≤ off ≤ Z.of_nat (length (F p)) * BSIZE → off + n ≤ MAXFILESIZE + t → (Z.to_nat (n - t) < fuel)%nat →
  runs (grow (length (F p)) (off + (n - t))) (iwrite_loop fuel p buf n t off) img (λ r img',
    r = (n, off + (n - t)) ∧ ∃ ls, wrote img F p off (slice buf t (n - t)) ls img').
Proof.
  pose proof (g_bsize HG). pose proof (g_maxsize HG) as HM. unfold MAXFILESIZE.
  revert img F d t off. induction fuel as [|fuel IH]; intros img F d t off HR Ed Ht Hn31 Hb Ho Hoff Hf; [lia|].
  assert (is_Some (inodes img !! p)) as Hp by eauto. cbn [iwrite_loop]. destruct (Z.ltb_spec t n).
  - destruct (chunk_spec n t off) as (Ec & Hc1 & Hc2 & Hc3); [lia..|]. destruct (off_split off) as (Hq & Hr & Eoff); [lia|].
    set (m := chunk n t off) in *.
    assert (inside buf t m = true) as Hib by (apply inside_spec; lia). pose proof (length_slice _ _ _ Hib) as Hls.
    eapply (runs_seq _ (grow (Z.to_nat (Z.max (Z.of_nat (length (F p))) (divceil (off + m) BSIZE))) (off + (n - t))));
      [|eapply (write_step img F p d off (slice buf t m)); eauto; try lia|].
    { apply (grow_step _ _ off m); lia. } { apply off_block. unfold MAXFILESIZE. lia. }
    intros b i1 (HL1 & Hd & Hw). eapply runs_read; [reflexivity|].
    rewrite (proj2 (valid_data_block_spec HG i1 b HL1) Hd). cbn [negb].
    eapply runs_read; [unfold bufread; by rewrite Hib|].
    eapply runs_after; [exact Hw|]. intros _ i2 [la Hwa]. rewrite !u32_id by lia.
    pose proof Hwa as (HR2 & Hm2 & Hl2 & _). rewrite Hls in Hl2.
    assert (∃ d2, inodes i2 !! p = Some d2) as [d2 Ed2] by (by apply (same_meta_some _ _ _ Hm2)).
    rewrite Z2Nat.id in Hl2 by lia.
    eapply runs_mono; [|apply (IH i2 (upd F p la) d2 (t + m) (off + m)); done || lia || idtac|].
    { rewrite upd_eq, <- Hl2, Nat2Z.id. apply Nat.eq_le_incl. f_equal. lia. }
    { rewrite upd_eq, Hl2. split; [lia|]. apply divceil_room. lia. }
    intros r i3 (-> & lb & Hwb). split; [f_equal; lia|]. exists lb.
    assert (slice buf t (n - t) = slice buf t m ++ slice buf (t + m) (n - (t + m)))
      as -> by (rewrite <- slice_plus by lia; f_equal; lia).
    eapply file_wrote_trans; [lia|exact Hwa|]. by rewrite Hls, Z2Nat.id by lia.
  - assert (n = t) as -> by lia. eapply runs_ret; [reflexivity|apply spent_refl|]. rewrite Z.sub_diag, Z.add_0_r. split; [done|].
    exists (F p). by apply wrote_nil.
Qed.

(** Filling with zero bytes. *)
Lemma fill_loop_runs img F p d fuel n t off :
  rep img F → inodes img !! p = Some d → 0 ≤ t ≤ n → n < 2 ^ 31 →
  0 ≤ off ≤ Z.of_nat (length (F p)) * BSIZE → off + n ≤ MAXFILESIZE + t → (Z.to_nat (n - t) < fuel)%nat →
  runs (grow (length (F p)) (off + (n - t))) (fill_loop fuel p n t off) img (λ _ img',
    ∃ ls, wrote img F p off (replicate (Z.to_nat (n - t)) 0) ls img').
Proof.
  pose proof (g_bsize HG). pose proof (g_maxsize HG) as HM. unfold MAXFILESIZE.
  revert img F d t off. induction fuel as [|fuel IH]; intros img F d t off HR Ed Ht Hn31 Ho Hoff Hf; [lia|].
  assert (is_Some (inodes img !! p)) as Hp by eauto. cbn [fill_loop]. destruct (Z.ltb_spec t n).
  - destruct (chunk_spec n t off) as (Ec & Hc1 & Hc2 & Hc3); [lia..|]. destruct (off_split off) as (Hq & Hr & Eoff); [lia|].
    set (m := chunk n t off) in *. pose proof (length_replicate (Z.to_nat m) 0) as Hls.
    eapply (runs_seq _ (grow (Z.to_nat (Z.max (Z.of_nat (length (F p))) (divceil (off + m) BSIZE))) (off + (n - t))));
      [|eapply (write_step img F p d off (replicate (Z.to_nat m) 0)); eauto; try lia|].
    { apply (grow_step _ _ off m); lia. } { apply off_block. unfold MAXFILESIZE. lia. }
    intros b i1 (HL1 & Hd & Hw).
    eapply runs_after; [exact Hw|]. intros _ i2 [la Hwa]. rewrite !u32_id by lia.
    pose proof Hwa as (HR2 & Hm2 & Hl2 & _). rewrite Hls in Hl2.
    assert (∃ d2, inodes i2 !! p = Some d2) as [d2 Ed2] by (by apply (same_meta_some _ _ _ Hm2)).
    rewrite Z2Nat.id in Hl2 by lia.
    eapply runs_mono; [|apply (IH i2 (upd F p la) d2 (t + m) (off + m)); done || lia || idtac|].
    { rewrite upd_eq, <- Hl2, Nat2Z.id. apply Nat.eq_le_incl. f_equal. lia. }
    { rewrite upd_eq, Hl2. split; [lia|]. apply divceil_room. lia. }
    intros r i3 (lb & Hwb). exists lb.
    replace (Z.to_nat (n - t)) with (Z.to_nat m + Z.to_nat (n - (t + m)))%nat by lia. rewrite replicate_add.
    eapply file_wrote_trans; [lia|exact Hwa|]. by rewrite Hls, Z2Nat.id by lia.
  - assert (n = t) as -> by lia. eapply runs_ret; [reflexivity|apply spent_refl|]. rewrite Z.sub_diag.
    exists (F p). by apply wrote_nil.
Qed.

(** ** The contents of files *)

Definition blocks_of (img : image) (p : inode_t) : list (list Z) :=
  match inodes img !! p with
  | Some d => map (λ k, default [] (blks img !! val img (Data p k))) (seqZ 0 (divceil (d_size d) BSIZE))
  | None => []
  end.

Definition content (img : image) (p : inode_t) : list Z :=
  match inodes img !! p with
  | Some d => take (Z.to_nat (d_size d)) (concat (blocks_of img p))
  | None => []
  end.

(** The invariant of an image. *)
Definition fs_ok (img : image) : Prop :=
  rep img (blocks_of img) ∧
  (∀ p d, inodes img !! p = Some d → 0 ≤ d_size d ≤ MAXFILESIZE) ∧
  ∀ p, is_Some (inodes img !! p) → Z.of_nat (length (blocks_of img p)) ≤ NDIRECT → val img (Ind p) = 0.

Lemma blocks_of_length img p d : inodes img !! p = Some d → 0 ≤ d_size d →
  Z.of_nat (length (blocks_of img p)) = divceil (d_size d) BSIZE.
Proof.
  intros Ed Hs. unfold blocks_of. rewrite Ed, length_map, length_seqZ.
  pose proof (divceil_bounds (d_size d) Hs). lia.
Qed.

Lemma fs_ok_intro img F :
  rep img F →
  (∀ p d, inodes img !! p = Some d →
     0 ≤ d_size d ≤ MAXFILESIZE ∧ Z.of_nat (length (F p)) = divceil (d_size d) BSIZE) →
  (∀ p, is_Some (inodes img !! p) → Z.of_nat (length (F p)) ≤ NDIRECT → val img (Ind p) = 0) →
  fs_ok img ∧ ∀ p, is_Some (inodes img !! p) → blocks_of img p = F p.
Proof.
  intros [HS HB] Hsz Hex.
  assert (∀ p, is_Some (inodes img !! p) → blocks_of img p = F p) as EF.
  { intros p [d Ed]. destruct (Hsz p d Ed) as [Hd Hl]. apply list_eq_same_length with (length (F p)); [done| |].
    { apply Nat2Z.inj. rewrite (blocks_of_length img p d Ed) by lia. done. }
    intros i x y Hi Hx Hy. unfold blocks_of in Hx. rewrite Ed, list_lookup_fmap in Hx.
    rewrite lookup_seqZ_lt in Hx by lia. rewrite Z.add_0_l in Hx. cbn [fmap option_fmap option_map] in Hx.
    destruct (b_data _ _ HB p (Z.of_nat i) y) as [_ E]; [eauto|lia|by rewrite Nat2Z.id|].
    rewrite E in Hx. simpl in Hx. unfold id in Hx. congruence. }
  split; [|done]. split_and!; [|intros; by eapply Hsz|intros p Hp; rewrite EF by done; auto]. split; [done|].
  destruct HB as [H1 H2 H3 H4]. split; intros p; intros; rewrite EF in *; eauto.
Qed.

Lemma content_length img p d : fs_ok img → inodes img !! p = Some d → Z.of_nat (length (content img p)) = d_size d.
Proof.
  intros (HR & Hsz & _) Ed. unfold content. rewrite Ed, length_take. pose proof (Hsz _ _ Ed).
  rewrite (length_blocks (Z.to_nat BSIZE)) by (apply (rep_blocks img); eauto).
  pose proof (blocks_of_length img p d Ed). pose proof (divceil_bounds (d_size d) ltac:(lia)). pose proof (g_bsize HG). nia.
Qed.

(** Changing an inode but for its blocks. *)
Lemma val_with_meta img p d d' t : inodes img !! p = Some d → d_addrs d' = d_addrs d →
  val (with_inode img p d') t = val img t.
Proof.
  intros Ed Ea. assert (∀ q n, addr_of (with_inode img p d') q n = addr_of img q n) as E.
  { intros q n. unfold addr_of, with_inode. cbn [inodes]. destruct (decide (p = q)) as [->|].
    - by rewrite lookup_insert_eq, Ed, Ea.
    - by rewrite lookup_insert_ne. }
  destruct t as [q k|q]; simpl; by rewrite ?E.
Qed.

Lemma rep_with_meta img F p d d' : rep img F → inodes img !! p = Some d → d_addrs d' = d_addrs d →
  rep (with_inode img p d') F.
Proof.
  intros [HS HB] Ed Ea. pose proof (val_with_meta img p d d') as Ev.
  assert (∀ q, is_Some (inodes (with_inode img p d') !! q) → is_Some (inodes img !! q)) as Hsome.
  { intros q. unfold with_inode. cbn [inodes]. destruct (decide (p = q)) as [->|]; [eauto|by rewrite lookup_insert_ne]. }
  split.
  - apply (slots_same img); auto. eapply with_inode_layout; [apply HS|done|]. rewrite Ea. eapply l_iaddr; [apply HS|done].
  - destruct HB as [H1 H2 H3 H4]. split; intros q; intros; rewrite ?Ev by done; eauto.
Qed.

(** The effect of an operation on one file: its contents are [c], all else is kept. *)
Record file_set (img : image) (p : inode_t) (c : list Z) (img' : image) : Prop := {
  fset_ok : fs_ok img';
  fset_sblk : sblk img' = sblk img;
  fset_meta : ∀ q, meta <$> inodes img' !! q =
    (λ d, meta (if decide (q = p) then set_size (Z.of_nat (length c)) d else d)) <$> inodes img !! q;
  fset_content : content img' p = c;
  fset_other : ∀ q, q ≠ p → content img' q = content img q
}.

(** Reading a [file_set] off the blocks and the size. *)
Lemma file_set_intro img img1 p d ls n :
  fs_ok img → inodes img !! p = Some d → same_meta img img1 → rep img1 (upd (blocks_of img) p ls) →
  0 ≤ n ≤ MAXFILESIZE → Z.of_nat (length ls) = divceil n BSIZE →
  (∀ q, q ≠ p → val img1 (Ind q) = val img (Ind q)) → (Z.of_nat (length ls) ≤ NDIRECT → val img1 (Ind p) = 0) →
  ∃ d1, inodes img1 !! p = Some d1 ∧
    let img2 := with_inode img1 p (set_size n d1) in
    file_set img p (take (Z.to_nat n) (concat ls)) img2 ∧
    ∀ q, is_Some (inodes img !! q) → blocks_of img2 q = upd (blocks_of img) p ls q.
Proof.
  intros (HR & Hsz & Hex) Ed Hm HR1 Hn Hls Hq1 Hp1.
  assert (∃ d1, inodes img1 !! p = Some d1) as [d1 Ed1] by (apply (same_meta_some _ _ _ Hm); eauto).
  exists d1. split; [done|]. set (img2 := with_inode img1 p (set_size n d1)).
  assert (∀ q, inodes img2 !! q = if decide (q = p) then Some (set_size n d1) else inodes img1 !! q) as Ei.
  { intros q. unfold img2, with_inode. cbn [inodes]. destruct (decide (q = p)) as [->|]; [by rewrite lookup_insert_eq|].
    by rewrite lookup_insert_ne. }
  assert (rep img2 (upd (blocks_of img) p ls)) as HR2 by (by eapply rep_with_meta).
  assert (∀ q e, q ≠ p → inodes img2 !! q = Some e → ∃ e', inodes img !! q = Some e' ∧ d_size e' = d_size e) as Hsame.
  { intros q e Hq He. rewrite Ei, decide_False in He by done. pose proof (sm_inode _ _ Hm q) as Eq. rewrite He in Eq.
    destruct (inodes img !! q) as [e'|] eqn:E'; [|done]. exists e'. split; [done|]. injection Eq as [=]. done. }
  destruct (fs_ok_intro img2 _ HR2) as [Hok Eb].
  { intros q e He. destruct (decide (q = p)) as [->|Hq].
    - rewrite Ei, decide_True in He by done. injection He as <-. by rewrite upd_eq.
    - destruct (Hsame q e Hq He) as (e' & E' & <-). rewrite upd_ne by done. split; [by eapply Hsz|].
      apply blocks_of_length; [done|]. by apply Hsz in E' as [? _]. }
  { intros q Hq Hle. unfold img2. rewrite (val_with_meta img1 p d1) by done. destruct (decide (q = p)) as [->|Hne].
    - apply Hp1. by rewrite upd_eq in Hle.
    - rewrite upd_ne in Hle by done. rewrite Hq1 by done. apply Hex; [|done].
      destruct Hq as [e He]. apply (Hsame q e Hne) in He as (e' & E' & _). eauto. }
  assert (Z.of_nat (length (take (Z.to_nat n) (concat ls))) = n) as Hlen.
  { rewrite length_take, (length_blocks (Z.to_nat BSIZE)).
    - pose proof (divceil_bounds n ltac:(lia)). pose proof (g_bsize HG). nia.
    - pose proof (rep_blocks img2 _ p HR2) as HF. rewrite upd_eq in HF. apply HF. rewrite Ei, decide_True by done. eauto. }
  split; [|intros q Hq; apply Eb; rewrite Ei; destruct (decide (q = p)); [eauto|by apply (same_meta_some _ _ _ Hm)]].
  split; [done|apply Hm| | |].
  - intros q. rewrite Ei, Hlen. destruct (decide (q = p)) as [->|]; [|by rewrite (sm_inode _ _ Hm)].
    rewrite Ed. simpl. pose proof (sm_inode _ _ Hm p) as Ep. rewrite Ed, Ed1 in Ep. destruct d, d1. simplify_eq/=. done.
  - unfold content. rewrite Ei, decide_True, Eb by (done || rewrite Ei, decide_True by done; eauto). by rewrite upd_eq.
  - intros q Hq. unfold content. rewrite Ei, decide_False by done. pose proof (sm_inode _ _ Hm q) as Eq.
    destruct (inodes img1 !! q) as [e|] eqn:E1, (inodes img !! q) as [e'|] eqn:E; try done.
    rewrite Eb by (rewrite Ei, decide_False by done; eauto). rewrite upd_ne by done. by destruct e, e'; simplify_eq/=.
Qed.

(** ** iread *)

Lemma size_bound img p d : fs_ok img → inodes img !! p = Some d → 0 ≤ d_size d ≤ MAXFILESIZE ∧ MAXFILESIZE < 2 ^ 31.
Proof. intros (_ & Hsz & _) Ed. split; [by eapply Hsz|apply (g_maxsize HG)]. Qed.

Lemma u32_in x : 0 ≤ x < 2 ^ 32 → u32 x = x.
Proof. apply wrap_id. Qed.

Lemma wrap_test off n : 0 ≤ off < 2 ^ 31 → 0 ≤ n < 2 ^ 32 →
  (u32 (off + n) <? off) = bool_decide (2 ^ 32 ≤ off + n).
Proof.
  intros Ho Hn. unfold u32, wrap. case_bool_decide.
  - replace ((off + n) mod 2 ^ 32) with (off + n - 2 ^ 32) by (apply (Z.mod_unique _ _ 1); lia). apply Z.ltb_lt. lia.
  - rewrite Z.mod_small by lia. apply Z.ltb_ge. lia.
Qed.

Lemma slice_take l off n m : 0 ≤ off → 0 ≤ m → off + m ≤ n → slice (take (Z.to_nat n) l) off m = slice l off m.
Proof.
  intros. apply list_eq. intros i. unfold slice. destruct (decide (i < Z.to_nat m)%nat).
  - rewrite !lookup_take_lt, !lookup_drop, lookup_take_lt by lia. done.
  - by rewrite !lookup_take_ge by lia.
Qed.

(** iread as a function of the contents: the bytes that are there, into the buffer. *)
Lemma iread_run img p d buf n off :
  fs_ok img → inodes img !! p = Some d → 0 ≤ n < 2 ^ 32 → 0 ≤ off → n ≤ Z.of_nat (length buf) →
  iread p buf n off img =
    if decide (d_type d = T_DEV ∨ d_size d < off ∨ 2 ^ 32 ≤ off + n) then Ret (buf, -1) img
    else let m := Z.min n (d_size d - off) in Ret (store buf 0 (slice (content img p) off m), m) img.
Proof.
  intros Hok Ed Hn Ho Hb. destruct (size_bound _ _ _ Hok Ed) as [Hs HM].
  unfold iread. erewrite bind_ret by (by apply inode_run).
  destruct (Z.eqb_spec (d_type d) T_DEV); [by rewrite decide_True by auto|].
  destruct (Z.ltb_spec (d_size d) off); [by rewrite decide_True by auto|]. cbn [orb].
  rewrite wrap_test by lia. case_bool_decide; [by rewrite decide_True by auto|].
  rewrite decide_False by lia. rewrite (u32_in (off + n)) by lia. cbv zeta.
  set (m := Z.min n (d_size d - off)).
  assert ((if d_size d <? off + n then u32 (d_size d - off) else n) = m) as ->.
  { unfold m. destruct (Z.ltb_spec (d_size d) (off + n)); [rewrite u32_id by lia; lia|lia]. }
  destruct Hok as (HR & Hsz & _). pose proof (blocks_of_length img p d Ed ltac:(lia)) as Hl.
  pose proof (divceil_bounds (d_size d) ltac:(lia)).
  erewrite bind_ret by (eapply iread_loop_run; eauto; unfold m; lia).
  rewrite Z.sub_0_r. cbn [fst snd]. rewrite s32_id by (unfold m; lia).
  unfold content. rewrite Ed, slice_take by (unfold m; lia). done.
Qed.

(** ** iwrite *)

Lemma take_store C z off bs sz : 0 ≤ off ≤ sz → sz ≤ Z.of_nat (length C) →
  off + Z.of_nat (length bs) ≤ Z.of_nat (length (C ++ replicate z 0)) →
  take (Z.to_nat (Z.max sz (off + Z.of_nat (length bs)))) (store (C ++ replicate z 0) off bs) =
    store (take (Z.to_nat sz) C) off bs.
Proof.
  intros Ho Hs Hb. set (N := Z.to_nat (Z.max sz (off + Z.of_nat (length bs)))).
  assert (Z.of_nat (length (take (Z.to_nat sz) C)) = sz) as Hl by (rewrite length_take; lia).
  apply list_eq. intros i. rewrite (store_lookup (take _ C)) by lia.
  destruct (decide (i < N)%nat).
  - rewrite lookup_take_lt by done. rewrite store_lookup by (rewrite length_app in *; lia).
    case_decide; [done|]. rewrite lookup_take_lt by lia. by rewrite lookup_app_l by lia.
  - rewrite lookup_take_ge by lia. rewrite decide_False by lia. symmetry. apply lookup_ge_None. lia.
Qed.

(** The bytes written, and the size set. *)
Lemma wrote_file_set img p d off bs ls i1 :
  fs_ok img → inodes img !! p = Some d → 0 ≤ off ≤ d_size d → off + Z.of_nat (length bs) ≤ MAXFILESIZE →
  wrote img (blocks_of img) p off bs ls i1 →
  ∃ d1, inodes i1 !! p = Some d1 ∧
    let i2 := with_inode i1 p (set_size (Z.max (d_size d) (off + Z.of_nat (length bs))) d1) in
    file_set img p (store (content img p) off bs) i2 ∧
    ∀ q, is_Some (inodes img !! q) → blocks_of i2 q = upd (blocks_of img) p ls q.
Proof.
  intros Hok Ed Ho Hn (HR1 & Hm1 & Hl1 & Hq1 & z & Hz & Ec). destruct (size_bound _ _ _ Hok Ed) as [Hs HM].
  pose proof Hok as (HR & Hsz & Hex). pose proof (blocks_of_length img p d Ed ltac:(lia)) as Hl.
  pose proof (divceil_bounds (d_size d) ltac:(lia)) as Hdc. set (n := Z.of_nat (length bs)) in *. set (sz := Z.max (d_size d) (off + n)).
  destruct (file_set_intro img i1 p d ls sz Hok Ed Hm1 HR1) as (d1 & Ed1 & HF & Hb);
    [lia| |by auto|intros Hle; rewrite Hq1 by auto; apply Hex; [eauto|lia]|].
  { rewrite Hl1, Hl. pose proof (divceil_mono (d_size d) (off + n)). pose proof (divceil_mono (off + n) (d_size d)).
    unfold sz. destruct (Z.max_spec (d_size d) (off + n)) as [[? ->]|[? ->]]; lia. }
  exists d1. split; [done|]. split; [|done].
  assert (take (Z.to_nat sz) (concat ls) = store (content img p) off bs) as <-; [|done].
  rewrite Ec. unfold sz, n. unfold content. rewrite Ed. apply take_store; [lia| |lia].
  rewrite (length_blocks (Z.to_nat BSIZE)) by (apply (rep_blocks img); eauto). pose proof (g_bsize HG). nia.
Qed.

(** iwrite as a function of the contents. *)
Lemma iwrite_runs img p d buf n off :
  fs_ok img → inodes img !! p = Some d → 0 ≤ n < 2 ^ 32 → 0 ≤ off → n ≤ Z.of_nat (length buf) →
  if decide (d_type d = T_DEV ∨ d_size d < off ∨ MAXFILESIZE < off + n) then iwrite p buf n off img = Ret (-1) img
  else runs (grow (length (blocks_of img p)) (off + n)) (iwrite p buf n off) img (λ r img',
    r = n ∧ file_set img p (store (content img p) off (take (Z.to_nat n) buf)) img').
Proof.
  intros Hok Ed Hn Ho Hb. destruct (size_bound _ _ _ Hok Ed) as [Hs HM].
  set (bad := (d_size d <? off) || (u32 (off + n) <? off) || (MAXFILESIZE <? u32 (off + n))).
  assert (bad = bool_decide (d_size d < off ∨ MAXFILESIZE < off + n)) as Ebad.
  { unfold bad. destruct (Z.ltb_spec (d_size d) off); [by rewrite bool_decide_true by auto|]. cbn [orb].
    rewrite wrap_test by lia. destruct (decide (2 ^ 32 ≤ off + n)).
    - by rewrite !bool_decide_true by lia.
    - rewrite bool_decide_false by done. rewrite (u32_in (off + n)) by lia. cbn [orb].
      destruct (Z.ltb_spec MAXFILESIZE (off + n)); [by rewrite bool_decide_true by auto|]. rewrite bool_decide_false; [done|lia]. }
  destruct (decide _) as [Hg|Hg].
  - unfold iwrite. erewrite bind_ret by (by apply inode_run). fold bad. rewrite Ebad.
    destruct (Z.eqb_spec (d_type d) T_DEV); [done|]. by rewrite bool_decide_true by tauto.
  - unfold iwrite. eapply runs_read; [by apply inode_run|]. fold bad. rewrite Ebad.
    rewrite (proj2 (Z.eqb_neq _ _)) by tauto. rewrite bool_decide_false by tauto.
    pose proof Hok as (HR & Hsz & Hex). pose proof (blocks_of_length img p d Ed ltac:(lia)) as Hl.
    pose proof (divceil_bounds (d_size d) ltac:(lia)) as Hdc. pose proof (content_length img p d Hok Ed) as Hcl.
    replace (grow _ (off + n)) with (grow (length (blocks_of img p)) (off + (n - 0))) by (f_equal; lia).
    eapply runs_before; [eapply (iwrite_loop_runs img (blocks_of img) p d _ buf n 0 off); eauto; lia|].
    intros [t off'] i1 ([= -> ->] & ls & HR1 & Hm1 & Hl1 & Hq1 & z & Hz & Ec).
    rewrite Z.sub_0_r in *. unfold slice in *. rewrite drop_0 in *.
    assert (Z.of_nat (length (take (Z.to_nat n) buf)) = n) as Hbl by (rewrite length_take; lia). rewrite Hbl in *.
    set (sz := Z.max (d_size d) (off + n)).
    destruct (wrote_file_set img p d off (take (Z.to_nat n) buf) ls i1) as (d1 & Ed1 & HF & _); [done..|lia|rewrite Hbl; lia| |];
      [split_and!; rewrite ?Hbl; eauto|]. rewrite Hbl in HF. fold sz in HF.
    eapply runs_read; [by apply inode_run|].
    assert (d_size d1 = d_size d) as Esz.
    { pose proof (sm_inode _ _ Hm1 p) as E. rewrite Ed, Ed1 in E. by destruct d, d1; simplify_eq/=. }
    rewrite Esz. apply (runs_seq 0 0 _ _ _ _ (λ _ i2, i2 = with_inode i1 p (set_size sz d1))); [done| |].
    + destruct ((0 <? n) && (d_size d <? off + n)) eqn:Eg.
      * rewrite andb_true_iff, !Z.ltb_lt in Eg. eapply runs_ret; [by apply upd_inode_run|by apply spent_blks|]. simpl.
        do 2 f_equal. lia.
      * eapply runs_ret; [reflexivity|apply spent_refl|]. rewrite andb_false_iff, !Z.ltb_ge in Eg.
        assert (sz = d_size d1) as -> by lia. unfold with_inode. rewrite insert_id; [by destruct i1|].
        rewrite Ed1. by destruct d1.
    + intros _ i2 ->. eapply runs_ret; [reflexivity|apply spent_refl|]. split; [|done]. apply s32_id. lia.
Qed.

(** iread gives the bytes of the file from the offset on, as many as there are, and
    changes nothing. *)
Theorem iread_correct img p d buf n off :
  fs_ok img → inodes img !! p = Some d → 0 ≤ n < 2 ^ 32 → 0 ≤ off → n ≤ Z.of_nat (length buf) →
  iread p buf n off img =
    if decide (d_type d = T_DEV ∨ d_size d < off ∨ 2 ^ 32 ≤ off + n) then Ret (buf, -1) img
    else let m := Z.min n (d_size d - off) in Ret (store buf 0 (slice (content img p) off m), m) img.
Proof. apply iread_run. Qed.

(** C20. iwrite puts the bytes at the offset, the file growing as needed, keeps every other
    file and the invariant of the image, and refuses offsets behind the end and files
    that are too large; it needs two free blocks for each block the file grows by. *)
Theorem iwrite_correct img p d buf n off :
  fs_ok img → inodes img !! p = Some d → 0 ≤ n < 2 ^ 32 → 0 ≤ off → n ≤ Z.of_nat (length buf) →
  room img (grow (length (blocks_of img p)) (off + n)) →
  if decide (d_type d = T_DEV ∨ d_size d < off ∨ MAXFILESIZE < off + n) then iwrite p buf n off img = Ret (-1) img
  else ∃ img', iwrite p buf n off img = Ret n img' ∧
    file_set img p (store (content img p) off (take (Z.to_nat n) buf)) img'.
Proof.
  intros Hok Ed Hn Ho Hb Hr. pose proof (iwrite_runs img p d buf n off Hok Ed Hn Ho Hb) as Hw.
  destruct (decide _); [done|]. apply runs_returns in Hw as (r & img' & E & -> & HF); eauto.
Qed.

End rw.
