(* ===== verification/FsTrunc.v ===== *)
(** * Truncating files of an image (tools/libfs.c, itruncate)

    Blocks are freed one entry at a time; [cleared] tracks the entries that are gone
    while the file has holes, and at the end the file is again a list of blocks. *)

From stdpp Require Import base gmap list numbers option.
From Stdlib Require Import Lia ZArith.
From S2P Require Import Prelude Fs FsBlocks FsFile FsRw.

#[local] Open Scope Z_scope.
#[local] Open Scope yaos_scope.

Section trunc.
Context {G : FsGeom} (HG : geom_ok G).

(** The entries [S] were freed, all others and their blocks are as before. *)
Record cleared (img img' : image) (S : slot → Prop) : Prop := {
  c_ok : slots_ok img';
  c_meta : same_meta img img';
  c_gone : ∀ t, slot_ok t → S t → val img' t = 0;
  c_kept : ∀ t, slot_ok t → ¬ S t → val img' t = val img t;
  c_data : ∀ q k, slot_ok (Data q k) → ¬ S (Data q k) → val img (Data q k) ≠ 0 →
    blks img' !! val img (Data q k) = blks img !! val img (Data q k);
  c_spent : spent img 0 img'
}.

Lemma cleared_refl img : slots_ok img → cleared img img (λ _, False).
Proof. intros HS. split; try done. apply spent_refl. Qed.

Lemma cleared_weaken img img' (S S' : slot → Prop) : (∀ t, S t ↔ S' t) → cleared img img' S → cleared img img' S'.
Proof.
  intros E [H1 H2 H3 H4 H5 H6]. split; [done|done|..|done].
  - intros t Ht HS. apply H3; [done|]. by apply E.
  - intros t Ht HS. apply H4; [done|]. by rewrite E.
  - intros q k Ht HS. apply H5; [done|]. by rewrite E.
Qed.

Lemma cleared_trans img i1 i2 (S1 S2 : slot → Prop) `{!∀ t, Decision (S2 t)} :
  cleared img i1 S1 → cleared i1 i2 S2 → cleared img i2 (λ t, S1 t ∨ S2 t).
Proof.
  intros [H1 H2 H3 H4 H5 H6] [K1 K2 K3 K4 K5 K6]. split; [done|by eapply same_meta_trans|..|exact (spent_trans _ 0 _ 0 _ H6 K6)].
  - intros t Ht HS. destruct (decide (S2 t)) as [Hs|Hs]; [by apply K3|]. rewrite K4 by done. apply H3; tauto.
  - intros t Ht HS. rewrite K4, H4 by tauto. done.
  - intros q k Ht HS Hv. assert (val i1 (Data q k) = val img (Data q k)) as E by (apply H4; tauto).
    rewrite <- (H5 q k) by tauto. rewrite <- E. apply K5; [done|tauto|by rewrite E].
Qed.

(** bfree of the block of an entry. *)
Record freed (img : image) (b : Z) (i1 : image) : Prop := {
  fr_layout : layout i1;
  fr_sblk : sblk i1 = sblk img;
  fr_inodes : inodes i1 = inodes img;
  fr_val : ∀ t, val i1 t = val img t;
  fr_used : ∀ x, is_data (sblk img) x → used i1 x = if x =? b then false else used img x;
  fr_data : ∀ x, is_data (sblk img) x → blks i1 !! x = blks img !! x;
  fr_spent : spent img 0 i1
}.

Lemma bfree_freed img b : slots_ok img → is_data (sblk img) b → ∃ i1, bfree b img = Ret 0 i1 ∧ freed img b i1.
Proof.
  intros HS Hb. destruct (bfree_run HG img b (s_layout _ HS) Hb) as (i1 & E & HR). pose proof HR as [H1 H2 H3 H4 H5].
  exists i1. split; [done|]. split; try done; [| |by eapply (released_spent HG), HR; [apply HS|]].
  - apply val_ext; [done|]. intros p Hp. apply H4. by apply (s_slot _ HS (Ind p)).
  - intros x Hx. apply H3. pose proof (data_in_image HG _ _ (s_layout _ HS) Hx). lia.
Qed.

(** ** Freeing one entry *)

Lemma clear_direct img p d i :
  slots_ok img → inodes img !! p = Some d → 0 ≤ i < NDIRECT → val img (Data p i) ≠ 0 →
  ∃ img', (a ← addr_at p i; bfree a ;; set_addr p i 0) img = Ret tt img' ∧
    cleared img img' (λ t, t = Data p i).
Proof.
  intros HS Ed Hi Hv. pose proof (s_layout _ HS) as HL.
  assert (slot_ok (Data p i)) as Hok.
  { simpl. pose proof (g_maxfile HG). pose proof (g_nindirect HG). pose proof (g_bsize HG).
    assert (0 ≤ BSIZE / 4) by (apply Z.div_pos; lia). lia. }
  destruct (s_slot _ HS _ Hok Hv) as [Hd _].
  assert (addr_of img p i = val img (Data p i)) as Ea by (simpl; by rewrite (proj2 (Z.ltb_lt i NDIRECT)) by lia).
  destruct (bfree_freed img _ HS Hd) as (i1 & E1 & [HL1 Esb Ei Ev Eu Eb Es1]).
  exists (with_addr i1 p i 0). split.
  - erewrite bind_ret by (eapply addr_at_run; eauto; lia). rewrite Ea. erewrite bind_ret by exact E1.
    eapply set_addr_run. by rewrite Ei.
  - destruct (with_addr_frame i1 p i 0 HL1) as (HL2 & Hm & Ebk & Hus).
    assert (∀ t, slot_ok t → val (with_addr i1 p i 0) t = if decide (t = Data p i) then 0 else val img t) as Ev2.
    { intros t Ht. rewrite (val_direct HG i1 p d) by (done || by rewrite Ei). by rewrite Ev. }
    assert (same_meta img (with_addr i1 p i 0)) as Hm2
      by (split; [by rewrite (sm_sblk _ _ Hm)|intros q; by rewrite (sm_inode _ _ Hm), Ei]).
    split; [|done|..|exact (spent_trans _ 0 _ 0 _ Es1 (with_addr_spent _ _ _ _))].
    + apply (slots_unlink img _ (Data p i)); try done.
      * apply Hm2.
      * intros x Hx. by rewrite Hus, Eu.
      * by rewrite Ev2, decide_True.
      * intros t Ht Hne. by rewrite Ev2, decide_False.
    + intros t Ht ->. by rewrite Ev2, decide_True.
    + intros t Ht Hne. by rewrite Ev2, decide_False.
    + intros q k Ht Hne Hvk. rewrite Ebk, Eb; [done|]. by apply (s_slot _ HS).
Qed.

Lemma clear_indirect img p i :
  slots_ok img → val img (Ind p) ≠ 0 → 0 ≤ i < NINDIRECT → val img (Data p (NDIRECT + i)) ≠ 0 →
  ∃ img', (a ← get_uint (val img (Ind p)) i; bfree a ;; put_uint (val img (Ind p)) i 0) img = Ret tt img' ∧
    cleared img img' (λ t, t = Data p (NDIRECT + i)).
Proof.
  intros HS Hia Hi Hv. pose proof (s_layout _ HS) as HL. pose proof (g_ndirect HG). pose proof (g_maxfile HG).
  set (s := Data p (NDIRECT + i)) in *. assert (slot_ok s) as Hok by (simpl; lia).
  destruct (s_slot _ HS _ Hok Hv) as [Hd _]. destruct (s_slot _ HS (Ind p) I Hia) as [Hdi _].
  destruct (l_data _ HL _ Hdi) as (li & Eli & Hli).
  destruct (bfree_freed img _ HS Hd) as (i1 & E1 & [HL1 Esb Ei Ev Eu Eb Es1]).
  exists (with_uint i1 (val img (Ind p)) i 0). split.
  - assert (NDIRECT ≤ NDIRECT + i < MAXFILE) as Hr by lia. pose proof (ind_entry HG img p _ HS Hia Hr) as Eg.
    replace (NDIRECT + i - NDIRECT) with i in Eg by lia. erewrite bind_ret by exact Eg.
    erewrite bind_ret by exact E1. eapply put_uint_run; [done|by rewrite Eb|done|done].
  - assert (∀ t, slot_ok t → val (with_uint i1 (val img (Ind p)) i 0) t = if decide (t = s) then 0 else val img t) as Ev2.
    { intros t Ht. transitivity (val (with_uint img (val img (Ind p)) i 0) t); [|by apply val_uint].
      apply val_ext; [done|]. intros q Hq.
      assert (val (with_uint img (val img (Ind p)) i 0) (Ind q) = val img (Ind q)) as Eq by done. rewrite Eq in *.
      destruct (s_slot _ HS (Ind q) I Hq) as [Hdq _]. unfold with_uint. cbn [blks]. rewrite Eb by done.
      destruct (decide (val img (Ind p) = val img (Ind q))) as [->|]; [by rewrite !lookup_insert_eq|].
      rewrite !lookup_insert_ne by done. by apply Eb. }
    assert (∃ l2, with_uint i1 (val img (Ind p)) i 0 =
      mk_img (sblk i1) (inodes i1) (<[val img (Ind p) := l2]> (blks i1)) ∧ length l2 = Z.to_nat BSIZE) as (l2 & E2 & Hl2).
    { eexists. split; [done|]. rewrite Eb, Eli by done. rewrite length_store; [done|].
      apply inside_spec. cbn [from_option]. unfold id. pose proof (uint_room HG i li). simpl. lia. }
    destruct (put_block_data HG i1 (val img (Ind p)) l2 HL1) as (HL2 & Hus & Hsp); [by rewrite Esb|done|]. rewrite <- E2 in HL2, Hus, Hsp.
    split; [..|exact (spent_trans _ 0 _ 0 _ Es1 Hsp)].
    + apply (slots_unlink img _ s); try done.
      * intros x Hx. rewrite Hus by (by rewrite Esb). by apply Eu.
      * by rewrite Ev2, decide_True.
      * intros t Ht Hne. by rewrite Ev2, decide_False.
    + rewrite E2. split; [done|]. intros q. cbn [inodes]. by rewrite Ei.
    + intros t Ht ->. by rewrite Ev2, decide_True.
    + intros t Ht Hne. by rewrite Ev2, decide_False.
    + intros q k Ht Hne Hvk. rewrite E2. cbn [blks]. rewrite lookup_insert_ne.
      * apply Eb. by apply (s_slot _ HS).
      * intros E. by apply (s_inj _ HS) in E.
Qed.

(** The indirect block itself, once its entries are empty. *)
Lemma clear_ind img p d :
  slots_ok img → inodes img !! p = Some d → val img (Ind p) ≠ 0 →
  (∀ k, NDIRECT ≤ k < MAXFILE → val img (Data p k) = 0) →
  ∃ img', (bfree (val img (Ind p)) ;; set_addr p NDIRECT 0) img = Ret tt img' ∧
    cleared img img' (λ t, t = Ind p).
Proof.
  intros HS Ed Hv Hz. pose proof (s_layout _ HS) as HL. pose proof (g_ndirect HG).
  destruct (s_slot _ HS (Ind p) I Hv) as [Hd _].
  destruct (bfree_freed img _ HS Hd) as (i1 & E1 & [HL1 Esb Ei Ev Eu Eb Es1]).
  assert (inodes i1 !! p = Some d) as Ed1 by (by rewrite Ei).
  exists (with_addr i1 p NDIRECT 0). split.
  - erewrite bind_ret by exact E1. by eapply set_addr_run.
  - destruct (with_addr_frame i1 p NDIRECT 0 HL1) as (HL2 & Hm & Ebk & Hus).
    assert (∀ t, slot_ok t → t ≠ Ind p → val (with_addr i1 p NDIRECT 0) t = val img t) as Ev2.
    { intros t Ht Hne. rewrite (val_new_ind HG i1 p d); [apply Ev|done..| |by left]. intros k Hk. rewrite Ev. auto. }
    assert (val (with_addr i1 p NDIRECT 0) (Ind p) = 0) as Ev0.
    { simpl. rewrite (addr_of_with_addr i1 p d), decide_True by (done || lia). done. }
    assert (same_meta img (with_addr i1 p NDIRECT 0)) as Hm2
      by (split; [by rewrite (sm_sblk _ _ Hm)|intros q; by rewrite (sm_inode _ _ Hm), Ei]).
    split; [|done|..|exact (spent_trans _ 0 _ 0 _ Es1 (with_addr_spent _ _ _ _))].
    + apply (slots_unlink img _ (Ind p)); try done.
      * apply Hm2.
      * intros x Hx. by rewrite Hus, Eu.
    + by intros t Ht ->.
    + auto.
    + intros q k Ht Hne Hvk. rewrite Ebk, Eb; [done|]. by apply (s_slot _ HS).
Qed.

(** ** The loops *)

Definition in_range (p : inode_t) (a b : Z) (t : slot) : Prop :=
  match t with Data q k => q = p ∧ a ≤ k < b | Ind _ => False end.

#[local] Instance in_range_dec p a b t : Decision (in_range p a b t).
Proof. destruct t; simpl; apply _. Defined.

Lemma clear_loop p base (body : nat → M image unit) n : ∀ i img,
  slots_ok img → 0 ≤ base → base + Z.of_nat (i + n) ≤ MAXFILE →
  (∀ k, Z.of_nat i ≤ k < Z.of_nat (i + n) → val img (Data p (base + k)) ≠ 0) →
  (∀ i1 j, slots_ok i1 → same_meta img i1 → val i1 (Ind p) = val img (Ind p) → (i ≤ j < i + n)%nat →
     val i1 (Data p (base + Z.of_nat j)) ≠ 0 →
     ∃ i2, body j i1 = Ret tt i2 ∧ cleared i1 i2 (λ t, t = Data p (base + Z.of_nat j))) →
  ∃ img', for_range n i body img = Ret tt img' ∧
    cleared img img' (in_range p (base + Z.of_nat i) (base + Z.of_nat (i + n))).
Proof.
  induction n as [|n IH]; intros i img HS Hb HM Hv Hbody.
  - exists img. split; [done|]. eapply cleared_weaken; [|by apply cleared_refl]. intros [q k|q]; simpl; [|done].
    rewrite Nat.add_0_r. lia.
  - destruct (Hbody img i) as (i1 & E1 & H1); [done|apply same_meta_refl|done|lia|apply Hv; lia|].
    destruct (IH (S i) i1) as (i2 & E2 & H2).
    + apply H1.
    + done.
    + lia.
    + intros k Hk. rewrite (c_kept _ _ _ H1); [apply Hv; lia|simpl; lia|]. intros [=]. lia.
    + intros i3 j HS3 Hm Hi Hj Hvj. apply Hbody; [done| | |lia|done].
      * eapply same_meta_trans; [apply H1|done].
      * rewrite Hi. by apply (c_kept _ _ _ H1).
    + exists i2. split; [simpl; by erewrite bind_ret by exact E1|].
      eapply cleared_weaken; [|exact (cleared_trans _ _ _ _ _ H1 H2)].
      intros [q k|q]; simpl; [|intuition discriminate]. split.
      * intros [[= -> ->]|[-> ?]]; split; done || lia.
      * intros [-> ?]. destruct (decide (k = base + Z.of_nat i)) as [->|]; [by left|right; split; [done|lia]].
Qed.

Lemma trunc_direct_run img p d kd nd :
  slots_ok img → inodes img !! p = Some d → 0 ≤ kd ≤ NDIRECT → nd ≤ NDIRECT →
  (∀ k, kd ≤ k < nd → val img (Data p k) ≠ 0) →
  ∃ img', trunc_direct p kd nd img = Ret tt img' ∧ cleared img img' (in_range p kd nd).
Proof.
  intros HS Ed Hk Hn Hv. unfold trunc_direct. pose proof (g_maxfile HG). pose proof (g_nindirect HG). pose proof (g_bsize HG).
  assert (0 ≤ BSIZE / 4) by (apply Z.div_pos; lia). pose proof (g_ndirect HG).
  destruct (clear_loop p 0 (λ i, a ← addr_at p (Z.of_nat i); bfree a ;; set_addr p (Z.of_nat i) 0)
    (Z.to_nat (nd - kd)) (Z.to_nat kd) img) as (img' & E & HC); [done|done|lia| | |].
  - intros k Hk'. rewrite Z.add_0_l. apply Hv. lia.
  - intros i1 j HS1 Hm _ Hj Hvj. rewrite Z.add_0_l in *.
    assert (∃ d1, inodes i1 !! p = Some d1) as [d1 Ed1] by (apply (same_meta_some _ _ _ Hm); eauto).
    apply (clear_direct i1 p d1); [done|done|lia|done].
  - exists img'. split; [exact E|]. eapply cleared_weaken; [|exact HC]. intros [q k|q]; simpl; [|done].
    rewrite !Z.add_0_l. split; intros [-> ?]; split; done || lia.
Qed.

Lemma max_spec x : Fs.max (x - NDIRECT) 0 = Z.max x NDIRECT - NDIRECT.
Proof. unfold Fs.max. destruct (Z.ltb_spec 0 (x - NDIRECT)); lia. Qed.

Lemma trunc_indirect_run img p d n k :
  slots_ok img → inodes img !! p = Some d → NDIRECT < n ≤ MAXFILE → 0 ≤ k ≤ n → val img (Ind p) ≠ 0 →
  (∀ j, Z.max k NDIRECT ≤ j < n → val img (Data p j) ≠ 0) →
  (∀ j, n ≤ j < MAXFILE → val img (Data p j) = 0) →
  ∃ img', trunc_indirect p n k img = Ret tt img' ∧
    cleared img img' (λ t, in_range p (Z.max k NDIRECT) n t ∨ (t = Ind p ∧ k ≤ NDIRECT)).
Proof.
  intros HS Ed Hn Hk Hia Hv Hz. pose proof (s_layout _ HS) as HL. pose proof (g_ndirect HG). pose proof (g_maxfile HG).
  unfold trunc_indirect. rewrite !max_spec. rewrite (Z.max_l n NDIRECT) by lia.
  set (a := Z.max k NDIRECT) in *. set (ia := val img (Ind p)) in *.
  destruct (clear_loop p NDIRECT (λ i, a ← get_uint ia (Z.of_nat i); bfree a ;; put_uint ia (Z.of_nat i) 0)
    (Z.to_nat (n - NDIRECT - (a - NDIRECT))) (Z.to_nat (a - NDIRECT)) img) as (i1 & E & HC); [done|lia|lia| | |].
  { intros j Hj. apply Hv. lia. }
  { intros i1 j HS1 Hm Hi Hj Hvj. fold ia in Hi. rewrite <- Hi. apply clear_indirect; [done|by rewrite Hi|lia|done]. }
  replace (NDIRECT + Z.of_nat (Z.to_nat (a - NDIRECT))) with a in HC by lia.
  replace (NDIRECT + Z.of_nat (Z.to_nat (a - NDIRECT) + Z.to_nat (n - NDIRECT - (a - NDIRECT)))) with n in HC by lia.
  assert (∃ d1, inodes i1 !! p = Some d1) as [d1 Ed1] by (apply (same_meta_some _ _ _ (c_meta _ _ _ HC)); eauto).
  assert (val i1 (Ind p) = ia) as Ei1 by (apply (c_kept _ _ _ HC); simpl; tauto).
  erewrite bind_ret by (eapply addr_at_run; eauto; lia). change (addr_of img p NDIRECT) with ia.
  rewrite (proj2 (Z.eqb_neq _ _) Hia). erewrite bind_ret by reflexivity. erewrite bind_ret by exact E.
  destruct (Z.eqb_spec (a - NDIRECT) 0) as [Ea|Ea].
  - destruct (clear_ind i1 p d1) as (i2 & E2 & H2); [apply HC|done|by rewrite Ei1| |].
    { intros j Hj. destruct (decide (j < n)).
      - apply (c_gone _ _ _ HC); simpl; [|split; [done|]]; lia.
      - rewrite (c_kept _ _ _ HC) by (simpl; lia). apply Hz. lia. }
    rewrite Ei1 in E2. exists i2. split; [done|].
    eapply cleared_weaken; [|exact (cleared_trans _ _ _ _ _ HC H2)]. intros t. split; [|tauto].
    intros [?| ->]; [by left|right]. split; [done|lia].
  - exists i1. split; [done|]. eapply cleared_weaken; [|exact HC]. intros t. split; [tauto|].
    intros [?|[_ ?]]; [done|lia].
Qed.

(** ** The shrinking half *)

Lemma cleared_rep img img' F p k (S : slot → Prop) :
  rep img F → is_Some (inodes img !! p) → 0 ≤ k ≤ Z.of_nat (length (F p)) →
  cleared img img' S →
  (∀ t, S t → (∃ j, t = Data p j ∧ k ≤ j) ∨ (t = Ind p ∧ k ≤ NDIRECT)) →
  (∀ j, k ≤ j < Z.of_nat (length (F p)) → S (Data p j)) →
  rep img' (upd F p (take (Z.to_nat k) (F p))).
Proof.
  intros [HS HB] Hp Hk HC HS1 HS2. split; [apply HC|].
  assert (∀ q, is_Some (inodes img' !! q) → is_Some (inodes img !! q)) as Hsome
    by (intros q; apply (same_meta_some _ _ _ (c_meta _ _ _ HC))).
  split.
  - intros q Hq%Hsome. destruct (decide (q = p)) as [->|]; [rewrite upd_eq, length_take|rewrite upd_ne by done];
      pose proof (b_len _ _ HB _ Hq); lia.
  - intros q j l Hq%Hsome Hj Hl.
    assert (F q !! Z.to_nat j = Some l ∧ (q = p → j < k)) as [Hl' Hjk].
    { destruct (decide (q = p)) as [->|]; [rewrite upd_eq in Hl|by rewrite upd_ne in Hl].
      apply lookup_take_Some in Hl as [? ?]. split; [done|lia]. }
    destruct (slot_range img F q j l (conj HS HB) Hq Hj Hl') as (Hok & _).
    assert (¬ S (Data q j)) as Hn by (intros [(j' & [= -> ->] & ?)|[? _]]%HS1; [specialize (Hjk eq_refl); lia|done]).
    destruct (b_data _ _ HB q j l Hq Hj Hl') as [Hv Hb]. rewrite (c_kept _ _ _ HC) by done. split; [done|].
    by rewrite (c_data _ _ _ HC).
  - intros q j Hq%Hsome Hj Hl. destruct (decide (q = p ∧ k ≤ j < Z.of_nat (length (F p)))) as [[-> ?]|Hne].
    + apply (c_gone _ _ _ HC); auto.
    + assert (val img (Data q j) = 0) as Hz.
      { apply (b_hole _ _ HB); [done..|]. destruct (decide (q = p)) as [->|]; [rewrite upd_eq in Hl|by rewrite upd_ne in Hl].
        apply lookup_ge_None in Hl. rewrite length_take in Hl. apply lookup_ge_None. assert (¬ (k ≤ j < Z.of_nat (length (F p)))) by tauto. lia. }
      destruct (decide (val img' (Data q j) = 0)) as [|Hv]; [done|].
      assert (¬ S (Data q j)) as Hn by (intros HSj; by apply Hv, (c_gone _ _ _ HC)).
      by rewrite (c_kept _ _ _ HC).
  - intros q Hq%Hsome Hl. assert (¬ S (Ind q)) as Hn.
    { intros [(? & [=] & _)|[[= ->] ?]]%HS1. rewrite upd_eq, length_take in Hl. lia. }
    rewrite (c_kept _ _ _ HC) by done. apply (b_ind _ _ HB); [done|].
    destruct (decide (q = p)) as [->|]; [rewrite upd_eq, length_take in Hl; lia|by rewrite upd_ne in Hl].
Qed.

Lemma min_spec x : Fs.min x NDIRECT = Z.min x NDIRECT.
Proof. unfold Fs.min. destruct (Z.ltb_spec x NDIRECT); lia. Qed.

Lemma shrink_run img F p d k :
  rep img F → inodes img !! p = Some d → 0 ≤ k ≤ Z.of_nat (length (F p)) →
  let n := Z.of_nat (length (F p)) in
  ∃ img', (trunc_direct p (Fs.min k NDIRECT) (Fs.min n NDIRECT) ;;
           if NDIRECT <? n then trunc_indirect p n k else mret tt) img = Ret tt img' ∧
    rep img' (upd F p (take (Z.to_nat k) (F p))) ∧ same_meta img img' ∧
    (∀ q, q ≠ p → val img' (Ind q) = val img (Ind q)) ∧
    (k ≤ NDIRECT → n ≤ NDIRECT ∧ val img' (Ind p) = val img (Ind p) ∨ val img' (Ind p) = 0) ∧ spent img 0 img'.
Proof.
  intros HR Ed Hk n. pose proof HR as [HS HB]. assert (is_Some (inodes img !! p)) as Hp by eauto.
  pose proof (b_len _ _ HB p Hp) as Hlen. fold n in Hlen, Hk. pose proof (g_ndirect HG). rewrite !min_spec.
  assert (∀ j, 0 ≤ j < n → val img (Data p j) ≠ 0) as Hv.
  { intros j Hj. destruct (lookup_lt_is_Some_2 (F p) (Z.to_nat j)) as [l Hl]; [lia|].
    by apply (b_data _ _ HB p j l Hp); [lia|]. }
  assert (∀ j, n ≤ j < MAXFILE → val img (Data p j) = 0) as Hz.
  { intros j Hj. apply (b_hole _ _ HB); [done|lia|]. apply lookup_ge_None. lia. }
  destruct (trunc_direct_run img p d (Z.min k NDIRECT) (Z.min n NDIRECT)) as (i1 & E1 & H1); [done|done|lia|lia| |].
  { intros j Hj. apply Hv. lia. }
  destruct (Z.ltb_spec NDIRECT n) as [Hn|Hn].
  - assert (∃ d1, inodes i1 !! p = Some d1) as [d1 Ed1] by (by apply (same_meta_some _ _ _ (c_meta _ _ _ H1))).
    assert (∀ j, NDIRECT ≤ j < MAXFILE → val i1 (Data p j) = val img (Data p j)) as Ekeep
      by (intros j Hj; apply (c_kept _ _ _ H1); simpl; lia).
    destruct (trunc_indirect_run i1 p d1 n k) as (i2 & E2 & H2); [apply H1|done|lia|lia| | | |].
    { rewrite (c_kept _ _ _ H1) by (simpl; tauto). by apply (b_ind _ _ HB). }
    { intros j Hj. rewrite Ekeep by lia. apply Hv. lia. }
    { intros j Hj. rewrite Ekeep by lia. by apply Hz. }
    exists i2. split; [by erewrite bind_ret by exact E1|].
    assert (∀ t, Decision (in_range p (Z.max k NDIRECT) n t ∨ t = Ind p ∧ k ≤ NDIRECT)) by (intros; apply _).
    pose proof (cleared_trans _ _ _ _ _ H1 H2) as HC.
    split_and!; [|apply HC|intros q Hq; apply (c_kept _ _ _ HC); simpl; intuition congruence
                |intros Hkn; right; apply (c_gone _ _ _ HC); simpl; auto|apply HC].
    eapply (cleared_rep img i2 F p k); [done..| |].
    + intros t [Ht|[Ht|Ht]]; destruct t as [q j|q]; simpl in Ht; try done.
      * destruct Ht as [-> ?]. left. exists j. split; [done|lia].
      * destruct Ht as [-> ?]. left. exists j. split; [done|lia].
      * by destruct Ht.
      * by right.
    + intros j Hj. simpl. fold n in Hj. destruct (decide (j < NDIRECT)); [left|right; left]; split; done || lia.
  - exists i1. split; [by erewrite bind_ret by exact E1|].
    split_and!; [|apply H1|intros q Hq; apply (c_kept _ _ _ H1); simpl; tauto
                |intros Hkn; left; split; [done|]; apply (c_kept _ _ _ H1); simpl; tauto|apply H1].
    eapply (cleared_rep img i1 F p k); [done..| |].
    + intros [q j|q] Ht; simpl in Ht; [|done]. destruct Ht as [-> ?]. left. exists j. split; [done|lia].
    + intros j Hj. simpl. fold n in Hj. split; [done|lia].
Qed.

(** ** itruncate *)

Lemma take_blocks (ls : list (list Z)) n k : Forall (λ l, length l = Z.to_nat BSIZE) ls →
  0 ≤ n → 0 ≤ k ≤ Z.of_nat (length ls) → n ≤ k * BSIZE →
  take (Z.to_nat n) (concat (take (Z.to_nat k) ls)) = take (Z.to_nat n) (concat ls).
Proof.
  intros HF Hn Hk Hnk. rewrite <- (take_drop (Z.to_nat k) ls) at 2. rewrite concat_app, take_app_le; [done|].
  rewrite (length_blocks (Z.to_nat BSIZE)) by (by apply Forall_take). rewrite length_take. pose proof (g_bsize HG). nia.
Qed.

(** Shrinking frees the blocks behind the new end; it cannot fail. *)
Lemma itruncate_shrink img p d size :
  fs_ok img → inodes img !! p = Some d → d_type d ≠ T_DEV → 0 ≤ size < d_size d →
  runs 0 (itruncate p size) img (λ r img', r = 0 ∧ file_set img p (take (Z.to_nat size) (content img p)) img').
Proof.
  intros Hok Ed Ht Hs. destruct (size_bound HG _ _ _ Hok Ed) as [Hsz HM]. pose proof Hok as (HR & _ & Hex).
  pose proof (blocks_of_length HG img p d Ed ltac:(lia)) as Hl.
  pose proof (divceil_bounds HG size ltac:(lia)) as Hb. pose proof (divceil_mono HG size (d_size d) ltac:(lia)) as Hm.
  destruct (shrink_run img (blocks_of img) p d (divceil size BSIZE)) as (i1 & E1 & HR1 & Hm1 & Hq1 & Hp1 & Hsp); [done|done|lia|].
  destruct (file_set_intro HG img i1 p d _ size Hok Ed Hm1 HR1) as (d1 & Ed1 & HF & _);
    [lia|rewrite length_take; lia|done|rewrite length_take; intros Hle|].
  { destruct Hp1 as [[? ->]| ->]; [lia| |done]. apply Hex; [eauto|lia]. }
  rewrite take_blocks in HF by (lia || apply (rep_blocks img); eauto).
  apply (runs_ret _ _ _ 0 (with_inode i1 p (set_size size d1))).
  - unfold itruncate. erewrite bind_ret by (by apply inode_run). rewrite (proj2 (Z.eqb_neq _ _) Ht).
    rewrite (proj2 (Z.ltb_ge MAXFILESIZE size)) by lia. rewrite (proj2 (Z.ltb_lt size _)) by lia.
    rewrite !s32_id by lia. rewrite <- Hl in *. cbv zeta. erewrite bind_ret by exact E1.
    erewrite bind_ret by (by apply upd_inode_run). done.
  - eapply (spent_trans _ 0 _ 0); [exact Hsp|by apply spent_blks].
  - split; [done|]. unfold content. rewrite Ed, take_take. by rewrite Nat.min_l by lia.
Qed.

Lemma itruncate_runs img p d size :
  fs_ok img → inodes img !! p = Some d → 0 ≤ size →
  if decide (d_type d = T_DEV ∨ MAXFILESIZE < size) then itruncate p size img = Ret (-1) img
  else runs (grow (length (blocks_of img p)) size) (itruncate p size) img (λ r img',
    r = 0 ∧ file_set img p (resize (Z.to_nat size) 0 (content img p)) img').
Proof.
  intros Hok Ed Hs. destruct (size_bound HG _ _ _ Hok Ed) as [Hsz HM].
  pose proof (content_length HG img p d Hok Ed) as Hcl.
  destruct (decide _) as [Hg|Hg].
  { unfold itruncate. erewrite bind_ret by (by apply inode_run).
    destruct (Z.eqb_spec (d_type d) T_DEV); [done|]. rewrite (proj2 (Z.ltb_lt MAXFILESIZE size)) by lia. done. }
  destruct (decide (size < d_size d)) as [Hlt|Hge].
  { eapply runs_mono; [apply Nat.le_0_l|apply (itruncate_shrink img p d size); [done|done|tauto|lia]|].
    intros r img' [-> HF]. by rewrite resize_le by lia. }
  unfold itruncate. eapply runs_read; [by apply inode_run|]. rewrite (proj2 (Z.eqb_neq _ _)) by tauto.
  rewrite (proj2 (Z.ltb_ge MAXFILESIZE size)) by lia. rewrite (proj2 (Z.ltb_ge size _)) by lia. cbv zeta.
  rewrite s32_id, u32_id by lia. pose proof Hok as (HR & _ & Hex). pose proof (blocks_of_length HG img p d Ed ltac:(lia)) as Hl.
  pose proof (divceil_bounds HG (d_size d) ltac:(lia)) as Hb.
  replace (grow _ size) with (grow (length (blocks_of img p)) (d_size d + (size - d_size d - 0))) by (f_equal; lia).
  eapply runs_before; [eapply (fill_loop_runs HG img (blocks_of img) p d); eauto; lia|].
  intros _ i1 (ls & HR1 & Hm1 & Hl1 & Hq1 & z & Hz & Ec). rewrite length_replicate, Z.sub_0_r in *.
  replace (d_size d + Z.of_nat (Z.to_nat (size - d_size d))) with size in * by lia.
  destruct (file_set_intro HG img i1 p d ls size Hok Ed Hm1 HR1) as (d1 & Ed1 & HF & _);
    [lia| |by auto|intros Hle; rewrite Hq1 by auto; apply Hex; [eauto|lia]|].
  { rewrite Hl1, Hl. pose proof (divceil_mono HG (d_size d) size ltac:(lia)). lia. }
  eapply runs_step; [by apply upd_inode_run|by apply spent_blks|]. eapply runs_ret; [reflexivity|apply spent_refl|]. split; [done|].
  assert (take (Z.to_nat size) (concat ls) = resize (Z.to_nat size) 0 (content img p)) as <-; [|done].
  rewrite Ec. pose proof (take_store (concat (blocks_of img p)) z (d_size d) (replicate (Z.to_nat (size - d_size d)) 0) (d_size d)) as Et.
  rewrite length_replicate in Et.
  replace (Z.max (d_size d) (d_size d + Z.of_nat (Z.to_nat (size - d_size d)))) with size in Et by lia. rewrite Et.
  - rewrite resize_ge by lia. unfold content at 1. rewrite Ed. fold (content img p).
    unfold store. rewrite take_take, drop_ge by (rewrite length_take; lia). rewrite app_nil_r, Nat.min_id.
    unfold content. rewrite Ed. do 2 f_equal. unfold content in Hcl. rewrite Ed in Hcl. lia.
  - lia.
  - rewrite (length_blocks (Z.to_nat BSIZE)) by (apply (rep_blocks img); eauto). pose proof (g_bsize HG). nia.
  - lia.
Qed.

(** C23. itruncate cuts the file or fills it with zeros up to the size, keeps every other file
    and the invariant, and cannot fail when the file does not grow. *)
Theorem itruncate_correct img p d size :
  fs_ok img → inodes img !! p = Some d → 0 ≤ size → room img (grow (length (blocks_of img p)) size) →
  if decide (d_type d = T_DEV ∨ MAXFILESIZE < size) then itruncate p size img = Ret (-1) img
  else ∃ img', itruncate p size img = Ret 0 img' ∧ file_set img p (resize (Z.to_nat size) 0 (content img p)) img'.
Proof.
  intros Hok Ed Hs Hr. pose proof (itruncate_runs img p d size Hok Ed Hs) as Ht.
  destruct (decide _); [done|]. apply runs_returns in Ht as (r & img' & E & -> & HF); eauto.
Qed.

End trunc.
