(* ===== verification/FsDir.v ===== *)
(** * Directories of an image (tools/libfs.c)

    A directory is a file of entries.  dlookup is a search in the list of entries read
    off the contents, daddent changes one entry; path names are lists of names and
    ilookup walks along them. *)

From stdpp Require Import base gmap list numbers option.
From Stdlib Require Import Lia ZArith.
From S2P Require Import Prelude Fs FsBlocks FsFile FsRw FsTrunc.

#[local] Open Scope Z_scope.
#[local] Open Scope yaos_scope.

(** ** Names *)

(** The characters [strncmp] and [strncpy] look at: up to the NUL, at most [n]. *)
Fixpoint cname (n : nat) (a : list Z) : list Z :=
  match n, a with
  | S n, x :: a => if x =? 0 then [] else x :: cname n a
  | _, _ => []
  end.

Lemma strncmp_cname n : ∀ a b, strncmp n a b = 0 ↔ cname n a = cname n b.
Proof.
  induction n as [|n IH]; intros a b; [done|].
  destruct a as [|x a], b as [|y b]; cbn [strncmp cname head tail from_option]; unfold id.
  - done.
  - rewrite (Z.eqb_sym 0 y). destruct (Z.eqb_spec y 0); cbn [negb]; [done|]. split; [lia|done].
  - destruct (Z.eqb_spec x 0); cbn [negb]; [by subst|]. split; [lia|done].
  - destruct (Z.eqb_spec x y) as [->|Hne]; cbn [negb].
    + destruct (Z.eqb_spec y 0); [done|]. rewrite IH. split; [by intros ->|by intros [=]].
    + destruct (Z.eqb_spec x 0), (Z.eqb_spec y 0); split; (lia || congruence || done).
Qed.

Lemma cname_pad n m a : (n ≤ m)%nat → cname n (take m (a ++ replicate m 0)) = cname n a.
Proof.
  revert m a. induction n as [|n IH]; intros m a Hm; [done|]. destruct m as [|m]; [lia|].
  destruct a as [|x a]; simpl; [done|]. destruct (x =? 0); [done|]. f_equal.
  rewrite <- (IH m a) by lia. rewrite (replicate_cons_app m 0), app_assoc, take_app_le; [done|].
  rewrite length_app, length_replicate. lia.
Qed.

(** What fs.h's [struct dirent] provides: the bytes of an entry determine it, and zero
    bytes are the entry with number 0 and the empty name. *)
Record dirent_laws {G : FsGeom} : Prop := {
  dl_dirsiz : 2 ≤ DIRSIZ;
  dl_size : ∀ de, length (de_name de) = Z.to_nat DIRSIZ → length (bytes_of de) = Z.to_nat sizeof_dirent;
  dl_round : ∀ de, 0 ≤ de_inum de < 2 ^ 16 → length (de_name de) = Z.to_nat DIRSIZ → dirent_of (bytes_of de) = de;
  dl_zero : dirent_of (replicate (Z.to_nat sizeof_dirent) 0) = mk_dirent 0 (replicate (Z.to_nat DIRSIZ) 0)
}.
Arguments dirent_laws : clear implicits.

Section dir.
Context {G : FsGeom} (HG : geom_ok G) (HD : dirent_laws G).

Definition name_of (a : list Z) : list Z := cname (Z.to_nat DIRSIZ) a.

Lemma same_name_spec a b : same_name a b = bool_decide (name_of a = name_of b).
Proof.
  unfold same_name, name_of. destruct (Z.eqb_spec (strncmp (Z.to_nat DIRSIZ) a b) 0) as [E|E].
  - symmetry. apply bool_decide_true. by apply strncmp_cname.
  - symmetry. apply bool_decide_false. by rewrite <- strncmp_cname.
Qed.

Lemma name_of_strncpy a : name_of (strncpy a DIRSIZ) = name_of a.
Proof. by apply cname_pad. Qed.

Lemma strncpy_length a n : length (strncpy a n) = Z.to_nat n.
Proof. unfold strncpy. rewrite length_take, length_app, length_replicate. lia. Qed.

(** ** Entries *)

Definition entry (c : list Z) (i : nat) : dirent :=
  dirent_of (slice c (Z.of_nat i * sizeof_dirent) sizeof_dirent).
Definition entries (c : list Z) : list dirent :=
  map (entry c) (seq 0 (Z.to_nat (Z.of_nat (length c) / sizeof_dirent))).

Lemma entries_lookup c i :
  entries c !! i = if decide (Z.of_nat i < Z.of_nat (length c) / sizeof_dirent) then Some (entry c i) else None.
Proof.
  unfold entries. pose proof (g_dirent HG). assert (0 ≤ Z.of_nat (length c) / sizeof_dirent) by (apply Z.div_pos; lia).
  destruct (decide _).
  - rewrite list_lookup_fmap, lookup_seq_lt by lia. done.
  - apply lookup_ge_None. rewrite length_map, length_seq. lia.
Qed.

Lemma entries_length c : length (entries c) = Z.to_nat (Z.of_nat (length c) / sizeof_dirent).
Proof. unfold entries. by rewrite length_map, length_seq. Qed.

Lemma entries_nil : entries [] = [].
Proof. unfold entries. cbn [length Z.of_nat]. pose proof (g_dirent HG). by rewrite Z.div_0_l by lia. Qed.

(** A directory: a multiple of entries, and free entries have the empty name. *)
Record dir_ok (img : image) (dp : inode_t) (d : dinode) : Prop := {
  dir_inode : inodes img !! dp = Some d;
  dir_type : d_type d = T_DIR;
  dir_whole : d_size d mod sizeof_dirent = 0;
  dir_free : ∀ de, de ∈ entries (content img dp) → de_inum de = 0 → name_of (de_name de) = []
}.

Definition dir (img : image) (dp : inode_t) : list dirent := entries (content img dp).

(** The first entry with a name. *)
Definition find_name (es : list dirent) (name : list Z) : option (nat * dirent) :=
  list_find (λ de, name_of name = name_of (de_name de)) es.

Lemma read_entry_at img dp d buf i :
  fs_ok img → dir_ok img dp d → length buf = Z.to_nat sizeof_dirent → (i < length (dir img dp))%nat →
  Z.of_nat i * sizeof_dirent < d_size d ∧
  iread dp buf sizeof_dirent (Z.of_nat i * sizeof_dirent) img =
    Ret (slice (content img dp) (Z.of_nat i * sizeof_dirent) sizeof_dirent, sizeof_dirent) img ∧
  length (slice (content img dp) (Z.of_nat i * sizeof_dirent) sizeof_dirent) = Z.to_nat sizeof_dirent.
Proof.
  intros Hok [Ed Ht Hw _] Hb Hi. unfold dir in Hi. rewrite entries_length in Hi. pose proof (g_dirent HG) as Hsz.
  pose proof (content_length HG img dp d Hok Ed) as Hc. rewrite Hc in Hi. destruct (size_bound HG _ _ _ Hok Ed) as [Hs HM].
  assert (d_size d = sizeof_dirent * (d_size d / sizeof_dirent)) as Hdm by (apply Z.div_exact; lia).
  assert (Z.of_nat i * sizeof_dirent + sizeof_dirent ≤ d_size d) as Hle by nia.
  assert (length (slice (content img dp) (Z.of_nat i * sizeof_dirent) sizeof_dirent) = Z.to_nat sizeof_dirent) as Hl
    by (apply length_slice, inside_spec; lia).
  split_and!; [lia| |done].
  rewrite (iread_run HG img dp d) by (done || lia).
  rewrite decide_False by (rewrite Ht; unfold T_DIR, T_DEV; lia). cbv zeta. rewrite Z.min_l by lia.
  do 2 f_equal. apply store_all. lia.
Qed.

Lemma dir_end img dp d i : fs_ok img → dir_ok img dp d → (length (dir img dp) ≤ i)%nat →
  d_size d ≤ Z.of_nat i * sizeof_dirent.
Proof.
  intros Hok [Ed Ht Hw _] Hi. unfold dir in Hi. rewrite entries_length in Hi. pose proof (g_dirent HG).
  rewrite (content_length HG img dp d Hok Ed) in Hi. assert (d_size d = sizeof_dirent * (d_size d / sizeof_dirent)) by (apply Z.div_exact; lia).
  nia.
Qed.

Lemma dir_offset img dp d i : fs_ok img → dir_ok img dp d → (i ≤ length (dir img dp))%nat →
  0 ≤ Z.of_nat i * sizeof_dirent ≤ d_size d ∧ Z.of_nat i * sizeof_dirent < 2 ^ 31.
Proof.
  intros Hok [Ed Ht Hw _] Hi. unfold dir in Hi. rewrite entries_length in Hi. pose proof (g_dirent HG).
  rewrite (content_length HG img dp d Hok Ed) in Hi. assert (d_size d = sizeof_dirent * (d_size d / sizeof_dirent)) by (apply Z.div_exact; lia).
  destruct (size_bound HG _ _ _ Hok Ed). assert (0 ≤ d_size d / sizeof_dirent) by (apply Z.div_pos; lia). nia.
Qed.

(** ** dlookup *)

Definition found (sb : superblock) (r : option (nat * dirent)) : option inode_t * option Z :=
  match r with
  | Some (i, de) => (iget sb (de_inum de), Some (Z.of_nat i * sizeof_dirent))
  | None => (None, None)
  end.

Lemma dlookup_loop_run img dp d name : fs_ok img → dir_ok img dp d → ∀ es fuel buf i,
  drop i (dir img dp) = es → (i ≤ length (dir img dp))%nat → (length es < fuel ∨ Z.to_nat (d_size d) ≤ fuel + i * Z.to_nat sizeof_dirent)%nat →
  length buf = Z.to_nat sizeof_dirent →
  dlookup_loop fuel dp name buf (Z.of_nat i * sizeof_dirent) img =
    Ret (found (sblk img) (prod_map (λ j, (i + j)%nat) id <$> find_name es name)) img.
Proof.
  intros Hok Hdir. pose proof (g_dirent HG) as Hsz. induction es as [|e es IH]; intros fuel buf i Hes Hi Hf Hb.
  - assert (d_size d ≤ Z.of_nat i * sizeof_dirent) as He.
    { eapply dir_end; [done..|]. apply (f_equal length) in Hes. rewrite length_drop in Hes. simpl in Hes. lia. }
    destruct fuel; simpl; erewrite bind_ret by (apply inode_run, Hdir); by rewrite (proj2 (Z.ltb_ge _ _)) by lia.
  - assert (i < length (dir img dp))%nat as Hlt by (apply (f_equal length) in Hes; rewrite length_drop in Hes; simpl in Hes; lia).
    destruct (read_entry_at img dp d buf i Hok Hdir Hb Hlt) as (Hin & Er & Hlen).
    destruct (dir_offset img dp d (S i) Hok Hdir Hlt) as [Ho1 Ho2].
    destruct fuel as [|fuel]; [exfalso; nia|]. cbn [dlookup_loop]. erewrite bind_ret by (apply inode_run, Hdir).
    rewrite (proj2 (Z.ltb_lt _ _)) by lia. erewrite bind_ret by exact Er. cbv beta iota. rewrite Z.eqb_refl. cbn [negb].
    assert (dirent_of (slice (content img dp) (Z.of_nat i * sizeof_dirent) sizeof_dirent) = e) as ->.
    { assert (dir img dp !! i = Some e) as He by (rewrite <- (Nat.add_0_r i), <- lookup_drop, Hes; done).
      unfold dir in He. rewrite entries_lookup in He. destruct (decide _); by simplify_eq. }
    rewrite same_name_spec. unfold find_name. cbn [list_find].
    destruct (decide (name_of name = name_of (de_name e))) as [E|E].
    + rewrite bool_decide_true by done. erewrite bind_ret by reflexivity. simpl. by rewrite Nat.add_0_r.
    + rewrite bool_decide_false by done. rewrite u32_id by lia.
      replace (Z.of_nat i * sizeof_dirent + sizeof_dirent) with (Z.of_nat (S i) * sizeof_dirent) by lia.
      rewrite IH; [|by rewrite <- Nat.add_1_r, <- drop_drop, Hes|lia|simpl in Hf; nia|done].
      unfold find_name. destruct (list_find _ es) as [[j de]|]; simpl; [|done]. do 3 f_equal. lia.
Qed.

Lemma dlookup_run img dp d name : fs_ok img → dir_ok img dp d →
  dlookup dp name img = Ret (found (sblk img) (find_name (dir img dp) name)) img.
Proof.
  intros Hok Hdir. unfold dlookup. erewrite bind_ret by (apply inode_run, Hdir).
  rewrite (dir_type _ _ _ Hdir). erewrite bind_ret by reflexivity.
  pose proof (dlookup_loop_run img dp d name Hok Hdir (dir img dp) (Z.to_nat (d_size d)) (uninit sizeof_dirent) 0) as E.
  rewrite Z.mul_0_l in E. rewrite E; [|done|lia|lia|apply (g_uninit HG)].
  by destruct (find_name (dir img dp) name) as [[j de]|].
Qed.

(** ** daddent *)

(** The entry daddent takes; [None] when the name is met before. *)
Fixpoint free_slot (es : list dirent) (name : list Z) (i : nat) : option nat :=
  match es with
  | [] => Some i
  | de :: es =>
      if de_inum de =? 0 then Some i else
      if bool_decide (name_of (de_name de) = name_of name) then None else free_slot es name (S i)
  end.

Definition put_entry (es : list dirent) (i : nat) (de : dirent) : list dirent :=
  take i es ++ de :: drop (S i) es.

Lemma find_slot_run img dp d name : fs_ok img → dir_ok img dp d → ∀ es fuel buf i,
  drop i (dir img dp) = es → (i ≤ length (dir img dp))%nat → (Z.to_nat (d_size d) ≤ fuel + i * Z.to_nat sizeof_dirent)%nat →
  length buf = Z.to_nat sizeof_dirent →
  find_slot fuel dp name buf (Z.of_nat i * sizeof_dirent) img =
    Ret ((λ j, Z.of_nat j * sizeof_dirent) <$> free_slot es name i) img.
Proof.
  intros Hok Hdir. pose proof (g_dirent HG) as Hsz. induction es as [|e es IH]; intros fuel buf i Hes Hi Hf Hb.
  - assert (d_size d ≤ Z.of_nat i * sizeof_dirent) as He.
    { eapply dir_end; [done..|]. apply (f_equal length) in Hes. rewrite length_drop in Hes. simpl in Hes. lia. }
    destruct fuel; simpl; erewrite bind_ret by (apply inode_run, Hdir); by rewrite (proj2 (Z.ltb_ge _ _)) by lia.
  - assert (i < length (dir img dp))%nat as Hlt by (apply (f_equal length) in Hes; rewrite length_drop in Hes; simpl in Hes; lia).
    destruct (read_entry_at img dp d buf i Hok Hdir Hb Hlt) as (Hin & Er & Hlen).
    destruct (dir_offset img dp d (S i) Hok Hdir Hlt) as [Ho1 Ho2].
    destruct fuel as [|fuel]; [exfalso; nia|]. cbn [find_slot]. erewrite bind_ret by (apply inode_run, Hdir).
    rewrite (proj2 (Z.ltb_lt _ _)) by lia. erewrite bind_ret by exact Er. cbv beta iota. rewrite Z.eqb_refl. cbn [negb].
    assert (dirent_of (slice (content img dp) (Z.of_nat i * sizeof_dirent) sizeof_dirent) = e) as ->.
    { assert (dir img dp !! i = Some e) as He by (rewrite <- (Nat.add_0_r i), <- lookup_drop, Hes; done).
      unfold dir in He. rewrite entries_lookup in He. destruct (decide _); by simplify_eq. }
    cbn [free_slot]. destruct (de_inum e =? 0); [done|]. rewrite same_name_spec.
    destruct (bool_decide _); [done|]. rewrite u32_id by lia.
    replace (Z.of_nat i * sizeof_dirent + sizeof_dirent) with (Z.of_nat (S i) * sizeof_dirent) by lia.
    apply IH; [by rewrite <- Nat.add_1_r, <- drop_drop, Hes|lia|nia|done].
Qed.

Lemma slice_store_at l off bs : 0 ≤ off ≤ Z.of_nat (length l) →
  slice (store l off bs) off (Z.of_nat (length bs)) = bs.
Proof.
  intros Ho. unfold slice, store. rewrite drop_app_ge by (rewrite length_take; lia). rewrite length_take.
  replace (Z.to_nat off - Z.to_nat off `min` length l)%nat with 0%nat by lia. rewrite drop_0, Nat2Z.id.
  by rewrite take_app_length.
Qed.

Lemma length_store_ext l off bs : 0 ≤ off ≤ Z.of_nat (length l) →
  Z.of_nat (length (store l off bs)) = Z.max (Z.of_nat (length l)) (off + Z.of_nat (length bs)).
Proof. intros Ho. unfold store. rewrite !length_app, length_take, length_drop. lia. Qed.

Lemma put_entry_lookup es i de j : (i ≤ length es)%nat →
  put_entry es i de !! j = if decide (j = i) then Some de else es !! j.
Proof.
  intros Hi. unfold put_entry. destruct (decide (j = i)) as [->|Hne].
  - by rewrite lookup_app_r, length_take, Nat.min_l, Nat.sub_diag by (rewrite ?length_take; lia).
  - destruct (decide (j < i)%nat).
    + rewrite lookup_app_l by (rewrite length_take; lia). by rewrite lookup_take_lt.
    + rewrite lookup_app_r by (rewrite length_take; lia). rewrite length_take, Nat.min_l by lia.
      destruct (j - i)%nat as [|m] eqn:E; [lia|]. simpl. rewrite lookup_drop. f_equal. lia.
Qed.

Lemma entries_store c i bs : Z.of_nat (length c) mod sizeof_dirent = 0 → (i ≤ length (entries c))%nat →
  length bs = Z.to_nat sizeof_dirent →
  entries (store c (Z.of_nat i * sizeof_dirent) bs) = put_entry (entries c) i (dirent_of bs).
Proof.
  intros Hw Hi Hb. pose proof (g_dirent HG) as Hsz. rewrite entries_length in Hi.
  assert (Z.of_nat (length c) = sizeof_dirent * (Z.of_nat (length c) / sizeof_dirent)) as Hdm by (apply Z.div_exact; lia).
  set (n := Z.of_nat (length c) / sizeof_dirent) in *. assert (0 ≤ n) by (apply Z.div_pos; lia).
  assert (0 ≤ Z.of_nat i * sizeof_dirent ≤ Z.of_nat (length c)) as Ho by nia.
  assert (Z.of_nat (length (store c (Z.of_nat i * sizeof_dirent) bs)) / sizeof_dirent = Z.max n (Z.of_nat i + 1)) as Hn.
  { rewrite length_store_ext by done. rewrite Hb, Hdm, Z2Nat.id by lia.
    replace (Z.max (sizeof_dirent * n) (Z.of_nat i * sizeof_dirent + sizeof_dirent)) with (Z.max n (Z.of_nat i + 1) * sizeof_dirent) by nia.
    apply Z.div_mul. lia. }
  apply list_eq. intros j. rewrite put_entry_lookup by (rewrite entries_length; lia).
  rewrite !entries_lookup, Hn. fold n. unfold entry. destruct (decide (j = i)) as [->|Hne].
  - rewrite decide_True by lia. do 2 f_equal. rewrite <- (slice_store_at c (Z.of_nat i * sizeof_dirent) bs) at 2 by done.
    rewrite Hb, Z2Nat.id by lia. done.
  - destruct (decide (Z.of_nat j < Z.max n (Z.of_nat i + 1))), (decide (Z.of_nat j < n)); try lia; [|done].
    do 2 f_equal. apply slice_store_other; [done|lia|]. rewrite Hb, Z2Nat.id by lia. nia.
Qed.

(** Changing an inode but for its size and blocks. *)
Lemma fs_ok_meta img p d d' :
  fs_ok img → inodes img !! p = Some d → d_addrs d' = d_addrs d → d_size d' = d_size d →
  fs_ok (with_inode img p d') ∧ ∀ q, content (with_inode img p d') q = content img q.
Proof.
  intros (HR & Hsz & Hex) Ed Ea Es.
  assert (∀ q, (λ e, d_size e) <$> inodes (with_inode img p d') !! q = (λ e, d_size e) <$> inodes img !! q) as Hq.
  { intros q. unfold with_inode. cbn [inodes]. destruct (decide (p = q)) as [<-|].
    - rewrite lookup_insert_eq, Ed. simpl. by rewrite Es.
    - by rewrite lookup_insert_ne. }
  assert (∀ q, blocks_of (with_inode img p d') q = blocks_of img q) as Hb.
  { intros q. unfold blocks_of. specialize (Hq q).
    destruct (inodes (with_inode img p d') !! q) as [e'|], (inodes img !! q) as [e|]; try done.
    simpl in Hq. injection Hq as ->. apply map_ext. intros k. by rewrite (val_with_meta img p d d'). }
  split.
  - split_and!.
    + eapply rep_ext; [|eapply (rep_with_meta img (blocks_of img)); eauto]. done.
    + intros q e He. specialize (Hq q). rewrite He in Hq. destruct (inodes img !! q) as [e0|] eqn:E0; [|done].
      simpl in Hq. injection Hq as ->. by eapply Hsz.
    + intros q Hs. rewrite Hb, (val_with_meta img p d d') by done. apply Hex.
      specialize (Hq q). destruct Hs as [e He]. rewrite He in Hq. destruct (inodes img !! q); [eauto|done].
  - intros q. unfold content. rewrite Hb. specialize (Hq q).
    destruct (inodes (with_inode img p d') !! q), (inodes img !! q); try done. simpl in Hq. by injection Hq as ->.
Qed.

(** The effect of an operation on a directory: its entries are [es], the inode [link]
    has one link more, all else is kept. *)
Definition relink (link : option inode_t) (q : inode_t) (d : dinode) : dinode :=
  if decide (link = Some q) then set_nlink (u16 (d_nlink d + 1)) d else d.

Record dir_set (img : image) (dp : inode_t) (es : list dirent) (link : option inode_t) (img' : image) : Prop := {
  ds_ok : fs_ok img';
  ds_dir : dir img' dp = es;
  ds_sblk : sblk img' = sblk img;
  ds_content : ∀ q, q ≠ dp → content img' q = content img q;
  ds_meta : ∀ q, meta <$> inodes img' !! q =
    (λ d, meta (relink link q (if decide (q = dp) then set_size (Z.of_nat (length (content img' dp))) d else d)))
      <$> inodes img !! q;
  ds_whole : Z.of_nat (length (content img' dp)) mod sizeof_dirent = 0
}.

Lemma meta_relink link q d d' : meta d = meta d' → meta (relink link q d) = meta (relink link q d').
Proof. unfold relink. destruct d, d'. intros [=]. subst. by destruct (decide _). Qed.

Lemma file_set_link img dp c link img1 :
  file_set img dp c img1 → Z.of_nat (length c) mod sizeof_dirent = 0 →
  (∀ q, link = Some q → is_Some (inodes img !! q)) →
  let img2 := match link with
              | Some q => match inodes img1 !! q with
                          | Some d => with_inode img1 q (set_nlink (u16 (d_nlink d + 1)) d)
                          | None => img1
                          end
              | None => img1
              end in
  dir_set img dp (entries c) link img2.
Proof.
  intros [Hok Hsb Hm Hc Ho] Hw Hq img2.
  assert (fs_ok img2 ∧ ∀ q, content img2 q = content img1 q) as [Hok2 Hc2].
  { unfold img2. destruct link as [q|]; [|done]. destruct (inodes img1 !! q) as [d|] eqn:E; [|done].
    eapply fs_ok_meta; [done|exact E|done|done]. }
  split.
  - done.
  - unfold dir. by rewrite Hc2, Hc.
  - transitivity (sblk img1); [|done]. unfold img2. destruct link as [q|]; [|done]. by destruct (inodes img1 !! q).
  - intros q Hne. rewrite Hc2. auto.
  - intros q. rewrite Hc2, Hc. specialize (Hm q).
    transitivity ((λ d, meta (relink link q d)) <$> inodes img1 !! q).
    + unfold img2. destruct link as [r|].
      * destruct (inodes img1 !! r) as [d|] eqn:E.
        -- unfold with_inode. cbn [inodes]. destruct (decide (r = q)) as [->|Hne].
           ++ rewrite lookup_insert_eq, E. unfold relink. simpl. by rewrite decide_True.
           ++ rewrite lookup_insert_ne by done. destruct (inodes img1 !! q) as [e|]; [|done]. simpl. unfold relink.
              by rewrite decide_False by congruence.
        -- destruct (inodes img1 !! q) as [e|] eqn:E2; [|done]. simpl. unfold relink. rewrite decide_False; [done|congruence].
      * done.
    + destruct (inodes img1 !! q) as [e|], (inodes img !! q) as [e0|]; try done.
      simpl in *. apply (inj Some) in Hm. by rewrite (meta_relink link q e _ Hm).
  - by rewrite Hc2, Hc.
Qed.

(** daddent takes the first free entry before which the name does not occur. *)
Lemma dirent_block : sizeof_dirent ≤ BSIZE.
Proof.
  pose proof (g_fill HG). pose proof (g_bsize HG). pose proof (g_dirent HG).
  apply Z.divide_pos_le; [lia|apply Z.mod_divide; lia].
Qed.

Lemma grow_entry img p d off n : inodes img !! p = Some d → 0 ≤ off ≤ d_size d → 0 ≤ n → n ≤ BSIZE →
  (grow (length (blocks_of img p)) (off + n) ≤ 2)%nat.
Proof.
  intros Ed Ho Hn Hb. unfold grow. pose proof (blocks_of_length HG img p d Ed ltac:(lia)) as Hl.
  pose proof (divceil_bounds HG (d_size d) ltac:(lia)) as H1. pose proof (divceil_bounds HG (off + n) ltac:(lia)) as H2.
  pose proof (g_bsize HG).
  assert ((divceil (off + n) BSIZE - 1) * BSIZE < (divceil (d_size d) BSIZE + 1) * BSIZE) as Hlt by lia.
  apply Z.mul_lt_mono_pos_r in Hlt; lia.
Qed.

Lemma daddent_runs img dp d name ip inum :
  fs_ok img → dir_ok img dp d → is_inum (sblk img) inum → ip = inode_ptr inum → is_Some (inodes img !! ip) →
  match free_slot (dir img dp) name 0 with
  | None => daddent dp name ip img = Ret (-1) img
  | Some i =>
      if decide (MAXFILESIZE < Z.of_nat i * sizeof_dirent + sizeof_dirent) then daddent dp name ip img = Ret (-1) img
      else runs 2 (daddent dp name ip) img (λ r img', r = 0 ∧
        dir_set img dp (put_entry (dir img dp) i (mk_dirent inum (strncpy name DIRSIZ)))
          (if decide (name_of name = name_of DOT) then None else Some ip) img')
  end.
Proof.
  intros Hok Hdir Hin -> Hip. pose proof (g_dirent HG) as Hsz. pose proof (l_ninodes _ (s_layout _ (proj1 (proj1 Hok)))) as Hni.
  pose proof (dir_inode _ _ _ Hdir) as Ed. destruct (size_bound HG _ _ _ Hok Ed) as [Hs HM].
  pose proof (content_length HG img dp d Hok Ed) as Hcl.
  assert (find_slot (Z.to_nat (d_size d)) dp name (uninit sizeof_dirent) 0 img =
    Ret ((λ j, Z.of_nat j * sizeof_dirent) <$> free_slot (dir img dp) name 0) img) as Ef.
  { pose proof (find_slot_run img dp d name Hok Hdir (dir img dp) (Z.to_nat (d_size d)) (uninit sizeof_dirent) 0) as E.
    rewrite Z.mul_0_l in E. apply E; [done|lia|lia|apply (g_uninit HG)]. }
  assert (∀ es j i, free_slot es name j = Some i → (j ≤ i ≤ j + length es)%nat) as Hrange.
  { intros es. induction es as [|e es IH]; intros j i; simpl; [intros [= ->]; lia|].
    destruct (de_inum e =? 0); [intros [= ->]; lia|]. destruct (bool_decide _); [done|]. intros E. apply IH in E. lia. }
  destruct (free_slot (dir img dp) name 0) as [i|] eqn:Ei.
  2:{ unfold daddent. erewrite bind_ret by (by apply inode_run). by erewrite bind_ret by exact Ef. }
  apply Hrange in Ei as [_ Hi]. simpl in Hi. destruct (dir_offset img dp d i Hok Hdir Hi) as [Ho1 Ho2].
  set (off := Z.of_nat i * sizeof_dirent) in *.
  set (de := mk_dirent inum (strncpy name DIRSIZ)).
  assert (u16 (geti (sblk img) (inode_ptr inum)) = inum) as Egeti.
  { rewrite (geti_ptr HG img) by (done || apply Hok). apply wrap_id. unfold in_u, is_inum in *. lia. }
  assert (dirent_of (bytes_of de) = de) as Ede.
  { apply (dl_round HD); [simpl; unfold is_inum in Hin; lia|apply strncpy_length]. }
  assert (length (bytes_of de) = Z.to_nat sizeof_dirent) as Hlb by (apply (dl_size HD), strncpy_length).
  assert (sizeof_dirent < 2 ^ 31) as Hsz31.
  { pose proof (g_fill HG) as Hfill. pose proof (g_bsize HG). pose proof (g_maxsize HG). pose proof (g_maxfile HG).
    pose proof (g_ndirect HG). pose proof (g_nindirect HG). assert (0 ≤ BSIZE / 4) by (apply Z.div_pos; lia).
    pose proof dirent_block. nia. }
  pose proof (iwrite_runs HG img dp d (bytes_of de) sizeof_dirent off Hok Ed) as Hw. specialize (Hw ltac:(lia) ltac:(lia) ltac:(lia)).
  pose proof (dir_type _ _ _ Hdir) as Ht. pose proof dirent_block as Hsb.
  assert (grow (length (blocks_of img dp)) (off + sizeof_dirent) ≤ 2)%nat as Hgr.
  { apply (grow_entry img dp d); [done|lia|lia|done]. }
  destruct (decide (MAXFILESIZE < off + sizeof_dirent)) as [Hbig|Hfit].
  - rewrite decide_True in Hw by auto. unfold daddent. erewrite bind_ret by (by apply inode_run).
    erewrite bind_ret by exact Ef. cbn [fmap option_fmap option_map]. erewrite bind_ret by reflexivity.
    cbv zeta. rewrite Egeti. erewrite bind_ret by exact Hw. rewrite (proj2 (Z.eqb_neq (-1) _)) by lia. done.
  - rewrite decide_False in Hw by (rewrite Ht; unfold T_DIR, T_DEV; lia).
    unfold daddent. eapply runs_read; [by apply inode_run|]. eapply runs_read; [exact Ef|].
    cbn [fmap option_fmap option_map]. eapply runs_read; [reflexivity|]. cbv zeta. rewrite Egeti.
    eapply runs_before; [eapply runs_mono; [exact Hgr|exact Hw|intros r i1 H; exact H]|]. intros r i1 [-> HF]. rewrite Z.eqb_refl. cbn [negb].
    rewrite take_ge in HF by lia. set (c := store (content img dp) off (bytes_of de)) in HF.
    assert (entries c = put_entry (dir img dp) i de) as Ec.
    { rewrite <- Ede at 1. apply entries_store; [|done|done]. rewrite Hcl. apply Hdir. }
    assert (Z.of_nat (length c) mod sizeof_dirent = 0) as Hcw.
    { unfold c. rewrite length_store_ext, Hcl, Hlb, Z2Nat.id by lia. pose proof (dir_whole _ _ _ Hdir) as Hw0.
      apply Z.mod_divide in Hw0; [|lia]. apply Z.mod_divide; [lia|].
      destruct (Z.max_spec (d_size d) (off + sizeof_dirent)) as [[_ ->]|[_ ->]]; [|done].
      exists (Z.of_nat i + 1). unfold off. lia. }
    assert (is_Some (inodes i1 !! inode_ptr inum)) as [e He].
    { pose proof (fset_meta _ _ _ _ HF (inode_ptr inum)) as E. destruct Hip as [e0 He0]. rewrite He0 in E.
      destruct (inodes i1 !! inode_ptr inum); [eauto|done]. }
    pose proof (file_set_link img dp c (if decide (name_of name = name_of DOT) then None else Some (inode_ptr inum)) i1 HF Hcw) as HL.
    rewrite Ec in HL. rewrite same_name_spec. destruct (decide (name_of name = name_of DOT)) as [E|E].
    + rewrite bool_decide_true by done. cbn [negb]. eapply runs_read; [reflexivity|]. eapply runs_ret; [reflexivity|apply spent_refl|].
      split; [done|]. by apply HL.
    + rewrite bool_decide_false by done. cbn [negb]. eapply runs_step; [by apply upd_inode_run|by apply spent_blks|].
      eapply runs_ret; [reflexivity|apply spent_refl|]. split; [done|]. rewrite He in HL. apply HL. by intros q [= <-].
Qed.

End dir.
