(* ===== verification/FsTree.v ===== *)
(** * The directory tree of an image (tools/libfs.c)

    [tree_ok] is the invariant of an image with its directories; path names denote
    inodes by [walk].  ilookup is [walk], and a file that icreat made is found under
    its name, while every name found before still is. *)

From stdpp Require Import base gmap list numbers option.
From Stdlib Require Import Lia ZArith.
From S2P Require Import Prelude Fs FsBlocks FsFile FsRw FsTrunc FsDir.

#[local] Open Scope Z_scope.
#[local] Open Scope yaos_scope.

Section tree.
Context {G : FsGeom} (HG : geom_ok G) (HD : dirent_laws G).

Definition is_dir (img : image) (p : inode_t) : bool :=
  match inodes img !! p with Some d => d_type d =? T_DIR | None => false end.

Record tree_ok (img : image) : Prop := {
  t_fs : fs_ok img;
  t_dir : ∀ p d, inodes img !! p = Some d → d_type d = T_DIR → dir_ok img p d;
  t_entry : ∀ p de, is_dir img p = true → de ∈ dir img p → de_inum de ≠ 0 → is_inum (sblk img) (de_inum de);
  t_free : ∀ p d, inodes img !! p = Some d → d_type d = 0 ∨ d_type d = T_DEV → d_size d = 0;
  t_nodup : ∀ p i j x y, is_dir img p = true → dir img p !! i = Some x → dir img p !! j = Some y →
    name_of (de_name x) ≠ [] → name_of (de_name x) = name_of (de_name y) → i = j
}.

(** The inode a name of a directory denotes. *)
Definition dget (img : image) (dp : inode_t) (name : list Z) : option inode_t :=
  (found (sblk img) (find_name (dir img dp) name)).1.

Lemma is_dir_inode img p : is_dir img p = true ↔ ∃ d, inodes img !! p = Some d ∧ d_type d = T_DIR.
Proof.
  unfold is_dir. destruct (inodes img !! p) as [d|]; [|split; [done|by intros (? & ? & _)]].
  rewrite Z.eqb_eq. split; [eauto|]. by intros (? & [= <-] & ?).
Qed.

(** ** Names in a changed directory *)

Lemma find_name_Some es name i de : find_name es name = Some (i, de) ↔
  es !! i = Some de ∧ name_of name = name_of (de_name de) ∧
  ∀ j y, es !! j = Some y → (j < i)%nat → name_of name ≠ name_of (de_name y).
Proof. unfold find_name. rewrite list_find_Some. done. Qed.

Lemma free_slot_spec es name : ∀ k i, free_slot es name k = Some i →
  (k ≤ i ≤ k + length es)%nat ∧
  (∀ j y, es !! j = Some y → (k + j < i)%nat → name_of name ≠ name_of (de_name y)) ∧
  (∀ y, es !! (i - k)%nat = Some y → de_inum y = 0).
Proof.
  induction es as [|e es IH]; intros k i; simpl.
  - intros [= ->]. split; [lia|]. split; [intros j y Hy|intros y Hy]; by rewrite lookup_nil in Hy.
  - destruct (Z.eqb_spec (de_inum e) 0) as [E|E].
    + intros [= ->]. split; [lia|]. split; [intros; lia|]. rewrite Nat.sub_diag. by intros y [= <-].
    + case_bool_decide as Hn; [done|]. intros Hi. destruct (IH _ _ Hi) as (H1 & H2 & H3). split; [lia|]. split.
      * intros [|j] y Hy Hlt; simpl in Hy; [by simplify_eq; intros ?|]. eapply H2; [done|lia].
      * intros y. replace (i - k)%nat with (S (i - S k)) by lia. apply H3.
Qed.

(** A name that is missing leaves an entry for it. *)
Lemma free_slot_exists es name k : find_name es name = None → is_Some (free_slot es name k).
Proof.
  revert k. induction es as [|e es IH]; intros k; simpl; [eauto|]. unfold find_name. simpl.
  destruct (decide _) as [E|E]; [done|]. intros Hf. destruct (de_inum e =? 0); [eauto|].
  rewrite bool_decide_false by congruence. apply IH. unfold find_name. by destruct (list_find _ es).
Qed.

Lemma find_name_put_same es name i de : free_slot es name 0 = Some i → name_of (de_name de) = name_of name →
  find_name (put_entry es i de) name = Some (i, de).
Proof.
  intros (Hi & Hb & _)%free_slot_spec En. apply find_name_Some. simpl in Hi.
  rewrite put_entry_lookup, decide_True by lia. split_and!; [done..|].
  intros j y. rewrite put_entry_lookup by lia. destruct (decide (j = i)); [lia|]. intros Hy Hlt. by eapply Hb.
Qed.

Lemma find_name_put_other es name i de name' : free_slot es name 0 = Some i → name_of (de_name de) = name_of name →
  name_of name' ≠ name_of name → name_of name' ≠ [] →
  (∀ e, e ∈ es → de_inum e = 0 → name_of (de_name e) = []) →
  find_name (put_entry es i de) name' = find_name es name'.
Proof.
  intros (Hi & _ & Hz)%free_slot_spec En Hne Hne0 Hfree. simpl in Hi, Hz. rewrite Nat.sub_0_r in Hz.
  assert (∀ y, es !! i = Some y → name_of name' ≠ name_of (de_name y)) as Hold.
  { intros y Hy. rewrite (Hfree y); [done|by eapply list_elem_of_lookup_2|auto]. }
  apply option_eq. intros [k e]. rewrite !find_name_Some. split.
  - intros (H1 & H2 & H3). rewrite put_entry_lookup in H1 by lia. destruct (decide (k = i)); [simplify_eq; congruence|].
    split_and!; [done..|]. intros j y Hy Hlt. destruct (decide (j = i)) as [->|]; [by apply Hold|].
    apply (H3 j); [|done]. by rewrite put_entry_lookup, decide_False by lia.
  - intros (H1 & H2 & H3). assert (k ≠ i) by (intros ->; by apply (Hold e)).
    rewrite put_entry_lookup, decide_False by lia. split_and!; [done..|].
    intros j y. rewrite put_entry_lookup by lia. destruct (decide (j = i)) as [->|]; [intros [= <-]; congruence|].
    intros Hy Hlt. by apply (H3 j).
Qed.

(** ** Adding an entry to a tree *)

(** Every directory stays one and every name found is still found. *)
Record extends (img img' : image) : Prop := {
  x_sblk : sblk img' = sblk img;
  x_dir : ∀ p, is_dir img p = true → is_dir img' p = true;
  x_get : ∀ p name ip, name_of name ≠ [] → is_dir img p = true → dget img p name = Some ip → dget img' p name = Some ip
}.

Lemma extends_refl img : extends img img.
Proof. done. Qed.

Lemma extends_trans img1 img2 img3 : extends img1 img2 → extends img2 img3 → extends img1 img3.
Proof. intros [H1 H2 H3] [K1 K2 K3]. split; [congruence|eauto|]. intros p name ip Hn Hd Hg. apply K3; [done|by apply H2|by apply H3]. Qed.

Lemma ds_type img dp es link img' q : dir_set img dp es link img' →
  (λ d, d_type d) <$> inodes img' !! q = (λ d, d_type d) <$> inodes img !! q.
Proof.
  intros HS. pose proof (ds_meta _ _ _ _ _ HS q) as E.
  destruct (inodes img' !! q) as [d'|], (inodes img !! q) as [d|]; try done. simpl in *. apply (inj Some) in E.
  f_equal. apply (f_equal d_type) in E. simpl in E. rewrite E. unfold relink. by repeat destruct (decide _).
Qed.

Lemma is_dir_type img img' p :
  (λ d, d_type d) <$> inodes img' !! p = (λ d, d_type d) <$> inodes img !! p → is_dir img' p = is_dir img p.
Proof.
  intros E. unfold is_dir. destruct (inodes img' !! p), (inodes img !! p); try done. simpl in E. by injection E as ->.
Qed.

Lemma elem_put_entry es i de e : (i ≤ length es)%nat → e ∈ put_entry es i de → e = de ∨ e ∈ es.
Proof.
  intros Hi [j Hj]%list_elem_of_lookup. rewrite put_entry_lookup in Hj by done.
  destruct (decide (j = i)); [simplify_eq; by left|]. right. by eapply list_elem_of_lookup_2.
Qed.

(** The entries of a directory replaced. *)
Lemma dir_es_tree img dp es link img' :
  tree_ok img → is_dir img dp = true → dir_set img dp es link img' →
  (∀ de, de ∈ es → de_inum de = 0 → name_of (de_name de) = []) →
  (∀ de, de ∈ es → de_inum de ≠ 0 → is_inum (sblk img) (de_inum de)) →
  (∀ a b x y, es !! a = Some x → es !! b = Some y → name_of (de_name x) ≠ [] → name_of (de_name x) = name_of (de_name y) → a = b) →
  tree_ok img'.
Proof.
  intros HT Hdp HS Hz Hin Hdup. pose proof HT as [Hok Hdir Hent Hfr Hnd]. pose proof HS as [Hok' Ed Esb Ec Em Hw].
  assert (∀ p, is_dir img' p = is_dir img p) as Eis by (intros p; by eapply is_dir_type, ds_type).
  apply is_dir_inode in Hdp as Hdp'. destruct Hdp' as (dd & Edd & Htd).
  assert (∀ p de', p ≠ dp → de' ∈ dir img' p ↔ de' ∈ dir img p) as Eoth by (intros p de' Hp; unfold dir; by rewrite Ec).
  assert (∀ p e', inodes img' !! p = Some e' → ∃ e, inodes img !! p = Some e ∧ d_type e' = d_type e ∧
    d_size e' = if decide (p = dp) then Z.of_nat (length (content img' dp)) else d_size e) as Hback.
  { intros p e' He. specialize (Em p). rewrite He in Em. destruct (inodes img !! p) as [e|]; [|done]. exists e.
    simpl in Em. apply (inj Some) in Em. split_and!; [done|apply (f_equal d_type) in Em|apply (f_equal d_size) in Em];
      simpl in Em; rewrite Em; unfold relink; by repeat destruct (decide _). }
  split; [done|..].
  - intros p e' He Ht. destruct (Hback p e' He) as (e & Ee & Et & Es). rewrite Et in Ht. pose proof (Hdir p e Ee Ht) as [_ _ D3 D4].
    split; [done|congruence|rewrite Es; by destruct (decide (p = dp))|].
    intros x Hx Hx0. destruct (decide (p = dp)) as [->|Hne]; [|apply (Eoth p) in Hx; [auto|done]].
    fold (dir img' dp) in Hx. rewrite Ed in Hx. auto.
  - intros p x. rewrite Eis, Esb. intros Hp Hx Hx0. destruct (decide (p = dp)) as [->|Hne].
    + rewrite Ed in Hx. auto.
    + apply (Eoth p) in Hx; [|done]. by eapply Hent.
  - intros p e' He Ht. destruct (Hback p e' He) as (e & Ee & Et & Es). rewrite Es, Et in *.
    destruct (decide (p = dp)) as [->|]; [|by apply (Hfr p)]. simplify_eq. rewrite Htd in Ht. by destruct Ht.
  - intros p a b x y. rewrite Eis. intros Hp. destruct (decide (p = dp)) as [->|Hne]; [|unfold dir; rewrite Ec by done; by apply Hnd].
    rewrite Ed. apply Hdup.
Qed.

(** An entry of a directory replaced. *)
Lemma dir_put_tree img dp i de link img' :
  tree_ok img → is_dir img dp = true → (i ≤ length (dir img dp))%nat →
  (de_inum de = 0 → name_of (de_name de) = []) → (de_inum de ≠ 0 → is_inum (sblk img) (de_inum de)) →
  (name_of (de_name de) ≠ [] → ∀ j y, j ≠ i → dir img dp !! j = Some y → name_of (de_name y) ≠ name_of (de_name de)) →
  dir_set img dp (put_entry (dir img dp) i de) link img' → tree_ok img'.
Proof.
  intros HT Hdp Hi Hz Hin Hdup HS. pose proof HT as [Hok Hdir Hent Hfr Hnd].
  apply is_dir_inode in Hdp as Hdp'. destruct Hdp' as (dd & Edd & Htd). pose proof (Hdir dp dd Edd Htd) as [_ _ _ D4].
  eapply dir_es_tree; [done..| | |].
  - intros x Hx Hx0. apply elem_put_entry in Hx as [->|Hx]; auto.
  - intros x Hx Hx0. apply elem_put_entry in Hx as [->|Hx]; [auto|by eapply Hent|lia].
  - intros a b x y. rewrite !put_entry_lookup by lia.
    destruct (decide (a = i)) as [->|], (decide (b = i)) as [->|]; intros Hx Hy Hxn E; try done.
    + injection Hx as <-. by destruct (Hdup Hxn b y).
    + injection Hy as <-. destruct (Hdup ltac:(by rewrite <- E) a x); done.
    + by apply (Hnd dp a b x y).
Qed.

Lemma dir_set_tree img dp name i inum link img' :
  tree_ok img → is_dir img dp = true → is_inum (sblk img) inum → name_of name ≠ [] →
  find_name (dir img dp) name = None → free_slot (dir img dp) name 0 = Some i →
  dir_set img dp (put_entry (dir img dp) i (mk_dirent inum (strncpy name DIRSIZ))) link img' →
  tree_ok img' ∧ dget img' dp name = Some (inode_ptr inum) ∧
  (∀ p name', name_of name' ≠ [] → p ≠ dp ∨ name_of name' ≠ name_of name →
     find_name (dir img' p) name' = find_name (dir img p) name') ∧
  (length (dir img' dp) ≤ S (length (dir img dp)))%nat.
Proof.
  intros HT Hdp Hin Hn Hf Hi HS. pose proof HS as [Hok' Ed Esb Ec Em Hw].
  apply is_dir_inode in Hdp as Hdp'. destruct Hdp' as (dd & Edd & Htd).
  pose proof (free_slot_spec _ _ _ _ Hi) as (Hir & _). simpl in Hir. set (de := mk_dirent inum _) in *.
  assert (name_of (de_name de) = name_of name) as Ende by apply name_of_strncpy.
  split_and!.
  - eapply (dir_put_tree img dp i de); try done; [lia|unfold is_inum in Hin; simpl; lia|].
    intros _ j y _ Hy E. rewrite Ende in E. apply list_find_None in Hf. rewrite list.Forall_forall in Hf.
    by apply (Hf y); [eapply list_elem_of_lookup_2|].
  - unfold dget. rewrite Ed, (find_name_put_same _ _ _ _ Hi Ende), Esb. simpl. rewrite iget_spec. by rewrite decide_True.
  - intros p name' Hn' Hc. destruct (decide (p = dp)) as [->|Hne].
    + rewrite Ed. rewrite (find_name_put_other _ _ _ _ _ Hi Ende); [done|by destruct Hc|done|].
      apply (t_dir _ HT dp dd Edd Htd).
    + unfold dir. by rewrite Ec.
  - rewrite Ed. unfold put_entry. rewrite length_app. simpl. rewrite length_take, length_drop. lia.
Qed.

(** The effect of adding an entry for [ip]. *)
Record linked (img : image) (dp : inode_t) (name : list Z) (ip : inode_t) (img' : image) : Prop := {
  lk_tree : tree_ok img';
  lk_sblk : sblk img' = sblk img;
  lk_get : dget img' dp name = Some ip;
  lk_other : ∀ p name', name_of name' ≠ [] → p ≠ dp ∨ name_of name' ≠ name_of name →
    find_name (dir img' p) name' = find_name (dir img p) name';
  lk_len : (length (dir img' dp) ≤ S (length (dir img dp)))%nat;
  lk_type : ∀ q, (λ d, d_type d) <$> inodes img' !! q = (λ d, d_type d) <$> inodes img !! q;
  lk_content : ∀ q, q ≠ dp → content img' q = content img q
}.

Definition has_room (img : image) (dp : inode_t) : Prop :=
  Z.of_nat (length (dir img dp)) * sizeof_dirent + sizeof_dirent ≤ MAXFILESIZE.

Lemma daddent_linked img dp name inum :
  tree_ok img → is_dir img dp = true → is_inum (sblk img) inum → name_of name ≠ [] →
  find_name (dir img dp) name = None → has_room img dp →
  runs 2 (daddent dp name (inode_ptr inum)) img (λ r img', r = 0 ∧ linked img dp name (inode_ptr inum) img').
Proof.
  intros HT Hdp Hin Hn Hf Hroom. pose proof Hdp as (dd & Edd & Htd)%is_dir_inode.
  destruct (free_slot_exists _ _ 0 Hf) as [i Hi]. pose proof (free_slot_spec _ _ _ _ Hi) as (Hir & _). simpl in Hir.
  pose proof (t_fs _ HT) as Hok. assert (is_Some (inodes img !! inode_ptr inum)) as Hip.
  { apply (l_table img); [apply Hok|]. unfold is_inum in Hin. lia. }
  pose proof (daddent_runs HG HD img dp dd name _ inum Hok (t_dir _ HT _ _ Edd Htd) Hin eq_refl Hip) as Hd.
  rewrite Hi in Hd. pose proof (g_dirent HG). unfold has_room in Hroom. rewrite decide_False in Hd by nia.
  eapply runs_mono; [done|exact Hd|]. intros r img' [-> HS]. split; [done|].
  destruct (dir_set_tree img dp name i inum _ img' HT Hdp Hin Hn Hf Hi HS) as (HT' & Hg & Ho & Hl).
  split; try done.
  - apply HS.
  - intros q. by eapply ds_type.
  - apply HS.
Qed.

Lemma linked_extends img dp name ip img' : dget img dp name = None → linked img dp name ip img' → extends img img'.
Proof.
  intros Hg [HT Hs Hget Ho Hl Ht Hc]. split; [done|..].
  - intros p Hp. by rewrite (is_dir_type img img').
  - intros p name' q Hn Hp Hq. unfold dget. rewrite Ho, Hs; [done|done|]. destruct (decide (p = dp)) as [->|]; [right|by left].
    intros E. unfold dget, find_name in *. rewrite E in Hq. by rewrite Hg in Hq.
Qed.

(** ** New inodes *)

Lemma addr_of_fresh img p d' q n : d_addrs d' = replicate (Z.to_nat (NDIRECT + 1)) 0 →
  addr_of (with_inode img p d') q n = if decide (q = p) then 0 else addr_of img q n.
Proof.
  intros Ea. unfold addr_of, with_inode. cbn [inodes]. destruct (decide (q = p)) as [->|].
  - rewrite lookup_insert_eq, Ea. destruct (replicate _ 0 !! Z.to_nat n) as [x|] eqn:E; [|done].
    by apply lookup_replicate in E as [-> _].
  - by rewrite lookup_insert_ne.
Qed.

Lemma fs_ok_fresh img p d d' :
  fs_ok img → inodes img !! p = Some d → d_size d = 0 → d_size d' = 0 →
  d_addrs d' = replicate (Z.to_nat (NDIRECT + 1)) 0 →
  fs_ok (with_inode img p d') ∧ ∀ q, content (with_inode img p d') q = content img q.
Proof.
  intros (HR & Hsz & Hex) Ed Es Es' Ea. pose proof HR as [HS HB]. assert (is_Some (inodes img !! p)) as Hp by eauto.
  assert (blocks_of img p = []) as Eb0 by (unfold blocks_of; by rewrite Ed, Es).
  assert (∀ k, 0 ≤ k < MAXFILE → val img (Data p k) = 0) as Hz.
  { intros k Hk. apply (b_hole _ _ HB); [done..|]. by rewrite Eb0. }
  assert (val img (Ind p) = 0) as Hzi by (apply Hex; [done|rewrite Eb0; pose proof (g_ndirect HG); simpl; lia]).
  assert (∀ t, slot_ok t → val (with_inode img p d') t = val img t) as Ev.
  { intros [q k|q] Ht; cbn [val]; rewrite !addr_of_fresh by done; destruct (decide (q = p)) as [->|]; try done.
    change (0 =? 0) with true. cbv zeta. specialize (Hz k Ht). cbn [val] in Hz. rewrite Hz.
    by destruct (k <? NDIRECT). }
  assert (∀ q, inodes (with_inode img p d') !! q = if decide (q = p) then Some d' else inodes img !! q) as Ei.
  { intros q. unfold with_inode. cbn [inodes]. destruct (decide (q = p)) as [->|]; [by rewrite lookup_insert_eq|by rewrite lookup_insert_ne]. }
  assert (∀ q, is_Some (inodes (with_inode img p d') !! q) → is_Some (inodes img !! q)) as Hsome
    by (intros q; rewrite Ei; destruct (decide (q = p)) as [->|]; done).
  assert (∀ q, blocks_of (with_inode img p d') q = blocks_of img q) as Hb.
  { intros q. unfold blocks_of. rewrite Ei. destruct (decide (q = p)) as [->|Hne].
    - by rewrite Es', Ed, Es.
    - destruct (inodes img !! q) as [e|] eqn:Ee; [|done]. apply map_ext_in. intros k Hk. rewrite Ev; [done|].
      apply list_elem_of_In, elem_of_seqZ in Hk. simpl. pose proof (Hsz q e Ee).
      pose proof (divceil_max HG (d_size e)). lia. }
  split; [split_and!|].
  - split.
    + apply (slots_same img); try done. eapply with_inode_layout; [apply HS|done|]. by rewrite Ea, length_replicate.
    + destruct HB as [H1 H2 H3 H4]. split; intros q; rewrite Hb.
      * intros Hq. auto.
      * intros k l Hq Hk Hl. rewrite Ev; [by apply H2; auto|]. simpl. apply lookup_lt_Some in Hl.
        pose proof (H1 q (Hsome q Hq)). lia.
      * intros k Hq Hk Hl. rewrite Ev by done. auto.
      * intros Hq Hl. rewrite Ev by done. auto.
  - intros q e He. rewrite Ei in He. destruct (decide (q = p)) as [->|]; [|by eapply Hsz].
    injection He as <-. pose proof (Hsz p d Ed). lia.
  - intros q Hq. rewrite Hb, Ev by done. auto.
  - intros q. unfold content. rewrite Hb, Ei. destruct (decide (q = p)) as [->|]; [|done]. by rewrite Es', Ed, Es.
Qed.

(** The effect of allocating an inode. *)
Record new_inode (img : image) (type : Z) (ip : inode_t) (img' : image) : Prop := {
  ni_tree : tree_ok img';
  ni_sblk : sblk img' = sblk img;
  ni_free : ∃ d, inodes img !! ip = Some d ∧ d_type d = 0;
  ni_inode : (λ d, d_type d) <$> inodes img' !! ip = Some type;
  ni_other : ∀ q, q ≠ ip → inodes img' !! q = inodes img !! q;
  ni_content : ∀ q, content img' q = content img q
}.

Lemma new_inode_intro img ip d d' : tree_ok img → inodes img !! ip = Some d → d_type d = 0 →
  d_size d' = 0 → d_addrs d' = replicate (Z.to_nat (NDIRECT + 1)) 0 → new_inode img (d_type d') ip (with_inode img ip d').
Proof.
  intros [Hok Hdir Hent Hfr Hnd] Ed Hd0 Hs' Ha'.
  destruct (fs_ok_fresh img ip d d' Hok Ed) as [Hok' Hc]; [by eapply Hfr; [|left]|done|done|].
  assert (∀ q, inodes (with_inode img ip d') !! q = if decide (q = ip) then Some d' else inodes img !! q) as Ei.
  { intros q. unfold with_inode. cbn [inodes]. destruct (decide (q = _)) as [->|]; [by rewrite lookup_insert_eq|by rewrite lookup_insert_ne]. }
  assert (content img ip = []) as Ec0 by (unfold content; by rewrite Ed, (Hfr _ _ Ed (or_introl Hd0))).
  split; [|done|eauto|by rewrite Ei, decide_True|intros q Hq; by rewrite Ei, decide_False|done].
  split; [done|..].
  - intros p e. rewrite Ei. destruct (decide (p = ip)) as [->|Hne].
    + intros [= <-] Htd. split; [by rewrite Ei, decide_True|done|rewrite Hs'; apply Z.mod_0_l; pose proof (g_dirent HG); lia|].
      intros de. rewrite Hc, Ec0, (entries_nil HG). by intros ?%elem_of_nil.
    + intros He Htd. destruct (Hdir p e He Htd) as [D1 D2 D3 D4]. split; [by rewrite Ei, decide_False|done|done|]. by rewrite Hc.
  - intros p de Hp. unfold dir. rewrite Hc. intros Hde Hx. eapply (Hent p); [|done|done].
    unfold is_dir in Hp |- *. rewrite Ei in Hp. destruct (decide (p = ip)) as [->|]; [|done].
    exfalso. rewrite Ec0, (entries_nil HG) in Hde. by apply elem_of_nil in Hde.
  - intros p e. rewrite Ei. destruct (decide (p = ip)) as [->|]; [|apply Hfr]. by intros [= <-].
  - intros p i j x y Hp. unfold dir. rewrite Hc. destruct (decide (p = ip)) as [->|Hne].
    + by rewrite Ec0, (entries_nil HG), lookup_nil.
    + apply Hnd. unfold is_dir in *. by rewrite Ei, decide_False in Hp.
Qed.

Lemma ialloc_new img type free : tree_ok img → 0 < type < 2 ^ 16 → free_inode img free →
  runs 0 (ialloc type) img (λ ip img', ∃ inum, is_inum (sblk img) inum ∧ ip = inode_ptr inum ∧ new_inode img type ip img').
Proof.
  intros HT Ht Hi. eapply runs_mono; [done|eapply ialloc_runs; [apply HT|exact Hi]|].
  intros ip img' (inum & d & Hin & -> & Ed & Hd0 & ->). unfold u16; rewrite (wrap_id 16 type) by (unfold in_u; lia).
  exists inum. split_and!; [done..|]. by apply (new_inode_intro img _ d (set_type type dinode0)).
Qed.

(** ** Path names *)

Lemma skip_sep_suffix path : ∃ p, path = p ++ skip_sep path.
Proof.
  induction path as [|c path [p IH]]; [by exists []|]. simpl. destruct (is_sep c); [|by exists []].
  exists (c :: p). simpl. by rewrite <- IH.
Qed.

Lemma skip_name_suffix path : ∃ p, path = p ++ skip_name path.
Proof.
  induction path as [|c path [p IH]]; [by exists []|]. simpl. destruct (is_sep c); [by exists []|].
  exists (c :: p). simpl. by rewrite <- IH.
Qed.

Lemma skip_sep_head path : match skip_sep path with c :: _ => is_sep c = false | [] => True end.
Proof. induction path as [|c path IH]; [done|]. simpl. by destruct (is_sep c) eqn:E. Qed.

(** skipelem cuts a path into separators, a name and the rest; the name returned is
    the first DIRSIZ characters of it. *)
Lemma skipelem_spec path rest name : skipelem path = (rest, name) → ∃ seps elem,
  path = seps ++ elem ++ rest ∧ name = take (Z.to_nat DIRSIZ) elem ∧ (name = [] ↔ elem = []) ∧
  (elem = [] → rest = []).
Proof.
  unfold skipelem. intros [= <- <-]. destruct (skip_sep_suffix path) as [seps Es].
  destruct (skip_name_suffix (skip_sep path)) as [elem Ee]. pose proof (dl_dirsiz HD). exists seps, elem.
  rewrite <- Ee. split; [done|].
  assert (length (skip_sep path) - length (skip_name (skip_sep path)) = length elem)%nat as El
    by (rewrite Ee at 1; rewrite length_app; lia).
  rewrite El. assert (take (Z.to_nat (min (Z.of_nat (length elem)) DIRSIZ)) (skip_sep path) = take (Z.to_nat DIRSIZ) elem) as ->.
  { rewrite Ee at 1. unfold min. destruct (Z.ltb_spec (Z.of_nat (length elem)) DIRSIZ).
    - rewrite Nat2Z.id, take_app_length, take_ge by lia. done.
    - rewrite take_app_le by lia. done. }
  split; [done|]. split.
  - split; [|intros ->; apply take_nil]. intros E. destruct elem as [|c elem]; [done|].
    destruct (Z.to_nat DIRSIZ) eqn:EZ; [lia|done].
  - intros ->. simpl in Ee. pose proof (skip_sep_head path) as Hh. destruct (skip_sep path) as [|c p]; [done|].
    simpl in Ee. rewrite Hh in Ee. apply (f_equal length) in Ee. destruct (skip_name_suffix p) as [q Eq].
    apply (f_equal length) in Eq. rewrite length_app in Eq. simpl in Ee. lia.
Qed.

(** The names of a path; a path that ends in separators ends in the empty name. *)
Fixpoint comps (fuel : nat) (path : list Z) : list (list Z) :=
  match fuel with
  | O => []
  | S fuel =>
      let '(rest, name) := skipelem path in
      if is_empty name then [[]] else if is_empty rest then [name] else name :: comps fuel rest
  end.

Fixpoint walk (img : image) (p : inode_t) (ns : list (list Z)) : option inode_t :=
  match ns with
  | [] => None
  | n :: ns =>
      if is_empty n then Some p else
      match dget img p n with
      | None => None
      | Some ip =>
          match ns with [] => Some ip | _ => if is_dir img ip then walk img ip ns else None end
      end
  end.

Definition resolve (img : image) (rp : inode_t) (path : list Z) : option inode_t :=
  walk img rp (comps (S (length path)) path).

Lemma skipelem_shorter path rest name : skipelem path = (rest, name) → name ≠ [] → (length rest < length path)%nat.
Proof.
  intros (seps & elem & -> & _ & Hn & _)%skipelem_spec Hne. rewrite !length_app.
  destruct elem; [by destruct Hne; apply Hn|]. simpl. lia.
Qed.

Lemma dget_run img p name : tree_ok img → is_dir img p = true → ∃ o,
  dlookup p name img = Ret (dget img p name, o) img ∧
  (∀ ip, dget img p name = Some ip → ∃ inum, is_inum (sblk img) inum ∧ ip = inode_ptr inum ∧ is_Some (inodes img !! ip)) ∧
  (name_of name ≠ [] → dget img p name = None → find_name (dir img p) name = None).
Proof.
  intros HT (d & Ed & Ht)%is_dir_inode. pose proof (t_dir _ HT _ _ Ed Ht) as Hdir.
  exists (found (sblk img) (find_name (dir img p) name)).2. split_and!.
  - rewrite (dlookup_run HG img p d name (t_fs _ HT) Hdir). unfold dget. by destruct (found _ _).
  - intros ip. unfold dget. destruct (find_name (dir img p) name) as [[i de]|]; [|done]. simpl. rewrite iget_spec.
    destruct (decide _) as [Hi|]; [|done]. intros [= <-]. exists (de_inum de). split_and!; [done..|].
    apply (l_table img); [apply HT|]. unfold is_inum in Hi. lia.
  - intros Hn. unfold dget. destruct (find_name (dir img p) name) as [[i de]|] eqn:E; [|done]. simpl. rewrite iget_spec.
    apply find_name_Some in E as (E1 & E2 & _). assert (de ∈ dir img p) as Hde by (by eapply list_elem_of_lookup_2).
    destruct (decide _) as [|Hni]; [done|]. intros _. exfalso. destruct (decide (de_inum de = 0)) as [Hz|Hz].
    + rewrite E2 in Hn. by apply Hn, (dir_free _ _ _ Hdir).
    + apply Hni. eapply (t_entry _ HT); [|done|done]. apply is_dir_inode. eauto.
Qed.

(** ** ilookup *)

Lemma assert_dir_run img p : is_dir img p = true → assert_dir p img = Ret tt img.
Proof.
  intros (d & Ed & Ht)%is_dir_inode. unfold assert_dir. erewrite bind_ret by (by apply inode_run). by rewrite Ht.
Qed.

Lemma is_dir_test img p d : inodes img !! p = Some d → (d_type d =? T_DIR) = is_dir img p.
Proof. intros E. unfold is_dir. by rewrite E. Qed.

Lemma is_empty_false n : is_empty n = false → n ≠ [].
Proof. by destruct n. Qed.

Lemma comps_nonempty fuel path : comps (S fuel) path ≠ [].
Proof. cbn [comps]. destruct (skipelem path) as [r n]. destruct (is_empty n); [done|]. by destruct (is_empty r). Qed.

Lemma comps_cons fuel path rest name : skipelem path = (rest, name) → name ≠ [] → rest ≠ [] →
  (length path < S fuel)%nat → comps (S fuel) path = name :: comps fuel rest ∧ comps fuel rest ≠ [].
Proof.
  intros E Hn Hr Hf. pose proof (skipelem_shorter _ _ _ E Hn). cbn [comps]. rewrite E.
  destruct name; [done|]. destruct rest; [done|]. cbn [is_empty]. split; [done|].
  destruct fuel as [|fuel]; [simpl in *; lia|]. apply comps_nonempty.
Qed.

Lemma ilookup_loop_run img : tree_ok img → ∀ fuel path rp, is_dir img rp = true → (length path < fuel)%nat →
  ilookup_loop fuel rp path img = Ret (walk img rp (comps fuel path)) img.
Proof.
  intros HT. induction fuel as [|fuel IH]; intros path rp Hd Hf; [lia|]. cbn [ilookup_loop].
  erewrite bind_ret by (by apply assert_dir_run). destruct (skipelem path) as [rest name] eqn:E.
  destruct (is_empty name) eqn:En.
  { destruct name; [|done]. cbn [comps]. rewrite E. done. }
  apply is_empty_false in En as Hn. destruct (dget_run img rp name HT Hd) as (o & El & Hg & _).
  erewrite bind_ret by exact El. cbn [fst].
  destruct (dget img rp name) as [ip|] eqn:Eg.
  2:{ cbn [comps]. rewrite E, En. destruct (is_empty rest); cbn [walk]; by rewrite En, Eg. }
  destruct (is_empty rest) eqn:Er.
  { cbn [comps]. rewrite E, En, Er. cbn [walk]. by rewrite En, Eg. }
  apply is_empty_false in Er as Hr. destruct (comps_cons fuel path rest name E Hn Hr Hf) as [Ec Hc]. rewrite Ec. cbn [walk].
  rewrite En, Eg. destruct (Hg ip eq_refl) as (inum & _ & _ & [d Ed]). erewrite bind_ret by (by apply inode_run).
  rewrite (is_dir_test img ip d Ed). destruct (is_dir img ip) eqn:Ei; cbn [negb].
  - rewrite IH by (done || (pose proof (skipelem_shorter _ _ _ E Hn); lia)). by destruct (comps fuel rest).
  - by destruct (comps fuel rest).
Qed.

(** ilookup returns what the path denotes. *)
Lemma ilookup_run img rp path : tree_ok img → is_dir img rp = true → ilookup rp path img = Ret (resolve img rp path) img.
Proof. intros HT Hd. apply ilookup_loop_run; [done|done|lia]. Qed.

(** What is found stays found when the tree is extended. *)
Definition name_ok (n : list Z) : Prop := n = [] ∨ name_of n ≠ [].

Lemma walk_extends img img' : extends img img' → ∀ ns p r, Forall name_ok ns → is_dir img p = true →
  walk img p ns = Some r → walk img' p ns = Some r.
Proof.
  intros HX. induction ns as [|n ns IH]; intros p r Hns Hd; [done|]. apply list.Forall_cons in Hns as [Hn Hns]. cbn [walk].
  destruct (is_empty n) eqn:En; [done|]. destruct (dget img p n) as [ip|] eqn:Eg; [|done].
  destruct Hn as [->|Hn]; [done|]. rewrite (x_get _ _ HX p n ip Hn Hd Eg). destruct ns as [|n' ns]; [done|].
  destruct (is_dir img ip) eqn:Ei; [|done]. rewrite (x_dir _ _ HX ip Ei). by apply IH.
Qed.

Lemma name_ok_chars n : Forall (λ c, c ≠ 0) n → name_ok n.
Proof.
  intros H. destruct n as [|c n]; [by left|right]. apply list.Forall_cons in H as [Hc _]. unfold name_of.
  pose proof (dl_dirsiz HD). destruct (Z.to_nat DIRSIZ) as [|m] eqn:E; [lia|]. simpl. by rewrite (proj2 (Z.eqb_neq _ _) Hc).
Qed.

Lemma skipelem_chars path rest name : skipelem path = (rest, name) → Forall (λ c, c ≠ 0) path →
  Forall (λ c, c ≠ 0) name ∧ Forall (λ c, c ≠ 0) rest.
Proof.
  intros (seps & elem & -> & -> & _)%skipelem_spec. rewrite !Forall_app. intros (_ & H1 & H2). split; [by apply Forall_take|done].
Qed.

Lemma comps_ok fuel : ∀ path, Forall (λ c, c ≠ 0) path → Forall name_ok (comps fuel path).
Proof.
  induction fuel as [|fuel IH]; intros path Hp; [done|]. cbn [comps]. destruct (skipelem path) as [rest name] eqn:E.
  destruct (skipelem_chars _ _ _ E Hp) as [Hn Hr]. destruct (is_empty name); [by constructor; [left|]|].
  destruct (is_empty rest); constructor; auto using name_ok_chars.
Qed.

(** ** icreat *)

(** The file [ip] was made in the directory [dp] under the path with the names [ns]. *)
Record created (img : image) (rp : inode_t) (ns : list (list Z)) (type : Z) (ip dp : inode_t) (img' : image) : Prop := {
  cr_tree : tree_ok img';
  cr_ext : extends img img';
  cr_walk : walk img' rp ns = Some ip;
  cr_free : ∃ d, inodes img !! ip = Some d ∧ d_type d = 0;
  cr_type : (λ d, d_type d) <$> inodes img' !! ip = Some type;
  cr_dir : is_dir img dp = true;
  cr_kept : ∀ q, q ≠ dp → q ≠ ip → content img' q = content img q ∧
    (λ d, d_type d) <$> inodes img' !! q = (λ d, d_type d) <$> inodes img !! q;
  cr_new : if decide (type = T_DIR) then dget img' ip DOT = Some ip ∧ dget img' ip DOTDOT = Some dp
           else content img' ip = []
}.

Lemma dots_ok : name_of DOT ≠ [] ∧ name_of DOTDOT ≠ [] ∧ name_of DOTDOT ≠ name_of DOT.
Proof.
  unfold name_of, DOT, DOTDOT. pose proof (dl_dirsiz HD). destruct (Z.to_nat DIRSIZ) as [|[|m]] eqn:E; [lia..|].
  simpl. by destruct m.
Qed.

Lemma new_dir_room img p : dir img p = [] ∨ length (dir img p) = 1%nat → has_room img p.
Proof.
  intros Hl. unfold has_room, MAXFILESIZE. pose proof (g_dirent HG). pose proof (g_fill HG). pose proof (g_bsize HG).
  pose proof (g_maxfile HG). pose proof (g_ndirect HG). pose proof (g_nindirect HG). pose proof (g_words HG).
  assert (sizeof_dirent ≤ BSIZE) by (apply Z.divide_pos_le; [lia|apply Z.mod_divide; lia]).
  assert (1 ≤ BSIZE / 4) by (pose proof (Z.div_mod BSIZE 4); lia).
  assert (length (dir img p) ≤ 1)%nat by (destruct Hl as [->| ->]; simpl; lia). nia.
Qed.

Lemma name_of_nil : name_of [] = [].
Proof. unfold name_of. by destruct (Z.to_nat DIRSIZ). Qed.

Lemma new_inode_get img type ip img' p name : new_inode img type ip img' → dget img' p name = dget img p name.
Proof. intros HN. unfold dget, dir. by rewrite (ni_content _ _ _ _ HN), (ni_sblk _ _ _ _ HN). Qed.

Lemma new_inode_dir img type ip img' p : new_inode img type ip img' → is_dir img p = true → p ≠ ip ∧ is_dir img' p = true.
Proof.
  intros HN (d & Ed & Ht)%is_dir_inode. destruct (ni_free _ _ _ _ HN) as (e & Ee & He).
  assert (p ≠ ip) as Hne by (intros ->; simplify_eq; by rewrite Ht in He).
  split; [done|]. apply is_dir_inode. exists d. by rewrite (ni_other _ _ _ _ HN).
Qed.

Lemma new_inode_extends img type ip img' : new_inode img type ip img' → extends img img'.
Proof.
  intros HN. split; [apply HN| |].
  - intros p Hp. by apply (new_inode_dir img type ip img').
  - intros p name q _ _. by rewrite (new_inode_get img type ip img').
Qed.

(** The entries "." and ".." of a new directory. *)
Lemma new_dir_entries img rp n0 inum :
  tree_ok img → is_inum (sblk img) n0 → rp = inode_ptr n0 → is_inum (sblk img) inum →
  is_dir img (inode_ptr inum) = true → dir img (inode_ptr inum) = [] →
  runs 4 (daddent (inode_ptr inum) DOT (inode_ptr inum) ;; daddent (inode_ptr inum) DOTDOT rp ;; mret tt) img (λ _ img',
    tree_ok img' ∧ extends img img' ∧ dget img' (inode_ptr inum) DOT = Some (inode_ptr inum) ∧
    dget img' (inode_ptr inum) DOTDOT = Some rp ∧
    (∀ q, (λ d, d_type d) <$> inodes img' !! q = (λ d, d_type d) <$> inodes img !! q) ∧
    (∀ q, q ≠ inode_ptr inum → content img' q = content img q)).
Proof.
  intros HT Hn0 -> Hin Hd Hnil. destruct dots_ok as (Hd1 & Hd2 & Hd12). set (ip := inode_ptr inum) in *.
  eapply (runs_seq 2 2); [done|apply (daddent_linked img ip DOT inum); auto; [by rewrite Hnil|apply new_dir_room; auto]|].
  intros _ i1 [_ L1]. pose proof L1 as [HT1 Es1 Eg1 Eo1 El1 Et1 Ec1]. rewrite Hnil in El1. simpl in El1.
  assert (find_name (dir i1 ip) DOTDOT = None) as Ef by (rewrite Eo1 by auto; by rewrite Hnil).
  eapply (runs_seq 2 0); [done|apply (daddent_linked i1 ip DOTDOT n0); auto|].
  - by rewrite (is_dir_type img i1).
  - by rewrite Es1.
  - apply new_dir_room. destruct (dir i1 ip) as [|? [|? ?]]; simpl in *; auto; lia.
  - intros _ i2 [_ L2]. pose proof L2 as [HT2 Es2 Eg2 Eo2 El2 Et2 Ec2]. eapply runs_ret; [reflexivity|apply spent_refl|].
    split_and!; try done.
    + eapply extends_trans; [eapply (linked_extends img ip DOT); [|exact L1]|eapply (linked_extends i1 ip DOTDOT); [|exact L2]];
        unfold dget; by rewrite ?Hnil, ?Ef.
    + unfold dget in *. by rewrite Eo2, Es2 by auto.
    + intros q. by rewrite Et2.
    + intros q Hq. by rewrite Ec2, Ec1.
Qed.

Lemma icreat_here img rp n0 name type i :
  tree_ok img → is_dir img rp = true → is_inum (sblk img) n0 → rp = inode_ptr n0 →
  name_of name ≠ [] → dget img rp name = None → find_name (dir img rp) name = None → has_room img rp →
  0 < type < 2 ^ 16 → free_inode img i →
  runs 6 (ip ← ialloc type;
        daddent rp name ip ;;
        d ← inode ip;
        (if d_type d =? T_DIR then daddent ip DOT ip ;; daddent ip DOTDOT rp ;; mret tt else mret tt) ;;
        mret (Some (ip, rp))) img (λ r img', ∃ ip, r = Some (ip, rp) ∧ created img rp [name] type ip rp img').
Proof.
  intros HT Hd Hn0 Erp Hn Hg Hf Hroom Ht Hi. eapply runs_after; [by eapply ialloc_new|].
  intros ip i1 (inum & Hin & -> & HN). pose proof HN as [HT1 Es1 Hfree Ei1 Eo1 Ec1]. set (ip := inode_ptr inum) in *.
  destruct (new_inode_dir img type ip i1 rp HN Hd) as [Hne Hd1].
  assert (dir i1 rp = dir img rp) as Edir by (unfold dir; by rewrite Ec1).
  eapply (runs_seq 2 4); [done|apply (daddent_linked i1 rp name inum); try done|].
  { by rewrite Es1. } { by rewrite Edir. } { unfold has_room. by rewrite Edir. }
  intros _ i2 [_ L2]. pose proof L2 as [HT2 Es2 Eg2 Eo2 El2 Et2 Ec2].
  assert (extends img i2) as X2.
  { eapply extends_trans; [by eapply new_inode_extends|]. eapply linked_extends; [|exact L2]. by rewrite (new_inode_get img type ip i1). }
  assert ((λ d, d_type d) <$> inodes i2 !! ip = Some type) as Etp by (by rewrite Et2).
  assert (∃ d2, inodes i2 !! ip = Some d2 ∧ d_type d2 = type) as (d2 & Ed2 & Htd).
  { destruct (inodes i2 !! ip) as [d2|]; [|done]. exists d2. split; [done|]. by injection Etp. }
  assert (content i2 ip = []) as Ec0.
  { rewrite Ec2, Ec1 by done. destruct Hfree as (e & Ee & He). unfold content. by rewrite Ee, (t_free _ HT _ _ Ee (or_introl He)). }
  assert (∀ q, q ≠ ip → (λ d, d_type d) <$> inodes i2 !! q = (λ d, d_type d) <$> inodes img !! q) as Etq
    by (intros q Hq; rewrite Et2, Eo1 by done; done).
  eapply runs_read; [by apply inode_run|]. rewrite Htd. destruct (Z.eqb_spec type T_DIR) as [->|Hnd].
  - eapply runs_before; [apply (new_dir_entries i2 rp n0 inum); try done|].
    + by rewrite Es2, Es1.
    + by rewrite Es2, Es1.
    + fold ip. rewrite <- (is_dir_test i2 ip d2 Ed2). by rewrite Htd.
    + unfold dir. fold ip. rewrite Ec0. apply (entries_nil HG).
    + intros _ i3 (HT3 & X3 & G1 & G2 & T3 & C3). eapply runs_ret; [reflexivity|apply spent_refl|]. exists ip. split; [done|].
      split; [done|by eapply extends_trans| |done|by rewrite T3|done| |].
      * cbn [walk]. destruct name as [|c name]; [by rewrite name_of_nil in Hn|]. cbn [is_empty]. by rewrite (x_get _ _ X3 rp (c :: name) ip) by (done || by apply X2).
      * intros q Hq1 Hq2. rewrite C3, Ec2, Ec1 by done. split; [done|]. rewrite T3. by apply Etq.
      * by rewrite decide_True.
  - eapply runs_read; [reflexivity|]. eapply runs_ret; [reflexivity|apply spent_refl|]. exists ip. split; [done|].
    split; [done|done| |done|done|done| |].
    + cbn [walk]. destruct name as [|c name]; [by rewrite name_of_nil in Hn|]. cbn [is_empty]. by rewrite Eg2.
    + intros q Hq1 Hq2. rewrite Ec2, Ec1 by done. split; [done|]. by apply Etq.
    + by rewrite decide_False.
Qed.

(** The directory a path names a file in. *)
Fixpoint parent (img : image) (p : inode_t) (ns : list (list Z)) : option inode_t :=
  match ns with
  | [] => None
  | [n] => if is_empty n then None else Some p
  | n :: ns => ip ← dget img p n; if is_dir img ip then parent img ip ns else None
  end.

Lemma parent_cons img p n ns : ns ≠ [] → parent img p (n :: ns) = ip ← dget img p n; if is_dir img ip then parent img ip ns else None.
Proof. by destruct ns. Qed.

(** icreat makes the file, or changes nothing when it exists or has no directory. *)
Lemma icreat_loop_runs img type i : tree_ok img → 0 < type < 2 ^ 16 → free_inode img i →
  (∀ p, is_dir img p = true → has_room img p) → ∀ fuel path rp n0,
  is_dir img rp = true → is_inum (sblk img) n0 → rp = inode_ptr n0 → Forall (λ c, c ≠ 0) path → (length path < fuel)%nat →
  runs 6 (icreat_loop fuel rp path type) img (λ r img',
    match r with
    | None => img' = img ∧ (is_Some (walk img rp (comps fuel path)) ∨ parent img rp (comps fuel path) = None)
    | Some (ip, dp) => parent img rp (comps fuel path) = Some dp ∧ created img rp (comps fuel path) type ip dp img'
    end).
Proof.
  intros HT Ht Hi Hroom. induction fuel as [|fuel IH]; intros path rp n0 Hd Hn0 Erp Hp Hf; [lia|]. cbn [icreat_loop].
  eapply runs_read; [by apply assert_dir_run|]. destruct (skipelem path) as [rest name] eqn:E.
  destruct (is_empty name) eqn:En.
  { eapply runs_ret; [reflexivity|apply spent_refl|]. split; [done|right]. cbn [comps]. by rewrite E, En. }
  apply is_empty_false in En as Hn.
  destruct (skipelem_chars _ _ _ E Hp) as [Hpn Hpr]. destruct (name_ok_chars name Hpn) as [->|Hno]; [done|].
  destruct (dget_run img rp name HT Hd) as (o & El & Hg & Hnone). eapply runs_read; [exact El|]. cbn [fst].
  destruct (is_empty rest) eqn:Er.
  - assert (comps (S fuel) path = [name]) as -> by (cbn [comps]; by rewrite E, En, Er).
    destruct (dget img rp name) as [ip|] eqn:Eg.
    { eapply runs_ret; [reflexivity|apply spent_refl|]. split; [done|left]. cbn [walk]. rewrite En, Eg. eauto. }
    eapply runs_mono; [done|apply (icreat_here img rp n0 name type i); auto|]. intros r img' (ip & -> & HC).
    split; [|done]. cbn [parent]. by rewrite En.
  - apply is_empty_false in Er as Hr. destruct (comps_cons fuel path rest name E Hn Hr Hf) as [Ec Hc].
    rewrite Ec, parent_cons by done.
    destruct (dget img rp name) as [ip|] eqn:Eg; [|eapply runs_ret; [reflexivity|apply spent_refl|by split; [|right]]].
    destruct (Hg ip eq_refl) as (inum & Hin & Eip & [d Ed]). eapply runs_read; [by apply inode_run|].
    rewrite (is_dir_test img ip d Ed). cbn [mbind option_bind].
    destruct (is_dir img ip) eqn:Ei; cbn [negb]; [|eapply runs_ret; [reflexivity|apply spent_refl|by split; [|right]]].
    assert (∀ i', walk i' ip (comps fuel rest) = match comps fuel rest with [] => Some ip | _ => walk i' ip (comps fuel rest) end) as Ew
      by (intros; by destruct (comps fuel rest)).
    eapply runs_mono; [done|eapply (IH rest ip inum); auto; pose proof (skipelem_shorter _ _ _ E Hn); lia|].
    intros [[ip' dp]|] img'.
    + intros [Hpar [HT' X W F T D K N]]. split; [done|]. split; try done.
      cbn [walk]. rewrite En, (x_get _ _ X rp name ip Hno Hd Eg), (x_dir _ _ X ip Ei), <- Ew. done.
    + intros [-> Hw]. split; [done|]. cbn [walk]. by rewrite En, Eg, Ei, <- Ew.
Qed.

(** ** Files and the tree *)

Lemma file_set_refl img p d : fs_ok img → inodes img !! p = Some d → file_set img p (content img p) img.
Proof.
  intros Hok Ed. split; try done. intros q. rewrite (content_length HG img p d Hok Ed).
  destruct (decide (q = p)) as [->|]; [rewrite Ed; simpl; by destruct d|done].
Qed.

Lemma file_set_trans img p c1 img1 c2 img2 : file_set img p c1 img1 → file_set img1 p c2 img2 → file_set img p c2 img2.
Proof.
  intros [H1 H2 H3 H4 H5] [K1 K2 K3 K4 K5]. split; try done; [congruence| |intros q Hq; by rewrite K5, H5].
  intros q. rewrite K3. specialize (H3 q). destruct (inodes img1 !! q) as [e|], (inodes img !! q) as [e0|]; try done.
  simpl in *. apply (inj Some) in H3. destruct (decide (q = p)); [|by rewrite H3].
  f_equal. exact (f_equal (set_size (Z.of_nat (length c2))) H3).
Qed.

Lemma file_set_inode img p c img' d : file_set img p c img' → inodes img !! p = Some d →
  ∃ d', inodes img' !! p = Some d' ∧ d_type d' = d_type d ∧ d_size d' = Z.of_nat (length c).
Proof.
  intros HF Ed. pose proof (fset_meta _ _ _ _ HF p) as E. rewrite Ed in E.
  destruct (inodes img' !! p) as [d'|]; [|done]. exists d'. simpl in E. rewrite decide_True in E by done. apply (inj Some) in E. destruct d, d'. by simplify_eq/=.
Qed.

Lemma file_set_type img p c img' q : file_set img p c img' →
  (λ d, d_type d) <$> inodes img' !! q = (λ d, d_type d) <$> inodes img !! q.
Proof.
  intros HF. pose proof (fset_meta _ _ _ _ HF q) as E. destruct (inodes img' !! q) as [d'|], (inodes img !! q) as [d|]; try done.
  simpl in *. apply (inj Some), (f_equal d_type) in E. simpl in E. rewrite E. by destruct (decide (q = p)).
Qed.

(** Changing the contents of a file that is not a directory keeps the tree. *)
Lemma file_set_tree img p c img' d :
  tree_ok img → file_set img p c img' → inodes img !! p = Some d → d_type d ≠ T_DIR →
  (d_type d = 0 ∨ d_type d = T_DEV → c = []) → tree_ok img' ∧ extends img img' ∧ extends img' img.
Proof.
  intros [Hok Hdir Hent Hfr Hdup] HF Ed Hnd Hc0. pose proof HF as [Hok' Hs Hm Hc Ho].
  assert (∀ q, is_dir img' q = is_dir img q) as Eis by (intros q; by eapply is_dir_type, file_set_type).
  assert (∀ q, is_dir img q = true → q ≠ p) as Hne by (intros q (e & Ee & Ht)%is_dir_inode ->; by simplify_eq).
  assert (∀ q, is_dir img q = true → dir img' q = dir img q) as Edir by (intros q Hq; unfold dir; by rewrite Ho by auto).
  assert (∀ q e', q ≠ p → inodes img' !! q = Some e' → ∃ e, inodes img !! q = Some e ∧ d_type e' = d_type e ∧ d_size e' = d_size e) as Hback.
  { intros q e' Hq He. specialize (Hm q). rewrite He in Hm. destruct (inodes img !! q) as [e|]; [|done].
    exists e. simpl in Hm. rewrite decide_False in Hm by done. apply (inj Some) in Hm. destruct e, e'. by simplify_eq/=. }
  split_and!.
  - split; [done|..].
    + intros q e' He Ht. assert (is_dir img q = true) as Hq by (rewrite <- Eis; apply is_dir_inode; eauto).
      destruct (Hback q e' (Hne q Hq) He) as (e & Ee & Et & Es). rewrite Et in Ht. destruct (Hdir q e Ee Ht) as [D1 D2 D3 D4].
      split; [done|congruence|by rewrite Es|]. by rewrite Ho by auto.
    + intros q de. rewrite Eis, Hs. intros Hq. rewrite Edir by done. by apply Hent.
    + intros q e' He Ht. destruct (decide (q = p)) as [->|Hq].
      * destruct (file_set_inode _ _ _ _ _ HF Ed) as (d' & Ed' & Et & Es). simplify_eq. rewrite Et in Ht. by rewrite Es, (Hc0 Ht).
      * destruct (Hback q e' Hq He) as (e & Ee & Et & Es). rewrite Es. apply (Hfr q); [done|by rewrite <- Et].
    + intros q i j x y. rewrite Eis. intros Hq. rewrite Edir by done. by apply Hdup.
  - split; [done|intros q; by rewrite Eis|]. intros q name ip _ Hq. unfold dget. by rewrite Edir, Hs.
  - split; [done|intros q; by rewrite Eis|]. intros q name ip _ Hq. rewrite Eis in Hq. unfold dget. by rewrite Edir, Hs.
Qed.


(** After daddent, dlookup finds the new name, and every other name as before. *)
Theorem daddent_dlookup img dp name inum :
  tree_ok img → is_dir img dp = true → is_inum (sblk img) inum → name_of name ≠ [] →
  dget img dp name = None → has_room img dp → room img 2 →
  ∃ img' o, daddent dp name (inode_ptr inum) img = Ret 0 img' ∧ tree_ok img' ∧
    dlookup dp name img' = Ret (Some (inode_ptr inum), o) img' ∧
    ∀ p name' r, is_dir img p = true → name_of name' ≠ [] → p ≠ dp ∨ name_of name' ≠ name_of name →
      dlookup p name' img = Ret r img → dlookup p name' img' = Ret r img'.
Proof.
  intros HT Hd Hin Hn Hg Hroom Hr. destruct (dget_run img dp name HT Hd) as (_ & _ & _ & Hf).
  destruct (runs_returns _ _ _ _ (daddent_linked img dp name inum HT Hd Hin Hn (Hf Hn Hg) Hroom) Hr) as (r & img' & E & -> & L).
  pose proof L as [HT' Es Eg Eo _ Et _]. destruct (dget_run img' dp name HT') as (o & El & _ & _); [by rewrite (is_dir_type img img')|].
  exists img', o. rewrite Eg in El. split_and!; [done..|]. intros p name' r Hp Hn' Hc.
  pose proof Hp as (d & Ed & Ht)%is_dir_inode. rewrite (dlookup_run HG img p d name' (t_fs _ HT) (t_dir _ HT _ _ Ed Ht)).
  rewrite <- (is_dir_type img img') in Hp by done. apply is_dir_inode in Hp as (d' & Ed' & Ht').
  rewrite (dlookup_run HG img' p d' name' (t_fs _ HT') (t_dir _ HT' _ _ Ed' Ht')), Eo, Es by done. by intros [= <-].
Qed.

End tree.

(** ** Images without files *)

Section blank.
Context {G : FsGeom} (HG : geom_ok G).

Definition blank (img : image) : Prop :=
  (∀ p d, inodes img !! p = Some d → d_size d = 0 ∧ d_addrs d = replicate (Z.to_nat (NDIRECT + 1)) 0) ∧
  ∀ b, is_data (sblk img) b → used img b = false.

Lemma blank_val img t : blank img → val img t = 0.
Proof.
  intros [Hi _]. assert (∀ p n, addr_of img p n = 0) as Ha.
  { intros p n. unfold addr_of. destruct (inodes img !! p) as [d|] eqn:E; [|done]. destruct (Hi p d E) as [_ ->].
    destruct (replicate _ 0 !! Z.to_nat n) as [x|] eqn:El; [|done]. by apply lookup_replicate in El as [-> _]. }
  destruct t as [p k|p]; cbn [val]; rewrite ?Ha; [|done]. by destruct (k <? NDIRECT).
Qed.

Lemma blank_blocks img p : blank img → blocks_of img p = [].
Proof. intros [Hi _]. unfold blocks_of. destruct (inodes img !! p) as [d|] eqn:E; [|done]. by destruct (Hi p d E) as [-> _]. Qed.

Lemma blank_content img p : blank img → content img p = [].
Proof. intros HB. unfold content. rewrite blank_blocks by done. destruct (inodes img !! p); [apply take_nil|done]. Qed.

Lemma blank_tree img : layout img → blank img → tree_ok img.
Proof.
  intros HL HB. pose proof HB as [Hi Hu]. pose proof (g_ndirect HG). pose proof (g_dirent HG).
  assert (∀ p, dir img p = []) as Hd by (intros p; unfold dir; rewrite blank_content by done; apply (entries_nil HG)).
  split.
  - split_and!; [split; split|..].
    + done.
    + intros s _ []. by apply blank_val.
    + intros s t _ _ []. by apply blank_val.
    + intros x Hx Hux. by rewrite Hu in Hux.
    + intros p _. rewrite blank_blocks by done. pose proof (g_maxfile HG). pose proof (g_nindirect HG). pose proof (g_bsize HG).
      assert (0 ≤ BSIZE / 4) by (apply Z.div_pos; lia). simpl. lia.
    + intros p k l _ _. by rewrite blank_blocks.
    + intros. by apply blank_val.
    + intros p _. rewrite blank_blocks by done. simpl. lia.
    + intros p d Ed. destruct (Hi p d Ed) as [-> _]. unfold MAXFILESIZE. pose proof (g_maxfile HG). pose proof (g_nindirect HG). pose proof (g_bsize HG).
      assert (0 ≤ BSIZE / 4) by (apply Z.div_pos; lia). nia.
    + intros. by apply blank_val.
  - intros p d Ed Ht. split; [done..| |].
    + destruct (Hi p d Ed) as [-> _]. by apply Z.mod_0_l; lia.
    + intros de. fold (dir img p). rewrite Hd. by intros ?%elem_of_nil.
  - intros p de _. rewrite Hd. by intros ?%elem_of_nil.
  - intros p d Ed _. by apply (Hi p).
  - intros p i j x y _. by rewrite Hd, lookup_nil.
Qed.

End blank.
