(* ===== verification/FsUnlink.v ===== *)
(** * Removing files of an image (tools/libfs.c, iunlink)

    Erasing an entry of a directory, dropping the count of links and freeing an inode
    without links.  Overwriting and truncating need no new block, so removing a file
    cannot fail half way. *)

From stdpp Require Import base gmap list numbers option.
From Stdlib Require Import Lia ZArith.
From S2P Require Import Prelude Fs FsBlocks FsFile FsRw FsTrunc FsDir FsTree.

#[local] Open Scope Z_scope.
#[local] Open Scope yaos_scope.

Section unlink.
Context {G : FsGeom} (HG : geom_ok G) (HD : dirent_laws G).

(** ** Overwriting *)

(** Overwriting bytes of a file cannot fail. *)
Lemma iwrite_inside img p d buf n off :
  fs_ok img → inodes img !! p = Some d → d_type d ≠ T_DEV → 0 ≤ n → 0 ≤ off → off + n ≤ d_size d →
  n ≤ Z.of_nat (length buf) →
  ∃ img', iwrite p buf n off img = Ret n img' ∧ file_set img p (store (content img p) off (take (Z.to_nat n) buf)) img'.
Proof.
  intros Hok Ed Ht Hn Ho Hs Hb. destruct (size_bound HG _ _ _ Hok Ed) as [Hsz HM].
  pose proof (iwrite_runs HG img p d buf n off Hok Ed) as Hw. specialize (Hw ltac:(lia) ltac:(lia) ltac:(lia)).
  rewrite decide_False in Hw by lia. apply runs_returns in Hw as (r & img' & E & -> & HF); [eauto|]. left. unfold grow.
  pose proof (blocks_of_length HG img p d Ed ltac:(lia)). pose proof (divceil_mono HG (off + n) (d_size d) ltac:(lia)). lia.
Qed.

(** Emptying a file cannot fail. *)
Lemma itruncate_zero img p d :
  fs_ok img → inodes img !! p = Some d → d_type d ≠ T_DEV →
  ∃ img', itruncate p 0 img = Ret 0 img' ∧ file_set img p [] img'.
Proof.
  intros Hok Ed Ht. destruct (size_bound HG _ _ _ Hok Ed) as [Hsz HM].
  pose proof (itruncate_runs HG img p d 0 Hok Ed ltac:(lia)) as He. rewrite decide_False in He by lia.
  rewrite resize_le in He by lia. apply runs_returns in He as (r & img' & E & -> & HF); [eauto|]. by left.
Qed.

(** ** Inodes that are not directories *)

Lemma with_inode_lookup img p d' q :
  inodes (with_inode img p d') !! q = if decide (q = p) then Some d' else inodes img !! q.
Proof.
  unfold with_inode. cbn [inodes]. destruct (decide (q = p)) as [->|]; [by rewrite lookup_insert_eq|by rewrite lookup_insert_ne].
Qed.

(** The type and the count of links of a file may change. *)
Lemma meta_tree img p d d' :
  tree_ok img → inodes img !! p = Some d → d_addrs d' = d_addrs d → d_size d' = d_size d →
  d_type d ≠ T_DIR → d_type d' ≠ T_DIR → (d_type d' = 0 ∨ d_type d' = T_DEV → d_size d = 0) →
  tree_ok (with_inode img p d') ∧ (∀ q, content (with_inode img p d') q = content img q) ∧
  (∀ q, is_dir (with_inode img p d') q = is_dir img q).
Proof.
  intros [Hok Hdir Hent Hfr Hdup] Ed Ea Es Hnd Hnd' Hz. destruct (fs_ok_meta img p d d' Hok Ed Ea Es) as [Hok' Hc].
  assert (∀ q, is_dir (with_inode img p d') q = is_dir img q) as Eis.
  { intros q. unfold is_dir. rewrite with_inode_lookup. destruct (decide (q = p)) as [->|]; [|done].
    rewrite Ed, (proj2 (Z.eqb_neq _ _) Hnd). by apply Z.eqb_neq. }
  split_and!; [|done..]. split; [done|..].
  - intros q e. rewrite with_inode_lookup. destruct (decide (q = p)) as [->|Hne]; [by intros [= <-]|].
    intros He Ht. destruct (Hdir q e He Ht) as [D1 D2 D3 D4]. split; [by rewrite with_inode_lookup, decide_False|done..|]. by rewrite Hc.
  - intros q de. rewrite Eis. unfold dir. rewrite Hc. by apply Hent.
  - intros q e. rewrite with_inode_lookup. destruct (decide (q = p)) as [->|Hne]; [|by apply Hfr].
    intros [= <-] Ht. rewrite Es. auto.
  - intros q i j x y. rewrite Eis. unfold dir. rewrite Hc. by apply Hdup.
Qed.

(** ** Erasing an entry *)

Definition no_entry : dirent := mk_dirent 0 (replicate (Z.to_nat DIRSIZ) 0).

Lemma no_entry_name : name_of (de_name no_entry) = [].
Proof. unfold name_of, no_entry. simpl. pose proof (dl_dirsiz HD). by destruct (Z.to_nat DIRSIZ). Qed.

(** The name is gone from the directory, and the other names are not touched. *)
Record erased (img : image) (dp : inode_t) (name : list Z) (img' : image) : Prop := {
  er_tree : tree_ok img';
  er_sblk : sblk img' = sblk img;
  er_gone : dget img' dp name = None;
  er_other : ∀ p name', name_of name' ≠ [] → p ≠ dp ∨ name_of name' ≠ name_of name → dget img' p name' = dget img p name';
  er_content : ∀ q, q ≠ dp → content img' q = content img q;
  er_meta : ∀ q d, q ≠ dp → inodes img !! q = Some d → ∃ d', inodes img' !! q = Some d' ∧ meta d' = meta d;
  er_dir : ∀ q, is_dir img' q = is_dir img q
}.

Lemma find_erased img dp i de name : tree_ok img → is_dir img dp = true → name_of name ≠ [] →
  find_name (dir img dp) name = Some (i, de) →
  find_name (put_entry (dir img dp) i no_entry) name = None ∧
  ∀ name', name_of name' ≠ [] → name_of name' ≠ name_of name →
    find_name (put_entry (dir img dp) i no_entry) name' = find_name (dir img dp) name'.
Proof.
  intros HT Hdp Hn (Hi & Ei & Hb)%find_name_Some. pose proof (lookup_lt_Some _ _ _ Hi) as Hlt. split.
  - apply list_find_None, list.Forall_forall. intros e [j Hj]%list_elem_of_lookup Ee. rewrite put_entry_lookup in Hj by lia.
    destruct (decide (j = i)); [simplify_eq; by rewrite no_entry_name in Ee|].
    destruct (t_nodup _ HT dp j i e de); [done..|congruence|congruence|done].
  - intros name' Hn' Hne. apply option_eq. intros [k e]. rewrite !find_name_Some. split.
    + intros (H1 & H2 & H3). rewrite put_entry_lookup in H1 by lia.
      destruct (decide (k = i)); [simplify_eq; rewrite no_entry_name in H2; congruence|]. split_and!; [done..|].
      intros j y Hy Hjk. destruct (decide (j = i)) as [->|]; [simplify_eq; congruence|]. apply (H3 j); [|done].
      by rewrite put_entry_lookup, decide_False by lia.
    + intros (H1 & H2 & H3). assert (k ≠ i) by (intros ->; simplify_eq; congruence).
      rewrite put_entry_lookup, decide_False by lia. split_and!; [done..|]. intros j y. rewrite put_entry_lookup by lia.
      destruct (decide (j = i)) as [->|]; [intros [= <-]; by rewrite no_entry_name|]. intros Hy Hjk. by apply (H3 j).
Qed.

Lemma erase_run img dp i de name : tree_ok img → is_dir img dp = true → name_of name ≠ [] →
  find_name (dir img dp) name = Some (i, de) → ∃ img',
  iwrite dp (replicate (Z.to_nat sizeof_dirent) 0) sizeof_dirent (Z.of_nat i * sizeof_dirent) img = Ret sizeof_dirent img' ∧
  erased img dp name img'.
Proof.
  intros HT Hdp Hn Hf. pose proof Hdp as (d & Ed & Ht)%is_dir_inode. pose proof (t_fs _ HT) as Hok.
  pose proof (g_dirent HG) as Hsz. pose proof (t_dir _ HT _ _ Ed Ht) as [_ _ Hw _].
  pose proof (content_length HG _ _ _ Hok Ed) as Hcl. pose proof (size_bound HG _ _ _ Hok Ed) as [Hds _].
  pose proof Hf as (Hi & _)%find_name_Some. apply lookup_lt_Some in Hi as Hlt. unfold dir in Hlt. rewrite (entries_length) in Hlt.
  assert (d_size d = sizeof_dirent * (d_size d / sizeof_dirent)) as Hdm by (apply Z.div_exact; lia).
  destruct (iwrite_inside img dp d (replicate (Z.to_nat sizeof_dirent) 0) sizeof_dirent (Z.of_nat i * sizeof_dirent)) as (img' & E & HF);
    [done|done|by rewrite Ht|lia|nia|rewrite Hcl in Hlt; nia|rewrite length_replicate; lia|].
  exists img'. split; [done|]. rewrite take_ge in HF by (rewrite length_replicate; lia).
  set (c := store _ _ _) in HF. assert (length c = length (content img dp)) as Elc.
  { unfold c. apply length_store, inside_spec. rewrite length_replicate, Hcl in *. rewrite Z2Nat.id by lia. nia. }
  assert (entries c = put_entry (dir img dp) i no_entry) as Eent.
  { unfold c. rewrite (entries_store HG), (dl_zero HD); [done|by rewrite Hcl|rewrite entries_length; lia|apply length_replicate]. }
  pose proof (file_set_link img dp c None img' HF) as HL. cbv zeta in HL. rewrite Elc, Hcl, Eent in HL.
  specialize (HL Hw ltac:(done)). pose proof (find_erased img dp i de name HT Hdp Hn Hf) as [Hg Ho].
  pose proof HL as [Hok' Edir Esb Ec _ _].
  split; try done.
  - eapply (dir_put_tree img dp i no_entry None img'); try done; [unfold dir; rewrite entries_length; lia|intros _; apply no_entry_name|].
    intros Hx. by rewrite no_entry_name in Hx.
  - unfold dget. by rewrite Edir, Hg.
  - intros p name' Hn' Hc. unfold dget. rewrite Esb. destruct (decide (p = dp)) as [->|Hne].
    + rewrite Edir. rewrite Ho; [done|done|by destruct Hc].
    + unfold dir. by rewrite Ec.
  - intros q e Hq He. pose proof (fset_meta _ _ _ _ HF q) as Em. rewrite He in Em. destruct (inodes img' !! q) as [e'|]; [|done].
    exists e'. split; [done|]. simpl in Em. rewrite decide_False in Em by done. by apply (inj Some) in Em.
  - intros q. by eapply is_dir_type, file_set_type.
Qed.

(** ** Dropping a link *)

(** One link less; without links, the file is empty and its inode free. *)
Definition unlinked_inode (img : image) (ip : inode_t) (img' : image) : Prop :=
  ∀ d, inodes img !! ip = Some d → ∃ d', inodes img' !! ip = Some d' ∧
    if decide (u16 (d_nlink d - 1) = 0) then d_type d' = 0 ∧ content img' ip = []
    else d_type d' = d_type d ∧ d_nlink d' = u16 (d_nlink d - 1) ∧ content img' ip = content img ip.

Record dropped (img : image) (ip : inode_t) (img' : image) : Prop := {
  dr_tree : tree_ok img';
  dr_sblk : sblk img' = sblk img;
  dr_inode : unlinked_inode img ip img';
  dr_content : ∀ q, q ≠ ip → content img' q = content img q;
  dr_type : ∀ q, q ≠ ip → (λ d, d_type d) <$> inodes img' !! q = (λ d, d_type d) <$> inodes img !! q;
  dr_dir : ∀ q, is_dir img' q = is_dir img q
}.

Definition drop_link (ip : inode_t) : M image Z :=
  upd_inode ip (λ d, set_nlink (u16 (d_nlink d - 1)) d) ;;
  d ← inode ip;
  (if d_nlink d =? 0 then
     (if negb (d_type d =? T_DEV) then itruncate ip 0 ;; mret tt else mret tt) ;;
     sb ← gets sblk;
     ifree (geti sb ip) ;; mret tt
   else mret tt) ;;
  mret 0.

(** What itruncate is called for: the file is empty afterwards, devices being empty. *)
Lemma emptied_run img ip d : tree_ok img → inodes img !! ip = Some d → d_type d ≠ T_DIR → ∃ img' d',
  (if negb (d_type d =? T_DEV) then itruncate ip 0 ;; mret tt else mret tt) img = Ret tt img' ∧
  tree_ok img' ∧ file_set img ip [] img' ∧ inodes img' !! ip = Some d' ∧ d_type d' = d_type d ∧ d_size d' = 0.
Proof.
  intros HT Ed Hnd. destruct (Z.eqb_spec (d_type d) T_DEV) as [Hdev|Hdev]; cbn [negb].
  - exists img, d. pose proof (t_free _ HT _ _ Ed (or_intror Hdev)) as Hs. pose proof (file_set_refl HG img ip d (t_fs _ HT) Ed) as HF.
    pose proof (content_length HG _ _ _ (t_fs _ HT) Ed) as Hc. destruct (content img ip); [done|simpl in Hc; lia].
  - destruct (itruncate_zero img ip d (t_fs _ HT) Ed Hdev) as (img' & E & HF).
    destruct (file_set_inode _ _ _ _ _ HF Ed) as (d' & Ed' & Et & Es). exists img', d'.
    erewrite bind_ret by exact E. split_and!; try done. by eapply (file_set_tree img ip []).
Qed.

Lemma drop_link_run img inum d : let ip := inode_ptr inum in
  tree_ok img → is_inum (sblk img) inum → inodes img !! ip = Some d → d_type d ≠ T_DIR →
  ∃ img', drop_link ip img = Ret 0 img' ∧ dropped img ip img'.
Proof.
  intros ip HT Hin Ed Hnd. unfold drop_link. erewrite bind_ret by (by apply upd_inode_run).
  set (d1 := set_nlink (u16 (d_nlink d - 1)) d). fold (with_inode img ip d1). set (i1 := with_inode img ip d1).
  destruct (meta_tree img ip d d1) as (HT1 & C1 & D1); [done..|exact (t_free _ HT _ _ Ed)|]. fold i1 in HT1, C1, D1.
  assert (inodes i1 !! ip = Some d1) as Ed1 by (unfold i1; by rewrite with_inode_lookup, decide_True).
  assert (∀ q, q ≠ ip → inodes i1 !! q = inodes img !! q) as Eo1 by (intros q Hq; unfold i1; by rewrite with_inode_lookup, decide_False).
  erewrite bind_ret by (by apply inode_run). unfold d1 at 1. cbn [set_nlink d_nlink].
  destruct (Z.eqb_spec (u16 (d_nlink d - 1)) 0) as [Hz|Hz].
  - destruct (emptied_run i1 ip d1 HT1 Ed1 Hnd) as (i2 & d2 & E2 & HT2 & HF & Ed2 & Et2 & Es2). rewrite bind_assoc.
    erewrite bind_ret by exact E2. rewrite bind_assoc. erewrite bind_ret by reflexivity.
    assert (sblk i2 = sblk img) as Esb by (rewrite (fset_sblk _ _ _ _ HF); done).
    rewrite Esb. unfold ip at 1. rewrite (geti_ptr HG img inum); [|apply HT|done]. unfold ifree. rewrite !bind_assoc. erewrite bind_ret by reflexivity.
    rewrite iget_spec, Esb, decide_True by done. fold ip. rewrite !bind_assoc. erewrite bind_ret by (by apply inode_run).
    rewrite !bind_assoc. erewrite bind_ret by (by apply upd_inode_run). fold (with_inode i2 ip (set_type 0 d2)).
    destruct (meta_tree i2 ip d2 (set_type 0 d2)) as (HT3 & C3 & D3); [done|done|done|done|by rewrite Et2|done|done|].
    eexists. split; [reflexivity|]. split; [done|done|..].
    + intros e He. simplify_eq. exists (set_type 0 d2). rewrite with_inode_lookup, !decide_True by done.
      by rewrite C3, (fset_content _ _ _ _ HF).
    + intros q Hq. by rewrite C3, (fset_other _ _ _ _ HF), C1.
    + intros q Hq. rewrite with_inode_lookup, decide_False by done. by rewrite (file_set_type i1 ip [] i2), Eo1.
    + intros q. rewrite D3, <- D1. by eapply is_dir_type, file_set_type.
  - erewrite bind_ret by reflexivity. exists i1. split; [done|]. split; [done|done|..].
    + intros e He. simplify_eq. exists d1. by rewrite decide_False, C1.
    + intros q _. apply C1.
    + intros q Hq. by rewrite Eo1.
    + done.
Qed.

(** ** iunlink *)

(** The name [name] of [dp] for the file [ip] was removed. *)
Record unlinked (img : image) (dp : inode_t) (name : list Z) (ip : inode_t) (img' : image) : Prop := {
  ul_tree : tree_ok img';
  ul_sblk : sblk img' = sblk img;
  ul_was : is_dir img dp = true ∧ dget img dp name = Some ip ∧ is_dir img ip = false;
  ul_gone : dget img' dp name = None;
  ul_other : ∀ p name', is_dir img p = true → name_of name' ≠ [] → p ≠ dp ∨ name_of name' ≠ name_of name →
    dget img' p name' = dget img p name';
  ul_inode : unlinked_inode img ip img';
  ul_content : ∀ q, q ≠ dp → q ≠ ip → content img' q = content img q;
  ul_dir : ∀ q, is_dir img' q = is_dir img q
}.

Lemma unlink_at_run img dp i de name inum d : let ip := inode_ptr inum in
  tree_ok img → is_dir img dp = true → name_of name ≠ [] → find_name (dir img dp) name = Some (i, de) →
  dget img dp name = Some ip → is_inum (sblk img) inum → inodes img !! ip = Some d → d_type d ≠ T_DIR →
  ∃ img', unlink_at dp ip (Z.of_nat i * sizeof_dirent) img = Ret 0 img' ∧ unlinked img dp name ip img'.
Proof.
  intros ip HT Hdp Hn Hf Hg Hin Ed Hnd. destruct (erase_run img dp i de name HT Hdp Hn Hf) as (i1 & E1 & HE).
  pose proof HE as [HT1 S1 G1 O1 C1 M1 D1].
  assert (is_dir img ip = false) as Hni by (rewrite <- (is_dir_test img ip d Ed); by apply Z.eqb_neq).
  assert (ip ≠ dp) as Hne by congruence. destruct (M1 ip d Hne Ed) as (d1 & Ed1 & Em).
  assert (d_type d1 = d_type d ∧ d_nlink d1 = d_nlink d) as [Et En] by (destruct d, d1; by simplify_eq/=).
  unfold unlink_at. erewrite bind_ret by exact E1. rewrite Z.eqb_refl. cbn [negb].
  erewrite bind_ret by (by apply inode_run). rewrite Et, (proj2 (Z.eqb_neq _ _) Hnd).
  erewrite bind_ret by reflexivity. fold (drop_link ip).
  destruct (drop_link_run i1 inum d1 HT1) as (i2 & E2 & HR); [by rewrite S1|done|by rewrite Et|]. fold ip in E2, HR.
  pose proof HR as [HT2 S2 I2 C2 _ D2]. exists i2. split; [exact E2|].
  assert (∀ p nm, is_dir img p = true → dget i2 p nm = dget i1 p nm) as Eg.
  { intros p nm Hp. unfold dget, dir. by rewrite S2, C2 by congruence. }
  split; try done; try congruence.
  - by rewrite Eg.
  - intros p nm Hp Hnm Hc. rewrite Eg by done. by apply O1.
  - intros e He. simplify_eq. destruct (I2 d1 Ed1) as (d2 & Ed2 & Hd2). exists d2. split; [done|].
    rewrite Et, En, C1 in Hd2 by done. done.
  - intros q Hq1 Hq2. by rewrite C2, C1.
Qed.

(** Paths to other files denote what they did. *)
Lemma walk_unlinked img dp name ip img' : unlinked img dp name ip img' → ∀ ns p r, Forall name_ok ns →
  is_dir img p = true → walk img p ns = Some r → r ≠ ip → walk img' p ns = Some r.
Proof.
  intros [_ _ (_ & Hg & Hni) _ Ho _ _ Hd]. induction ns as [|n ns IH]; intros p r Hns Hp; [done|].
  apply list.Forall_cons in Hns as [Hn Hns]. cbn [walk]. destruct (is_empty n) eqn:En; [done|].
  destruct Hn as [->|Hn]; [done|]. destruct (dget img p n) as [q|] eqn:Eg; [|done]. intros Hw Hr.
  assert (p ≠ dp ∨ name_of n ≠ name_of name) as Hc.
  { destruct (decide (p = dp)) as [->|]; [right|by left]. intros E. unfold dget, find_name in Eg, Hg. rewrite E in Eg.
    assert (q = ip) as -> by congruence. destruct ns; [congruence|]. by rewrite Hni in Hw. }
  rewrite Ho, Eg by done. destruct ns as [|n' ns]; [done|]. rewrite Hd. destruct (is_dir img q) eqn:Eq; [|done]. by apply IH.
Qed.

(** The path no longer denotes a file. *)
Definition removed (img : image) (rp : inode_t) (ns : list (list Z)) (ip : inode_t) (img' : image) : Prop :=
  walk img' rp ns = None ∧ ∃ dp name, unlinked img dp name ip img'.

Definition is_dots (n : list Z) : bool := same_name n DOT || same_name n DOTDOT.

(** iunlink removes a file that is not a directory; it refuses the names "." and "..". *)
Lemma iunlink_loop_run img ip : tree_ok img → is_dir img ip = false → ∀ fuel path rp,
  is_dir img rp = true → Forall (λ c, c ≠ 0) path → (length path < fuel)%nat → walk img rp (comps fuel path) = Some ip →
  if is_dots (List.last (comps fuel path) []) then iunlink_loop fuel rp path img = Ret (-1) img
  else ∃ img', iunlink_loop fuel rp path img = Ret 0 img' ∧ removed img rp (comps fuel path) ip img'.
Proof.
  intros HT Hni. induction fuel as [|fuel IH]; intros path rp Hd Hp Hf; [lia|]. cbn [iunlink_loop].
  erewrite bind_ret by (by apply assert_dir_run). destruct (skipelem path) as [rest name] eqn:E.
  destruct (is_empty name) eqn:En.
  { cbn [comps]. rewrite E, En. cbn [walk is_empty]. intros [= ->]. congruence. }
  apply is_empty_false in En as Hne. destruct (skipelem_chars HD _ _ _ E Hp) as [Hpn Hpr].
  destruct (name_ok_chars HD name Hpn) as [->|Hno]; [done|].
  pose proof Hd as (d & Ed & Ht)%is_dir_inode.
  erewrite bind_ret by exact (dlookup_run HG img rp d name (t_fs _ HT) (t_dir _ HT _ _ Ed Ht)).
  destruct (dget_run HG img rp name HT Hd) as (_ & _ & Hg & _).
  destruct (is_empty rest) eqn:Er.
  - cbn [comps]. rewrite E, En, Er. cbn [walk List.last]. rewrite En.
    destruct (dget img rp name) as [q|] eqn:Eg; [|done]. intros [= ->].
    destruct (Hg ip eq_refl) as (inum & Hin & -> & [e Ee]). unfold dget in Eg. rewrite Eg.
    unfold is_dots. destruct (same_name name DOT || same_name name DOTDOT); [done|].
    destruct (find_name (dir img rp) name) as [[i de]|] eqn:Ef; [|done].
    destruct (unlink_at_run img rp i de name inum e) as (img' & Eu & HU); try done.
    { unfold dget. by rewrite Ef. } { rewrite <- (is_dir_test img _ e Ee) in Hni. by apply Z.eqb_neq. }
    exists img'. split; [exact Eu|]. split; [|eauto]. cbn [walk]. by rewrite En, (ul_gone _ _ _ _ _ HU).
  - apply is_empty_false in Er as Hr. destruct (comps_cons HD fuel path rest name E Hne Hr Hf) as [Ec Hcn]. rewrite Ec. cbn [walk].
    rewrite En. destruct (dget img rp name) as [q|] eqn:Eg; [|done].
    destruct (comps fuel rest) as [|n' ns] eqn:Ens; [done|]. destruct (is_dir img q) eqn:Eq; [|done]. intros Hw.
    destruct (Hg q eq_refl) as (inum & Hin & Eqq & [e Ee]). unfold dget in Eg. rewrite Eg.
    erewrite bind_ret by (by apply inode_run). rewrite (is_dir_test img q e Ee), Eq. cbn [negb].
    pose proof (skipelem_shorter HD _ _ _ E Hne). specialize (IH rest q Eq Hpr ltac:(lia)). rewrite Ens in IH. specialize (IH Hw).
    change (List.last (name :: n' :: ns) []) with (List.last (n' :: ns) []).
    destruct (is_dots _); [done|]. destruct IH as (img' & Eu & Hrm & dp & nm & HU). exists img'. split; [done|].
    split; [|eauto]. cbn [walk]. rewrite En. destruct (dget img' rp name) as [q'|] eqn:Eg'; [|done].
    assert (dget img rp name = Some q) as Eg0 by done.
    assert (walk img' rp [name] = Some q) as Hk.
    { apply (walk_unlinked img dp nm ip img' HU); [constructor; [by right|done]|done|cbn [walk]; by rewrite En, Eg0|congruence]. }
    cbn [walk] in Hk. rewrite En, Eg' in Hk. injection Hk as ->. by rewrite (ul_dir _ _ _ _ _ HU), Eq.
Qed.

End unlink.
