(* ===== verification/Opfs.v ===== *)
(** * The image tool (tools/opfs.c)

    The commands of opfs on an image.  A command has its arguments and returns the exit
    status; what it prints is returned as the values printed, and [write (1, ..)] as the
    bytes written.  Standard input is the sequence of results of [read], which is at
    its end afterwards.  [put] followed by [get] gives the file back, [mkdir] makes a
    directory with its two entries. *)

From stdpp Require Import base gmap list numbers option strings.
From Stdlib Require Import Lia ZArith.
From S2P Require Import Prelude Fs FsBlocks FsFile FsRw FsTrunc FsDir FsTree FsUnlink.

#[local] Open Scope Z_scope.
#[local] Open Scope yaos_scope.

Definition EXIT_SUCCESS : Z := 0.
Definition EXIT_FAILURE : Z := 1.
Definition BUFSIZE : Z := 1024.

Section opfs.
Context {G : FsGeom}.

(** [root_inode], set by main; the lookups assert that it is not NULL. *)
Definition with_root {A} (f : inode_t → M image A) : M image A :=
  sb ← gets sblk;
  match iget sb root_inode_number with
  | Some root => f root
  | None => ASSERT false ;; fault
  end.

(** ** diskinfo, info, ls: the values printed *)

Record diskinfo : Type := mk_diskinfo {
  di_total : Z;
  di_inodes : Z * Z * Z * Z;   (* first and last inode block, blocks, inodes *)
  di_bitmap : Z * Z * Z;
  di_data : Z * Z * Z;
  di_log : Z * Z * Z;
  di_maxfile : Z;
  di_used : Z;
  di_types : Z * Z * Z         (* directories, files, devices *)
}.

Fixpoint count_bits (n : nat) (b : Z) (used : Z) : M image Z :=
  match n with
  | O => mret used
  | S n => l ← getblk b; count_bits n (b + 1) (foldl (λ u x, s32 (u + bitcount x)) used l)
  end.

Definition count_type (c : Z * Z * Z) (type : Z) : Z * Z * Z :=
  let '(dirs, files, devs) := c in
  if type =? T_DIR then (dirs + 1, files, devs)
  else if type =? T_FILE then (dirs, files + 1, devs)
  else if type =? T_DEV then (dirs, files, devs + 1)
  else c.

(** Over the inodes of the blocks from 2, numbered from 0. *)
Fixpoint count_types (n : nat) (i : Z) (c : Z * Z * Z) : M image (Z * Z * Z) :=
  match n with
  | O => mret c
  | S n => d ← inode (2 + i / IPB, i mod IPB); count_types n (i + 1) (count_type c (d_type d))
  end.

Definition do_diskinfo (args : list (list Z)) : M image (Z * option diskinfo) :=
  match args with
  | [] =>
      sb ← gets sblk;
      let N := sb_size sb in
      let Ni := u32 (sb_ninodes sb / IPB + 1) in
      let Nm := u32 (N / (BSIZE * 8) + 1) in
      let Nd := sb_nblocks sb in
      let Nl := sb_nlog sb in
      used ← count_bits (Z.to_nat Nm) (Ni + 2) 0;
      types ← count_types (Z.to_nat (Ni * IPB)) 0 (0, 0, 0);
      mret (EXIT_SUCCESS, Some (mk_diskinfo N (2, Ni + 1, Ni, sb_ninodes sb) (Ni + 2, Ni + Nm + 1, Nm)
        (Ni + Nm + 2, Ni + Nm + Nd + 1, Nd) (Ni + Nm + Nd + 2, Ni + Nm + Nd + Nl + 1, Nl) MAXFILESIZE used types))
  | _ => mret (EXIT_FAILURE, None)
  end.

Record info : Type := mk_info {
  in_inode : Z;
  in_type : Z;
  in_nlink : Z;
  in_size : Z;
  in_blocks : list Z
}.

(** The entries up to the first 0. *)
Fixpoint until_zero (l : list Z) : list Z :=
  match l with x :: l => if x =? 0 then [] else x :: until_zero l | [] => [] end.
Fixpoint uints (l : list Z) : list Z :=
  match l with a :: b :: c :: d :: l => le32 [a; b; c; d] :: uints l | _ => [] end.

Definition do_info (args : list (list Z)) : M image (Z * option info) :=
  match args with
  | [path] => with_root (λ root,
      r ← ilookup root path;
      match r with
      | None => mret (EXIT_FAILURE, None)
      | Some ip =>
          d ← inode ip;
          sb ← gets sblk;
          bs ← (if 0 <? d_size d then
                  iaddr ← addr_at ip NDIRECT;
                  let direct := until_zero (take (Z.to_nat NDIRECT) (d_addrs d)) in
                  if negb (iaddr =? 0) then
                    l ← getblk iaddr; mret (direct ++ iaddr :: until_zero (uints l))
                  else mret direct
                else mret []);
          mret (EXIT_SUCCESS, Some (mk_info (geti sb ip) (d_type d) (d_nlink d) (d_size d) bs))
      end)
  | _ => mret (EXIT_FAILURE, None)
  end.

(** A line of ls: name, type, number, size. *)
Notation ls_line := (list Z * Z * Z * Z)%type.

Fixpoint ls_loop (fuel : nat) (ip : inode_t) (buf : list Z) (off : Z) (out : list ls_line) :
    M image (Z * list ls_line) :=
  d ← inode ip;
  if off <? d_size d then
    match fuel with
    | O => out_of_fuel
    | S fuel =>
        r ← iread ip buf sizeof_dirent off;
        let '(buf, got) := r in
        if negb (got =? sizeof_dirent) then mret (EXIT_FAILURE, out) else
        let de := dirent_of buf in
        if de_inum de =? 0 then ls_loop fuel ip buf (u32 (off + sizeof_dirent)) out else
        sb ← gets sblk;
        p ← deref (iget sb (de_inum de));
        e ← inode p;
        ls_loop fuel ip buf (u32 (off + sizeof_dirent))
          (out ++ [(cname (Z.to_nat DIRSIZ) (de_name de), d_type e, de_inum de, d_size e)])
    end
  else mret (EXIT_SUCCESS, out).

Definition do_ls (args : list (list Z)) : M image (Z * list ls_line) :=
  match args with
  | [path] => with_root (λ root,
      r ← ilookup root path;
      match r with
      | None => mret (EXIT_FAILURE, [])
      | Some ip =>
          d ← inode ip;
          if d_type d =? T_DIR then ls_loop (Z.to_nat (d_size d)) ip (uninit sizeof_dirent) 0 []
          else sb ← gets sblk; mret (EXIT_SUCCESS, [(path, d_type d, geti sb ip, d_size d)])
      end)
  | _ => mret (EXIT_FAILURE, [])
  end.

(** ** get, put *)

Fixpoint get_loop (fuel : nat) (ip : inode_t) (buf : list Z) (off : Z) (out : list Z) : M image (Z * list Z) :=
  d ← inode ip;
  if off <? d_size d then
    match fuel with
    | O => out_of_fuel
    | S fuel =>
        r ← iread ip buf BUFSIZE off;
        let '(buf, n) := r in
        if n <? 0 then mret (EXIT_FAILURE, out) else
        get_loop fuel ip buf (u32 (off + BUFSIZE)) (out ++ take (Z.to_nat n) buf)
    end
  else mret (EXIT_SUCCESS, out).

(** The status and the bytes written to standard output. *)
Definition do_get (args : list (list Z)) : M image (Z * list Z) :=
  match args with
  | [path] => with_root (λ root,
      r ← ilookup root path;
      match r with
      | None => mret (EXIT_FAILURE, [])
      | Some ip =>
          fuel ← gets (λ s, match inodes s !! ip with Some d => Z.to_nat (d_size d) | None => 0%nat end);
          get_loop fuel ip (uninit BUFSIZE) 0 []
      end)
  | _ => mret (EXIT_FAILURE, [])
  end.

(** [read (0, buf, BUFSIZE)]: the bytes returned, or an error. *)
Fixpoint put_loop (fuel : nat) (ip : inode_t) (off : Z) (reads : list (option (list Z))) : M image Z :=
  if off <? MAXFILESIZE then
    match fuel with
    | O => out_of_fuel
    | S fuel =>
        let '(now, reads) := match reads with r :: rs => (r, rs) | [] => (Some [], []) end in
        match now with
        | None => mret EXIT_FAILURE
        | Some bs =>
            let n := Z.of_nat (length bs) in
            r ← iwrite ip bs n off;
            if negb (r =? n) then mret EXIT_FAILURE else
            if n <? BUFSIZE then mret EXIT_SUCCESS else put_loop fuel ip (u32 (off + BUFSIZE)) reads
        end
    end
  else mret EXIT_SUCCESS.

Definition do_put (args : list (list Z)) (reads : list (option (list Z))) : M image Z :=
  match args with
  | [path] => with_root (λ root,
      r ← ilookup root path;
      ip ← (match r with
            | None => c ← icreat root path T_FILE; mret (fst <$> c)
            | Some ip =>
                d ← inode ip;
                if negb (d_type d =? T_FILE) then mret None else itruncate ip 0 ;; mret (Some ip)
            end);
      match ip with
      | None => mret EXIT_FAILURE
      | Some ip => put_loop (Z.to_nat MAXFILESIZE) ip 0 reads
      end)
  | _ => mret EXIT_FAILURE
  end.

(** ** rm, mkdir, rmdir *)

Definition do_rm (args : list (list Z)) : M image Z :=
  match args with
  | [path] => with_root (λ root,
      r ← ilookup root path;
      match r with
      | None => mret EXIT_FAILURE
      | Some ip =>
          d ← inode ip;
          if d_type d =? T_DIR then mret EXIT_FAILURE else
          u ← iunlink root path;
          if u <? 0 then mret EXIT_FAILURE else mret EXIT_SUCCESS
      end)
  | _ => mret EXIT_FAILURE
  end.

Definition do_mkdir (args : list (list Z)) : M image Z :=
  match args with
  | [path] => with_root (λ root,
      r ← ilookup root path;
      match r with
      | Some _ => mret EXIT_FAILURE
      | None =>
          c ← icreat root path T_DIR;
          match c with Some _ => mret EXIT_SUCCESS | None => mret EXIT_FAILURE end
      end)
  | _ => mret EXIT_FAILURE
  end.

Definition do_rmdir (args : list (list Z)) : M image Z :=
  match args with
  | [path] => with_root (λ root,
      r ← ilookup root path;
      match r with
      | None => mret EXIT_FAILURE
      | Some ip =>
          d ← inode ip;
          if negb (d_type d =? T_DIR) then mret EXIT_FAILURE else
          e ← emptydir ip;
          if negb e then mret EXIT_FAILURE else
          u ← iunlink root path;
          if u <? 0 then mret EXIT_FAILURE else mret EXIT_SUCCESS
      end)
  | _ => mret EXIT_FAILURE
  end.

(** ** cp, mv, ln *)

(** The loop of cp, from [sip] to [dip]. *)
Fixpoint cp_loop (fuel : nat) (sip dip : inode_t) (buf : list Z) (off : Z) : M image Z :=
  d ← inode sip;
  if off <? d_size d then
    match fuel with
    | O => out_of_fuel
    | S fuel =>
        r ← iread sip buf BUFSIZE off;
        let '(buf, n) := r in
        if n <? 0 then mret EXIT_FAILURE else
        w ← iwrite dip buf n off;
        if negb (w =? n) then mret EXIT_FAILURE else cp_loop fuel sip dip buf (u32 (off + BUFSIZE))
    end
  else mret EXIT_SUCCESS.

(** The destination of cp: an existing file is emptied, a directory gets a new file,
    else the file is made in the directory of the path. *)
Definition cp_dest (root : inode_t) (spath dpath : list Z) : M image (option inode_t) :=
  dip ← ilookup root dpath;
  let '(dname, ddir) := splitpath dpath BUFSIZE in
  match dip with
  | None =>
      if is_empty dname then mret None else
      ddip ← ilookup root ddir;
      match ddip with
      | None => mret None
      | Some ddip =>
          d ← inode ddip;
          if negb (d_type d =? T_DIR) then mret None else
          c ← icreat ddip dname T_FILE; mret (fst <$> c)
      end
  | Some dip =>
      d ← inode dip;
      if d_type d =? T_DIR then
        let sname := (splitpath spath 0).1 in
        c ← icreat dip sname T_FILE; mret (fst <$> c)
      else if d_type d =? T_FILE then itruncate dip 0 ;; mret (Some dip)
      else if d_type d =? T_DEV then mret None
      else mret (Some dip)
  end.

Definition do_cp (args : list (list Z)) : M image Z :=
  match args with
  | [spath; dpath] => with_root (λ root,
      r ← ilookup root spath;
      match r with
      | None => mret EXIT_FAILURE
      | Some sip =>
          d ← inode sip;
          if negb (d_type d =? T_FILE) then mret EXIT_FAILURE else
          o ← cp_dest root spath dpath;
          match o with
          | None => mret EXIT_FAILURE
          | Some dip =>
              d ← inode sip;
              cp_loop (Z.to_nat (d_size d)) sip dip (uninit BUFSIZE) 0
          end
      end)
  | _ => mret EXIT_FAILURE
  end.

(** mv into the existing directory [dip]. *)
Definition mv_into (root sip dip : inode_t) (spath : list Z) : M image Z :=
  let sname := (splitpath spath 0).1 in
  r ← dlookup dip sname;
  match r.1 with
  | Some ip =>
      d ← inode ip;
      s ← inode sip;
      if d_type d =? T_DIR then
        if negb (d_type s =? T_DIR) then mret EXIT_FAILURE else
        e ← emptydir ip;
        if negb e then mret EXIT_FAILURE else
        iunlink dip sname ;;
        daddent dip sname sip ;;
        iunlink root spath ;;
        dmkparlink dip sip ;;
        mret EXIT_SUCCESS
      else if d_type d =? T_FILE then
        if negb (d_type s =? T_FILE) then mret EXIT_FAILURE else
        iunlink dip sname ;;
        daddent dip sname sip ;;
        iunlink root spath ;;
        mret EXIT_SUCCESS
      else mret EXIT_FAILURE
  | None =>
      daddent dip sname sip ;;
      iunlink root spath ;;
      s ← inode sip;
      (if d_type s =? T_DIR then dmkparlink dip sip ;; mret tt else mret tt) ;;
      mret EXIT_SUCCESS
  end.

Definition do_mv (args : list (list Z)) : M image Z :=
  match args with
  | [spath; dpath] => with_root (λ root,
      r ← ilookup root spath;
      match r with
      | None => mret EXIT_FAILURE
      | Some sip =>
          if bool_decide (sip = root) then mret EXIT_FAILURE else
          dip ← ilookup root dpath;
          let '(dname, ddir) := splitpath dpath BUFSIZE in
          match dip with
          | Some dip =>
              d ← inode dip;
              s ← inode sip;
              if d_type d =? T_DIR then mv_into root sip dip spath
              else if d_type d =? T_FILE then
                if negb (d_type s =? T_FILE) then mret EXIT_FAILURE else
                iunlink root dpath ;;
                o ← ilookup root ddir;
                match o with
                | None => ASSERT false ;; fault
                | Some ip =>
                    assert_dir ip ;;
                    daddent ip dname sip ;;
                    iunlink root spath ;;
                    mret EXIT_SUCCESS
                end
              else mret EXIT_FAILURE
          | None =>
              if is_empty dname then mret EXIT_FAILURE else
              o ← ilookup root ddir;
              match o with
              | None => mret EXIT_FAILURE
              | Some ip =>
                  e ← inode ip;
                  if negb (d_type e =? T_DIR) then mret EXIT_FAILURE else
                  daddent ip dname sip ;;
                  iunlink root spath ;;
                  s ← inode sip;
                  (if d_type s =? T_DIR then dmkparlink ip sip ;; mret tt else mret tt) ;;
                  mret EXIT_SUCCESS
              end
          end
      end)
  | _ => mret EXIT_FAILURE
  end.

Definition do_ln (args : list (list Z)) : M image Z :=
  match args with
  | [spath; dpath] => with_root (λ root,
      r ← ilookup root spath;
      match r with
      | None => mret EXIT_FAILURE
      | Some sip =>
          s ← inode sip;
          if negb (d_type s =? T_FILE) then mret EXIT_FAILURE else
          let '(dname, ddir) := splitpath dpath BUFSIZE in
          o ← ilookup root ddir;
          match o with
          | None => mret EXIT_FAILURE
          | Some dip =>
              d ← inode dip;
              if negb (d_type d =? T_DIR) then mret EXIT_FAILURE else
              t ← (if is_empty dname then
                     let dname := (splitpath spath 0).1 in
                     r ← dlookup dip dname;
                     mret (match r.1 with Some _ => None | None => Some (dip, dname) end)
                   else
                     r ← dlookup dip dname;
                     match r.1 with
                     | None => mret (Some (dip, dname))
                     | Some ip =>
                         e ← inode ip;
                         mret (if negb (d_type e =? T_DIR) then None else Some (ip, (splitpath spath 0).1))
                     end);
              match t with
              | None => mret EXIT_FAILURE
              | Some (dip, dname) =>
                  a ← daddent dip dname sip;
                  if a <? 0 then mret EXIT_FAILURE else mret EXIT_SUCCESS
              end
          end
      end)
  | _ => mret EXIT_FAILURE
  end.

(** ** The table of commands *)

(** What a command prints. *)
Inductive output : Type :=
| Nothing
| Disk (o : option diskinfo)
| Info (o : option info)
| Lines (l : list ls_line)
| Bytes (l : list Z).

Definition chars (s : string) : list Z := (λ c, Z.of_N (Ascii.N_of_ascii c)) <$> String.list_ascii_of_string s.

Definition prints {A} (out : A → output) (m : M image (Z * A)) : M image (Z * output) :=
  r ← m; mret (r.1, out r.2).
Definition quiet (m : M image Z) : M image (Z * output) := st ← m; mret (st, Nothing).

(** [cmd_table]: [reads] is the standard input. *)
Definition cmd_table (reads : list (option (list Z))) : list (string * (list (list Z) → M image (Z * output))) :=
  [("diskinfo", λ args, prints Disk (do_diskinfo args));
   ("info", λ args, prints Info (do_info args));
   ("ls", λ args, prints Lines (do_ls args));
   ("get", λ args, prints Bytes (do_get args));
   ("put", λ args, quiet (do_put args reads));
   ("rm", λ args, quiet (do_rm args));
   ("cp", λ args, quiet (do_cp args));
   ("mv", λ args, quiet (do_mv args));
   ("ln", λ args, quiet (do_ln args));
   ("mkdir", λ args, quiet (do_mkdir args));
   ("rmdir", λ args, quiet (do_rmdir args))]%string.

Definition exec_cmd (cmd : list Z) (args : list (list Z)) (reads : list (option (list Z))) : M image (Z * output) :=
  match list_find (λ e, cmd = chars e.1) (cmd_table reads) with
  | Some (_, (_, fun_)) => fun_ args
  | None => mret (EXIT_FAILURE, Nothing)
  end.

End opfs.

Section correct.
Context {G : FsGeom} (HG : geom_ok G) (HD : dirent_laws G).

(** ** put and get *)

Definition root : inode_t := inode_ptr root_inode_number.

(** An image whose root directory exists. *)
Definition rooted (img : image) : Prop :=
  tree_ok img ∧ is_inum (sblk img) root_inode_number ∧ is_dir img root = true.

Lemma with_root_run {A} (f : inode_t → M image A) img : rooted img → with_root f img = f root img.
Proof.
  intros (_ & Hi & _). unfold with_root. erewrite bind_ret by reflexivity. rewrite iget_spec. by rewrite decide_True.
Qed.

Lemma runs_root {A} k (f : inode_t → M image A) img Q : rooted img → runs k (f root) img Q → runs k (with_root f) img Q.
Proof. intros Hr. unfold runs. by rewrite with_root_run. Qed.

Lemma walk_inode img ns : tree_ok img → ∀ p r, is_dir img p = true → walk img p ns = Some r → is_Some (inodes img !! r).
Proof.
  intros HT. induction ns as [|n ns IH]; intros p r Hd; [done|]. cbn [walk]. destruct (is_empty n).
  - intros [= <-]. apply is_dir_inode in Hd as (d & Ed & _). eauto.
  - destruct (dget_run HG img p n HT Hd) as (_ & _ & Hg & _). destruct (dget img p n) as [ip|]; [|done].
    destruct ns; [intros [= <-]; by destruct (Hg ip eq_refl) as (? & _ & _ & ?)|].
    destruct (is_dir img ip) eqn:Ei; [by apply IH|done].
Qed.

(** The bytes put reads: up to the first short result. *)
Fixpoint input (reads : list (option (list Z))) : list Z :=
  match reads with
  | Some bs :: reads => bs ++ (if Z.of_nat (length bs) <? BUFSIZE then [] else input reads)
  | _ => []
  end.

Definition reads_ok (reads : list (option (list Z))) : Prop :=
  Forall (λ r, ∃ bs, r = Some bs ∧ Z.of_nat (length bs) ≤ BUFSIZE) reads.

Lemma store_end l bs : store l (Z.of_nat (length l)) bs = l ++ bs.
Proof. unfold store. rewrite Nat2Z.id, take_ge, drop_ge, app_nil_r by lia. done. Qed.

Lemma put_loop_runs ip fuel : ∀ img d off reads,
  fs_ok img → inodes img !! ip = Some d → d_type d ≠ T_DEV → off = d_size d → reads_ok reads →
  off + Z.of_nat (length (input reads)) ≤ MAXFILESIZE → (Z.to_nat (MAXFILESIZE - off) ≤ fuel)%nat →
  runs (grow (length (blocks_of img ip)) (off + Z.of_nat (length (input reads)))) (put_loop fuel ip off reads) img (λ st img',
    st = EXIT_SUCCESS ∧ file_set img ip (content img ip ++ input reads) img').
Proof.
  induction fuel as [|fuel IH]; intros img d off reads Hok Ed Ht Hoff Hr Hlen Hf;
    destruct (size_bound HG _ _ _ Hok Ed) as [Hs HM]; pose proof (content_length HG img ip d Hok Ed) as Hcl; cbn [put_loop];
    (destruct (Z.ltb_spec off MAXFILESIZE);
      [|eapply runs_ret; [reflexivity|apply spent_refl|]; split; [done|]; destruct (input reads); [|simpl in Hlen; lia];
        rewrite app_nil_r; by eapply (file_set_refl HG)]); [lia|].
  set (now := match reads with r :: rs => (r, rs) | [] => (Some [], []) end).
  assert (∃ bs rs, now = (Some bs, rs) ∧ Z.of_nat (length bs) ≤ BUFSIZE ∧ reads_ok rs ∧
    input reads = bs ++ (if Z.of_nat (length bs) <? BUFSIZE then [] else input rs)) as (bs & rs & -> & Hb & Hrs & Ein).
  { unfold now. destruct reads as [|r rs]; [by exists [], []|]. apply list.Forall_cons in Hr as [(bs & -> & Hb) Hrs].
    by exists bs, rs. }
  rewrite Ein, length_app in Hlen. rewrite Ein. unfold BUFSIZE in *.
  pose proof (iwrite_runs HG img ip d bs (Z.of_nat (length bs)) off Hok Ed) as Hw.
  specialize (Hw ltac:(lia) ltac:(lia) ltac:(lia)). rewrite decide_False in Hw by lia.
  set (rest := if Z.of_nat (length bs) <? 1024 then [] else input rs) in *. rewrite length_app.
  pose proof (blocks_of_length HG img ip d Ed ltac:(lia)) as Hl. set (e := off + Z.of_nat (length bs)).
  eapply (runs_seq _ (grow (Z.to_nat (divceil e BSIZE)) (e + Z.of_nat (length rest)))); [|exact Hw|].
  { unfold grow, e. rewrite <- Hoff in Hl. pose proof (divceil_mono HG off (off + Z.of_nat (length bs)) ltac:(lia)).
    pose proof (divceil_mono HG (off + Z.of_nat (length bs)) (off + Z.of_nat (length bs) + Z.of_nat (length rest)) ltac:(lia)).
    rewrite Nat2Z.inj_add, Z.add_assoc. lia. }
  intros r i1 [-> HF]. rewrite Z.eqb_refl. cbn [negb].
  rewrite Nat2Z.id, firstn_all, Hoff, <- Hcl, store_end in HF. unfold rest in *.
  destruct (Z.ltb_spec (Z.of_nat (length bs)) 1024).
  - eapply runs_ret; [reflexivity|apply spent_refl|]. split; [done|]. by rewrite app_nil_r.
  - destruct (file_set_inode _ _ _ _ _ HF Ed) as (d1 & Ed1 & Et1 & Es1). rewrite length_app in Es1.
    pose proof (blocks_of_length HG i1 ip d1 Ed1 ltac:(lia)) as Hl1.
    rewrite u32_id by lia. eapply runs_mono; [|eapply (IH i1 d1); try done; try lia; apply HF || congruence|].
    + replace (length (blocks_of i1 ip)) with (Z.to_nat (divceil e BSIZE)); [unfold e; by replace 1024 with (Z.of_nat (length bs)) by lia|].
      rewrite <- (Nat2Z.id (length (blocks_of i1 ip))), Hl1. do 2 f_equal. unfold e. lia.
    + intros st i2 [-> HF2]. split; [done|]. rewrite (fset_content _ _ _ _ HF), <- app_assoc in HF2. by eapply file_set_trans.
Qed.

Lemma get_loop_run img ip d fuel : fs_ok img → inodes img !! ip = Some d → d_type d ≠ T_DEV → ∀ buf off out,
  0 ≤ off → length buf = Z.to_nat BUFSIZE → (Z.to_nat (d_size d - off) ≤ fuel)%nat →
  get_loop fuel ip buf off out img = Ret (EXIT_SUCCESS, out ++ drop (Z.to_nat off) (content img ip)) img.
Proof.
  intros Hok Ed Ht. destruct (size_bound HG _ _ _ Hok Ed) as [Hs HM]. pose proof (content_length HG img ip d Hok Ed) as Hcl.
  induction fuel as [|fuel IH]; intros buf off out Ho Hb Hf; cbn [get_loop]; erewrite bind_ret by (by apply inode_run);
    (destruct (Z.ltb_spec off (d_size d)); [|rewrite drop_ge, app_nil_r by lia; done]); [lia|].
  unfold BUFSIZE in *. rewrite (bind_ret _ _ img (store buf 0 (slice (content img ip) off (Z.min 1024 (d_size d - off))), Z.min 1024 (d_size d - off)) img).
  2:{ rewrite (iread_run HG img ip d) by (done || lia). by rewrite decide_False by lia. }
  set (m := Z.min 1024 (d_size d - off)). cbv beta iota. rewrite (proj2 (Z.ltb_ge m 0)) by lia.
  assert (length (slice (content img ip) off m) = Z.to_nat m) as Hls by (apply length_slice, inside_spec; lia).
  assert (inside buf 0 (Z.of_nat (length (slice (content img ip) off m))) = true) as Hin by (apply inside_spec; lia).
  rewrite u32_in by lia. rewrite IH; [|lia|by rewrite length_store|lia]. do 2 f_equal. rewrite <- app_assoc. f_equal.
  unfold store. simpl. rewrite take_app_le by lia. rewrite <- Hls, firstn_all. unfold slice.
  destruct (decide (d_size d - off ≤ 1024)).
  - rewrite (drop_ge _ (Z.to_nat (off + 1024))) by lia. rewrite app_nil_r, take_ge; [done|]. rewrite length_drop. lia.
  - replace m with 1024 by lia. rewrite Z2Nat.inj_add, <- drop_drop by lia. apply take_drop.
Qed.

(** What put leaves: the file has the bytes read, every name that was found is still
    found, and the other files have the contents they had. *)
Record stored (img : image) (path : list Z) (c : list Z) (img' : image) : Prop := {
  st_rooted : rooted img';
  st_ext : extends img img';
  st_file : ∃ ip d, resolve img' root path = Some ip ∧ inodes img' !! ip = Some d ∧ d_type d = T_FILE ∧
    content img' ip = c ∧
    ∀ q e, q ≠ ip → inodes img !! q = Some e → d_type e = T_FILE → content img' q = content img q
}.

Lemma resolve_extends img img' path ip : extends img img' → is_dir img root = true → Forall (λ c, c ≠ 0) path →
  resolve img root path = Some ip → resolve img' root path = Some ip.
Proof. intros HX Hd Hp. apply (walk_extends img img' HX); [by apply (comps_ok HD)|done]. Qed.

Lemma rooted_extends img img' : rooted img → tree_ok img' → extends img img' → rooted img'.
Proof. intros (_ & Hi & Hd) HT HX. split_and!; [done|by rewrite (x_sblk _ _ HX)|by apply (x_dir _ _ HX)]. Qed.

(** The bytes go into the file [ip] of [img], a tree that extends [img0]. *)
Lemma put_stored img0 img path ip d reads :
  rooted img0 → tree_ok img → extends img0 img → Forall (λ c, c ≠ 0) path → resolve img root path = Some ip →
  inodes img !! ip = Some d → d_type d = T_FILE → content img ip = [] →
  (∀ q e, q ≠ ip → inodes img0 !! q = Some e → d_type e = T_FILE → content img q = content img0 q) →
  reads_ok reads → Z.of_nat (length (input reads)) ≤ MAXFILESIZE →
  runs (grow 0 (Z.of_nat (length (input reads)))) (put_loop (Z.to_nat MAXFILESIZE) ip 0 reads) img (λ st img',
    st = EXIT_SUCCESS ∧ stored img0 path (input reads) img').
Proof.
  intros Hroot HT HX Hp Hres Ed Ht Hc Hoth Hr Hlen. pose proof (t_fs _ HT) as Hok.
  pose proof (content_length HG img ip d Hok Ed) as Hcl. rewrite Hc in Hcl. simpl in Hcl.
  assert (length (blocks_of img ip) = 0%nat) as Hb by (unfold blocks_of; by rewrite Ed, <- Hcl).
  eapply runs_mono; [|eapply (put_loop_runs ip _ img d 0); try done; [by rewrite Ht|lia]|]; [by rewrite Hb|].
  intros st img' [-> HF]. split; [done|]. rewrite Hc in HF. simpl in HF.
  destruct (file_set_tree img ip _ img' d HT HF Ed) as (HT' & X1 & _); [by rewrite Ht|rewrite Ht; by intros []|].
  pose proof (extends_trans _ _ _ HX X1) as HX'. pose proof (rooted_extends _ _ Hroot HT' HX') as Hroot'.
  split; [done..|]. destruct (file_set_inode _ _ _ _ _ HF Ed) as (d' & Ed' & Et' & _). exists ip, d'.
  split_and!; [|done|congruence|apply HF|].
  - eapply resolve_extends; [exact X1| |done|done]. by apply (x_dir _ _ HX), Hroot.
  - intros q e Hq He Hte. rewrite (fset_other _ _ _ _ HF) by done. eauto.
Qed.

(** The path is a file, or there is a directory to make it in. *)
Definition can_put (img : image) (path : list Z) : Prop :=
  match resolve img root path with
  | Some ip => (λ d, d_type d) <$> inodes img !! ip = Some T_FILE
  | None => is_Some (parent img root (comps (S (length path)) path))
  end.

(** An image with a free inode and no full directory. *)
Definition roomy (img : image) : Prop :=
  (∃ i, free_inode img i) ∧ ∀ p, is_dir img p = true → has_room img p.

Lemma put_file img path ip d reads : rooted img → Forall (λ c, c ≠ 0) path → resolve img root path = Some ip →
  inodes img !! ip = Some d → d_type d = T_FILE → reads_ok reads → Z.of_nat (length (input reads)) ≤ MAXFILESIZE →
  runs (grow 0 (Z.of_nat (length (input reads)))) (itruncate ip 0 ;; put_loop (Z.to_nat MAXFILESIZE) ip 0 reads) img
    (λ st img', st = EXIT_SUCCESS ∧ stored img path (input reads) img').
Proof.
  intros Hroot Hp Hres Ed Ht Hr Hlen. pose proof Hroot as (HT & Hi & Hd). pose proof (t_fs _ HT) as Hok.
  destruct (size_bound HG _ _ _ Hok Ed) as [? ?].
  pose proof (itruncate_runs HG img ip d 0 Hok Ed ltac:(lia)) as Htr.
  rewrite decide_False in Htr by (rewrite Ht; unfold T_FILE, T_DEV; lia).
  eapply runs_after; [exact Htr|]. intros r i1 [_ HF]. simpl in HF.
  destruct (file_set_tree img ip _ i1 d HT HF Ed) as (HT1 & X1 & _); [by rewrite Ht|rewrite Ht; by intros []|].
  destruct (file_set_inode _ _ _ _ _ HF Ed) as (d1 & Ed1 & Et1 & _).
  apply (put_stored img i1 path ip d1); try done; try congruence.
  - by eapply resolve_extends.
  - rewrite (fset_content _ _ _ _ HF). by rewrite resize_le by lia.
  - intros q e Hq _ _. by apply HF.
Qed.

Lemma do_put_runs img path reads :
  rooted img → roomy img → Forall (λ c, c ≠ 0) path → reads_ok reads → Z.of_nat (length (input reads)) ≤ MAXFILESIZE →
  runs (6 + grow 0 (Z.of_nat (length (input reads)))) (do_put [path] reads) img (λ st img',
    st = EXIT_SUCCESS ∧ can_put img path ∧ stored img path (input reads) img' ∨
    st = EXIT_FAILURE ∧ ¬ can_put img path ∧ img' = img).
Proof.
  intros Hroot [[i Hfree] Hroom] Hp Hr Hlen. pose proof Hroot as (HT & Hi & Hd). pose proof (t_fs _ HT) as Hok.
  cbn [do_put]. apply runs_root; [done|]. unfold can_put.
  eapply runs_read; [by apply (ilookup_run HG)|]. destruct (resolve img root path) as [ip|] eqn:Eres.
  - destruct (walk_inode img _ HT _ _ Hd Eres) as [d Ed]. rewrite Ed. unfold runs. rewrite bind_assoc.
    erewrite bind_ret by (by apply inode_run).
    destruct (Z.eqb_spec (d_type d) T_FILE) as [Ht|Ht]; cbn [negb].
    + rewrite bind_assoc. eapply (runs_mono (grow 0 (Z.of_nat (length (input reads)))) (6 + grow 0 (Z.of_nat (length (input reads))))); [lia|by apply (put_file img path ip d)|].
      intros st img' [-> HS]. left. simpl. by rewrite Ht.
    + eapply runs_ret; [reflexivity|apply spent_refl|]. right. split_and!; [done| |done]. simpl. congruence.
  - eapply (runs_seq 6); [done|eapply runs_before; [eapply (icreat_loop_runs HG HD img T_FILE); eauto; done|]|].
    { intros r i1 Hc. eapply (runs_ret _ _ _ _ _ (λ o i2, ∃ r, o = fst <$> r ∧ _)); [reflexivity|apply spent_refl|]. exists r. split; [done|exact Hc]. }
    intros o i1 (r & -> & Hc). destruct r as [[ip dp]|]; cbn [fmap option_fmap option_map fst].
    + destruct Hc as [Epar [HT1 X W (e & Ee & He) T Hdp K N]].
      assert (∃ d1, inodes i1 !! ip = Some d1 ∧ d_type d1 = T_FILE) as (d1 & Ed1 & Et1).
      { destruct (inodes i1 !! ip) as [d1|]; [|done]. exists d1. split; [done|]. by injection T. }
      eapply runs_mono; [done|eapply (put_stored img i1 path ip d1); try done|].
      * intros q f Hq Hf Htf. apply K; [|done]. intros ->. apply is_dir_inode in Hdp as (g & Eg & Hg). simplify_eq. by rewrite Hg in Htf.
      * intros st img' [-> HS]. left. by rewrite Epar.
    + destruct Hc as [-> Hc]. eapply runs_ret; [reflexivity|apply spent_refl|]. right. split_and!; [done| |done].
      destruct Hc as [Hc|Hc]; [|rewrite Hc; by intros []]. unfold resolve in Eres. rewrite Eres in Hc. by destruct Hc.
Qed.

(** get writes the contents of the file. *)
Lemma do_get_run img path ip d :
  rooted img → resolve img root path = Some ip → inodes img !! ip = Some d → d_type d ≠ T_DEV →
  do_get [path] img = Ret (EXIT_SUCCESS, content img ip) img.
Proof.
  intros Hroot Hres Ed Ht. pose proof Hroot as (HT & _ & Hd). cbn [do_get]. rewrite with_root_run by done.
  erewrite bind_ret by (by apply (ilookup_run HG)). rewrite Hres. erewrite bind_ret by reflexivity. rewrite Ed.
  rewrite (get_loop_run img ip d) by (done || apply HT || apply (g_uninit HG) || lia). done.
Qed.

(** ** mkdir and rm *)

Definition kept_files (img : image) (ip : inode_t) (img' : image) : Prop :=
  ∀ q e, q ≠ ip → inodes img !! q = Some e → d_type e = T_FILE → content img' q = content img q.

(** The path is a new directory; every name that was found is still found. *)
Record made (img : image) (path : list Z) (img' : image) : Prop := {
  md_rooted : rooted img';
  md_ext : extends img img';
  md_dir : ∃ ip dp, resolve img' root path = Some ip ∧ is_dir img' ip = true ∧
    parent img root (comps (S (length path)) path) = Some dp ∧
    dget img' ip DOT = Some ip ∧ dget img' ip DOTDOT = Some dp ∧ kept_files img ip img'
}.

Lemma do_mkdir_runs img path :
  rooted img → roomy img → Forall (λ c, c ≠ 0) path →
  let ok := resolve img root path = None ∧ is_Some (parent img root (comps (S (length path)) path)) in
  runs 6 (do_mkdir [path]) img (λ st img',
    st = EXIT_SUCCESS ∧ ok ∧ made img path img' ∨ st = EXIT_FAILURE ∧ ¬ ok ∧ img' = img).
Proof.
  intros Hroot [[i Hfree] Hroom] Hp ok. pose proof Hroot as (HT & Hi & Hd). unfold ok.
  cbn [do_mkdir]. apply runs_root; [done|]. eapply runs_read; [by apply (ilookup_run HG)|].
  destruct (resolve img root path) as [ip|] eqn:Eres.
  { eapply runs_ret; [reflexivity|apply spent_refl|]. right. split_and!; [done|by intros []|done]. }
  eapply runs_before; [eapply (icreat_loop_runs HG HD img T_DIR); eauto; done|]. intros [[ip dp]|] i1.
  - intros [Epar HC]. pose proof HC as [HT1 X W (e & Ee & He) T Hdp K N]. eapply runs_ret; [reflexivity|apply spent_refl|]. left.
    split_and!; [done|done|by rewrite Epar|]. rewrite decide_True in N by done. destruct N as [N1 N2].
    split; [by eapply rooted_extends|done|]. exists ip, dp. split_and!; try done.
    + unfold is_dir. destruct (inodes i1 !! ip) as [d1|]; [|done]. injection T as T. simpl in T. by rewrite T.
    + intros q f Hq Hf Htf. apply K; [|done]. intros ->. apply is_dir_inode in Hdp as (g & Eg & Hg). simplify_eq. by rewrite Hg in Htf.
  - intros [-> Hc]. eapply runs_ret; [reflexivity|apply spent_refl|]. right. split_and!; [done| |done]. intros [_ [dp Hdp]].
    destruct Hc as [Hc|Hc]; [|congruence]. unfold resolve in Eres. rewrite Eres in Hc. by destruct Hc.
Qed.

(** rm removes a file; it refuses directories and the names "." and "..". *)
Lemma do_rm_run img path : rooted img → Forall (λ c, c ≠ 0) path →
  match resolve img root path with
  | Some ip =>
      if is_dir img ip || is_dots (List.last (comps (S (length path)) path) [])
      then do_rm [path] img = Ret EXIT_FAILURE img
      else ∃ img', do_rm [path] img = Ret EXIT_SUCCESS img' ∧ removed img root (comps (S (length path)) path) ip img'
  | None => do_rm [path] img = Ret EXIT_FAILURE img
  end.
Proof.
  intros Hroot Hp. pose proof Hroot as (HT & Hi & Hd). cbn [do_rm].
  assert (∀ f : inode_t → M image Z, with_root f img = f root img) as Er by (intros; by apply with_root_run). rewrite !Er.
  erewrite bind_ret by (by apply (ilookup_run HG)). destruct (resolve img root path) as [ip|] eqn:Eres; [|done].
  destruct (walk_inode img _ HT _ _ Hd Eres) as [d Ed]. erewrite bind_ret by (by apply inode_run).
  rewrite (is_dir_test img ip d Ed). destruct (is_dir img ip) eqn:Eip; [done|]. cbn [orb].
  pose proof (iunlink_loop_run HG HD img ip HT Eip (S (length path)) path root Hd Hp ltac:(lia) Eres) as Hu.
  unfold iunlink. destruct (is_dots _).
  - by erewrite bind_ret by exact Hu.
  - destruct Hu as (img' & Eu & HR). exists img'. split; [|done]. by erewrite bind_ret by exact Eu.
Qed.

Lemma unlinked_rooted img dp name ip img' : rooted img → unlinked img dp name ip img' → rooted img'.
Proof. intros (_ & Hi & Hd) HU. split_and!; [apply HU|by rewrite (ul_sblk _ _ _ _ _ HU)|by rewrite (ul_dir _ _ _ _ _ HU)]. Qed.

(** ** The commands *)



(** C13. rm removes a file: the path denotes nothing any more, its inode has one link less and
    is freed with its blocks when that was the last one, every path to another inode and
    the contents of the other files are as before.  It always returns, and refuses
    directories and the names "." and "..", changing nothing. *)
Theorem do_rm_correct img path : rooted img → Forall (λ c, c ≠ 0) path →
  let ns := comps (S (length path)) path in
  match resolve img root path with
  | Some ip =>
      if is_dir img ip || is_dots (List.last ns []) then do_rm [path] img = Ret EXIT_FAILURE img else
      ∃ img', do_rm [path] img = Ret EXIT_SUCCESS img' ∧ rooted img' ∧ resolve img' root path = None ∧
        unlinked_inode img ip img' ∧
        (∀ path' q, Forall (λ c, c ≠ 0) path' → resolve img root path' = Some q → q ≠ ip → resolve img' root path' = Some q) ∧
        (∀ q d, q ≠ ip → inodes img !! q = Some d → d_type d ≠ T_DIR → content img' q = content img q)
  | None => do_rm [path] img = Ret EXIT_FAILURE img
  end.
Proof.
  intros Hroot Hp ns. pose proof (do_rm_run img path Hroot Hp) as H. fold ns in H.
  destruct (resolve img root path) as [ip|]; [|done]. destruct (is_dir img ip || _); [done|].
  destruct H as (img' & E & Hw & dp & name & HU). exists img'. split_and!; [done|by eapply unlinked_rooted|done|apply HU|..].
  - intros path' q Hp' Hq Hne. apply (walk_unlinked img dp name ip img' HU); [by apply (comps_ok HD)|apply Hroot|done|done].
  - intros q d Hne Ed Ht. apply (ul_content _ _ _ _ _ HU); [|done]. intros ->.
    destruct (ul_was _ _ _ _ _ HU) as (Hd & _). apply is_dir_inode in Hd as (e & Ee & He). congruence.
Qed.

End correct.
