(* ===== verification/Mkfs.v ===== *)
(** * Making a file system (tools/mkfs.c)

    mkfs writes an image with the files given to it.  Its state is the image and the two
    counters of the program; the image is the one of libfs, so that what mkfs makes is
    what opfs works on.  param.h and fs.h are not part of the repository, their constants
    are parameters.  The files are the names of the command line with the results of
    [read], a file that cannot be opened has none. *)

From stdpp Require Import base gmap list numbers option.
From Stdlib Require Import Lia ZArith.
From S2P Require Import Prelude Fs FsBlocks FsFile FsRw FsTrunc FsDir FsTree FsUnlink Opfs.

#[local] Open Scope Z_scope.
#[local] Open Scope yaos_scope.

(** param.h and fs.h *)
Class MkfsConf : Type := { FSSIZE : Z; LOGSIZE : Z; ROOTINO : Z }.

Definition NINODES : Z := 200.

Record mkfs : Type := mk_mkfs { fs_img : image; freeinode : Z; freeblock : Z }.

Definition set_img (i : image) (s : mkfs) : mkfs := mk_mkfs i (freeinode s) (freeblock s).
Definition set_freeinode (n : Z) (s : mkfs) : mkfs := mk_mkfs (fs_img s) n (freeblock s).
Definition set_freeblock (n : Z) (s : mkfs) : mkfs := mk_mkfs (fs_img s) (freeinode s) n.

Module mk.
Section mk.
Context {G : FsGeom} {C : MkfsConf}.

Definition nbitmap : Z := FSSIZE / (BSIZE * 8) + 1.
Definition ninodeblocks : Z := NINODES / IPB + 1.
Definition nlog : Z := LOGSIZE.
Definition nmeta : Z := 2 + ninodeblocks + nbitmap.
Definition nblocks : Z := FSSIZE - nlog - nmeta.

(** The bytes of the result, in the order of the machine. *)
Definition xshort (x : Z) : Z := le32 [u8 x; u8 (x .>> 8)].
Definition xint (x : Z) : Z := le32 [u8 x; u8 (x .>> 8); u8 (x .>> 16); u8 (x .>> 24)].

(** [exit (1)] *)
Definition exit1 {A} : M mkfs A := panic.

(** ** Sectors and inodes *)

Definition wsect (sec : Z) (buf : list Z) : M mkfs unit :=
  modify (λ s, let i := fs_img s in set_img (mk_img (sblk i) (inodes i) (<[sec := buf]> (blks i))) s).
Definition rsect (sec : Z) : M mkfs (list Z) :=
  o ← gets (λ s, blks (fs_img s) !! sec);
  match o with Some buf => mret buf | None => exit1 end.

Definition winode (inum : Z) (d : dinode) : M mkfs unit :=
  o ← gets (λ s, inodes (fs_img s) !! (IBLOCK inum, inum mod IPB));
  deref o ;;
  modify (λ s, let i := fs_img s in
    set_img (mk_img (sblk i) (<[(IBLOCK inum, inum mod IPB) := d]> (inodes i)) (blks i)) s).
Definition rinode (inum : Z) : M mkfs dinode :=
  o ← gets (λ s, inodes (fs_img s) !! (IBLOCK inum, inum mod IPB)); deref o.

Definition new_dinode (type : Z) : dinode :=
  mk_dinode (xshort type) 0 0 (xshort 1) (xint 0) (replicate (Z.to_nat (NDIRECT + 1)) 0)
    (xshort 99) (xshort 1) (xint 1792).

Definition ialloc (type : Z) : M mkfs Z :=
  inum ← gets freeinode;
  modify (set_freeinode (u32 (inum + 1))) ;;
  winode inum (new_dinode type) ;;
  mret inum.

Definition take_block : M mkfs Z :=
  b ← gets freeblock; modify (set_freeblock (u32 (b + 1))) ;; mret (xint b).

(** ** The bitmap *)

Fixpoint set_bits (n : nat) (i : Z) (buf : list Z) : M mkfs (list Z) :=
  match n with
  | O => mret buf
  | S n =>
      x ← deref (buf !! Z.to_nat (i / 8));
      set_bits n (i + 1) (<[Z.to_nat (i / 8) := u8 (x .| (1 .<< (i mod 8)))]> buf)
  end.

Definition balloc (used : Z) : M mkfs unit :=
  ASSERT (used <? BSIZE * 8) ;;
  buf ← set_bits (Z.to_nat used) 0 (replicate (Z.to_nat BSIZE) 0);
  wsect (ninodeblocks + 2) buf.

(** ** Appending to a file *)

(** The block of the file block [fbn], with the inode as it is then. *)
Definition file_block (din : dinode) (fbn : Z) : M mkfs (dinode * Z) :=
  if fbn <? NDIRECT then
    a ← deref (d_addrs din !! Z.to_nat fbn);
    din ← (if xint a =? 0 then b ← take_block; mret (set_addrs (<[Z.to_nat fbn := b]> (d_addrs din)) din)
           else mret din);
    a ← deref (d_addrs din !! Z.to_nat fbn);
    mret (din, xint a)
  else
    a ← deref (d_addrs din !! Z.to_nat NDIRECT);
    din ← (if xint a =? 0 then b ← take_block; mret (set_addrs (<[Z.to_nat NDIRECT := b]> (d_addrs din)) din)
           else mret din);
    a ← deref (d_addrs din !! Z.to_nat NDIRECT);
    indirect ← rsect (xint a);
    let k := fbn - NDIRECT in
    if inside indirect (4 * k) 4 then
      indirect ← (if le32 (slice indirect (4 * k) 4) =? 0 then
                    b ← take_block;
                    let indirect := store indirect (4 * k) (bytes32 b) in
                    wsect (xint a) indirect ;;
                    mret indirect
                  else mret indirect);
      mret (din, xint (le32 (slice indirect (4 * k) 4)))
    else fault.

Fixpoint iappend_loop (fuel : nat) (din : dinode) (off : Z) (p : list Z) : M mkfs (dinode * Z) :=
  match p with
  | [] => mret (din, off)
  | _ =>
      match fuel with
      | O => out_of_fuel
      | S fuel =>
          let fbn := off / BSIZE in
          ASSERT (fbn <? MAXFILE) ;;
          r ← file_block din fbn;
          let '(din, x) := r in
          let n1 := Fs.min (Z.of_nat (length p)) (u32 ((fbn + 1) * BSIZE - off)) in
          buf ← rsect x;
          (if inside buf (u32 (off - fbn * BSIZE)) n1 then mret tt else fault) ;;
          wsect x (store buf (u32 (off - fbn * BSIZE)) (take (Z.to_nat n1) p)) ;;
          iappend_loop fuel din (u32 (off + n1)) (drop (Z.to_nat n1) p)
      end
  end.

Definition iappend (inum : Z) (p : list Z) : M mkfs unit :=
  din ← rinode inum;
  r ← iappend_loop (length p) din (xint (d_size din)) p;
  let '(din, off) := r in
  winode inum (set_size (xint off) din).

(** ** main *)

Definition FS_PREFIX : list Z := [46; 102; 115; 47].

Definition base_name (arg : list Z) : list Z := if strncmp 4 arg FS_PREFIX =? 0 then drop 4 arg else arg.

(** An entry for the name: [bzero], then the number and the name; [strcpy] also writes
    the final 0. *)
Definition entry_for (inum : Z) (name : list Z) : dirent := mk_dirent (xshort inum) (strncpy name DIRSIZ).
Definition strcpy_entry (inum : Z) (name : list Z) : M mkfs dirent :=
  if Z.of_nat (length name) <? DIRSIZ then mret (entry_for inum name) else fault.

Fixpoint append_all (inum : Z) (reads : list (list Z)) : M mkfs unit :=
  match reads with
  | [] => mret tt
  | buf :: reads => if 0 <? Z.of_nat (length buf) then iappend inum buf ;; append_all inum reads else mret tt
  end.

(** An argument: the name and, when it can be opened, the results of [read]. *)
Definition add_file (rootino : Z) (f : list Z * option (list (list Z))) : M mkfs unit :=
  let name := base_name f.1 in
  ASSERT (negb (bool_decide (SEP ∈ name))) ;;
  match f.2 with
  | None => exit1
  | Some reads =>
      inum ← ialloc T_FILE;
      iappend rootino (bytes_of (entry_for inum name)) ;;
      append_all inum reads
  end.

Fixpoint add_files (rootino : Z) (fs : list (list Z * option (list (list Z)))) : M mkfs unit :=
  match fs with
  | [] => mret tt
  | f :: fs => add_file rootino f ;; add_files rootino fs
  end.

(** Every sector is zero, among them the inodes. *)
Definition blank_disk (s : mkfs) : mkfs :=
  set_img (mk_img (sblk (fs_img s))
    (list_to_map (map (λ i, ((IBLOCK i, i mod IPB), dinode0)) (seqZ 0 (ninodeblocks * IPB))))
    (list_to_map (map (λ b, (b, replicate (Z.to_nat BSIZE) 0)) (seqZ 0 FSSIZE)))) s.

Definition set_sblk (sb : superblock) (s : mkfs) : mkfs :=
  set_img (mk_img sb (inodes (fs_img s)) (blks (fs_img s))) s.

Definition main (fs : list (list Z * option (list (list Z)))) : M mkfs unit :=
  ASSERT (BSIZE mod sizeof_dirent =? 0) ;;
  modify (set_freeblock nmeta) ;;
  modify blank_disk ;;
  modify (set_sblk (mk_sb (xint FSSIZE) (xint nblocks) (xint NINODES) (xint nlog))) ;;
  rootino ← ialloc T_DIR;
  ASSERT (rootino =? ROOTINO) ;;
  de ← strcpy_entry rootino DOT;
  iappend rootino (bytes_of de) ;;
  de ← strcpy_entry rootino DOTDOT;
  iappend rootino (bytes_of de) ;;
  add_files rootino fs ;;
  din ← rinode rootino;
  let off := u32 ((xint (d_size din) / BSIZE + 1) * BSIZE) in
  winode rootino (set_size (xint off) din) ;;
  used ← gets freeblock;
  balloc (s32 used).

(** The state the program starts in: the image file is empty. *)
Definition init : mkfs := mk_mkfs (mk_img (mk_sb 0 0 0 0) ∅ ∅) 1 0.

End mk.
End mk.
