(* ===== verification/MkfsOk.v ===== *)
(** * Appending to a file of a new image (tools/mkfs.c)

    While mkfs runs, the bitmap is still empty.  [view] is the image it will write: the
    one at hand with the blocks below [freeblock] marked.  On the view, appending to a
    file is what libfs does at its end. *)

From stdpp Require Import base gmap list numbers option.
From Stdlib Require Import Lia ZArith.
From S2P Require Import Prelude Fs FsBlocks FsFile FsRw FsTrunc FsDir FsTree FsUnlink Opfs Mkfs.

#[local] Open Scope Z_scope.
#[local] Open Scope yaos_scope.

(** The constants of param.h and fs.h. *)
Record conf_ok {G : FsGeom} {C : MkfsConf} : Prop := {
  c_root : ROOTINO = 1;
  c_log : 0 ≤ LOGSIZE;
  c_blocks : 0 ≤ mk.nblocks;
  c_31 : FSSIZE + BPB ≤ 2 ^ 31;
  c_dirsiz : 3 ≤ DIRSIZ
}.
Arguments conf_ok : clear implicits.

Section mkfs.
Context {G : FsGeom} {C : MkfsConf} (HG : geom_ok G) (HD : dirent_laws G) (HC : conf_ok G C).

(** ** Byte order *)

Lemma xint_id x : 0 ≤ x < 2 ^ 32 → mk.xint x = x.
Proof.
  intros Hx. rewrite <- (le32_bytes32 x Hx) at 2. unfold mk.xint, bytes32, u8, wrap.
  rewrite !Z.shiftr_div_pow2 by lia. done.
Qed.

Lemma xshort_id x : 0 ≤ x < 2 ^ 16 → mk.xshort x = x.
Proof.
  intros Hx. unfold mk.xshort, le32, u8, wrap. cbn [foldr]. rewrite Z.shiftr_div_pow2 by lia.
  rewrite (Z.mod_small (x / 2 ^ 8)); [|split; [apply Z.div_pos; lia|apply Z.div_lt_upper_bound; lia]].
  pose proof (Z.div_mod x (2 ^ 8)). lia.
Qed.

(** ** The bitmap *)

Definition bit (buf : list Z) (j : Z) : bool :=
  match buf !! Z.to_nat (j / 8) with Some x => Z.testbit x (j mod 8) | None => false end.

Fixpoint bits_from (n : nat) (i : Z) (buf : list Z) : list Z :=
  match n with
  | O => buf
  | S n => bits_from n (i + 1)
      (<[Z.to_nat (i / 8) := u8 (default 0 (buf !! Z.to_nat (i / 8)) .| (1 .<< (i mod 8)))]> buf)
  end.

(** The first [n] bits set. *)
Definition bits (n : Z) : list Z := bits_from (Z.to_nat n) 0 (replicate (Z.to_nat BSIZE) 0).

Lemma set_bits_run n : ∀ i buf s, 0 ≤ i → i + Z.of_nat n ≤ 8 * Z.of_nat (length buf) →
  mk.set_bits n i buf s = Ret (bits_from n i buf) s.
Proof.
  induction n as [|n IH]; intros i buf s Hi Hn; [done|]. cbn [mk.set_bits bits_from].
  assert (0 ≤ i / 8 < Z.of_nat (length buf)) by (split; [apply Z.div_pos; lia|apply Z.div_lt_upper_bound; lia]).
  destruct (lookup_lt_is_Some_2 buf (Z.to_nat (i / 8))) as [x Ex]; [lia|]. rewrite Ex.
  erewrite bind_ret by reflexivity. apply IH; [lia|]. rewrite length_insert. lia.
Qed.

Lemma bits_from_spec n : ∀ i buf, 0 ≤ i → i + Z.of_nat n ≤ 8 * Z.of_nat (length buf) →
  length (bits_from n i buf) = length buf ∧
  ∀ j, 0 ≤ j < 8 * Z.of_nat (length buf) → bit (bits_from n i buf) j = ((i <=? j) && (j <? i + Z.of_nat n)) || bit buf j.
Proof.
  induction n as [|n IH]; intros i buf Hi Hn; cbn [bits_from].
  - split; [done|]. intros j Hj. destruct (Z.leb_spec i j), (Z.ltb_spec j (i + Z.of_nat 0)); done || lia.
  - assert (0 ≤ i / 8 < Z.of_nat (length buf)) by (split; [apply Z.div_pos; lia|apply Z.div_lt_upper_bound; lia]).
    destruct (lookup_lt_is_Some_2 buf (Z.to_nat (i / 8))) as [x Ex]; [lia|]. rewrite Ex. cbn [default from_option id].
    set (buf' := <[_ := _]> buf). assert (length buf' = length buf) as Hl by apply length_insert.
    destruct (IH (i + 1) buf') as [IH1 IH2]; [lia|lia|]. rewrite Hl in *. split; [done|]. intros j Hj. rewrite IH2 by done.
    assert (0 ≤ j / 8) by (apply Z.div_pos; lia). pose proof (Z.mod_pos_bound j 8 ltac:(lia)). pose proof (Z.mod_pos_bound i 8 ltac:(lia)).
    assert (bit buf' j = (j =? i) || bit buf j) as ->.
    { unfold bit, buf'. destruct (decide (j / 8 = i / 8)) as [E|E].
      - rewrite E, list_lookup_insert_eq, Ex by lia. unfold u8, wrap. rewrite Z.mod_pow2_bits_low by lia.
        rewrite Z.lor_spec, Z.shiftl_spec, orb_comm by lia. f_equal. destruct (Z.eqb_spec j i) as [->|Hne].
        + by rewrite Z.sub_diag.
        + assert (j mod 8 ≠ i mod 8) by (intros Em; apply Hne; rewrite (Z.div_mod j 8), (Z.div_mod i 8), E, Em by lia; done).
          destruct (decide (j mod 8 < i mod 8)); [by apply Z.testbit_neg_r; lia|].
          rewrite Z.bits_above_log2; [done|lia|]. change (Z.log2 1) with 0. lia.
      - rewrite list_lookup_insert_ne by lia. destruct (Z.eqb_spec j i) as [->|]; [done|]. done. }
    destruct (Z.leb_spec (i + 1) j), (Z.leb_spec i j), (Z.eqb_spec j i), (Z.ltb_spec j (i + 1 + Z.of_nat n)), (Z.ltb_spec j (i + Z.of_nat (S n)));
      simpl; done || lia.
Qed.

Lemma bits_spec n : 0 ≤ n ≤ BPB → length (bits n) = Z.to_nat BSIZE ∧ ∀ j, 0 ≤ j < BPB → bit (bits n) j = (j <? n).
Proof.
  intros Hn. rewrite (g_bpb HG) in *. pose proof (g_bsize HG).
  destruct (bits_from_spec (Z.to_nat n) 0 (replicate (Z.to_nat BSIZE) 0)) as [H1 H2]; [lia|rewrite length_replicate; lia|].
  rewrite length_replicate in *. split; [done|]. intros j Hj. unfold bits. rewrite H2 by lia.
  replace (bit (replicate (Z.to_nat BSIZE) 0) j) with false.
  - rewrite orb_false_r, (proj2 (Z.leb_le 0 j)) by lia. simpl. by rewrite Z2Nat.id by lia.
  - unfold bit. destruct (replicate _ 0 !! _) as [x|] eqn:E; [|done]. apply lookup_replicate in E as [-> _]. by rewrite Z.bits_0.
Qed.

(** ** The view *)

Definition BM : Z := mk.ninodeblocks + 2.
Definition the_sb : superblock := mk_sb FSSIZE mk.nblocks NINODES mk.nlog.
Definition limit : Z := mk.nmeta + mk.nblocks.

Definition view (i : image) (fb : Z) : image := mk_img (sblk i) (inodes i) (<[BM := bits fb]> (blks i)).

(** The blocks that are not in use yet are zero. *)
Record fresh (i : image) (fb : Z) : Prop := {
  f_sblk : sblk i = the_sb;
  f_range : mk.nmeta ≤ fb ≤ limit;
  f_bits : fb < BPB;
  f_zero : ∀ x, fb ≤ x < limit → blks i !! x = Some zero_block;
  f_bitmap : ∀ x, BM < x < mk.nmeta → blks i !! x = Some zero_block
}.

Lemma blocks_pos : 0 < mk.ninodeblocks ∧ 0 < mk.nbitmap ∧ 0 ≤ FSSIZE.
Proof.
  pose proof (g_ipb HG). pose proof (g_bsize HG). pose proof (c_blocks HC) as Hb. pose proof (c_log HC).
  assert (0 < mk.ninodeblocks) as Hi by (unfold mk.ninodeblocks, NINODES; pose proof (Z.div_pos 200 IPB); lia).
  assert (0 ≤ FSSIZE).
  { unfold mk.nblocks, mk.nmeta, mk.nbitmap, mk.nlog in Hb. destruct (decide (0 ≤ FSSIZE)); [done|].
    assert (FSSIZE ≤ FSSIZE / (BSIZE * 8)); [|lia]. apply Z.div_le_lower_bound; nia. }
  split_and!; [done| |done]. unfold mk.nbitmap. pose proof (Z.div_pos FSSIZE (BSIZE * 8)). lia.
Qed.

Lemma the_start : data_start the_sb = mk.nmeta.
Proof. unfold data_start, the_sb, mk.nmeta, mk.ninodeblocks, mk.nbitmap. simpl. lia. Qed.

Lemma is_data_sb b : is_data the_sb b ↔ mk.nmeta ≤ b < limit.
Proof. unfold is_data, limit. rewrite the_start. done. Qed.

Lemma bitmap_block x : 0 ≤ x < FSSIZE → BBLOCK x NINODES = BM + x / BPB ∧ BM ≤ BM + x / BPB < mk.nmeta.
Proof.
  intros Hx. pose proof (bpb_pos HG). rewrite (g_bblock HG). unfold BM, mk.nmeta, mk.nbitmap, mk.ninodeblocks.
  rewrite <- (g_bpb HG). assert (0 ≤ x / BPB) by (apply Z.div_pos; lia).
  assert (x / BPB ≤ FSSIZE / BPB) by (apply Z.div_le_mono; lia). lia.
Qed.

Lemma used_view i fb x : fresh i fb → 0 ≤ x < FSSIZE → used (view i fb) x = (x <? fb).
Proof.
  intros [Es Hr Hb Hz Hm] Hx. destruct (bitmap_block x Hx) as [E1 E2]. pose proof (bpb_pos HG). pose proof blocks_pos.
  unfold used, view. cbn [sblk blks]. rewrite Es. change (sb_ninodes the_sb) with NINODES. rewrite E1.
  assert (0 ≤ fb) by (unfold mk.nmeta in Hr; lia). destruct (decide (x < BPB)) as [Hlt|Hge].
  - rewrite Z.div_small, Z.add_0_r, lookup_insert_eq by lia. rewrite Z.mod_small by lia.
    destruct (bits_spec fb) as [_ Hbit]; [lia|]. rewrite <- (Hbit x) by lia. done.
  - assert (1 ≤ x / BPB) by (apply Z.div_le_lower_bound; lia). rewrite lookup_insert_ne by lia. rewrite Hm by lia.
    rewrite (proj2 (Z.ltb_ge x fb)) by lia. unfold zero_block. destruct (replicate _ 0 !! _) as [y|] eqn:E; [|done].
    apply lookup_replicate in E as [-> _]. by rewrite Z.bits_0.
Qed.

Lemma put_layout img b l : layout img → length l = Z.to_nat BSIZE →
  layout (mk_img (sblk img) (inodes img) (<[b := l]> (blks img))).
Proof.
  intros [H1 H2 H3 H4 H5 H6 H7 H8] Hl. split; try done; cbn [sblk blks]; intros c Hc.
  - destruct (decide (b = BBLOCK c (sb_ninodes (sblk img)))) as [<-|]; [rewrite lookup_insert_eq|rewrite lookup_insert_ne by done]; eauto.
  - destruct (decide (b = c)) as [<-|]; [rewrite lookup_insert_eq|rewrite lookup_insert_ne by done]; eauto.
Qed.

Lemma view_view i fb fb' : view (view i fb) fb' = view i fb'.
Proof. unfold view. cbn [sblk inodes blks]. by rewrite insert_insert_eq. Qed.

(** The next block is taken. *)
Lemma took_view i fb : slots_ok (view i fb) → fresh i fb → fb + 1 < BPB → fb < limit →
  is_data (sblk (view i fb)) fb ∧ used (view i fb) fb = false ∧ took (view i fb) fb (view i (fb + 1)) ∧ fresh i (fb + 1).
Proof.
  intros HS HF Hb1 Hl. pose proof HF as [Es Hr Hb Hz Hm]. pose proof blocks_pos as (Hp1 & Hp2 & Hp3).
  assert (0 ≤ mk.nlog) by apply HC. assert (limit ≤ FSSIZE) as Hlim by (unfold limit, mk.nblocks; lia).
  assert (0 < mk.nmeta) by (unfold mk.nmeta; lia).
  assert (fresh i (fb + 1)) as HF' by (split; try done; try lia; intros; apply Hz; lia).
  assert (BM < mk.nmeta) by (unfold BM, mk.nmeta; lia).
  split_and!; [| | |done].
  - cbn [sblk view]. rewrite Es. apply is_data_sb. lia.
  - rewrite used_view by (done || lia). apply Z.ltb_irrefl.
  - split.
    + rewrite <- (view_view i fb). apply put_layout; [apply HS|]. apply bits_spec. lia.
    + done.
    + done.
    + apply val_ext; [done|]. intros p Hp. destruct (s_slot _ HS (Ind p) I Hp) as [Hd _].
      change (sblk (view i fb)) with (sblk i) in Hd. rewrite Es in Hd. apply (proj1 (is_data_sb _)) in Hd. set (x := val (view i fb) (Ind p)) in *. unfold view. cbn [blks].
      by rewrite !lookup_insert_ne by lia.
    + intros x Hx. cbn [sblk view] in Hx. rewrite Es in Hx. apply (proj1 (is_data_sb _)) in Hx. rewrite !used_view by (done || lia).
      destruct (Z.ltb_spec x (fb + 1)), (Z.eqb_spec x fb), (Z.ltb_spec x fb); done || lia.
    + unfold view. cbn [blks]. rewrite lookup_insert_ne by lia. apply Hz. lia.
    + intros x Hx Hne. cbn [sblk view] in Hx. rewrite Es in Hx. apply (proj1 (is_data_sb _)) in Hx. unfold view. cbn [blks].
      by rewrite !lookup_insert_ne by lia.
Qed.

(** ** The block of a file *)

(** The view of a state in which the inode [p] is [din]. *)
Definition V (s : mkfs) (p : inode_t) (din : dinode) : image := view (with_inode (fs_img s) p din) (freeblock s).

(** What a step of iappend leaves: it takes at most [c] blocks and writes no inode. *)
Record kept (s s' : mkfs) (c : Z) : Prop := {
  k_fresh : fresh (fs_img s') (freeblock s');
  k_blocks : freeblock s ≤ freeblock s' ≤ freeblock s + c;
  k_freeinode : freeinode s' = freeinode s;
  k_inodes : inodes (fs_img s') = inodes (fs_img s)
}.

Definition enough (s : mkfs) (c : Z) : Prop := freeblock s + c ≤ limit ∧ freeblock s + c < BPB.

Lemma kept_refl s : fresh (fs_img s) (freeblock s) → kept s s 0.
Proof. intros HF. split; done || lia. Qed.

Lemma kept_trans s1 s2 s3 a b : kept s1 s2 a → kept s2 s3 b → kept s1 s3 (a + b).
Proof. intros [H1 H2 H3 H4] [K1 K2 K3 K4]. split; [done|lia|congruence|congruence]. Qed.

Lemma kept_mono s s' a b : a ≤ b → kept s s' a → kept s s' b.
Proof. intros Hab [H1 H2 H3 H4]. split; done || lia. Qed.

Lemma fresh_small i fb : fresh i fb → 0 ≤ fb < 2 ^ 31.
Proof.
  intros [_ Hr _ _ _]. pose proof blocks_pos. pose proof (c_31 HC). pose proof (bpb_pos HG). pose proof (c_log HC).
  unfold limit, mk.nblocks, mk.nmeta, mk.nlog in *. lia.
Qed.

Lemma take_block_run s : 0 ≤ freeblock s < 2 ^ 31 →
  mk.take_block s = Ret (freeblock s) (set_freeblock (freeblock s + 1) s).
Proof.
  intros Hf. unfold mk.take_block. erewrite bind_ret by reflexivity. erewrite bind_ret by reflexivity.
  rewrite u32_in, xint_id by lia. done.
Qed.

Lemma V_inode s p din : inodes (V s p din) !! p = Some din.
Proof. unfold V, view, with_inode. cbn [inodes]. apply lookup_insert_eq. Qed.

Lemma V_addr s p din n v : with_addr (V s p din) p n v = V s p (set_addrs (<[Z.to_nat n := v]> (d_addrs din)) din).
Proof. unfold with_addr. rewrite V_inode. unfold V, view, with_inode. cbn [sblk inodes blks]. by rewrite insert_insert_eq. Qed.

Lemma addr_lookup s p din n : layout (V s p din) → 0 ≤ n ≤ NDIRECT → d_addrs din !! Z.to_nat n = Some (addr_of (V s p din) p n).
Proof.
  intros HL Hn. pose proof (l_iaddr _ HL _ _ (V_inode s p din)) as Hl. unfold addr_of. rewrite V_inode.
  destruct (lookup_lt_is_Some_2 (d_addrs din) (Z.to_nat n)) as [x Hx]; [lia|]. by rewrite Hx.
Qed.

Lemma val_range img t : slots_ok img → slot_ok t → 0 ≤ val img t < 2 ^ 31.
Proof.
  intros HS Ht. destruct (decide (val img t = 0)) as [->|Hv]; [lia|]. destruct (s_slot _ HS t Ht Hv) as [Hd _].
  pose proof (data_in_image HG _ _ (s_layout _ HS) Hd). pose proof (l_size _ (s_layout _ HS)). pose proof (bpb_pos HG). lia.
Qed.

(** A data block is not the bitmap, so it is read as it is in the view. *)
Lemma V_block s p din b : fresh (fs_img s) (freeblock s) → is_data (sblk (V s p din)) b →
  blks (V s p din) !! b = blks (fs_img s) !! b ∧ b ≠ BM.
Proof.
  intros HF Hd. change (sblk (V s p din)) with (sblk (fs_img s)) in Hd. rewrite (f_sblk _ _ HF) in Hd.
  apply (proj1 (is_data_sb _)) in Hd. assert (BM ≠ b) by (unfold mk.nmeta in Hd; unfold BM; pose proof blocks_pos; lia).
  split; [|done]. unfold V, view, with_inode. cbn [blks]. by rewrite lookup_insert_ne.
Qed.

Lemma rsect_run s p din b l : fresh (fs_img s) (freeblock s) → is_data (sblk (V s p din)) b →
  blks (V s p din) !! b = Some l → mk.rsect b s = Ret l s.
Proof.
  intros HF Hd Hl. rewrite (proj1 (V_block s p din b HF Hd)) in Hl. unfold mk.rsect.
  erewrite bind_ret by reflexivity. by rewrite Hl.
Qed.

Definition put_sect (s : mkfs) (b : Z) (l : list Z) : mkfs :=
  set_img (mk_img (sblk (fs_img s)) (inodes (fs_img s)) (<[b := l]> (blks (fs_img s)))) s.

Lemma V_put s p din b l : b ≠ BM → V (put_sect s b l) p din =
  mk_img (sblk (V s p din)) (inodes (V s p din)) (<[b := l]> (blks (V s p din))).
Proof. intros Hb. unfold V, view, with_inode, put_sect. cbn. by rewrite insert_insert_ne. Qed.

(** Writing a block in use. *)
Lemma put_kept s b l : fresh (fs_img s) (freeblock s) → mk.nmeta ≤ b < freeblock s → kept s (put_sect s b l) 0.
Proof.
  intros [H1 H2 H3 H4 H5] Hb. split; [|cbn; lia|done|done]. split; try done; cbn; intros x Hx; rewrite lookup_insert_ne by lia; auto.
Qed.

Lemma used_below s p din b : fresh (fs_img s) (freeblock s) → is_data (sblk (V s p din)) b → used (V s p din) b = true →
  mk.nmeta ≤ b < freeblock s.
Proof.
  intros HF Hd Hu. change (sblk (V s p din)) with (sblk (fs_img s)) in Hd. rewrite (f_sblk _ _ HF) in Hd.
  apply (proj1 (is_data_sb _)) in Hd. split; [lia|]. pose proof blocks_pos. pose proof (c_log HC).
  unfold V in Hu. rewrite used_view in Hu; [by apply Z.ltb_lt| |].
  - by destruct HF; split.
  - unfold limit, mk.nblocks, mk.nlog, mk.nmeta in *. lia.
Qed.

Lemma fresh_inode i p d fb : fresh i fb → fresh (with_inode i p d) fb.
Proof. intros [H1 H2 H3 H4 H5]. by split. Qed.

Lemma take_took s p din : slots_ok (V s p din) → fresh (fs_img s) (freeblock s) → enough s 1 → ∃ s1,
  mk.take_block s = Ret (freeblock s) s1 ∧ is_data (sblk (V s p din)) (freeblock s) ∧ used (V s p din) (freeblock s) = false ∧
  took (V s p din) (freeblock s) (V s1 p din) ∧ kept s s1 1.
Proof.
  intros HS HF [He1 He2]. pose proof (fresh_small _ _ HF). exists (set_freeblock (freeblock s + 1) s).
  destruct (took_view (with_inode (fs_img s) p din) (freeblock s) HS) as (H1 & H2 & H3 & H4); [by apply fresh_inode|lia|lia|].
  split_and!; [by apply take_block_run|done..|]. split; [|cbn; lia|done|done]. destruct H4. by split.
Qed.

(** The result of [file_block]. *)
Definition block_found (s : mkfs) (p : inode_t) (din : dinode) (F : inode_t → list (list Z)) (n : Z)
    (r : outcome mkfs (dinode * Z)) : Prop :=
  ∃ s' din' F', r = Ret (din', val (V s' p din') (Data p n)) s' ∧
    F' = (if decide (n < Z.of_nat (length (F p))) then F else upd F p (F p ++ [zero_block])) ∧
    rep (V s' p din') F' ∧ same_meta (V s p din) (V s' p din') ∧
    (∀ q, q ≠ p ∨ n < NDIRECT ∨ n < Z.of_nat (length (F p)) → val (V s' p din') (Ind q) = val (V s p din) (Ind q)) ∧
    kept s s' (if decide (n < Z.of_nat (length (F p))) then 0 else 2).

Lemma block_have s p din F n l :
  rep (V s p din) F → fresh (fs_img s) (freeblock s) → 0 ≤ n → F p !! Z.to_nat n = Some l →
  block_found s p din F n (mk.file_block din n s).
Proof.
  intros HR HF Hn Hl. pose proof HR as [HS HB]. pose proof (s_layout _ HS) as HL. pose proof (g_ndirect HG).
  pose proof (g_maxfile HG). pose proof (V_inode s p din) as Ed. assert (is_Some (inodes (V s p din) !! p)) as Hp by eauto.
  destruct (b_data _ _ HB p n l Hp Hn Hl) as [Hv _]. destruct (slot_range _ F p n l HR Hp Hn Hl) as (Hok & _). cbn [slot_ok] in Hok.
  apply lookup_lt_Some in Hl as Hlt. exists s, din, F. rewrite !decide_True by lia.
  split_and!; [|done|done|apply same_meta_refl|done|by apply kept_refl].
  pose proof (val_range _ (Data p n) HS Hok) as Hr. unfold mk.file_block. destruct (Z.ltb_spec n NDIRECT) as [Hd|Hd].
  - rewrite (addr_lookup s p din n HL) by lia. erewrite bind_ret by reflexivity.
    assert (addr_of (V s p din) p n = val (V s p din) (Data p n)) as -> by (cbn [val]; by rewrite (proj2 (Z.ltb_lt n NDIRECT))).
    rewrite xint_id, (proj2 (Z.eqb_neq _ _) Hv) by lia. erewrite bind_ret by reflexivity.
    rewrite (addr_lookup s p din n HL) by lia. erewrite bind_ret by reflexivity.
    assert (addr_of (V s p din) p n = val (V s p din) (Data p n)) as -> by (cbn [val]; by rewrite (proj2 (Z.ltb_lt n NDIRECT))).
    by rewrite xint_id by lia.
  - assert (val (V s p din) (Ind p) ≠ 0) as Hia by (apply (b_ind _ _ HB); [done|lia]).
    assert (0 ≤ n - NDIRECT < NINDIRECT) as Hk by lia.
    pose proof (val_range _ (Ind p) HS I) as Hri. destruct (s_slot _ HS (Ind p) I Hia) as [Hdi _].
    destruct (l_data _ HL _ Hdi) as (li & Eli & Hli). pose proof (ind_entry HG _ p n HS Hia ltac:(lia)) as Eg0.
    rewrite (get_uint_run HG _ _ _ li Eli Hli) in Eg0 by lia.
    assert (uint_at li (n - NDIRECT) = val (V s p din) (Data p n)) as Eg by congruence.
    rewrite (addr_lookup s p din NDIRECT HL) by lia. change (addr_of (V s p din) p NDIRECT) with (val (V s p din) (Ind p)).
    erewrite bind_ret by reflexivity. rewrite xint_id, (proj2 (Z.eqb_neq _ _) Hia) by lia. erewrite bind_ret by reflexivity.
    rewrite (addr_lookup s p din NDIRECT HL) by lia. change (addr_of (V s p din) p NDIRECT) with (val (V s p din) (Ind p)).
    erewrite bind_ret by reflexivity. rewrite xint_id by lia. erewrite bind_ret by (by eapply rsect_run).
    cbv zeta. rewrite (proj2 (inside_spec li (4 * (n - NDIRECT)) 4)); [|pose proof (uint_room HG (n - NDIRECT) li Hk Hli); lia].
    change (le32 (slice li (4 * (n - NDIRECT)) 4)) with (uint_at li (n - NDIRECT)). rewrite Eg, (proj2 (Z.eqb_neq _ _) Hv).
    erewrite bind_ret by reflexivity. change (le32 (slice li (4 * (n - NDIRECT)) 4)) with (uint_at li (n - NDIRECT)).
    by rewrite Eg, xint_id by lia.
Qed.

Lemma block_new_direct s p din F : let n := Z.of_nat (length (F p)) in
  rep (V s p din) F → fresh (fs_img s) (freeblock s) → n < NDIRECT → enough s 2 →
  block_found s p din F n (mk.file_block din n s).
Proof.
  intros n HR HF Hlt [He1 He2]. pose proof HR as [HS HB]. pose proof (s_layout _ HS) as HL. pose proof (V_inode s p din) as Ed.
  assert (is_Some (inodes (V s p din) !! p)) as Hp by eauto. pose proof (g_maxfile HG). pose proof (g_nindirect HG).
  assert (0 ≤ BSIZE / 4) by (apply Z.div_pos; pose proof (g_bsize HG); lia).
  assert (val (V s p din) (Data p n) = 0) as Hz by (apply (b_hole _ _ HB); [done|lia|apply lookup_ge_None; lia]).
  destruct (take_took s p din HS HF) as (s1 & E1 & Hd & Hu & HT & HK); [split; lia|].
  destruct (link_direct HG (V s p din) F p din _ _ HR Ed Hlt Hd Hu HT) as [(HR2 & Hm2 & Hq2) Hv2].
  fold n in HR2, Hm2, Hq2, Hv2. rewrite V_addr in HR2, Hm2, Hq2, Hv2.
  set (din2 := set_addrs _ din) in *. exists s1, din2, (upd F p (F p ++ [zero_block])).
  rewrite !decide_False by lia. split_and!; [|done|done|done|by intros q [?|?]; apply Hq2; auto|by eapply kept_mono; [|exact HK]].
  unfold mk.file_block. rewrite (proj2 (Z.ltb_lt n NDIRECT) Hlt). rewrite (addr_lookup s p din n HL) by lia.
  erewrite bind_ret by reflexivity. cbn [val] in Hz. rewrite (proj2 (Z.ltb_lt n NDIRECT) Hlt) in Hz. rewrite Hz.
  change (mk.xint 0 =? 0) with true. cbv iota. rewrite bind_assoc. erewrite bind_ret by exact E1. erewrite bind_ret by reflexivity.
  fold din2. rewrite (addr_lookup s1 p din2 n (s_layout _ (proj1 HR2))) by lia. erewrite bind_ret by reflexivity.
  assert (addr_of (V s1 p din2) p n = val (V s1 p din2) (Data p n)) as -> by (cbn [val]; by rewrite (proj2 (Z.ltb_lt n NDIRECT))).
  pose proof (fresh_small _ _ HF). rewrite Hv2, xint_id by lia. done.
Qed.

(** The indirect block of the file, taken when there is none. *)
Definition ind_block (din : dinode) : M mkfs dinode :=
  a ← deref (d_addrs din !! Z.to_nat NDIRECT);
  if mk.xint a =? 0 then b ← mk.take_block; mret (set_addrs (<[Z.to_nat NDIRECT := b]> (d_addrs din)) din) else mret din.

Lemma ind_ready s p din F :
  rep (V s p din) F → fresh (fs_img s) (freeblock s) → enough s 2 → ∃ s2 din2,
  ind_block din s = Ret din2 s2 ∧ rep (V s2 p din2) F ∧ same_meta (V s p din) (V s2 p din2) ∧
  val (V s2 p din2) (Ind p) ≠ 0 ∧ (∀ q, q ≠ p → val (V s2 p din2) (Ind q) = val (V s p din) (Ind q)) ∧ kept s s2 1.
Proof.
  intros HR HF [He1 He2]. pose proof HR as [HS HB]. pose proof (s_layout _ HS) as HL. pose proof (V_inode s p din) as Ed.
  pose proof (g_ndirect HG). unfold ind_block. rewrite (addr_lookup s p din NDIRECT HL) by lia.
  change (addr_of (V s p din) p NDIRECT) with (val (V s p din) (Ind p)). erewrite bind_ret by reflexivity.
  pose proof (val_range _ (Ind p) HS I). rewrite xint_id by lia. destruct (Z.eqb_spec (val (V s p din) (Ind p)) 0) as [Hz|Hz].
  - destruct (take_took s p din HS HF) as (s1 & E1 & Hd & Hu & HT & HK); [split; lia|].
    destruct (link_ind HG (V s p din) F p din _ _ HR Ed Hz Hd Hu HT) as (HR2 & Hm2 & Hv2 & Hq2).
    rewrite V_addr in HR2, Hm2, Hv2, Hq2. eexists s1, _. split; [by erewrite bind_ret by exact E1|].
    split_and!; try done. rewrite Hv2. by apply (data_nonzero HG (V s p din)).
  - exists s, din. split_and!; try done. eapply kept_mono; [|by apply kept_refl]. lia.
Qed.

Lemma block_new_indirect s p din F : let n := Z.of_nat (length (F p)) in
  rep (V s p din) F → fresh (fs_img s) (freeblock s) → NDIRECT ≤ n < MAXFILE → enough s 2 →
  block_found s p din F n (mk.file_block din n s).
Proof.
  intros n HR HF Hn He. pose proof (g_ndirect HG). pose proof (g_maxfile HG).
  destruct (ind_ready s p din F HR HF He) as (s2 & din2 & E2 & HR2 & Hm2 & Hia & Hq2 & HK2). destruct He as [He1 He2].
  pose proof HR2 as [HS2 HB2]. pose proof (s_layout _ HS2) as HL2. pose proof (V_inode s2 p din2) as Ed2.
  assert (is_Some (inodes (V s2 p din2) !! p)) as Hp2 by eauto. pose proof (k_fresh _ _ _ HK2) as HF2. pose proof (k_blocks _ _ _ HK2).
  assert (val (V s2 p din2) (Data p n) = 0) as Hz by (apply (b_hole _ _ HB2); [done|lia|apply lookup_ge_None; lia]).
  pose proof (val_range _ (Ind p) HS2 I) as Hri. destruct (s_slot _ HS2 (Ind p) I Hia) as [Hdi Hui].
  destruct (l_data _ HL2 _ Hdi) as (li & Eli & Hli). assert (0 ≤ n - NDIRECT < NINDIRECT) as Hk by lia.
  pose proof (ind_entry HG _ p n HS2 Hia ltac:(lia)) as Eg0. rewrite (get_uint_run HG _ _ _ li Eli Hli) in Eg0 by lia.
  assert (uint_at li (n - NDIRECT) = 0) as Eg by congruence. pose proof (uint_room HG _ li Hk Hli) as Hroom.
  destruct (take_took s2 p din2 HS2 HF2) as (s3 & E3 & Hd & Hu & HT & HK3); [split; lia|].
  destruct (link_indirect HG (V s2 p din2) F p din2 _ _ HR2 Ed2 Hia Hn Hd Hu HT) as ((HR4 & Hm4 & Hq4) & Hv4 & _). fold n in HR4, Hm4, Hq4, Hv4.
  set (ia := val (V s2 p din2) (Ind p)) in *. set (b := freeblock s2) in *. set (l2 := store li (4 * (n - NDIRECT)) (bytes32 b)).
  assert (ia ≠ b) as Hib by (intros E; rewrite E in Hui; congruence).
  assert (blks (V s3 p din2) !! ia = Some li) as Eli3 by (rewrite (tk_data _ _ _ HT); done).
  assert (with_uint (V s3 p din2) ia (n - NDIRECT) b = V (put_sect s3 ia l2) p din2) as E4.
  { rewrite V_put by (by apply (V_block s2 p din2)). unfold with_uint. by rewrite Eli3. }
  rewrite E4 in HR4, Hm4, Hq4, Hv4. exists (put_sect s3 ia l2), din2, (upd F p (F p ++ [zero_block])).
  rewrite !decide_False by lia. split_and!; [|done|done|by eapply same_meta_trans| |].
  - unfold mk.file_block. rewrite (proj2 (Z.ltb_ge n NDIRECT)) by lia. rewrite <- bind_assoc. fold (ind_block din).
    erewrite bind_ret by exact E2. rewrite (addr_lookup s2 p din2 NDIRECT HL2) by lia.
    change (addr_of (V s2 p din2) p NDIRECT) with ia. erewrite bind_ret by reflexivity. rewrite xint_id by lia.
    erewrite bind_ret by (by eapply rsect_run). cbv zeta. rewrite (proj2 (inside_spec li (4 * (n - NDIRECT)) 4)) by lia.
    change (le32 (slice li (4 * (n - NDIRECT)) 4)) with (uint_at li (n - NDIRECT)). rewrite Eg. change (0 =? 0) with true. cbv iota.
    rewrite bind_assoc. erewrite bind_ret by exact E3. rewrite bind_assoc. erewrite bind_ret by reflexivity. erewrite bind_ret by reflexivity.
    fold b. fold l2. pose proof (fresh_small _ _ HF2). assert (uint_at l2 (n - NDIRECT) = b) as E5 by (apply uint_at_store_same; lia).
    change (le32 (slice l2 (4 * (n - NDIRECT)) 4)) with (uint_at l2 (n - NDIRECT)). rewrite Hv4, E5, xint_id by lia. done.
  - intros q [Hne|?]; [|lia]. rewrite Hq4 by auto. by apply Hq2.
  - eapply (kept_trans _ s2 _ 1 1); [done|]. eapply (kept_trans _ s3 _ 1 0); [done|].
    apply put_kept; [apply HK3|]. pose proof (used_below s2 p din2 ia HF2 Hdi Hui). pose proof (k_blocks _ _ _ HK3). lia.
Qed.

(** The block is found, or added at the end of the file. *)
Lemma file_block_spec s p din F n :
  rep (V s p din) F → fresh (fs_img s) (freeblock s) → 0 ≤ n ≤ Z.of_nat (length (F p)) → n < MAXFILE →
  enough s (if decide (n < Z.of_nat (length (F p))) then 0 else 2) → block_found s p din F n (mk.file_block din n s).
Proof.
  intros HR HF Hn HM He. destruct (decide (n < Z.of_nat (length (F p)))) as [Hlt|Hge].
  - destruct (lookup_lt_is_Some_2 (F p) (Z.to_nat n)) as [l Hl]; [lia|]. eapply block_have; eauto; lia.
  - assert (n = Z.of_nat (length (F p))) as -> by lia. destruct (decide (Z.of_nat (length (F p)) < NDIRECT)).
    + by apply block_new_direct.
    + apply block_new_indirect; done || lia.
Qed.

(** ** Appending *)

Lemma n1_spec (p : list Z) off : p ≠ [] → 0 ≤ off → off + BSIZE < 2 ^ 32 →
  let m := Fs.min (Z.of_nat (length p)) (u32 ((off / BSIZE + 1) * BSIZE - off)) in
  0 < m ≤ Z.of_nat (length p) ∧ off mod BSIZE + m ≤ BSIZE ∧ u32 (off - off / BSIZE * BSIZE) = off mod BSIZE ∧
  Z.of_nat (length (take (Z.to_nat m) p)) = m.
Proof.
  intros Hp Ho H32. destruct (off_split HG off Ho) as (Hq & Hr & Eoff). pose proof (g_bsize HG).
  assert (0 < length p)%nat by (destruct p; simpl; done || lia).
  rewrite !u32_in by lia. unfold Fs.min. rewrite length_take. destruct (Z.ltb_spec (Z.of_nat (length p)) ((off / BSIZE + 1) * BSIZE - off)); lia.
Qed.

Lemma iappend_loop_run fuel s p din F off bs :
  rep (V s p din) F → fresh (fs_img s) (freeblock s) → 0 ≤ off ≤ Z.of_nat (length (F p)) * BSIZE →
  off + Z.of_nat (length bs) ≤ MAXFILESIZE → (length bs ≤ fuel)%nat →
  let e := off + Z.of_nat (length bs) in let c := Z.of_nat (grow (length (F p)) e) in enough s c →
  ∃ s' din' ls, mk.iappend_loop fuel din off bs s = Ret (din', e) s' ∧
    wrote (V s p din) F p off bs ls (V s' p din') ∧ kept s s' c.
Proof.
  revert s din F off bs. induction fuel as [|fuel IH]; intros s din F off bs HR HF Ho HM Hf e c He;
    (destruct (decide (bs = [])) as [->|Hne];
      [exists s, din, (F p); unfold e; simpl; rewrite Z.add_0_r; split_and!;
        [by try destruct fuel|apply (wrote_nil HG); [done|by rewrite V_inode|done]|eapply kept_mono; [|by apply kept_refl]; lia]|]).
  { destruct bs; simpl in Hf; done || lia. }
  pose proof (g_bsize HG). pose proof (g_maxsize HG) as H31. destruct (off_split HG off ltac:(lia)) as (Hq & Hr & Eoff).
  assert (0 < length bs)%nat by (destruct bs; simpl; done || lia).
  pose proof (bsize_31 HG). unfold MAXFILESIZE in HM.
  destruct (n1_spec bs off Hne ltac:(lia) ltac:(lia)) as (Hm1 & Hm2 & Emod & Hlen).
  assert (off / BSIZE < MAXFILE) as HMf by (apply (off_block HG); unfold MAXFILESIZE; lia).
  assert (off / BSIZE ≤ Z.of_nat (length (F p))) as Hle by (apply Z.div_le_upper_bound; lia).
  destruct bs as [|b0 bs0]; [done|]. set (bs := b0 :: bs0) in *. unfold bs at 1. cbn [mk.iappend_loop]. fold bs.
  set (m := Fs.min _ _) in *. set (a := take (Z.to_nat m) bs) in *. rewrite Emod.
  set (len2 := Z.max (Z.of_nat (length (F p))) (divceil (off + m) BSIZE)).
  pose proof (grow_step HG (length (F p)) (Z.to_nat len2) off m e Ho ltac:(lia) Hm2 ltac:(lia) ltac:(lia)) as Hg.
  rewrite (proj2 (Z.ltb_lt _ _) HMf). erewrite bind_ret by reflexivity.
  destruct (file_block_spec s p din F (off / BSIZE)) as (s1 & din1 & F1 & E1 & EF & HR1 & Hsm1 & Hq1 & HK1); [done|done|lia|done| |].
  { destruct He. split; destruct (decide _); lia. }
  erewrite bind_ret by exact E1. cbv beta iota.
  destruct (wrote_block HG (V s p din) F p off a (V s1 p din1) F1) as (l & Hd & Hu & Hbl & Hl & _ & la & Hwa);
    [lia|lia|lia|done|done|done|by rewrite V_inode|done|]. set (b := val _ _) in *.
  erewrite bind_ret by (by eapply rsect_run; [apply HK1| |]).
  rewrite (proj2 (inside_spec l (off mod BSIZE) m)) by lia. erewrite bind_ret by reflexivity.
  set (s2 := put_sect s1 b (store l (off mod BSIZE) a)). assert (mk.wsect b (store l (off mod BSIZE) a) s1 = Ret tt s2) as E2 by done.
  erewrite bind_ret by exact E2. rewrite <- V_put in Hwa by (by apply (V_block s1 p din1); [apply HK1|]). fold s2 in Hwa.
  assert (kept s1 s2 0) as HK2 by (apply put_kept; [apply HK1|]; by apply (used_below s1 p din1); [apply HK1|..]).
  pose proof (kept_trans _ _ _ _ _ HK1 HK2) as HK. rewrite u32_in by lia.
  pose proof Hwa as (HR2 & _ & Hl2 & _). rewrite Hlen in Hl2. fold len2 in Hl2.
  assert (length la = Z.to_nat len2) as Hla by lia.
  assert (off + m + Z.of_nat (length (drop (Z.to_nat m) bs)) = e) as Ee by (rewrite length_drop; unfold e; lia).
  destruct (IH s2 din1 (upd F p la) (off + m) (drop (Z.to_nat m) bs)) as (s3 & din3 & lb & E3 & Hwb & HK3); rewrite ?Ee, ?upd_eq, ?Hla in *.
  - done.
  - apply HK.
  - split; [lia|]. rewrite Z2Nat.id by lia. apply (divceil_room HG). lia.
  - unfold MAXFILESIZE. lia.
  - rewrite length_drop. lia.
  - destruct He, HK. split; destruct (decide _); lia.
  - exists s3, din3, lb. split_and!; [done| |].
    + assert (bs = a ++ drop (Z.to_nat m) bs) as Eb by (symmetry; apply take_drop). rewrite Eb.
      eapply (file_wrote_trans HG); [lia|exact Hwa|]. by rewrite Hlen.
    + eapply kept_mono; [|exact (kept_trans _ _ _ _ _ HK HK3)]. destruct (decide _); lia.
Qed.

(** The image as libfs will see it. *)
Definition shown (s : mkfs) : image := view (fs_img s) (freeblock s).

(** The bytes after the end of a file, in its last block, are zero. *)
Definition padded (img : image) (p : inode_t) : Prop := ∃ z, concat (blocks_of img p) = content img p ++ replicate z 0.

Record grown (s : mkfs) (p : inode_t) (bs : list Z) (s' : mkfs) (c : Z) : Prop := {
  gr_set : file_set (shown s) p (content (shown s) p ++ bs) (shown s');
  gr_fresh : fresh (fs_img s') (freeblock s');
  gr_blocks : freeblock s ≤ freeblock s' ≤ freeblock s + c;
  gr_freeinode : freeinode s' = freeinode s;
  gr_padded : ∀ q, is_Some (inodes (shown s) !! q) → padded (shown s) q → padded (shown s') q
}.

Lemma V_shown s p d : inodes (fs_img s) !! p = Some d → V s p d = shown s.
Proof. intros Ed. unfold V, shown, with_inode. rewrite insert_id by done. by destruct (fs_img s). Qed.

Lemma wrote_padded img p bs ls i1 img' :
  wrote img (blocks_of img) p (Z.of_nat (length (content img p))) bs ls i1 →
  file_set img p (content img p ++ bs) img' →
  (∀ q, is_Some (inodes img !! q) → blocks_of img' q = upd (blocks_of img) p ls q) →
  ∀ q, is_Some (inodes img !! q) → padded img q → padded img' q.
Proof.
  intros (_ & _ & _ & _ & z & _ & Ec) HF Hb q Hq [z0 Ez]. unfold padded. rewrite Hb by done.
  destruct (decide (q = p)) as [->|Hne]; [|rewrite upd_ne, (fset_other _ _ _ _ HF) by done; eauto].
  rewrite upd_eq, (fset_content _ _ _ _ HF), Ec, Ez. unfold store. rewrite Nat2Z.id, <- app_assoc, take_app_length.
  rewrite <- replicate_add, drop_app_ge, drop_replicate by lia. rewrite app_assoc. eauto.
Qed.

Lemma xint_size s p d : fs_ok (shown s) → inodes (fs_img s) !! p = Some d → mk.xint (d_size d) = d_size d ∧ 0 ≤ d_size d ≤ MAXFILESIZE ∧ MAXFILESIZE < 2 ^ 31.
Proof. intros Hok Ed. destruct (size_bound HG (shown s) p d Hok Ed). split_and!; [apply xint_id; lia|lia..]. Qed.

(** iappend appends the bytes to the file. *)
Lemma iappend_run s inum bs d : let p := inode_ptr inum in
  fs_ok (shown s) → fresh (fs_img s) (freeblock s) → inodes (fs_img s) !! p = Some d →
  d_size d + Z.of_nat (length bs) ≤ MAXFILESIZE →
  let c := 2 * (divceil (d_size d + Z.of_nat (length bs)) BSIZE - divceil (d_size d) BSIZE) in enough s c →
  ∃ s', mk.iappend inum bs s = Ret tt s' ∧ grown s p bs s' c.
Proof.
  intros p Hok HF Ed HM c He. destruct (xint_size s p d Hok Ed) as (Ex & Hs & H31).
  pose proof (blocks_of_length HG (shown s) p d Ed ltac:(lia)) as Hl. pose proof (divceil_bounds HG (d_size d) ltac:(lia)) as Hdc.
  pose proof (divceil_mono HG (d_size d) (d_size d + Z.of_nat (length bs)) ltac:(lia)). pose proof (g_bsize HG).
  assert (Z.of_nat (grow (length (blocks_of (shown s) p)) (d_size d + Z.of_nat (length bs))) = c) as Ec by (unfold grow; lia).
  pose proof (V_shown s p d Ed) as EV.
  destruct (iappend_loop_run (length bs) s p d (blocks_of (shown s)) (d_size d) bs) as (s1 & din1 & ls & E1 & Hw & HK);
    [rewrite EV; apply Hok|done|nia|done|done|by rewrite Ec|]. rewrite EV in Hw. rewrite Ec in HK.
  destruct (wrote_file_set HG (shown s) p d (d_size d) bs ls (V s1 p din1) Hok Ed ltac:(lia) HM Hw) as (d1 & Ed1 & HS & Hb).
  rewrite V_inode in Ed1. injection Ed1 as <-. rewrite Z.max_r in HS, Hb by lia.
  pose proof (content_length HG (shown s) p d Hok Ed) as Hcl. rewrite <- Hcl, store_end in HS.
  set (din2 := set_size (d_size d + Z.of_nat (length bs)) din1) in *. rewrite Hcl in HS. fold din2 in HS.
  set (s2 := set_img (with_inode (fs_img s1) p din2) s1).
  assert (with_inode (V s1 p din1) p din2 = shown s2) as E2.
  { unfold V, shown, view, with_inode, s2. cbn. by rewrite insert_insert_eq. }
  rewrite E2 in HS, Hb. exists s2. split.
  - unfold mk.iappend, mk.rinode. rewrite bind_assoc. erewrite bind_ret by reflexivity. fold p. fold (inode_ptr inum). fold p. rewrite Ed.
    erewrite bind_ret by reflexivity. rewrite Ex. erewrite bind_ret by exact E1. cbv beta iota. rewrite xint_id by lia.
    unfold mk.winode. erewrite bind_ret by reflexivity. fold (inode_ptr inum). fold p. rewrite (k_inodes _ _ _ HK), Ed.
    erewrite bind_ret by reflexivity. done.
  - split; [done|by apply fresh_inode, HK|apply HK|apply HK|]. eapply wrote_padded; [by rewrite Hcl|exact HS|exact Hb].
Qed.

End mkfs.
