(* ===== verification/MkfsTree.v ===== *)
(** * The tree of a new image (tools/mkfs.c)

    The tree of the image is built with the root directory as its only directory: an
    inode is taken, an entry for it is appended to the root, and the bytes of the file
    are appended to it.  [tabled] and [placed] are what holds between these steps. *)

From stdpp Require Import base gmap list numbers option.
From Stdlib Require Import Lia ZArith.
From S2P Require Import Prelude Fs FsBlocks FsFile FsRw FsTrunc FsDir FsTree FsUnlink Opfs Mkfs MkfsOk.

#[local] Open Scope Z_scope.
#[local] Open Scope yaos_scope.

Section tree.
Context {G : FsGeom} {C : MkfsConf} (HG : geom_ok G) (HD : dirent_laws G) (HC : conf_ok G C).

(** ** Entries of a full directory *)

Lemma free_slot_full es name k : (∀ e, e ∈ es → de_inum e ≠ 0) → find_name es name = None →
  free_slot es name k = Some (k + length es)%nat.
Proof.
  revert k. induction es as [|e es IH]; intros k Hz Hf; simpl; [f_equal; lia|].
  unfold find_name in Hf. simpl in Hf. destruct (decide _) as [E|E]; [done|].
  rewrite (proj2 (Z.eqb_neq _ _)) by (apply Hz; left). rewrite bool_decide_false by congruence.
  rewrite IH; [f_equal; lia|intros; apply Hz; by right|]. unfold find_name. by destruct (list_find _ es).
Qed.

Lemma put_entry_end es de : put_entry es (length es) de = es ++ [de].
Proof. unfold put_entry. by rewrite firstn_all, drop_ge by lia. Qed.

Lemma entries_snoc c bs : Z.of_nat (length c) mod sizeof_dirent = 0 → length bs = Z.to_nat sizeof_dirent →
  entries (c ++ bs) = entries c ++ [dirent_of bs].
Proof.
  intros Hw Hb. pose proof (g_dirent HG). rewrite <- put_entry_end, <- (entries_store HG) by done.
  assert (Z.of_nat (length c) = sizeof_dirent * (Z.of_nat (length c) / sizeof_dirent)) as Hdm by (apply Z.div_exact; lia).
  assert (0 ≤ Z.of_nat (length c) / sizeof_dirent) by (apply Z.div_pos; lia).
  rewrite entries_length, Z2Nat.id, Z.mul_comm, <- Hdm by done. by rewrite store_end.
Qed.

Lemma find_name_app_None es e name : find_name es name = None → name_of name ≠ name_of (de_name e) → find_name (es ++ [e]) name = None.
Proof.
  unfold find_name. rewrite !list_find_None, Forall_app. intros H1 H2. split; [done|]. by repeat constructor.
Qed.

Lemma blocks_of_same img img' q : inodes img' !! q = inodes img !! q → blks img' = blks img → blocks_of img' q = blocks_of img q.
Proof.
  intros Ei Eb. unfold blocks_of. rewrite Ei. destruct (inodes img !! q) as [d|] eqn:E; [|done]. apply map_ext. intros k.
  assert (∀ n, addr_of img' q n = addr_of img q n) as Ea by (intros n; unfold addr_of; by rewrite Ei, E).
  cbn [val]. by rewrite !Ea, Eb.
Qed.

(** ** Between the steps *)

(** The root directory has [k] entries, all in use, with the given names. *)
Record tabled (s : mkfs) (k : Z) (names : list (list Z)) : Prop := {
  tb_tree : tree_ok (shown s);
  tb_fresh : fresh (fs_img s) (freeblock s);
  tb_root : is_dir (shown s) root = true;
  tb_full : ∀ de, de ∈ dir (shown s) root → de_inum de ≠ 0;
  tb_len : Z.of_nat (length (dir (shown s) root)) = k;
  tb_names : ∀ name, name_of name ≠ [] → name_of name ∉ names → find_name (dir (shown s) root) name = None;
  tb_pad : padded (shown s) root;
  tb_inum : 2 ≤ freeinode s;
  tb_free : ∀ i, freeinode s ≤ i < NINODES → ∃ d, inodes (shown s) !! inode_ptr i = Some d ∧ d_type d = 0
}.

Lemma tb_sblk s k names : tabled s k names → sblk (shown s) = the_sb.
Proof. intros HT. apply (f_sblk _ _ (tb_fresh _ _ _ HT)). Qed.

(** The size of the root directory. *)
Lemma tb_size s k names : tabled s k names → ∃ d, inodes (fs_img s) !! root = Some d ∧ d_type d = T_DIR ∧ d_size d = k * sizeof_dirent.
Proof.
  intros HT. pose proof (tb_root _ _ _ HT) as (d & Ed & Ht)%is_dir_inode. exists d. split_and!; [done..|].
  pose proof (t_dir _ (tb_tree _ _ _ HT) root d Ed Ht) as [_ _ Hw _]. pose proof (g_dirent HG).
  pose proof (content_length HG _ _ _ (t_fs _ (tb_tree _ _ _ HT)) Ed) as Hc. pose proof (tb_len _ _ _ HT) as Hl.
  unfold dir in Hl. rewrite entries_length, Hc in Hl. pose proof (size_bound HG _ _ _ (t_fs _ (tb_tree _ _ _ HT)) Ed).
  assert (0 ≤ d_size d / sizeof_dirent) by (apply Z.div_pos; lia). rewrite Z2Nat.id in Hl by done. rewrite <- Hl.
  rewrite Z.mul_comm. apply Z.div_exact; lia.
Qed.

(** Blocks the root takes to grow by one entry. *)
Definition entry_cost (k : Z) : Z := 2 * (divceil ((k + 1) * sizeof_dirent) BSIZE - divceil (k * sizeof_dirent) BSIZE).

(** A new inode. *)
Lemma ialloc_ret s type d : inodes (fs_img s) !! inode_ptr (freeinode s) = Some d → 0 ≤ freeinode s < 2 ^ 31 →
  mk.ialloc type s = Ret (freeinode s)
    (mk_mkfs (with_inode (fs_img s) (inode_ptr (freeinode s)) (mk.new_dinode type)) (freeinode s + 1) (freeblock s)).
Proof.
  intros Ed Hi. unfold mk.ialloc. erewrite bind_ret by reflexivity. erewrite bind_ret by reflexivity.
  unfold mk.winode. rewrite !bind_assoc. erewrite bind_ret by reflexivity. cbn [fs_img set_freeinode]. fold (inode_ptr (freeinode s)).
  rewrite Ed, !bind_assoc. erewrite bind_ret by reflexivity. erewrite bind_ret by reflexivity. by rewrite u32_in by lia.
Qed.

Lemma ialloc_run s k names type : tabled s k names → 0 < type < 2 ^ 16 → type ≠ T_DIR → freeinode s < NINODES →
  ∃ s', mk.ialloc type s = Ret (freeinode s) s' ∧ new_inode (shown s) type (inode_ptr (freeinode s)) (shown s') ∧
    tabled s' k names ∧ freeblock s' = freeblock s ∧ freeinode s' = freeinode s + 1.
Proof.
  intros HT Ht Hnd Hlt. set (inum := freeinode s) in *. pose proof (tb_inum _ _ _ HT). unfold NINODES in Hlt.
  destruct (tb_free _ _ _ HT inum) as (d & Ed & Hd0); [unfold NINODES; lia|]. fold inum in H.
  assert (d_type (mk.new_dinode type) = type) as Etp by (simpl; apply xshort_id; lia).
  pose proof (new_inode_intro HG (shown s) (inode_ptr inum) d (mk.new_dinode type) (tb_tree _ _ _ HT) Ed Hd0 eq_refl eq_refl) as HN.
  rewrite Etp in HN. set (s' := mk_mkfs (with_inode (fs_img s) (inode_ptr inum) (mk.new_dinode type)) (inum + 1) (freeblock s)).
  assert (with_inode (shown s) (inode_ptr inum) (mk.new_dinode type) = shown s') as E by done. rewrite E in HN.
  destruct (new_inode_dir (shown s) type _ _ root HN (tb_root _ _ _ HT)) as [Hne Hroot].
  assert (dir (shown s') root = dir (shown s) root) as Ed' by (unfold dir; by rewrite (ni_content _ _ _ _ HN)).
  exists s'. split_and!; [|done| |done|done].
  - apply (ialloc_ret s type d Ed). lia.
  - destruct HT as [T1 T2 T3 T4 T5 T6 T7 T8 T9]. split.
    + apply HN.
    + by apply fresh_inode.
    + done.
    + by rewrite Ed'.
    + by rewrite Ed'.
    + by rewrite Ed'.
    + destruct T7 as [z Hz]. exists z. rewrite (ni_content _ _ _ _ HN).
      rewrite (blocks_of_same (shown s)); [done|by apply HN|done].
    + cbn. lia.
    + intros i Hi. cbn in Hi. rewrite (ni_other _ _ _ _ HN); [apply T9; fold inum; lia|].
      intros E'. apply (inode_ptr_inj HG) in E'; lia.
Qed.

(** An entry appended to the root directory. *)
Lemma entry_run s k names inum name :
  tabled s k names → is_inum the_sb inum → name_of name ≠ [] → name_of name ∉ names →
  (k + 1) * sizeof_dirent ≤ MAXFILESIZE → enough s (entry_cost k) →
  ∃ s', mk.iappend root_inode_number (bytes_of (mk.entry_for inum name)) s = Ret tt s' ∧
    linked (shown s) root name (inode_ptr inum) (shown s') ∧ tabled s' (k + 1) (name_of name :: names) ∧
    freeblock s ≤ freeblock s' ≤ freeblock s + entry_cost k ∧ freeinode s' = freeinode s.
Proof.
  intros HT Hin Hn Hnew Hroom He. destruct (tb_size _ _ _ HT) as (d & Ed & Ht & Hsz). pose proof (g_dirent HG).
  pose proof HT as [T1 T2 T3 T4 T5 T6 T7 T8 T9]. pose proof (t_fs _ T1) as Hok. pose proof (T6 name Hn Hnew) as Hf.
  assert (0 < inum < 2 ^ 16) as Hi16 by (unfold is_inum, the_sb in Hin; simpl in Hin; unfold NINODES in Hin; lia).
  set (de := mk_dirent inum (strncpy name DIRSIZ)).
  assert (mk.entry_for inum name = de) as -> by (unfold mk.entry_for; by rewrite xshort_id by lia).
  assert (dirent_of (bytes_of de) = de) as Ede by (apply (dl_round HD); [simpl; lia|apply strncpy_length]).
  assert (length (bytes_of de) = Z.to_nat sizeof_dirent) as Hlb by (apply (dl_size HD), strncpy_length).
  destruct (iappend_run HG HC s root_inode_number (bytes_of de) d) as (s' & E & HR).
  - done.
  - done.
  - done.
  - rewrite Hsz, Hlb. lia.
  - rewrite Hsz, Hlb, Z2Nat.id by lia. unfold entry_cost in He. by replace (k * sizeof_dirent + sizeof_dirent) with ((k + 1) * sizeof_dirent) by lia.
  - fold root in HR. rewrite Hsz, Hlb, Z2Nat.id in HR by lia. replace (k * sizeof_dirent + sizeof_dirent) with ((k + 1) * sizeof_dirent) in HR by lia.
    fold (entry_cost k) in HR. pose proof HR as [HF F2 F3 F4 F5]. set (c := content (shown s) root) in *.
    pose proof (content_length HG _ _ _ Hok Ed) as Hcl. fold c in Hcl.
    assert (entries (c ++ bytes_of de) = dir (shown s) root ++ [de]) as Ec.
    { rewrite <- Ede at 2. apply entries_snoc; [|done]. rewrite Hcl, Hsz. apply Z.mod_mul. lia. }
    assert (free_slot (dir (shown s) root) name 0 = Some (length (dir (shown s) root))) as Hslot by (by rewrite free_slot_full).
    assert (dir_set (shown s) root (put_entry (dir (shown s) root) (length (dir (shown s) root)) de) None (shown s')) as HDS.
    { rewrite put_entry_end, <- Ec. apply (file_set_link (shown s) root (c ++ bytes_of de) None (shown s') HF); [|done].
      rewrite length_app, Nat2Z.inj_add, Hcl, Hlb, Hsz, Z2Nat.id by lia.
      replace (k * sizeof_dirent + sizeof_dirent) with ((k + 1) * sizeof_dirent) by lia. apply Z.mod_mul. lia. }
    pose proof (tb_sblk _ _ _ HT) as Esb. pose proof Hin as Hin'. rewrite <- Esb in Hin'.
    destruct (dir_set_tree (shown s) root name _ inum None (shown s') T1 T3 Hin' Hn Hf Hslot HDS) as (HT' & Hg & Ho & Hl).
    exists s'. pose proof (ds_dir _ _ _ _ _ HDS) as Edir. rewrite put_entry_end in Edir.
    assert (∀ q, (λ d, d_type d) <$> inodes (shown s') !! q = (λ d, d_type d) <$> inodes (shown s) !! q) as Ety by (intros q; by eapply ds_type).
    split_and!; [done| | |lia|lia|done].
    + split; try done; apply HDS.
    + split; try done.
      * by rewrite (is_dir_type (shown s) (shown s')).
      * rewrite Edir. intros x [Hx|Hx%list_elem_of_singleton]%elem_of_app; [by apply T4|]. subst x. simpl. lia.
      * rewrite Edir, length_app. simpl. lia.
      * rewrite Edir. intros name' Hn' [H1 H2]%not_elem_of_cons. apply find_name_app_None; [by apply T6|].
        unfold de. cbn [de_name]. by rewrite name_of_strncpy.
      * apply F5; [eauto|done].
      * by rewrite F4.
      * intros i Hi. rewrite F4 in Hi. destruct (T9 i Hi) as (e & Ee & He0). specialize (Ety (inode_ptr i)). rewrite Ee in Ety.
        destruct (inodes (shown s') !! inode_ptr i) as [e'|]; [|done]. exists e'. split; [done|]. injection Ety as ->. done.
Qed.

(** Bytes appended to a file. *)
Lemma file_run s k names inum bs d : let p := inode_ptr inum in
  tabled s k names → inodes (fs_img s) !! p = Some d → d_type d = T_FILE → d_size d + Z.of_nat (length bs) ≤ MAXFILESIZE →
  let c := 2 * (divceil (d_size d + Z.of_nat (length bs)) BSIZE - divceil (d_size d) BSIZE) in enough s c →
  ∃ s', mk.iappend inum bs s = Ret tt s' ∧ file_set (shown s) p (content (shown s) p ++ bs) (shown s') ∧ tabled s' k names ∧
    freeblock s ≤ freeblock s' ≤ freeblock s + c ∧ freeinode s' = freeinode s.
Proof.
  intros p HT Ed Ht HM c He. pose proof HT as [T1 T2 T3 T4 T5 T6 T7 T8 T9].
  destruct (iappend_run HG HC s inum bs d (t_fs _ T1) T2 Ed HM He) as (s' & E & [F1 F2 F3 F4 F5]). fold p in F1.
  destruct (file_set_tree (shown s) p _ (shown s') d T1 F1 Ed) as (HT' & HX & _); [by rewrite Ht|rewrite Ht; by intros []|].
  assert (root ≠ p) as Hne by (intros Ep; rewrite <- Ep in Ed; apply is_dir_inode in T3 as (e & Ee & Hte); change (inodes (shown s)) with (inodes (fs_img s)) in Ee; simplify_eq; by rewrite Ht in Hte).
  assert (dir (shown s') root = dir (shown s) root) as Edir by (unfold dir; by rewrite (fset_other _ _ _ _ F1)).
  exists s'. split_and!; [done|done| |lia|lia|done]. split; try done.
  - by apply HX.
  - by rewrite Edir.
  - by rewrite Edir.
  - by rewrite Edir.
  - apply F5; [|done]. apply is_dir_inode in T3 as (e & Ee & _). eauto.
  - by rewrite F4.
  - intros i Hi. rewrite F4 in Hi. destruct (T9 i Hi) as (e & Ee & He0). pose proof (file_set_type _ _ _ _ (inode_ptr i) F1) as Ety.
    rewrite Ee in Ety. destruct (inodes (shown s') !! inode_ptr i) as [e'|]; [|done]. exists e'. split; [done|]. injection Ety as ->. done.
Qed.

(** The bytes of a file: the results of [read] up to the first that is empty. *)
Fixpoint file_bytes (reads : list (list Z)) : list Z :=
  match reads with
  | buf :: reads => if 0 <? Z.of_nat (length buf) then buf ++ file_bytes reads else []
  | [] => []
  end.

Lemma append_all_run reads : ∀ s k names inum d, let p := inode_ptr inum in let bs := file_bytes reads in
  tabled s k names → inodes (fs_img s) !! p = Some d → d_type d = T_FILE → d_size d + Z.of_nat (length bs) ≤ MAXFILESIZE →
  let c := 2 * (divceil (d_size d + Z.of_nat (length bs)) BSIZE - divceil (d_size d) BSIZE) in enough s c →
  ∃ s', mk.append_all inum reads s = Ret tt s' ∧ file_set (shown s) p (content (shown s) p ++ bs) (shown s') ∧ tabled s' k names ∧
    freeblock s ≤ freeblock s' ≤ freeblock s + c ∧ freeinode s' = freeinode s.
Proof.
  induction reads as [|buf reads IH]; intros s k names inum d p bs HT Ed Ht HM c He.
  - exists s. unfold c, bs. simpl. rewrite Z.add_0_r, app_nil_r. split_and!; [done| |done|lia|lia|done].
    eapply (file_set_refl HG); [apply HT|exact Ed].
  - pose proof (size_bound HG (shown s) p d (t_fs _ (tb_tree _ _ _ HT)) Ed) as [Hs _]. unfold c, bs in *. clear c bs. cbn [file_bytes mk.append_all] in *.
    destruct (0 <? Z.of_nat (length buf)).
    + rewrite length_app, Nat2Z.inj_add, Z.add_assoc in HM, He. rewrite length_app, Nat2Z.inj_add, Z.add_assoc.
      pose proof (divceil_mono HG (d_size d) (d_size d + Z.of_nat (length buf)) ltac:(lia)).
      pose proof (divceil_mono HG (d_size d + Z.of_nat (length buf)) (d_size d + Z.of_nat (length buf) + Z.of_nat (length (file_bytes reads))) ltac:(lia)).
      destruct (file_run s k names inum buf d HT Ed Ht) as (s1 & E1 & HF1 & HT1 & Hb1 & Hi1); [lia|unfold enough in *; lia|]. fold p in HF1.
      destruct (file_set_inode _ _ _ _ _ HF1 Ed) as (d1 & Ed1 & Et1 & Es1). rewrite Ht in Et1.
      rewrite length_app, Nat2Z.inj_add, (content_length HG (shown s) p d (t_fs _ (tb_tree _ _ _ HT)) Ed) in Es1.
      destruct (IH s1 k names inum d1 HT1 Ed1 Et1) as (s2 & E2 & HF2 & HT2 & Hb2 & Hi2); [lia|unfold enough in *; rewrite Es1; lia|].
      exists s2. erewrite bind_ret by exact E1. rewrite Es1 in Hb2. split_and!; [done| |done|lia|lia|congruence].
      fold p in HF2. rewrite (fset_content _ _ _ _ HF1), <- app_assoc in HF2. by eapply file_set_trans.
    + exists s. simpl. rewrite Z.add_0_r, app_nil_r. split_and!; [done| |done|lia|lia|done].
      eapply (file_set_refl HG); [apply HT|exact Ed].
Qed.

(** ** Adding the files *)

(** A file of the image: its name and its bytes. *)
Definition names_of (files : list (list Z * list Z)) : list (list Z) :=
  map (λ f, name_of f.1) files ++ [name_of DOTDOT; name_of DOT].

Fixpoint files_cost (files : list (list Z * list Z)) : Z :=
  match files with [] => 0 | f :: files => 2 * divceil (Z.of_nat (length f.2)) BSIZE + files_cost files end.

(** Blocks that are enough for the root directory and the files. *)
Definition cost (files : list (list Z * list Z)) : Z :=
  2 * divceil ((2 + Z.of_nat (length files)) * sizeof_dirent) BSIZE + files_cost files.

Definition is_file (img : image) (name c : list Z) : Prop :=
  ∃ ip d, dget img root name = Some ip ∧ inodes img !! ip = Some d ∧ d_type d = T_FILE ∧ content img ip = c.

Record placed (s : mkfs) (files : list (list Z * list Z)) : Prop := {
  pl_tab : tabled s (2 + Z.of_nat (length files)) (names_of files);
  pl_count : freeinode s = 2 + Z.of_nat (length files);
  pl_files : ∀ f, f ∈ files → name_of f.1 ≠ [] ∧ is_file (shown s) f.1 f.2;
  pl_dots : dget (shown s) root DOT = Some root ∧ dget (shown s) root DOTDOT = Some root;
  pl_cost : freeblock s ≤ mk.nmeta + cost files
}.

(** The new file is there. *)
Lemma is_file_kept img i1 i2 i3 name c ip name' bs d :
  tree_ok img → new_inode img T_FILE ip i1 → linked i1 root name' ip i2 → file_set i2 ip bs i3 →
  inodes img !! root = Some d → d_type d = T_DIR →
  name_of name ≠ [] → name_of name ≠ name_of name' → is_file img name c → is_file i3 name c.
Proof.
  intros HT HN HL HF Ed Ht Hn Hne (q & e & Hg & Ee & Hte & Hc).
  destruct (ni_free _ _ _ _ HN) as (f & Ef & Hf0).
  assert (q ≠ ip) as Hq by (intros ->; simplify_eq; by rewrite Hte in Hf0).
  assert (q ≠ root) as Hqr by (intros ->; simplify_eq; by rewrite Ht in Hte).
  assert (root ≠ ip) as Hri by (intros <-; simplify_eq; by rewrite Ht in Hf0).
  assert ((λ d, d_type d) <$> inodes i3 !! q = Some T_FILE) as Et3.
  { rewrite (file_set_type _ _ _ _ q HF), (lk_type _ _ _ _ _ HL), (ni_other _ _ _ _ HN), Ee by done. simpl. by rewrite Hte. }
  destruct (inodes i3 !! q) as [e3|] eqn:E3; [|done]. injection Et3 as Et3. exists q, e3. split_and!; [|done|done|].
  - unfold dget, dir in *. rewrite (fset_other _ _ _ _ HF), (fset_sblk _ _ _ _ HF) by done. fold (dir i2 root).
    rewrite (lk_other _ _ _ _ _ HL), (lk_sblk _ _ _ _ _ HL) by auto. unfold dir.
    by rewrite (ni_content _ _ _ _ HN), (ni_sblk _ _ _ _ HN).
  - by rewrite (fset_other _ _ _ _ HF), (lk_content _ _ _ _ _ HL), (ni_content _ _ _ _ HN).
Qed.

Lemma add_file_run s files arg reads : let name := mk.base_name arg in let f := (name, file_bytes reads) in
  placed s files → name_of name ≠ [] → SEP ∉ name → name_of name ∉ names_of files →
  2 + Z.of_nat (length files) < NINODES → (3 + Z.of_nat (length files)) * sizeof_dirent ≤ MAXFILESIZE →
  Z.of_nat (length (file_bytes reads)) ≤ MAXFILESIZE → cost (f :: files) ≤ mk.nblocks → mk.nmeta + cost (f :: files) < BPB →
  ∃ s', mk.add_file root_inode_number (arg, Some reads) s = Ret tt s' ∧ placed s' (f :: files).
Proof.
  intros name f [P1 P2 P3 P4 P5] Hn Hsep Hnew Hni Hroom Hlen Hc1 Hc2. pose proof (g_dirent HG).
  assert (root_inode_number = 1) as Er by done.
  destruct (ialloc_run s _ _ T_FILE P1) as (s1 & E1 & HN & T1 & Hb1 & Hi1); [done|done|by rewrite P2|]. set (inum := freeinode s) in *.
  set (n := Z.of_nat (length files)) in *. set (ip := inode_ptr inum) in *.
  assert (cost (f :: files) = cost files + entry_cost (2 + n) + 2 * divceil (Z.of_nat (length (file_bytes reads))) BSIZE) as Ec.
  { unfold cost, entry_cost. cbn [length files_cost]. unfold f. cbn [snd]. fold n. replace (2 + Z.of_nat (S (length files))) with (2 + n + 1) by lia. lia. }
  pose proof (divceil_bounds HG (Z.of_nat (length (file_bytes reads))) ltac:(lia)) as [Hd0 _].
  assert (0 ≤ entry_cost (2 + n)) as Hec.
  { unfold entry_cost. pose proof (divceil_mono HG ((2 + n) * sizeof_dirent) ((2 + n + 1) * sizeof_dirent)). nia. }
  destruct (entry_run s1 _ _ inum name T1) as (s2 & E2 & HL & T2 & Hb2 & Hi2); [|done|done| | |].
  { split; simpl; lia. } { replace (2 + n + 1) with (3 + n) by lia. done. } { unfold enough, limit. lia. }
  fold ip in HL. pose proof (ni_inode _ _ _ _ HN) as Et1. rewrite <- (lk_type _ _ _ _ _ HL) in Et1.
  destruct (inodes (shown s2) !! ip) as [d2|] eqn:Ed2; [|done]. injection Et1 as Et2.
  assert (root ≠ ip) as Hri by (by apply (new_inode_dir _ _ _ _ root HN), (tb_root _ _ _ P1)).
  destruct (ni_free _ _ _ _ HN) as (e & Ee & He0).
  assert (content (shown s2) ip = []) as Ec2.
  { rewrite (lk_content _ _ _ _ _ HL), (ni_content _ _ _ _ HN) by done. unfold content.
    by rewrite Ee, (t_free _ (tb_tree _ _ _ P1) _ _ Ee (or_introl He0)). }
  assert (d_size d2 = 0) as Es2 by (rewrite <- (content_length HG _ _ _ (t_fs _ (tb_tree _ _ _ T2)) Ed2), Ec2; done).
  destruct (append_all_run reads s2 _ _ inum d2 T2 Ed2 Et2) as (s3 & E3 & HF & T3 & Hb3 & Hi3).
  { lia. } { rewrite Es2, Z.add_0_l. change (divceil 0 BSIZE) with 0. unfold enough, limit. lia. }
  fold ip in HF. rewrite Ec2 in HF. simpl in HF. rewrite Es2, Z.add_0_l in Hb3. change (divceil 0 BSIZE) with 0 in Hb3.
  exists s3. split.
  - unfold mk.add_file. cbn [fst snd]. fold name. rewrite bool_decide_false by done. erewrite bind_ret by reflexivity.
    erewrite bind_ret by exact E1. erewrite bind_ret by exact E2. done.
  - pose proof (tb_root _ _ _ P1) as (dr & Edr & Htr)%is_dir_inode. split.
    + replace (2 + Z.of_nat (length (f :: files))) with (2 + n + 1) by (simpl; lia). exact T3.
    + simpl. lia.
    + intros g [->|Hg]%elem_of_cons.
      * split; [done|]. destruct (file_set_inode _ _ _ _ _ HF Ed2) as (d3 & Ed3 & Et3 & _). exists ip, d3.
        split_and!; [|done|by rewrite Et3|apply HF]. unfold dget, dir. rewrite (fset_other _ _ _ _ HF), (fset_sblk _ _ _ _ HF) by done. apply HL.
      * destruct (P3 g Hg) as [Hgn Hgf]. split; [done|]. eapply (is_file_kept (shown s)); try done; [apply P1|].
        intros En. apply Hnew. rewrite <- En. unfold names_of. apply elem_of_app. left. apply list_elem_of_fmap. eauto.
    + unfold dget, dir. rewrite (fset_other _ _ _ _ HF), (fset_sblk _ _ _ _ HF) by done. fold (dir (shown s2) root).
      destruct (dots_ok HD) as (D1 & D2 & _). unfold names_of in Hnew. rewrite not_elem_of_app, !not_elem_of_cons in Hnew.
      rewrite !(lk_other _ _ _ _ _ HL), (lk_sblk _ _ _ _ _ HL) by (done || right; intros E; destruct Hnew as (_ & ? & ? & _); congruence).
      unfold dir. rewrite (ni_content _ _ _ _ HN), (ni_sblk _ _ _ _ HN). exact P4.
    + lia.
Qed.

(** ** The start *)

Lemma const_map {K} `{Countable K} {A B} (f : A → K) (v : B) l k :
  (list_to_map (map (λ x, (f x, v)) l) : gmap K B) !! k = if decide (k ∈ map f l) then Some v else None.
Proof.
  induction l as [|x l IH]; cbn [map list_to_map foldr]; [by destruct (decide (k ∈ [])) as [?%elem_of_nil|]|]. cbn [uncurry].
  destruct (decide (f x = k)) as [<-|Hne]; [by rewrite lookup_insert_eq, decide_True by left|].
  rewrite lookup_insert_ne, IH by done. apply decide_ext. rewrite elem_of_cons. split; [by right|by intros [->|]].
Qed.

(** The image when the super block has been written. *)
Definition start : mkfs := mk.set_sblk the_sb (mk.blank_disk (set_freeblock mk.nmeta mk.init)).

Lemma start_inode i : 0 ≤ i ≤ NINODES → inodes (fs_img start) !! inode_ptr i = Some dinode0.
Proof.
  intros Hi. unfold start, mk.blank_disk. cbn [fs_img mk.set_sblk set_img inodes]. rewrite const_map, decide_True; [done|].
  apply list_elem_of_fmap. exists i. split; [done|]. apply elem_of_seqZ. unfold mk.ninodeblocks. pose proof (g_ipb HG).
  pose proof (Z.div_mod NINODES IPB). pose proof (Z.mod_pos_bound NINODES IPB). nia.
Qed.

Lemma start_inodes p d : inodes (fs_img start) !! p = Some d → d = dinode0.
Proof. unfold start, mk.blank_disk. cbn [fs_img mk.set_sblk set_img inodes]. rewrite const_map. destruct (decide _); congruence. Qed.

Lemma start_block b : 0 ≤ b < FSSIZE → blks (fs_img start) !! b = Some zero_block.
Proof.
  intros Hb. unfold start, mk.blank_disk. cbn [fs_img mk.set_sblk set_img blks]. rewrite const_map, decide_True; [done|].
  apply list_elem_of_fmap. exists b. split; [done|]. apply elem_of_seqZ. lia.
Qed.

Lemma start_fresh : mk.nmeta < BPB → fresh (fs_img start) mk.nmeta.
Proof.
  intros Hb. pose proof (blocks_pos HG HC) as (H1 & H2 & H3). pose proof (c_blocks HC) as Hc. pose proof (c_log HC).
  assert (limit ≤ FSSIZE) as Hl by (unfold limit, mk.nblocks, mk.nlog; lia). split; [done|unfold limit; lia|done| |];
    intros x Hx; apply start_block; unfold BM, mk.nmeta in *; unfold limit, mk.nmeta in *; lia.
Qed.

Lemma start_layout : mk.nmeta < BPB → layout (shown start).
Proof.
  intros Hb. pose proof (blocks_pos HG HC) as (H1 & H2 & H3). pose proof (c_blocks HC) as Hc. pose proof (c_log HC).
  pose proof (bpb_pos HG). assert (0 < mk.nmeta) by (unfold mk.nmeta; lia).
  unfold shown. change (freeblock start) with mk.nmeta. apply put_layout; [|apply (bits_spec HG); lia]. split; try done; try lia.
  - change (data_start the_sb + mk.nblocks ≤ FSSIZE). rewrite the_start. change (mk.nmeta + mk.nblocks ≤ FSSIZE). unfold mk.nblocks, mk.nlog. lia.
  - apply (c_31 HC).
  - intros p d Ed. apply start_inodes in Ed as ->. apply length_replicate.
  - intros i Hi. change (0 ≤ i < NINODES) in Hi. fold (inode_ptr i). rewrite start_inode by lia. eauto.
  - intros b Hbb. change (0 ≤ b < FSSIZE) in Hbb. change (sb_ninodes _) with NINODES. destruct (bitmap_block HG b Hbb) as [-> Hr].
    exists zero_block. split; [|apply length_replicate]. apply start_block. unfold BM, mk.nblocks, mk.nlog in *. lia.
  - intros b Hbb. apply (proj1 (is_data_sb b)) in Hbb. exists zero_block. split; [|apply length_replicate]. apply start_block.
    unfold limit, mk.nblocks, mk.nlog in *. lia.
Qed.

Lemma start_blank : mk.nmeta < BPB → blank (shown start).
Proof.
  intros Hb. split; [intros p d Ed; by apply start_inodes in Ed as ->|]. intros b Hbb.
  apply (proj1 (is_data_sb b)) in Hbb. pose proof (blocks_pos HG HC). pose proof (c_log HC).
  unfold shown. change (freeblock start) with mk.nmeta. rewrite (used_view HG HC); [apply Z.ltb_ge; lia|by apply start_fresh|].
  unfold limit, mk.nblocks, mk.nlog, mk.nmeta in *. lia.
Qed.

(** The root directory. *)
Lemma root_run : mk.nmeta < BPB → ∃ s, mk.ialloc T_DIR start = Ret root_inode_number s ∧ tabled s 0 [] ∧
  freeblock s = mk.nmeta ∧ freeinode s = 2.
Proof.
  intros Hb. pose proof (start_blank Hb) as HB. pose proof (blank_tree HG _ (start_layout Hb) HB) as HT.
  pose proof (start_inode 1 ltac:(unfold NINODES; lia)) as Ed.
  pose proof (new_inode_intro HG (shown start) root dinode0 (mk.new_dinode T_DIR) HT Ed eq_refl eq_refl eq_refl) as HN.
  set (s := mk_mkfs (with_inode (fs_img start) root (mk.new_dinode T_DIR)) 2 mk.nmeta).
  assert (with_inode (shown start) root (mk.new_dinode T_DIR) = shown s) as E by done. rewrite E in HN. exists s.
  assert (content (shown s) root = []) as Ec by (rewrite (ni_content _ _ _ _ HN); by apply blank_content).
  assert (dir (shown s) root = []) as Edir by (unfold dir; rewrite Ec; apply (entries_nil HG)).
  split_and!; [by apply (ialloc_ret start T_DIR dinode0)| |done|done]. split; rewrite ?Edir; try done.
  - apply HN.
  - by apply fresh_inode, start_fresh.
  - apply is_dir_inode. pose proof (ni_inode _ _ _ _ HN) as Et. destruct (inodes (shown s) !! root) as [d|]; [|done].
    exists d. split; [done|]. by injection Et.
  - by intros de ?%elem_of_nil.
  - exists 0%nat. rewrite Ec. unfold blocks_of. assert (inodes (shown s) !! root = Some (mk.new_dinode T_DIR)) as ->; [|done].
    unfold shown, view. cbn [inodes fs_img s with_inode]. apply lookup_insert_eq.
  - intros i Hi. cbn in Hi. exists dinode0. split; [|done]. rewrite (ni_other _ _ _ _ HN).
    + apply start_inode. lia.
    + intros E'. apply (inode_ptr_inj HG i 1) in E'; lia.
Qed.

End tree.
