(* ===== verification/MkfsMain.v ===== *)
(** * mkfs as a whole (tools/mkfs.c)

    From the empty image file to the image with the files of the command line; opfs
    finds in it what was put there. *)

From stdpp Require Import base gmap list numbers option.
From Stdlib Require Import Lia ZArith.
From S2P Require Import Prelude Fs FsBlocks FsFile FsRw FsTrunc FsDir FsTree FsUnlink Opfs Mkfs MkfsOk MkfsTree.

#[local] Open Scope Z_scope.
#[local] Open Scope yaos_scope.

Section main.
Context {G : FsGeom} {C : MkfsConf} (HG : geom_ok G) (HD : dirent_laws G) (HC : conf_ok G C).

(** ** Plain names *)

Lemma comps_plain name : name ≠ [] → SEP ∉ name → comps (S (length name)) name = [take (Z.to_nat DIRSIZ) name].
Proof.
  intros Hne Hsep.
  assert (skip_sep name = name) as E1.
  { destruct name as [|c name]; [done|]. apply not_elem_of_cons in Hsep as [Hc _]. simpl. unfold is_sep. by rewrite (proj2 (Z.eqb_neq c SEP)). }
  assert (skip_name name = []) as E2.
  { clear E1 Hne. induction name as [|c name IH]; [done|]. apply not_elem_of_cons in Hsep as [Hc Hs]. simpl. unfold is_sep.
    rewrite (proj2 (Z.eqb_neq c SEP)) by done. auto. }
  cbn [comps]. unfold skipelem. rewrite E1, E2. cbn [length]. rewrite Nat.sub_0_r. pose proof (dl_dirsiz HD).
  assert (take (Z.to_nat (Fs.min (Z.of_nat (length name)) DIRSIZ)) name = take (Z.to_nat DIRSIZ) name) as ->.
  { unfold Fs.min. destruct (Z.ltb_spec (Z.of_nat (length name)) DIRSIZ); [|done]. by rewrite !take_ge by lia. }
  destruct name as [|c name]; [done|]. destruct (Z.to_nat DIRSIZ) eqn:Ed; [lia|]. done.
Qed.

Lemma cname_take n m a : (n ≤ m)%nat → cname n (take m a) = cname n a.
Proof.
  revert m a. induction n as [|n IH]; intros m a Hm; [done|]. destruct m as [|m]; [lia|]. destruct a as [|x a]; [done|].
  simpl. destruct (x =? 0); [done|]. f_equal. apply IH. lia.
Qed.

(** A name without separators denotes the entry of the root directory. *)
Lemma resolve_plain img name : name_of name ≠ [] → SEP ∉ name → resolve img root name = dget img root name.
Proof.
  intros Hn Hsep. assert (name ≠ []) as Hne by (intros ->; by rewrite name_of_nil in Hn).
  unfold resolve. rewrite comps_plain by done. cbn [walk].
  assert (name_of (take (Z.to_nat DIRSIZ) name) = name_of name) as En by (by apply cname_take).
  assert (is_empty (take (Z.to_nat DIRSIZ) name) = false) as ->.
  { destruct (is_empty _) eqn:E; [|done]. destruct (take (Z.to_nat DIRSIZ) name); [|done]. by rewrite <- En, name_of_nil in Hn. }
  unfold dget, find_name. rewrite En. by destruct (found _ _).1.
Qed.

(** ** Padding the root directory *)

Lemma entries_pad k : ∀ c, Z.of_nat (length c) mod sizeof_dirent = 0 →
  entries (c ++ replicate (k * Z.to_nat sizeof_dirent) 0) = entries c ++ replicate k (mk_dirent 0 (replicate (Z.to_nat DIRSIZ) 0)).
Proof.
  pose proof (g_dirent HG). induction k as [|k IH]; intros c Hc; [by rewrite !app_nil_r|]. cbn [Nat.mul replicate].
  rewrite replicate_add, app_assoc, IH.
  - rewrite (entries_snoc HG) by (done || apply length_replicate). rewrite (dl_zero HD), <- app_assoc. done.
  - rewrite length_app, length_replicate, Nat2Z.inj_add, Z2Nat.id by lia.
    rewrite Z.add_mod, Hc, Z.mod_same by lia. apply Z.mod_0_l. lia.
Qed.

Lemma name_of_zeros n : name_of (replicate n 0) = [].
Proof. unfold name_of. by destruct n, (Z.to_nat DIRSIZ). Qed.

Lemma find_name_pad es k name : name_of name ≠ [] →
  find_name (es ++ replicate k (mk_dirent 0 (replicate (Z.to_nat DIRSIZ) 0))) name = find_name es name.
Proof.
  intros Hn. unfold find_name. destruct (list_find (λ de, name_of name = name_of (de_name de)) es) as [[i e]|] eqn:E.
  - by apply list_find_app_l.
  - apply list_find_None. apply list_find_None in E. apply Forall_app. split; [done|]. apply Forall_replicate. simpl. by rewrite name_of_zeros.
Qed.

Lemma divceil_round x : 0 ≤ x → x mod BSIZE ≠ 0 → divceil x BSIZE = x / BSIZE + 1 ∧ divceil ((x / BSIZE + 1) * BSIZE) BSIZE = x / BSIZE + 1.
Proof.
  intros Hx Hm. destruct (off_split HG x Hx) as (Hq & Hr & Ex). pose proof (g_bsize HG).
  split; apply (divceil_unique HG); nia.
Qed.

(** The size of the root directory is set to that of its blocks: the new entries are free. *)
Lemma pad_run s k names d : let n := (d_size d / BSIZE + 1) * BSIZE in
  tabled s k names → inodes (fs_img s) !! root = Some d → d_size d mod BSIZE ≠ 0 →
  let s' := set_img (with_inode (fs_img s) root (set_size n d)) s in
  tree_ok (shown s') ∧ is_dir (shown s') root = true ∧
  (∀ name, name_of name ≠ [] → dget (shown s') root name = dget (shown s) root name) ∧
  (∀ q, q ≠ root → content (shown s') q = content (shown s) q) ∧
  (∀ q, (λ d, d_type d) <$> inodes (shown s') !! q = (λ d, d_type d) <$> inodes (shown s) !! q).
Proof.
  intros n HT Ed Hm s'. pose proof HT as [T1 T2 T3 T4 T5 T6 [z Hz] T8 T9]. pose proof (t_fs _ T1) as Hok.
  destruct (size_bound HG (shown s) root d Hok Ed) as [Hs HM]. destruct (divceil_round (d_size d) ltac:(lia) Hm) as [E1 E2].
  pose proof (blocks_of_length HG (shown s) root d Ed ltac:(lia)) as Hl. pose proof (divceil_max HG (d_size d) ltac:(lia)) as Hmax.
  pose proof (g_bsize HG) as HB. pose proof (g_dirent HG) as Hde. pose proof Hok as (HR & _ & Hex).
  destruct (tb_size HG _ _ _ HT) as (d0 & Ed0 & Ht0 & Hsz). assert (d0 = d) as -> by congruence.
  destruct (file_set_intro HG (shown s) (shown s) root d (blocks_of (shown s) root) n Hok Ed) as (d1 & Ed1 & HF & _).
  { apply same_meta_refl. } { eapply rep_ext; [|exact HR]. intros q. unfold upd. by destruct (decide (q = root)) as [->|]. }
  { unfold MAXFILESIZE. unfold n. pose proof (Z.div_pos (d_size d) BSIZE). nia. } { unfold n. lia. } { done. } { apply Hex. eauto. }
  assert (d1 = d) as -> by (change (inodes (shown s)) with (inodes (fs_img s)) in Ed1; congruence).
  change (with_inode (shown s) root (set_size n d)) with (shown s') in HF.
  pose proof (content_length HG _ _ _ Hok Ed) as Hcl. pose proof (rep_blocks _ _ _ HR ltac:(eauto)) as Hrb.
  assert (Z.of_nat (length (concat (blocks_of (shown s) root))) = n) as Hn.
  { rewrite (length_blocks (Z.to_nat BSIZE)) by done. rewrite Nat2Z.inj_mul, Z2Nat.id, Hl by lia. unfold n. nia. }
  rewrite take_ge, Hz in HF by lia. rewrite Hz, length_app, length_replicate in Hn.
  assert (∃ j, z = (j * Z.to_nat sizeof_dirent)%nat) as [j ->].
  { assert (sizeof_dirent | Z.of_nat z) as [j Hj].
    { replace (Z.of_nat z) with (n - d_size d) by lia. apply Z.divide_sub_r.
      - unfold n. apply Z.divide_mul_r. apply Z.mod_divide; [lia|apply (g_fill HG)].
      - rewrite Hsz. by exists k. }
    exists (Z.to_nat j). nia. }
  pose proof (t_dir _ T1 root d Ed Ht0) as [_ _ Hw Hfree].
  pose proof (file_set_link (shown s) root _ None (shown s') HF) as HDS. cbv zeta in HDS. rewrite (entries_pad j) in HDS by (by rewrite Hcl).
  specialize (HDS ltac:(rewrite length_app, length_replicate, Hn; unfold n; rewrite Z.mul_comm, Z.mul_mod, (g_fill HG) by lia; by rewrite Z.mul_0_l, Z.mod_0_l by lia) ltac:(done)).
  fold (dir (shown s) root) in HDS. pose proof (ds_dir _ _ _ _ _ HDS) as Edir.
  assert (∀ q, (λ d, d_type d) <$> inodes (shown s') !! q = (λ d, d_type d) <$> inodes (shown s) !! q) as Ety by (intros q; by eapply ds_type).
  split_and!; [|by rewrite (is_dir_type (shown s) (shown s'))| |apply HF|done].
  - eapply dir_es_tree; [done..| | |].
    + intros de [Hx|Hx]%elem_of_app Hde0; [by apply Hfree|]. apply elem_of_replicate in Hx as [-> _]. apply name_of_zeros.
    + intros de [Hx|Hx]%elem_of_app Hde0; [by apply (t_entry _ T1 root)|]. by apply elem_of_replicate in Hx as [-> _].
    + intros a b x y Hx Hy Hxn Exy. assert (∀ i e, (dir (shown s) root ++ replicate j (mk_dirent 0 (replicate (Z.to_nat DIRSIZ) 0))) !! i = Some e →
        name_of (de_name e) ≠ [] → dir (shown s) root !! i = Some e) as Hin.
      { intros i e [He|[_ He]]%lookup_app_Some Hen; [done|]. apply lookup_replicate in He as [-> _]. cbn [de_name] in Hen. by rewrite name_of_zeros in Hen. }
      apply (t_nodup _ T1 root a b x y); auto. apply Hin; [done|congruence].
  - intros name Hnm. unfold dget. rewrite Edir, find_name_pad by done. done.
Qed.

(** ** The whole program *)

(** The files the arguments name. *)
Definition files (fs : list (list Z * option (list (list Z)))) : list (list Z * list Z) :=
  map (λ f, (mk.base_name f.1, file_bytes (default [] f.2))) fs.

(** The arguments: the files can be opened, their names are names of the root directory
    and differ in the characters that are kept; inodes, blocks and the bitmap suffice;
    the root directory does not fill its last block. *)
Record args_ok (fs : list (list Z * option (list (list Z)))) : Prop := {
  a_open : ∀ f, f ∈ fs → is_Some f.2;
  a_name : ∀ f, f ∈ files fs → name_of f.1 ≠ [] ∧ SEP ∉ f.1 ∧ Z.of_nat (length f.2) ≤ MAXFILESIZE;
  a_nodup : NoDup (names_of (files fs));
  a_inodes : 2 + Z.of_nat (length fs) ≤ NINODES;
  a_root : (2 + Z.of_nat (length fs)) * sizeof_dirent ≤ MAXFILESIZE;
  a_last : (2 + Z.of_nat (length fs)) * sizeof_dirent mod BSIZE ≠ 0;
  a_blocks : cost (files fs) ≤ mk.nblocks;
  a_bits : mk.nmeta + cost (files fs) < BPB
}.

Lemma files_cost_app a b : files_cost (a ++ b) = files_cost a + files_cost b.
Proof. induction a as [|f a IH]; simpl; lia. Qed.

Lemma files_cost_nonneg a : 0 ≤ files_cost a.
Proof. induction a as [|f a IH]; simpl; [done|]. pose proof (divceil_bounds HG (Z.of_nat (length f.2)) ltac:(lia)). lia. Qed.

Lemma cost_perm a b : a ≡ₚ b → cost a = cost b.
Proof.
  intros H. unfold cost. rewrite (Permutation_length H). f_equal.
  induction H as [|x a b H IH|x y a|a b c H1 IH1 H2 IH2]; simpl; lia.
Qed.

Lemma cost_le a b : cost b ≤ cost (a ++ b).
Proof.
  unfold cost. rewrite files_cost_app, length_app. pose proof (files_cost_nonneg a). pose proof (g_dirent HG).
  pose proof (divceil_mono HG ((2 + Z.of_nat (length b)) * sizeof_dirent) ((2 + Z.of_nat (length a + length b)) * sizeof_dirent)). nia.
Qed.

Lemma names_of_perm a b : a ≡ₚ b → names_of a ≡ₚ names_of b.
Proof. intros H. unfold names_of. f_equiv. by apply Permutation_map. Qed.

Lemma add_files_run fs : ∀ s old,
  placed s old → (∀ f, f ∈ fs → is_Some f.2) →
  (∀ f, f ∈ files fs → name_of f.1 ≠ [] ∧ SEP ∉ f.1 ∧ Z.of_nat (length f.2) ≤ MAXFILESIZE) →
  let all := rev (files fs) ++ old in
  NoDup (names_of all) → 2 + Z.of_nat (length all) ≤ NINODES → (2 + Z.of_nat (length all)) * sizeof_dirent ≤ MAXFILESIZE →
  cost all ≤ mk.nblocks → mk.nmeta + cost all < BPB →
  ∃ s', mk.add_files root_inode_number fs s = Ret tt s' ∧ placed s' all.
Proof.
  induction fs as [|[arg o] fs IH]; intros s old HP Ho Hn all Hnd Hi Hr Hc Hb; [by exists s|].
  destruct (Ho (arg, o)) as [reads Hrd]; [left|]. simpl in Hrd. subst o. pose proof (g_dirent HG).
  set (f := (mk.base_name arg, file_bytes reads)) in *.
  assert (all = rev (files fs) ++ f :: old) as Eall by (unfold all; simpl; rewrite <- app_assoc; done).
  destruct (Hn f) as (Hn1 & Hn2 & Hn3); [left|]. pose proof (cost_le (rev (files fs)) (f :: old)) as Hcl. rewrite <- Eall in Hcl.
  assert (length all = length (rev (files fs)) + S (length old))%nat as Hla by (rewrite Eall, length_app; done).
  destruct (add_file_run HG HD HC s old arg reads HP Hn1 Hn2) as (s1 & E1 & HP1); fold f; try lia; try nia.
  { rewrite Eall in Hnd. unfold names_of in Hnd. rewrite map_app, <- app_assoc in Hnd. apply list.NoDup_app in Hnd as (_ & _ & Hnd).
    simpl in Hnd. by apply list.NoDup_cons in Hnd as [? _]. }
  { done. }
  destruct (IH s1 (f :: old) HP1) as (s2 & E2 & HP2); rewrite <- ?Eall; try done.
  { intros g Hg. apply Ho. by right. } { intros g Hg. apply Hn. by right. }
  exists s2. split; [|by rewrite Eall]. cbn [mk.add_files]. by erewrite bind_ret by exact E1.
Qed.

(** "." and ".." *)
Lemma dots_run s1 : tabled s1 0 [] → freeblock s1 = mk.nmeta → freeinode s1 = 2 →
  cost [] ≤ mk.nblocks → mk.nmeta + cost [] < BPB →
  ∃ s3, placed s3 [] ∧ ∀ k : M mkfs unit,
    (de ← mk.strcpy_entry root_inode_number DOT;
     mk.iappend root_inode_number (bytes_of de) ;;
     de ← mk.strcpy_entry root_inode_number DOTDOT;
     mk.iappend root_inode_number (bytes_of de) ;;
     k) s1 = k s3.
Proof.
  intros T1 Hb1 Hi1 Hc Hbits. destruct (dots_ok HD) as (D1 & D2 & D3). pose proof (g_dirent HG) as Hde.
  assert (is_inum the_sb root_inode_number) as Hin by done. unfold cost in Hc, Hbits. cbn [files_cost length] in Hc, Hbits. rewrite Z.add_0_r in Hc, Hbits.
  change (2 + Z.of_nat 0) with 2 in Hc, Hbits.
  assert (2 * sizeof_dirent ≤ MAXFILESIZE) as Hroom.
  { pose proof (dirent_block HG). unfold MAXFILESIZE.
    pose proof (g_bsize HG). pose proof (g_maxfile HG). pose proof (g_ndirect HG). pose proof (g_nindirect HG). pose proof (g_words HG).
    assert (1 ≤ BSIZE / 4) by (pose proof (Z.div_mod BSIZE 4); lia). nia. }
  pose proof (divceil_mono HG (1 * sizeof_dirent) (2 * sizeof_dirent)) as Hm. specialize (Hm ltac:(lia)).
  assert (entry_cost 0 = 2 * divceil (1 * sizeof_dirent) BSIZE) as Ec0 by (unfold entry_cost; rewrite Z.mul_0_l; change (divceil 0 BSIZE) with 0; change (0 + 1) with 1; lia).
  assert (entry_cost 1 = 2 * divceil (2 * sizeof_dirent) BSIZE - 2 * divceil (1 * sizeof_dirent) BSIZE) as Ec1 by (unfold entry_cost; change (1 + 1) with 2; lia).
  destruct (entry_run HG HD HC s1 0 [] root_inode_number DOT T1 Hin D1) as (s2 & E2 & L2 & T2 & B2 & I2);
    [by apply not_elem_of_nil|lia|unfold enough, limit; lia|].
  destruct (entry_run HG HD HC s2 1 _ root_inode_number DOTDOT T2 Hin D2) as (s3 & E3 & L3 & T3 & B3 & I3);
    [by intros ?%list_elem_of_singleton|lia|unfold enough, limit; lia|].
  exists s3. assert (∀ n, Z.of_nat (length n) < 3 → mk.strcpy_entry root_inode_number n = mret (mk.entry_for root_inode_number n)) as Ecpy.
  { intros n Hn. unfold mk.strcpy_entry. by rewrite (proj2 (Z.ltb_lt _ _)) by (pose proof (c_dirsiz HC); lia). }
  split.
  2:{ intros k. rewrite !Ecpy by done. erewrite bind_ret by reflexivity. erewrite bind_ret by exact E2. erewrite bind_ret by reflexivity.
      by erewrite bind_ret by exact E3. }
  - split; [exact T3|by rewrite I3, I2| | |].
    + by intros f ?%elem_of_nil.
    + split; [|apply L3]. unfold dget. rewrite (lk_other _ _ _ _ _ L3), (lk_sblk _ _ _ _ _ L3) by auto. apply L2.
    + unfold cost. cbn [files_cost length]. change (2 + Z.of_nat 0) with 2. lia.
Qed.

(** The bitmap: the image is the one shown. *)
Lemma bitmap_run s : fresh (fs_img s) (freeblock s) → ∃ s', mk.balloc (s32 (freeblock s)) s = Ret tt s' ∧ fs_img s' = shown s.
Proof.
  intros HF. pose proof (fresh_small HG HC _ _ HF). rewrite s32_id by lia. exists (put_sect s BM (bits (freeblock s))). split; [|done].
  unfold mk.balloc. rewrite <- (g_bpb HG). rewrite (proj2 (Z.ltb_lt _ _)) by (apply (f_bits _ _ HF)). erewrite bind_ret by reflexivity.
  pose proof (f_bits _ _ HF) as Hb. rewrite (g_bpb HG) in Hb. pose proof (g_bsize HG).
  erewrite bind_ret by (apply set_bits_run; [done|rewrite length_replicate; lia]). done.
Qed.

Lemma filter_all {A} (P : A → Prop) `{∀ x, Decision (P x)} l : Forall P l → filter P l = l.
Proof. induction 1 as [|x l Hx _ IH]; [done|]. by rewrite filter_cons_True, IH. Qed.

(** The blocks that are left. *)
Lemma shown_room s k : fresh (fs_img s) (freeblock s) → Z.of_nat k ≤ limit - freeblock s → room (shown s) k.
Proof.
  intros HF Hk. right. pose proof (blocks_pos HG HC). pose proof (c_log HC). pose proof HF as [Es Hr _ _ _].
  assert (limit ≤ FSSIZE) by (unfold limit, mk.nblocks, mk.nlog; lia). assert (0 ≤ mk.nmeta) by (unfold mk.nmeta; lia).
  assert (sblk (shown s) = the_sb) as Esb by done || exact Es. unfold boot_ok, nfree. rewrite Esb, the_start. split.
  - intros b Hb. unfold shown. rewrite (used_view HG HC) by (done || lia). apply Z.ltb_lt. lia.
  - change (sb_nblocks the_sb) with mk.nblocks. unfold limit in *.
    replace mk.nblocks with ((freeblock s - mk.nmeta) + (mk.nmeta + mk.nblocks - freeblock s)) at 1 by lia.
    rewrite seqZ_app by lia. rewrite list.filter_app, length_app. replace (mk.nmeta + (freeblock s - mk.nmeta)) with (freeblock s) by lia.
    enough (filter (λ b, used (shown s) b = false) (seqZ (freeblock s) (mk.nmeta + mk.nblocks - freeblock s)) = seqZ (freeblock s) (mk.nmeta + mk.nblocks - freeblock s)) as E
      by (rewrite E, (length_seqZ (freeblock s)); lia).
    apply filter_all. apply list.Forall_forall. intros x Hx%elem_of_seqZ. unfold shown. rewrite (used_view HG HC) by (done || lia). apply Z.ltb_ge. lia.
Qed.

(** What mkfs leaves. *)
Record made_fs (img : image) (fl : list (list Z * list Z)) : Prop := {
  mf_rooted : rooted img;
  mf_room : ∀ k, Z.of_nat k ≤ mk.nblocks - cost fl → room img k;
  mf_dots : dget img root DOT = Some root ∧ dget img root DOTDOT = Some root;
  mf_files : ∀ f, f ∈ fl → is_file img f.1 f.2
}.

(** The end of main: the size of the root directory, and the bitmap. *)
Lemma finish_run s fl : placed s fl → (2 + Z.of_nat (length fl)) * sizeof_dirent mod BSIZE ≠ 0 → ∃ s',
  (din ← mk.rinode root_inode_number;
   let off := u32 ((mk.xint (d_size din) / BSIZE + 1) * BSIZE) in
   mk.winode root_inode_number (set_size (mk.xint off) din) ;;
   used ← gets freeblock;
   mk.balloc (s32 used)) s = Ret tt s' ∧ made_fs (fs_img s') fl.
Proof.
  intros [P1 P2 P3 P4 P5] Hm. destruct (tb_size HG _ _ _ P1) as (d & Ed & Ht & Hsz). rewrite <- Hsz in Hm.
  destruct (pad_run s _ _ d P1 Ed Hm) as (HT & Hd & Hg & Hc & Hty).
  destruct (xint_size HG s root d (t_fs _ (tb_tree _ _ _ P1)) Ed) as (Ex & Hs & HM).
  set (n := (d_size d / BSIZE + 1) * BSIZE) in *. set (s1 := set_img (with_inode (fs_img s) root (set_size n d)) s) in *.
  assert (0 ≤ n < 2 ^ 32) as Hn.
  { pose proof (bsize_31 HG). pose proof (g_bsize HG). destruct (off_split HG (d_size d) ltac:(lia)) as (Hq & Hr & Eo). unfold n. lia. }
  assert (fresh (fs_img s1) (freeblock s1)) as HF by (apply fresh_inode, P1).
  destruct (bitmap_run s1 HF) as (s2 & E2 & Ei2). exists s2. split.
  - unfold mk.rinode. rewrite bind_assoc. erewrite bind_ret by reflexivity. fold (inode_ptr root_inode_number). fold root. rewrite Ed.
    erewrite bind_ret by reflexivity. cbv zeta. rewrite Ex. fold n. rewrite u32_in, xint_id by lia.
    unfold mk.winode. rewrite !bind_assoc. erewrite bind_ret by reflexivity. fold (inode_ptr root_inode_number). fold root. rewrite Ed, !bind_assoc.
    erewrite bind_ret by reflexivity. erewrite bind_ret by reflexivity. erewrite bind_ret by reflexivity. exact E2.
  - rewrite Ei2. destruct (dots_ok HD) as (D1 & D2 & _). pose proof (tb_sblk _ _ _ P1) as Esb. split.
    + split_and!; [done| |done]. change (is_inum (sblk (shown s)) root_inode_number). by rewrite Esb.
    + intros k Hk. apply shown_room; [done|]. unfold s1, limit. cbn [freeblock set_img]. lia.
    + by rewrite !Hg.
    + intros f Hf. destruct (P3 f Hf) as (Hfn & ip & e & Hge & Ee & Hte & Hce). specialize (Hty ip). rewrite Ee in Hty.
      destruct (inodes (shown s1) !! ip) as [e1|] eqn:Ee1; [|done]. injection Hty as Hty. exists ip, e1. rewrite Hg, Hc; [split_and!; congruence| |done].
      intros ->. pose proof (tb_root _ _ _ P1) as (e0 & Ee0 & Ht0)%is_dir_inode. simplify_eq. by rewrite Ht0 in Hte.
Qed.

Lemma start_run (k : M mkfs unit) : (modify (set_freeblock mk.nmeta) ;; modify mk.blank_disk ;;
    modify (mk.set_sblk (mk_sb (mk.xint FSSIZE) (mk.xint mk.nblocks) (mk.xint NINODES) (mk.xint mk.nlog))) ;; k) mk.init = k start.
Proof.
  pose proof (blocks_pos HG HC) as (H1 & H2 & H3). pose proof (c_31 HC). pose proof (c_log HC). pose proof (c_blocks HC) as Hb.
  pose proof (bpb_pos HG). assert (mk.nblocks ≤ FSSIZE) by (unfold mk.nblocks, mk.nlog, mk.nmeta in *; lia).
  assert (0 ≤ mk.nlog ≤ FSSIZE) by (split; [done|]; unfold mk.nblocks, mk.nmeta in *; lia).
  rewrite !xint_id by (unfold NINODES; lia). done.
Qed.

Lemma main_run fs : args_ok fs → ∃ s', mk.main fs mk.init = Ret tt s' ∧ made_fs (fs_img s') (files fs).
Proof.
  intros [A1 A2 A3 A4 A5 A6 A7 A8]. pose proof (c_root HC) as Er.
  assert (length (files fs) = length fs) as Hlf by apply length_map.
  assert (rev (files fs) ++ [] ≡ₚ files fs) as HP by (rewrite app_nil_r; symmetry; apply Permutation_rev).
  pose proof (cost_le (files fs) []) as Hc0. rewrite app_nil_r in Hc0.
  assert (0 ≤ cost []) as Hcn.
  { unfold cost. cbn [files_cost length]. change (2 + Z.of_nat 0) with 2. pose proof (g_dirent HG).
    destruct (divceil_bounds HG (2 * sizeof_dirent)) as [Hb _]; lia. }
  destruct root_run as (s1 & E1 & T1 & B1 & I1); [done..|lia|].
  destruct (dots_run s1 T1 B1 I1) as (s3 & P3 & E3); [lia|lia|].
  destruct (add_files_run fs s3 [] P3 A1 A2) as (s4 & E4 & P4).
  { by rewrite (names_of_perm _ _ HP). } { rewrite (Permutation_length HP). lia. } { rewrite (Permutation_length HP), Hlf. done. }
  { by rewrite (cost_perm _ _ HP). } { by rewrite (cost_perm _ _ HP). }
  destruct (finish_run s4 _ P4) as (s5 & E5 & HM); [by rewrite (Permutation_length HP), Hlf|].
  exists s5. split.
  - unfold mk.main. rewrite (g_fill HG). erewrite bind_ret by reflexivity.
    rewrite start_run. erewrite bind_ret by exact E1. rewrite Er. erewrite bind_ret by reflexivity.
    rewrite E3. erewrite bind_ret by exact E4. exact E5.
  - destruct HM as [M1 M2 M3 M4]. split; try done.
    + intros k Hk. apply M2. by rewrite (cost_perm _ _ HP).
    + intros f Hf. apply M4. by rewrite HP.
Qed.


End main.
