(* ===== verification/FsTyped.v ===== *)
(** * The types of an image (tools/libfs.c, tools/opfs.c)

    Every block of an image is BSIZE bytes and every field of an inode is a number of
    the width its declaration gives it.  No command of opfs breaks this, whatever the
    image is and whatever its arguments are: it writes neither the super block nor
    outside of the blocks and inodes the image has. *)

From stdpp Require Import base gmap list numbers option strings.
From Stdlib Require Import Lia ZArith.
From S2P Require Import Prelude Fs FsBlocks FsFile FsRw FsTrunc FsDir FsTree FsUnlink Opfs.

#[local] Open Scope Z_scope.
#[local] Open Scope yaos_scope.

(** ** Programs and the type of their result

    [gives I P m]: when [m] returns, it leaves [I] true and its result has [P]. *)

Definition gives {S A} (I : S → Prop) (P : A → Prop) (m : M S A) : Prop :=
  ∀ s a s', I s → m s = Ret a s' → I s' ∧ P a.

Section gives.
Context {S : Type} (I : S → Prop).

Lemma gives_ret {A} (P : A → Prop) a : P a → gives I P (mret a).
Proof. intros HP s b s' HI [= <- <-]. done. Qed.

Lemma gives_bind {A B} (P : A → Prop) (Q : B → Prop) (m : M S A) f :
  gives I P m → (∀ a, P a → gives I Q (f a)) → gives I Q (m ≫= f).
Proof. intros Hm Hf s b s'' HI (a & s' & E & E')%bind_inv. destruct (Hm s a s' HI E). by eapply Hf. Qed.

Lemma gives_weak {A} (P Q : A → Prop) (m : M S A) : gives I P m → (∀ a, P a → Q a) → gives I Q m.
Proof. intros Hm HPQ s a s' HI E. destruct (Hm s a s' HI E). auto. Qed.

Lemma gives_gets {A} (P : A → Prop) (f : S → A) : (∀ s, I s → P (f s)) → gives I P (gets f).
Proof. intros HP s b s' HI [= <- <-]. auto. Qed.

Lemma gives_modify (f : S → S) : (∀ s, I s → I (f s)) → gives I (λ _, True) (modify f).
Proof. intros Hf s b s' HI [= _ <-]. auto. Qed.

Lemma gives_deref {A} (P : A → Prop) (o : option A) : (∀ a, o = Some a → P a) → gives I P (deref o).
Proof. intros HP. destruct o as [a|]; [by apply gives_ret, HP|]. by intros s b s' _. Qed.

Lemma gives_assert (P : unit → Prop) b : P tt → gives I P (ASSERT b).
Proof. intros HP s [] s'. unfold ASSERT. destruct b; by intros ? [= <-]. Qed.

Lemma gives_stop {A} (P : A → Prop) (m : M S A) : (∀ s a s', m s ≠ Ret a s') → gives I P m.
Proof. intros Hm s a s' _ E. by apply Hm in E. Qed.

Lemma gives_for n i (body : nat → M S unit) : (∀ j, gives I (λ _, True) (body j)) → gives I (λ _, True) (for_range n i body).
Proof.
  intros Hb. revert i. induction n as [|n IH]; intros i; simpl; [by apply gives_ret|].
  eapply gives_bind; [apply Hb|]. auto.
Qed.

End gives.

Create HintDb types.
#[export] Hint Extern 1 (gives _ _ panic) => by apply gives_stop : types.
#[export] Hint Extern 1 (gives _ _ fault) => by apply gives_stop : types.
#[export] Hint Extern 1 (gives _ _ fatal) => by apply gives_stop : types.
#[export] Hint Extern 1 (gives _ _ out_of_fuel) => by apply gives_stop : types.

(** Proves [gives I (λ _, True) m] along the structure of [m]; the operations [m] calls
    have their types in the hint database. *)
Ltac typing :=
  repeat match goal with
  | |- gives _ _ (gets _ ≫= _) => eapply (gives_bind _ (λ _, True)); [by apply gives_gets|intros ? _]
  | |- gives _ _ (ASSERT _ ≫= _) => eapply (gives_bind _ (λ _, True)); [by apply gives_assert|intros ? _]
  | |- gives _ _ (_ ≫= _) => eapply gives_bind; [solve [eauto with types]|cbv beta; intros ? ?; destruct_and?]
  | |- gives _ _ (deref _ ≫= _) => eapply (gives_bind _ (λ _, True)); [by apply gives_deref|intros ? _]
  | |- gives _ _ (_ ≫= _) => eapply (gives_bind _ (λ _, True)); [solve [typing]|intros ? _]
  | |- gives _ _ (let _ := _ in _) => cbv zeta
  | |- gives _ _ (if ?b then _ else _) => destruct b eqn:?
  | |- gives _ _ (match ?b with _ => _ end) => destruct b eqn:?; simplify_eq/=
  | |- gives _ (λ _, True) (mret _) => by apply gives_ret
  | |- gives _ (λ _, True) (for_range _ _ _) => apply gives_for; intros ?
  | |- gives _ _ _ => first [by apply gives_stop|solve [eauto with types]|eapply gives_weak; [solve [eauto with types]|done]]
  | |- gives _ _ (mret _) => apply gives_ret; cbn [fst snd]; solve [eauto with types]
  end.

(** ** Values *)

Definition byte (x : Z) : Prop := in_u 8 x.
Definition bytes (l : list Z) : Prop := Forall byte l.

Lemma bytes_store l off bs : bytes l → bytes bs → bytes (store l off bs).
Proof. intros Hl Hb. unfold store, bytes. rewrite !Forall_app. split_and!; [by apply Forall_take|done|by apply Forall_drop]. Qed.

Lemma bytes_slice l off n : bytes l → bytes (slice l off n).
Proof. intros Hl. by apply Forall_take, Forall_drop. Qed.

Lemma bytes_zero n : bytes (replicate n 0).
Proof. apply Forall_replicate. split; done. Qed.

Lemma bytes_strncpy a n : bytes a → bytes (strncpy a n).
Proof. intros Ha. apply Forall_take. apply Forall_app. split; [done|apply bytes_zero]. Qed.

Lemma bytes32_bytes v : bytes (bytes32 v).
Proof. repeat constructor; unfold byte, in_u; apply Z.mod_pos_bound; done. Qed.

Lemma le32_typed l : bytes l → (length l ≤ 4)%nat → in_u 32 (le32 l).
Proof.
  intros Hl Hn. unfold in_u. assert (∀ n l, bytes l → (length l ≤ n)%nat → 0 ≤ le32 l < 2 ^ (8 * Z.of_nat n)) as H.
  { clear. induction n as [|n IH]; intros [|x l] Hl Hn; simpl in Hn; try lia; [done|simpl; split; [done|apply Z.pow_pos_nonneg; lia]|].
    apply list.Forall_cons in Hl as [Hx Hl]. specialize (IH l Hl ltac:(lia)). cbn [le32 foldr]. fold (le32 l).
    replace (8 * Z.of_nat (S n)) with (8 + 8 * Z.of_nat n) by lia. rewrite Z.pow_add_r by lia. unfold byte, in_u in Hx. lia. }
  by apply (H 4%nat).
Qed.

Lemma byte_lor x y : byte x → byte y → byte (x .| y).
Proof.
  unfold byte, in_u. intros Hx Hy. split; [apply Z.lor_nonneg; lia|].
  destruct (decide (x .| y = 0)) as [->|Hne]; [done|]. apply Z.log2_lt_pow2; [pose proof (Z.lor_nonneg x y); lia|].
  rewrite Z.log2_lor by lia. apply Z.max_lub_lt.
  - destruct (decide (x = 0)) as [->|]; [done|]. apply Z.log2_lt_pow2; lia.
  - destruct (decide (y = 0)) as [->|]; [done|]. apply Z.log2_lt_pow2; lia.
Qed.

Lemma byte_bit i : byte (1 .<< (i mod 8)).
Proof.
  pose proof (Z.mod_pos_bound i 8). unfold byte, in_u. rewrite Z.shiftl_mul_pow2, Z.mul_1_l by lia.
  split; [apply Z.pow_nonneg; done|]. apply Z.pow_lt_mono_r; lia.
Qed.

Lemma byte_land x y : byte x → byte (x .& y).
Proof.
  unfold byte, in_u. intros Hx. rewrite <- (Z.mod_small x (2 ^ 8)) by lia.
  rewrite <- Z.land_ones, <- Z.land_assoc, (Z.land_comm (Z.ones 8) y), Z.land_assoc, Z.land_ones by lia.
  by apply Z.mod_pos_bound.
Qed.

Lemma u32_typed x : in_u 32 (u32 x).
Proof. by apply wrap_range. Qed.
Lemma u16_typed x : in_u 16 (u16 x).
Proof. by apply wrap_range. Qed.

#[export] Hint Resolve bytes_store bytes_slice bytes_zero bytes_strncpy bytes32_bytes u32_typed u16_typed : types.

(** ** Images *)

Section image.
Context {G : FsGeom}.

Record dinode_ok (d : dinode) : Prop := {
  ty_type : in_u 16 (d_type d);
  ty_major : in_u 16 (d_major d);
  ty_minor : in_u 16 (d_minor d);
  ty_nlink : in_u 16 (d_nlink d);
  ty_size : in_u 32 (d_size d);
  ty_addrs : Forall (in_u 32) (d_addrs d);
  ty_len : length (d_addrs d) = Z.to_nat (NDIRECT + 1);
  ty_owner : in_u 16 (d_owner d);
  ty_group : in_u 16 (d_group d);
  ty_mode : in_u 32 (d_mode d)
}.

Definition block_ok (l : list Z) : Prop := length l = Z.to_nat BSIZE ∧ bytes l.

(** An image of the shape of [img0] with every value of its type. *)
Record typed (img0 img : image) : Prop := {
  ty_sblk : sblk img = sblk img0;
  ty_idom : dom (inodes img) = dom (inodes img0);
  ty_bdom : dom (blks img) = dom (blks img0);
  ty_inode : ∀ p d, inodes img !! p = Some d → dinode_ok d;
  ty_block : ∀ b l, blks img !! b = Some l → block_ok l
}.

(** What fs.h and the machine provide: an entry is stored as bytes, and memory that is
    not initialised holds bytes. *)
Record bytes_laws : Prop := {
  bl_ndirect : 0 ≤ NDIRECT;
  bl_dirent : ∀ de, in_u 16 (de_inum de) → bytes (de_name de) → bytes (bytes_of de);
  bl_uninit : ∀ n, bytes (uninit n) ∧ length (uninit n) = Z.to_nat n
}.

End image.
Arguments bytes_laws : clear implicits.

Section ops.
Context {G : FsGeom} (HB : bytes_laws G) (img0 : image).

Notation gives := (gives (typed img0)).
Notation ok := (gives (λ _, True)).

(** ** Reading and writing *)

Lemma getblk_typed b : gives (λ l, b ∈ dom (blks img0) ∧ block_ok l) (getblk b).
Proof.
  intros s l s' HI (o & s1 & [= <- <-] & E)%bind_inv. destruct (blks s !! b) as [x|] eqn:Eb; [|done].
  injection E as <- <-. split; [done|]. split; [|by eapply ty_block]. rewrite <- (ty_bdom _ _ HI). by apply elem_of_dom.
Qed.

Lemma setblk_typed b l : b ∈ dom (blks img0) → block_ok l → ok (setblk b l).
Proof.
  intros Hb Hl. apply gives_modify. intros s [H1 H2 H3 H4 H5]. split; try done; cbn [blks].
  - rewrite dom_insert_L, H3. set_solver.
  - intros c l' [[<- <-]|[_ E]]%lookup_insert_Some; [done|by eapply H5].
Qed.

Lemma bread_typed b off n : gives (λ l, bytes l ∧ (length l ≤ Z.to_nat n)%nat) (bread b off n).
Proof.
  unfold bread. eapply gives_bind; [apply getblk_typed|]. intros l [_ [_ Hl]]. destruct (inside _ _ _); [|by apply gives_stop].
  apply gives_ret. split; [by apply bytes_slice|]. unfold slice. rewrite length_take. lia.
Qed.

Lemma bwrite_typed b off bs : bytes bs → ok (bwrite b off bs).
Proof.
  intros Hbs. unfold bwrite. eapply gives_bind; [apply getblk_typed|]. intros l [Hb [Hl1 Hl2]].
  destruct (inside _ _ _) eqn:E; [|by apply gives_stop]. apply setblk_typed; [done|].
  split; [by rewrite length_store|by apply bytes_store].
Qed.

Lemma inode_typed ip : gives (λ d, ip ∈ dom (inodes img0) ∧ dinode_ok d) (inode ip).
Proof.
  intros s d s' HI (o & s1 & [= <- <-] & E)%bind_inv. destruct (inodes s !! ip) as [x|] eqn:Eb; [|done].
  injection E as <- <-. split; [done|]. split; [|by eapply ty_inode]. rewrite <- (ty_idom _ _ HI). by apply elem_of_dom.
Qed.

Lemma put_inode_typed ip d : ip ∈ dom (inodes img0) → dinode_ok d → ok (put_inode ip d).
Proof.
  intros Hb Hl. apply gives_modify. intros s [H1 H2 H3 H4 H5]. split; try done; cbn [inodes].
  - rewrite dom_insert_L, H2. set_solver.
  - intros c l' [[<- <-]|[_ E]]%lookup_insert_Some; [done|by eapply H4].
Qed.

Lemma upd_inode_typed ip f : (∀ d, dinode_ok d → dinode_ok (f d)) → ok (upd_inode ip f).
Proof. intros Hf. unfold upd_inode. eapply gives_bind; [apply inode_typed|]. intros d [Hi Hd]. apply put_inode_typed; auto. Qed.

#[local] Hint Resolve getblk_typed setblk_typed bread_typed bwrite_typed inode_typed put_inode_typed : types.

Lemma block_insert l k x : block_ok l → byte x → block_ok (<[k := x]> l).
Proof. intros [H1 H2] Hx. split; [by rewrite length_insert|]. by apply list.Forall_insert. Qed.

Lemma block_byte (l : list Z) k x : block_ok l → l !! k = Some x → byte x.
Proof. intros [_ H2] E. by eapply list.Forall_lookup_1. Qed.

Lemma get_uint_typed b k : gives (in_u 32) (get_uint b k).
Proof. unfold get_uint. eapply gives_bind; [apply bread_typed|]. intros l [H1 H2]. apply gives_ret, le32_typed; [done|exact H2]. Qed.

Lemma put_uint_typed b k v : ok (put_uint b k v).
Proof. apply bwrite_typed, bytes32_bytes. Qed.

Lemma bufwrite_typed buf off bs : bytes buf → bytes bs → gives bytes (bufwrite buf off bs).
Proof. intros H1 H2. unfold bufwrite. destruct (inside _ _ _); [by apply gives_ret, bytes_store|by apply gives_stop]. Qed.

Lemma bufread_typed buf off n : bytes buf → gives bytes (bufread buf off n).
Proof. intros H1. unfold bufread. destruct (inside _ _ _); [by apply gives_ret, bytes_slice|by apply gives_stop]. Qed.

(** ** Blocks *)

Lemma balloc_bits_typed fuel : ∀ b bi, gives (λ o, ∀ x, o = Some x → in_u 32 x) (balloc_bits fuel b bi).
Proof.
  induction fuel as [|fuel IH]; intros b bi; cbn [balloc_bits]; eapply (gives_bind _ (λ _, True)); [by apply gives_gets|intros sb _|by apply gives_gets|intros sb _];
    destruct (_ && _); try (by apply gives_ret); [by apply gives_stop|].
  eapply gives_bind; [apply getblk_typed|]. intros bp [Hb Hbp].
  eapply (gives_bind _ byte); [apply gives_deref; intros x E; by eapply block_byte|]. intros x Hx.
  destruct (_ =? 0); [|apply IH]. eapply gives_bind; [apply setblk_typed; [done|apply block_insert; [done|apply byte_lor; [done|apply byte_bit]]]|].
  intros _ _. destruct (negb _); [by apply gives_stop|].
  eapply gives_bind; [apply bwrite_typed, bytes_zero|]. intros _ _. apply gives_ret. intros y [= <-]. apply u32_typed.
Qed.

Lemma balloc_typed : gives (in_u 32) balloc.
Proof.
  unfold balloc. eapply (gives_bind _ (λ _, True)); [by apply gives_gets|]. intros fuel _.
  assert (∀ fuel b, gives (in_u 32) (balloc_blocks fuel b)) as H; [|apply H]. clear fuel.
  induction fuel as [|fuel IH]; intros b; cbn [balloc_blocks]; eapply (gives_bind _ (λ _, True)); [by apply gives_gets|intros sb _|by apply gives_gets|intros sb _];
    destruct (_ <? _); try (by apply gives_stop).
  eapply gives_bind; [apply balloc_bits_typed|]. intros [r|] Hr; [by apply gives_ret, Hr|apply IH].
Qed.

Lemma bfree_typed b : ok (bfree b).
Proof.
  unfold bfree. eapply (gives_bind _ (λ _, True)); [by apply gives_gets|]. intros sb _. destruct (negb _); [by apply gives_ret|]. cbv zeta.
  eapply gives_bind; [apply getblk_typed|]. intros bp [Hb Hbp].
  eapply (gives_bind _ byte); [apply gives_deref; intros x E; by eapply block_byte|]. intros x Hx.
  eapply gives_bind; [apply setblk_typed; [done|apply block_insert; [done|by apply byte_land]]|]. intros _ _. by apply gives_ret.
Qed.

(** ** Inodes *)

Lemma dinode0_ok : dinode_ok dinode0.
Proof. split; try (split; done); [|apply length_replicate]. apply Forall_replicate. split; done. Qed.

Lemma set_type_ok t d : in_u 16 t → dinode_ok d → dinode_ok (set_type t d).
Proof. intros Ht []. by split. Qed.
Lemma set_nlink_ok n d : in_u 16 n → dinode_ok d → dinode_ok (set_nlink n d).
Proof. intros Ht []. by split. Qed.
Lemma set_size_ok n d : in_u 32 n → dinode_ok d → dinode_ok (set_size n d).
Proof. intros Ht []. by split. Qed.
Lemma set_addrs_ok k v d : in_u 32 v → dinode_ok d → dinode_ok (set_addrs (<[k := v]> (d_addrs d)) d).
Proof. intros Ht []. split; try done; cbn; [by apply list.Forall_insert|by rewrite length_insert]. Qed.

Lemma nlink_typed ip f : ok (upd_inode ip (λ d, set_nlink (u16 (f d)) d)).
Proof. apply upd_inode_typed. intros d Hd. apply set_nlink_ok; [apply u16_typed|done]. Qed.

Lemma ialloc_typed type : ok (ialloc type).
Proof.
  unfold ialloc. eapply (gives_bind _ (λ _, True)); [by apply gives_gets|]. intros fuel _. generalize 1 as inum.
  induction fuel as [|fuel IH]; intros inum; cbn [ialloc_loop]; eapply (gives_bind _ (λ _, True)); [by apply gives_gets|intros sb _|by apply gives_gets|intros sb _];
    destruct (_ <? _); try (by apply gives_stop).
  eapply gives_bind; [apply inode_typed|]. intros d [Hi Hd]. destruct (_ =? 0); [|apply IH].
  eapply gives_bind; [apply put_inode_typed; [done|apply dinode0_ok]|]. intros _ _.
  eapply gives_bind; [apply upd_inode_typed; intros e He; apply set_type_ok; [apply u16_typed|done]|]. intros _ _. by apply gives_ret.
Qed.

Lemma ifree_typed inum : ok (ifree inum).
Proof.
  unfold ifree. eapply (gives_bind _ (λ _, True)); [by apply gives_gets|]. intros sb _. destruct (iget sb inum); [|by apply gives_ret].
  eapply gives_bind; [apply inode_typed|]. intros d _.
  eapply gives_bind; [apply upd_inode_typed; intros e He; apply set_type_ok; [split; done|done]|]. intros _ _. by apply gives_ret.
Qed.

Lemma addr_at_typed ip n : gives (in_u 32) (addr_at ip n).
Proof.
  unfold addr_at. eapply gives_bind; [apply inode_typed|]. intros d [_ Hd]. apply gives_deref. intros a E.
  eapply list.Forall_lookup_1; [apply Hd|done].
Qed.

Lemma set_addr_typed ip n v : in_u 32 v → ok (set_addr ip n v).
Proof. intros Hv. apply upd_inode_typed. intros d Hd. by apply set_addrs_ok. Qed.

#[local] Hint Resolve get_uint_typed put_uint_typed bufwrite_typed bufread_typed balloc_typed bfree_typed nlink_typed
  ialloc_typed ifree_typed addr_at_typed set_addr_typed : types.

Lemma bmap_typed ip n : gives (in_u 32) (bmap ip n).
Proof.
  unfold bmap. destruct (n <? NDIRECT).
  - eapply gives_bind; [apply addr_at_typed|]. intros a Ha. destruct (a =? 0); [|by apply gives_ret].
    eapply gives_bind; [apply balloc_typed|]. intros b Hb. eapply gives_bind; [by apply set_addr_typed|]. intros _ _. by apply gives_ret.
  - cbv zeta. destruct (_ <=? _); [apply gives_ret; split; done|]. eapply gives_bind; [apply addr_at_typed|]. intros a Ha.
    eapply (gives_bind _ (λ _, True)); [typing|]. intros ia _. typing.
Qed.

(** ** Files *)

#[local] Hint Resolve bmap_typed u32_typed u16_typed set_size_ok set_nlink_ok upd_inode_typed : types.

Lemma iread_loop_typed fuel ip : ∀ buf n t off, bytes buf → gives (λ r, bytes r.1) (iread_loop fuel ip buf n t off).
Proof.
  induction fuel as [|fuel IH]; intros buf n t off Hb; cbn [iread_loop]; typing.
Qed.

#[local] Hint Resolve iread_loop_typed : types.

Lemma iread_typed ip buf n off : bytes buf → gives (λ r, bytes r.1) (iread ip buf n off).
Proof.
  intros Hb. unfold iread. typing.
Qed.

Lemma iwrite_loop_typed fuel ip buf n : bytes buf → ∀ t off, in_u 32 off → gives (λ r, in_u 32 r.2) (iwrite_loop fuel ip buf n t off).
Proof.
  intros Hb. induction fuel as [|fuel IH]; intros t off Ho; cbn [iwrite_loop]; typing.
Qed.

Lemma iwrite_typed ip buf n off : bytes buf → in_u 32 off → ok (iwrite ip buf n off).
Proof.
  intros Hb Ho. unfold iwrite. typing. eapply gives_bind; [by apply iwrite_loop_typed|]. intros [t o] Hr. typing.
Qed.

Lemma fill_loop_typed fuel ip n : ∀ t off, ok (fill_loop fuel ip n t off).
Proof. induction fuel as [|fuel IH]; intros t off; cbn [fill_loop]; typing. Qed.

#[local] Hint Resolve fill_loop_typed : types.

Lemma itruncate_typed ip size : in_u 32 size → ok (itruncate ip size).
Proof.
  intros Hs. assert (in_u 32 0) by (split; done). unfold itruncate, trunc_direct, trunc_indirect. typing.
Qed.

(** ** Directories *)

#[local] Hint Resolve iread_typed iwrite_typed itruncate_typed : types.
#[local] Hint Extern 1 (bytes (uninit _)) => apply (bl_uninit HB) : types.

Definition off_typed (o : option Z) : Prop := ∀ x, o = Some x → in_u 32 x.

Lemma off_none : off_typed None.
Proof. done. Qed.
Lemma off_some x : in_u 32 x → off_typed (Some x).
Proof. by intros Hx y [= <-]. Qed.
Lemma zero_typed : in_u 32 0.
Proof. split; done. Qed.

Lemma deref_off o : off_typed o → gives (in_u 32) (deref o).
Proof. intros Ho. by apply gives_deref. Qed.

#[local] Hint Resolve off_none off_some zero_typed deref_off : types.

Lemma dlookup_loop_typed fuel dp name : ∀ buf off, bytes buf → in_u 32 off →
  gives (λ r, off_typed r.2) (dlookup_loop fuel dp name buf off).
Proof. induction fuel as [|fuel IH]; intros buf off Hb Ho; cbn [dlookup_loop]; typing. Qed.

#[local] Hint Resolve dlookup_loop_typed : types.

Lemma dlookup_typed dp name : gives (λ r, off_typed r.2) (dlookup dp name).
Proof. unfold dlookup. typing. Qed.

Lemma find_slot_typed fuel dp name : ∀ buf off, bytes buf → in_u 32 off → gives off_typed (find_slot fuel dp name buf off).
Proof. induction fuel as [|fuel IH]; intros buf off Hb Ho; cbn [find_slot]; typing. Qed.

#[local] Hint Resolve dlookup_typed find_slot_typed : types.

Lemma entry_bytes n name : bytes name → bytes (bytes_of (mk_dirent (u16 n) (strncpy name DIRSIZ))).
Proof. intros Hn. apply (bl_dirent HB); [apply u16_typed|by apply bytes_strncpy]. Qed.

Lemma off_inv x : off_typed (Some x) → in_u 32 x.
Proof. intros H. by apply H. Qed.

#[local] Hint Resolve entry_bytes off_inv : types.

Lemma daddent_typed dp name ip : bytes name → ok (daddent dp name ip).
Proof. intros Hn. unfold daddent. typing. Qed.

Lemma dot_bytes : bytes DOT.
Proof. by repeat constructor. Qed.
Lemma dotdot_bytes : bytes DOTDOT.
Proof. by repeat constructor. Qed.

Lemma uninit_off o : off_typed o → in_u 32 (default (le32 (uninit 4)) o).
Proof.
  intros Ho. destruct o as [x|]; [by apply Ho|]. destruct (bl_uninit HB 4) as [H1 H2]. apply le32_typed; [done|]. by rewrite H2.
Qed.

#[local] Hint Resolve daddent_typed dot_bytes dotdot_bytes uninit_off : types.

Lemma dmkparlink_typed pip cip : ok (dmkparlink pip cip).
Proof. unfold dmkparlink. typing. Qed.

Lemma assert_dir_typed rp : ok (assert_dir rp).
Proof. unfold assert_dir. typing. by apply gives_assert. Qed.

#[local] Hint Resolve assert_dir_typed dmkparlink_typed : types.

Lemma ilookup_typed rp path : ok (ilookup rp path).
Proof.
  unfold ilookup. generalize (S (length path)) as fuel. intros fuel. revert rp path.
  induction fuel as [|fuel IH]; intros rp path; cbn [ilookup_loop]; typing.
Qed.

Lemma skipelem_bytes path rest name : skipelem path = (rest, name) → bytes path → bytes rest ∧ bytes name.
Proof.
  unfold skipelem. intros [= <- <-] Hp. destruct (skip_sep_suffix path) as [a Ea]. rewrite Ea in Hp. apply Forall_app in Hp as [_ Hp].
  split; [|by apply Forall_take]. destruct (skip_name_suffix (skip_sep path)) as [b Eb]. rewrite Eb in Hp. by apply Forall_app in Hp as [_ Hp].
Qed.

Lemma icreat_typed rp path type : bytes path → ok (icreat rp path type).
Proof.
  unfold icreat. generalize (S (length path)) as fuel. intros fuel. revert rp path.
  induction fuel as [|fuel IH]; intros rp path Hp; cbn [icreat_loop]; [by apply gives_stop|].
  destruct (skipelem path) as [rest name] eqn:E. destruct (skipelem_bytes _ _ _ E Hp) as [Hr Hn]. typing.
Qed.

Lemma emptydir_typed dp : ok (emptydir dp).
Proof.
  unfold emptydir. eapply gives_bind; [apply inode_typed|]. intros d _.
  assert (∀ fuel buf nent off, bytes buf → ok (emptydir_loop fuel dp buf nent off)) as H; [|apply H, (bl_uninit HB)].
  induction fuel as [|fuel IH]; intros buf nent off Hb; cbn [emptydir_loop]; typing.
Qed.

Lemma unlink_at_typed rp ip off : in_u 32 off → ok (unlink_at rp ip off).
Proof. intros Ho. unfold unlink_at. typing. Qed.

#[local] Hint Resolve unlink_at_typed : types.

Lemma iunlink_typed rp path : ok (iunlink rp path).
Proof.
  unfold iunlink. generalize (S (length path)) as fuel. intros fuel. revert rp path.
  induction fuel as [|fuel IH]; intros rp path; cbn [iunlink_loop]; [by apply gives_stop|].
  destruct (skipelem path) as [rest name]. typing.
Qed.

#[local] Hint Resolve ilookup_typed icreat_typed emptydir_typed iunlink_typed : types.

(** ** The commands *)

Lemma split_loop_suffix fuel : ∀ path s, (∃ p, s = p ++ path) → bytes s → bytes (split_loop fuel path s).
Proof.
  induction fuel as [|fuel IH]; intros path s Hsuf Hs; cbn [split_loop]; [done|]. destruct (is_empty path); [done|].
  destruct Hsuf as [p ->]. apply Forall_app in Hs as [_ Hp]. destruct (skip_sep_suffix path) as [a Ea].
  apply IH; [apply skip_name_suffix|]. rewrite Ea in Hp. by apply Forall_app in Hp as [_ Hp].
Qed.

Lemma split_name path : bytes path → bytes (split_loop (length path) path path).
Proof. intros Hp. apply split_loop_suffix; [by exists []|done]. Qed.

Lemma split_eq path size name dir : splitpath path size = (name, dir) → bytes path → bytes name.
Proof. intros [= <- _]. apply split_name. Qed.

Lemma split_base path size : bytes path → bytes (splitpath path size).1.
Proof. apply split_name. Qed.

#[local] Hint Resolve split_name split_base : types.

Lemma root_typed {A} (f : inode_t → M image A) : (∀ r, ok (f r)) → ok (with_root f).
Proof. intros Hf. unfold with_root. typing. Qed.

Lemma do_diskinfo_typed args : ok (do_diskinfo args).
Proof.
  unfold do_diskinfo. destruct args; [|by apply gives_ret].
  assert (∀ n b u, ok (count_bits n b u)) by (induction n as [|n IH]; intros; cbn [count_bits]; typing).
  assert (∀ n i c, ok (count_types n i c)) by (induction n as [|n IH]; intros; cbn [count_types]; typing). typing.
Qed.

Lemma do_info_typed args : ok (do_info args).
Proof. unfold do_info. destruct args as [|path [|]]; try (by apply gives_ret). apply root_typed. intros r. typing. Qed.

Lemma ls_loop_typed fuel ip : ∀ buf off out, bytes buf → ok (ls_loop fuel ip buf off out).
Proof. induction fuel as [|fuel IH]; intros buf off out Hb; cbn [ls_loop]; typing. Qed.

Lemma get_loop_typed fuel ip : ∀ buf off out, bytes buf → ok (get_loop fuel ip buf off out).
Proof. induction fuel as [|fuel IH]; intros buf off out Hb; cbn [get_loop]; typing. Qed.

Lemma cp_loop_typed fuel sip dip : ∀ buf off, bytes buf → in_u 32 off → ok (cp_loop fuel sip dip buf off).
Proof. induction fuel as [|fuel IH]; intros buf off Hb Ho; cbn [cp_loop]; typing. Qed.

(** The standard input: every result of read that is not an error is bytes. *)
Definition input_ok (reads : list (option (list Z))) : Prop := ∀ bs, Some bs ∈ reads → bytes bs.

Lemma put_loop_typed fuel ip : ∀ off reads, in_u 32 off → input_ok reads → ok (put_loop fuel ip off reads).
Proof.
  induction fuel as [|fuel IH]; intros off reads Ho Hr; cbn [put_loop]; [typing|]. destruct (_ <? _); [|typing].
  assert (∀ x, x = match reads with r :: rs => (r, rs) | [] => (Some [], []) end →
    input_ok x.2 ∧ ∀ bs, x.1 = Some bs → bytes bs) as Hx.
  { intros x ->. destruct reads as [|r rs]; cbn; [split; [done|]; by intros bs [= <-]; constructor|].
    split; [intros bs Hbs; apply Hr; by right|]. intros bs ->. apply Hr. left. }
  destruct (match reads with r :: rs => (r, rs) | [] => (Some [], []) end) as [now rs]. destruct (Hx _ eq_refl) as [Hrs Hn].
  destruct now as [bs|]; [|typing]. specialize (Hn bs eq_refl). typing.
Qed.

#[local] Hint Resolve ls_loop_typed get_loop_typed put_loop_typed cp_loop_typed do_diskinfo_typed do_info_typed : types.

Lemma do_ls_typed args : ok (do_ls args).
Proof. unfold do_ls. destruct args as [|path [|]]; try (by apply gives_ret). apply root_typed. intros r. typing. Qed.

Lemma do_get_typed args : ok (do_get args).
Proof. unfold do_get. destruct args as [|path [|]]; try (by apply gives_ret). apply root_typed. intros r. typing. Qed.

Lemma do_put_typed args reads : Forall bytes args → input_ok reads → ok (do_put args reads).
Proof.
  intros Ha Hr. unfold do_put. destruct args as [|path [|]]; try (by apply gives_ret). apply list.Forall_cons in Ha as [Hp _].
  apply root_typed. intros r. typing.
Qed.

Lemma do_rm_typed args : ok (do_rm args).
Proof. unfold do_rm. destruct args as [|path [|]]; try (by apply gives_ret). apply root_typed. intros r. typing. Qed.

Lemma do_mkdir_typed args : Forall bytes args → ok (do_mkdir args).
Proof.
  intros Ha. unfold do_mkdir. destruct args as [|path [|]]; try (by apply gives_ret). apply list.Forall_cons in Ha as [Hp _].
  apply root_typed. intros r. typing.
Qed.

Lemma do_rmdir_typed args : ok (do_rmdir args).
Proof. unfold do_rmdir. destruct args as [|path [|]]; try (by apply gives_ret). apply root_typed. intros r. typing. Qed.

Lemma do_cp_typed args : Forall bytes args → ok (do_cp args).
Proof.
  intros Ha. unfold do_cp, cp_dest. destruct args as [|sp [|dp [|]]]; try (by apply gives_ret).
  apply list.Forall_cons in Ha as [Hs [Hd _]%list.Forall_cons]. apply root_typed. intros r.
  destruct (splitpath dp BUFSIZE) as [dname ddir] eqn:Es. pose proof (split_eq _ _ _ _ Es Hd). typing.
Qed.

Lemma do_mv_typed args : Forall bytes args → ok (do_mv args).
Proof.
  intros Ha. unfold do_mv, mv_into. destruct args as [|sp [|dp [|]]]; try (by apply gives_ret).
  apply list.Forall_cons in Ha as [Hs [Hd _]%list.Forall_cons]. apply root_typed. intros r.
  destruct (splitpath dp BUFSIZE) as [dname ddir] eqn:Es. pose proof (split_eq _ _ _ _ Es Hd). typing.
Qed.

(** The directory and the name of the new link. *)
Definition target_ok (t : option (inode_t * list Z)) : Prop := ∀ p n, t = Some (p, n) → bytes n.

Lemma target_none : target_ok None.
Proof. done. Qed.
Lemma target_some p n : bytes n → target_ok (Some (p, n)).
Proof. by intros Hn ? ? [= _ <-]. Qed.
Lemma target_if (b : bool) t u : target_ok t → target_ok u → target_ok (if b then t else u).
Proof. by destruct b. Qed.
Lemma target_match {A} (o : option A) t u : target_ok t → target_ok u → target_ok (match o with Some _ => t | None => u end).
Proof. by destruct o. Qed.

#[local] Hint Resolve target_none target_some target_if target_match : types.

Lemma do_ln_typed args : Forall bytes args → ok (do_ln args).
Proof.
  intros Ha. unfold do_ln. destruct args as [|sp [|dp [|]]]; try (by apply gives_ret).
  apply list.Forall_cons in Ha as [Hs [Hd _]%list.Forall_cons]. apply root_typed. intros r.
  destruct (splitpath dp BUFSIZE) as [dname ddir] eqn:Es. pose proof (split_eq _ _ _ _ Es Hd) as Hn.
  eapply gives_bind; [apply ilookup_typed|]. intros [sip|] _; [|by apply gives_ret].
  eapply gives_bind; [apply inode_typed|]. intros d _. destruct (negb _); [by apply gives_ret|].
  eapply gives_bind; [apply ilookup_typed|]. intros [dip|] _; [|by apply gives_ret].
  eapply gives_bind; [apply inode_typed|]. intros e _. destruct (negb _); [by apply gives_ret|].
  eapply (gives_bind _ target_ok); [typing|]. intros [[q n]|] Ht; [|by apply gives_ret]. specialize (Ht q n eq_refl). typing.
Qed.

#[local] Hint Resolve do_ls_typed do_get_typed do_put_typed do_rm_typed do_mkdir_typed do_rmdir_typed do_cp_typed do_mv_typed do_ln_typed : types.

Lemma exec_cmd_gives cmd args reads : Forall bytes args → input_ok reads → ok (exec_cmd cmd args reads).
Proof.
  intros Ha Hr. unfold exec_cmd. destruct (list_find _ _) as [[i [name f]]|] eqn:E; [|by apply gives_ret].
  apply list_find_Some in E as (E & _). apply list_elem_of_lookup_2 in E. unfold cmd_table in E.
  repeat (apply elem_of_cons in E as [[= -> ->]|E]; [unfold prints, quiet; typing|]). by apply elem_of_nil in E.
Qed.

End ops.

