(* ===== verification/FsSample.v ===== *)
(** * A small file system

    A geometry with blocks of 32 bytes and an image of 32 blocks whose root directory
    is empty, on which the theorems about the file system are used. *)

From stdpp Require Import base gmap list numbers option strings.
From Stdlib Require Import Lia ZArith.
From S2P Require Import Prelude Fs FsBlocks FsFile FsRw FsTrunc FsDir FsTree FsUnlink Opfs Mkfs MkfsOk MkfsTree MkfsMain FsTyped.

#[local] Open Scope Z_scope.
#[local] Open Scope yaos_scope.

(** ** The geometry *)

Definition byte_at (bs : list Z) (i : nat) : Z := default 0 (bs !! i).

#[local] Instance small : FsGeom := {
  BSIZE := 32; NDIRECT := 2; NINDIRECT := 8; MAXFILE := 10; IPB := 2; BPB := 256; DIRSIZ := 6;
  IBLOCK i := 2 + i / 2;
  BBLOCK b n := 2 + (n / 2 + 1) + b / 256;
  sizeof_dirent := 8;
  dirent_of bs := mk_dirent (byte_at bs 0 + 256 * byte_at bs 1) (byte_at bs <$> seq 2 6);
  bytes_of de := [de_inum de mod 256; de_inum de / 256] ++ (byte_at (de_name de) <$> seq 0 6);
  uninit n := replicate (Z.to_nat n) 170
}.

Lemma small_ok : geom_ok small.
Proof. split; try done; intros; apply length_replicate. Qed.

Lemma small_dirent : dirent_laws small.
Proof.
  split; try done. intros [inum [|a [|b [|c [|d [|e [|f [|g name]]]]]]]]; try done. simpl. unfold byte_at. simpl. intros H _. f_equal.
  pose proof (Z.div_mod inum 256). lia.
Qed.

(** ** The image *)

Definition mem_map (n : nat) : list (Z * list Z) := map (λ b, (Z.of_nat b, replicate 32 0)) (seq 0 n).

(** Eight inodes, the root directory empty; the bits of the eight blocks in front of the
    data blocks are set. *)
Definition disk : image := mk_img (mk_sb 32 24 8 0)
  (<[inode_ptr 1 := set_nlink 1 (set_type T_DIR dinode0)]>
     (list_to_map (map (λ i, (inode_ptr i, dinode0)) (seqZ 0 8))))
  (<[7 := 255 :: replicate 31 0]> (list_to_map (mem_map 32))).

Lemma range_check (f : Z → bool) a n : forallb f (seqZ a n) = true → ∀ i, a ≤ i < a + n → f i = true.
Proof. rewrite forallb_forall. intros H i Hi. apply H, list_elem_of_In, elem_of_seqZ. lia. Qed.

Definition blk_ok (b : Z) : bool := match blks disk !! b with Some l => (length l =? 32)%nat | None => false end.

Lemma blk_ok_spec b : blk_ok b = true → ∃ l, blks disk !! b = Some l ∧ length l = Z.to_nat BSIZE.
Proof. unfold blk_ok. destruct (blks disk !! b) as [l|]; [|done]. intros ?%Nat.eqb_eq. eauto. Qed.

Definition inode_ok (d : dinode) : bool := (d_size d =? 0) && bool_decide (d_addrs d = [0; 0; 0]).

Lemma disk_inodes : map_Forall (λ _ d, inode_ok d = true) (inodes disk).
Proof. apply map_Forall_to_list. vm_compute. repeat constructor. Qed.

Lemma disk_layout : layout disk.
Proof.
  split; try done.
  - intros p d Ed. apply disk_inodes in Ed. unfold inode_ok in Ed. rewrite andb_true_iff in Ed.
    destruct Ed as [_ E%bool_decide_eq_true_1]. by rewrite E.
  - intros i Hi. change (0 ≤ i < 0 + 8) in Hi.
    assert ((λ i, match inodes disk !! inode_ptr i with Some _ => true | None => false end) i = true) as H
      by (revert i Hi; apply range_check; vm_compute; reflexivity).
    cbv beta in H. fold (inode_ptr i). destruct (inodes disk !! inode_ptr i); [eauto|done].
  - intros b Hb. change (0 ≤ b < 0 + 32) in Hb. apply blk_ok_spec.
    apply (range_check (λ b, blk_ok (BBLOCK b 8)) 0 32); [vm_compute; reflexivity|done].
  - intros b Hb. change (8 ≤ b < 8 + 24) in Hb. apply blk_ok_spec, (range_check blk_ok 8 24); [vm_compute; reflexivity|done].
Qed.

Lemma disk_blank : blank disk.
Proof.
  split.
  - intros p d Ed. apply disk_inodes in Ed. unfold inode_ok in Ed. rewrite andb_true_iff in Ed.
    destruct Ed as [E1%Z.eqb_eq E2%bool_decide_eq_true_1]. done.
  - intros b Hb. change (8 ≤ b < 8 + 24) in Hb. apply negb_true_iff.
    apply (range_check (λ b, negb (used disk b)) 8 24); [vm_compute; reflexivity|done].
Qed.

Lemma disk_boot : boot_ok disk.
Proof. intros b Hb. change (0 ≤ b < 0 + 8) in Hb. apply (range_check (used disk) 0 8); [vm_compute; reflexivity|done]. Qed.

Lemma disk_nfree : nfree disk = 24%nat.
Proof. vm_compute. reflexivity. Qed.

Lemma disk_tree : tree_ok disk.
Proof. apply (blank_tree small_ok); [apply disk_layout|apply disk_blank]. Qed.

Lemma disk_rooted : rooted disk.
Proof. split_and!; [apply disk_tree|split; done|vm_compute; reflexivity]. Qed.

Lemma disk_roomy : roomy disk.
Proof.
  split.
  - exists 2. split; [split; done|]. eexists. split; [vm_compute; reflexivity|done].
  - intros p _. unfold has_room, dir. rewrite (blank_content disk p disk_blank), (entries_nil small_ok). vm_compute. done.
Qed.

Lemma disk_room k : (k ≤ 24)%nat → room disk k.
Proof. intros Hk. right. split; [apply disk_boot|by rewrite disk_nfree]. Qed.

(** ** A file *)

Definition a_path : list Z := [47; 97].
Definition a_bytes : list Z := seqZ 1 40.
Definition a_reads : list (option (list Z)) := [Some a_bytes].
Definition a_ptr : inode_t := inode_ptr 2.

(** The image after put of forty bytes as "/a". *)
Definition disk1 : image := match do_put [a_path] a_reads disk with Ret _ img => img | _ => disk end.

Lemma a_reads_ok : reads_ok a_reads.
Proof. constructor; [|constructor]. exists a_bytes. split; [done|]. vm_compute. done. Qed.

Lemma a_path_ok : Forall (λ c, c ≠ 0) a_path.
Proof. by repeat constructor. Qed.

Lemma can_put_disk : can_put disk a_path.
Proof. assert (parent disk root (comps 3 a_path) = Some root) as E by (vm_compute; reflexivity). unfold can_put.
  assert (resolve disk root a_path = None) as -> by (vm_compute; reflexivity). change (S (length a_path)) with 3%nat. by rewrite E. Qed.

Lemma disk1_stored : do_put [a_path] a_reads disk = Ret EXIT_SUCCESS disk1 ∧ stored disk a_path a_bytes disk1.
Proof.
  destruct (runs_returns _ _ _ _ (do_put_runs small_ok small_dirent disk a_path a_reads disk_rooted disk_roomy a_path_ok a_reads_ok
    ltac:(vm_compute; done))) as (st & img' & E & [(-> & _ & HS)|(_ & Hn & _)]); [apply disk_room; vm_compute; lia| |by destruct Hn; apply can_put_disk].
  assert (disk1 = img') as -> by (unfold disk1; by rewrite E). split; [done|]. exact HS.
Qed.

Lemma disk1_rooted : rooted disk1.
Proof. apply disk1_stored. Qed.

Lemma disk1_fs : fs_ok disk1.
Proof. apply disk1_rooted. Qed.

Lemma disk1_resolve : resolve disk1 root a_path = Some a_ptr.
Proof. vm_compute. reflexivity. Qed.

Lemma disk1_content : content disk1 a_ptr = a_bytes.
Proof. vm_compute. reflexivity. Qed.

Lemma disk1_inode : ∃ d, inodes disk1 !! a_ptr = Some d ∧ d_type d = T_FILE ∧ d_size d = 40.
Proof. eexists. split; [vm_compute; reflexivity|done]. Qed.

Lemma disk1_room k : (k ≤ 20)%nat → room disk1 k.
Proof.
  intros Hk. right. split.
  - intros b Hb. change (0 ≤ b < 0 + 8) in Hb. apply (range_check (used disk1) 0 8); [vm_compute; reflexivity|done].
  - assert (nfree disk1 = 21%nat) as -> by (vm_compute; reflexivity). lia.
Qed.

(** ** The theorems on the sample *)

Lemma balloc_correct_witness : ∃ b img', balloc disk = Ret b img' ∧ is_data (sblk disk) b ∧ used disk b = false ∧
  (∀ x, 0 ≤ x < b → used disk x = true) ∧ allocated disk b img' ∧ (24 ≤ S (nfree img'))%nat.
Proof.
  pose proof (balloc_correct small_ok disk disk_layout disk_boot) as H. rewrite disk_nfree in H. exact H.
Defined.

Lemma iread_correct_witness : iread a_ptr (replicate 20 0) 20 30 disk1 = Ret (seqZ 31 10 ++ replicate 10 0, 10) disk1.
Proof.
  destruct disk1_inode as (d & Ed & Ht & Hs).
  rewrite (iread_correct small_ok disk1 a_ptr d (replicate 20 0) 20 30 disk1_fs Ed);
    [|split; [by apply Z.leb_le|by apply Z.ltb_lt]|by apply Z.leb_le|by apply Z.leb_le].
  rewrite Ht, Hs, disk1_content. reflexivity.
Defined.

Lemma iwrite_correct_witness : ∃ img', iwrite a_ptr (replicate 30 9) 30 38 disk1 = Ret 30 img' ∧
  content img' a_ptr = seqZ 1 38 ++ replicate 30 9.
Proof.
  destruct disk1_inode as (d & Ed & Ht & Hs).
  pose proof (iwrite_correct small_ok disk1 a_ptr d (replicate 30 9) 30 38 disk1_fs Ed) as H. rewrite Ht, Hs, disk1_content in H.
  destruct H as (img' & E & HF);
    [split; [by apply Z.leb_le|by apply Z.ltb_lt]|by apply Z.leb_le|by apply Z.leb_le|apply disk1_room; vm_compute; lia|].
  exists img'. split; [exact E|]. exact (fset_content _ _ _ _ HF).
Defined.

Lemma itruncate_correct_witness : ∃ img', itruncate a_ptr 100 disk1 = Ret 0 img' ∧ content img' a_ptr = a_bytes ++ replicate 60 0.
Proof.
  destruct disk1_inode as (d & Ed & Ht & Hs).
  pose proof (itruncate_correct small_ok disk1 a_ptr d 100 disk1_fs Ed) as H. rewrite Ht, disk1_content in H.
  destruct H as (img' & E & HF); [by apply Z.leb_le|apply disk1_room; vm_compute; lia|].
  exists img'. split; [exact E|]. exact (fset_content _ _ _ _ HF).
Defined.


Lemma daddent_dlookup_witness : ∃ img' o, daddent root [98] (inode_ptr 3) disk = Ret 0 img' ∧
  dlookup root [98] img' = Ret (Some (inode_ptr 3), o) img'.
Proof.
  pose proof disk_rooted as (HT & _ & Hd).
  destruct (daddent_dlookup small_ok small_dirent disk root [98] 3 HT Hd) as (img' & o & E & _ & El & _).
  - split; done.
  - vm_compute. done.
  - vm_compute. reflexivity.
  - by apply disk_roomy.
  - apply disk_room. lia.
  - exists img', o. split; [exact E|exact El].
Defined.



Lemma do_rm_correct_witness : ∃ img', do_rm [a_path] disk1 = Ret EXIT_SUCCESS img' ∧ resolve img' root a_path = None ∧
  (λ d, d_type d) <$> inodes img' !! a_ptr = Some 0 ∧ content img' a_ptr = [].
Proof.
  pose proof (do_rm_correct small_ok small_dirent disk1 a_path disk1_rooted a_path_ok) as H. cbv zeta in H.
  rewrite disk1_resolve in H.
  assert (is_dir disk1 a_ptr || is_dots (List.last (comps (S (length a_path)) a_path) []) = false) as E by (vm_compute; reflexivity).
  rewrite E in H. destruct H as (img' & E1 & _ & E2 & Hu & _). exists img'. split; [exact E1|]. split; [exact E2|].
  destruct (inodes disk1 !! a_ptr) as [d|] eqn:Ed; [|vm_compute in Ed; discriminate Ed].
  assert (d_nlink d = 1) as Hl by (vm_compute in Ed; injection Ed as <-; reflexivity).
  destruct (Hu d Ed) as (d' & Ed' & Hd). rewrite Hl in Hd. destruct Hd as [Ht Hc]. rewrite Ed'. split; [|exact Hc].
  cbn [fmap option_fmap option_map]. by rewrite Ht.
Defined.

(** ** An image of mkfs *)

#[local] Instance tiny : MkfsConf := { FSSIZE := 150; LOGSIZE := 10; ROOTINO := 1 }.

Lemma tiny_ok : conf_ok small tiny.
Proof. split; done. Qed.

(** Forty bytes, in two pieces, as ".fs/a". *)
Definition mk_args : list (list Z * option (list (list Z))) := [([46; 102; 115; 47; 97], Some [seqZ 1 32; seqZ 33 8])].

Lemma mk_args_ok : args_ok mk_args.
Proof.
  split; try done.
  - by intros f ->%list_elem_of_singleton.
  - intros f ->%list_elem_of_singleton. split_and!; [done| |done]. by apply (bool_decide_eq_true_1 _).
  - by apply (bool_decide_eq_true_1 _).
Qed.


(** ** Types *)

Lemma small_bytes : bytes_laws small.
Proof.
  split; [done| |].
  - intros [inum name] Hi Hn. cbn in *. assert (∀ i, byte (byte_at name i)) as Hb.
    { intros i. unfold byte_at. destruct (name !! i) as [x|] eqn:E; [by eapply list.Forall_lookup_1|split; done]. }
    unfold byte, in_u in Hi. repeat apply list.Forall_cons_2; try apply Hb; [| |constructor].
    + by apply Z.mod_pos_bound.
    + split; [apply Z.div_pos; lia|apply Z.div_lt_upper_bound; lia].
  - intros n. split; [apply Forall_replicate; split; done|apply length_replicate].
Qed.

Definition fields_ok (d : dinode) : bool :=
  forallb (λ x, (0 <=? x) && (x <? 256)) ([d_type d; d_major d; d_minor d; d_nlink d; d_size d; d_owner d; d_group d; d_mode d] ++ d_addrs d) &&
  (length (d_addrs d) =? 3)%nat.

Lemma disk_typed : typed disk disk.
Proof.
  assert (map_Forall (λ _ d, fields_ok d = true) (inodes disk)) as H1 by (apply map_Forall_to_list; vm_compute; repeat constructor).
  assert (map_Forall (λ _ l, forallb (λ x, (0 <=? x) && (x <? 256)) l && (length l =? 32)%nat = true) (blks disk)) as H2
    by (apply map_Forall_to_list; vm_compute; repeat constructor).
  assert (∀ l, forallb (λ x, (0 <=? x) && (x <? 256)) l = true → Forall byte l) as Hl.
  { intros l. rewrite forallb_forall, list.Forall_forall. intros H x Hx%list_elem_of_In%H. unfold byte, in_u.
    rewrite andb_true_iff, Z.leb_le, Z.ltb_lt in Hx. done. }
  split; try done.
  - intros p d [E1%Hl E2%Nat.eqb_eq]%H1%andb_true_iff. apply Forall_app in E1 as [E1 E3].
    repeat apply list.Forall_cons in E1 as [? E1]. unfold byte, in_u in *.
    split; try (unfold in_u; lia); [|done]. eapply Forall_impl; [exact E3|]. unfold byte, in_u. intros; lia.
  - intros b l [E1%Hl E2%Nat.eqb_eq]%H2%andb_true_iff. done.
Qed.

